(* ===== verification/_CoqProject ===== *)
-Q . S2P
Prelude.v
CallDecoder.v
Machine.v
Paths.v
SimKernel.v
Ptrace.v
Process.v
DebuggerState.v
Debugger.v
DebuggerWait.v
DebuggerInvariants.v
DebuggerReach.v
Breakpoints.v
Watchpoints.v
Termination.v
ByteReader.v
TraceeReads.v
FramePointer.v
ElfFormat.v
SourcePath.v
ModulePath.v
Elf.v
Core.v
CoreExtras.v
ElfProofs.v
ModulePathProofs.v
CoreProofs.v
EhFrame.v
EhFrameProofs.v
EhFrameSignal.v
CfaProgram.v
EhFrameSignalProofs.v
SignalContext.v
SnapshotMemory.v
SnapshotMemoryProofs.v
LineTable.v
SourceLines.v
ModuleMap.v
Loader.v
Unwind.v
UnwindProofs.v
Inspection.v
InspectionProofs.v
LocalValue.v
InlineMember.v
InlineMemberProofs.v
Session.v
SessionProofs.v
LoaderProofs.v
LineTableProofs.v
LoaderReturns.v
SourceStep.v
SourceMotionProofs.v
Registry.v
RegistryProofs.v
DebugInfo.v
DebugInfoProofs.v
DebugTree.v
DebugScopes.v
DebugScopesProofs.v
CliText.v
CliTextProofs.v
CoreCli.v
CoreCliProofs.v
DebugTypes.v
DebugValues.v
SnapshotValues.v
InlineValues.v
LiveValues.v
DebugTypesProofs.v
DebugValuesProofs.v
DebugMemberProofs.v
DebugLookupProofs.v
LiveValuesProofs.v
SnapshotValuesProofs.v
LivePrint.v
LiveCli.v
LiveCliProofs.v
LiveSession.v
LiveEnd.v
