(* ===== verification/Prelude.v ===== *)
(** * Verification of mini-debugger

    mini-debugger is an x86-64 Linux debugger: it launches or attaches to a process with
    [ptrace], sets software breakpoints and one hardware watchpoint, follows forks, threads
    and [exec], steps by source line, keeps breakpoints pending until the dynamic loader maps
    their module, unwinds the stack and inspects core files.  This library models the
    program's own code, file by file, and proves what each part promises.

    ** How the model reads

    C++ code becomes executable Gallina.  An expression that may throw is a [res]: a value, an
    exception with its class and message, undefined behaviour ([Undef]) or, for a loop given a
    bound, [OutOfFuel].  A method is a function of the monad [M S] on the state [S] of its
    object; what it changed before it threw stays changed.  Machine integers are values of
    [Z] with their wrap-around written out ([u64], [i64], [to_signed]); bytes are
    [Byte.byte]; a [std::map] is a [gmap] visited in key order.  A comment
    [(* src/dir/file:A-B symbol *)] before a definition names the lines it translates.

    The kernel is not code of the repository.  [Machine.Kernel] is the interface of the
    requests the program makes, [KernelLaws] and [DetachLaws] their documented behaviour, [SimKernel] a
    concrete kernel with all of it, on which the witnesses run.  The file system is
    [ElfFormat.Host], [FileAccess], [ProcMaps] and [ModuleMap.FileIdentity].  The
    core session and the core command line are written against the interface
    [LocalValue.LocalInspection]; [InlineValues.SourceLookup] is its instance, the DWARF
    source lookup of the repository.

    ** The parts

    - Foundations: [Prelude] (outcomes, the monad, the frameworks [settles], [yields],
      [preserves] and [post] with their tactics), [Machine], [SimKernel], [Paths]
      ([std::filesystem::path]), [ByteReader] (bounds-checked readers, LEB128), [ElfFormat].
    - Live process: [Ptrace] (ptrace/ptrace.cpp), [Process] (process/), [DebuggerState],
      [Debugger], [DebuggerWait] (debugger/, registers/, breakpoints/breakpoint.hpp).
      [dst] is the debugger object over a world; a [domain] is what the object keeps per
      followed process.
    - Users of the debugger: [Loader] (loader/deferred_symbol_breakpoints.cpp, on [lst]),
      [Registry] (breakpoints/user_breakpoint_registry.hpp, on [rst]), [SourceStep]
      (source/source_step.cpp, source_finish.cpp), [CallDecoder] (x86/),
      [FramePointer] and [Unwind] (unwind/), [ModuleMap] (the modules of unwind/cfi.cpp).
    - Files: [Elf], [Core], [CoreExtras] (elf/, snapshot/startup.hpp), [EhFrame],
      [EhFrameSignal] (dwarf/eh_frame.cpp, eh_frame_signal.hpp), [LineTable], [SourceLines]
      (dwarf/line_table.cpp), [SourcePath] (source/source_path.hpp), [ModulePath]
      (snapshot/module_path.hpp).
    - Core inspection: [SignalContext], [SnapshotMemory], [Inspection], [Session]
      (snapshot/), [LocalValue], [InlineMember] (dwarf/local_value.hpp, inline_member.hpp).
    - DWARF source lookup (dwarf/source_lookup.cpp, source_lookup_impl.inc,
      source_lookup_snapshot_impl.inc): [DebugInfo] reads units, abbreviations and entries;
      [DebugScopes] finds the scopes and inline calls of an address and the variables they
      hold; [DebugTypes] resolves types, [DebugValues] location lists, the bytes of a
      value and the one variable of a name; [SnapshotValues] and [InlineValues]
      read it from a core, [LiveValues] from the stopped process.
    - Core command line (cli/core_main.cpp): [CliText] (number texts, stream formats) and
      [CoreCli] (arguments, command loop, commands, everything printed).
    - Live command line (cli/main.cpp): [LivePrint] (the session [live_cli] and everything
      printed) and [LiveCli] (arguments, command loop, every command, the destructors at the
      end; the objects of a map are destroyed in key order).

    ** What is proved

    - The debugger object ([DebuggerInvariants], [DebuggerReach]): its tables stay
      consistent along every sequence of calls, exceptions included.
    - Breakpoints are transparent ([Breakpoints]): the user's view of
      memory, with the original byte under every trap byte, is the specification; every
      operation is a step on that view.  The watchpoint leaves the other debug registers
      alone and puts back what it changed ([Watchpoints]).
    - The loops return ([Termination], [LoaderReturns]): on a kernel with finitely many
      events they end in a stop, an exception or a named undefined behaviour, no bound above
      that number is reached, and a stop reports the event that was waited for.
    - Deferred breakpoints and the registry ([LoaderProofs], [RegistryProofs]): requests and
      installed breakpoints agree whatever the loader reports; adding and removing a
      breakpoint is a round trip.
    - Source motion ([SourceMotionProofs]): a step stops at the first change of line, and
      [next] and [finish] leave no breakpoint of their own behind.
    - Unwinding ([CfaProgram], [UnwindProofs], [FramePointer],
      [EhFrameSignalProofs]): the interpreter of CFA programs implements the table
      semantics of DWARF, a backtrace is a chain of callers up the stack, and signal
      frames are told from ordinary ones consistently.
    - Parsers ([ElfProofs], [CoreProofs], [LineTableProofs],
      [ModulePathProofs], [EhFrameProofs]): on any bytes they return or throw, never read
      outside the file, and what they return is well formed; lookups are exact.
    - Core inspection ([SnapshotMemoryProofs], [InspectionProofs], [SessionProofs],
      [InlineMemberProofs]): bytes come from the core or, when it has none of them, from
      the runtime file; traces are chains of callers whose frames pass the session's
      checks; the selection of a session stays valid; a selected member lies inside its owner.
    - DWARF source lookup: the flat list of entries is the forest the bytes encode
      ([DebugTree]); the inline chain and the visible variables of an address are those its
      scopes give ([DebugScopesProofs]); a resolved type is bounded, with every member in its
      structure ([DebugTypesProofs]); a value is a function of its bytes
      ([DebugValuesProofs]) and a member the slice at its place ([DebugMemberProofs]);
      reading a variable returns or throws, from a core ([DebugInfoProofs],
      [DebugLookupProofs], [SnapshotValuesProofs]) and from the stopped process, which it
      leaves as it was ([LiveValuesProofs]).
    - Core command line ([CliTextProofs], [CoreCliProofs]): no command changes the session
      beyond its selection, the exit status says how it ended, printed numbers are read back.
    - Live command line ([LiveCliProofs]): a command that inspects the stopped thread always
      comes back to the prompt and changes nothing but the output and the selected frame.
    - A whole live session ([LiveSession], [LiveEnd]): whatever the user types, the debugger
      object and the registry stay objects their own calls can reach; a breakpoint set and
      deleted at the prompt leaves every byte as it was; the selected frame is one of the
      current stop; leaving an attached process gives it back the memory its user saw and
      releases each of its threads, however the command loop ended.

    ** Bounds

    A parser's loop is given as many turns as the bytes it can still consume, and every turn
    consumes one; a walk up the stack has as many turns as its frame limit.  That they are
    enough is part of the totality theorems ([settles], [yields]: never [OutOfFuel]).  The
    loops that wait for the kernel take their bound as an argument [fuel]; [FiniteEvents]
    gives the number of turns after which they have returned.

    ** Not modelled

    - That the discovery of inline calls ends without overflow is not claimed: it runs the
      line-table program, whose line register overflows on crafted input
      ([LineTableProofs.advance_line_overflows]).
    - Overloads that only pass a default argument or a line table the callee ignores; the
      truncation of a link longer than 4096 bytes in [finish]; an instruction limit of
      [SIZE_MAX], which the model's steps take as any other limit.
    - Memory exhaustion ([std::bad_alloc], and the [std::length_error] of reserving room for
      more than 2^63 - 1 bytes) and concurrency: the program is single-threaded. *)

From stdpp Require Export prelude gmap strings list sorting.
From Stdlib Require Export ZArith Lia Ascii.
From Stdlib.Strings Require Export Byte.

#[export] Set Default Goal Selector "!".
Open Scope string_scope.
Open Scope list_scope.
Open Scope Z_scope.

(** ** Outcomes of C++ code

    [res A] is what a C++ expression of type [A] does: it produces a value,
    throws, runs into undefined behaviour, or (for loops that are modelled with
    a bound) has not finished within the bound. *)

Inductive exn_class :=
  | RuntimeError
  | OverflowError
  | UnderflowError
  | PtraceError (errno : Z)
  | FilesystemError
  | LogicError
  | InvalidArgument
  | OutOfRange.

Record exn := Exn { exn_cls : exn_class; exn_what : string }.

#[export] Instance exn_class_eq_dec : EqDecision exn_class.
Proof. solve_decision. Defined.
#[export] Instance exn_eq_dec : EqDecision exn.
Proof. solve_decision. Defined.

(** The classes derived from [std::runtime_error] ([catch (const std::runtime_error&)]). *)
Definition is_runtime_error (e : exn) : bool :=
  match exn_cls e with
  | RuntimeError | OverflowError | UnderflowError | PtraceError _ | FilesystemError => true
  | LogicError | InvalidArgument | OutOfRange => false
  end.

Definition is_ptrace_error (e : exn) : bool :=
  match exn_cls e with PtraceError _ => true | _ => false end.

Inductive res (A : Type) :=
  | Ok (a : A)
  | Throw (e : exn)
  | Undef (what : string)
  | OutOfFuel.
Arguments Ok {A} a.
Arguments Throw {A} e.
Arguments Undef {A} what.
Arguments OutOfFuel {A}.

#[export] Instance res_ret : MRet res := @Ok.
#[export] Instance res_bind : MBind res := fun A B f m =>
  match m with
  | Ok a => f a
  | Throw e => Throw e
  | Undef w => Undef w
  | OutOfFuel => OutOfFuel
  end.
#[export] Instance res_fmap : FMap res := fun A B f m =>
  match m with
  | Ok a => Ok (f a)
  | Throw e => Throw e
  | Undef w => Undef w
  | OutOfFuel => OutOfFuel
  end.

Definition runtime_error {A} (msg : string) : res A := Throw (Exn RuntimeError msg).
Definition logic_error {A} (msg : string) : res A := Throw (Exn LogicError msg).
Definition invalid_argument {A} (msg : string) : res A := Throw (Exn InvalidArgument msg).
Definition out_of_range {A} (msg : string) : res A := Throw (Exn OutOfRange msg).

(** [if (bad) throw ...;] *)
Definition throw_if (bad : bool) (e : exn) : res unit :=
  if bad then Throw e else Ok tt.

Definition is_ok {A} (r : res A) : bool := match r with Ok _ => true | _ => false end.
Definition is_undef {A} (r : res A) : bool := match r with Undef _ => true | _ => false end.

(** A computation without undefined behaviour. *)
Definition defined {A} (r : res A) : Prop := is_undef r = false.

Lemma bind_Ok {A B} (m : res A) (f : A -> res B) b :
  m ≫= f = Ok b <-> exists a, m = Ok a /\ f a = Ok b.
Proof.
  destruct m; simpl; split; [eauto|intros (? & [= ->] & ?); done|..];
    first [discriminate | intros (? & ? & ?); discriminate].
Qed.

Lemma throw_if_Ok b e u : throw_if b e = Ok u <-> b = false.
Proof. destruct b, u; simpl; naive_solver. Qed.

Lemma defined_bind {A B} (m : res A) (f : A -> res B) :
  defined m -> (forall a, m = Ok a -> defined (f a)) -> defined (m ≫= f).
Proof. destruct m; unfold defined; simpl; eauto. Qed.

(** A result or an exception: no undefined behaviour, and within the bound. *)
Definition settles {A} (r : res A) : Prop :=
  match r with Ok _ | Throw _ => True | Undef _ | OutOfFuel => False end.

Lemma settles_bind {A B} (m : res A) (f : A -> res B) :
  settles m -> (forall a, m = Ok a -> settles (f a)) -> settles (m ≫= f).
Proof. destruct m; simpl; eauto. Qed.

Lemma settles_throw_if b e : settles (throw_if b e).
Proof. by destruct b. Qed.

Lemma settles_mapM {A B} (f : A -> res B) (l : list A) :
  (forall x, x ∈ l -> settles (f x)) -> settles (mapM f l).
Proof.
  induction l as [|x l IH]; intros H; [done|]. simpl. apply settles_bind; [apply H; left|intros y _].
  apply settles_bind; [apply IH; intros z Hz; apply H; by right|done].
Qed.

(** A result with property [P], or an exception. *)
Definition yields {A} (P : A -> Prop) (r : res A) : Prop :=
  match r with Ok a => P a | Throw _ => True | Undef _ | OutOfFuel => False end.

Lemma yields_settles {A} (P : A -> Prop) r : yields P r -> settles r.
Proof. by destruct r. Qed.
Lemma yields_Ok {A} (P : A -> Prop) r a : yields P r -> r = Ok a -> P a.
Proof. by intros H ->. Qed.
Lemma settles_yields {A} (r : res A) : settles r -> yields (fun a => r = Ok a) r.
Proof. by destruct r. Qed.
Lemma yields_weaken {A} (P Q : A -> Prop) r : (forall a, P a -> Q a) -> yields P r -> yields Q r.
Proof. destruct r; simpl; auto. Qed.
Lemma yields_bind {A B} (P : A -> Prop) (Q : B -> Prop) (m : res A) (f : A -> res B) :
  yields P m -> (forall a, P a -> yields Q (f a)) -> yields Q (m ≫= f).
Proof. destruct m; simpl; eauto. Qed.
Lemma yields_throw_if b e : yields (fun _ => b = false) (throw_if b e).
Proof. by destruct b. Qed.
Lemma yields_mapM {A B} (P : B -> Prop) (f : A -> res B) (l : list A) :
  (forall x, x ∈ l -> yields P (f x)) -> yields (Forall P) (mapM f l).
Proof.
  induction l as [|x l IH]; intros H; [by constructor|]. simpl.
  eapply yields_bind; [apply H; left|intros y Hy].
  eapply yields_bind; [apply IH; intros z Hz; apply H; by right|intros l' Hl']. by constructor.
Qed.

Lemma yields_mapM_length {A B} (P : B -> Prop) (f : A -> res B) (l : list A) :
  (forall x, x ∈ l -> yields P (f x)) -> yields (fun l' => Forall P l' /\ length l' = length l) (mapM f l).
Proof.
  induction l as [|x l IH]; intros H; [by split; [constructor|]|]. simpl.
  eapply yields_bind; [apply H; left|intros y Hy].
  eapply yields_bind; [apply IH; intros z Hz; apply H; by right|intros l' [Hl' E]].
  split; [by constructor|]. simpl. by rewrite E.
Qed.

(** Splits off a guard: [yields Q (throw_if b e ≫= f)]. *)
Lemma yields_mapM_Forall2 {A B} (R : A -> B -> Prop) (f : A -> res B) (l : list A) :
  (forall a, a ∈ l -> yields (R a) (f a)) -> yields (Forall2 R l) (mapM f l).
Proof.
  induction l as [|a l IH]; intros Hf; [by constructor|]. simpl.
  eapply yields_bind; [apply Hf; constructor|intros b Hb].
  eapply yields_bind; [apply IH; intros; apply Hf; by constructor|intros bs Hbs]. by constructor.
Qed.
Lemma yields_guard {B} (Q : B -> Prop) b e (f : unit -> res B) :
  (b = false -> yields Q (f tt)) -> yields Q (throw_if b e ≫= f).
Proof. intros H. eapply yields_bind; [apply yields_throw_if|]. intros [] Hb. auto. Qed.

Create HintDb msettle discriminated.
#[export] Hint Resolve settles_throw_if : msettle.
#[export] Hint Extern 0 (settles (Ok _)) => exact I : msettle.
#[export] Hint Extern 0 (settles (Throw _)) => exact I : msettle.
#[export] Hint Extern 0 (settles (runtime_error _)) => exact I : msettle.
#[export] Hint Extern 0 (settles (out_of_range _)) => exact I : msettle.
#[export] Hint Extern 0 (settles (invalid_argument _)) => exact I : msettle.

Ltac settles_step :=
  lazymatch goal with
  | |- settles (mbind _ _) => apply settles_bind; [|intros ? ?]
  | |- settles (let _ := _ in _) => cbv zeta
  | |- settles (match ?x with _ => _ end) => destruct x eqn:?
  end.
Ltac settles_auto := repeat (solve [eauto with msettle] || settles_step).

(** Splits hypotheses [m ≫= f = Ok b] into the results of their parts. *)
Ltac inv_res :=
  repeat match goal with
  | H : mbind _ _ = Ok _ |- _ =>
      apply bind_Ok in H as (? & ? & ?)
  | H : throw_if _ _ = Ok _ |- _ => apply throw_if_Ok in H
  | H : Ok _ = Ok _ |- _ => injection H as H
  | H : mret _ = Ok _ |- _ => injection H as H
  | H : Throw _ = Ok _ |- _ => discriminate H
  | H : Undef _ = Ok _ |- _ => discriminate H
  | H : OutOfFuel = Ok _ |- _ => discriminate H
  | H : runtime_error _ = Ok _ |- _ => discriminate H
  | H : logic_error _ = Ok _ |- _ => discriminate H
  | H : invalid_argument _ = Ok _ |- _ => discriminate H
  end.

(** Linear arithmetic with division and remainder by constants. *)
Ltac dlia := Z.to_euclidean_division_equations; lia.

(** ** Bytes and machine integers

    [std::byte] is [Byte.byte]; a machine integer is its value in [Z], with the
    wrap-around written out. *)

#[export] Instance byte_eq_dec : EqDecision byte := Byte.byte_eq_dec.

Definition byte_val (b : byte) : Z := Z.of_N (Byte.to_N b).

Lemma byte_val_range b : 0 <= byte_val b < 256.
Proof.
  unfold byte_val. pose proof (Byte.to_N_bounded b). lia.
Qed.

Lemma byte_val_inj a b : byte_val a = byte_val b -> a = b.
Proof.
  unfold byte_val. intros H. apply N2Z.inj in H.
  apply (f_equal Byte.of_N) in H. rewrite !Byte.of_to_N in H. congruence.
Qed.

(** [static_cast<std::byte>(z)]: the low eight bits. *)
Definition byte_of_Z (z : Z) : byte :=
  match Byte.of_N (Z.to_N (z mod 256)) with Some b => b | None => Byte.x00 end.

Lemma byte_val_of_Z z : byte_val (byte_of_Z z) = z mod 256.
Proof.
  unfold byte_of_Z, byte_val.
  pose proof (Z.mod_pos_bound z 256 ltac:(lia)) as Hb.
  destruct (Byte.of_N (Z.to_N (z mod 256))) as [b|] eqn:E.
  - apply Byte.to_of_N in E. rewrite E. lia.
  - apply Byte.of_N_None_iff in E. lia.
Qed.

Lemma byte_of_Z_val b : byte_of_Z (byte_val b) = b.
Proof.
  apply byte_val_inj. rewrite byte_val_of_Z.
  apply Z.mod_small, byte_val_range.
Qed.

Definition u64_max : Z := 18446744073709551615.
Definition i64_max : Z := 9223372036854775807.
Definition i64_min : Z := -9223372036854775808.

(** Reduction modulo 2^64 of [std::uint64_t], [std::uintptr_t] and [std::size_t]. *)
Definition u64 (z : Z) : Z := z mod 18446744073709551616.
Definition in_u64 (z : Z) : Prop := 0 <= z <= u64_max.

(** The two's-complement value of the low [w] bits. *)
Definition to_signed (w z : Z) : Z :=
  let m := z mod 2 ^ w in
  if m <? 2 ^ (w - 1) then m else m - 2 ^ w.

Definition i64 (z : Z) : Z := to_signed 64 z.

Lemma u64_range z : 0 <= u64 z <= u64_max.
Proof. unfold u64, u64_max. pose proof (Z.mod_pos_bound z 18446744073709551616). lia. Qed.

Lemma u64_small z : in_u64 z -> u64 z = z.
Proof. unfold u64, in_u64, u64_max. intros H. apply Z.mod_small. lia. Qed.

Lemma i64_range z : i64_min <= i64 z <= i64_max.
Proof.
  unfold i64, to_signed, i64_min, i64_max.
  change (2 ^ 64) with 18446744073709551616. change (2 ^ (64 - 1)) with 9223372036854775808.
  pose proof (Z.mod_pos_bound z 18446744073709551616 ltac:(lia)).
  destruct (Z.ltb_spec (z mod 18446744073709551616) 9223372036854775808); lia.
Qed.

(** Masking with a constant [2^n - 1]. *)
Lemma land_mask z n m : 0 <= n -> m = Z.ones n -> Z.land z m = z mod 2 ^ n.
Proof. intros Hn ->. by apply Z.land_ones. Qed.

(** Little-endian decoding ([std::memcpy] into an integer on x86-64). *)
Fixpoint le_combine (l : list byte) : Z :=
  match l with
  | [] => 0
  | b :: t => byte_val b + 256 * le_combine t
  end.

Fixpoint le_split (n : nat) (z : Z) : list byte :=
  match n with
  | O => []
  | S n => byte_of_Z z :: le_split n (z / 256)
  end.

Lemma le_combine_bound l : 0 <= le_combine l < 256 ^ Z.of_nat (length l).
Proof.
  induction l as [|b l IH]; [simpl; lia|].
  cbn [le_combine length]. rewrite Nat2Z.inj_succ, Z.pow_succ_r by lia.
  pose proof (byte_val_range b). lia.
Qed.

Lemma length_le_split n z : length (le_split n z) = n.
Proof. revert z. induction n; intros; simpl; auto. Qed.

Lemma le_combine_split n z : le_combine (le_split n z) = z mod 256 ^ Z.of_nat n.
Proof.
  revert z. induction n as [|n IH]; intros z; [simpl; symmetry; apply Z.mod_1_r|].
  cbn [le_split le_combine]. rewrite IH, byte_val_of_Z.
  rewrite Nat2Z.inj_succ, Z.pow_succ_r by lia.
  rewrite Z.rem_mul_r by lia. lia.
Qed.

Lemma le_split_combine l : le_split (length l) (le_combine l) = l.
Proof.
  induction l as [|b l IH]; [done|].
  cbn [length le_split le_combine]. pose proof (byte_val_range b).
  replace ((byte_val b + 256 * le_combine l) / 256) with (le_combine l)
    by (apply (Z.div_unique_pos _ _ _ (byte_val b)); lia).
  rewrite IH. f_equal. apply byte_val_inj. rewrite byte_val_of_Z.
  symmetry. apply (Z.mod_unique_pos _ _ (le_combine l)); lia.
Qed.

(** The low byte of a word, and a word with its low byte replaced. *)
Lemma lor_shiftl_add q v n :
  0 <= n -> 0 <= v < 2 ^ n -> Z.lor (Z.shiftl q n) v = 2 ^ n * q + v.
Proof.
  intros Hn Hv.
  assert (Hd : Z.land (Z.shiftl q n) v = 0).
  { apply Z.bits_inj'. intros i Hi. rewrite Z.land_spec, Z.bits_0, Z.shiftl_spec by lia.
    destruct (Z.ltb_spec i n).
    - by rewrite Z.testbit_neg_r by lia.
    - destruct (Z.eqb_spec v 0) as [->|]; [by rewrite Z.bits_0, andb_false_r|].
      rewrite (Z.bits_above_log2 v i); [by rewrite andb_false_r|lia|].
      apply Z.lt_le_trans with n; [|lia]. apply Z.log2_lt_pow2; lia. }
  rewrite <- Z.lxor_lor, <- Z.add_nocarry_lxor by done. rewrite Z.shiftl_mul_pow2 by lia. lia.
Qed.

Lemma clear_low_byte b t :
  Z.of_nat (length t) = 7 ->
  Z.land (le_combine (b :: t)) (u64 (Z.lnot 0xff)) = 256 * le_combine t.
Proof.
  intros Ht. pose proof (le_combine_bound (b :: t)) as Hb.
  cbn [length] in Hb. rewrite Nat2Z.inj_succ, Ht in Hb. change (256 ^ Z.succ 7) with (2 ^ 64) in Hb.
  rewrite <- (Z.mod_small (le_combine (b :: t)) (2 ^ 64)) by lia.
  rewrite <- Z.land_ones, <- Z.land_assoc by lia.
  change (Z.land (Z.ones 64) (u64 (Z.lnot 255))) with (Z.land (Z.ones 64) (Z.lnot (Z.ones 8))).
  rewrite Z.land_assoc, Z.land_ones, Z.mod_small by lia.
  rewrite <- Z.ldiff_land, Z.ldiff_ones_r, Z.shiftr_div_pow2, Z.shiftl_mul_pow2 by lia.
  cbn [le_combine]. pose proof (byte_val_range b). change (2 ^ 8) with 256. dlia.
Qed.

Lemma replace_low_byte b v t :
  Z.of_nat (length t) = 7 ->
  Z.lor (Z.land (le_combine (b :: t)) (u64 (Z.lnot 0xff))) (byte_val v) = le_combine (v :: t).
Proof.
  intros Ht. rewrite clear_low_byte by done. pose proof (byte_val_range v).
  replace (256 * le_combine t) with (Z.shiftl (le_combine t) 8)
    by (rewrite Z.shiftl_mul_pow2 by lia; lia).
  rewrite lor_shiftl_add by lia. cbn [le_combine]. lia.
Qed.

Lemma low_byte b t : byte_of_Z (Z.land (le_combine (b :: t)) 0xff) = b.
Proof.
  apply byte_val_inj. rewrite byte_val_of_Z, (land_mask _ 8) by done. pose proof (byte_val_range b).
  cbn [le_combine]. change (2 ^ 8) with 256. dlia.
Qed.

(** A total function on an initial segment is a list. *)
Lemma list_of_partial {A} (f : nat -> option A) n :
  (forall i, (i < n)%nat -> is_Some (f i)) ->
  exists l, length l = n /\ forall i, (i < n)%nat -> l !! i = f i.
Proof.
  induction n as [|n IH]; intros Hf; [exists []; split; [done|lia]|].
  destruct IH as (l & Hl & E); [intros; apply Hf; lia|].
  destruct (Hf n ltac:(lia)) as [x Hx]. exists (l ++ [x]). split; [rewrite length_app; simpl; lia|].
  intros i Hi. destruct (decide (i = n)) as [->|].
  - rewrite lookup_app_r, Hl, Nat.sub_diag by lia. done.
  - rewrite lookup_app_l by lia. apply E. lia.
Qed.

(** ** [std::map] with integer keys: a finite map visited in key order *)
Definition key_le {A} (x y : Z * A) : Prop := x.1 <= y.1.
#[export] Instance key_le_dec {A} : RelDecision (@key_le A).
Proof. intros x y. unfold key_le. apply _. Defined.
#[export] Instance key_le_trans {A} : Transitive (@key_le A).
Proof. intros x y z. unfold key_le. lia. Qed.
#[export] Instance key_le_total {A} : Total (@key_le A).
Proof. intros x y. unfold key_le. lia. Qed.

Definition map_in_order {A} (m : gmap Z A) : list (Z * A) := merge_sort key_le (map_to_list m).

Lemma map_in_order_perm {A} (m : gmap Z A) : map_in_order m ≡ₚ map_to_list m.
Proof. apply merge_sort_Permutation. Qed.

Lemma elem_of_map_in_order {A} (m : gmap Z A) k v : (k, v) ∈ map_in_order m <-> m !! k = Some v.
Proof. by rewrite map_in_order_perm, elem_of_map_to_list. Qed.

Lemma NoDup_map_in_order {A} (m : gmap Z A) : NoDup (map_in_order m).*1.
Proof. rewrite map_in_order_perm. apply NoDup_fst_map_to_list. Qed.

Lemma sorted_map_in_order {A} (m : gmap Z A) :
  StronglySorted key_le (map_in_order m).
Proof.
  apply (StronglySorted_merge_sort key_le).
Qed.

Lemma map_in_order_empty {A} : map_in_order (∅ : gmap Z A) = [].
Proof. apply Permutation_nil. symmetry. rewrite map_in_order_perm. by rewrite map_to_list_empty. Qed.

(** A list in order is extended by an element that fits its last. *)
Lemma sorted_snoc {A} (R : A -> A -> Prop) l x y : Sorted R (l ++ [x]) -> R x y -> Sorted R ((l ++ [x]) ++ [y]).
Proof.
  intros Hs Hr. induction l as [|a l IH]; [by repeat constructor|]. cbn [app] in *.
  apply Sorted_inv in Hs as [Hs Hd]. constructor; [by apply IH|].
  destruct l as [|b l]; cbn [app] in *; inversion Hd; by constructor.
Qed.

(** [std::unique] followed by [erase]: drops an element equal to its predecessor. *)
Fixpoint unique_from {A} (eqb : A -> A -> bool) (prev : A) (l : list A) : list A :=
  match l with
  | [] => []
  | y :: t => if eqb prev y then unique_from eqb prev t else y :: unique_from eqb y t
  end.

Definition unique_by {A} (eqb : A -> A -> bool) (l : list A) : list A :=
  match l with
  | [] => []
  | x :: t => x :: unique_from eqb x t
  end.

(** ** The state monad of the stateful components

    A method of a C++ object runs in a state that survives an exception: what it
    changed before the throw stays changed. *)

Definition M (S A : Type) : Type := S -> res A * S.

#[export] Instance M_ret {S} : MRet (M S) := fun A a s => (Ok a, s).
#[export] Instance M_bind {S} : MBind (M S) := fun A B f m s =>
  match m s with
  | (Ok a, s') => f a s'
  | (Throw e, s') => (Throw e, s')
  | (Undef w, s') => (Undef w, s')
  | (OutOfFuel, s') => (OutOfFuel, s')
  end.

Definition lift {S A} (r : res A) : M S A := fun s => (r, s).
Definition mget {S} : M S S := fun s => (Ok s, s).
Definition gets {S A} (f : S -> A) : M S A := fun s => (Ok (f s), s).
Definition modify {S} (f : S -> S) : M S unit := fun s => (Ok tt, f s).
Definition mthrow {S A} (c : exn_class) (msg : string) : M S A :=
  fun s => (Throw (Exn c msg), s).
Definition mundef {S A} (what : string) : M S A := fun s => (Undef what, s).
Definition mout_of_fuel {S A} : M S A := fun s => (OutOfFuel, s).
Definition mskip {S} : M S unit := fun s => (Ok tt, s).

(** [if (bad) throw ...;] *)
Definition mthrow_if {S} (bad : bool) (c : exn_class) (msg : string) : M S unit :=
  if bad then mthrow c msg else mskip.

(** [try { m } catch (...) { h }]. *)
Definition mcatch {S A} (m : M S A) (h : exn -> M S A) : M S A := fun s =>
  match m s with
  | (Throw e, s') => h e s'
  | r => r
  end.

(** [try { m } catch (...) { cleanup; throw; }]. *)
Definition mon_throw {S A} (m : M S A) (cleanup : M S unit) : M S A :=
  mcatch m (fun e => _ ← cleanup; lift (Throw e)).

(** [try { m } catch (...) { }]. *)
Definition mtry {S} (m : M S unit) : M S unit := mcatch m (fun _ => mskip).

Definition mwhen {S} (b : bool) (m : M S unit) : M S unit := if b then m else mskip.

Fixpoint mfor {S A} (l : list A) (f : A -> M S unit) : M S unit :=
  match l with
  | [] => mskip
  | x :: l => _ ← f x; mfor l f
  end.

(** Running a method of a member object. *)
Definition zoom {S T A} (get : S -> T) (put : T -> S -> S) (m : M T A) : M S A := fun s =>
  let '(r, t) := m (get s) in (r, put t s).

(** *** Running a method on a state *)

Lemma run_throw_if {S A} b c msg (f : unit -> M S A) s :
  (mthrow_if b c msg ≫= f) s = if b then (Throw (Exn c msg), s) else f tt s.
Proof. by destruct b. Qed.
Lemma run_gets {S A B} (g : S -> A) (f : A -> M S B) s : (gets g ≫= f) s = f (g s) s.
Proof. done. Qed.
Lemma run_mget {S B} (f : S -> M S B) s : (mget ≫= f) s = f s s.
Proof. done. Qed.
Lemma run_modify {S B} (g : S -> S) (f : unit -> M S B) s : (modify g ≫= f) s = f tt (g s).
Proof. done. Qed.
Lemma run_mskip {S B} (f : unit -> M S B) s : (mskip ≫= f) s = f tt s.
Proof. done. Qed.
Lemma run_ret {S A B} (a : A) (f : A -> M S B) s : (mret a ≫= f) s = f a s.
Proof. done. Qed.
Lemma run_mthrow {S A B} c msg (f : A -> M S B) s :
  (mthrow c msg ≫= f) s = (Throw (Exn c msg), s).
Proof. done. Qed.
Lemma run_lift_Ok {S A B} (a : A) (f : A -> M S B) s : (lift (Ok a) ≫= f) s = f a s.
Proof. done. Qed.
Lemma run_Ok {S A B} (m : M S A) (f : A -> M S B) s a s' :
  m s = (Ok a, s') -> (m ≫= f) s = f a s'.
Proof. intros H. unfold mbind, M_bind. by rewrite H. Qed.
Lemma run_Throw {S A B} (m : M S A) (f : A -> M S B) s e s' :
  m s = (Throw e, s') -> (m ≫= f) s = (Throw e, s').
Proof. intros H. unfold mbind, M_bind. by rewrite H. Qed.
Lemma run_assoc {S A B C} (m : M S A) (f : A -> M S B) (g : B -> M S C) s :
  ((m ≫= f) ≫= g) s = (m ≫= (fun a => f a ≫= g)) s.
Proof. unfold mbind, M_bind. by destruct (m s) as [[]]. Qed.
Lemma bind_M_Ok {S A B} (m : M S A) (f : A -> M S B) s b s' :
  (m ≫= f) s = (Ok b, s') <-> exists a s1, m s = (Ok a, s1) /\ f a s1 = (Ok b, s').
Proof.
  unfold mbind, M_bind. destruct (m s) as [[a|e|w|] s1]; split;
    first [intros H; eauto; discriminate | intros (a' & s1' & [= <- <-] & H); exact H | intros (? & ? & [=] & ?)].
Qed.
Create Rewrite HintDb mrun.
#[export] Hint Rewrite @run_throw_if @run_gets @run_mget @run_modify @run_mskip @run_ret
  @run_mthrow @run_lift_Ok @run_assoc : mrun.
Ltac mrun := autorewrite with mrun.

(** ** Preservation: an invariant holds whatever the outcome, exceptions included *)

Definition preserves {S A} (I : S -> Prop) (m : M S A) : Prop :=
  forall s, I s -> I (snd (m s)).

Lemma preserves_ret {S A} (I : S -> Prop) (a : A) : preserves I (mret a : M S A).
Proof. by unfold preserves. Qed.
Lemma preserves_lift {S A} (I : S -> Prop) (r : res A) : preserves I (lift r).
Proof. by unfold preserves. Qed.
Lemma preserves_mget {S} (I : S -> Prop) : preserves I mget.
Proof. by unfold preserves. Qed.
Lemma preserves_gets {S A} (I : S -> Prop) (f : S -> A) : preserves I (gets f).
Proof. by unfold preserves. Qed.
Lemma preserves_mthrow {S A} (I : S -> Prop) c msg : preserves I (mthrow c msg : M S A).
Proof. by unfold preserves. Qed.
Lemma preserves_mundef {S A} (I : S -> Prop) w : preserves I (mundef w : M S A).
Proof. by unfold preserves. Qed.
Lemma preserves_mout_of_fuel {S A} (I : S -> Prop) : preserves I (mout_of_fuel : M S A).
Proof. by unfold preserves. Qed.
Lemma preserves_mskip {S} (I : S -> Prop) : preserves I mskip.
Proof. by unfold preserves. Qed.
Lemma preserves_mthrow_if {S} (I : S -> Prop) b c msg : preserves I (mthrow_if b c msg).
Proof. unfold preserves. destruct b; simpl; auto. Qed.

Lemma preserves_modify {S} (I : S -> Prop) f :
  (forall s, I s -> I (f s)) -> preserves I (modify f).
Proof. intros H s. apply H. Qed.

Lemma preserves_bind {S A B} (I : S -> Prop) (m : M S A) (f : A -> M S B) :
  preserves I m -> (forall a, preserves I (f a)) -> preserves I (m ≫= f).
Proof.
  intros Hm Hf s Hs. unfold mbind, M_bind. specialize (Hm s Hs).
  destruct (m s) as [[a|e|w|] s']; [apply Hf| | |]; exact Hm.
Qed.

Lemma preserves_mcatch {S A} (I : S -> Prop) (m : M S A) h :
  preserves I m -> (forall e, preserves I (h e)) -> preserves I (mcatch m h).
Proof.
  intros Hm Hh s Hs. unfold mcatch. specialize (Hm s Hs).
  destruct (m s) as [[a|e|w|] s']; [|apply Hh| |]; exact Hm.
Qed.

Lemma preserves_mwhen {S} (I : S -> Prop) b (m : M S unit) :
  (b = true -> preserves I m) -> preserves I (mwhen b m).
Proof. destruct b; simpl; [auto|intros _; apply preserves_mskip]. Qed.

Lemma preserves_mfor {S A} (I : S -> Prop) (l : list A) (f : A -> M S unit) :
  (forall x, x ∈ l -> preserves I (f x)) -> preserves I (mfor l f).
Proof.
  induction l as [|x l IH]; intros H; [apply preserves_mskip|].
  apply preserves_bind; [apply H; left|]. intros _. apply IH. intros y Hy. apply H. by right.
Qed.

Create HintDb mdbg discriminated.
#[export] Hint Resolve preserves_ret preserves_lift preserves_mget preserves_gets
  preserves_mthrow preserves_mundef preserves_mout_of_fuel preserves_mskip
  preserves_mthrow_if : mdbg.

(** One structural step of a preservation proof. *)
Ltac preserves_step :=
  lazymatch goal with
  | |- forall _, _ => intro
  | |- preserves _ (mbind _ _) => apply preserves_bind
  | |- preserves _ (mcatch _ _) => apply preserves_mcatch
  | |- preserves _ (mon_throw _ _) => apply preserves_mcatch
  | |- preserves _ (mtry _) => apply preserves_mcatch
  | |- preserves _ (mwhen _ _) => apply preserves_mwhen
  | |- preserves _ (mfor _ _) => apply preserves_mfor
  | |- preserves _ (match ?x with _ => _ end) => destruct x
  | |- preserves _ (let '(_, _) := ?x in _) => destruct x
  end.
Ltac preserves_auto :=
  repeat (solve [eauto with mdbg] || preserves_step).

(** ** Outcomes: what a method returns and what it leaves in a part of the state *)

Section Post.
Context {S T : Type} (part : S -> T).

(** From a state whose part is [t], [m] ends in a result and a part with [Q]. *)
Definition post {A} (t : T) (m : M S A) (Q : res A -> T -> Prop) : Prop :=
  forall s, part s = t -> Q (fst (m s)) (part (snd (m s))).

(** [K] of a normal result; what [Q] says of a result that ends the rest as well. *)
Definition on_ok {A B} (Q : res B -> T -> Prop) (K : A -> T -> Prop) (r : res A) (t : T) : Prop :=
  match r with
  | Ok a => K a t
  | Throw e => Q (Throw e) t
  | Undef w => Q (Undef w) t
  | OutOfFuel => Q OutOfFuel t
  end.

Lemma post_bind {A B} t (m : M S A) (f : A -> M S B) Q :
  post t m (on_ok Q (fun a t' => post t' (f a) Q)) -> post t (m ≫= f) Q.
Proof.
  intros H s Hs. specialize (H s Hs). unfold mbind, M_bind.
  destruct (m s) as [[a|e|w|] s']; simpl in *; [by apply H|done..].
Qed.

Lemma post_weaken {A} t (m : M S A) (Q Q' : res A -> T -> Prop) :
  post t m Q -> (forall r t', Q r t' -> Q' r t') -> post t m Q'.
Proof. intros H Hq s Hs. by apply Hq, H. Qed.

(** A step known by its own outcome, then the rest. *)
Lemma post_step {A B} t (m : M S A) (f : A -> M S B) P (Q : res B -> T -> Prop) :
  post t m P -> (forall r t', P r t' -> on_ok Q (fun a t' => post t' (f a) Q) r t') -> post t (m ≫= f) Q.
Proof. intros Hm H. apply post_bind. by apply (post_weaken _ _ P). Qed.

Lemma post_catch {A} t (m : M S A) h Q :
  post t m (fun r t' => match r with Throw e => post t' (h e) Q | _ => Q r t' end) -> post t (mcatch m h) Q.
Proof.
  intros H s Hs. specialize (H s Hs). unfold mcatch.
  destruct (m s) as [[a|e|w|] s']; simpl in *; [done|by apply H|done..].
Qed.

Lemma post_mret {A} t (a : A) (Q : res A -> T -> Prop) : Q (Ok a) t -> post t (mret a) Q.
Proof. by intros H s <-. Qed.
Lemma post_mskip t (Q : res unit -> T -> Prop) : Q (Ok tt) t -> post t mskip Q.
Proof. by intros H s <-. Qed.
Lemma post_mthrow {A} t c msg (Q : res A -> T -> Prop) : Q (Throw (Exn c msg)) t -> post t (mthrow c msg) Q.
Proof. by intros H s <-. Qed.
Lemma post_lift {A} t (r : res A) (Q : res A -> T -> Prop) : Q r t -> post t (lift r) Q.
Proof. by intros H s <-. Qed.
Lemma post_out_of_fuel {A} t (Q : res A -> T -> Prop) : Q OutOfFuel t -> post t mout_of_fuel Q.
Proof. by intros H s <-. Qed.

Lemma post_guard {B} t b c msg (f : unit -> M S B) (Q : res B -> T -> Prop) :
  (b = true -> Q (Throw (Exn c msg)) t) -> (b = false -> post t (f tt) Q) -> post t (mthrow_if b c msg ≫= f) Q.
Proof. intros Ht Hf. destruct b; [by intros s <-; apply Ht|by apply Hf]. Qed.

Lemma post_mfor {A} (I : T -> Prop) t (l : list A) (f : A -> M S unit) :
  (forall x t', I t' -> post t' (f x) (fun _ => I)) -> I t -> post t (mfor l f) (fun _ => I).
Proof.
  intros Hf. revert t. induction l as [|x l IH]; intros t Ht; simpl; [by apply post_mskip|].
  eapply post_step; [by apply Hf|]. intros []; simpl; auto.
Qed.

(** A method that leaves the part alone. *)
Lemma post_same {A} t (m : M S A) (Q : res A -> T -> Prop) :
  (forall s, part (snd (m s)) = part s) -> (forall r, Q r t) -> post t m Q.
Proof. intros Hm Hq s <-. rewrite Hm. apply Hq. Qed.
End Post.
