(* ===== verification/CallDecoder.v ===== *)
(** * The x86-64 near-call decoder ([src/x86/call_decoder.cpp]) *)

From S2P Require Import Prelude.

Section Decode.
(** The [ByteReader] of the caller may throw and may read the tracee: the
    decoder runs in the caller's monad. *)
Context {M : Type -> Type} `{!MRet M, !MBind M}.

(* src/x86/call_decoder.hpp:9-9 ByteReader *)
Definition ByteReader : Type := Z -> M (option Z).

(* src/x86/call_decoder.cpp:30-30 decode_supported_near_call_length *)
Definition modrm_mod (b : Z) : Z := Z.land (Z.shiftr b 6) 0x3.
(* src/x86/call_decoder.cpp:31-31 decode_supported_near_call_length *)
Definition modrm_reg (b : Z) : Z := Z.land (Z.shiftr b 3) 0x7.
(* src/x86/call_decoder.cpp:32-32 decode_supported_near_call_length *)
Definition modrm_rm (b : Z) : Z := Z.land b 0x7.

(* src/x86/call_decoder.cpp:5-46 decode_supported_near_call_length *)
Definition decode_supported_near_call_length (read_byte : ByteReader) : M (option Z) :=
  o_first ← read_byte 0;
  match o_first with
  | None => mret None
  | Some first =>
    if first =? 0xe8 then mret (Some 5)
    else if (first =? 0x41) || (first =? 0x48) || (first =? 0x49) then
      opcode ← read_byte 1;
      modrm_byte ← read_byte 2;
      match opcode, modrm_byte with
      | Some opcode, Some modrm =>
        if negb (opcode =? 0xff) then mret None
        else if (modrm_reg modrm =? 2) && (modrm_mod modrm =? 3) then mret (Some 3)
        else mret None
      | _, _ => mret None
      end
    else if negb (first =? 0xff) then mret None
    else
      modrm_byte ← read_byte 1;
      match modrm_byte with
      | None => mret None
      | Some modrm =>
        let mod_ := modrm_mod modrm in
        let reg := modrm_reg modrm in
        let rm := modrm_rm modrm in
        if negb (reg =? 2) then mret None
        else if mod_ =? 3 then mret (Some 2)
        else if (mod_ =? 0) && (rm =? 5) then mret (Some 6)
        else if (mod_ =? 0) && (rm =? 4) then
          sib ← read_byte 2;
          match sib with
          | None => mret None
          | Some sib =>
            let base := Z.land sib 0x7 in
            mret (Some (if base =? 5 then 7 else 3))
          end
        else if mod_ =? 0 then mret (Some 2)
        else if mod_ =? 1 then mret (Some (if rm =? 4 then 4 else 3))
        else if mod_ =? 2 then mret (Some (if rm =? 4 then 7 else 6))
        else mret None
      end
  end.
End Decode.

(** ** The instruction grammar the decoder is meant to recognise

    A near call is [E8 rel32], or [FF /2] with a register, RIP-relative or
    base-memory operand; a single REX.B, REX.W or REX.W+B prefix is recognised
    on the register form. *)

Inductive near_call :=
  | CallRel32 (rel32 : list Z)
  | CallReg (rex : option Z) (rm : Z)
  | CallMem (mode rm : Z) (sib : option Z) (disp : list Z).

(** The size of the displacement the Intel manual assigns to an addressing mode. *)
Definition disp_size (mode rm : Z) (sib : option Z) : nat :=
  if mode =? 1 then 1%nat
  else if mode =? 2 then 4%nat
  else if rm =? 5 then 4%nat
  else match sib with
       | Some s => if s mod 8 =? 5 then 4%nat else 0%nat
       | None => 0%nat
       end.

Definition valid_call (c : near_call) : Prop :=
  match c with
  | CallRel32 d => length d = 4%nat
  | CallReg rex rm =>
      0 <= rm < 8 /\
      match rex with None => True | Some p => p = 0x41 \/ p = 0x48 \/ p = 0x49 end
  | CallMem mode rm sib disp =>
      0 <= mode < 3 /\ 0 <= rm < 8 /\
      match sib with Some s => rm = 4 /\ 0 <= s < 256 | None => rm <> 4 end /\
      length disp = disp_size mode rm sib
  end.

Definition encode_call (c : near_call) : list Z :=
  match c with
  | CallRel32 d => 0xe8 :: d
  | CallReg rex rm => option_list rex ++ [0xff; 3 * 64 + 2 * 8 + rm]
  | CallMem mode rm sib disp => 0xff :: (mode * 64 + 2 * 8 + rm) :: option_list sib ++ disp
  end.

(** Instruction bytes read without side effects. *)
Definition reader_of (l : list Z) : ByteReader (M := res) := fun i => Ok (l !! Z.to_nat i).

Lemma modrm_fields b :
  0 <= b < 256 ->
  b = modrm_mod b * 64 + modrm_reg b * 8 + modrm_rm b /\
  0 <= modrm_mod b < 4 /\ 0 <= modrm_reg b < 8 /\ 0 <= modrm_rm b < 8.
Proof.
  intros Hb. unfold modrm_mod, modrm_reg, modrm_rm.
  rewrite (land_mask _ 2 3), !(land_mask _ 3 7), !Z.shiftr_div_pow2 by done.
  change (2 ^ 2) with 4. change (2 ^ 3) with 8. change (2 ^ 6) with 64.
  repeat split; dlia.
Qed.

Lemma modrm_pack mode reg rm :
  0 <= mode < 4 -> 0 <= reg < 8 -> 0 <= rm < 8 ->
  let b := mode * 64 + reg * 8 + rm in
  modrm_mod b = mode /\ modrm_reg b = reg /\ modrm_rm b = rm.
Proof.
  intros H1 H2 H3 b. pose proof (modrm_fields b ltac:(unfold b; lia)). unfold b in *. lia.
Qed.

Lemma sib_base_mod s : 0 <= s -> Z.land s 0x7 = s mod 8.
Proof. intros. by rewrite (land_mask _ 3 7). Qed.

(** Evaluates the reads at the constant offsets the decoder uses. *)
Ltac run_reader :=
  unfold decode_supported_near_call_length, reader_of;
  change (Z.to_nat 0) with 0%nat; change (Z.to_nat 1) with 1%nat;
  change (Z.to_nat 2) with 2%nat;
  cbn -[Z.add Z.mul modrm_mod modrm_reg modrm_rm disp_size].

(** C40: every valid near-call encoding is decoded to exactly its own length,
    whatever bytes follow it. *)
Theorem decode_recognises (c : near_call) (rest : list Z) :
  valid_call c ->
  decode_supported_near_call_length (reader_of (encode_call c ++ rest))
    = Ok (Some (Z.of_nat (length (encode_call c)))).
Proof.
  destruct c as [d|rex rm|mode rm sib disp]; intros Hv.
  - simpl in Hv. simpl length. by rewrite Hv.
  - destruct Hv as [Hrm Hrex].
    destruct (modrm_pack 3 2 rm) as (Em & Er & _); [lia..|].
    destruct rex as [p|]; [destruct Hrex as [-> | [-> | ->]]|];
      run_reader; by rewrite Er, Em.
  - destruct Hv as (Hm & Hrm & Hsib & Hd).
    destruct (modrm_pack mode 2 rm) as (Em & Er & Erm); [lia..|].
    run_reader. rewrite Er, Em, Erm, length_app, Hd. clear Er Em Erm Hd. unfold disp_size.
    destruct sib as [s|]; [destruct Hsib as [-> Hs]|];
      assert (mode = 0 \/ mode = 1 \/ mode = 2) as [-> | [-> | ->]] by lia; cbn;
      rewrite ?sib_base_mod by lia; repeat case_match; try done; lia.
Qed.

Lemma decode_recognises_witness :
  valid_call (CallMem 1 4 (Some 0x20) [8]) /\
  decode_supported_near_call_length (reader_of ([0xff; 0x54; 0x20; 0x08] ++ [0x90])) = Ok (Some 4).
Proof.
  split.
  - repeat split; try lia.
  - apply (decode_recognises (CallMem 1 4 (Some 0x20) [8]) [0x90]). repeat split; lia.
Defined.

Lemma prefix4 (l : list Z) (n : nat) (hd : list Z) :
  (length hd + n <= length (hd ++ l))%nat ->
  exists d, length d = n /\ hd ++ d = take (length hd + n) (hd ++ l).
Proof.
  intros Hn. rewrite length_app in Hn. exists (take n l). split.
  - rewrite length_take. lia.
  - by rewrite take_app_add'.
Qed.

(** The memory forms: [disp_size] displacement bytes follow the ModRM byte and
    the SIB byte that [rm = 4] calls for. *)
Lemma mem_form_complete (m : nat) (modrm : Z) (sib : option Z) (rest l : list Z) :
  let mode := modrm_mod modrm in
  let rm := modrm_rm modrm in
  0 <= modrm < 256 -> modrm_reg modrm = 2 -> mode <> 3 ->
  l = option_list sib ++ rest ->
  match sib with Some s => rm = 4 /\ 0 <= s < 256 | None => rm <> 4 end ->
  m = (2 + length (option_list sib) + disp_size mode rm sib)%nat ->
  (m <= length (0xff%Z :: modrm :: l))%nat ->
  exists c, valid_call c /\ encode_call c = take m (0xff :: modrm :: l).
Proof.
  intros mode rm Hmodrm Hreg Hmode -> Hsib -> Hlen.
  destruct (modrm_fields modrm Hmodrm) as (Eb & Hmd & _ & Hrm). rewrite Hreg in Eb.
  destruct (prefix4 rest (disp_size mode rm sib) (0xff :: modrm :: option_list sib))
    as (d & Hd & E); [done|].
  exists (CallMem mode rm sib d). split; [repeat split; [subst mode rm; lia..|done|done]|].
  cbn [encode_call]. replace (mode * 64 + 2 * 8 + rm) with modrm by (subst mode rm; lia).
  exact E.
Qed.

(** The arm of the decoder behind an [FF /2] opcode. *)
Lemma decode_sound_ff2 (b1 n : Z) (l : list Z) :
  0 <= b1 < 256 -> Forall (fun b => 0 <= b < 256) l -> modrm_reg b1 = 2 ->
  decode_supported_near_call_length (reader_of (0xff :: b1 :: l)) = Ok (Some n) ->
  n <= Z.of_nat (length (0xff :: b1 :: l)) ->
  exists c, valid_call c /\ encode_call c = take (Z.to_nat n) (0xff :: b1 :: l).
Proof.
  intros Hb1 Hl Er. destruct (modrm_fields b1 Hb1) as (Eb & Hmd & _ & Hrm).
  run_reader. rewrite Er. cbn.
  destruct (Z.eqb_spec (modrm_mod b1) 3) as [Em|Em3].
  { intros [= <-] _. exists (CallReg None (modrm_rm b1)). split; [done|].
    cbn [encode_call]. by replace (3 * 64 + 2 * 8 + modrm_rm b1) with b1 by lia. }
  pose proof (fun m sib rest => mem_form_complete m b1 sib rest l Hb1 Er Em3) as Hmem.
  cbn zeta in Hmem. unfold disp_size in Hmem.
  destruct (Z.eqb_spec (modrm_mod b1) 0) as [E0|]; cbn.
  { rewrite E0 in *. destruct (Z.eqb_spec (modrm_rm b1) 5) as [E5|N5]; cbn.
    { intros [= <-] Hn. apply (Hmem _ None l); [done|lia|done|simpl in *; lia]. }
    destruct (Z.eqb_spec (modrm_rm b1) 4) as [E4|]; cbn.
    { destruct l as [|s l]; cbn; [done|]. pose proof (Forall_inv Hl) as Hs. cbn beta in Hs.
      rewrite sib_base_mod by lia. intros [= <-] Hn.
      apply (Hmem _ (Some s) l); [done|done| |].
      - cbn. by destruct (s mod 8 =? 5).
      - simpl in *. destruct (s mod 8 =? 5); lia. }
    intros [= <-] Hn. apply (Hmem _ None l); [done|done|done|simpl in *; lia]. }
  assert (modrm_mod b1 = 1 \/ modrm_mod b1 = 2) as [E1|E1] by lia; rewrite E1 in *; cbn;
    intros [= <-]; destruct (Z.eqb_spec (modrm_rm b1) 4) as [E4|]; intros Hn;
    (destruct l as [|s l]; [simpl in Hn; lia|]);
    pose proof (Forall_inv Hl) as Hs; cbn beta in Hs;
    first [ apply (Hmem _ (Some s) l); [done|done|done|simpl in *; lia]
          | apply (Hmem _ None (s :: l)); [done|done|done|simpl in *; lia] ].
Qed.

(** the decoder accepts nothing else: when it reports a length and the
    instruction stream has that many bytes, those bytes are the encoding of a
    valid near call. *)
Theorem decode_sound (l : list Z) (n : Z) :
  Forall (fun b => 0 <= b < 256) l ->
  decode_supported_near_call_length (reader_of l) = Ok (Some n) ->
  n <= Z.of_nat (length l) ->
  exists c, valid_call c /\ encode_call c = take (Z.to_nat n) l.
Proof.
  intros Hl Hdec Hn. destruct l as [|b0 l]; [done|].
  revert Hdec. run_reader.
  destruct (Z.eqb_spec b0 0xe8) as [->|Hne]; [intros [= <-]|].
  { destruct (prefix4 l 4 [0xe8]) as (d & Hd & E); [simpl in *; lia|].
    exists (CallRel32 d). done. }
  destruct ((b0 =? 65) || (b0 =? 72) || (b0 =? 73)) eqn:Hrex.
  { destruct l as [|b1 [|b2 l]]; cbn; [done..|].
    destruct (Z.eqb_spec b1 255) as [->|]; [cbn|done].
    destruct (Z.eqb_spec (modrm_reg b2) 2) as [Er|]; [cbn|done].
    destruct (Z.eqb_spec (modrm_mod b2) 3) as [Em|]; [intros [= <-]|done].
    apply Forall_cons in Hl as [_ [_ [Hb2 _]%Forall_cons]%Forall_cons].
    destruct (modrm_fields b2 Hb2) as (Eb & _ & _ & Hrm).
    exists (CallReg (Some b0) (modrm_rm b2)).
    split; [split; [done|]; apply orb_prop in Hrex as [[]%orb_prop|]; lia|].
    cbn [encode_call]. by replace (3 * 64 + 2 * 8 + modrm_rm b2) with b2 by lia. }
  destruct (Z.eqb_spec b0 255) as [->|]; [|done].
  destruct l as [|b1 l]; [done|].
  apply Forall_cons in Hl as [_ [Hb1 Hl]%Forall_cons]. intros Hdec.
  apply decode_sound_ff2; [done..| |exact Hdec|done].
  revert Hdec. cbn. by destruct (Z.eqb_spec (modrm_reg b1) 2).
Qed.
Lemma decode_sound_witness :
  exists c, valid_call c /\ encode_call c = [0xff; 0x14; 0x05; 1; 2; 3; 4].
Proof.
  apply (decode_sound [0xff; 0x14; 0x05; 1; 2; 3; 4] 7).
  - repeat constructor; lia.
  - reflexivity.
  - simpl. lia.
Defined.
