(* ===== verification/Machine.v ===== *)
(** * The machine under the debugger

    What the sources take from Linux and libc: the [user_regs_struct] record, the
    wait-status macros, signal, errno and [ptrace] constants, and the interface to
    the kernel.  The kernel itself is not code of the repository: it is the class
    [Kernel], a state [world] and one operation per request the debugger issues.
    [KernelLaws] states the documented behaviour of the requests that the
    theorems about tracee memory and debug registers rely on. *)

From S2P Require Import Prelude.

(** ** [struct user_regs_struct] ([<sys/user.h>]) *)

Record user_regs_struct := Regs {
  r15 : Z; r14 : Z; r13 : Z; r12 : Z; rbp : Z; rbx : Z; r11 : Z; r10 : Z; r9 : Z; r8 : Z;
  rax : Z; rcx : Z; rdx : Z; rsi : Z; rdi : Z; orig_rax : Z; rip : Z; cs : Z; eflags : Z;
  rsp : Z; ss : Z; fs_base : Z; gs_base : Z; ds : Z; es : Z; fs : Z; gs : Z
}.

Definition zero_regs : user_regs_struct :=
  Regs 0 0 0 0 0 0 0 0 0 0 0 0 0 0 0 0 0 0 0 0 0 0 0 0 0 0 0.

Definition set_rip (r : user_regs_struct) (v : Z) : user_regs_struct :=
  Regs (r15 r) (r14 r) (r13 r) (r12 r) (rbp r) (rbx r) (r11 r) (r10 r) (r9 r) (r8 r)
    (rax r) (rcx r) (rdx r) (rsi r) (rdi r) (orig_rax r) v (cs r) (eflags r)
    (rsp r) (ss r) (fs_base r) (gs_base r) (ds r) (es r) (fs r) (gs r).

#[export] Instance user_regs_struct_eq_dec : EqDecision user_regs_struct.
Proof. solve_decision. Defined.

(** ** Constants *)

Definition SIGILL := 4.
Definition SIGTRAP := 5.
Definition SIGBUS := 7.
Definition SIGFPE := 8.
Definition SIGKILL := 9.
Definition SIGSEGV := 11.
Definition SIGSTOP := 19.

Definition ESRCH := 3.
Definition EINTR := 4.
Definition EIO := 5.
Definition ECHILD := 10.

Definition PTRACE_EVENT_FORK := 1.
Definition PTRACE_EVENT_VFORK := 2.
Definition PTRACE_EVENT_CLONE := 3.
Definition PTRACE_EVENT_EXEC := 4.
Definition PTRACE_EVENT_VFORK_DONE := 5.

Definition PTRACE_O_TRACEFORK := 0x2.
Definition PTRACE_O_TRACEVFORK := 0x4.
Definition PTRACE_O_TRACECLONE := 0x8.
Definition PTRACE_O_TRACEEXEC := 0x10.
Definition PTRACE_O_TRACEVFORKDONE := 0x20.
Definition PTRACE_O_EXITKILL := 0x100000.

Definition pid_max : Z := 2147483647.

(** ** Wait statuses ([<sys/wait.h>]) *)

Definition WTERMSIG (status : Z) : Z := Z.land status 0x7f.
Definition WIFEXITED (status : Z) : bool := WTERMSIG status =? 0.
Definition WIFSIGNALED (status : Z) : bool :=
  0 <? Z.shiftr (to_signed 8 (Z.land status 0x7f + 1)) 1.
Definition WIFSTOPPED (status : Z) : bool := Z.land status 0xff =? 0x7f.
Definition WEXITSTATUS (status : Z) : Z := Z.shiftr (Z.land status 0xff00) 8.
Definition WSTOPSIG (status : Z) : Z := WEXITSTATUS status.
(** [static_cast<unsigned int>(status >> 16)] *)
Definition ptrace_event_of (status : Z) : Z := (Z.shiftr status 16) mod 2 ^ 32.

(** The statuses the kernel builds. *)
Definition exit_status (code : Z) : Z := Z.shiftl code 8.
Definition signal_status (sig : Z) : Z := sig.
Definition stop_status (sig event : Z) : Z := Z.lor (Z.shiftl event 16) (Z.lor (Z.shiftl sig 8) 0x7f).

(** ** The kernel

    A request either fails with an errno or succeeds with a value.  The
    [errno = 0; value == -1 && errno != 0] convention of [PTRACE_PEEKDATA] and
    [PTRACE_PEEKUSER] is folded into the result type. *)
Class Kernel := {
  world : Type;
  k_peekdata : Z -> Z -> world -> (Z + Z) * world;
  k_pokedata : Z -> Z -> Z -> world -> (Z + unit) * world;
  k_getregs : Z -> world -> (Z + user_regs_struct) * world;
  k_setregs : Z -> user_regs_struct -> world -> (Z + unit) * world;
  k_peekuser : Z -> Z -> world -> (Z + Z) * world;
  k_pokeuser : Z -> Z -> Z -> world -> (Z + unit) * world;
  k_attach : Z -> world -> (Z + unit) * world;
  k_detach : Z -> Z -> world -> (Z + unit) * world;
  k_setoptions : Z -> Z -> world -> (Z + unit) * world;
  k_geteventmsg : Z -> world -> (Z + Z) * world;
  k_cont : Z -> Z -> world -> (Z + unit) * world;
  k_singlestep : Z -> Z -> world -> (Z + unit) * world;
  (** [waitpid(pid, &status, __WALL)]: the task and its status *)
  k_waitpid : Z -> world -> (Z + Z * Z) * world;
  k_kill : Z -> Z -> world -> (Z + unit) * world;
  (** [fork]; the child requests tracing and executes the program *)
  k_fork_exec : string -> list string -> world -> (Z + Z) * world;
  (** [/proc/<leader>/task/<tid>] exists *)
  k_task_exists : Z -> Z -> world -> bool;
  (** the entry names of [/proc/<leader>/task]; [None]: cannot be enumerated *)
  k_task_names : Z -> world -> option (list string);
  (** the target of [/proc/<pid>/exe] *)
  k_exe : Z -> world -> option string
}.

(** ** Documented behaviour of the memory and register requests *)
Class KernelLaws (K : Kernel) := {
  (** the task is in ptrace-stop *)
  k_stopped : world -> Z -> Prop;
  (** the address space a task runs in, and its bytes ([None]: not mapped) *)
  k_space : world -> Z -> Z;
  k_mem : world -> Z -> Z -> option byte;
  (** general-purpose and debug registers *)
  k_regs : world -> Z -> user_regs_struct;
  k_dr : world -> Z -> Z -> Z;

  law_peek_world : forall pid a w, snd (k_peekdata pid a w) = w;
  law_peek : forall pid a w (b : list byte),
    k_stopped w pid -> length b = 8%nat ->
    (forall i, (i < 8)%nat -> k_mem w (k_space w pid) (u64 (a + Z.of_nat i)) = b !! i) ->
    fst (k_peekdata pid a w) = inr (le_combine b);
  law_poke : forall pid a v w (b : list byte),
    k_stopped w pid -> length b = 8%nat ->
    (forall i, (i < 8)%nat -> is_Some (k_mem w (k_space w pid) (u64 (a + Z.of_nat i)))) ->
    v = le_combine b ->
    let '(r, w') := k_pokedata pid a v w in
    r = inr tt /\
    (forall t, k_stopped w' t <-> k_stopped w t) /\
    (forall t, k_space w' t = k_space w t) /\
    (forall t, k_regs w' t = k_regs w t) /\
    (forall t i, k_dr w' t i = k_dr w t i) /\
    (forall i, (i < 8)%nat -> k_mem w' (k_space w pid) (u64 (a + Z.of_nat i)) = b !! i) /\
    (forall s x, s <> k_space w pid \/
                 (forall i, (i < 8)%nat -> x <> u64 (a + Z.of_nat i)) ->
                 k_mem w' s x = k_mem w s x);
  law_getregs : forall pid w, k_stopped w pid ->
    k_getregs pid w = (inr (k_regs w pid), w);
  law_setregs : forall pid r w, k_stopped w pid ->
    let '(res, w') := k_setregs pid r w in
    res = inr tt /\
    (forall t, k_stopped w' t <-> k_stopped w t) /\
    (forall t, k_space w' t = k_space w t) /\
    (forall s x, k_mem w' s x = k_mem w s x) /\
    (forall t i, k_dr w' t i = k_dr w t i) /\
    (forall t, k_regs w' t = if decide (t = pid) then r else k_regs w t);
  (** debug register [i] is at offset [848 + 8 * i] of [struct user] *)
  law_peekuser : forall pid i w, k_stopped w pid -> 0 <= i < 8 ->
    k_peekuser pid (848 + i * 8) w = (inr (k_dr w pid i), w);
  (** a write takes effect or is refused and changes nothing *)
  law_pokeuser : forall pid i v w, k_stopped w pid -> 0 <= i < 8 ->
    let '(res, w') := k_pokeuser pid (848 + i * 8) v w in
    (forall t, k_stopped w' t <-> k_stopped w t) /\
    (forall t, k_space w' t = k_space w t) /\
    (forall t, k_regs w' t = k_regs w t) /\
    (forall s x, k_mem w' s x = k_mem w s x) /\
    (forall t j, k_dr w' t j =
       if decide (res = inr tt /\ t = pid /\ j = i) then v else k_dr w t j)
}.

(** ** Documented behaviour of [PTRACE_DETACH]

    Detaching without a signal from a thread that is traced and in ptrace-stop releases it;
    [ESRCH] says that it is gone, killed meanwhile.  Other threads stay as they are, and the
    request itself touches no memory.  Nor does access to memory release or start a thread.
    Of a thread that is not stopped, and of a signal to deliver, which may be invalid, nothing
    is assumed. *)
Class DetachLaws (K : Kernel) `{L : !KernelLaws K} := {
  (** the debugger traces the thread *)
  k_traced : world -> Z -> Prop;
  law_detach : forall tid w, k_stopped w tid -> k_traced w tid ->
    let '(r, w') := k_detach tid 0 w in
    (r = inr tt \/ r = inl ESRCH) /\ ~ k_traced w' tid /\
    (forall t, t <> tid -> (k_traced w' t <-> k_traced w t) /\ (k_stopped w t -> k_stopped w' t)) /\
    (forall s x, k_mem w' s x = k_mem w s x);
  law_poke_traced : forall pid a v w t, k_stopped w t -> k_traced w t ->
    k_stopped (snd (k_pokedata pid a v w)) t /\ k_traced (snd (k_pokedata pid a v w)) t
}.
