(* ===== verification/Paths.v ===== *)
(** * [std::filesystem::path] on POSIX

    The lexical operations of the standard library's path class that the sources
    use: iteration, [operator/], [filename], [parent_path], [lexically_normal] and
    the comparison.  A path is its text; the separators of a run count as one. *)

From S2P Require Import Prelude.

(** ** Text *)

Definition sep : ascii := "/".

Definition path_is_absolute (path : string) : bool :=
  match path with String "/" _ => true | _ => false end.
Fixpoint path_has_filename (path : string) : bool :=
  match path with
  | EmptyString => false
  | String c EmptyString => negb (Ascii.eqb c "/")
  | String _ rest => path_has_filename rest
  end.

(** [operator/] *)
Definition path_append (base path : string) : string :=
  if path_is_absolute path then path
  else if path_has_filename base then base +:+ "/" +:+ path
  else base +:+ path.

(** The pieces between the separators; never the empty list. *)
Fixpoint split_sep (s : string) : list string :=
  match s with
  | EmptyString => [EmptyString]
  | String c t =>
    if Ascii.eqb c sep then EmptyString :: split_sep t
    else match split_sep t with
         | piece :: pieces => String c piece :: pieces
         | [] => [String c EmptyString]
         end
  end.

Definition nonempty (s : string) : bool := negb (String.eqb s EmptyString).
Definition names (path : string) : list string := List.filter nonempty (split_sep path).

(** A separator after the last name. *)
Definition trailing_sep (path : string) : bool :=
  bool_decide (names path <> []) && negb (path_has_filename path).

(** The elements of the iteration: the root directory, the names, and an empty
    element after a trailing separator. *)
Definition components (path : string) : list string :=
  (if path_is_absolute path then ["/"] else []) ++ names path ++
  (if trailing_sep path then [EmptyString] else []).

(** [operator==]: element by element. *)
Definition path_eqb (p q : string) : bool := bool_decide (components p = components q).

(** [filename()] *)
Definition path_filename (path : string) : string :=
  if trailing_sep path then EmptyString else default EmptyString (last (names path)).

(** ** [parent_path] *)

Fixpoint drop_leading (f : ascii -> bool) (s : list ascii) : list ascii :=
  match s with
  | c :: t => if f c then drop_leading f t else s
  | [] => []
  end.

(** The text up to the end of the element before the last. *)
Definition path_parent (path : string) : string :=
  if bool_decide (names path = []) then path
  else
    let no_name := drop_leading (fun c => negb (Ascii.eqb c sep)) (reverse (String.list_ascii_of_string path)) in
    match drop_leading (fun c => Ascii.eqb c sep) no_name with
    | [] => if path_is_absolute path then "/" else EmptyString
    | rest => String.string_of_list_ascii (reverse rest)
    end.

Definition path_has_parent (path : string) : bool := nonempty (path_parent path).

(** ** [lexically_normal]

    The elements are read left to right onto a stack of names; [trailing] says
    whether a separator follows the last of them. *)

Record normal := mkNormal { n_absolute : bool; n_names : list string; n_trailing : bool }.

Definition normal_step (n : normal) (element : string) : normal :=
  let '(mkNormal root stack trailing) := n in
  if String.eqb element ".." then
    match stack with
    | [] => if root then n else mkNormal root [".."] false
    | top :: below =>
      if String.eqb top ".." then mkNormal root (element :: stack) false
      else mkNormal root below true
    end
  else if String.eqb element "." || String.eqb element EmptyString then mkNormal root stack true
  else mkNormal root (element :: stack) false.

(** The names of a relative path, separated. *)
Fixpoint join_names (l : list string) : string :=
  match l with
  | [] => EmptyString
  | [name] => name
  | name :: l => name +:+ "/" +:+ join_names l
  end.

Definition render (n : normal) : string :=
  let text := (if n_absolute n then "/" else EmptyString) +:+ join_names (reverse (n_names n)) +:+
    (if n_trailing n && match n_names n with [] => false | top :: _ => negb (String.eqb top "..") end
     then "/" else EmptyString) in
  if String.eqb text EmptyString then "." else text.

Definition relative_elements (path : string) : list string :=
  names path ++ (if trailing_sep path then [EmptyString] else []).

Definition lexically_normal (path : string) : string :=
  if String.eqb path EmptyString then EmptyString
  else render (foldl normal_step (mkNormal (path_is_absolute path) [] false) (relative_elements path)).

(* src/dwarf/source_lookup_impl.inc:179-181 normalized_source_path *)
Definition normalized_source_path (path : string) : string := lexically_normal path.

Example lexically_normal_examples :
  map lexically_normal ["foo/./bar/.."; "foo/.///bar/../"; "/a/../../b"; "a/.."; "../a/.."; "../"; "./a//b"; "/.."; ""; "/"; "a/b/../../.."] =
    ["foo/"; "foo/"; "/b"; "."; ".."; ".."; "a/b"; "/"; ""; "/"; ".."].
Proof. reflexivity. Qed.
Example path_parent_examples :
  map path_parent ["a/b"; "a//b"; "/a"; "//a"; "a"; "a/"; "/"; ""; "/x/y/z"] = ["a"; "a"; "/"; "/"; ""; "a"; "/"; ""; "/x/y"].
Proof. reflexivity. Qed.
Example components_examples :
  map components ["/a//b/"; "a"; ""; "//"; "x/"] = [["/"; "a"; "b"; ""]; ["a"]; []; ["/"]; ["x"; ""]].
Proof. reflexivity. Qed.

(** ** Splitting and joining *)

Fixpoint no_sep (s : string) : bool :=
  match s with EmptyString => true | String c t => negb (Ascii.eqb c sep) && no_sep t end.

(** A name: not empty, no separator inside. *)
Definition is_name (s : string) : Prop := nonempty s = true /\ no_sep s = true.

Lemma split_sep_no_sep s : Forall (fun piece => no_sep piece = true) (split_sep s).
Proof.
  induction s as [|c s IH]; simpl; [by constructor|]. destruct (Ascii.eqb c sep) eqn:E.
  - constructor; done.
  - destruct (split_sep s) as [|piece pieces]; constructor; simpl; rewrite ?E; try done.
    + by apply Forall_cons in IH as [-> _].
    + by apply Forall_cons in IH as [_ ?].
Qed.

Lemma names_are_names path : Forall is_name (names path).
Proof.
  apply Forall_forall. intros x Hx. apply list_elem_of_In, filter_In in Hx as [Hx Hn].
  pose proof (split_sep_no_sep path) as H. rewrite Forall_forall in H.
  split; [done|]. apply H. by apply list_elem_of_In.
Qed.

Lemma split_sep_whole s : no_sep s = true -> split_sep s = [s].
Proof.
  induction s as [|c s IH]; simpl; [done|]. intros [Hc Hs]%andb_prop.
  rewrite (negb_true_iff _) in Hc. by rewrite Hc, IH.
Qed.

Lemma append_cons c (s t : string) : String c s +:+ t = String c (s +:+ t).
Proof. done. Qed.

Lemma split_sep_app s t : no_sep s = true -> split_sep (s +:+ "/" +:+ t) = s :: split_sep t.
Proof.
  induction s as [|c s IH]; intros Hs; [done|]. cbn [no_sep] in Hs. apply andb_prop in Hs as [Hc Hs].
  rewrite negb_true_iff in Hc. rewrite append_cons. cbn [split_sep]. by rewrite Hc, IH.
Qed.

Lemma names_cons_sep s : names ("/" +:+ s) = names s.
Proof. done. Qed.

(** A separator may follow. *)
Definition tail_sep (b : bool) : string := if b then "/" else EmptyString.

Lemma append_nil_r (s : string) : s +:+ "" = s.
Proof. induction s as [|c s IH]; [done|]. by rewrite !append_cons, IH. Qed.
Lemma append_assoc (s t u : string) : (s +:+ t) +:+ u = s +:+ t +:+ u.
Proof. induction s as [|c s IH]; [done|]. by rewrite !append_cons, IH. Qed.

Lemma names_join l b : Forall is_name l -> names (join_names l +:+ tail_sep b) = l.
Proof.
  intros Hl. unfold names.
  induction l as [|x l IH]; [by destruct b|].
  apply Forall_cons in Hl as [[Hx Hx'] Hl]. destruct l as [|y l].
  - cbn [join_names]. destruct b; cbn [tail_sep]; [rewrite <- (append_nil_r "/")|rewrite append_nil_r].
    + rewrite split_sep_app by done. cbn [split_sep List.filter]. by rewrite Hx.
    + rewrite split_sep_whole by done. cbn [List.filter]. by rewrite Hx.
  - change (join_names (x :: y :: l)) with (x +:+ "/" +:+ join_names (y :: l)).
    rewrite !append_assoc, split_sep_app by done. cbn [List.filter]. rewrite Hx. by rewrite IH.
Qed.

Lemma has_filename_app s t : path_has_filename (s +:+ String sep t) = path_has_filename (String sep t).
Proof.
  induction s as [|c s IH]; [done|]. rewrite <- IH, append_cons. cbn [path_has_filename].
  destruct (s +:+ String sep t) eqn:E; [by destruct s|done].
Qed.
Lemma has_filename_name s : is_name s -> path_has_filename s = true.
Proof.
  intros [Hn Hs]. induction s as [|c s IH]; [done|]. cbn [no_sep] in Hs. apply andb_prop in Hs as [Hc Hs].
  cbn [path_has_filename]. destruct s; [by destruct (Ascii.eqb c "/") eqn:E; [rewrite Ascii.eqb_eq in E; subst|]|].
  by apply IH.
Qed.
Lemma has_filename_sep_app s t : path_has_filename t = true -> path_has_filename (s +:+ t) = true.
Proof.
  intros Ht. induction s as [|c s IH]; [done|]. rewrite append_cons. cbn [path_has_filename].
  destruct (s +:+ t) eqn:E; [done|]. done.
Qed.

Lemma has_filename_join l b : Forall is_name l -> l <> [] ->
  path_has_filename (join_names l +:+ tail_sep b) = negb b.
Proof.
  intros Hl Hne. destruct b; cbn [tail_sep negb]; [apply has_filename_app|]. rewrite append_nil_r.
  induction l as [|x [|y l] IH]; [done|apply Forall_cons in Hl as [? _]; by apply has_filename_name|].
  change (join_names (x :: y :: l)) with (x +:+ "/" +:+ join_names (y :: l)).
  apply Forall_cons in Hl as [_ Hl]. apply has_filename_sep_app.
  change ("/" +:+ join_names (y :: l)) with ("/" +:+ join_names (y :: l)). apply has_filename_sep_app. by apply IH.
Qed.

Lemma absolute_join l t : Forall is_name l -> l <> [] -> path_is_absolute (join_names l +:+ t) = false.
Proof.
  destruct l as [|x l]; [done|]. intros [[Hx Hs] _]%Forall_cons _. destruct x as [|c x]; [done|].
  cbn [no_sep] in Hs. apply andb_prop in Hs as [Hc _]. rewrite negb_true_iff in Hc.
  assert (E : exists u, join_names (String c x :: l) +:+ t = String c u).
  { destruct l; [by exists (x +:+ t)|]. eexists. reflexivity. }
  destruct E as [u ->]. cbn [path_is_absolute]. unfold sep in Hc.
  destruct (Ascii.ascii_dec c "/") as [->|Hne]; [done|].
  clear -Hne. destruct c as [[] [] [] [] [] [] [] []]; done.
Qed.

(** ** The normal form *)

(** A name that is kept: neither a dot nor a dot-dot. *)
Definition plain_name (s : string) : Prop := is_name s /\ s <> "." /\ s <> "..".

(** Dot-dots only below the names, and none below a root directory. *)
Definition stack_ok (root : bool) (stack : list string) : Prop :=
  exists l k, stack = l ++ replicate k ".." /\ Forall plain_name l /\ (root = true -> k = O).

Lemma dotdot_name : is_name "..".
Proof. done. Qed.

Lemma stack_ok_names root stack : stack_ok root stack -> Forall is_name stack.
Proof.
  intros (l & k & -> & Hl & _). apply Forall_app. split.
  - eapply Forall_impl; [exact Hl|]. by intros x [? _].
  - apply Forall_replicate, dotdot_name.
Qed.

Lemma stack_ok_nil root : stack_ok root [].
Proof. exists [], O. split; [done|]. by split; [constructor|]. Qed.

Lemma stack_ok_top root x stack :
  stack_ok root (x :: stack) -> stack_ok root stack /\ (x = ".." -> root = false /\ exists k, stack = replicate k "..").
Proof.
  intros ([|y l] & k & E & Hl & Hk).
  - destruct k as [|k]; [done|]. injection E as -> ->. split.
    + exists [], k. split; [done|]. split; [constructor|]. intros Hr. by specialize (Hk Hr).
    + intros _. split; [|by exists k]. destruct root; [|done]. by specialize (Hk eq_refl).
  - injection E as -> ->. apply Forall_cons in Hl as [Hy Hl]. split; [by exists l, k|]. intros ->. by destruct Hy as (_ & _ & ?).
Qed.

Lemma stack_ok_push root x stack : plain_name x -> stack_ok root stack -> stack_ok root (x :: stack).
Proof. intros Hx (l & k & -> & Hl & Hk). exists (x :: l), k. split; [done|]. split; [by constructor|done]. Qed.

Lemma normal_step_ok n element :
  (is_name element \/ element = EmptyString) -> stack_ok (n_absolute n) (n_names n) ->
  n_absolute (normal_step n element) = n_absolute n /\
  stack_ok (n_absolute n) (n_names (normal_step n element)).
Proof.
  intros He Hn. destruct n as [root stack trailing]. cbn [n_absolute n_names] in *. unfold normal_step.
  destruct (String.eqb_spec element "..") as [->|Hdd].
  - destruct stack as [|top below]; [destruct root; [done|]|].
    + split; [done|]. exists [], 1%nat. split; [done|]. split; [constructor|done].
    + apply stack_ok_top in Hn as [Hb Ht]. destruct (String.eqb_spec top "..") as [->|]; [|done].
      split; [done|]. destruct (Ht eq_refl) as [-> [k ->]]. exists [], (S (S k)). split; [done|]. split; [constructor|]. intros Hr. congruence.
  - destruct (String.eqb_spec element ".") as [->|Hd]; [done|]. destruct (String.eqb_spec element EmptyString); [done|].
    split; [done|]. apply stack_ok_push; [|done]. by destruct He as [He|He].
Qed.

Lemma normal_steps_ok l n :
  Forall (fun x => is_name x \/ x = EmptyString) l -> stack_ok (n_absolute n) (n_names n) ->
  n_absolute (foldl normal_step n l) = n_absolute n /\ stack_ok (n_absolute n) (n_names (foldl normal_step n l)).
Proof.
  revert n. induction l as [|x l IH]; intros n Hl Hn; [done|]. apply Forall_cons in Hl as [Hx Hl]. simpl.
  destruct (normal_step_ok n x Hx Hn) as [E Hn']. rewrite <- E in Hn'. destruct (IH _ Hl Hn') as [E' Hn''].
  split; [congruence|]. by rewrite E in Hn''.
Qed.

Lemma relative_elements_names path : Forall (fun x => is_name x \/ x = EmptyString) (relative_elements path).
Proof.
  unfold relative_elements. apply Forall_app. split.
  - eapply Forall_impl; [apply names_are_names|]. auto.
  - destruct (trailing_sep path); [|constructor]. constructor; [by right|constructor].
Qed.

Lemma lexically_normal_render path : path <> EmptyString ->
  exists n, lexically_normal path = render n /\ n_absolute n = path_is_absolute path /\
    stack_ok (n_absolute n) (n_names n).
Proof.
  intros Hp. unfold lexically_normal. destruct (String.eqb_spec path EmptyString); [done|].
  eexists. split; [done|].
  destruct (normal_steps_ok (relative_elements path) (mkNormal (path_is_absolute path) [] false)
              (relative_elements_names path) (stack_ok_nil _)) as [E H].
  split; [done|]. by rewrite E.
Qed.

(** Reading a normal path puts its names on the stack again. *)
Lemma read_stack root stack : stack_ok root stack ->
  foldl normal_step (mkNormal root [] false) (reverse stack) = mkNormal root stack false.
Proof.
  induction stack as [|x stack IH]; intros Hs; [done|]. pose proof Hs as Hs'.
  apply stack_ok_top in Hs as [Hs Ht]. rewrite reverse_cons, foldl_app, IH by done. cbn [foldl]. unfold normal_step.
  destruct (String.eqb_spec x "..") as [->|Hne].
  - destruct (Ht eq_refl) as [-> [[|k] ->]]; done.
  - apply stack_ok_names in Hs' as Hn. apply Forall_cons in Hn as [[Hx _] _].
    destruct Hs' as ([|y l] & k & E & Hl & _); [destruct k; [done|]; injection E as -> ->; done|].
    injection E as -> ->. apply Forall_cons in Hl as [(_ & Hd & _) _].
    destruct (String.eqb_spec y "."); [done|]. unfold nonempty in Hx. by destruct (String.eqb y EmptyString).
Qed.

Lemma components_of_text (root : bool) l b : Forall is_name l -> l <> [] ->
  let text := (if root then "/" else EmptyString) +:+ join_names l +:+ tail_sep b in
  path_is_absolute text = root /\ names text = l /\ trailing_sep text = b.
Proof.
  intros Hl Hne. assert (Hn : names ((if root then "/" else EmptyString) +:+ join_names l +:+ tail_sep b) = l).
  { destruct root; [rewrite names_cons_sep|]; by apply names_join. }
  cbv zeta. split; [|split; [exact Hn|]].
  - destruct root; [done|]. by apply absolute_join.
  - unfold trailing_sep. rewrite Hn, bool_decide_true by done.
    assert (Hf : path_has_filename ((if root then "/" else EmptyString) +:+ join_names l +:+ tail_sep b) = negb b).
    { destruct root; [|by apply has_filename_join]. rewrite <- (has_filename_join l b) by done.
      assert (Hj : exists c u, join_names l +:+ tail_sep b = String c u).
      { destruct l as [|[|c x] l]; [done|by apply Forall_cons in Hl as [[? _] _]|]. exists c. destruct l; eexists; reflexivity. }
      destruct Hj as (c & u & ->). done. }
    rewrite Hf. by destruct b.
Qed.

(** The flag of a trailing separator as it is printed. *)
Definition shows_sep (n : normal) : bool :=
  n_trailing n && match n_names n with [] => false | top :: _ => negb (String.eqb top "..") end.

Lemma render_names n : stack_ok (n_absolute n) (n_names n) -> n_names n <> [] ->
  render n = ((if n_absolute n then "/" else EmptyString) +:+ join_names (reverse (n_names n)) +:+ tail_sep (shows_sep n))%string /\
  path_is_absolute (render n) = n_absolute n /\ names (render n) = reverse (n_names n) /\
  trailing_sep (render n) = shows_sep n.
Proof.
  intros Hs Hne. assert (E : render n = ((if n_absolute n then "/" else EmptyString) +:+
    join_names (reverse (n_names n)) +:+ tail_sep (shows_sep n))%string).
  { unfold render. fold (shows_sep n). change (if shows_sep n then "/" else EmptyString) with (tail_sep (shows_sep n)).
    destruct (String.eqb_spec ((if n_absolute n then "/" else EmptyString) +:+
      join_names (reverse (n_names n)) +:+ tail_sep (shows_sep n)) EmptyString) as [E|]; [|done]. exfalso.
    destruct (components_of_text (n_absolute n) (reverse (n_names n)) (shows_sep n)) as (_ & H & _).
    - apply Forall_reverse. by eapply stack_ok_names.
    - intros H. apply (f_equal reverse) in H. by rewrite reverse_involutive in H.
    - rewrite E in H. apply (f_equal reverse) in H. rewrite reverse_involutive in H. by rewrite <- H in Hne. }
  split; [done|]. rewrite E. apply components_of_text.
  - apply Forall_reverse. by eapply stack_ok_names.
  - intros H. apply (f_equal reverse) in H. by rewrite reverse_involutive in H.
Qed.

Lemma render_normal n : stack_ok (n_absolute n) (n_names n) -> lexically_normal (render n) = render n.
Proof.
  intros Hs. destruct (decide (n_names n = [])) as [E|Hne].
  - unfold render. rewrite E. rewrite andb_false_r. by destruct (n_absolute n).
  - destruct (render_names n Hs Hne) as (E & Ha & Hn & Ht). unfold lexically_normal.
    assert (Hr : render n <> EmptyString).
    { intros H. rewrite H in Hn. apply (f_equal reverse) in Hn. rewrite reverse_involutive in Hn. by rewrite <- Hn in Hne. }
    destruct (String.eqb_spec (render n) EmptyString); [done|]. unfold relative_elements. rewrite Hn, Ha, Ht.
    rewrite foldl_app, read_stack by done.
    rewrite E. destruct (shows_sep n) eqn:Hss; cbn [foldl].
    + unfold normal_step. cbn [String.eqb]. destruct (n_names n) as [|top below] eqn:En; [done|]. cbn [orb].
      unfold render. cbn [n_absolute n_names n_trailing]. unfold shows_sep in Hss. rewrite En in Hss.
      apply andb_prop in Hss as [_ Hss]. rewrite Hss. cbn [andb]. change (tail_sep true) with "/" in *.
      rewrite <- E. destruct (String.eqb_spec (render n) EmptyString); [done|]. by rewrite E.
    + unfold render. cbn [n_absolute n_names n_trailing andb]. change (tail_sep false) with "" in *. rewrite <- E.
      destruct (String.eqb_spec (render n) EmptyString); [done|]. by rewrite E.
Qed.

Lemma lexically_normal_idempotent path : lexically_normal (lexically_normal path) = lexically_normal path.
Proof.
  destruct (decide (path = EmptyString)) as [->|Hp]; [done|].
  destruct (lexically_normal_render path Hp) as (n & -> & _ & Hs). by apply render_normal.
Qed.

Lemma lexically_normal_absolute path : path_is_absolute (lexically_normal path) = path_is_absolute path.
Proof.
  destruct (decide (path = EmptyString)) as [->|Hp]; [done|].
  destruct (lexically_normal_render path Hp) as (n & -> & <- & Hs). destruct (decide (n_names n = [])) as [E|Hne].
  - unfold render. rewrite E, andb_false_r. by destruct (n_absolute n).
  - by apply render_names.
Qed.
