(* ===== verification/SimKernel.v ===== *)
(** * A concrete kernel

    An executable instance of [Kernel] that satisfies [KernelLaws]: one address
    space, registers per task, and a queue of wait events, each with the register
    file the task has when the event is reported, and the tasks that were released.
    The witnesses of the theorems run on it. *)

From S2P Require Import Prelude Machine.

Record sim_event := mkEvent { se_tid : Z; se_status : Z; se_regs : option user_regs_struct }.

Record sim := mkSim {
  sm_mem : gmap Z byte;
  sm_regs : gmap Z user_regs_struct;
  sm_dr : gmap (Z * Z) Z;
  sm_events : list sim_event;
  sm_message : Z;
  sm_names : list string;
  sm_released : gset Z
}.

Definition sim_set_mem v w := mkSim v (sm_regs w) (sm_dr w) (sm_events w) (sm_message w) (sm_names w) (sm_released w).
Definition sim_set_regs v w := mkSim (sm_mem w) v (sm_dr w) (sm_events w) (sm_message w) (sm_names w) (sm_released w).
Definition sim_set_dr v w := mkSim (sm_mem w) (sm_regs w) v (sm_events w) (sm_message w) (sm_names w) (sm_released w).
Definition sim_set_events v w := mkSim (sm_mem w) (sm_regs w) (sm_dr w) v (sm_message w) (sm_names w) (sm_released w).
Definition sim_release pid w := mkSim (sm_mem w) (sm_regs w) (sm_dr w) (sm_events w) (sm_message w) (sm_names w) ({[pid]} ∪ sm_released w).

Definition sim_word (w : sim) (a : Z) : option (list byte) :=
  mapM (fun i => sm_mem w !! u64 (a + Z.of_nat i)) (seq 0 8).

Fixpoint sim_store (m : gmap Z byte) (a : Z) (l : list byte) : gmap Z byte :=
  match l with
  | [] => m
  | b :: l => sim_store (<[u64 a := b]> m) (a + 1) l
  end.

Definition sim_reg (w : sim) (pid : Z) : user_regs_struct := default zero_regs (sm_regs w !! pid).
Definition sim_dr_of (w : sim) (pid i : Z) : Z := default 0 (sm_dr w !! (pid, i)).

#[export] Instance SimKernel : Kernel := {|
  world := sim;
  k_peekdata pid a w :=
    match sim_word w a with Some b => (inr (le_combine b), w) | None => (inl EIO, w) end;
  k_pokedata pid a v w :=
    match sim_word w a with
    | Some _ => (inr tt, sim_set_mem (sim_store (sm_mem w) a (le_split 8 v)) w)
    | None => (inl EIO, w)
    end;
  k_getregs pid w := (inr (sim_reg w pid), w);
  k_setregs pid r w := (inr tt, sim_set_regs (<[pid := r]> (sm_regs w)) w);
  k_peekuser pid off w := (inr (sim_dr_of w pid ((off - 848) / 8)), w);
  k_pokeuser pid off v w := (inr tt, sim_set_dr (<[(pid, (off - 848) / 8) := v]> (sm_dr w)) w);
  k_attach pid w := (inr tt, w);
  k_detach pid sig w := (inr tt, sim_release pid w);
  k_setoptions pid o w := (inr tt, w);
  k_geteventmsg pid w := (inr (sm_message w), w);
  k_cont pid sig w := (inr tt, w);
  k_singlestep pid sig w := (inr tt, w);
  k_waitpid pid w :=
    match sm_events w with
    | [] => (inl ECHILD, w)
    | e :: es =>
      let w := sim_set_events es w in
      let w := match se_regs e with
               | Some r => sim_set_regs (<[se_tid e := r]> (sm_regs w)) w
               | None => w
               end in
      (inr (se_tid e, se_status e), w)
    end;
  k_kill pid sig w := (inr tt, w);
  k_fork_exec path args w := (inr 100, w);
  k_task_exists leader tid w := true;
  k_task_names leader w := Some (sm_names w);
  k_exe pid w := Some "/bin/tracee"
|}.

Definition sim_memory (w : sim) (s x : Z) : option byte :=
  if s =? 0 then sm_mem w !! x else None.

Lemma sim_word_spec w a (b : list byte) :
  length b = 8%nat ->
  (forall i, (i < 8)%nat -> sm_mem w !! u64 (a + Z.of_nat i) = b !! i) ->
  sim_word w a = Some b.
Proof.
  intros Hb E. unfold sim_word. apply mapM_Some. apply Forall2_same_length_lookup.
  split; [by rewrite length_seq|]. intros i x y Hx Hy.
  apply lookup_seq in Hx as [-> Hi]. by rewrite Nat.add_0_l, E.
Qed.

Lemma sim_store_spec (m : gmap Z byte) a (l : list byte) x :
  (length l <= 8)%nat ->
  (forall i, (i < length l)%nat -> sim_store m a l !! u64 (a + Z.of_nat i) = l !! i) /\
  ((forall i, (i < length l)%nat -> x <> u64 (a + Z.of_nat i)) ->
    sim_store m a l !! x = m !! x).
Proof.
  revert m a. induction l as [|b l IH]; intros m a Hl; [split; [simpl; lia|done]|].
  simpl in Hl. destruct (IH (<[u64 a:=b]> m) (a + 1) ltac:(lia)) as [IH1 IH2]. split.
  - intros [|i] Hi; simpl in *.
    + rewrite Z.add_0_r. clear IH1 IH2.
      assert (Hout : forall l m a', (length l <= 7)%nat -> (forall i, (i < length l)%nat ->
        u64 a <> u64 (a' + Z.of_nat i)) -> sim_store m a' l !! u64 a = m !! u64 a).
      { clear. intros l. induction l as [|c l IHl]; intros m a' Hl H; [done|]. simpl.
        rewrite IHl; [| simpl in Hl; lia|].
        - rewrite lookup_insert_ne; [done|]. specialize (H O). simpl in H.
          rewrite Z.add_0_r in H. symmetry. apply H. lia.
        - intros i Hi. specialize (H (S i) ltac:(simpl; lia)).
          replace (a' + 1 + Z.of_nat i) with (a' + Z.of_nat (S i)) by lia. done. }
      rewrite Hout; [by rewrite lookup_insert_eq|lia|].
      intros i Hi'. unfold u64. dlia.
    + replace (a + Z.of_nat (S i)) with (a + 1 + Z.of_nat i) by lia. apply IH1. lia.
  - intros H. simpl. rewrite IH2.
    + rewrite lookup_insert_ne; [done|]. specialize (H O). simpl in H. rewrite Z.add_0_r in H.
      symmetry. apply H. lia.
    + intros i Hi. specialize (H (S i) ltac:(simpl; lia)).
      replace (a + 1 + Z.of_nat i) with (a + Z.of_nat (S i)) by lia. done.
Qed.

#[export] Program Instance SimKernelLaws : KernelLaws SimKernel := {|
  k_stopped w t := True;
  k_space w t := 0;
  k_mem w s x := sim_memory w s x;
  k_regs w t := sim_reg w t;
  k_dr w t i := sim_dr_of w t i
|}.
Next Obligation. intros. simpl. by destruct (sim_word w a). Qed.
Next Obligation.
  intros pid a w b _ Hb E. simpl. by rewrite (sim_word_spec w a b).
Qed.
Next Obligation.
  intros pid a v w b _ Hb Hm ->. cbn [k_pokedata SimKernel].
  destruct (list_of_partial _ 8 Hm) as (b0 & Hb0 & E0).
  rewrite (sim_word_spec w a b0 Hb0) by (intros; by rewrite E0).
  replace (le_split 8 (le_combine b)) with b by (by rewrite <- Hb, le_split_combine).
  pose proof (fun x => sim_store_spec (sm_mem w) a b x ltac:(lia)) as Hst.
  split; [done|]. repeat split; try done.
  - intros i Hi. unfold sim_memory. simpl. apply (Hst 0). lia.
  - intros s x Hx. unfold sim_memory. simpl. destruct (Z.eqb_spec s 0); [|done].
    apply Hst. destruct Hx as [Hx|Hx]; [done|]. intros i Hi. apply Hx. lia.
Qed.
Next Obligation. done. Qed.
Next Obligation.
  intros pid r w _. simpl. repeat split; try done.
  intros t. unfold sim_reg. simpl. rewrite lookup_insert. repeat case_decide; naive_solver.
Qed.
Next Obligation.
  intros pid i w _ Hi. simpl. unfold sim_dr_of.
  replace ((848 + i * 8 - 848) / 8) with i by dlia. done.
Qed.
Next Obligation.
  intros pid i v w _ Hi. simpl. repeat split; try done. intros t j. unfold sim_dr_of. simpl.
  replace ((848 + i * 8 - 848) / 8) with i by dlia.
  rewrite lookup_insert. repeat case_decide; naive_solver.
Qed.

#[export] Program Instance SimDetach : DetachLaws SimKernel (L := SimKernelLaws) := {|
  k_traced w t := t ∉ sm_released w
|}.
Next Obligation. intros tid w _ _. simpl. split; [by left|]. repeat split; set_solver. Qed.
Next Obligation. intros pid a v w t _ Ht. simpl. by destruct (sim_word w a). Qed.

(** A kernel state with [n] zero bytes mapped from [a] on. *)
Definition sim_mapped (a : Z) (l : list byte) : gmap Z byte := sim_store ∅ a l.
Definition sim_init (m : gmap Z byte) (events : list sim_event) : sim :=
  mkSim m ∅ ∅ events 0 ["100"] ∅.
