(* ===== verification/Ptrace.v ===== *)
(** * The ptrace wrappers ([src/ptrace/ptrace.cpp]) *)

From S2P Require Import Prelude Machine SimKernel.

Section Ptrace.
Context `{K : Kernel}.

(** [throw_errno]: a failed request becomes a [PtraceError] that carries the
    errno.  [what()] is kept down to the name of the operation. *)
(* src/ptrace/ptrace.cpp:14-31 throw_errno, PtraceError *)
Definition sys {A} (operation : string) (k : world -> (Z + A) * world) : M world A :=
  fun w => match k w with
           | (inr a, w') => (Ok a, w')
           | (inl errno, w') => (Throw (Exn (PtraceError errno) operation), w')
           end.

(* src/ptrace/ptrace.cpp:18-21 debug_register_offset *)
Definition debug_register_offset (index : Z) : res Z :=
  if 8 <=? index then invalid_argument "x86 debug register index is out of range"
  else Ok (848 + index * 8).

(* src/ptrace/ptrace.cpp:39-43 attach *)
Definition attach (pid : Z) : M world unit := sys "PTRACE_ATTACH" (k_attach pid).

(* src/ptrace/ptrace.cpp:45-50 detach *)
Definition detach (pid signal : Z) : M world unit := sys "PTRACE_DETACH" (k_detach pid signal).

(* src/ptrace/ptrace.cpp:52-57 set_options *)
Definition set_options (pid options : Z) : M world unit :=
  sys "PTRACE_SETOPTIONS" (k_setoptions pid options).

(* src/ptrace/ptrace.cpp:59-65 get_event_message *)
Definition get_event_message (pid : Z) : M world Z := sys "PTRACE_GETEVENTMSG" (k_geteventmsg pid).

(* src/ptrace/ptrace.cpp:67-72 continue_process *)
Definition continue_process (pid signal : Z) : M world unit := sys "PTRACE_CONT" (k_cont pid signal).

(* src/ptrace/ptrace.cpp:74-79 single_step *)
Definition single_step (pid signal : Z) : M world unit :=
  sys "PTRACE_SINGLESTEP" (k_singlestep pid signal).

(* src/ptrace/ptrace.cpp:81-87 get_registers *)
Definition get_registers (pid : Z) : M world user_regs_struct := sys "PTRACE_GETREGS" (k_getregs pid).

(* src/ptrace/ptrace.cpp:89-94 set_registers *)
Definition set_registers (pid : Z) (regs : user_regs_struct) : M world unit :=
  sys "PTRACE_SETREGS" (k_setregs pid regs).

(* src/ptrace/ptrace.cpp:96-103 get_debug_register *)
Definition get_debug_register (pid index : Z) : M world Z :=
  offset ← lift (debug_register_offset index);
  sys "PTRACE_PEEKUSER" (k_peekuser pid offset).

(* src/ptrace/ptrace.cpp:105-111 set_debug_register *)
Definition set_debug_register (pid index value : Z) : M world unit :=
  offset ← lift (debug_register_offset index);
  sys "PTRACE_POKEUSER" (k_pokeuser pid offset value).

(* src/ptrace/ptrace.cpp:113-121 peek_word *)
Definition peek_word (pid address : Z) : M world Z := sys "PTRACE_PEEKDATA" (k_peekdata pid address).

(* src/ptrace/ptrace.cpp:123-128 poke_word *)
Definition poke_word (pid address value : Z) : M world unit :=
  sys "PTRACE_POKEDATA" (k_pokedata pid address value).

(** The bytes the inner loop of [read_memory] takes from one word. *)
(* src/ptrace/ptrace.cpp:138-140 read_memory *)
Definition word_bytes (word : Z) (chunk : nat) : list byte :=
  map (fun i => byte_of_Z (Z.land (Z.shiftr word (Z.of_nat i * 8)) 0xff)) (seq 0 chunk).

(** The loop over the words of the range, [fuel] words at most. *)
(* src/ptrace/ptrace.cpp:136-141 read_memory *)
Fixpoint read_memory_loop (fuel : nat) (pid address : Z) (length offset : Z) : M world (list byte) :=
  if offset <? length then
    match fuel with
    | O => mout_of_fuel
    | S fuel =>
      word ← peek_word pid (u64 (address + offset));
      rest ← read_memory_loop fuel pid address length (offset + 8);
      mret (word_bytes word (Z.to_nat (Z.min 8 (length - offset))) ++ rest)
    end
  else mret [].

(* src/ptrace/ptrace.cpp:130-143 read_memory *)
Definition read_memory (pid address length : Z) : M world (list byte) :=
  read_memory_loop (Z.to_nat length) pid address length 0.

(* src/ptrace/ptrace.cpp:145-147 read_byte *)
Definition read_byte (pid address : Z) : M world byte :=
  word ← peek_word pid address;
  mret (byte_of_Z (Z.land word 0xff)).

(* src/ptrace/ptrace.cpp:149-154 write_byte *)
Definition write_byte (pid address : Z) (value : byte) : M world unit :=
  current ← peek_word pid address;
  let replacement := Z.lor (Z.land current (u64 (Z.lnot 0xff))) (byte_val value) in
  poke_word pid address replacement.
End Ptrace.

(** ** What the wrappers do, under the kernel's laws *)

Lemma word_bytes_combine (b : list byte) (n : nat) :
  (n <= length b)%nat -> word_bytes (le_combine b) n = take n b.
Proof.
  revert b. induction n as [|n IH]; intros [|x b] Hn; [done..|simpl in Hn; lia|].
  unfold word_bytes in *. cbn [seq map take]. f_equal.
  - rewrite Z.mul_0_l, Z.shiftr_0_r. apply low_byte.
  - rewrite <- seq_shift, map_map. rewrite <- IH by (simpl in Hn; lia). apply map_ext. intros i.
    rewrite Nat2Z.inj_succ.
    replace (Z.succ (Z.of_nat i) * 8) with (8 + Z.of_nat i * 8) by lia.
    rewrite <- Z.shiftr_shiftr by lia. do 3 f_equal.
    rewrite Z.shiftr_div_pow2 by lia. cbn [le_combine].
    pose proof (byte_val_range x). change (2 ^ 8) with 256. dlia.
Qed.

Lemma u64_add_inj a i j : 0 <= i < 8 -> 0 <= j < 8 -> u64 (a + i) = u64 (a + j) -> i = j.
Proof. unfold u64. intros. dlia. Qed.

Section PtraceLaws.
Context `{K : Kernel} `{L : !KernelLaws K}.

(** Nothing about the tasks themselves differs between two worlds. *)
Record same_tasks (w w' : world) : Prop := {
  same_stopped : forall t, k_stopped w' t <-> k_stopped w t;
  same_space : forall t, k_space w' t = k_space w t;
  same_regs : forall t, k_regs w' t = k_regs w t;
  same_dr : forall t i, k_dr w' t i = k_dr w t i
}.

#[export] Instance same_tasks_preorder : PreOrder same_tasks.
Proof.
  split; [done|]. intros w1 w2 w3 [A1 A2 A3 A4] [B1 B2 B3 B4].
  split; intros; rewrite ?B1, ?B2, ?B3, ?B4; auto.
Qed.

(** The word at [a] of the task's address space is mapped. *)
Definition mapped_word (w : world) (pid a : Z) : Prop :=
  forall i, (i < 8)%nat -> is_Some (k_mem w (k_space w pid) (u64 (a + Z.of_nat i))).

(** [w'] is [w] with the byte [v] stored at [a] of the address space [sp]. *)
Definition stored (w w' : world) (sp a : Z) (v : byte) : Prop :=
  same_tasks w w' /\
  forall s x, k_mem w' s x = if decide (s = sp /\ x = a) then Some v else k_mem w s x.

Lemma peek_word_spec w pid a :
  k_stopped w pid -> mapped_word w pid a ->
  exists b, length b = 8%nat /\
    (forall i, (i < 8)%nat -> b !! i = k_mem w (k_space w pid) (u64 (a + Z.of_nat i))) /\
    peek_word pid a w = (Ok (le_combine b), w).
Proof.
  intros Hs Hm. destruct (list_of_partial _ 8 Hm) as (b & Hb & E). exists b. split; [done|].
  split; [done|]. unfold peek_word, sys.
  pose proof (law_peek pid a w b Hs Hb (fun i Hi => eq_sym (E i Hi))) as H1.
  pose proof (law_peek_world pid a w) as H2.
  destruct (k_peekdata pid a w) as [r w']. simpl in *. by subst.
Qed.

(** [write_byte] on a mapped address of a stopped tracee succeeds, and the
    only thing that changes is that one byte: its neighbours in the word that is
    read and written back, every other address space and every task keep their
    contents. *)
Theorem write_byte_stores w pid a v :
  in_u64 a -> k_stopped w pid -> mapped_word w pid a ->
  exists w', write_byte pid a v w = (Ok tt, w') /\ stored w w' (k_space w pid) a v.
Proof.
  intros Ha Hs Hm. destruct (peek_word_spec w pid a Hs Hm) as (b & Hb & E & Hpeek).
  unfold write_byte. unfold mbind, M_bind. rewrite Hpeek.
  destruct b as [|b0 t]; [done|]. injection Hb as Ht.
  rewrite replace_low_byte by lia. unfold poke_word, sys.
  pose proof (law_poke pid a (le_combine (v :: t)) w (v :: t) Hs
                ltac:(simpl; lia) Hm eq_refl) as Hpoke.
  destruct (k_pokedata pid a (le_combine (v :: t)) w) as [r w'].
  destruct Hpoke as (-> & H1 & H2 & H3 & H4 & Hin & Hout). exists w'. split; [done|].
  split; [by split|]. intros s x.
  destruct (decide (s = k_space w pid /\ Exists (fun i => x = u64 (a + Z.of_nat i)) (seq 0 8)))
    as [[-> Hex]|Hn].
  - apply Exists_exists in Hex as (i & [_ Hi]%elem_of_seq & ->).
    rewrite Hin by done. destruct i as [|i].
    + rewrite Z.add_0_r, u64_small by done. by rewrite decide_True.
    + rewrite decide_False.
      * rewrite <- (E (S i)) by done. done.
      * intros [_ Hx]. rewrite <- (u64_small a) in Hx at 2 by done.
        rewrite <- (Z.add_0_r a) in Hx at 2. apply u64_add_inj in Hx; lia.
  - rewrite decide_False.
    + apply Hout. destruct (decide (s = k_space w pid)); [right|by left].
      intros i Hi Hx. apply Hn. split; [done|]. apply Exists_exists. exists i.
      split; [apply elem_of_seq; lia|done].
    + intros [-> ->]. apply Hn. split; [done|]. apply Exists_exists. exists O.
      split; [apply elem_of_seq; lia|]. by rewrite Z.add_0_r, u64_small.
Qed.

Lemma read_byte_reads w pid a :
  in_u64 a -> k_stopped w pid -> mapped_word w pid a ->
  exists v, k_mem w (k_space w pid) a = Some v /\ read_byte pid a w = (Ok v, w).
Proof.
  intros Ha Hs Hm. destruct (peek_word_spec w pid a Hs Hm) as (b & Hb & E & Hpeek).
  destruct b as [|b0 t]; [done|]. exists b0. split.
  - specialize (E O ltac:(lia)). by rewrite Z.add_0_r, u64_small in E.
  - unfold read_byte, mbind, M_bind. rewrite Hpeek. unfold mret, M_ret. by rewrite low_byte.
Qed.

Lemma read_memory_loop_spec w pid a len (k fuel : nat) off (l : list byte) :
  k_stopped w pid -> length l = (8 * k)%nat ->
  (forall i, (i < length l)%nat ->
     k_mem w (k_space w pid) (u64 (a + off + Z.of_nat i)) = l !! i) ->
  len - off <= 8 * Z.of_nat k -> 8 * Z.of_nat k < len - off + 8 -> (k <= fuel)%nat ->
  read_memory_loop fuel pid a len off w = (Ok (take (Z.to_nat (len - off)) l), w).
Proof.
  intros Hs. revert fuel off l. induction k as [|k IH]; intros fuel off l Hl E H1 H2 Hf.
  - replace (Z.to_nat (len - off)) with O by lia.
    destruct fuel; simpl; destruct (Z.ltb_spec off len); try lia; done.
  - destruct fuel as [|fuel]; [lia|]. simpl. destruct (Z.ltb_spec off len); [|lia].
    assert (Hm : mapped_word w pid (u64 (a + off))).
    { intros i Hi. unfold u64. rewrite Zplus_mod_idemp_l. fold (u64 (a + off + Z.of_nat i)).
      rewrite E by lia. apply lookup_lt_is_Some. lia. }
    destruct (peek_word_spec w pid _ Hs Hm) as (b & Hb & Eb & Hpeek).
    assert (b = take 8 l) as ->.
    { apply list_eq. intros i. destruct (decide (i < 8)%nat).
      - rewrite Eb, lookup_take_lt by done. unfold u64. rewrite Zplus_mod_idemp_l.
        fold (u64 (a + off + Z.of_nat i)). apply E. lia.
      - rewrite (lookup_ge_None_2 b), (lookup_ge_None_2 (take 8 l)); rewrite ?length_take; done || lia. }
    unfold mbind, M_bind. rewrite Hpeek.
    rewrite (IH fuel (off + 8) (drop 8 l)); [|rewrite length_drop; lia| |lia..].
    + unfold mret, M_ret. f_equal. f_equal.
      rewrite word_bytes_combine by (rewrite length_take; lia).
      rewrite take_take. destruct (Z.leb_spec (len - off) 8).
      * replace (Z.to_nat (len - (off + 8))) with O by lia.
        rewrite take_0, app_nil_r. f_equal. lia.
      * replace (Z.to_nat (Z.min 8 (len - off)) `min` 8)%nat with 8%nat by lia.
        rewrite take_take_drop. f_equal. lia.
    + intros i Hi. rewrite length_drop in Hi. rewrite lookup_drop, <- E by lia.
      do 2 f_equal. lia.
Qed.

(** [read_memory] of a stopped tracee returns exactly the bytes of the range,
    provided the words that cover it are mapped: [l] holds the bytes from
    [address] up to the next multiple of eight past the length. *)
Theorem read_memory_reads w pid address length_ (l : list byte) (words : nat) :
  k_stopped w pid -> 0 <= length_ ->
  length_ <= 8 * Z.of_nat words < length_ + 8 -> length l = (8 * words)%nat ->
  (forall i, (i < length l)%nat ->
     k_mem w (k_space w pid) (u64 (address + Z.of_nat i)) = l !! i) ->
  read_memory pid address length_ w = (Ok (take (Z.to_nat length_) l), w).
Proof.
  intros Hs H0 Hw Hl E. unfold read_memory.
  rewrite (read_memory_loop_spec _ _ _ _ words _ _ l); [|done|done| |lia..].
  - by rewrite Z.sub_0_r.
  - intros i Hi. rewrite Z.add_0_r. auto.
Qed.

(** Debug registers. *)
Lemma get_debug_register_reads w pid i :
  k_stopped w pid -> 0 <= i < 8 -> get_debug_register pid i w = (Ok (k_dr w pid i), w).
Proof.
  intros Hs Hi. unfold get_debug_register, debug_register_offset, mbind, M_bind, lift.
  destruct (Z.leb_spec 8 i); [lia|]. unfold sys. by rewrite law_peekuser.
Qed.

(** The worlds differ at most in the debug registers of [pid]. *)
Record dr_changed (w w' : world) (pid : Z) : Prop := {
  drc_stopped : forall t, k_stopped w' t <-> k_stopped w t;
  drc_space : forall t, k_space w' t = k_space w t;
  drc_regs : forall t, k_regs w' t = k_regs w t;
  drc_mem : forall s x, k_mem w' s x = k_mem w s x;
  drc_dr : forall t i, t <> pid -> k_dr w' t i = k_dr w t i
}.

#[export] Instance dr_changed_refl : Reflexive (fun w w' => forall pid, dr_changed w w' pid).
Proof. by split. Qed.

Lemma dr_changed_trans w1 w2 w3 pid :
  dr_changed w1 w2 pid -> dr_changed w2 w3 pid -> dr_changed w1 w3 pid.
Proof.
  intros [A1 A2 A3 A4 A5] [B1 B2 B3 B4 B5].
  split; intros; rewrite ?B1, ?B2, ?B3, ?B4, ?B5; auto.
Qed.

Lemma set_debug_register_spec w pid i v :
  k_stopped w pid -> 0 <= i < 8 ->
  let '(r, w') := set_debug_register pid i v w in
  dr_changed w w' pid /\
  match r with
  | Ok _ => forall j, k_dr w' pid j = if decide (j = i) then v else k_dr w pid j
  | Throw _ => forall j, k_dr w' pid j = k_dr w pid j
  | _ => False
  end.
Proof.
  intros Hs Hi. unfold set_debug_register, debug_register_offset, mbind, M_bind, lift.
  destruct (Z.leb_spec 8 i); [lia|]. unfold sys. pose proof (law_pokeuser pid i v w Hs Hi) as Hl.
  destruct (k_pokeuser pid (848 + i * 8) v w) as [[e|[]] w']; destruct Hl as (H1 & H2 & H3 & H4 & H5).
  - split; [split; auto|]; intros; rewrite H5, decide_False; naive_solver.
  - split; [split; auto|]; intros.
    + rewrite H5, decide_False; naive_solver.
    + rewrite H5. by repeat case_decide; naive_solver.
Qed.
End PtraceLaws.

(** ** Witnesses on the concrete kernel: sixteen bytes mapped at 0x1000 *)

Definition demo_bytes : list byte := map byte_of_Z [0x55; 0x48; 0x89; 0xe5; 0x90; 0x90; 0xc3; 0; 1; 2; 3; 4; 5; 6; 7; 8].
Definition demo_world : sim := sim_init (sim_mapped 0x1000 demo_bytes) [].

Lemma write_byte_stores_witness :
  exists w', write_byte (K := SimKernel) 100 0x1000 Byte.xcc demo_world = (Ok tt, w') /\
    stored (L := SimKernelLaws) demo_world w' 0 0x1000 Byte.xcc.
Proof.
  apply (write_byte_stores (L := SimKernelLaws) demo_world 100 0x1000 Byte.xcc).
  - unfold in_u64, u64_max. lia.
  - exact I.
  - intros i Hi. do 8 (destruct i as [|i]; [vm_compute; by eexists|]). lia.
Defined.

Lemma read_memory_reads_witness :
  read_memory (K := SimKernel) 100 0x1000 11 demo_world = (Ok (take 11 demo_bytes), demo_world).
Proof.
  apply (read_memory_reads (L := SimKernelLaws) demo_world 100 0x1000 11 demo_bytes 2).
  - exact I.
  - lia.
  - lia.
  - reflexivity.
  - intros i Hi. do 16 (destruct i as [|i]; [vm_compute; reflexivity|]). simpl in Hi. lia.
Defined.
