(* ===== verification/Process.v ===== *)
(** * Process and thread lifecycle ([src/process/]) *)

From S2P Require Import Prelude Machine SimKernel.
From S2P Require Ptrace.

(* src/process/process.hpp:13-13 ProcessState *)
Inductive ProcessState := Stopped | Running | Exited | Signaled | Detached.
(* src/process/process.hpp:14-14 ProcessOrigin *)
Inductive ProcessOrigin := Launched | Attached.

#[export] Instance ProcessState_eq_dec : EqDecision ProcessState.
Proof. solve_decision. Defined.
#[export] Instance ProcessOrigin_eq_dec : EqDecision ProcessOrigin.
Proof. solve_decision. Defined.

(* src/process/process.hpp:17-17 WaitEvent::Kind *)
Inductive WaitKind := KStopped | KExited | KSignaled.
#[export] Instance WaitKind_eq_dec : EqDecision WaitKind.
Proof. solve_decision. Defined.

(* src/process/process.hpp:16-23 WaitEvent *)
Record WaitEvent := mkWaitEvent {
  ev_kind : WaitKind;
  ev_value : Z;
  ev_tid : Z;
  ev_ptrace_event : Z;
  ev_new_tid : option Z
}.

(* src/process/process.hpp:25-100 Process *)
Record process := mkProcess {
  pid_ : Z;
  current_tid_ : Z;
  state_ : ProcessState;
  origin_ : ProcessOrigin;
  task_states_ : gmap Z ProcessState;
  exit_code_ : option Z;
  termination_signal_ : option Z
}.

Definition set_pid v p := mkProcess v (current_tid_ p) (state_ p) (origin_ p) (task_states_ p) (exit_code_ p) (termination_signal_ p).
Definition set_current_tid v p := mkProcess (pid_ p) v (state_ p) (origin_ p) (task_states_ p) (exit_code_ p) (termination_signal_ p).
Definition set_state v p := mkProcess (pid_ p) (current_tid_ p) v (origin_ p) (task_states_ p) (exit_code_ p) (termination_signal_ p).
Definition set_tasks v p := mkProcess (pid_ p) (current_tid_ p) (state_ p) (origin_ p) v (exit_code_ p) (termination_signal_ p).
Definition set_exit_code v p := mkProcess (pid_ p) (current_tid_ p) (state_ p) (origin_ p) (task_states_ p) v (termination_signal_ p).
Definition set_termination_signal v p := mkProcess (pid_ p) (current_tid_ p) (state_ p) (origin_ p) (task_states_ p) (exit_code_ p) v.

(** The default member initialisers, and the constructor of a fresh tracee. *)
(* src/process/process.hpp:93-99 Process *)
Definition default_process : process := mkProcess (-1) (-1) Exited Launched ∅ None None.
(* src/process/process.hpp:80-86 Process *)
Definition new_process (pid : Z) (origin : ProcessOrigin) : process :=
  mkProcess pid pid Running origin {[pid := Running]} None None.

(** A move leaves the source without identity and without tasks. *)
(* src/process/process.cpp:70-77 Process::Process(Process&&) *)
Definition move_process (p : process) : process * process :=
  (p, mkProcess (-1) (-1) (state_ p) (origin_ p) ∅ (exit_code_ p) (termination_signal_ p)).

(* src/process/process.cpp:326-335 Process::swap *)
Definition swap_process (p q : process) : process * process := (q, p).

(* src/process/process.cpp:208-216 Process::tids *)
Definition tids (p : process) : list Z := (map_in_order (task_states_ p)).*1.

(* src/process/process.cpp:218-222 Process::task_state *)
Definition task_state (p : process) (tid : Z) : option ProcessState := task_states_ p !! tid.

(* src/process/process.cpp:337-347 Process::update_aggregate_state *)
Definition update_aggregate_state (p : process) : process :=
  if bool_decide (task_states_ p = ∅) then p
  else if existsb (fun '(_, s) => bool_decide (s = Stopped)) (map_in_order (task_states_ p))
  then set_state Stopped p
  else set_state Running p.

(* src/process/process.cpp:349-358 Process::select_current_task *)
Definition select_current_task (p : process) : process :=
  let tasks := map_in_order (task_states_ p) in
  match list_find (fun x => x.2 = Stopped) tasks with
  | Some (_, (tid, _)) => set_current_tid tid p
  | None =>
    match tasks with
    | (tid, _) :: _ => set_current_tid tid p
    | [] => set_current_tid (-1) p
    end
  end.

(* src/process/process.cpp:299-304 Process::mark_running *)
Definition mark_running_tid (tid : Z) (p : process) : process :=
  match task_states_ p !! tid with
  | None => p
  | Some _ => update_aggregate_state (set_tasks (<[tid := Running]> (task_states_ p)) p)
  end.

(** The common body of [collapse_after_exec] and [adopt_stopped_process]. *)
Definition single_stopped_task (tid : Z) (p : process) : process :=
  mkProcess tid tid Stopped (origin_ p) {[tid := Stopped]} None None.

(** ** [std::stoll(name, &consumed, 10)] *)

Definition is_space (c : ascii) : bool :=
  let n := Z.of_N (N_of_ascii c) in (n =? 32) || ((9 <=? n) && (n <=? 13)).
Definition digit_value (c : ascii) : option Z :=
  let n := Z.of_N (N_of_ascii c) in
  if (48 <=? n) && (n <=? 57) then Some (n - 48) else None.

(** Reads digits; returns the value and the number of characters read. *)
Fixpoint stoll_digits (acc : Z) (read : nat) (s : string) : Z * nat :=
  match s with
  | String c t => match digit_value c with
                  | Some d => stoll_digits (acc * 10 + d) (S read) t
                  | None => (acc, read)
                  end
  | EmptyString => (acc, read)
  end.

Fixpoint skip_spaces (s : string) : nat * string :=
  match s with
  | String c t => if is_space c then let '(n, r) := skip_spaces t in (S n, r) else (O, s)
  | EmptyString => (O, s)
  end.

(** [None] where [stoll] throws. *)
Definition stoll (s : string) : option (Z * nat) :=
  let '(spaces, s1) := skip_spaces s in
  let '(neg, sign, s2) :=
    match s1 with
    | String "-" t => (true, 1%nat, t)
    | String "+" t => (false, 1%nat, t)
    | _ => (false, O, s1)
    end in
  let '(v, n) := stoll_digits 0 O s2 in
  if (n =? 0)%nat then None
  else
    let v := if neg : bool then - v else v in
    if (i64_min <=? v) && (v <=? i64_max) then Some (v, spaces + sign + n)%nat else None.

Section Process.
Context `{K : Kernel}.

(** The methods run on the object and the kernel. *)
Definition pst : Type := process * world.
Definition on_world {A} (m : M world A) : M pst A :=
  zoom snd (fun w s => (s.1, w)) m.
Definition get_process : M pst process := gets fst.
Definition upd_process (f : process -> process) : M pst unit :=
  modify (fun s => (f s.1, s.2)).

(* src/process/process.hpp:57-66 Process::collapse_after_exec *)
Definition collapse_after_exec (tid : Z) : M pst unit :=
  _ ← mthrow_if (tid <=? 0) InvalidArgument "exec collapse requires a positive tid";
  upd_process (single_stopped_task tid).

(* src/process/process.hpp:67-76 Process::adopt_stopped_process *)
Definition adopt_stopped_process (pid : Z) : M pst unit :=
  _ ← mthrow_if (pid <=? 0) InvalidArgument "process adoption requires a positive pid";
  upd_process (single_stopped_task pid).

(* src/process/process.cpp:194-206 Process::adopt_stopped *)
Definition adopt_stopped (pid : Z) (origin : ProcessOrigin) : res process :=
  _ ← throw_if (pid <=? 0)
        (Exn InvalidArgument "stopped process adoption requires a positive pid");
  Ok (single_stopped_task pid (new_process pid origin)).

(** [do { result = waitpid(...); } while (result == -1 && errno == EINTR);] *)
(* src/process/process.cpp:234-240 Process::wait_for *)
Fixpoint waitpid_retry (fuel : nat) (requested_tid : Z) : M world (Z + Z * Z) :=
  match fuel with
  | O => mout_of_fuel
  | S fuel => fun w =>
    match k_waitpid requested_tid w with
    | (inl e, w') => if e =? EINTR then waitpid_retry fuel requested_tid w' else (Ok (inl e), w')
    | (inr r, w') => (Ok (inr r), w')
    end
  end.

(** A task has ended: [record] notes the outcome when it is the leader. *)
(* src/process/process.cpp:253-264 Process::wait_for *)
Definition task_ended (result : Z) (final : ProcessState) (record : process -> process)
    (p : process) : process :=
  let p := if result =? pid_ p then record p else p in
  let p := set_tasks (delete result (task_states_ p)) p in
  if bool_decide (task_states_ p = ∅) then set_state final (set_current_tid (-1) p)
  else select_current_task (update_aggregate_state p).

(* src/process/process.cpp:279-294 Process::wait_for *)
Definition task_stopped (result status : Z) : M pst WaitEvent :=
  _ ← upd_process (fun p => set_state Stopped (set_tasks (<[result := Stopped]> (task_states_ p)) p));
  let ptrace_event := ptrace_event_of status in
  new_tid ←
    (if ptrace_event =? PTRACE_EVENT_CLONE then
       message ← on_world (Ptrace.get_event_message result);
       _ ← mthrow_if ((message =? 0) || (pid_max <? message)) RuntimeError
             "PTRACE_EVENT_CLONE returned an invalid task id";
       _ ← upd_process (fun p =>
             match task_states_ p !! message with
             | Some _ => p
             | None => set_tasks (<[message := Running]> (task_states_ p)) p
             end);
       mret (Some message)
     else mret None);
  mret (mkWaitEvent KStopped (WSTOPSIG status) result ptrace_event new_tid).

(* src/process/process.cpp:233-297 Process::wait_for *)
Definition wait_for (fuel : nat) (requested_tid : Z) : M pst WaitEvent :=
  r ← on_world (waitpid_retry fuel requested_tid);
  match r with
  | inl _ => mthrow RuntimeError "waitpid failed"
  | inr (result, status) =>
    p ← get_process;
    w ← gets snd;
    _ ← mwhen (bool_decide (task_states_ p !! result = None) && WIFSTOPPED status &&
               k_task_exists (pid_ p) result w)
          (upd_process (fun p => set_tasks (<[result := Running]> (task_states_ p)) p));
    p ← get_process;
    _ ← mthrow_if (bool_decide (task_states_ p !! result = None)) RuntimeError
          "waitpid returned an event for an untracked task";
    _ ← upd_process (set_current_tid result);
    if WIFEXITED status then
      let code := WEXITSTATUS status in
      _ ← upd_process (task_ended result Exited (set_exit_code (Some code)));
      mret (mkWaitEvent KExited code result 0 None)
    else if WIFSIGNALED status then
      let signal := WTERMSIG status in
      _ ← upd_process (task_ended result Signaled (set_termination_signal (Some signal)));
      mret (mkWaitEvent KSignaled signal result 0 None)
    else if WIFSTOPPED status then task_stopped result status
    else mthrow RuntimeError "waitpid returned an unsupported process state"
  end.

(* src/process/process.cpp:224-224 Process::wait *)
Definition wait (fuel : nat) : M pst WaitEvent := wait_for fuel (-1).

(* src/process/process.cpp:226-231 Process::wait_current *)
Definition wait_current (fuel : nat) : M pst WaitEvent :=
  p ← get_process;
  _ ← mthrow_if (current_tid_ p <=? 0) LogicError "cannot wait without an active tracee task";
  wait_for fuel (current_tid_ p).

(* src/process/process.hpp:53-53 Process::mark_running *)
Definition mark_running : M pst unit := upd_process (fun p => mark_running_tid (current_tid_ p) p).

(* src/process/process.cpp:306-324 Process::select_tid *)
Definition select_tid (tid : Z) : M pst unit :=
  p ← get_process;
  _ ← mthrow_if (bool_decide (state_ p <> Stopped)) LogicError
        "thread selection requires a stopped tracee";
  _ ← mthrow_if (existsb (fun '(_, s) => bool_decide (s <> Stopped)) (map_in_order (task_states_ p)))
        LogicError "thread selection requires every traced thread to be stopped";
  match task_states_ p !! tid with
  | None => mthrow InvalidArgument "cannot select an untracked thread"
  | Some s =>
    _ ← mthrow_if (bool_decide (s <> Stopped)) LogicError "cannot select a running thread";
    upd_process (set_current_tid tid)
  end.

(** The order in which [detach] releases the threads: the others first, the one
    that gets the signal last. *)
(* src/process/process.cpp:374-381 Process::detach *)
Definition detach_order (p : process) : list Z :=
  List.filter (fun tid => negb (tid =? current_tid_ p)) (tids p) ++
  (if bool_decide (is_Some (task_states_ p !! current_tid_ p)) then [current_tid_ p] else []).

Definition is_esrch (e : exn) : bool := bool_decide (exn_cls e = PtraceError ESRCH).

Definition erase_task (tid : Z) : M pst unit :=
  upd_process (fun p => set_tasks (delete tid (task_states_ p)) p).

(** The release loop; returns the first error that is not [ESRCH]. *)
(* src/process/process.cpp:383-399 Process::detach *)
Fixpoint detach_loop (signal_tid signal : Z) (order : list Z) (first_error : option exn)
    : M pst (option exn) :=
  match order with
  | [] => mret first_error
  | tid :: order =>
    first_error ← mcatch
      (_ ← on_world (Ptrace.detach tid (if tid =? signal_tid then signal else 0));
       _ ← erase_task tid;
       mret first_error)
      (fun e => if is_esrch e then (_ ← erase_task tid; mret first_error)
                else mret (match first_error with None => Some e | _ => first_error end));
    detach_loop signal_tid signal order first_error
  end.

(* src/process/process.cpp:360-408 Process::detach *)
Definition detach (signal : Z) : M pst unit :=
  p ← get_process;
  _ ← mthrow_if (bool_decide (origin_ p <> Attached)) LogicError
        "detach is only valid for an attached process";
  _ ← mthrow_if (bool_decide (state_ p <> Stopped)) LogicError
        "detach requires a stopped process";
  _ ← mthrow_if (existsb (fun '(_, s) => bool_decide (s <> Stopped)) (map_in_order (task_states_ p)))
        LogicError "detach requires every traced thread to be stopped";
  first_error ← detach_loop (current_tid_ p) signal (detach_order p) None;
  _ ← upd_process (fun p =>
        if bool_decide (task_states_ p = ∅)
        then set_pid (-1) (set_current_tid (-1) (set_state Detached p))
        else select_current_task (update_aggregate_state p));
  match first_error with Some e => lift (Throw e) | None => mskip end.

(** [for (;;)] over [waitpid(-1)] until it fails. *)
(* src/process/process.cpp:450-460 Process::cleanup *)
Fixpoint reap_loop (fuel n : nat) : M pst unit :=
  match n with
  | O => mout_of_fuel
  | S n =>
    r ← on_world (waitpid_retry fuel (-1));
    match r with
    | inl _ => mskip
    | inr (result, _) => _ ← erase_task result; reap_loop fuel n
    end
  end.

(* src/process/process.cpp:410-466 Process::cleanup *)
Definition cleanup (fuel : nat) : M pst unit :=
  p ← get_process;
  if (pid_ p <=? 0) || bool_decide (state_ p = Exited) || bool_decide (state_ p = Signaled) ||
     bool_decide (state_ p = Detached)
  then mskip
  else if bool_decide (origin_ p = Attached) then
    released ←
      (if bool_decide (state_ p = Stopped) then
         mcatch (_ ← detach 0; mret true) (fun _ =>
           p ← get_process;
           _ ← mfor (map_in_order (task_states_ p)) (fun '(tid, s) =>
                 mwhen (bool_decide (s = Stopped))
                   (mcatch (_ ← on_world (Ptrace.detach tid 0); erase_task tid)
                      (fun e => mwhen (is_esrch e) (erase_task tid))));
           mret false)
       else mret false);
    mwhen (negb released)
      (upd_process (fun p => set_state Detached (set_pid (-1) (set_current_tid (-1) (set_tasks ∅ p)))))
  else
    _ ← (fun s => (Ok tt, (s.1, snd (k_kill (pid_ p) SIGKILL s.2))));
    _ ← reap_loop fuel fuel;
    upd_process (fun p => set_state Exited (set_pid (-1) (set_current_tid (-1) (set_tasks ∅ p)))).

(** A method body on a local [Process]: an exception destroys the object. *)
Definition with_process (fuel : nat) (p0 : process) (m : M pst unit) : M world process :=
  fun w => match m (p0, w) with
           | (Ok _, (p, w')) => (Ok p, w')
           | (Throw e, s) =>
               match cleanup fuel s with
               | (Ok _, (_, w')) => (Throw e, w')
               | (Throw e', (_, w')) => (Throw e', w')
               | (Undef u, (_, w')) => (Undef u, w')
               | (OutOfFuel, (_, w')) => (OutOfFuel, w')
               end
           | (Undef u, (_, w')) => (Undef u, w')
           | (OutOfFuel, (_, w')) => (OutOfFuel, w')
           end.

(* src/process/process.cpp:93-126 Process::launch *)
Definition launch (fuel : nat) (executable : string) (arguments : list string) : M world process :=
  fun w =>
    match k_fork_exec executable arguments w with
    | (inl _, w') => (Throw (Exn RuntimeError "fork failed"), w')
    | (inr child, w') =>
      with_process fuel (new_process child Launched)
        (initial ← wait fuel;
         _ ← mthrow_if (bool_decide (ev_kind initial <> KStopped) || negb (ev_value initial =? SIGTRAP) ||
                        negb (ev_tid initial =? child)) RuntimeError
               "tracee did not stop with SIGTRAP after exec";
         on_world (Ptrace.set_options child (Z.lor PTRACE_O_EXITKILL PTRACE_O_TRACECLONE))) w'
    end.

(* src/process/process.cpp:35-64 thread_ids *)
Definition thread_ids (leader : Z) : M world (list Z) := fun w =>
  match k_task_names leader w with
  | None => (Throw (Exn RuntimeError "cannot enumerate tracee threads"), w)
  | Some names =>
    let ids := omap (fun name =>
      match stoll name with
      | Some (v, consumed) =>
        if negb (consumed =? String.length name)%nat || (v <=? 0) || (pid_max <? v) then None
        else Some v
      | None => None
      end) names in
    (Ok (unique_by Z.eqb (merge_sort Z.le ids)), w)
  end.

Definition kMaxAttachDiscoveryPasses : nat := 64.
Definition kMaxAttachTasks : nat := 4096.

(** One thread of an attach pass. *)
(* src/process/process.cpp:145-164 Process::attach *)
Definition attach_task (fuel : nat) (tid : Z) : M pst unit :=
  p ← get_process;
  if bool_decide (is_Some (task_states_ p !! tid)) then mskip
  else
    _ ← mthrow_if (kMaxAttachTasks <=? size (task_states_ p))%nat RuntimeError
          "attach thread count exceeds supported bound";
    attached ← mcatch (_ ← on_world (Ptrace.attach tid); mret true)
                 (fun e => if is_esrch e then mret false else lift (Throw e));
    mwhen attached
      (_ ← upd_process (fun p => set_tasks (<[tid := Running]> (task_states_ p)) p);
       initial ← wait_for fuel tid;
       _ ← mthrow_if (bool_decide (ev_kind initial <> KStopped) || negb (ev_value initial =? SIGSTOP) ||
                      negb (ev_tid initial =? tid)) RuntimeError
             "attached tracee thread did not stop with SIGSTOP";
       on_world (Ptrace.set_options tid PTRACE_O_TRACECLONE)).

(* src/process/process.cpp:139-187 Process::attach *)
Fixpoint attach_passes (fuel passes : nat) (pid : Z) : M pst unit :=
  match passes with
  | O => mthrow RuntimeError "attach thread discovery did not converge"
  | S passes =>
    observed ← on_world (thread_ids pid);
    _ ← mthrow_if (bool_decide (observed = [])) RuntimeError "attach target has no live threads";
    _ ← mfor observed (attach_task fuel);
    after ← on_world (thread_ids pid);
    p ← get_process;
    if bool_decide (after = []) ||
       existsb (fun tid => bool_decide (task_states_ p !! tid = None)) after
    then attach_passes fuel passes pid
    else
      _ ← mthrow_if (bool_decide (task_states_ p !! pid = None)) RuntimeError
            "thread-group leader exited during attach";
      _ ← upd_process (fun p => update_aggregate_state (set_current_tid pid p));
      p ← get_process;
      mthrow_if (bool_decide (state_ p <> Stopped)) RuntimeError
        "attach did not stop every traced thread"
  end.

(* src/process/process.cpp:128-192 Process::attach *)
Definition attach (fuel : nat) (pid : Z) : M world process :=
  _ ← mthrow_if (pid <=? 0) InvalidArgument "attach requires a positive pid";
  let p0 := set_state Running (set_current_tid (-1) (set_tasks ∅ (new_process pid Attached))) in
  with_process fuel p0
    (mon_throw (attach_passes fuel kMaxAttachDiscoveryPasses pid) (cleanup fuel)).
End Process.

(** ** Well-formed processes *)

Definition some_stopped (ts : gmap Z ProcessState) : Prop :=
  exists tid, ts !! tid = Some Stopped.

(** Every task is stopped or running, [state_] is the aggregate of the tasks, and
    the current task is tracked. *)
Record wf_process (p : process) : Prop := {
  wf_states : forall tid s, task_states_ p !! tid = Some s -> s = Stopped \/ s = Running;
  wf_stopped : some_stopped (task_states_ p) -> state_ p = Stopped;
  wf_running : task_states_ p <> ∅ -> ~ some_stopped (task_states_ p) -> state_ p = Running;
  wf_current : current_tid_ p = -1 \/ is_Some (task_states_ p !! current_tid_ p)
}.

Lemma existsb_some_stopped (ts : gmap Z ProcessState) :
  existsb (fun '(_, s) => bool_decide (s = Stopped)) (map_in_order ts) = true <-> some_stopped ts.
Proof.
  rewrite existsb_exists. split.
  - intros ([tid s] & Hin & ->%bool_decide_eq_true). exists tid.
    apply elem_of_map_in_order. by apply list_elem_of_In.
  - intros [tid H]. exists (tid, Stopped). split; [|by apply bool_decide_eq_true].
    apply list_elem_of_In. by apply elem_of_map_in_order.
Qed.

Lemma existsb_not_stopped (ts : gmap Z ProcessState) :
  existsb (fun '(_, s) => bool_decide (s <> Stopped)) (map_in_order ts) = false <->
  forall tid s, ts !! tid = Some s -> s = Stopped.
Proof.
  rewrite <- not_true_iff_false, existsb_exists. split.
  - intros H tid s Hl. destruct (decide (s = Stopped)); [done|]. exfalso. apply H.
    exists (tid, s). split; [|by apply bool_decide_eq_true].
    apply list_elem_of_In. by apply elem_of_map_in_order.
  - intros H ([tid s] & Hin & Hs%bool_decide_eq_true). apply Hs, (H tid).
    apply elem_of_map_in_order. by apply list_elem_of_In.
Qed.

Lemma update_aggregate_state_tasks p : task_states_ (update_aggregate_state p) = task_states_ p.
Proof. unfold update_aggregate_state. by repeat case_match. Qed.

Lemma update_aggregate_state_current p : current_tid_ (update_aggregate_state p) = current_tid_ p.
Proof. unfold update_aggregate_state. by repeat case_match. Qed.

Lemma update_aggregate_state_state p :
  task_states_ p <> ∅ ->
  (some_stopped (task_states_ p) -> state_ (update_aggregate_state p) = Stopped) /\
  (~ some_stopped (task_states_ p) -> state_ (update_aggregate_state p) = Running).
Proof.
  intros Hne. unfold update_aggregate_state. rewrite bool_decide_false by done.
  destruct (existsb _ _) eqn:E.
  - apply existsb_some_stopped in E. done.
  - split; [|done]. intros H%existsb_some_stopped. congruence.
Qed.

Lemma select_current_task_tasks p : task_states_ (select_current_task p) = task_states_ p.
Proof. unfold select_current_task. by repeat case_match. Qed.

Lemma select_current_task_state p : state_ (select_current_task p) = state_ p.
Proof. unfold select_current_task. by repeat case_match. Qed.

Lemma select_current_task_current p :
  current_tid_ (select_current_task p) = -1 \/
  is_Some (task_states_ p !! current_tid_ (select_current_task p)).
Proof.
  unfold select_current_task.
  destruct (list_find _ (map_in_order (task_states_ p))) as [[i [tid s]]|] eqn:E.
  - right. apply list_find_Some in E as (E & _). exists s. apply elem_of_map_in_order.
    by apply list_elem_of_lookup_2 in E.
  - destruct (map_in_order (task_states_ p)) as [|[tid s] l] eqn:El; [by left|right].
    exists s. apply elem_of_map_in_order. rewrite El. left.
Qed.

(** Re-aggregating and re-selecting makes any process with sane task states well formed. *)
Lemma wf_refresh p :
  (forall tid s, task_states_ p !! tid = Some s -> s = Stopped \/ s = Running) ->
  task_states_ p <> ∅ ->
  wf_process (select_current_task (update_aggregate_state p)).
Proof.
  intros Hs Hne. destruct (update_aggregate_state_state p Hne) as [H1 H2].
  split; rewrite ?select_current_task_tasks, ?select_current_task_state,
    ?update_aggregate_state_tasks; [done|auto..|].
  pose proof (select_current_task_current (update_aggregate_state p)) as Hc.
  by rewrite update_aggregate_state_tasks in Hc.
Qed.

Lemma wf_new_process pid origin : wf_process (new_process pid origin).
Proof.
  split; simpl.
  - intros tid s Hl%lookup_singleton_Some. naive_solver.
  - intros [tid Hl%lookup_singleton_Some]. naive_solver.
  - done.
  - right. by rewrite lookup_singleton_eq.
Qed.

Lemma wf_single_stopped_task tid p : wf_process (single_stopped_task tid p).
Proof.
  split; simpl.
  - intros t s Hl%lookup_singleton_Some. naive_solver.
  - done.
  - intros _ []. exists tid. apply lookup_singleton_eq.
  - right. by rewrite lookup_singleton_eq.
Qed.

Lemma wf_mark_running tid p : wf_process p -> wf_process (mark_running_tid tid p).
Proof.
  intros Hp. unfold mark_running_tid. destruct (task_states_ p !! tid) eqn:E; [|done].
  set (q := set_tasks (<[tid:=Running]> (task_states_ p)) p).
  assert (Hne : task_states_ q <> ∅) by (apply insert_non_empty).
  destruct (update_aggregate_state_state q Hne) as [H1 H2].
  split; rewrite ?update_aggregate_state_tasks, ?update_aggregate_state_current; auto.
  - intros t s. simpl. rewrite lookup_insert. case_decide; [naive_solver|apply (wf_states p Hp)].
  - simpl. destruct (wf_current p Hp) as [|[s Hc]]; [by left|right].
    rewrite lookup_insert. case_decide; eauto.
Qed.

Lemma wf_task_ended result final record p :
  (forall q, task_states_ (record q) = task_states_ q) ->
  wf_process p -> wf_process (task_ended result final record p).
Proof.
  intros Hr Hp. unfold task_ended.
  set (q := if result =? pid_ p then record p else p).
  assert (Hq : task_states_ q = task_states_ p) by (subst q; case_match; [apply Hr|done]).
  case_bool_decide as Hd; simpl in Hd.
  - split; simpl; rewrite Hd.
    + intros t s. by rewrite lookup_empty.
    + intros [t H]. by rewrite lookup_empty in H.
    + done.
    + by left.
  - apply wf_refresh; [|done]. intros t s. simpl. rewrite Hq, lookup_delete_Some.
    intros [_ H]. by apply (wf_states p Hp) in H.
Qed.

Definition sane_states (p : process) : Prop :=
  forall tid s, task_states_ p !! tid = Some s -> s = Stopped \/ s = Running.

Lemma sane_insert tid s p :
  s = Stopped \/ s = Running -> sane_states p -> sane_states (set_tasks (<[tid:=s]> (task_states_ p)) p).
Proof. intros Hs Hp t s'. simpl. rewrite lookup_insert. case_decide; [naive_solver|apply Hp]. Qed.

(** A stop of the task that is made current. *)
Lemma wf_set_stopped tid p :
  sane_states p -> current_tid_ p = tid ->
  wf_process (set_state Stopped (set_tasks (<[tid:=Stopped]> (task_states_ p)) p)).
Proof.
  intros Hp <-. split; simpl.
  - apply (sane_insert _ Stopped); auto.
  - done.
  - intros _ []. exists (current_tid_ p). apply lookup_insert_eq.
  - right. by rewrite lookup_insert_eq.
Qed.

(** The clone event adds its task as running. *)
Lemma wf_track_clone tid p :
  some_stopped (task_states_ p) -> wf_process p ->
  wf_process (match task_states_ p !! tid with
              | Some _ => p
              | None => set_tasks (<[tid:=Running]> (task_states_ p)) p
              end).
Proof.
  intros [t Ht] Hp. destruct (task_states_ p !! tid) eqn:E; [done|].
  assert (Hst : <[tid:=Running]> (task_states_ p) !! t = Some Stopped)
    by (rewrite lookup_insert_ne by congruence; done).
  split; simpl.
  - apply (sane_insert _ Running); [auto|exact (wf_states p Hp)].
  - intros _. apply (wf_stopped p Hp). by exists t.
  - intros _ []. by exists t.
  - destruct (wf_current p Hp) as [|[s Hc]]; [by left|right].
    rewrite lookup_insert. case_decide; eauto.
Qed.

Lemma exited_not_stopped status : WIFSTOPPED status = true -> WIFEXITED status = false.
Proof.
  unfold WIFSTOPPED, WIFEXITED, WTERMSIG.
  rewrite (land_mask _ 8 255), (land_mask _ 7 127) by done.
  change (2 ^ 8) with 256. change (2 ^ 7) with 128. rewrite Z.eqb_eq, Z.eqb_neq. dlia.
Qed.

Lemma signaled_not_stopped status : WIFSTOPPED status = true -> WIFSIGNALED status = false.
Proof.
  unfold WIFSTOPPED, WIFSIGNALED. rewrite (land_mask _ 8 255), (land_mask _ 7 127) by done.
  change (2 ^ 8) with 256. change (2 ^ 7) with 128. rewrite Z.eqb_eq. intros H.
  assert (status mod 128 = 127) as -> by dlia. done.
Qed.

Section Invariants.
Context `{K : Kernel}.

Definition wf_pst (s : pst) : Prop := wf_process s.1.

Lemma preserves_on_world {A} (I : process -> Prop) (m : M world A) :
  preserves (fun s : pst => I s.1) (on_world m).
Proof. intros [p w] H. unfold on_world, zoom. simpl. by destruct (m w). Qed.

Lemma preserves_upd_process (I : process -> Prop) f :
  (forall p, I p -> I (f p)) -> preserves (fun s : pst => I s.1) (upd_process f).
Proof. intros Hf [p w] H. by apply Hf. Qed.

Lemma preserves_get_process I : preserves I get_process.
Proof. by intros s. Qed.

Lemma task_stopped_wf result status p w :
  sane_states p -> current_tid_ p = result ->
  wf_pst (snd (task_stopped result status (p, w))).
Proof.
  intros Hs Hc. unfold task_stopped, mbind, M_bind, upd_process, modify. cbn [fst snd].
  set (q := set_state Stopped _).
  assert (Hq : wf_process q) by (subst q; by apply wf_set_stopped).
  assert (Hst : some_stopped (task_states_ q)) by (exists result; apply lookup_insert_eq).
  destruct (ptrace_event_of status =? PTRACE_EVENT_CLONE); [|done].
  unfold on_world, zoom. cbn [fst snd].
  destruct (Ptrace.get_event_message result w) as [[m| | |] w']; [|done..].
  unfold mthrow_if. destruct (_ || _); [done|]. exact (wf_track_clone m q Hst Hq).
Qed.

Lemma wait_for_wf fuel tid : preserves wf_pst (wait_for fuel tid).
Proof.
  intros [p w] Hp. unfold wait_for, mbind at 1, M_bind at 1, on_world, zoom. cbn [fst snd].
  destruct (waitpid_retry fuel tid w) as [[[e|[result status]]| | |] w']; [done| |done..].
  unfold mbind, M_bind, get_process, gets, mwhen, upd_process, modify, mthrow_if, mskip.
  cbn [fst snd].
  destruct (WIFSTOPPED status) eqn:Hstop.
  - rewrite (exited_not_stopped _ Hstop), (signaled_not_stopped _ Hstop), andb_true_r.
    destruct (_ && _); cbn [fst snd].
    + rewrite bool_decide_false by (simpl; by rewrite lookup_insert_eq).
      apply task_stopped_wf; [|done]. apply (sane_insert _ Running); [auto|exact (wf_states p Hp)].
    + destruct (bool_decide (_ = None)); [done|].
      apply task_stopped_wf; [|done]. exact (wf_states p Hp).
  - rewrite andb_false_r. cbn [andb fst snd].
    case_bool_decide as Hn; [done|]. cbn [fst snd].
    assert (Hq : wf_process (set_current_tid result p)).
    { split; [apply (wf_states p Hp)|apply (wf_stopped p Hp)|apply (wf_running p Hp)|].
      right. by apply not_eq_None_Some. }
    destruct (WIFEXITED status); [by apply wf_task_ended|].
    destruct (WIFSIGNALED status); [by apply wf_task_ended|done].
Qed.

Lemma wait_current_wf fuel : preserves wf_pst (wait_current fuel).
Proof.
  unfold wait_current. repeat (apply preserves_get_process || apply wait_for_wf ||
    preserves_step || solve [eauto with mdbg]).
Qed.

Lemma sane_erase tid p : sane_states p -> sane_states (set_tasks (delete tid (task_states_ p)) p).
Proof. intros H t s. simpl. intros [_ Hl]%lookup_delete_Some. by apply H in Hl. Qed.

Lemma detach_loop_sane signal_tid signal order e :
  preserves (fun s : pst => sane_states s.1) (detach_loop signal_tid signal order e).
Proof.
  revert e. induction order as [|tid order IH]; intros e; simpl;
    repeat (apply preserves_on_world || (apply preserves_upd_process; apply sane_erase)
            || apply IH || preserves_step || solve [eauto with mdbg]).
Qed.

(** Every error of the loop is caught. *)
Lemma detach_loop_ok signal_tid signal order e s :
  exists e' s', detach_loop signal_tid signal order e s = (Ok e', s').
Proof.
  revert e s. induction order as [|tid order IH]; intros e [p w]; simpl; [by eexists _, _|].
  unfold mbind at 1, M_bind at 1, mcatch, on_world, zoom, Ptrace.detach, Ptrace.sys.
  unfold mbind at 1, M_bind at 1. cbn [fst snd].
  destruct (k_detach tid _ w) as [[n|[]] w']; cbn [fst snd]; [|apply IH].
  destruct (is_esrch _); apply IH.
Qed.

Lemma detach_wf signal : preserves wf_pst (detach signal).
Proof.
  intros [p w] Hp. unfold detach, get_process. mrun.
  case_match; [done|]. case_match; [done|]. case_match; [done|].
  pose proof (detach_loop_sane (current_tid_ p) signal (detach_order p) None (p, w)
                (wf_states p Hp)) as Hl.
  destruct (detach_loop_ok (current_tid_ p) signal (detach_order p) None (p, w))
    as (e & [q w'] & E).
  rewrite E in Hl. simpl in Hl.
  erewrite run_Ok by exact E. unfold upd_process. mrun.
  assert (Hq : wf_process
    (if bool_decide (task_states_ q = ∅)
     then set_pid (-1) (set_current_tid (-1) (set_state Detached q))
     else select_current_task (update_aggregate_state q))).
  { destruct (decide (task_states_ q = ∅)) as [Hq|Hq];
      [rewrite bool_decide_true by done|rewrite bool_decide_false by done; by apply wf_refresh].
    split; simpl; rewrite Hq; [|intros [t Ht]; by rewrite lookup_empty in Ht|done|by left].
    intros t st. by rewrite lookup_empty. }
  by destruct e.
Qed.

(** ** Reachable processes *)

(** One call of a method on a tracked process; [fuel] bounds the retries of
    [waitpid]. *)
Inductive process_op :=
  | OpWait
  | OpWaitCurrent
  | OpMarkRunning (tid : Z)
  | OpSelectTid (tid : Z)
  | OpCollapseAfterExec (tid : Z)
  | OpAdoptStopped (pid : Z)
  | OpDetach (signal : Z).

Definition run_op (fuel : nat) (op : process_op) : M pst unit :=
  match op with
  | OpWait => _ ← wait fuel; mret tt
  | OpWaitCurrent => _ ← wait_current fuel; mret tt
  | OpMarkRunning tid => upd_process (mark_running_tid tid)
  | OpSelectTid tid => select_tid tid
  | OpCollapseAfterExec tid => collapse_after_exec tid
  | OpAdoptStopped pid => adopt_stopped_process pid
  | OpDetach signal => detach signal
  end.

(** The states a process object goes through: any sequence of calls, whatever each
    of them returns or throws, with the kernel free to change the world between
    calls. *)
Inductive reachable (pid : Z) (origin : ProcessOrigin) : process -> Prop :=
  | reachable_new : reachable pid origin (new_process pid origin)
  | reachable_op p fuel op w :
      reachable pid origin p -> reachable pid origin (snd (run_op fuel op (p, w))).1.

Lemma select_tid_wf tid : preserves wf_pst (select_tid tid).
Proof.
  intros [p w] Hp. unfold select_tid, get_process. mrun.
  case_match; [done|]. case_match; [done|]. cbn [fst].
  destruct (task_states_ p !! tid) eqn:E; [|done]. mrun. case_match; [done|].
  split; [apply (wf_states p Hp)|apply (wf_stopped p Hp)|apply (wf_running p Hp)|].
  right. simpl. rewrite E. by eexists.
Qed.

Lemma run_op_wf fuel op : preserves wf_pst (run_op fuel op).
Proof.
  destruct op; simpl.
  - apply preserves_bind; [apply wait_for_wf|auto with mdbg].
  - apply preserves_bind; [apply wait_current_wf|auto with mdbg].
  - apply preserves_upd_process. intros. by apply wf_mark_running.
  - apply select_tid_wf.
  - apply preserves_bind; [auto with mdbg|]. intros _.
    apply preserves_upd_process. intros. apply wf_single_stopped_task.
  - apply preserves_bind; [auto with mdbg|]. intros _.
    apply preserves_upd_process. intros. apply wf_single_stopped_task.
  - apply detach_wf.
Qed.

(** every reachable process is well formed: its tasks are stopped or running,
    its aggregate state is [Stopped] exactly when some task is stopped, and its
    current task is one it tracks. *)
Theorem reachable_wf pid origin p : reachable pid origin p -> wf_process p.
Proof.
  induction 1 as [|p fuel op w _ IH]; [apply wf_new_process|].
  exact (run_op_wf fuel op (p, w) IH).
Qed.

(** ** Detaching *)

Lemma elem_of_tids p tid : tid ∈ tids p <-> is_Some (task_states_ p !! tid).
Proof.
  unfold tids. rewrite list_elem_of_fmap. split.
  - intros ([t s] & -> & H%elem_of_map_in_order). simpl. by eexists.
  - intros [s H]. exists (tid, s). by rewrite elem_of_map_in_order.
Qed.

(** The threads before the current one in the order of [detach]. *)
Lemma elem_of_others p tid :
  tid ∈ List.filter (fun tid => negb (tid =? current_tid_ p)) (tids p) <->
  is_Some (task_states_ p !! tid) /\ tid <> current_tid_ p.
Proof. by rewrite !list_elem_of_In, filter_In, negb_true_iff, Z.eqb_neq, <- list_elem_of_In, elem_of_tids. Qed.

(** Every tracked thread is in it, once. *)
Lemma detach_order_members p :
  NoDup (detach_order p) /\ forall tid, tid ∈ detach_order p <-> is_Some (task_states_ p !! tid).
Proof.
  unfold detach_order. split.
  - apply NoDup_app. split; [apply NoDup_ListNoDup, List.NoDup_filter, NoDup_ListNoDup, NoDup_map_in_order|].
    case_bool_decide; split; try apply NoDup_singleton; try apply NoDup_nil_2; intros x [_ Hx]%elem_of_others.
    + by rewrite list_elem_of_singleton.
    + apply not_elem_of_nil.
  - intros tid. rewrite elem_of_app, elem_of_others. destruct (decide (tid = current_tid_ p)) as [->|Hne].
    + case_bool_decide as Hc; rewrite ?list_elem_of_singleton, ?elem_of_nil; naive_solver.
    + case_bool_decide; rewrite ?list_elem_of_singleton, ?elem_of_nil; naive_solver.
Qed.

(** [detach] visits every tracked thread exactly once, and the thread that
    receives the signal is the last one. *)
Theorem detach_order_spec p :
  wf_process p -> task_states_ p <> ∅ -> current_tid_ p <> -1 ->
  exists others,
    detach_order p = others ++ [current_tid_ p] /\
    (current_tid_ p ∉ others) /\ NoDup (detach_order p) /\
    (forall tid, tid ∈ detach_order p <-> is_Some (task_states_ p !! tid)).
Proof.
  intros Hp Hne Hc. destruct (wf_current p Hp) as [|Hcur]; [done|]. destruct (detach_order_members p) as [Hnd Hin].
  eexists. split; [unfold detach_order; by rewrite bool_decide_true by done|]. split; [|done].
  intros [_ Hx]%elem_of_others. done.
Qed.

(** What [detach] does once its loop has released every task. *)
Lemma detach_after_loop signal p w q w' :
  wf_process p -> origin_ p = Attached -> task_states_ p <> ∅ ->
  (forall tid s, task_states_ p !! tid = Some s -> s = Stopped) ->
  detach_loop (current_tid_ p) signal (detach_order p) None (p, w) = (Ok None, (q, w')) ->
  (forall tid, task_states_ q !! tid = if decide (tid ∈ detach_order p) then None else task_states_ p !! tid) ->
  detach signal (p, w) = (Ok tt, (set_pid (-1) (set_current_tid (-1) (set_state Detached q)), w')) /\ task_states_ q = ∅.
Proof.
  intros Hp Ho Hne Hs E Hq. unfold detach, get_process. mrun. cbn [fst].
  rewrite bool_decide_false by (rewrite Ho; auto).
  assert (Hst : state_ p = Stopped).
  { apply (wf_stopped p Hp). destruct (map_choose _ Hne) as (t & s & Ht).
    exists t. by rewrite Ht, (Hs t s Ht). }
  rewrite bool_decide_false by (rewrite Hst; auto).
  rewrite (proj2 (existsb_not_stopped _) Hs). erewrite run_Ok by exact E.
  destruct (detach_order_members p) as [_ Hin].
  assert (Hempty : task_states_ q = ∅).
  { apply map_empty. intros tid. rewrite Hq. case_decide as Hd; [done|].
    destruct (task_states_ p !! tid) eqn:Et; [|done]. exfalso. apply Hd, Hin. by rewrite Et. }
  split; [|done]. unfold upd_process. mrun. cbn [fst snd]. by rewrite bool_decide_true by done.
Qed.

End Invariants.

(** ** Letting the threads go *)

Section Release.
Context `{D : DetachLaws}.

(** The thread is stopped and traced. *)
Definition held (w : world) (t : Z) : Prop := k_stopped w t /\ k_traced w t.

(** The request for a held thread. *)
Lemma detach_held tid w :
  held w tid ->
  exists r w', Ptrace.detach tid 0 w = (r, w') /\
    (r = Ok tt \/ exists e, r = Throw e /\ is_esrch e = true) /\ ~ k_traced w' tid /\
    (forall t, t <> tid -> (k_traced w' t <-> k_traced w t) /\ (held w t -> held w' t)) /\
    (forall s x, k_mem w' s x = k_mem w s x).
Proof.
  intros [Hs Ht]. pose proof (law_detach tid w Hs Ht) as Hk. unfold Ptrace.detach, Ptrace.sys.
  destruct (k_detach tid 0 w) as [r w1]. destruct Hk as (Hr & Hn & Ho & Hm).
  assert (Hh : forall t, t <> tid -> (k_traced w1 t <-> k_traced w t) /\ (held w t -> held w1 t)).
  { intros t Hne. destruct (Ho t Hne) as [H1 H2]. split; [done|]. unfold held. tauto. }
  destruct Hr as [-> | ->]; (eexists _, w1; split; [reflexivity|]); (split; [|by repeat split; try apply Hh]).
  - by left.
  - right. eexists. by split.
Qed.

(** The loop over held threads releases them, and no other thread. *)
Lemma detach_loop_releases signal_tid order p w :
  NoDup order -> (forall t, t ∈ order -> held w t) ->
  exists q w', detach_loop signal_tid 0 order None (p, w) = (Ok None, (q, w')) /\
    (forall tid, task_states_ q !! tid = if decide (tid ∈ order) then None else task_states_ p !! tid) /\
    (forall t, t ∈ order -> ~ k_traced w' t) /\ (forall t, t ∉ order -> (k_traced w' t <-> k_traced w t)) /\
    (forall s x, k_mem w' s x = k_mem w s x).
Proof.
  revert p w. induction order as [|tid order IH]; intros p w Hnd Hh.
  - exists p, w. split; [done|]. split; [intros tid; by rewrite decide_False by apply not_elem_of_nil|].
    split; [by intros t ?%elem_of_nil|done].
  - apply NoDup_cons in Hnd as [Hx Hnd]. destruct (detach_held tid w) as (r & w1 & Ed & Hr & Hn & Ho & Hm); [apply Hh; by left|].
    set (p1 := set_tasks (delete tid (task_states_ p)) p).
    assert (Hstep : detach_loop signal_tid 0 (tid :: order) None (p, w) = detach_loop signal_tid 0 order None (p1, w1)).
    { cbn [detach_loop]. replace (if tid =? signal_tid then 0 else 0) with 0 by (by destruct (_ =? _)).
      unfold mbind at 1, M_bind at 1, mcatch, on_world, zoom. unfold mbind at 1, M_bind at 1. cbn [fst snd]. rewrite Ed.
      destruct Hr as [->|(e & -> & He)]; [done|]. cbn. by rewrite He. }
    destruct (IH p1 w1 Hnd) as (q & w' & E & Hq & H1 & H2 & H3).
    { intros t Ht. apply Ho; [by intros ->|]. apply Hh. by right. }
    exists q, w'. split; [by rewrite Hstep|]. split; [|split; [|split; [|by intros; rewrite H3, Hm]]].
    + intros t. rewrite Hq. simpl. destruct (decide (t = tid)) as [->|Hne].
      * rewrite lookup_delete_eq, (decide_False (P := tid ∈ order)), (decide_True (P := tid ∈ tid :: order)) by (done || by left). done.
      * rewrite lookup_delete_ne by done. repeat case_decide; rewrite ?elem_of_cons in *; naive_solver.
    + intros t [->|Ht]%elem_of_cons; [|by apply H1]. by rewrite H2.
    + intros t [Hne Ht]%not_elem_of_cons. rewrite H2 by done. by apply Ho.
Qed.

(** [detach] without a signal, on a stopped attached process whose threads are all held,
    returns normally, releases every thread of it and leaves no task, no pid and the state
    [Detached]. *)
Theorem detach_releases_all p w :
  wf_process p -> origin_ p = Attached -> task_states_ p <> ∅ ->
  (forall tid s, task_states_ p !! tid = Some s -> s = Stopped /\ held w tid) ->
  exists q w', detach 0 (p, w) = (Ok tt, (q, w')) /\
    state_ q = Detached /\ pid_ q = -1 /\ current_tid_ q = -1 /\ task_states_ q = ∅ /\
    (forall t, is_Some (task_states_ p !! t) -> ~ k_traced w' t) /\
    (forall t, task_states_ p !! t = None -> (k_traced w' t <-> k_traced w t)) /\
    (forall s x, k_mem w' s x = k_mem w s x).
Proof.
  intros Hp Ho Hne Hs. destruct (detach_order_members p) as [Hnd Hin].
  destruct (detach_loop_releases (current_tid_ p) (detach_order p) p w Hnd) as (q & w' & E & Hq & H1 & H2 & H3).
  { intros t [s Ht]%Hin. by apply (Hs t s). }
  destruct (detach_after_loop 0 p w q w' Hp Ho Hne) as [Ed Hempty]; [intros t s Ht; by apply (Hs t s)|done..|].
  eexists _, w'. split; [exact Ed|]. do 4 (split; [done|]). split; [|split; [|done]].
  - intros t Ht. by apply H1, Hin.
  - intros t Ht. apply H2. rewrite Hin, Ht. by intros [? ?].
Qed.
End Release.

(** ** Witnesses *)

Definition demo_process : process :=
  mkProcess 100 101 Stopped Attached {[100 := Stopped; 101 := Stopped]} None None.

Lemma demo_process_wf : wf_process demo_process.
Proof.
  split; simpl.
  - intros tid s. rewrite lookup_insert. case_decide; [naive_solver|].
    intros Hl%lookup_singleton_Some. naive_solver.
  - done.
  - intros _ []. by exists 100.
  - right. vm_compute. by eexists.
Qed.

Lemma reachable_wf_witness :
  wf_process (snd (run_op (K := SimKernel) 1 OpWait
    (new_process 100 Launched, sim_init ∅ [mkEvent 100 (stop_status SIGTRAP 0) None]))).1.
Proof.
  apply (reachable_wf (K := SimKernel) 100 Launched).
  apply (reachable_op (K := SimKernel)), (reachable_new (K := SimKernel)).
Defined.

Lemma detach_order_spec_witness :
  exists others : list Z, detach_order demo_process = others ++ [101] /\ (101 ∉ others) /\
    NoDup (detach_order demo_process) /\
    (forall tid, tid ∈ detach_order demo_process <-> is_Some (task_states_ demo_process !! tid)).
Proof.
  apply (detach_order_spec demo_process); [exact demo_process_wf| |discriminate].
  intros H. apply (f_equal (lookup 100)) in H. vm_compute in H. discriminate H.
Defined.

Lemma detach_releases_all_witness :
  exists q w', detach (K := SimKernel) 0 (demo_process, sim_init ∅ []) = (Ok tt, (q, w')) /\
    state_ q = Detached /\ pid_ q = -1 /\ current_tid_ q = -1 /\ task_states_ q = ∅ /\
    (forall t, is_Some (task_states_ demo_process !! t) -> ~ k_traced (DetachLaws := SimDetach) w' t) /\
    (forall t, task_states_ demo_process !! t = None ->
       (k_traced (DetachLaws := SimDetach) w' t <-> k_traced (DetachLaws := SimDetach) (sim_init ∅ []) t)) /\
    (forall s x, k_mem (KernelLaws := SimKernelLaws) w' s x = k_mem (KernelLaws := SimKernelLaws) (sim_init ∅ []) s x).
Proof.
  apply (detach_releases_all (D := SimDetach) demo_process (sim_init ∅ [])).
  - exact demo_process_wf.
  - reflexivity.
  - intros H. apply (f_equal (lookup 100)) in H. vm_compute in H. discriminate H.
  - intros tid s. simpl. rewrite lookup_insert. case_decide.
    + intros [= <-]. split; [done|]. split; [done|]. by apply not_elem_of_empty.
    + intros [_ <-]%lookup_singleton_Some. split; [done|]. split; [done|]. by apply not_elem_of_empty.
Defined.
