(* ===== verification/DebuggerState.v ===== *)
(** * The debugger's state ([src/debugger/debugger.hpp], [src/breakpoints/breakpoint.hpp])

    The data of the [Debugger] class.  The eleven members that a process domain
    keeps when it is not the active one ([RetainedProcessDomain]) are the same
    members the class keeps for the active process, so the record [debugger] holds
    them as one [domain], [active], beside the members that are not swapped.  The
    methods run on [dst]: the object, the kernel and the stop-sequence counter. *)

From S2P Require Import Prelude Machine Process.
From S2P Require Ptrace.

(* src/debugger/debugger.hpp:22-38 StopReason *)
Inductive StopReason :=
  | InitialExec | AttachedStop | ExecStop | ThreadCreated | ThreadExited | ThreadSignaled
  | ProcessExited | ProcessSignaled | BreakpointStop | WatchpointStop | SingleStep
  | SignalStop | TrapStop | ExitedStop | SignaledStop.
(* src/debugger/debugger.hpp:39-39 SignalPolicy *)
Inductive SignalPolicy := Suppress | Forward.
(* src/debugger/debugger.hpp:40-40 ProcessEventKind *)
Inductive ProcessEventKind := NoEvent | ForkEvent | VforkEvent.
(* src/debugger/debugger.hpp:41-41 ForkFollowPolicy *)
Inductive ForkFollowPolicy := FollowParent | FollowChild | FollowBoth.

#[export] Instance StopReason_eq_dec : EqDecision StopReason.
Proof. solve_decision. Defined.
#[export] Instance SignalPolicy_eq_dec : EqDecision SignalPolicy.
Proof. solve_decision. Defined.
#[export] Instance ForkFollowPolicy_eq_dec : EqDecision ForkFollowPolicy.
Proof. solve_decision. Defined.

(* src/debugger/debugger.hpp:48-62 StopInfo *)
Record StopInfo := mkStopInfo {
  si_reason : StopReason;
  si_value : Z;
  si_breakpoint_address : option Z;
  si_watchpoint_id : option Z;
  si_watchpoint_address : option Z;
  si_tid : Z;
  si_new_tid : option Z;
  si_former_tid : option Z;
  si_process_event : ProcessEventKind;
  si_parent_pid : option Z;
  si_child_pid : option Z;
  si_retains_child : bool;
  si_sequence : Z
}.

Definition set_si_breakpoint v s := mkStopInfo (si_reason s) (si_value s) (Some v) (si_watchpoint_id s) (si_watchpoint_address s) (si_tid s) (si_new_tid s) (si_former_tid s) (si_process_event s) (si_parent_pid s) (si_child_pid s) (si_retains_child s) (si_sequence s).
Definition set_si_watchpoint id a s := mkStopInfo (si_reason s) (si_value s) (si_breakpoint_address s) (Some id) (Some a) (si_tid s) (si_new_tid s) (si_former_tid s) (si_process_event s) (si_parent_pid s) (si_child_pid s) (si_retains_child s) (si_sequence s).
Definition set_si_new_tid v s := mkStopInfo (si_reason s) (si_value s) (si_breakpoint_address s) (si_watchpoint_id s) (si_watchpoint_address s) (si_tid s) (Some v) (si_former_tid s) (si_process_event s) (si_parent_pid s) (si_child_pid s) (si_retains_child s) (si_sequence s).
Definition set_si_former_tid v s := mkStopInfo (si_reason s) (si_value s) (si_breakpoint_address s) (si_watchpoint_id s) (si_watchpoint_address s) (si_tid s) (si_new_tid s) v (si_process_event s) (si_parent_pid s) (si_child_pid s) (si_retains_child s) (si_sequence s).
Definition set_si_process_event k parent child retains s := mkStopInfo (si_reason s) (si_value s) (si_breakpoint_address s) (si_watchpoint_id s) (si_watchpoint_address s) (si_tid s) (si_new_tid s) (si_former_tid s) k (Some parent) (Some child) retains (si_sequence s).
Definition set_si_sequence v s := mkStopInfo (si_reason s) (si_value s) (si_breakpoint_address s) (si_watchpoint_id s) (si_watchpoint_address s) (si_tid s) (si_new_tid s) (si_former_tid s) (si_process_event s) (si_parent_pid s) (si_child_pid s) (si_retains_child s) v.

(* src/debugger/debugger.hpp:64-68 Watchpoint *)
Record Watchpoint := mkWatchpoint { wp_id : Z; wp_address : Z; wp_length : Z }.
(* src/debugger/debugger.hpp:70-74 ThreadInfo *)
Record ThreadInfo := mkThreadInfo { ti_tid : Z; ti_state : ProcessState; ti_active : bool }.
(* src/debugger/debugger.hpp:76-80 ProcessInfo *)
Record ProcessInfo := mkProcessInfo { pi_pid : Z; pi_state : ProcessState; pi_active : bool }.

(* src/breakpoints/breakpoint.hpp:8-13 Breakpoint *)
Record Breakpoint := mkBreakpoint {
  bp_id : Z;
  bp_address : Z;
  bp_original_byte : byte;
  bp_installed : bool
}.
Definition set_installed v b := mkBreakpoint (bp_id b) (bp_address b) (bp_original_byte b) v.
Definition set_original_byte v b := mkBreakpoint (bp_id b) (bp_address b) v (bp_installed b).

(* src/debugger/debugger.hpp:129-132 PendingBreakpointStep *)
Record PendingBreakpointStep := mkPending { pbs_address : Z; pbs_tid : Z }.
(* src/debugger/debugger.hpp:134-139 DebugRegisterSnapshot *)
Record DebugRegisterSnapshot := mkSnapshot { drs_tid : Z; drs_dr0 : Z; drs_dr6 : Z; drs_dr7 : Z }.

(* src/debugger/debugger.hpp:141-154 RetainedProcessDomain *)
Record domain := mkDomain {
  d_process : process;
  d_stop_info : StopInfo;
  d_executable_path : string;
  d_pending_thread_starts : gset Z;
  d_pending_signals : gmap Z Z;
  d_breakpoints_by_address : gmap Z Breakpoint;
  d_breakpoint_ids : gmap Z Z;
  d_breakpoint_register_snapshots : gmap (Z * Z) user_regs_struct;
  d_pending_breakpoint_step : option PendingBreakpointStep;
  d_watchpoint : option Watchpoint;
  d_watchpoint_register_snapshot : option DebugRegisterSnapshot
}.

(* src/debugger/debugger.hpp:176-191 Debugger *)
Record debugger := mkDebugger {
  active : domain;
  fork_follow_policy_ : ForkFollowPolicy;
  next_breakpoint_id_ : Z;
  next_watchpoint_id_ : Z;
  retained_processes_ : gmap Z domain
}.

(** The members of the active process. *)
Definition process_ d := d_process (active d).
Definition stop_info_ d := d_stop_info (active d).
Definition executable_path_ d := d_executable_path (active d).
Definition pending_thread_starts_ d := d_pending_thread_starts (active d).
Definition pending_signals_ d := d_pending_signals (active d).
Definition breakpoints_by_address_ d := d_breakpoints_by_address (active d).
Definition breakpoint_ids_ d := d_breakpoint_ids (active d).
Definition breakpoint_register_snapshots_ d := d_breakpoint_register_snapshots (active d).
Definition pending_breakpoint_step_ d := d_pending_breakpoint_step (active d).
Definition watchpoint_ d := d_watchpoint (active d).
Definition watchpoint_register_snapshot_ d := d_watchpoint_register_snapshot (active d).

Definition dset_process v a := mkDomain v (d_stop_info a) (d_executable_path a) (d_pending_thread_starts a) (d_pending_signals a) (d_breakpoints_by_address a) (d_breakpoint_ids a) (d_breakpoint_register_snapshots a) (d_pending_breakpoint_step a) (d_watchpoint a) (d_watchpoint_register_snapshot a).
Definition dset_stop_info v a := mkDomain (d_process a) v (d_executable_path a) (d_pending_thread_starts a) (d_pending_signals a) (d_breakpoints_by_address a) (d_breakpoint_ids a) (d_breakpoint_register_snapshots a) (d_pending_breakpoint_step a) (d_watchpoint a) (d_watchpoint_register_snapshot a).
Definition dset_executable_path v a := mkDomain (d_process a) (d_stop_info a) v (d_pending_thread_starts a) (d_pending_signals a) (d_breakpoints_by_address a) (d_breakpoint_ids a) (d_breakpoint_register_snapshots a) (d_pending_breakpoint_step a) (d_watchpoint a) (d_watchpoint_register_snapshot a).
Definition dset_pending_thread_starts v a := mkDomain (d_process a) (d_stop_info a) (d_executable_path a) v (d_pending_signals a) (d_breakpoints_by_address a) (d_breakpoint_ids a) (d_breakpoint_register_snapshots a) (d_pending_breakpoint_step a) (d_watchpoint a) (d_watchpoint_register_snapshot a).
Definition dset_pending_signals v a := mkDomain (d_process a) (d_stop_info a) (d_executable_path a) (d_pending_thread_starts a) v (d_breakpoints_by_address a) (d_breakpoint_ids a) (d_breakpoint_register_snapshots a) (d_pending_breakpoint_step a) (d_watchpoint a) (d_watchpoint_register_snapshot a).
Definition dset_breakpoints v i a := mkDomain (d_process a) (d_stop_info a) (d_executable_path a) (d_pending_thread_starts a) (d_pending_signals a) v i (d_breakpoint_register_snapshots a) (d_pending_breakpoint_step a) (d_watchpoint a) (d_watchpoint_register_snapshot a).
Definition dset_register_snapshots v a := mkDomain (d_process a) (d_stop_info a) (d_executable_path a) (d_pending_thread_starts a) (d_pending_signals a) (d_breakpoints_by_address a) (d_breakpoint_ids a) v (d_pending_breakpoint_step a) (d_watchpoint a) (d_watchpoint_register_snapshot a).
Definition dset_pending_step v a := mkDomain (d_process a) (d_stop_info a) (d_executable_path a) (d_pending_thread_starts a) (d_pending_signals a) (d_breakpoints_by_address a) (d_breakpoint_ids a) (d_breakpoint_register_snapshots a) v (d_watchpoint a) (d_watchpoint_register_snapshot a).
Definition dset_watchpoint v s a := mkDomain (d_process a) (d_stop_info a) (d_executable_path a) (d_pending_thread_starts a) (d_pending_signals a) (d_breakpoints_by_address a) (d_breakpoint_ids a) (d_breakpoint_register_snapshots a) (d_pending_breakpoint_step a) v s.

Definition set_active v d := mkDebugger v (fork_follow_policy_ d) (next_breakpoint_id_ d) (next_watchpoint_id_ d) (retained_processes_ d).
Definition set_fork_policy v d := mkDebugger (active d) v (next_breakpoint_id_ d) (next_watchpoint_id_ d) (retained_processes_ d).
Definition set_next_breakpoint_id v d := mkDebugger (active d) (fork_follow_policy_ d) v (next_watchpoint_id_ d) (retained_processes_ d).
Definition set_next_watchpoint_id v d := mkDebugger (active d) (fork_follow_policy_ d) (next_breakpoint_id_ d) v (retained_processes_ d).
Definition set_retained v d := mkDebugger (active d) (fork_follow_policy_ d) (next_breakpoint_id_ d) (next_watchpoint_id_ d) v.

(** A domain without breakpoints, watchpoint or pending work. *)
Definition fresh_domain (p : process) (stop : StopInfo) (path : string)
    (wp : option Watchpoint) (snapshot : option DebugRegisterSnapshot) : domain :=
  mkDomain p stop path ∅ ∅ ∅ ∅ ∅ None wp snapshot.

(** The constructor, with the default member initialisers. *)
(* src/debugger/debugger.cpp:111-114 Debugger::Debugger *)
Definition new_debugger (p : process) (initial_stop : StopInfo) (path : string) : debugger :=
  mkDebugger (fresh_domain p initial_stop path None None) FollowParent 1 1 ∅.

(** The counter of stop sequences starts at zero; [fetch_add] returns the old value. *)
(* src/debugger/debugger.hpp:43-46 next_stop_sequence *)
Definition next_stop_sequence : M Z Z := fun sequence =>
  (Ok (u64 (sequence + 1)), u64 (sequence + 1)).

(* src/debugger/debugger.cpp:38-42 make_stop *)
Definition make_stop (reason : StopReason) (value tid : Z) : M Z StopInfo :=
  n ← next_stop_sequence;
  mret (mkStopInfo reason value None None None tid None None NoEvent None None false n).

(** ** The methods' state *)

Section State.
Context `{K : Kernel}.

Record dst := mkSt { st_debugger : debugger; st_world : world; st_sequence : Z }.

Definition get_debugger : M dst debugger := gets st_debugger.
Definition upd_debugger (f : debugger -> debugger) : M dst unit :=
  modify (fun s => mkSt (f (st_debugger s)) (st_world s) (st_sequence s)).
(** Updates a member of the active process. *)
Definition upd (f : domain -> domain) : M dst unit :=
  upd_debugger (fun d => set_active (f (active d)) d).

(** Runs a kernel request. *)
Definition kernel {A} (m : M world A) : M dst A :=
  zoom st_world (fun w s => mkSt (st_debugger s) w (st_sequence s)) m.

(** Runs a method of [process_]. *)
Definition on_process {A} (m : M pst A) : M dst A :=
  zoom (fun s => (process_ (st_debugger s), st_world s))
       (fun '(p, w) s => mkSt (set_active (dset_process p (active (st_debugger s))) (st_debugger s))
                              w (st_sequence s)) m.

(** Draws from the stop-sequence counter. *)
Definition counter {A} (m : M Z A) : M dst A :=
  zoom st_sequence (fun n s => mkSt (st_debugger s) (st_world s) n) m.

(* src/debugger/debugger.cpp:44-46 process_executable *)
Definition process_executable (pid : Z) : M world string := fun w =>
  match k_exe pid w with
  | Some path => (Ok path, w)
  | None => (Throw (Exn FilesystemError "cannot read symbolic link"), w)
  end.

(* src/debugger/debugger.cpp:48-53 tracing_options *)
Definition tracing_options (origin : ProcessOrigin) : Z :=
  let options := Z.lor (Z.lor (Z.lor (Z.lor PTRACE_O_TRACECLONE PTRACE_O_TRACEEXEC)
                   PTRACE_O_TRACEFORK) PTRACE_O_TRACEVFORK) PTRACE_O_TRACEVFORKDONE in
  if bool_decide (origin = Launched) then Z.lor options PTRACE_O_EXITKILL else options.

(* src/debugger/debugger.cpp:55-59 transient_vfork_child_options *)
Definition transient_vfork_child_options (origin : ProcessOrigin) : Z :=
  let options := PTRACE_O_TRACEEXEC in
  if bool_decide (origin = Launched) then Z.lor options PTRACE_O_EXITKILL else options.

(* src/debugger/debugger.cpp:87-90 terminal_process_state *)
Definition terminal_process_state (state : ProcessState) : bool :=
  bool_decide (state = Exited) || bool_decide (state = Signaled) || bool_decide (state = Detached).

(** The destructor of a [Process] object. *)
Definition destroy_process (fuel : nat) (p : process) : M world unit := fun w =>
  let '(r, (_, w')) := Process.cleanup fuel (p, w) in (r, w').
End State.
