(* ===== verification/Debugger.v ===== *)
(** * The debugger's operations ([src/debugger/], [src/registers/registers.cpp])

    Breakpoints, the hardware watchpoint, registers and memory, process and thread
    selection, resuming and detaching.  The classification of wait events is in the
    file [DebuggerWait]. *)

From S2P Require Import Prelude Machine Process DebuggerState.
From S2P Require Ptrace.

Definition kInt3 : byte := Byte.xcc.
Definition kDr6Breakpoint0 : Z := 1.
Definition kDr7Slot0EnableMask : Z := 0x3.
Definition kDr7Slot0ControlMask : Z := Z.shiftl 0xf 16.
Definition kMaxProcessDomains : nat := 3.
Definition kMaxMemoryWriteBytes : nat := 4096.

(** [dr7 & ~(kDr7Slot0EnableMask | kDr7Slot0ControlMask)] *)
Definition disable_slot0 (dr7 : Z) : Z :=
  Z.land dr7 (u64 (Z.lnot (Z.lor kDr7Slot0EnableMask kDr7Slot0ControlMask))).
(** [dr6 & ~kDr6Breakpoint0] *)
Definition clear_hit0 (dr6 : Z) : Z := Z.land dr6 (u64 (Z.lnot kDr6Breakpoint0)).

(* src/debugger/debugger.cpp:23-36 watchpoint_length_encoding *)
Definition watchpoint_length_encoding (length : Z) : res Z :=
  if length =? 1 then Ok 0
  else if length =? 2 then Ok 1
  else if length =? 4 then Ok 3
  else if length =? 8 then Ok 2
  else invalid_argument "write watchpoint length must be 1, 2, 4, or 8 bytes".

(* src/debugger/debugger.cpp:352-355 Debugger::add_write_watchpoint *)
Definition configured_dr7 (disabled_dr7 length_encoding : Z) : Z :=
  Z.lor (Z.lor (Z.lor disabled_dr7 1) (Z.shiftl 1 16)) (Z.shiftl length_encoding 18).

(* src/debugger/memory_mutation.cpp:14-18 range_contains *)
Definition range_contains (address length target : Z) : bool :=
  negb (length =? 0) && (address <=? target) && (u64 (target - address) <? length).

(* src/registers/registers.cpp:11-22 register_value *)
Definition register_value (r : user_regs_struct) (name : string) : option Z :=
  if String.eqb name "rax" then Some (rax r) else if String.eqb name "rbx" then Some (rbx r)
  else if String.eqb name "rcx" then Some (rcx r) else if String.eqb name "rdx" then Some (rdx r)
  else if String.eqb name "rsi" then Some (rsi r) else if String.eqb name "rdi" then Some (rdi r)
  else if String.eqb name "rbp" then Some (rbp r) else if String.eqb name "rsp" then Some (rsp r)
  else if String.eqb name "r8" then Some (r8 r) else if String.eqb name "r9" then Some (r9 r)
  else if String.eqb name "r10" then Some (r10 r) else if String.eqb name "r11" then Some (r11 r)
  else if String.eqb name "r12" then Some (r12 r) else if String.eqb name "r13" then Some (r13 r)
  else if String.eqb name "r14" then Some (r14 r) else if String.eqb name "r15" then Some (r15 r)
  else if String.eqb name "rip" then Some (rip r) else if String.eqb name "eflags" then Some (eflags r)
  else None.

(** The sixteen registers [assign_general_purpose_register] writes, in the order of
    its tests. *)
Record gprs := mkGprs {
  g_rax : Z; g_rbx : Z; g_rcx : Z; g_rdx : Z; g_rsi : Z; g_rdi : Z; g_rbp : Z; g_rsp : Z;
  g_r8 : Z; g_r9 : Z; g_r10 : Z; g_r11 : Z; g_r12 : Z; g_r13 : Z; g_r14 : Z; g_r15 : Z
}.
Definition gprs_of (r : user_regs_struct) : gprs :=
  mkGprs (rax r) (rbx r) (rcx r) (rdx r) (rsi r) (rdi r) (rbp r) (rsp r)
    (r8 r) (r9 r) (r10 r) (r11 r) (r12 r) (r13 r) (r14 r) (r15 r).
Definition with_gprs (g : gprs) (r : user_regs_struct) : user_regs_struct :=
  Regs (g_r15 g) (g_r14 g) (g_r13 g) (g_r12 g) (g_rbp g) (g_rbx g) (g_r11 g) (g_r10 g) (g_r9 g) (g_r8 g)
    (g_rax g) (g_rcx g) (g_rdx g) (g_rsi g) (g_rdi g) (orig_rax r) (rip r) (cs r) (eflags r)
    (g_rsp g) (ss r) (fs_base r) (gs_base r) (ds r) (es r) (fs r) (gs r).

(** [None]: the function returns false. *)
(* src/registers/registers.cpp:24-37 assign_general_purpose_register *)
Definition assign_general_purpose_register (r : user_regs_struct) (name : string) (v : Z)
    : option user_regs_struct :=
  let '(mkGprs a b c d si di bp sp y8 y9 y10 y11 y12 y13 y14 y15) := gprs_of r in
  let put g := Some (with_gprs g r) in
  if String.eqb name "rax" then put (mkGprs v b c d si di bp sp y8 y9 y10 y11 y12 y13 y14 y15)
  else if String.eqb name "rbx" then put (mkGprs a v c d si di bp sp y8 y9 y10 y11 y12 y13 y14 y15)
  else if String.eqb name "rcx" then put (mkGprs a b v d si di bp sp y8 y9 y10 y11 y12 y13 y14 y15)
  else if String.eqb name "rdx" then put (mkGprs a b c v si di bp sp y8 y9 y10 y11 y12 y13 y14 y15)
  else if String.eqb name "rsi" then put (mkGprs a b c d v di bp sp y8 y9 y10 y11 y12 y13 y14 y15)
  else if String.eqb name "rdi" then put (mkGprs a b c d si v bp sp y8 y9 y10 y11 y12 y13 y14 y15)
  else if String.eqb name "rbp" then put (mkGprs a b c d si di v sp y8 y9 y10 y11 y12 y13 y14 y15)
  else if String.eqb name "rsp" then put (mkGprs a b c d si di bp v y8 y9 y10 y11 y12 y13 y14 y15)
  else if String.eqb name "r8" then put (mkGprs a b c d si di bp sp v y9 y10 y11 y12 y13 y14 y15)
  else if String.eqb name "r9" then put (mkGprs a b c d si di bp sp y8 v y10 y11 y12 y13 y14 y15)
  else if String.eqb name "r10" then put (mkGprs a b c d si di bp sp y8 y9 v y11 y12 y13 y14 y15)
  else if String.eqb name "r11" then put (mkGprs a b c d si di bp sp y8 y9 y10 v y12 y13 y14 y15)
  else if String.eqb name "r12" then put (mkGprs a b c d si di bp sp y8 y9 y10 y11 v y13 y14 y15)
  else if String.eqb name "r13" then put (mkGprs a b c d si di bp sp y8 y9 y10 y11 y12 v y14 y15)
  else if String.eqb name "r14" then put (mkGprs a b c d si di bp sp y8 y9 y10 y11 y12 y13 v y15)
  else if String.eqb name "r15" then put (mkGprs a b c d si di bp sp y8 y9 y10 y11 y12 y13 y14 v)
  else None.

(* src/registers/registers.cpp:39-48 general_purpose_registers *)
Definition general_purpose_registers (r : user_regs_struct) : list (string * Z) :=
  [("rax", rax r); ("rbx", rbx r); ("rcx", rcx r); ("rdx", rdx r);
   ("rsi", rsi r); ("rdi", rdi r); ("rbp", rbp r); ("rsp", rsp r);
   ("r8", r8 r); ("r9", r9 r); ("r10", r10 r); ("r11", r11 r);
   ("r12", r12 r); ("r13", r13 r); ("r14", r14 r); ("r15", r15 r);
   ("rip", rip r); ("eflags", eflags r)].

Section Debugger.
Context `{K : Kernel}.
(** Bound on the retries of [waitpid] and the events one call waits for. *)
Variable fuel : nat.

(* src/debugger/debugger.cpp:141-150 Debugger::stopped_tid *)
Definition stopped_tid : M dst Z :=
  d ← get_debugger;
  _ ← mthrow_if (bool_decide (state_ (process_ d) <> Stopped)) LogicError
        "operation requires a stopped tracee";
  let tid := current_tid_ (process_ d) in
  _ ← mthrow_if ((tid <=? 0) || bool_decide (task_state (process_ d) tid <> Some Stopped))
        LogicError "no active stopped tracee thread";
  mret tid.

(* src/debugger/debugger.cpp:152-178 Debugger::set_fork_follow_policy *)
Definition set_fork_follow_policy (policy : ForkFollowPolicy) : M dst unit :=
  d ← get_debugger;
  if negb (bool_decide (retained_processes_ d = ∅)) then
    _ ← mthrow_if (bool_decide (policy <> FollowBoth)) LogicError
          "cannot change fork follow policy while process domains are retained";
    upd_debugger (set_fork_policy policy)
  else
    _ ← mwhen (bool_decide (policy = FollowBoth))
          (_ ← mthrow_if (bool_decide (origin_ (process_ d) <> Launched)) LogicError
                 "simultaneous fork ownership is currently supported for launched tracees only";
           _ ← mthrow_if (bool_decide (tids (process_ d) <> [current_tid_ (process_ d)]) ||
                          negb (current_tid_ (process_ d) =? pid_ (process_ d))) LogicError
                 "simultaneous fork ownership currently requires a single-thread parent";
           mthrow_if (negb (bool_decide (breakpoints_by_address_ d = ∅)) ||
                      bool_decide (is_Some (pending_breakpoint_step_ d))) LogicError
             "simultaneous fork ownership requires software breakpoints to be armed after fork");
    upd_debugger (set_fork_policy policy).

(* src/debugger/debugger.cpp:180-189 Debugger::processes *)
Definition processes (d : debugger) : list ProcessInfo :=
  (if 0 <? pid_ (process_ d)
   then [mkProcessInfo (pid_ (process_ d)) (state_ (process_ d)) true] else []) ++
  omap (fun '(pid, dom) =>
    if 0 <? pid then Some (mkProcessInfo pid (state_ (d_process dom)) false) else None)
    (map_in_order (retained_processes_ d)).

(* src/debugger/debugger.cpp:191-196 Debugger::first_stopped_retained_process *)
Definition first_stopped_retained_process (d : debugger) : option Z :=
  x ← list_find (fun x => state_ (d_process x.2) = Stopped) (map_in_order (retained_processes_ d));
  Some x.2.1.

(** The member-by-member exchange of the active process and a retained one. *)
(* src/debugger/debugger.cpp:204-215 Debugger::swap_active_process *)
Definition swap_members (a b : domain) : domain * domain :=
  let '(process, other_process) := swap_process (d_process a) (d_process b) in
  (mkDomain process (d_stop_info b) (d_executable_path b) (d_pending_thread_starts b)
     (d_pending_signals b) (d_breakpoints_by_address b) (d_breakpoint_ids b)
     (d_breakpoint_register_snapshots b) (d_pending_breakpoint_step b) (d_watchpoint b)
     (d_watchpoint_register_snapshot b),
   mkDomain other_process (d_stop_info a) (d_executable_path a) (d_pending_thread_starts a)
     (d_pending_signals a) (d_breakpoints_by_address a) (d_breakpoint_ids a)
     (d_breakpoint_register_snapshots a) (d_pending_breakpoint_step a) (d_watchpoint a)
     (d_watchpoint_register_snapshot a)).

(** A node that cannot be inserted again is destroyed with its process. *)
(* src/debugger/debugger.cpp:198-221 Debugger::swap_active_process *)
Definition swap_active_process (pid : Z) : M dst unit :=
  d ← get_debugger;
  match retained_processes_ d !! pid with
  | None => mthrow LogicError "no retained process is available for selection"
  | Some node =>
    let old_active_pid := pid_ (process_ d) in
    let '(now_active, now_retained) := swap_members (active d) node in
    let others := delete pid (retained_processes_ d) in
    _ ← upd_debugger (fun d => set_active now_active (set_retained others d));
    match others !! old_active_pid with
    | None => upd_debugger (set_retained (<[old_active_pid := now_retained]> others))
    | Some _ =>
      _ ← kernel (destroy_process fuel (d_process now_retained));
      mthrow LogicError "active process identity collided with retained registry"
    end
  end.

(* src/debugger/debugger.cpp:223-240 Debugger::select_process *)
Definition select_process (pid : Z) : M dst unit :=
  d ← get_debugger;
  if pid =? pid_ (process_ d) then mskip
  else
    match retained_processes_ d !! pid with
    | None => mthrow InvalidArgument "cannot select an untracked process"
    | Some selected =>
      _ ← mthrow_if (bool_decide (state_ (process_ d) <> Stopped)) LogicError
            "process selection requires the active process to be stopped";
      _ ← mthrow_if (bool_decide (state_ (d_process selected) <> Stopped)) LogicError
            "cannot select a process that is not stopped";
      _ ← mthrow_if (bool_decide (is_Some (pending_breakpoint_step_ d))) LogicError
            "cannot switch processes while a breakpoint displaced step is pending";
      _ ← swap_active_process pid;
      sequence ← counter next_stop_sequence;
      upd (fun a => dset_stop_info (set_si_sequence sequence (d_stop_info a)) a)
    end.

(* src/debugger/debugger.cpp:242-250 Debugger::threads *)
Definition threads (d : debugger) : list ThreadInfo :=
  omap (fun tid => state ← task_state (process_ d) tid;
                   Some (mkThreadInfo tid state (tid =? current_tid_ (process_ d))))
    (tids (process_ d)).

(* src/debugger/debugger.cpp:252-258 Debugger::select_thread *)
Definition select_thread (tid : Z) : M dst unit :=
  d ← get_debugger;
  _ ← mthrow_if (match pending_breakpoint_step_ d with
                 | Some pending => negb (pbs_tid pending =? tid)
                 | None => false
                 end) LogicError
        "cannot switch threads while a breakpoint displaced step is pending";
  on_process (select_tid tid).

(* src/debugger/debugger.cpp:260-262 Debugger::registers *)
Definition registers : M dst user_regs_struct :=
  tid ← stopped_tid;
  kernel (Ptrace.get_registers tid).

(* src/debugger/debugger.cpp:264-269 Debugger::breakpoint_register_snapshot *)
Definition breakpoint_register_snapshot (tid address : Z) (d : debugger) : option user_regs_struct :=
  breakpoint_register_snapshots_ d !! (tid, address).

(* src/registers/registers.cpp:50-58 Debugger::set_register *)
Definition set_register (name : string) (value : Z) : M dst unit :=
  tid ← stopped_tid;
  regs ← kernel (Ptrace.get_registers tid);
  match assign_general_purpose_register regs name value with
  | None => mthrow InvalidArgument ("unknown or read-only general-purpose register: " +:+ name)
  | Some regs => kernel (Ptrace.set_registers tid regs)
  end.

(* src/debugger/debugger.cpp:271-274 Debugger::read_memory *)
Definition read_memory (address length : Z) : M dst (list byte) :=
  tid ← stopped_tid;
  kernel (Ptrace.read_memory tid address length).

(** The breakpoints under the bytes of a write, with the byte each must remember. *)
(* src/debugger/memory_mutation.cpp:45-54 Debugger::write_memory *)
Fixpoint saved_byte_updates (bps : gmap Z Breakpoint) (address offset : Z) (bytes : list byte)
    : res (list (Z * byte)) :=
  match bytes with
  | [] => Ok []
  | value :: bytes =>
    let current := u64 (address + offset) in
    match bps !! current with
    | None => saved_byte_updates bps address (offset + 1) bytes
    | Some breakpoint =>
      _ ← throw_if (negb (bp_installed breakpoint))
            (Exn LogicError "cannot write memory overlapping a temporarily restored breakpoint byte");
      rest ← saved_byte_updates bps address (offset + 1) bytes;
      Ok ((current, value) :: rest)
    end
  end.

(* src/debugger/memory_mutation.cpp:56-63 Debugger::write_memory *)
Fixpoint write_memory_bytes (tid address offset : Z) (bytes : list byte) : M dst unit :=
  match bytes with
  | [] => mskip
  | value :: bytes =>
    let current := u64 (address + offset) in
    d ← get_debugger;
    _ ← (match breakpoints_by_address_ d !! current with
         | Some breakpoint =>
           if bp_installed breakpoint then mskip else kernel (Ptrace.write_byte tid current value)
         | None => kernel (Ptrace.write_byte tid current value)
         end);
    write_memory_bytes tid address (offset + 1) bytes
  end.

(** Replaces the byte a breakpoint remembers. *)
Definition update_saved_byte (u : Z * byte) : M dst unit :=
  upd (fun a => dset_breakpoints (alter (set_original_byte u.2) u.1 (d_breakpoints_by_address a))
                  (d_breakpoint_ids a) a).

(* src/debugger/memory_mutation.cpp:22-68 Debugger::write_memory *)
Definition write_memory (address : Z) (bytes : list byte) : M dst unit :=
  tid ← stopped_tid;
  let size := Z.of_nat (length bytes) in
  _ ← mthrow_if (bool_decide (bytes = [])) InvalidArgument
        "memory write must contain at least one byte";
  _ ← mthrow_if (Z.of_nat kMaxMemoryWriteBytes <? size) InvalidArgument
        "memory write exceeds the 4096-byte bound";
  _ ← mthrow_if (u64_max - (size - 1) <? address) InvalidArgument
        "memory write range overflows the address space";
  d ← get_debugger;
  _ ← mthrow_if (match pending_breakpoint_step_ d with
                 | Some pending => range_contains address size (pbs_address pending)
                 | None => false
                 end) LogicError
        "cannot write memory overlapping a pending breakpoint displaced step";
  updates ← lift (saved_byte_updates (breakpoints_by_address_ d) address 0 bytes);
  _ ← write_memory_bytes tid address 0 bytes;
  mfor updates update_saved_byte.

(** [emplace] keeps an entry that is already there. *)
Definition emplace {A} (k : Z) (v : A) (m : gmap Z A) : gmap Z A :=
  match m !! k with Some _ => m | None => <[k := v]> m end.

(* src/debugger/debugger.cpp:276-292 Debugger::add_breakpoint *)
Definition add_breakpoint (address : Z) : M dst Z :=
  d ← get_debugger;
  _ ← mthrow_if (bool_decide (fork_follow_policy_ d = FollowBoth) &&
                 bool_decide (retained_processes_ d = ∅)) LogicError
        "process-scoped managed breakpoints can only be armed after fork retention";
  tid ← stopped_tid;
  _ ← mthrow_if (bool_decide (is_Some (breakpoints_by_address_ d !! address))) InvalidArgument
        "a breakpoint already exists at that address";
  original ← kernel (Ptrace.read_byte tid address);
  _ ← kernel (Ptrace.write_byte tid address kInt3);
  let id := next_breakpoint_id_ d in
  _ ← upd_debugger (set_next_breakpoint_id (u64 (id + 1)));
  _ ← upd (fun a => dset_breakpoints
             (emplace address (mkBreakpoint id address original true) (d_breakpoints_by_address a))
             (emplace id address (d_breakpoint_ids a)) a);
  mret id.

(** Forgets a breakpoint, and the displaced step that belongs to it. *)
Definition forget_breakpoint (id address : Z) : M dst unit :=
  d ← get_debugger;
  _ ← mwhen (match pending_breakpoint_step_ d with
             | Some pending => pbs_address pending =? address
             | None => false
             end) (upd (dset_pending_step None));
  upd (fun a => dset_breakpoints (delete address (d_breakpoints_by_address a))
                  (delete id (d_breakpoint_ids a)) a).

(* src/debugger/debugger.cpp:294-311 Debugger::remove_breakpoint *)
Definition remove_breakpoint (id : Z) : M dst bool :=
  d ← get_debugger;
  match breakpoint_ids_ d !! id with
  | None => mret false
  | Some address =>
    _ ← (match breakpoints_by_address_ d !! address with
         | Some bp =>
           mwhen (bp_installed bp && bool_decide (state_ (process_ d) = Stopped))
             (tid ← stopped_tid;
              kernel (Ptrace.write_byte tid address (bp_original_byte bp)))
         | None => mskip
         end);
    _ ← forget_breakpoint id address;
    mret true
  end.

(* src/debugger/debugger.cpp:313-323 Debugger::discard_breakpoint *)
Definition discard_breakpoint (id : Z) : M dst bool :=
  d ← get_debugger;
  match breakpoint_ids_ d !! id with
  | None => mret false
  | Some address => _ ← forget_breakpoint id address; mret true
  end.

(* src/debugger/debugger.cpp:325-333 Debugger::breakpoints *)
Definition breakpoints (d : debugger) : list Breakpoint :=
  (map_in_order (breakpoints_by_address_ d)).*2.

(** The four register writes that put a snapshot back, the slot disabled first. *)
Definition restore_debug_registers (tid disabled_dr7 dr0 dr6 dr7 : Z) : M dst unit :=
  _ ← kernel (Ptrace.set_debug_register tid 7 disabled_dr7);
  _ ← kernel (Ptrace.set_debug_register tid 0 dr0);
  _ ← kernel (Ptrace.set_debug_register tid 6 dr6);
  kernel (Ptrace.set_debug_register tid 7 dr7).

(* src/debugger/debugger.cpp:335-376 Debugger::add_write_watchpoint *)
Definition add_write_watchpoint (address length : Z) : M dst Z :=
  tid ← stopped_tid;
  d ← get_debugger;
  _ ← mthrow_if (bool_decide (is_Some (watchpoint_ d))) InvalidArgument
        "only one hardware watchpoint is currently supported";
  length_encoding ← lift (watchpoint_length_encoding length);
  _ ← mthrow_if (negb (address mod length =? 0)) InvalidArgument
        "write watchpoint address must be naturally aligned";
  dr0 ← kernel (Ptrace.get_debug_register tid 0);
  dr6 ← kernel (Ptrace.get_debug_register tid 6);
  dr7 ← kernel (Ptrace.get_debug_register tid 7);
  _ ← mthrow_if (negb (Z.land dr7 kDr7Slot0EnableMask =? 0)) RuntimeError
        "hardware debug-register slot 0 is already in use";
  let disabled_dr7 := disable_slot0 dr7 in
  _ ← mon_throw
        (restore_debug_registers tid disabled_dr7 address (clear_hit0 dr6)
           (configured_dr7 disabled_dr7 length_encoding))
        (mtry (restore_debug_registers tid disabled_dr7 dr0 dr6 dr7));
  let id := next_watchpoint_id_ d in
  _ ← upd_debugger (set_next_watchpoint_id (u64 (id + 1)));
  _ ← upd (dset_watchpoint (Some (mkWatchpoint id address length))
             (Some (mkSnapshot tid dr0 dr6 dr7)));
  mret id.

(* src/debugger/debugger.cpp:477-490 Debugger::restore_watchpoint_registers *)
Definition restore_watchpoint_registers : M dst unit :=
  d ← get_debugger;
  match watchpoint_register_snapshot_ d with
  | None => mskip
  | Some snapshot =>
    let tid := drs_tid snapshot in
    _ ← mthrow_if (bool_decide (task_state (process_ d) tid <> Some Stopped)) LogicError
          "watchpoint owner thread must be stopped before restore";
    current_dr7 ← kernel (Ptrace.get_debug_register tid 7);
    restore_debug_registers tid (disable_slot0 current_dr7)
      (drs_dr0 snapshot) (drs_dr6 snapshot) (drs_dr7 snapshot)
  end.

(* src/debugger/debugger.cpp:378-387 Debugger::remove_watchpoint *)
Definition remove_watchpoint (id : Z) : M dst bool :=
  d ← get_debugger;
  if match watchpoint_ d with Some w => negb (wp_id w =? id) | None => true end then mret false
  else
    _ ← mthrow_if (bool_decide (state_ (process_ d) <> Stopped)) LogicError
          "watchpoints can only be modified while the tracee is stopped";
    _ ← restore_watchpoint_registers;
    _ ← upd (dset_watchpoint None None);
    mret true.

(* src/debugger/debugger.cpp:389-392 Debugger::watchpoints *)
Definition watchpoints (d : debugger) : list Watchpoint :=
  match watchpoint_ d with None => [] | Some w => [w] end.

(* src/debugger/debugger.cpp:394-399 Debugger::resume_signal *)
Definition resume_signal (policy : SignalPolicy) (tid : Z) (d : debugger) : Z :=
  if bool_decide (policy <> Forward) then 0 else default 0 (pending_signals_ d !! tid).

Definition mark_installed (address : Z) (v : bool) : M dst unit :=
  upd (fun a => dset_breakpoints (alter (set_installed v) address (d_breakpoints_by_address a))
                  (d_breakpoint_ids a) a).

(* src/debugger/debugger.cpp:467-475 Debugger::restore_all_breakpoints *)
Definition restore_all_breakpoints : M dst unit :=
  tid ← stopped_tid;
  d ← get_debugger;
  _ ← mfor (map_in_order (breakpoints_by_address_ d)) (fun '(address, breakpoint) =>
        mwhen (bp_installed breakpoint)
          (_ ← kernel (Ptrace.write_byte tid address (bp_original_byte breakpoint));
           mark_installed address false));
  upd (dset_pending_step None).

(* src/debugger/debugger.cpp:492-501 Debugger::discard_image_state *)
Definition discard_image_state : M dst unit :=
  upd (fun a => fresh_domain (d_process a) (d_stop_info a) (d_executable_path a) None None).

(* src/debugger/debugger.cpp:503-512 Debugger::discard_breakpoint_register_snapshots *)
Definition discard_breakpoint_register_snapshots (tid : Z) : M dst unit :=
  upd (fun a => dset_register_snapshots
         (filter (fun '((owner, _), _) => owner <> tid) (d_breakpoint_register_snapshots a)) a).

(* src/debugger/debugger.cpp:441-465 Debugger::detach *)
Definition detach (policy : SignalPolicy) : M dst unit :=
  d ← get_debugger;
  _ ← mthrow_if (negb (bool_decide (retained_processes_ d = ∅))) LogicError
        "detach is not yet supported for a multi-process session";
  _ ← mthrow_if (bool_decide (origin_ (process_ d) <> Attached)) LogicError
        "detach is only valid for an attached process";
  _ ← mthrow_if (bool_decide (state_ (process_ d) <> Stopped)) LogicError
        "detach requires a stopped tracee";
  tid ← stopped_tid;
  let signal := resume_signal policy tid d in
  _ ← restore_all_breakpoints;
  _ ← restore_watchpoint_registers;
  _ ← on_process (Process.detach signal);
  _ ← upd (dset_breakpoints ∅ ∅);
  _ ← upd (dset_register_snapshots ∅);
  _ ← upd (dset_pending_step None);
  _ ← upd (dset_pending_thread_starts ∅);
  _ ← upd (dset_pending_signals ∅);
  upd (dset_watchpoint None None).

(** [(void)::kill(pid, SIGKILL)] *)
Definition kill_process (pid : Z) : M dst unit := fun s =>
  (Ok tt, mkSt (st_debugger s) (snd (k_kill pid SIGKILL (st_world s))) (st_sequence s)).

(** The body of the destructor. *)
(* src/debugger/debugger.cpp:116-139 Debugger::~Debugger *)
Definition destructor : M dst unit :=
  d ← get_debugger;
  if negb (bool_decide (retained_processes_ d = ∅)) then
    _ ← mwhen (negb (terminal_process_state (state_ (process_ d))) && (0 <? pid_ (process_ d)))
          (kill_process (pid_ (process_ d)));
    mfor (map_in_order (retained_processes_ d)) (fun '(pid, dom) =>
      mwhen (negb (terminal_process_state (state_ (d_process dom))) && (0 <? pid))
        (kill_process pid))
  else if bool_decide (origin_ (process_ d) <> Attached) ||
          bool_decide (state_ (process_ d) <> Stopped) then mskip
  else
    mtry (_ ← restore_all_breakpoints;
          _ ← restore_watchpoint_registers;
          on_process (Process.detach 0)).

(** [lowlevel::detach(child, SIGKILL)], or [kill] when that fails. *)
Definition kill_child (child : Z) : M dst unit :=
  mcatch (kernel (Ptrace.detach child SIGKILL)) (fun _ => kill_process child).

(** Construction runs on the kernel and the stop-sequence counter; an exception
    destroys the process object. *)
Definition on_kernel {A} (m : M world A) : M (world * Z) A := zoom fst (fun w s => (w, s.2)) m.
Definition on_counter {A} (m : M Z A) : M (world * Z) A := zoom snd (fun n s => (s.1, n)) m.

(* src/debugger/debugger.cpp:93-100 Debugger::launch *)
Definition launch (executable : string) (arguments : list string) : M (world * Z) debugger :=
  process ← on_kernel (Process.launch fuel executable arguments);
  mon_throw
    (_ ← on_kernel (Ptrace.set_options (current_tid_ process) (tracing_options Launched));
     initial ← on_counter (make_stop InitialExec SIGTRAP (current_tid_ process));
     executable_path ← on_kernel (process_executable (pid_ process));
     mret (new_debugger process initial executable_path))
    (on_kernel (destroy_process fuel process)).

(* src/debugger/debugger.cpp:102-109 Debugger::attach *)
Definition attach (pid : Z) : M (world * Z) debugger :=
  process ← on_kernel (Process.attach fuel pid);
  mon_throw
    (_ ← mfor (tids process) (fun tid =>
           on_kernel (Ptrace.set_options tid (tracing_options Attached)));
     initial ← on_counter (make_stop AttachedStop SIGSTOP (current_tid_ process));
     executable_path ← on_kernel (process_executable pid);
     mret (new_debugger process initial executable_path))
    (on_kernel (destroy_process fuel process)).
End Debugger.
