(* ===== verification/DebuggerWait.v ===== *)
(** * Classification of wait events ([Debugger::wait_and_classify] and its callers)

    The loop of [wait_and_classify] takes one event per turn; each kind of event has
    a handler that returns the stop it makes, or [None] where the source says
    [continue].  [fuel] bounds the turns of the loop, the retries of [waitpid] and
    the events a vfork child is followed for. *)

From S2P Require Import Prelude Machine Process DebuggerState Debugger.
From S2P Require Ptrace.

Section Wait.
Context `{K : Kernel}.
Variable fuel : nat.

(* src/debugger/debugger.cpp:61-73 wait_for_unfollowed_child_stop *)
Definition wait_for_unfollowed_child_stop (child : Z) : M world unit :=
  r ← waitpid_retry fuel child;
  match r with
  | inl _ => mthrow RuntimeError "failed to consume process child's initial ptrace stop"
  | inr (result, status) =>
    _ ← mthrow_if (negb (result =? child)) RuntimeError
          "failed to consume process child's initial ptrace stop";
    mthrow_if (negb (WIFSTOPPED status)) RuntimeError
      "process child did not enter an initial ptrace stop"
  end.

(* src/debugger/debugger.cpp:75-85 wait_for_transient_child *)
Definition wait_for_transient_child (child : Z) : M world Z :=
  r ← waitpid_retry fuel child;
  match r with
  | inl _ => mthrow RuntimeError "failed to wait for transient vfork child"
  | inr (result, status) =>
    _ ← mthrow_if (negb (result =? child)) RuntimeError
          "failed to wait for transient vfork child";
    mret status
  end.

(** [stop_info_ = make_stop(...); return stop_info_;], [refine] for the members set
    in between. *)
Definition finish_stop (reason : StopReason) (value tid : Z) (refine : StopInfo -> StopInfo)
    : M dst (option StopInfo) :=
  info ← counter (make_stop reason value tid);
  let info := refine info in
  _ ← upd (dset_stop_info info);
  mret (Some info).

(* src/debugger/debugger.cpp:559-562 Debugger::wait_active_process *)
Definition wait_active_process : M dst WaitEvent :=
  d ← get_debugger;
  if negb (bool_decide (retained_processes_ d = ∅)) then on_process (wait_current fuel)
  else on_process (wait fuel).

(* src/debugger/debugger.cpp:550-557 Debugger::reinsert_breakpoint *)
Definition reinsert_breakpoint (address tid : Z) : M dst unit :=
  d ← get_debugger;
  match breakpoints_by_address_ d !! address with
  | None => mskip
  | Some bp =>
    if bp_installed bp then mskip
    else _ ← kernel (Ptrace.write_byte tid address kInt3); mark_installed address true
  end.

(* src/debugger/debugger.cpp:995-1008 Debugger::prepare_breakpoint_hit *)
Definition prepare_breakpoint_hit (address : Z) (regs : user_regs_struct) (tid : Z) : M dst unit :=
  d ← get_debugger;
  match breakpoints_by_address_ d !! address with
  | None => mthrow LogicError "attempted to prepare an unknown breakpoint hit"
  | Some bp =>
    _ ← mthrow_if (negb (bp_installed bp)) LogicError
          "attempted to prepare an unknown breakpoint hit";
    let regs := set_rip regs address in
    _ ← upd (fun a => dset_register_snapshots
               (<[(tid, address) := regs]> (d_breakpoint_register_snapshots a)) a);
    _ ← kernel (Ptrace.set_registers tid regs);
    _ ← kernel (Ptrace.write_byte tid address (bp_original_byte bp));
    _ ← mark_installed address false;
    upd (dset_pending_step (Some (mkPending address tid)))
  end.

(* src/debugger/debugger.cpp:514-526 Debugger::classify_watchpoint_stop *)
Definition classify_watchpoint_stop (tid : Z) : M dst (option StopInfo) :=
  d ← get_debugger;
  match watchpoint_ d, watchpoint_register_snapshot_ d with
  | Some w, Some snapshot =>
    if negb (drs_tid snapshot =? tid) then mret None
    else
      dr6 ← kernel (Ptrace.get_debug_register tid 6);
      if Z.land dr6 kDr6Breakpoint0 =? 0 then mret None
      else
        _ ← kernel (Ptrace.set_debug_register tid 6 (clear_hit0 dr6));
        info ← counter (make_stop WatchpointStop SIGTRAP tid);
        mret (Some (set_si_watchpoint (wp_id w) (wp_address w) info))
  | _, _ => mret None
  end.

(** A task has ended: its bookkeeping goes; the last task of the active process ends
    the session or hands over to a stopped retained process.  The branches for an
    exit and for a fatal signal differ only in the reasons they report. *)
(* src/debugger/debugger.cpp:567-591 Debugger::wait_and_classify *)
Definition task_gone (process_reason reason thread_reason : StopReason) (event : WaitEvent)
    : M dst (option StopInfo) :=
  _ ← upd (fun a => dset_pending_thread_starts (d_pending_thread_starts a ∖ {[ev_tid event]}) a);
  _ ← upd (fun a => dset_pending_signals (delete (ev_tid event) (d_pending_signals a)) a);
  _ ← discard_breakpoint_register_snapshots (ev_tid event);
  d ← get_debugger;
  _ ← mwhen (match watchpoint_register_snapshot_ d with
             | Some snapshot => drs_tid snapshot =? ev_tid event
             | None => false
             end) (upd (dset_watchpoint None None));
  d ← get_debugger;
  if bool_decide (tids (process_ d) = []) then
    match first_stopped_retained_process d with
    | Some survivor =>
      let terminal_pid := pid_ (process_ d) in
      terminal ← counter (make_stop process_reason (ev_value event) (ev_tid event));
      _ ← upd (dset_stop_info terminal);
      _ ← swap_active_process fuel survivor;
      d ← get_debugger;
      _ ← (match retained_processes_ d !! terminal_pid with
           | Some dom => _ ← upd_debugger (set_retained (delete terminal_pid (retained_processes_ d)));
                         kernel (destroy_process fuel (d_process dom))
           | None => mskip
           end);
      _ ← upd (dset_stop_info terminal);
      mret (Some terminal)
    | None => finish_stop reason (ev_value event) (ev_tid event) id
    end
  else if bool_decide (state_ (process_ d) <> Stopped) then mret None
  else finish_stop thread_reason (ev_value event) (ev_tid event) id.

(* src/debugger/debugger.cpp:567-591 Debugger::wait_and_classify *)
Definition handle_exited : WaitEvent -> M dst (option StopInfo) :=
  task_gone ProcessExited ExitedStop ThreadExited.

(* src/debugger/debugger.cpp:592-616 Debugger::wait_and_classify *)
Definition handle_signaled : WaitEvent -> M dst (option StopInfo) :=
  task_gone ProcessSignaled SignaledStop ThreadSignaled.

(* src/debugger/debugger.cpp:618-635 Debugger::wait_and_classify *)
Definition handle_exec (event : WaitEvent) : M dst (option StopInfo) :=
  message ← kernel (Ptrace.get_event_message (ev_tid event));
  _ ← mthrow_if (negb (message =? 0) && (pid_max <? message)) RuntimeError
        "PTRACE_EVENT_EXEC returned an invalid former task id";
  let former_tid := if message =? 0 then None else Some message in
  _ ← on_process (collapse_after_exec (ev_tid event));
  _ ← discard_image_state;
  d ← get_debugger;
  _ ← kernel (Ptrace.set_options (ev_tid event) (tracing_options (origin_ (process_ d))));
  path ← kernel (process_executable (pid_ (process_ d)));
  _ ← upd (dset_executable_path path);
  finish_stop ExecStop SIGTRAP (ev_tid event) (set_si_former_tid former_tid).

(** The child process a fork or vfork event names, stopped. *)
(* src/debugger/debugger.cpp:723-730 Debugger::wait_and_classify *)
Definition fork_child (what : string) (event : WaitEvent) : M dst Z :=
  child ← kernel (Ptrace.get_event_message (ev_tid event));
  _ ← mthrow_if ((child =? 0) || (pid_max <? child)) RuntimeError what;
  _ ← kernel (wait_for_unfollowed_child_stop child);
  mret child.

(** Gives a child the debug registers the parent had before the watchpoint. *)
(* src/debugger/debugger.cpp:914-923 Debugger::wait_and_classify *)
Definition clear_child_watchpoint (child tid : Z) : M dst unit :=
  d ← get_debugger;
  match watchpoint_register_snapshot_ d with
  | Some snapshot =>
    mwhen (drs_tid snapshot =? tid)
      (current_dr7 ← kernel (Ptrace.get_debug_register child 7);
       restore_debug_registers child (disable_slot0 current_dr7)
         (drs_dr0 snapshot) (drs_dr6 snapshot) (drs_dr7 snapshot))
  | None => mskip
  end.

(** Follows a vfork child until it leaves the shared address space. *)
(* src/debugger/debugger.cpp:662-687 Debugger::wait_and_classify *)
Fixpoint follow_vfork_child (n : nat) (child : Z) : M dst unit :=
  match n with
  | O => mout_of_fuel
  | S n =>
    status ← kernel (wait_for_transient_child child);
    if WIFEXITED status || WIFSIGNALED status then mskip
    else
      _ ← mthrow_if (negb (WIFSTOPPED status)) RuntimeError
            "vfork child entered an unsupported wait state";
      let ptrace_event := ptrace_event_of status in
      if ptrace_event =? PTRACE_EVENT_EXEC then kernel (Ptrace.detach child 0)
      else
        _ ← mthrow_if (negb (ptrace_event =? 0)) RuntimeError
              "vfork child produced an unsupported ptrace event before VM release";
        let signal := WSTOPSIG status in
        _ ← mthrow_if (signal =? SIGTRAP) RuntimeError
              "vfork child trapped before releasing the shared address space";
        _ ← kernel (Ptrace.continue_process child signal);
        follow_vfork_child n child
  end.

(** While [child_owned] holds, that is until [follow_vfork_child] returns, an
    exception kills the child; afterwards it is only rethrown. *)
(* src/debugger/debugger.cpp:637-716 Debugger::wait_and_classify *)
Definition handle_vfork (event : WaitEvent) : M dst (option StopInfo) :=
  child ← fork_child "PTRACE_EVENT_VFORK returned an invalid child process id" event;
  _ ← mon_throw
        (_ ← clear_child_watchpoint child (ev_tid event);
         d ← get_debugger;
         _ ← kernel (Ptrace.set_options child (transient_vfork_child_options (origin_ (process_ d))));
         _ ← kernel (Ptrace.continue_process child 0);
         follow_vfork_child fuel child)
        (kill_child child);
  _ ← kernel (Ptrace.continue_process (ev_tid event) 0);
  _ ← on_process (upd_process (mark_running_tid (ev_tid event)));
  done ← on_process (wait fuel);
  _ ← mthrow_if (bool_decide (ev_kind done <> KStopped) || negb (ev_tid done =? ev_tid event) ||
                 negb (ev_ptrace_event done =? PTRACE_EVENT_VFORK_DONE)) RuntimeError
        "followed parent did not stop at PTRACE_EVENT_VFORK_DONE";
  done_message ← kernel (Ptrace.get_event_message (ev_tid done));
  _ ← mthrow_if (negb (done_message =? child)) RuntimeError
        "PTRACE_EVENT_VFORK_DONE did not match the released child";
  d ← get_debugger;
  finish_stop TrapStop SIGTRAP (ev_tid event)
    (set_si_process_event VforkEvent (pid_ (process_ d)) child false).

(** [try { detach(child, SIGKILL) } catch (...) { kill(...) } throw ...;] *)
Definition refuse_child_if (bad : bool) (child : Z) (c : exn_class) (msg : string) : M dst unit :=
  mwhen bad (_ ← kill_child child; mthrow c msg).

(** Copies the armed debug registers of [tid] to the child, its hit bit cleared. *)
(* src/debugger/debugger.cpp:860-871 Debugger::wait_and_classify *)
Definition arm_child_watchpoint (tid child : Z) : M dst unit :=
  armed_dr0 ← kernel (Ptrace.get_debug_register tid 0);
  armed_dr6 ← kernel (Ptrace.get_debug_register tid 6);
  armed_dr7 ← kernel (Ptrace.get_debug_register tid 7);
  child_dr7 ← kernel (Ptrace.get_debug_register child 7);
  restore_debug_registers child (disable_slot0 child_dr7) armed_dr0 (clear_hit0 armed_dr6) armed_dr7.

(** Puts the original bytes back in the address space of [tid], leaving the table. *)
(* src/debugger/debugger.cpp:909-912 Debugger::wait_and_classify *)
Definition restore_bytes_in (tid : Z) : M dst unit :=
  d ← get_debugger;
  mfor (map_in_order (breakpoints_by_address_ d)) (fun '(address, breakpoint) =>
    mwhen (bp_installed breakpoint)
      (kernel (Ptrace.write_byte tid address (bp_original_byte breakpoint)))).

(** Enters the child into the registry.  A child whose pid is already registered is
    destroyed with the domain built for it. *)
(* src/debugger/debugger.cpp:799-808 Debugger::wait_and_classify *)
Definition register_child (child : Z) (child_snapshot : option DebugRegisterSnapshot) : M dst unit :=
  child_stop ← counter (make_stop TrapStop SIGSTOP child);
  d ← get_debugger;
  child_process ← lift (adopt_stopped child (origin_ (process_ d)));
  let child_watchpoint := match child_snapshot with Some _ => watchpoint_ d | None => None end in
  match retained_processes_ d !! child with
  | Some _ =>
    _ ← kernel (destroy_process fuel child_process);
    mthrow LogicError "fork child process identity already exists in registry"
  | None =>
    upd_debugger (set_retained (<[child :=
      fresh_domain child_process child_stop (executable_path_ d) child_watchpoint child_snapshot]>
      (retained_processes_ d)))
  end.

(** The debug registers a retained child inherits from an armed watchpoint. *)
(* src/debugger/debugger.cpp:775-797 Debugger::wait_and_classify *)
Definition inherit_watchpoint (event : WaitEvent) (child : Z) : M dst (option DebugRegisterSnapshot) :=
  d ← get_debugger;
  match watchpoint_ d with
  | None => mret None
  | Some _ =>
    match watchpoint_register_snapshot_ d with
    | None => mthrow LogicError "watchpoint ownership does not match the process that forked"
    | Some snapshot =>
      _ ← mthrow_if (negb (drs_tid snapshot =? ev_tid event)) LogicError
            "watchpoint ownership does not match the process that forked";
      _ ← arm_child_watchpoint (ev_tid event) child;
      mret (Some (mkSnapshot child (drs_dr0 snapshot) (drs_dr6 snapshot) (drs_dr7 snapshot)))
    end
  end.

(* src/debugger/debugger.cpp:771-808 Debugger::wait_and_classify *)
Definition retain_child (event : WaitEvent) (child : Z) : M dst unit :=
  d ← get_debugger;
  _ ← kernel (Ptrace.set_options child (tracing_options (origin_ (process_ d))));
  child_snapshot ← inherit_watchpoint event child;
  register_child child child_snapshot.

(** [parent_tids.size() != 1 || parent_tids.front() != event.tid || event.tid != parent] *)
Definition not_single_thread (d : debugger) (tid : Z) : bool :=
  bool_decide (tids (process_ d) <> [tid]) || negb (tid =? pid_ (process_ d)).

(* src/debugger/debugger.cpp:732-826 Debugger::wait_and_classify *)
Definition handle_fork_both (event : WaitEvent) (parent child : Z) : M dst (option StopInfo) :=
  d ← get_debugger;
  _ ← refuse_child_if (bool_decide (origin_ (process_ d) <> Launched)) child RuntimeError
        "simultaneous fork ownership is currently supported for launched tracees only";
  _ ← refuse_child_if (not_single_thread d (ev_tid event)) child RuntimeError
        "simultaneous fork ownership currently requires a single-thread active process";
  _ ← refuse_child_if (kMaxProcessDomains <=? 1 + size (retained_processes_ d))%nat child RuntimeError
        "simultaneous fork ownership currently supports at most three process domains";
  _ ← refuse_child_if (negb (bool_decide (breakpoints_by_address_ d = ∅)) ||
                       bool_decide (is_Some (pending_breakpoint_step_ d))) child LogicError
        "simultaneous fork ownership requires software breakpoints to be armed after fork";
  _ ← mon_throw (retain_child event child) (kill_child child);
  finish_stop TrapStop SIGTRAP (ev_tid event) (set_si_process_event ForkEvent parent child true).

(** After [adopt_stopped_process] nothing throws, so [child_adopted] is false exactly
    in the part guarded here. *)
(* src/debugger/debugger.cpp:828-905 Debugger::wait_and_classify *)
Definition handle_fork_child (event : WaitEvent) (parent child : Z) : M dst (option StopInfo) :=
  d ← get_debugger;
  _ ← refuse_child_if (bool_decide (origin_ (process_ d) <> Launched)) child RuntimeError
        "follow-child fork handoff is currently supported for launched tracees only";
  _ ← refuse_child_if (not_single_thread d (ev_tid event)) child RuntimeError
        "follow-child fork handoff currently requires a single-thread parent";
  let transfer_watchpoint :=
    match watchpoint_register_snapshot_ d with
    | Some snapshot => drs_tid snapshot =? ev_tid event
    | None => false
    end in
  _ ← mon_throw
        (_ ← kernel (Ptrace.set_options child (tracing_options (origin_ (process_ d))));
         _ ← restore_bytes_in (ev_tid event);
         _ ← mwhen transfer_watchpoint (arm_child_watchpoint (ev_tid event) child);
         _ ← restore_watchpoint_registers;
         _ ← kernel (Ptrace.detach (ev_tid event) 0);
         on_process (adopt_stopped_process child))
        (kill_child child);
  _ ← (if transfer_watchpoint then
         upd (fun a => dset_watchpoint (d_watchpoint a)
                (match d_watchpoint_register_snapshot a with
                 | Some s => Some (mkSnapshot child (drs_dr0 s) (drs_dr6 s) (drs_dr7 s))
                 | None => None
                 end) a)
       else upd (dset_watchpoint None None));
  _ ← upd (dset_pending_thread_starts ∅);
  _ ← upd (dset_pending_signals ∅);
  _ ← upd (dset_register_snapshots ∅);
  finish_stop TrapStop SIGTRAP child (set_si_process_event ForkEvent parent child false).

(* src/debugger/debugger.cpp:907-942 Debugger::wait_and_classify *)
Definition handle_fork_parent (event : WaitEvent) (parent child : Z) : M dst (option StopInfo) :=
  _ ← mon_throw
        (_ ← restore_bytes_in child;
         _ ← clear_child_watchpoint child (ev_tid event);
         kernel (Ptrace.detach child 0))
        (mtry (kernel (Ptrace.detach child SIGKILL)));
  finish_stop TrapStop SIGTRAP (ev_tid event) (set_si_process_event ForkEvent parent child false).

(* src/debugger/debugger.cpp:722-942 Debugger::wait_and_classify *)
Definition handle_fork (event : WaitEvent) : M dst (option StopInfo) :=
  child ← fork_child "PTRACE_EVENT_FORK returned an invalid child process id" event;
  d ← get_debugger;
  let parent := pid_ (process_ d) in
  match fork_follow_policy_ d with
  | FollowBoth => handle_fork_both event parent child
  | FollowChild => handle_fork_child event parent child
  | FollowParent => handle_fork_parent event parent child
  end.

(* src/debugger/debugger.cpp:944-954 Debugger::wait_and_classify *)
Definition handle_clone (event : WaitEvent) : M dst (option StopInfo) :=
  match ev_new_tid event with
  | None => mthrow RuntimeError "clone event did not provide a new thread id"
  | Some new_tid =>
    d ← get_debugger;
    _ ← mthrow_if (bool_decide (is_Some (watchpoint_ d))) RuntimeError
          "thread creation while a hardware watchpoint is active is unsupported";
    _ ← upd (fun a => dset_pending_thread_starts ({[new_tid]} ∪ d_pending_thread_starts a) a);
    mret None
  end.

(** A [SIGTRAP] that is neither a watchpoint hit nor the end of a requested step. *)
(* src/debugger/debugger.cpp:977-991 Debugger::wait_and_classify *)
Definition handle_trap (event : WaitEvent) : M dst (option StopInfo) :=
  regs ← kernel (Ptrace.get_registers (ev_tid event));
  d ← get_debugger;
  let candidate := rip regs - 1 in
  if (0 <? rip regs) && match breakpoints_by_address_ d !! candidate with
                        | Some bp => bp_installed bp
                        | None => false
                        end
  then
    _ ← prepare_breakpoint_hit candidate regs (ev_tid event);
    finish_stop BreakpointStop SIGTRAP (ev_tid event) (set_si_breakpoint candidate)
  else finish_stop TrapStop SIGTRAP (ev_tid event) id.

(** A stop that is no ptrace event. *)
(* src/debugger/debugger.cpp:956-991 Debugger::wait_and_classify *)
Definition handle_stop (expected_single_step : bool) (event : WaitEvent) : M dst (option StopInfo) :=
  d ← get_debugger;
  if bool_decide (ev_tid event ∈ pending_thread_starts_ d) then
    _ ← upd (fun a => dset_pending_thread_starts (d_pending_thread_starts a ∖ {[ev_tid event]}) a);
    finish_stop ThreadCreated (ev_value event) (ev_tid event) (set_si_new_tid (ev_tid event))
  else
    let signal := ev_value event in
    if negb (signal =? SIGTRAP) then
      _ ← upd (fun a => dset_pending_signals (<[ev_tid event := signal]> (d_pending_signals a)) a);
      finish_stop SignalStop signal (ev_tid event) id
    else
      watchpoint ← classify_watchpoint_stop (ev_tid event);
      match watchpoint with
      | Some info => _ ← upd (dset_stop_info info); mret (Some info)
      | None =>
        if expected_single_step then finish_stop SingleStep SIGTRAP (ev_tid event) id
        else handle_trap event
      end.

(** One turn of the loop, after the wait. *)
(* src/debugger/debugger.cpp:567-991 Debugger::wait_and_classify *)
Definition classify_event (expected_single_step : bool) (event : WaitEvent)
    : M dst (option StopInfo) :=
  if bool_decide (ev_kind event = KExited) then handle_exited event
  else if bool_decide (ev_kind event = KSignaled) then handle_signaled event
  else if ev_ptrace_event event =? PTRACE_EVENT_EXEC then handle_exec event
  else if ev_ptrace_event event =? PTRACE_EVENT_VFORK then handle_vfork event
  else if ev_ptrace_event event =? PTRACE_EVENT_VFORK_DONE then
    mthrow RuntimeError "unexpected standalone PTRACE_EVENT_VFORK_DONE"
  else if ev_ptrace_event event =? PTRACE_EVENT_FORK then handle_fork event
  else if ev_ptrace_event event =? PTRACE_EVENT_CLONE then handle_clone event
  else handle_stop expected_single_step event.

(* src/debugger/debugger.cpp:564-567 Debugger::wait_and_classify *)
Fixpoint wait_and_classify (n : nat) (expected_single_step : bool) : M dst StopInfo :=
  match n with
  | O => mout_of_fuel
  | S n =>
    event ← wait_active_process;
    stop ← classify_event expected_single_step event;
    match stop with
    | Some info => mret info
    | None => wait_and_classify n expected_single_step
    end
  end.

(** The displaced step that is pending. *)
(* src/debugger/debugger.cpp:530-548 Debugger::step_over_pending_breakpoint *)
Definition displaced_step (expose_single_step : bool) (pending : PendingBreakpointStep) : M dst StopInfo :=
  _ ← kernel (Ptrace.single_step (pbs_tid pending) 0);
  _ ← on_process (upd_process (mark_running_tid (pbs_tid pending)));
  info ← wait_and_classify fuel true;
  if bool_decide (si_reason info = ExecStop) then mret info
  else
    d ← get_debugger;
    reinsert_tid ←
      (if bool_decide (task_state (process_ d) (pbs_tid pending) = Some Stopped)
       then mret (pbs_tid pending)
       else if bool_decide (state_ (process_ d) = Stopped) then stopped_tid
       else mret (-1));
    _ ← mwhen (0 <? reinsert_tid) (reinsert_breakpoint (pbs_address pending) reinsert_tid);
    _ ← upd (dset_pending_step None);
    _ ← mwhen (expose_single_step && bool_decide (si_reason info = SingleStep))
          (upd (dset_stop_info info));
    mret info.

(* src/debugger/debugger.cpp:528-529 Debugger::step_over_pending_breakpoint *)
Definition step_over_pending_breakpoint (expose_single_step : bool) : M dst StopInfo :=
  d ← get_debugger;
  match pending_breakpoint_step_ d with
  | None => mundef "dereference of an empty optional"
  | Some pending => displaced_step expose_single_step pending
  end.

(** Resumes the active thread and waits. *)
Definition resume (request : Z -> Z -> M world unit) (expected : bool) (policy : SignalPolicy)
    : M dst StopInfo :=
  tid ← stopped_tid;
  d ← get_debugger;
  _ ← kernel (request tid (resume_signal policy tid d));
  _ ← upd (fun a => dset_pending_signals (delete tid (d_pending_signals a)) a);
  _ ← on_process (upd_process (mark_running_tid tid));
  wait_and_classify fuel expected.

(** The displaced step must be taken by the thread that hit the breakpoint. *)
Definition check_pending_owner (pending : PendingBreakpointStep) : M dst unit :=
  tid ← stopped_tid;
  mthrow_if (negb (pbs_tid pending =? tid)) LogicError
    "pending breakpoint step belongs to a different thread".

(* src/debugger/debugger.cpp:401-420 Debugger::continue_execution *)
Definition continue_execution (policy : SignalPolicy) : M dst StopInfo :=
  d ← get_debugger;
  _ ← mthrow_if (bool_decide (state_ (process_ d) <> Stopped)) LogicError
        "continue requires a stopped tracee";
  match pending_breakpoint_step_ d with
  | Some pending =>
    _ ← check_pending_owner pending;
    internal ← step_over_pending_breakpoint false;
    if bool_decide (si_reason internal <> SingleStep) then mret internal
    else resume Ptrace.continue_process false policy
  | None => resume Ptrace.continue_process false policy
  end.

(* src/debugger/debugger.cpp:422-439 Debugger::single_step *)
Definition single_step (policy : SignalPolicy) : M dst StopInfo :=
  d ← get_debugger;
  _ ← mthrow_if (bool_decide (state_ (process_ d) <> Stopped)) LogicError
        "single-step requires a stopped tracee";
  match pending_breakpoint_step_ d with
  | Some pending =>
    _ ← check_pending_owner pending;
    step_over_pending_breakpoint true
  | None => resume Ptrace.single_step true policy
  end.
End Wait.
