(* ===== verification/DebuggerInvariants.v ===== *)
(** * Invariants of the debugger object

    What holds of every debugger a program can reach, whatever the kernel reports
    and whichever calls throw: the two breakpoint tables are inverse to each other,
    a pending displaced step belongs to a breakpoint whose byte is restored, the
    watchpoint and its register snapshot exist together, no live retained process
    has a displaced step pending, and there are at most three process domains. *)

From S2P Require Import Prelude Machine SimKernel Process DebuggerState Debugger DebuggerWait.
From S2P Require Ptrace.

Record wf_domain (next : Z) (a : domain) : Prop := {
  wd_process : wf_process (d_process a);
  wd_ids : forall id address, d_breakpoint_ids a !! id = Some address ->
    exists b, d_breakpoints_by_address a !! address = Some b /\ bp_id b = id;
  wd_bps : forall address b, d_breakpoints_by_address a !! address = Some b ->
    bp_address b = address /\ d_breakpoint_ids a !! bp_id b = Some address /\ 1 <= bp_id b < next;
  wd_pending : forall p, d_pending_breakpoint_step a = Some p ->
    exists b, d_breakpoints_by_address a !! pbs_address p = Some b /\ bp_installed b = false;
  wd_watch : is_Some (d_watchpoint a) <-> is_Some (d_watchpoint_register_snapshot a)
}.

(** A retained domain may keep a displaced step only when its process is gone. *)
Definition settled (a : domain) : Prop :=
  d_pending_breakpoint_step a = None \/ task_states_ (d_process a) = ∅.

Record wf_debugger (bound : Z) (d : debugger) : Prop := {
  wg_next : 1 <= next_breakpoint_id_ d <= bound;
  wg_active : wf_domain (next_breakpoint_id_ d) (active d);
  wg_retained : forall pid dom, retained_processes_ d !! pid = Some dom ->
    wf_domain (next_breakpoint_id_ d) dom /\ settled dom;
  wg_size : (size (retained_processes_ d) <= 2)%nat
}.

(** ** The members one by one *)

Lemma wf_domain_mono n m a : n <= m -> wf_domain n a -> wf_domain m a.
Proof.
  intros Hnm [H1 H2 H3 H4 H5]. split; auto.
  intros ad b Hb. destruct (H3 ad b Hb) as (? & ? & ?). repeat split; auto; lia.
Qed.

Lemma wf_fresh_domain n p stop path w s :
  wf_process p -> (is_Some w <-> is_Some s) -> wf_domain n (fresh_domain p stop path w s).
Proof.
  intros Hp Hw. split; simpl; [done|..|done]; intros *; rewrite ?lookup_empty; done.
Qed.

Lemma wf_set_process n a p : wf_process p -> wf_domain n a -> wf_domain n (dset_process p a).
Proof. intros Hp [H1 H2 H3 H4 H5]. by split. Qed.

Lemma wf_set_stop_info n a v : wf_domain n a -> wf_domain n (dset_stop_info v a).
Proof. intros [H1 H2 H3 H4 H5]. by split. Qed.
Lemma wf_set_executable_path n a v : wf_domain n a -> wf_domain n (dset_executable_path v a).
Proof. intros [H1 H2 H3 H4 H5]. by split. Qed.
Lemma wf_set_starts n a v : wf_domain n a -> wf_domain n (dset_pending_thread_starts v a).
Proof. intros [H1 H2 H3 H4 H5]. by split. Qed.
Lemma wf_set_signals n a v : wf_domain n a -> wf_domain n (dset_pending_signals v a).
Proof. intros [H1 H2 H3 H4 H5]. by split. Qed.
Lemma wf_set_snapshots n a v : wf_domain n a -> wf_domain n (dset_register_snapshots v a).
Proof. intros [H1 H2 H3 H4 H5]. by split. Qed.
Lemma wf_clear_pending n a : wf_domain n a -> wf_domain n (dset_pending_step None a).
Proof. intros [H1 H2 H3 H4 H5]. by split. Qed.
Lemma wf_set_watchpoint n a w s :
  (is_Some w <-> is_Some s) -> wf_domain n a -> wf_domain n (dset_watchpoint w s a).
Proof. intros Hw [H1 H2 H3 H4 H5]. by split. Qed.
Lemma wf_set_pending n a p b :
  d_breakpoints_by_address a !! pbs_address p = Some b -> bp_installed b = false ->
  wf_domain n a -> wf_domain n (dset_pending_step (Some p) a).
Proof.
  intros Hb Hi [H1 H2 H3 H4 H5]. split; try done. simpl. intros q [= <-]. eauto.
Qed.

(** Changing a breakpoint in place, its identity kept; a breakpoint may become
    installed only when it has no displaced step. *)
Lemma wf_alter_breakpoint n a f address :
  (forall b, bp_id (f b) = bp_id b /\ bp_address (f b) = bp_address b) ->
  (forall b, bp_installed b = false -> bp_installed (f b) = false) \/
    d_pending_breakpoint_step a = None ->
  wf_domain n a ->
  wf_domain n (dset_breakpoints (alter f address (d_breakpoints_by_address a)) (d_breakpoint_ids a) a).
Proof.
  intros Hf Hi [H1 H2 H3 H4 H5]. split; simpl; try done.
  - intros id ad H. destruct (H2 id ad H) as (b & Hb & <-).
    destruct (decide (address = ad)) as [->|Hne].
    + exists (f b). rewrite lookup_alter_eq, Hb. split; [done|apply Hf].
    + exists b. by rewrite lookup_alter_ne.
  - intros ad b. destruct (decide (address = ad)) as [->|Hne].
    + rewrite lookup_alter_eq, fmap_Some. intros (b0 & Hb & ->). destruct (Hf b0) as [-> ->].
      by apply H3.
    + rewrite lookup_alter_ne by done. apply H3.
  - intros p Hp. destruct (H4 p Hp) as (b & Hb & E). destruct Hi as [Hi|Hi]; [|congruence].
    destruct (decide (address = pbs_address p)) as [->|Hne].
    + exists (f b). rewrite lookup_alter_eq, Hb. auto.
    + exists b. by rewrite lookup_alter_ne.
Qed.

(** Forgetting a breakpoint that has no displaced step. *)
Lemma wf_delete_breakpoint n a id address :
  d_breakpoint_ids a !! id = Some address ->
  (forall p, d_pending_breakpoint_step a = Some p -> pbs_address p <> address) ->
  wf_domain n a ->
  wf_domain n (dset_breakpoints (delete address (d_breakpoints_by_address a))
                 (delete id (d_breakpoint_ids a)) a).
Proof.
  intros Hid Hp [H1 H2 H3 H4 H5]. split; simpl; try done.
  - intros i ad [Hne Hi]%lookup_delete_Some. destruct (H2 i ad Hi) as (b & Hb & <-).
    exists b. split; [|done]. apply lookup_delete_Some. split; [|done]. intros ->.
    destruct (H3 ad b Hb) as (_ & E & _). destruct (H2 id ad Hid) as (b' & Hb' & E').
    congruence.
  - intros ad b [Hne Hb]%lookup_delete_Some. destruct (H3 ad b Hb) as (Ha & E & Hr).
    repeat split; [done| |lia..]. apply lookup_delete_Some. split; [|done]. intros ->. congruence.
  - intros p Hpp. destruct (H4 p Hpp) as (b & Hb & E). exists b. split; [|done].
    apply lookup_delete_Some. split; [|done]. symmetry. by apply Hp.
Qed.

(** Adding a breakpoint under the next identifier. *)
Lemma wf_emplace_breakpoint n a address original :
  1 <= n -> d_breakpoints_by_address a !! address = None -> wf_domain n a ->
  wf_domain (n + 1)
    (dset_breakpoints (emplace address (mkBreakpoint n address original true) (d_breakpoints_by_address a))
       (emplace n address (d_breakpoint_ids a)) a).
Proof.
  intros Hn Hfree [H1 H2 H3 H4 H5].
  assert (Hid : d_breakpoint_ids a !! n = None).
  { apply eq_None_not_Some. intros [ad Hid]. destruct (H2 n ad Hid) as (b & Hb & E).
    destruct (H3 ad b Hb) as (_ & _ & Hr). lia. }
  unfold emplace. rewrite Hfree, Hid. split; simpl; try done.
  - intros i ad Hi. destruct (decide (i = n)) as [->|Hne].
    + rewrite lookup_insert_eq in Hi. injection Hi as <-. exists (mkBreakpoint n address original true).
      by rewrite lookup_insert_eq.
    + rewrite lookup_insert_ne in Hi by done. destruct (H2 i ad Hi) as (b & Hb & <-). exists b.
      rewrite lookup_insert_ne; [done|congruence].
  - intros ad b Hb. destruct (decide (ad = address)) as [->|Hne].
    + rewrite lookup_insert_eq in Hb. injection Hb as <-. simpl. rewrite lookup_insert_eq.
      repeat split; lia.
    + rewrite lookup_insert_ne in Hb by done. destruct (H3 ad b Hb) as (Ha & E & Hr).
      repeat split; [done| |lia..]. rewrite lookup_insert_ne by lia. done.
  - intros p Hp. destruct (H4 p Hp) as (b & Hb & E). exists b. split; [|done].
    rewrite lookup_insert_ne; [done|congruence].
Qed.

Lemma wf_set_active bound d a :
  wf_domain (next_breakpoint_id_ d) a -> wf_debugger bound d -> wf_debugger bound (set_active a d).
Proof. intros Ha [H1 H2 H3 H4]. by split. Qed.

Lemma size_insert_le {A} (m : gmap Z A) k v : (size (<[k:=v]> m) <= S (size m))%nat.
Proof.
  destruct (m !! k) eqn:E.
  - rewrite map_size_insert_Some by eauto. lia.
  - rewrite map_size_insert_None by done. lia.
Qed.

Lemma wf_insert_retained bound d pid dom :
  wf_domain (next_breakpoint_id_ d) dom -> settled dom -> (size (retained_processes_ d) <= 1)%nat ->
  wf_debugger bound d -> wf_debugger bound (set_retained (<[pid:=dom]> (retained_processes_ d)) d).
Proof.
  intros Hd Hs Hsz [H1 H2 H3 H4]. split; simpl; [done..| |].
  - intros q dq. rewrite lookup_insert. case_decide; naive_solver.
  - pose proof (size_insert_le (retained_processes_ d) pid dom). lia.
Qed.

Lemma wf_delete_retained bound d pid :
  wf_debugger bound d -> wf_debugger bound (set_retained (delete pid (retained_processes_ d)) d).
Proof.
  intros [H1 H2 H3 H4]. split; simpl; [done..| |].
  - intros q dq [_ Hq]%lookup_delete_Some. eauto.
  - rewrite map_size_delete. destruct (retained_processes_ d !! pid); unfold id; lia.
Qed.

Lemma swap_members_eq a b : swap_members a b = (b, a).
Proof. by destruct a, b. Qed.

#[export] Hint Resolve wf_set_stop_info wf_set_executable_path wf_set_starts wf_set_signals
  wf_set_snapshots wf_clear_pending wf_domain_mono : mdbg.

Section Invariants.
Context `{K : Kernel}.
Variable fuel : nat.
Variable bound : Z.

Definition wf_dst (s : dst) : Prop := wf_debugger bound (st_debugger s).

(** [m] run on a debugger [d] ends in a debugger with [Q]. *)
Definition ends {A} (d : debugger) (m : M dst A) (Q : debugger -> Prop) : Prop :=
  forall s, st_debugger s = d -> Q (st_debugger (snd (m s))).

Lemma preserves_ends {A} (m : M dst A) :
  (forall d, wf_debugger bound d -> ends d m (wf_debugger bound)) -> preserves wf_dst m.
Proof. intros H s Hs. by apply (H (st_debugger s)). Qed.

Lemma ends_preserves {A} d (m : M dst A) :
  preserves wf_dst m -> wf_debugger bound d -> ends d m (wf_debugger bound).
Proof. intros H Hd s <-. by apply H. Qed.

(** The kernel and the counter do not touch the debugger. *)
Definition pure_of {A} (m : M dst A) : Prop := forall s, st_debugger (snd (m s)) = st_debugger s.

Lemma pure_kernel {A} (m : M world A) : pure_of (kernel m).
Proof. intros s. unfold kernel, zoom. by destruct (m (st_world s)). Qed.
Lemma pure_counter {A} (m : M Z A) : pure_of (counter m).
Proof. intros s. unfold counter, zoom. by destruct (m (st_sequence s)). Qed.
Lemma pure_kill pid : pure_of (kill_process pid).
Proof. done. Qed.
Lemma pure_lift {A} (r : res A) : pure_of (lift r).
Proof. done. Qed.
Lemma pure_ret {A} (a : A) : pure_of (mret a).
Proof. done. Qed.
Lemma pure_throw_if b c msg : pure_of (mthrow_if b c msg).
Proof. by destruct b. Qed.
Lemma pure_bind {A B} (m : M dst A) (f : A -> M dst B) :
  pure_of m -> (forall a, pure_of (f a)) -> pure_of (m ≫= f).
Proof.
  intros Hm Hf s. unfold mbind, M_bind. specialize (Hm s).
  destruct (m s) as [[a|e|w|] s1]; simpl in *; [rewrite Hf|..]; done.
Qed.
Lemma pure_catch {A} (m : M dst A) h : pure_of m -> (forall e, pure_of (h e)) -> pure_of (mcatch m h).
Proof.
  intros Hm Hh s. unfold mcatch. specialize (Hm s).
  destruct (m s) as [[a|e|w|] s1]; simpl in *; [|rewrite Hh|..]; done.
Qed.
Lemma pure_get : pure_of get_debugger.
Proof. done. Qed.

Lemma preserves_pure {A} (m : M dst A) : pure_of m -> preserves wf_dst m.
Proof. intros H s Hs. unfold wf_dst. by rewrite H. Qed.

(** Symbolic execution of the debugger component. *)
Lemma ends_bind_pure {A B} d (m : M dst A) (f : A -> M dst B) (Q : debugger -> Prop) :
  pure_of m -> Q d -> (forall a, ends d (f a) Q) -> ends d (m ≫= f) Q.
Proof.
  intros Hm Hq Hf s Hs. unfold mbind, M_bind. specialize (Hm s).
  destruct (m s) as [[a|e|w|] s1]; simpl in *; [apply Hf|..]; congruence.
Qed.
Lemma ends_bind_lift {A B} d (r : res A) (f : A -> M dst B) (Q : debugger -> Prop) :
  Q d -> (forall a, r = Ok a -> ends d (f a) Q) -> ends d (lift r ≫= f) Q.
Proof. intros Hq Hf. destruct r; [by apply Hf|by intros s <-..]. Qed.
Lemma ends_bind_ret {A B} d (a : A) (f : A -> M dst B) (Q : debugger -> Prop) :
  ends d (f a) Q -> ends d (mret a ≫= f) Q.
Proof. intros H. exact H. Qed.
Lemma ends_bind_throw {A B} d c msg (f : A -> M dst B) (Q : debugger -> Prop) :
  Q d -> ends d (mthrow c msg ≫= f) Q.
Proof. intros H s <-. done. Qed.
Lemma ends_bind_get {B} d (f : debugger -> M dst B) Q :
  ends d (f d) Q -> ends d (get_debugger ≫= f) Q.
Proof. intros H s <-. by apply H. Qed.
Lemma ends_bind_upd {B} d g (f : unit -> M dst B) Q :
  ends (set_active (g (active d)) d) (f tt) Q -> ends d (upd g ≫= f) Q.
Proof. intros H s <-. by apply H. Qed.
Lemma ends_bind_upd_debugger {B} d g (f : unit -> M dst B) Q :
  ends (g d) (f tt) Q -> ends d (upd_debugger g ≫= f) Q.
Proof. intros H s <-. by apply H. Qed.
Lemma ends_pure {A} d (m : M dst A) (Q : debugger -> Prop) : pure_of m -> Q d -> ends d m Q.
Proof. intros Hm Hq s <-. by rewrite Hm. Qed.
Lemma ends_upd d g (Q : debugger -> Prop) : Q (set_active (g (active d)) d) -> ends d (upd g) Q.
Proof. intros H s <-. done. Qed.
Lemma ends_upd_debugger d g (Q : debugger -> Prop) : Q (g d) -> ends d (upd_debugger g) Q.
Proof. intros H s <-. done. Qed.
Lemma ends_assoc {A B C} d (m : M dst A) (f : A -> M dst B) (g : B -> M dst C) Q :
  ends d (m ≫= (fun a => f a ≫= g)) Q -> ends d ((m ≫= f) ≫= g) Q.
Proof. intros H s Hs. rewrite run_assoc. by apply H. Qed.
Lemma ends_bind_if {B} d (b : bool) m1 m2 (f : unit -> M dst B) Q :
  (b = true -> ends d (m1 ≫= f) Q) -> (b = false -> ends d (m2 ≫= f) Q) ->
  ends d ((if b then m1 else m2) ≫= f) Q.
Proof. destruct b; auto. Qed.
(** What a guard lets through. *)
Lemma ends_bind_guard {B} d b c msg (f : unit -> M dst B) (Q : debugger -> Prop) :
  Q d -> (b = false -> ends d (f tt) Q) -> ends d (mthrow_if b c msg ≫= f) Q.
Proof. intros Hq Hf. destruct b; [by intros s <-|by apply Hf]. Qed.

(** After a part that preserves the invariant, the rest runs on some debugger with it. *)
Lemma ends_bind_wf {A B} d (m : M dst A) (f : A -> M dst B) :
  ends d m (wf_debugger bound) -> (forall a, preserves wf_dst (f a)) ->
  ends d (m ≫= f) (wf_debugger bound).
Proof.
  intros Hm Hf s Hs. unfold mbind, M_bind. specialize (Hm s Hs).
  destruct (m s) as [[a|e|w|] s1]; simpl in *; [by apply Hf|..]; done.
Qed.
End Invariants.

#[export] Hint Resolve pure_kernel pure_counter pure_kill pure_lift pure_ret pure_throw_if pure_get : mdbg.

Ltac ends_step :=
  lazymatch goal with
  | |- ends _ ((_ ≫= _) ≫= _) _ => apply ends_assoc
  | |- ends _ (get_debugger ≫= _) _ => apply ends_bind_get
  | |- ends _ (upd _ ≫= _) _ => apply ends_bind_upd
  | |- ends _ (upd_debugger _ ≫= _) _ => apply ends_bind_upd_debugger
  | |- ends _ (mthrow_if _ _ _ ≫= _) _ => apply ends_bind_guard; [|intro]
  | |- ends _ (kernel _ ≫= _) _ => apply ends_bind_pure; [apply pure_kernel| |intro]
  | |- ends _ (counter _ ≫= _) _ => apply ends_bind_pure; [apply pure_counter| |intro]
  | |- ends _ (lift _ ≫= _) _ => apply ends_bind_lift; [|intros ? ?]
  | |- ends _ (mret _ ≫= _) _ => apply ends_bind_ret
  | |- ends _ (mthrow _ _ ≫= _) _ => apply ends_bind_throw
  | |- ends _ (upd _) _ => apply ends_upd
  | |- ends _ (upd_debugger _) _ => apply ends_upd_debugger
  | |- ends _ (mret _) _ => apply ends_pure; [apply pure_ret|]
  | |- ends _ (kernel _) _ => apply ends_pure; [apply pure_kernel|]
  | |- ends _ (mthrow _ _) _ => apply ends_pure; [done|]
  | |- ends _ mskip _ => apply ends_pure; [done|]
  | |- ends _ (let _ := _ in _) _ => cbv zeta
  end.
Ltac ends_auto := repeat (ends_step; cbn beta).

(** ** The operations *)

Section Operations.
Context `{K : Kernel}.
Variable fuel : nat.
Variable bound : Z.

Notation wf := (wf_dst bound).

Lemma keeps_kernel {A} (m : M world A) : preserves wf (kernel m).
Proof. apply preserves_pure, pure_kernel. Qed.
Lemma keeps_counter {A} (m : M Z A) : preserves wf (counter m).
Proof. apply preserves_pure, pure_counter. Qed.
Lemma keeps_kill pid : preserves wf (kill_process pid).
Proof. by apply preserves_pure. Qed.
Lemma keeps_get : preserves wf get_debugger.
Proof. by apply preserves_pure. Qed.
Lemma keeps_upd f :
  (forall n a, wf_domain n a -> wf_domain n (f a)) -> preserves wf (upd f).
Proof. intros H s Hs. apply wf_set_active; [apply H, (wg_active bound _ Hs)|done]. Qed.
Lemma keeps_fork_policy policy : preserves wf (upd_debugger (set_fork_policy policy)).
Proof. intros s [H1 H2 H3 H4]. by split. Qed.
Lemma keeps_on_process {A} (m : M pst A) : preserves wf_pst m -> preserves wf (on_process m).
Proof.
  intros Hm s Hs. unfold on_process, zoom.
  pose proof (Hm (process_ (st_debugger s), st_world s) (wd_process _ _ (wg_active bound _ Hs))) as Hp.
  destruct (m _) as [r [p w]]. simpl in *. unfold wf_dst. simpl.
  apply wf_set_active; [|done]. apply wf_set_process; [done|apply (wg_active bound _ Hs)].
Qed.
Lemma keeps_mark tid : preserves wf (on_process (upd_process (mark_running_tid tid))).
Proof. apply keeps_on_process. intros [p w] Hp. apply (wf_mark_running tid p Hp). Qed.

Lemma pure_stopped_tid : pure_of stopped_tid.
Proof.
  apply pure_bind; [apply pure_get|intros d]. apply pure_bind; [apply pure_throw_if|intros _].
  apply pure_bind; [apply pure_throw_if|intros _]. apply pure_ret.
Qed.
Lemma keeps_stopped_tid : preserves wf stopped_tid.
Proof. apply preserves_pure, pure_stopped_tid. Qed.

Hint Resolve keeps_kernel keeps_counter keeps_kill keeps_get keeps_fork_policy keeps_stopped_tid
  keeps_mark : mdbg.

Lemma keeps_set_fork_follow_policy policy : preserves wf (set_fork_follow_policy policy).
Proof. unfold set_fork_follow_policy. preserves_auto. Qed.

(** The exchange with a retained process, once the active one has no displaced step
    or no task. *)
Lemma ends_swap pid d :
  wf_debugger bound d -> settled (active d) ->
  ends d (swap_active_process fuel pid) (wf_debugger bound).
Proof.
  intros Hd Hs. unfold swap_active_process. ends_auto.
  destruct (retained_processes_ d !! pid) as [node|] eqn:En; [|by ends_auto].
  rewrite swap_members_eq. ends_auto.
  destruct (wg_retained bound d Hd pid node En) as [Hn _].
  pose proof (wf_delete_retained bound d pid Hd) as Hdel.
  assert (Hw : wf_debugger bound
                 (set_active node (set_retained (delete pid (retained_processes_ d)) d)))
    by (by apply wf_set_active).
  destruct (delete pid _ !! _); ends_auto; [done..|].
  apply (wf_insert_retained bound _ (pid_ (process_ d)) (active d)) in Hw; [exact Hw| |done|].
  - apply (wg_active bound _ Hd).
  - simpl. pose proof (wg_size bound d Hd). rewrite map_size_delete, En. lia.
Qed.

Lemma keeps_select_process pid : preserves wf (select_process fuel pid).
Proof.
  apply preserves_ends. intros d Hd. unfold select_process. ends_auto.
  destruct (pid =? _); [by ends_auto|].
  destruct (retained_processes_ d !! pid) as [node|]; [|by ends_auto].
  ends_auto; [done..|]. apply ends_bind_wf.
  - apply ends_swap; [done|]. left. rewrite bool_decide_eq_false, <- eq_None_not_Some in H1. done.
  - intros _. apply preserves_bind; [apply keeps_counter|intros n]. apply keeps_upd. auto with mdbg.
Qed.

Lemma keeps_select_thread tid : preserves wf (select_thread tid).
Proof.
  unfold select_thread. repeat (apply keeps_on_process, select_tid_wf || preserves_auto).
Qed.

Lemma keeps_registers : preserves wf registers.
Proof. unfold registers. preserves_auto. Qed.
Lemma keeps_set_register name v : preserves wf (set_register name v).
Proof. unfold set_register. preserves_auto. Qed.
Lemma keeps_read_memory a n : preserves wf (read_memory a n).
Proof. unfold read_memory. preserves_auto. Qed.

Lemma pure_write_memory_bytes tid a off bytes : pure_of (write_memory_bytes tid a off bytes).
Proof.
  revert off. induction bytes as [|v bytes IH]; intros off; simpl; [done|].
  apply pure_bind; [apply pure_get|intros d]. apply pure_bind; [|intros _; apply IH].
  repeat case_match; done || apply pure_kernel.
Qed.

Lemma keeps_update_saved_byte u : preserves wf (update_saved_byte u).
Proof.
  apply keeps_upd. intros n a Ha.
  apply (wf_alter_breakpoint n a (set_original_byte u.2) u.1); [done| |done]. by left.
Qed.

Lemma keeps_write_memory a bytes : preserves wf (write_memory a bytes).
Proof.
  unfold write_memory.
  repeat (apply keeps_update_saved_byte || apply (preserves_pure _ _ (pure_write_memory_bytes _ _ _ _))
          || preserves_step || solve [eauto with mdbg]).
Qed.

Lemma keeps_forget id address d :
  wf_debugger bound d -> breakpoint_ids_ d !! id = Some address ->
  ends d (forget_breakpoint id address) (wf_debugger bound).
Proof.
  intros Hd Hid. unfold forget_breakpoint. ends_auto.
  pose proof (wg_active bound d Hd) as Ha. unfold mwhen. apply ends_bind_if; intros E; ends_auto.
  - apply wf_set_active; [|by apply wf_set_active; [apply wf_clear_pending|]].
    apply (wf_delete_breakpoint _ (dset_pending_step None (active d))); [done..|].
    by apply wf_clear_pending.
  - intros s <-. apply wf_set_active; [|done]. apply wf_delete_breakpoint; [done| |done].
    intros p Hp. unfold pending_breakpoint_step_ in E. rewrite Hp in E.
    by apply Z.eqb_neq.
Qed.

Lemma keeps_remove_breakpoint id : preserves wf (remove_breakpoint id).
Proof.
  apply preserves_ends. intros d Hd. unfold remove_breakpoint. ends_auto.
  destruct (breakpoint_ids_ d !! id) as [address|] eqn:Hid; [|by ends_auto].
  apply ends_bind_pure; [|done|].
  - case_match; [|done]. unfold mwhen. destruct (_ && _); [|done].
    apply pure_bind; [apply pure_stopped_tid|intros; apply pure_kernel].
  - intros _. apply ends_bind_wf; [by apply keeps_forget|auto with mdbg].
Qed.

Lemma keeps_discard_breakpoint id : preserves wf (discard_breakpoint id).
Proof.
  apply preserves_ends. intros d Hd. unfold discard_breakpoint. ends_auto.
  destruct (breakpoint_ids_ d !! id) as [address|] eqn:Hid; [|by ends_auto].
  apply ends_bind_wf; [by apply keeps_forget|auto with mdbg].
Qed.

(** One more identifier is used, as long as the counter does not wrap around. *)
Lemma add_breakpoint_wf address s :
  wf_dst (bound - 1) s -> bound <= u64_max -> wf (snd (add_breakpoint address s)).
Proof.
  intros Hs Hb. assert (Hs' : wf s).
  { destruct Hs as [H1 H2 H3 H4]. split; auto. lia. }
  assert (He : ends (st_debugger s) (add_breakpoint address) (wf_debugger bound));
    [|by apply He].
  unfold wf_dst in Hs, Hs'. revert Hs Hs'. generalize (st_debugger s). intros d Hs Hs'.
  unfold add_breakpoint. ends_auto; [done|].
  apply ends_bind_pure; [apply pure_stopped_tid|done|]. intros tid. ends_auto; [done..|].
  destruct Hs as [[H1 H1'] H2 H3 H4]. destruct Hs' as [H5 _ _ _].
  rewrite bool_decide_eq_false, <- eq_None_not_Some in H0.
  rewrite u64_small by (unfold in_u64; lia).
  split; simpl; [lia| | |done].
  - by apply wf_emplace_breakpoint.
  - intros pid dom Hp. destruct (H3 pid dom Hp). split; [|done].
    apply (wf_domain_mono (next_breakpoint_id_ d)); [lia|done].
Qed.

Lemma pure_restore_debug_registers tid a b c e : pure_of (restore_debug_registers tid a b c e).
Proof. unfold restore_debug_registers. repeat (apply pure_bind; [apply pure_kernel|intros _]). apply pure_kernel. Qed.

Lemma pure_restore_watchpoint_registers : pure_of restore_watchpoint_registers.
Proof.
  unfold restore_watchpoint_registers. apply pure_bind; [apply pure_get|intros d].
  destruct (watchpoint_register_snapshot_ d); [|done].
  apply pure_bind; [apply pure_throw_if|intros _]. apply pure_bind; [apply pure_kernel|intros v].
  apply pure_restore_debug_registers.
Qed.

Lemma keeps_restore_watchpoint_registers : preserves wf restore_watchpoint_registers.
Proof. apply preserves_pure, pure_restore_watchpoint_registers. Qed.

Lemma keeps_restore_debug_registers tid a b c e : preserves wf (restore_debug_registers tid a b c e).
Proof. apply preserves_pure, pure_restore_debug_registers. Qed.

Lemma keeps_clear_watchpoint : preserves wf (upd (dset_watchpoint None None)).
Proof. apply keeps_upd. intros n a Ha. by apply wf_set_watchpoint. Qed.

Lemma keeps_next_watchpoint_id v : preserves wf (upd_debugger (set_next_watchpoint_id v)).
Proof. intros s [H1 H2 H3 H4]. by split. Qed.

Lemma keeps_set_watchpoint w s : preserves wf (upd (dset_watchpoint (Some w) (Some s))).
Proof. apply keeps_upd. intros n a Ha. apply wf_set_watchpoint; [|done]. split; by eexists. Qed.

Hint Resolve keeps_restore_watchpoint_registers keeps_restore_debug_registers
  keeps_clear_watchpoint keeps_next_watchpoint_id keeps_set_watchpoint : mdbg.

Lemma keeps_add_write_watchpoint a n : preserves wf (add_write_watchpoint a n).
Proof. unfold add_write_watchpoint. preserves_auto. Qed.
Lemma keeps_remove_watchpoint id : preserves wf (remove_watchpoint id).
Proof. unfold remove_watchpoint. preserves_auto. Qed.

(** Restoring a byte marks its breakpoint. *)
Lemma keeps_mark_restored address : preserves wf (mark_installed address false).
Proof.
  apply keeps_upd. intros n a Ha.
  apply (wf_alter_breakpoint n a (set_installed false) address); [done| |done]. by left.
Qed.

Lemma keeps_restore_all_breakpoints : preserves wf restore_all_breakpoints.
Proof.
  unfold restore_all_breakpoints.
  repeat (apply keeps_mark_restored || (apply keeps_upd; intros; by apply wf_clear_pending)
          || preserves_step || solve [eauto with mdbg]).
Qed.

(** Each of the updates at the end of [detach] but the first keeps the invariant. *)
Lemma keeps_clear_tables (s : dst) :
  wf s -> ends (st_debugger s) (_ ← upd (dset_breakpoints ∅ ∅); _ ← upd (dset_register_snapshots ∅);
    _ ← upd (dset_pending_step None); _ ← upd (dset_pending_thread_starts ∅);
    _ ← upd (dset_pending_signals ∅); upd (dset_watchpoint None None)) (wf_debugger bound).
Proof.
  intros Hs. ends_auto. destruct Hs as [H1 H2 H3 H4]. split; simpl; [done| |done|done].
  destruct H2. split; simpl; done || (intros *; rewrite ?lookup_empty; done).
Qed.

Lemma keeps_detach policy : preserves wf (detach policy).
Proof.
  unfold detach. apply preserves_bind; [apply keeps_get|intros d].
  do 3 (apply preserves_bind; [apply preserves_mthrow_if|intros _]).
  apply preserves_bind; [apply keeps_stopped_tid|intros tid].
  apply preserves_bind; [apply keeps_restore_all_breakpoints|intros _].
  apply preserves_bind; [apply keeps_restore_watchpoint_registers|intros _].
  apply preserves_bind; [apply keeps_on_process, detach_wf|intros _].
  intros s Hs. by apply (keeps_clear_tables s Hs).
Qed.
End Operations.
