(* ===== verification/DebuggerReach.v ===== *)
(** * Reachable debuggers

    The invariant of [DebuggerInvariants] holds along every sequence of calls, the
    event loop included. *)

From S2P Require Import Prelude Machine SimKernel Process.
From S2P Require Import DebuggerState Debugger DebuggerWait DebuggerInvariants.
From S2P Require Ptrace.

Section Handlers.
Context `{K : Kernel}.
Variable fuel : nat.
Variable bound : Z.

Notation wf := (wf_dst bound).

#[local] Hint Resolve keeps_kernel keeps_counter keeps_kill keeps_get keeps_stopped_tid
  keeps_mark keeps_restore_watchpoint_registers keeps_restore_debug_registers
  keeps_clear_watchpoint : mdbg.

Lemma keeps_upd_stop info : preserves wf (upd (dset_stop_info info)).
Proof. apply keeps_upd. auto with mdbg. Qed.

Lemma keeps_finish reason v tid f : preserves wf (finish_stop reason v tid f).
Proof.
  unfold finish_stop. apply preserves_bind; [apply keeps_counter|intros info].
  apply preserves_bind; [apply keeps_upd_stop|auto with mdbg].
Qed.

Hint Resolve keeps_finish keeps_upd_stop : mdbg.

Lemma keeps_starts f :
  preserves wf (upd (fun a => dset_pending_thread_starts (f (d_pending_thread_starts a)) a)).
Proof. apply keeps_upd. auto with mdbg. Qed.
Lemma keeps_signals f :
  preserves wf (upd (fun a => dset_pending_signals (f (d_pending_signals a)) a)).
Proof. apply keeps_upd. auto with mdbg. Qed.
Lemma keeps_snapshots f :
  preserves wf (upd (fun a => dset_register_snapshots (f (d_breakpoint_register_snapshots a)) a)).
Proof. apply keeps_upd. auto with mdbg. Qed.
Lemma keeps_discard_snapshots tid : preserves wf (discard_breakpoint_register_snapshots tid).
Proof. apply keeps_snapshots. Qed.
Lemma keeps_clear_starts : preserves wf (upd (dset_pending_thread_starts ∅)).
Proof. apply keeps_upd. auto with mdbg. Qed.
Lemma keeps_clear_signals : preserves wf (upd (dset_pending_signals ∅)).
Proof. apply keeps_upd. auto with mdbg. Qed.
Lemma keeps_clear_snapshots : preserves wf (upd (dset_register_snapshots ∅)).
Proof. apply keeps_upd. auto with mdbg. Qed.

Hint Resolve keeps_discard_snapshots keeps_clear_starts keeps_clear_signals keeps_clear_snapshots : mdbg.

Lemma keeps_wait_active_process : preserves wf (wait_active_process fuel).
Proof.
  unfold wait_active_process. apply preserves_bind; [auto with mdbg|intros d].
  destruct (negb _); apply keeps_on_process; [|apply wait_for_wf].
  apply wait_current_wf.
Qed.

Lemma tids_nil p : tids p = [] -> task_states_ p = ∅.
Proof.
  unfold tids. intros H%fmap_nil_inv. apply map_to_list_empty_iff, Permutation_nil.
  by rewrite <- map_in_order_perm, H.
Qed.

(** Dropping a retained process and destroying its object. *)
Lemma keeps_erase_retained d pid :
  wf_debugger bound d ->
  ends d (match retained_processes_ d !! pid with
          | Some dom => _ ← upd_debugger (set_retained (delete pid (retained_processes_ d)));
                        kernel (destroy_process fuel (d_process dom))
          | None => mskip
          end) (wf_debugger bound).
Proof.
  intros Hd. destruct (retained_processes_ d !! pid); [|by ends_auto].
  ends_auto. by apply wf_delete_retained.
Qed.

Lemma keeps_task_gone r1 r2 r3 event : preserves wf (task_gone fuel r1 r2 r3 event).
Proof.
  unfold task_gone.
  apply preserves_bind; [apply (keeps_starts (fun x => x ∖ {[ev_tid event]}))|intros _].
  apply preserves_bind; [apply (keeps_signals (delete (ev_tid event)))|intros _].
  apply preserves_bind; [apply keeps_discard_snapshots|intros _].
  apply preserves_bind; [apply keeps_get|intros d0].
  apply preserves_bind; [apply preserves_mwhen; intros _; apply keeps_clear_watchpoint|intros _].
  apply preserves_ends. intros d Hd. ends_auto.
  case_bool_decide as Ht; [|destruct (bool_decide _); [by ends_auto|];
                            apply ends_preserves; auto with mdbg].
  destruct (first_stopped_retained_process d) as [survivor|];
    [|apply ends_preserves; auto with mdbg].
  ends_auto; [done|]. apply ends_bind_wf.
  - apply ends_swap; [|right; by apply tids_nil].
    apply wf_set_active; [|done]. apply wf_set_stop_info, Hd.
  - intros _. apply preserves_ends. intros d1 Hd1. ends_auto.
    apply ends_bind_wf; [by apply keeps_erase_retained|]. intros _.
    apply preserves_bind; [apply keeps_upd_stop|auto with mdbg].
Qed.

Lemma keeps_discard_image_state : preserves wf discard_image_state.
Proof.
  apply keeps_upd. intros n a Ha. apply wf_fresh_domain; [apply Ha|done].
Qed.

Lemma keeps_handle_exec event : preserves wf (handle_exec event).
Proof.
  assert (Hp : preserves wf (upd_debugger id) /\
    forall path, preserves wf (upd (dset_executable_path path))).
  { split; [by intros s|]. intros path. apply keeps_upd. auto with mdbg. }
  assert (Hc : preserves wf (on_process (collapse_after_exec (ev_tid event))))
    by exact (keeps_on_process bound _ (run_op_wf O (OpCollapseAfterExec (ev_tid event)))).
  unfold handle_exec. repeat (apply keeps_discard_image_state || apply Hp || exact Hc
    || preserves_step || solve [eauto with mdbg]).
Qed.

Lemma keeps_kill_child child : preserves wf (kill_child child).
Proof. unfold kill_child. preserves_auto. Qed.
Lemma keeps_clear_child_watchpoint child tid : preserves wf (clear_child_watchpoint child tid).
Proof. unfold clear_child_watchpoint. preserves_auto. Qed.
Lemma keeps_arm_child_watchpoint tid child : preserves wf (arm_child_watchpoint tid child).
Proof. unfold arm_child_watchpoint. preserves_auto. Qed.
Lemma keeps_restore_bytes_in tid : preserves wf (restore_bytes_in tid).
Proof. unfold restore_bytes_in. preserves_auto. Qed.
Lemma keeps_fork_child what event : preserves wf (fork_child fuel what event).
Proof. unfold fork_child. preserves_auto. Qed.
Lemma keeps_refuse b child c msg : preserves wf (refuse_child_if b child c msg).
Proof. unfold refuse_child_if. pose proof keeps_kill_child. preserves_auto. Qed.
Lemma keeps_follow_vfork_child n child : preserves wf (follow_vfork_child fuel n child).
Proof. induction n as [|n IH]; simpl; preserves_auto. Qed.

Hint Resolve keeps_kill_child keeps_clear_child_watchpoint keeps_arm_child_watchpoint
  keeps_restore_bytes_in keeps_fork_child keeps_refuse keeps_follow_vfork_child : mdbg.

Lemma keeps_handle_vfork event : preserves wf (handle_vfork fuel event).
Proof.
  assert (preserves wf (on_process (wait fuel))) by apply keeps_on_process, wait_for_wf.
  unfold handle_vfork. preserves_auto.
Qed.

Lemma keeps_handle_fork_parent event parent child :
  preserves wf (handle_fork_parent event parent child).
Proof. unfold handle_fork_parent. preserves_auto. Qed.

(** The watchpoint that follows the child. *)
Lemma keeps_transfer_watchpoint child :
  preserves wf (upd (fun a => dset_watchpoint (d_watchpoint a)
    (match d_watchpoint_register_snapshot a with
     | Some s => Some (mkSnapshot child (drs_dr0 s) (drs_dr6 s) (drs_dr7 s))
     | None => None
     end) a)).
Proof.
  apply keeps_upd. intros n a Ha. apply wf_set_watchpoint; [|done].
  rewrite (wd_watch n a Ha). destruct (d_watchpoint_register_snapshot a); [|done].
  split; intros _; by eexists.
Qed.

Lemma keeps_handle_fork_child event parent child :
  preserves wf (handle_fork_child event parent child).
Proof.
  assert (preserves wf (on_process (adopt_stopped_process child)))
    by exact (keeps_on_process bound _ (run_op_wf O (OpAdoptStopped child))).
  pose proof keeps_transfer_watchpoint. unfold handle_fork_child. preserves_auto.
Qed.

(** The retained child of a fork takes a free slot of the registry. *)
Lemma ends_register_child child snap d :
  wf_debugger bound d -> (size (retained_processes_ d) <= 1)%nat ->
  (is_Some snap -> is_Some (watchpoint_ d)) ->
  ends d (register_child fuel child snap) (wf_debugger bound).
Proof.
  intros Hd Hsz Hsnap. unfold register_child. ends_auto; [done..|].
  destruct (retained_processes_ d !! child); ends_auto; [done..|].
  apply (wf_insert_retained bound d); [|by left|done..]. apply wf_fresh_domain.
  - unfold adopt_stopped in *. inv_res. subst. apply wf_single_stopped_task.
  - destruct snap; [|done]. split; [by eexists|auto].
Qed.

Lemma pure_arm_child_watchpoint tid child : pure_of (arm_child_watchpoint tid child).
Proof.
  unfold arm_child_watchpoint. do 4 (apply pure_bind; [apply pure_kernel|intro]).
  apply pure_restore_debug_registers.
Qed.

Lemma ends_retain_child event child d :
  wf_debugger bound d -> (size (retained_processes_ d) <= 1)%nat ->
  ends d (retain_child fuel event child) (wf_debugger bound).
Proof.
  intros Hd Hsz. unfold retain_child, inherit_watchpoint. ends_auto; [done|].
  destruct (watchpoint_ d) eqn:Ew;
    [|ends_auto; apply ends_register_child; try done; by intros [? [=]]].
  destruct (watchpoint_register_snapshot_ d); [|by ends_auto].
  ends_auto; [done|]. apply ends_bind_pure; [apply pure_arm_child_watchpoint|done|].
  intros _. ends_auto. apply ends_register_child; [done..|]. intros _. by rewrite Ew.
Qed.

Lemma ends_bind_refuse {B} d b child c msg (f : unit -> M dst B) (Q : debugger -> Prop) :
  Q d -> (b = false -> ends d (f tt) Q) -> ends d (refuse_child_if b child c msg ≫= f) Q.
Proof.
  intros Hq Hf. unfold refuse_child_if, mwhen. apply ends_bind_if; intros E; [|by apply Hf].
  apply ends_assoc. apply ends_bind_pure; [|done|intros _; by intros s <-].
  apply pure_catch; [apply pure_kernel|intros _; apply pure_kill].
Qed.

Lemma ends_mon_throw {A} d (m : M dst A) h :
  ends d m (wf_debugger bound) -> preserves wf h -> ends d (mon_throw m h) (wf_debugger bound).
Proof.
  intros Hm Hh s Hs. unfold mon_throw, mcatch. specialize (Hm s Hs).
  destruct (m s) as [[a|e|w|] s1]; simpl in *; try done.
  exact (preserves_bind wf h _ Hh (fun _ => preserves_lift wf (Throw e)) s1 Hm).
Qed.

Lemma keeps_handle_fork_both event parent child :
  preserves wf (handle_fork_both fuel event parent child).
Proof.
  apply preserves_ends. intros d Hd. unfold handle_fork_both. ends_auto.
  do 4 (apply ends_bind_refuse; [done|intro]). apply ends_bind_wf; [|auto with mdbg].
  apply ends_mon_throw; [|apply keeps_kill_child]. apply ends_retain_child; [done|].
  rewrite Nat.leb_gt in H1. unfold kMaxProcessDomains in H1. lia.
Qed.

Lemma keeps_handle_fork event : preserves wf (handle_fork fuel event).
Proof.
  unfold handle_fork. apply preserves_bind; [apply keeps_fork_child|intros child].
  apply preserves_bind; [apply keeps_get|intros d]. destruct (fork_follow_policy_ d);
    auto using keeps_handle_fork_both, keeps_handle_fork_child, keeps_handle_fork_parent.
Qed.

Lemma keeps_handle_clone event : preserves wf (handle_clone event).
Proof.
  unfold handle_clone. destruct (ev_new_tid event); [|auto with mdbg].
  apply preserves_bind; [apply keeps_get|intros d].
  apply preserves_bind; [apply preserves_mthrow_if|intros _].
  apply preserves_bind; [apply (keeps_starts (fun x => {[_]} ∪ x))|auto with mdbg].
Qed.

Lemma keeps_prepare address regs tid : preserves wf (prepare_breakpoint_hit address regs tid).
Proof.
  apply preserves_ends. intros d Hd. unfold prepare_breakpoint_hit, mark_installed. ends_auto.
  destruct (breakpoints_by_address_ d !! address) as [b|] eqn:Eb; [|by ends_auto].
  pose proof (wg_active bound d Hd) as Ha.
  assert (Hs : forall m, wf_debugger bound (set_active (dset_register_snapshots m (active d)) d))
    by (intros; apply wf_set_active; [by apply wf_set_snapshots|done]).
  ends_auto; [done|apply Hs..|]. cbn [active set_active].
  set (m := <[(tid, address):=_]> (d_breakpoint_register_snapshots (active d))).
  set (a1 := dset_register_snapshots m (active d)).
  set (a2 := dset_breakpoints _ _ a1).
  assert (Ha2 : wf_domain (next_breakpoint_id_ d) a2).
  { apply (wf_alter_breakpoint _ a1 (set_installed false) address); [done|by left|].
    by apply wf_set_snapshots. }
  apply (wf_set_active bound (set_active a2 d)); [|by apply wf_set_active].
  apply (wf_set_pending _ a2 _ (set_installed false b)); [|done..].
  simpl. unfold breakpoints_by_address_ in Eb. by rewrite lookup_alter_eq, Eb.
Qed.

Lemma keeps_classify_watchpoint tid : preserves wf (classify_watchpoint_stop tid).
Proof. unfold classify_watchpoint_stop. preserves_auto. Qed.

Lemma keeps_handle_trap event : preserves wf (handle_trap event).
Proof. pose proof keeps_prepare. unfold handle_trap. preserves_auto. Qed.

Lemma keeps_handle_stop b event : preserves wf (handle_stop b event).
Proof.
  pose proof keeps_handle_trap. pose proof keeps_classify_watchpoint. unfold handle_stop.
  apply preserves_bind; [apply keeps_get|intros d]. destruct (bool_decide _).
  - apply preserves_bind; [apply (keeps_starts (fun x => x ∖ {[ev_tid event]}))|auto with mdbg].
  - destruct (negb _).
    + apply preserves_bind; [apply (keeps_signals (<[ev_tid event:=ev_value event]>))|auto with mdbg].
    + preserves_auto.
Qed.

Lemma keeps_classify_event b event : preserves wf (classify_event fuel b event).
Proof.
  unfold classify_event, handle_exited, handle_signaled.
  repeat case_match; auto using keeps_task_gone, keeps_handle_exec, keeps_handle_vfork,
    keeps_handle_fork, keeps_handle_clone, keeps_handle_stop, @preserves_mthrow.
Qed.

Lemma keeps_wait_and_classify n b : preserves wf (wait_and_classify fuel n b).
Proof.
  pose proof keeps_classify_event. pose proof keeps_wait_active_process.
  induction n as [|n IH]; simpl; preserves_auto.
Qed.

(** Writing the trap byte back and dropping the displaced step go together. *)
Lemma ends_reinsert address tid b d (m : M dst StopInfo) :
  wf_debugger bound d -> preserves wf m ->
  ends d (_ ← mwhen b (reinsert_breakpoint address tid);
          _ ← upd (dset_pending_step None); m) (wf_debugger bound).
Proof.
  intros Hd Hm. pose proof (wg_active bound d Hd) as Ha.
  assert (Hplain : ends d (_ ← upd (dset_pending_step None); m) (wf_debugger bound)).
  { ends_auto. apply ends_preserves; [done|]. by apply wf_set_active; [apply wf_clear_pending|]. }
  unfold mwhen. apply ends_bind_if; intros _; [|exact Hplain].
  unfold reinsert_breakpoint, mark_installed. ends_auto.
  destruct (breakpoints_by_address_ d !! address) as [bp|]; [|exact Hplain].
  destruct (bp_installed bp); [exact Hplain|]. ends_auto; [done|].
  apply ends_preserves; [done|]. cbn [active set_active].
  apply (wf_set_active bound d); [|done].
  apply (wf_alter_breakpoint _ (dset_pending_step None (active d)) (set_installed true) address);
    [done|by right|by apply wf_clear_pending].
Qed.

Lemma keeps_step_over b : preserves wf (step_over_pending_breakpoint fuel b).
Proof.
  unfold step_over_pending_breakpoint, displaced_step. apply preserves_bind; [apply keeps_get|intros d0].
  destruct (pending_breakpoint_step_ d0) as [pending|]; [|auto with mdbg].
  apply preserves_bind; [apply keeps_kernel|intros _].
  apply preserves_bind; [apply keeps_mark|intros _].
  apply preserves_bind; [apply keeps_wait_and_classify|intros info].
  destruct (bool_decide _); [auto with mdbg|].
  apply preserves_ends. intros d Hd. ends_auto. apply ends_bind_pure; [|done|].
  - repeat case_match; done || apply pure_stopped_tid.
  - intros rt. apply ends_reinsert; [done|]. preserves_auto.
Qed.

Lemma keeps_resume req b policy : preserves wf (resume fuel req b policy).
Proof.
  unfold resume. apply preserves_bind; [apply keeps_stopped_tid|intros tid].
  apply preserves_bind; [apply keeps_get|intros d].
  apply preserves_bind; [apply keeps_kernel|intros _].
  apply preserves_bind; [apply (keeps_signals (delete tid))|intros _].
  apply preserves_bind; [apply keeps_mark|intros _]. apply keeps_wait_and_classify.
Qed.

Lemma keeps_check_pending_owner p : preserves wf (check_pending_owner p).
Proof. unfold check_pending_owner. preserves_auto. Qed.

Lemma keeps_continue policy : preserves wf (continue_execution fuel policy).
Proof.
  pose proof keeps_step_over. pose proof keeps_resume. pose proof keeps_check_pending_owner.
  unfold continue_execution. preserves_auto.
Qed.

Lemma keeps_single_step policy : preserves wf (single_step fuel policy).
Proof.
  pose proof keeps_step_over. pose proof keeps_resume. pose proof keeps_check_pending_owner.
  unfold single_step. preserves_auto.
Qed.
End Handlers.

(** ** Reachable debuggers *)

(** One call of the public interface. *)
Inductive debugger_op :=
  | DoSetForkPolicy (policy : ForkFollowPolicy)
  | DoSelectProcess (pid : Z)
  | DoSelectThread (tid : Z)
  | DoContinue (policy : SignalPolicy)
  | DoSingleStep (policy : SignalPolicy)
  | DoDetach (policy : SignalPolicy)
  | DoSetRegister (name : string) (value : Z)
  | DoReadMemory (address length : Z)
  | DoWriteMemory (address : Z) (bytes : list byte)
  | DoAddBreakpoint (address : Z)
  | DoRemoveBreakpoint (id : Z)
  | DoDiscardBreakpoint (id : Z)
  | DoAddWatchpoint (address length : Z)
  | DoRemoveWatchpoint (id : Z).

Lemma wf_new_debugger p stop path : wf_process p -> wf_debugger 1 (new_debugger p stop path).
Proof. intros Hp. split; simpl; [lia| |done|rewrite map_size_empty; lia]. by apply wf_fresh_domain. Qed.

Section Reachable.
Context `{K : Kernel}.

Definition ignore {A} (m : M dst A) : M dst unit := _ ← m; mret tt.

Definition run_debugger_op (fuel : nat) (op : debugger_op) : M dst unit :=
  match op with
  | DoSetForkPolicy policy => set_fork_follow_policy policy
  | DoSelectProcess pid => select_process fuel pid
  | DoSelectThread tid => select_thread tid
  | DoContinue policy => ignore (continue_execution fuel policy)
  | DoSingleStep policy => ignore (single_step fuel policy)
  | DoDetach policy => detach policy
  | DoSetRegister name value => set_register name value
  | DoReadMemory address length => ignore (read_memory address length)
  | DoWriteMemory address bytes => write_memory address bytes
  | DoAddBreakpoint address => ignore (add_breakpoint address)
  | DoRemoveBreakpoint id => ignore (remove_breakpoint id)
  | DoDiscardBreakpoint id => ignore (discard_breakpoint id)
  | DoAddWatchpoint address length => ignore (add_write_watchpoint address length)
  | DoRemoveWatchpoint id => ignore (remove_watchpoint id)
  end.

(** The debuggers that [n] calls lead to: any calls, whatever each returns or throws,
    with the kernel free to change the world between them. *)
Inductive reaches : nat -> debugger -> Prop :=
  | reaches_new p stop path : wf_process p -> reaches 0 (new_debugger p stop path)
  | reaches_op n d fuel op w sequence :
      reaches n d -> reaches (S n) (st_debugger (snd (run_debugger_op fuel op (mkSt d w sequence)))).

Lemma keeps_ignore {A} bound (m : M dst A) :
  preserves (wf_dst bound) m -> preserves (wf_dst bound) (ignore m).
Proof. intros H. apply preserves_bind; [done|auto with mdbg]. Qed.

Lemma wf_debugger_mono b c d : b <= c -> wf_debugger b d -> wf_debugger c d.
Proof. intros Hbc [H1 H2 H3 H4]. split; auto. lia. Qed.

Lemma run_debugger_op_wf fuel op bound d w n :
  wf_debugger (bound - 1) d -> bound <= u64_max ->
  wf_debugger bound (st_debugger (snd (run_debugger_op fuel op (mkSt d w n)))).
Proof.
  intros Hd Hb. assert (Hd' : wf_dst bound (mkSt d w n)) by (apply (wf_debugger_mono (bound - 1)); [lia|done]).
  change (wf_dst bound (snd (run_debugger_op fuel op (mkSt d w n)))).
  destruct op; cbn [run_debugger_op];
    try (apply keeps_set_fork_follow_policy || apply keeps_select_process || apply keeps_select_thread
      || apply keeps_detach || apply keeps_set_register || apply keeps_write_memory; exact Hd').
  all: try (apply keeps_ignore; [|exact Hd'];
    first [apply keeps_continue | apply keeps_single_step | apply keeps_read_memory
      | apply keeps_remove_breakpoint | apply keeps_discard_breakpoint
      | apply keeps_add_write_watchpoint | apply keeps_remove_watchpoint]).
  pose proof (add_breakpoint_wf bound address (mkSt d w n) Hd Hb) as H. unfold ignore, mbind, M_bind.
  by destruct (add_breakpoint address _) as [[]].
Qed.

(** C1: every reachable debugger is well formed: its two breakpoint tables are inverse
    to each other with identifiers below the next one, a pending displaced step names
    a breakpoint whose original byte is in place, watchpoint and register snapshot
    come and go together, retained processes have no displaced step pending, and at
    most two processes are retained beside the active one.  The bound on the number of
    calls keeps the identifier counter from wrapping around. *)
Theorem reaches_wf n d :
  reaches n d -> 1 + Z.of_nat n <= u64_max -> wf_debugger (1 + Z.of_nat n) d.
Proof.
  induction 1 as [p stop path Hp|n d fuel op w sequence _ IH]; intros Hn.
  - by apply wf_new_debugger.
  - apply run_debugger_op_wf; [|done].
    replace (1 + Z.of_nat (S n) - 1) with (1 + Z.of_nat n) by lia. apply IH. lia.
Qed.
End Reachable.

(** ** Witness: one call on a fresh debugger *)

Definition demo_reach : debugger :=
  st_debugger (snd (run_debugger_op (K := SimKernel) 1 (DoAddBreakpoint 0x1001)
    (mkSt (K := SimKernel) (new_debugger (single_stopped_task 100 (new_process 100 Launched))
       (mkStopInfo InitialExec SIGTRAP None None None 100 None None NoEvent None None false 1) "/bin/tracee")
       (sim_init (sim_mapped 0x1000 (repeat Byte.x90 16)) []) 1))).

Lemma reaches_wf_witness :
  breakpoint_ids_ demo_reach = {[1 := 0x1001]} /\ wf_debugger 2 demo_reach.
Proof.
  split; [vm_compute; reflexivity|].
  apply (reaches_wf (K := SimKernel) 1).
  - apply (reaches_op (K := SimKernel)), (reaches_new (K := SimKernel)), wf_single_stopped_task.
  - unfold u64_max. lia.
Defined.
