(* ===== verification/Breakpoints.v ===== *)
(** * Software breakpoints are transparent

    The abstract specification of the debugger's memory operations: a user sees the
    tracee's memory with the original byte under every trap byte ([user_mem]).  Adding,
    removing, hitting and reinserting breakpoints leave that view as it is;
    [write_memory] is a plain store on it; [restore_all_breakpoints] makes the real
    memory equal to it. *)

From S2P Require Import Prelude Machine SimKernel Ptrace Process DebuggerState Debugger DebuggerWait DebuggerInvariants.
From S2P Require Ptrace.

Section Breakpoints.
Context `{K : Kernel} `{L : !KernelLaws K}.

(** The active thread is [tid], and it is stopped for the debugger and the kernel. *)
Record tracee (s : dst) (tid : Z) : Prop := {
  tr_state : state_ (process_ (st_debugger s)) = Stopped;
  tr_current : current_tid_ (process_ (st_debugger s)) = tid;
  tr_positive : 0 < tid;
  tr_task : task_state (process_ (st_debugger s)) tid = Some Stopped;
  tr_kernel : k_stopped (st_world s) tid
}.

(** What the address space [sp] holds for a user of the debugger. *)
Definition user_mem (s : dst) (sp x : Z) : option byte :=
  match breakpoints_by_address_ (st_debugger s) !! x with
  | Some b => if bp_installed b then Some (bp_original_byte b) else k_mem (st_world s) sp x
  | None => k_mem (st_world s) sp x
  end.

(** Every installed breakpoint has its trap byte in memory. *)
Definition armed (s : dst) (sp : Z) : Prop :=
  forall x b, breakpoints_by_address_ (st_debugger s) !! x = Some b -> bp_installed b = true ->
    in_u64 x /\ k_mem (st_world s) sp x = Some kInt3.

Lemma stopped_tid_tracee s tid : tracee s tid -> stopped_tid s = (Ok tid, s).
Proof.
  intros [H1 H2 H3 H4 H5]. unfold stopped_tid, get_debugger. mrun. cbn beta zeta.
  rewrite bool_decide_false by (rewrite H1; auto). rewrite H2.
  rewrite bool_decide_false by (rewrite H4; auto).
  destruct (Z.leb_spec tid 0); [lia|]. done.
Qed.

Lemma run_stopped_tid {B} s tid (f : Z -> M dst B) :
  tracee s tid -> (stopped_tid ≫= f) s = f tid s.
Proof. intros H. apply run_Ok. by apply stopped_tid_tracee. Qed.

Lemma kernel_run {A} (m : M world A) s r w' :
  m (st_world s) = (r, w') -> kernel m s = (r, mkSt (st_debugger s) w' (st_sequence s)).
Proof. intros H. unfold kernel, zoom. by rewrite H. Qed.

Lemma run_kernel_Ok {A B} (m : M world A) (f : A -> M dst B) s a w' :
  m (st_world s) = (Ok a, w') ->
  (kernel m ≫= f) s = f a (mkSt (st_debugger s) w' (st_sequence s)).
Proof. intros H. apply run_Ok. by apply kernel_run. Qed.

Lemma run_upd {B} g (f : unit -> M dst B) s :
  (upd g ≫= f) s =
  f tt (mkSt (set_active (g (active (st_debugger s))) (st_debugger s)) (st_world s) (st_sequence s)).
Proof. done. Qed.

Lemma run_upd_debugger {B} g (f : unit -> M dst B) s :
  (upd_debugger g ≫= f) s = f tt (mkSt (g (st_debugger s)) (st_world s) (st_sequence s)).
Proof. done. Qed.

Lemma run_get {B} (f : debugger -> M dst B) s : (get_debugger ≫= f) s = f (st_debugger s) s.
Proof. done. Qed.

Lemma tracee_same s tid d' w' n :
  tracee s tid -> process_ d' = process_ (st_debugger s) -> same_tasks (st_world s) w' ->
  tracee (mkSt d' w' n) tid.
Proof. intros [H1 H2 H3 H4 H5] Hp Hw. split; simpl; rewrite ?Hp; auto. by apply (same_stopped _ _ Hw). Qed.

Lemma mapped_stored w w' pid sp a v x :
  stored w w' sp a v -> mapped_word w pid x -> mapped_word w' pid x.
Proof.
  intros [Ht Hm] Hx i Hi. rewrite (same_space _ _ Ht), Hm. case_decide; [by eexists|by apply Hx].
Qed.

Lemma mapped_lookup w pid a : in_u64 a -> mapped_word w pid a -> is_Some (k_mem w (k_space w pid) a).
Proof.
  intros Ha H. specialize (H O ltac:(lia)). by rewrite Z.add_0_r, u64_small in H.
Qed.

(** The effect of one entry of the breakpoint table on the user's view. *)
Lemma user_mem_none s sp x :
  breakpoints_by_address_ (st_debugger s) !! x = None -> user_mem s sp x = k_mem (st_world s) sp x.
Proof. intros H. unfold user_mem. by rewrite H. Qed.

(** What a breakpoint that is set changes: one byte of memory and an entry of each table. *)
Lemma add_breakpoint_run s tid address :
  let sp := k_space (st_world s) tid in
  tracee s tid -> in_u64 address -> mapped_word (st_world s) tid address ->
  breakpoints_by_address_ (st_debugger s) !! address = None ->
  breakpoint_ids_ (st_debugger s) !! next_breakpoint_id_ (st_debugger s) = None ->
  fork_follow_policy_ (st_debugger s) <> FollowBoth ->
  exists d' w' original,
    add_breakpoint address s = (Ok (next_breakpoint_id_ (st_debugger s)), mkSt d' w' (st_sequence s)) /\
    k_mem (st_world s) sp address = Some original /\ stored (st_world s) w' sp address kInt3 /\
    process_ d' = process_ (st_debugger s) /\
    breakpoints_by_address_ d' = <[address := mkBreakpoint (next_breakpoint_id_ (st_debugger s)) address original true]>
      (breakpoints_by_address_ (st_debugger s)) /\
    breakpoint_ids_ d' = <[next_breakpoint_id_ (st_debugger s) := address]> (breakpoint_ids_ (st_debugger s)).
Proof.
  intros sp Ht Ha Hm Hfree Hid Hpol.
  destruct (read_byte_reads _ _ _ Ha (tr_kernel _ _ Ht) Hm) as (v & Hv & Hread).
  destruct (write_byte_stores _ _ _ kInt3 Ha (tr_kernel _ _ Ht) Hm) as (w' & Hw & Hst).
  unfold add_breakpoint. rewrite run_get. mrun.
  rewrite (bool_decide_false _ Hpol). simpl. rewrite (run_stopped_tid s tid) by done. mrun.
  rewrite Hfree. rewrite bool_decide_false by (intros [? [=]]).
  erewrite run_kernel_Ok by exact Hread. erewrite run_kernel_Ok by exact Hw.
  rewrite run_upd_debugger, run_upd.
  unfold emplace. simpl. unfold breakpoints_by_address_, breakpoint_ids_ in Hfree, Hid.
  rewrite Hfree, Hid. eexists _, w', v. by do 5 (split; [done|]).
Qed.

(** What the removal of an installed one changes. *)
Lemma remove_breakpoint_run s tid id address b :
  let sp := k_space (st_world s) tid in
  tracee s tid -> in_u64 address -> mapped_word (st_world s) tid address ->
  breakpoint_ids_ (st_debugger s) !! id = Some address ->
  breakpoints_by_address_ (st_debugger s) !! address = Some b -> bp_installed b = true ->
  exists d' w',
    remove_breakpoint id s = (Ok true, mkSt d' w' (st_sequence s)) /\
    stored (st_world s) w' sp address (bp_original_byte b) /\ process_ d' = process_ (st_debugger s) /\
    breakpoints_by_address_ d' = delete address (breakpoints_by_address_ (st_debugger s)) /\
    breakpoint_ids_ d' = delete id (breakpoint_ids_ (st_debugger s)).
Proof.
  intros sp Ht Ha Hm Hid Hb Hi.
  destruct (write_byte_stores _ _ _ (bp_original_byte b) Ha (tr_kernel _ _ Ht) Hm) as (w' & Hw & Hst).
  unfold remove_breakpoint. rewrite run_get, Hid, Hb, Hi. rewrite bool_decide_true by apply Ht.
  simpl. rewrite run_assoc, (run_stopped_tid s tid) by done.
  erewrite run_kernel_Ok by exact Hw. unfold forget_breakpoint. rewrite run_assoc, run_get. simpl.
  set (stale := match pending_breakpoint_step_ _ with Some _ => _ | None => _ end).
  exists (set_active (dset_breakpoints (delete address (breakpoints_by_address_ (st_debugger s)))
            (delete id (breakpoint_ids_ (st_debugger s)))
            (if stale then dset_pending_step None (active (st_debugger s)) else active (st_debugger s)))
            (st_debugger s)), w'.
  split; [by destruct stale|]. split; [done|]. split; [by destruct stale|done].
Qed.

(** C4: setting a breakpoint puts the trap byte at its address, returns the next
    identifier and files the breakpoint with the byte that was there; the memory
    a user sees does not change. *)
Theorem add_breakpoint_transparent s tid address :
  let sp := k_space (st_world s) tid in
  tracee s tid -> armed s sp -> in_u64 address -> mapped_word (st_world s) tid address ->
  breakpoints_by_address_ (st_debugger s) !! address = None ->
  breakpoint_ids_ (st_debugger s) !! next_breakpoint_id_ (st_debugger s) = None ->
  fork_follow_policy_ (st_debugger s) <> FollowBoth ->
  exists s' original,
    add_breakpoint address s = (Ok (next_breakpoint_id_ (st_debugger s)), s') /\
    tracee s' tid /\ armed s' sp /\
    breakpoints_by_address_ (st_debugger s') =
      <[address := mkBreakpoint (next_breakpoint_id_ (st_debugger s)) address original true]>
        (breakpoints_by_address_ (st_debugger s)) /\
    breakpoint_ids_ (st_debugger s') =
      <[next_breakpoint_id_ (st_debugger s) := address]> (breakpoint_ids_ (st_debugger s)) /\
    k_mem (st_world s') sp address = Some kInt3 /\
    (forall x, user_mem s' sp x = user_mem s sp x).
Proof.
  intros sp Ht Harm Ha Hm Hfree Hid Hpol.
  destruct (add_breakpoint_run s tid address Ht Ha Hm Hfree Hid Hpol) as (d' & w' & v & E & Hv & Hst & Hp & Hbps & Hids).
  pose proof Hst as [Hsame Hmem]. eexists _, v. split; [exact E|].
  split; [by apply (tracee_same s)|]. split; [|split; [done|split; [done|split]]].
  - intros x b. simpl. rewrite Hbps, Hmem. intros Hb Hi.
    destruct (decide (x = address)) as [->|Hx]; [by rewrite decide_True|].
    rewrite lookup_insert_ne in Hb by done. rewrite decide_False by tauto. by apply (Harm x b).
  - simpl. rewrite Hmem. by rewrite decide_True.
  - intros x. unfold user_mem. simpl. rewrite Hbps, Hmem.
    destruct (decide (x = address)) as [->|Hx].
    + by rewrite lookup_insert_eq, Hfree.
    + rewrite lookup_insert_ne by done. by rewrite decide_False by tauto.
Qed.

(** C5: removing an installed breakpoint puts its original byte back, and the memory
    a user sees does not change. *)
Theorem remove_breakpoint_transparent s tid id address b :
  let sp := k_space (st_world s) tid in
  tracee s tid -> armed s sp -> in_u64 address -> mapped_word (st_world s) tid address ->
  breakpoint_ids_ (st_debugger s) !! id = Some address ->
  breakpoints_by_address_ (st_debugger s) !! address = Some b -> bp_installed b = true ->
  exists s',
    remove_breakpoint id s = (Ok true, s') /\ tracee s' tid /\ armed s' sp /\
    breakpoints_by_address_ (st_debugger s') = delete address (breakpoints_by_address_ (st_debugger s)) /\
    breakpoint_ids_ (st_debugger s') = delete id (breakpoint_ids_ (st_debugger s)) /\
    k_mem (st_world s') sp address = Some (bp_original_byte b) /\
    (forall x, user_mem s' sp x = user_mem s sp x).
Proof.
  intros sp Ht Harm Ha Hm Hid Hb Hi.
  destruct (remove_breakpoint_run s tid id address b Ht Ha Hm Hid Hb Hi) as (d' & w' & E & Hst & Hp & Hbps & Hids).
  pose proof Hst as [Hsame Hmem]. eexists. split; [exact E|]. split; [by apply (tracee_same s)|].
  split; [|split; [done|split; [done|split]]].
  - intros x c. simpl. rewrite Hbps, Hmem.
    intros [Hne Hc]%lookup_delete_Some. rewrite decide_False by naive_solver. by apply (Harm x c).
  - simpl. rewrite Hmem. by rewrite decide_True.
  - intros x. unfold user_mem. simpl. rewrite Hbps, Hmem.
    destruct (decide (x = address)) as [->|Hx].
    + rewrite lookup_delete_eq, Hb, Hi. by rewrite decide_True.
    + rewrite lookup_delete_ne by done. by rewrite decide_False by tauto.
Qed.

(** ** Restoring every breakpoint *)

Definition restore_one (tid : Z) : Z * Breakpoint -> M dst unit := fun '(address, breakpoint) =>
  mwhen (bp_installed breakpoint)
    (_ ← kernel (Ptrace.write_byte tid address (bp_original_byte breakpoint));
     mark_installed address false).

(** One breakpoint restored: the user's view is the same, and no other entry of the
    table changes. *)
Lemma restore_one_spec s tid x b :
  let sp := k_space (st_world s) tid in
  tracee s tid -> in_u64 x -> mapped_word (st_world s) tid x ->
  breakpoints_by_address_ (st_debugger s) !! x = Some b -> bp_installed b = true ->
  exists s',
    restore_one tid (x, b) s = (Ok tt, s') /\ tracee s' tid /\ k_space (st_world s') tid = sp /\
    (forall y, mapped_word (st_world s) tid y -> mapped_word (st_world s') tid y) /\
    breakpoints_by_address_ (st_debugger s') =
      alter (set_installed false) x (breakpoints_by_address_ (st_debugger s)) /\
    (forall y, user_mem s' sp y = user_mem s sp y).
Proof.
  intros sp Ht Hx Hm Hb Hi.
  destruct (write_byte_stores _ _ _ (bp_original_byte b) Hx (tr_kernel _ _ Ht) Hm) as (w' & Hw & Hst).
  pose proof Hst as [Hsame Hmem].
  unfold restore_one. simpl. rewrite Hi. simpl. erewrite run_kernel_Ok by exact Hw.
  eexists. split; [done|]. split; [by apply (tracee_same s)|].
  split; [apply (same_space _ _ Hsame)|]. split; [by intros; eapply mapped_stored|].
  split; [done|]. intros y. unfold user_mem. unfold breakpoints_by_address_ at 1. simpl. rewrite Hmem.
  destruct (decide (y = x)) as [->|Hne].
  - rewrite lookup_alter_eq. unfold breakpoints_by_address_ in Hb. rewrite Hb. simpl.
    unfold breakpoints_by_address_. rewrite Hb, Hi. by rewrite decide_True.
  - rewrite lookup_alter_ne by done. by rewrite decide_False by tauto.
Qed.

Lemma restore_loop_spec l tid s :
  let sp := k_space (st_world s) tid in
  tracee s tid -> NoDup l.*1 ->
  (forall x b, (x, b) ∈ l ->
     breakpoints_by_address_ (st_debugger s) !! x = Some b /\ in_u64 x /\ mapped_word (st_world s) tid x) ->
  exists s',
    mfor l (restore_one tid) s = (Ok tt, s') /\ tracee s' tid /\ k_space (st_world s') tid = sp /\
    (forall x, breakpoints_by_address_ (st_debugger s') !! x =
       if decide (x ∈ l.*1) then set_installed false <$> breakpoints_by_address_ (st_debugger s) !! x
       else breakpoints_by_address_ (st_debugger s) !! x) /\
    (forall y, user_mem s' sp y = user_mem s sp y).
Proof.
  revert s. induction l as [|[x b] l IH]; intros s sp Ht Hnd Hl.
  - exists s. split; [done|]. do 2 (split; [done|]). split; [|done]. intros x.
    by rewrite decide_False by apply not_elem_of_nil.
  - apply NoDup_cons in Hnd as [Hx Hnd].
    destruct (Hl x b) as (Hb & Hxr & Hm); [left|].
    assert (Hstep : exists s1, restore_one tid (x, b) s = (Ok tt, s1) /\ tracee s1 tid /\
      k_space (st_world s1) tid = sp /\
      (forall y, mapped_word (st_world s) tid y -> mapped_word (st_world s1) tid y) /\
      (forall y, y <> x -> breakpoints_by_address_ (st_debugger s1) !! y =
                           breakpoints_by_address_ (st_debugger s) !! y) /\
      breakpoints_by_address_ (st_debugger s1) !! x = Some (set_installed false b) /\
      (forall y, user_mem s1 sp y = user_mem s sp y)).
    { destruct (bp_installed b) eqn:Hi.
      - destruct (restore_one_spec s tid x b Ht Hxr Hm Hb Hi) as (s1 & E & H1 & H2 & H3 & H4 & H5).
        exists s1. split; [done|]. do 3 (split; [done|]). rewrite H4. split; [|split; [|done]].
        + intros y Hy. by rewrite lookup_alter_ne.
        + by rewrite lookup_alter_eq, Hb.
      - exists s. unfold restore_one. simpl. rewrite Hi. split; [done|]. do 4 (split; [done|]).
        split; [|done]. rewrite Hb. destruct b; simpl in *. by subst. }
    destruct Hstep as (s1 & E & Ht1 & Hsp & Hmap & Hother & Hself & Hview).
    destruct (IH s1) as (s2 & E2 & Ht2 & Hsp2 & Htab & Hview2); [done..| |].
    { intros y c Hy. rewrite Hother.
      - destruct (Hl y c) as (? & ? & ?); [by right|]. auto.
      - intros ->. apply Hx. apply list_elem_of_fmap. by exists (x, c). }
    rewrite Hsp in Hsp2, Hview2. exists s2. simpl. erewrite run_Ok by exact E.
    split; [done|]. do 2 (split; [done|]). split.
    + intros y. rewrite Htab. destruct (decide (y = x)) as [->|Hne].
      * rewrite decide_False by done. rewrite Hself, Hb.
        by rewrite decide_True by (left).
      * rewrite Hother by done. destruct (decide (y ∈ l.*1)).
        -- by rewrite decide_True by (by right).
        -- rewrite decide_False; [done|]. intros [|]%elem_of_cons; done.
    + intros y. by rewrite Hview2, Hview.
Qed.

Lemma restore_all_run s tid :
  let sp := k_space (st_world s) tid in
  tracee s tid ->
  (forall x b, breakpoints_by_address_ (st_debugger s) !! x = Some b ->
     in_u64 x /\ mapped_word (st_world s) tid x) ->
  exists s',
    restore_all_breakpoints s = (Ok tt, s') /\ k_space (st_world s') tid = sp /\
    (forall y, user_mem s' sp y = user_mem s sp y) /\
    (forall x, breakpoints_by_address_ (st_debugger s') !! x =
       set_installed false <$> breakpoints_by_address_ (st_debugger s) !! x) /\
    pending_breakpoint_step_ (st_debugger s') = None.
Proof.
  intros sp Ht Hall.
  destruct (restore_loop_spec (map_in_order (breakpoints_by_address_ (st_debugger s))) tid s Ht)
    as (s1 & E & Ht1 & Hsp & Htab & Hview); [apply NoDup_map_in_order| |].
  { intros x b Hx%elem_of_map_in_order. split; [done|]. by apply (Hall x b). }
  unfold restore_all_breakpoints. rewrite (run_stopped_tid s tid), run_get by done.
  erewrite run_Ok; [|exact E]. eexists. split; [done|]. split; [exact Hsp|]. split; [exact Hview|]. split; [|done].
  intros x. transitivity (breakpoints_by_address_ (st_debugger s1) !! x); [done|]. rewrite Htab. case_decide as Hd; [done|].
  destruct (breakpoints_by_address_ (st_debugger s) !! x) as [b|] eqn:Hb; [|done].
  exfalso. apply Hd. apply list_elem_of_fmap. exists (x, b). split; [done|]. by apply elem_of_map_in_order.
Qed.

(** Without an installed breakpoint the user sees the real memory. *)
Lemma user_mem_real s (t : gmap Z Breakpoint) sp y :
  (forall x, breakpoints_by_address_ (st_debugger s) !! x = set_installed false <$> t !! x) ->
  user_mem s sp y = k_mem (st_world s) sp y.
Proof. intros Ht. unfold user_mem. rewrite Ht. by destruct (t !! y). Qed.

(** after [restore_all_breakpoints] the real memory is the memory the user has
    seen all along, no breakpoint is installed and no displaced step is pending. *)
Theorem restore_all_makes_real s tid :
  let sp := k_space (st_world s) tid in
  tracee s tid ->
  (forall x b, breakpoints_by_address_ (st_debugger s) !! x = Some b ->
     in_u64 x /\ mapped_word (st_world s) tid x) ->
  exists s',
    restore_all_breakpoints s = (Ok tt, s') /\
    (forall y, k_mem (st_world s') sp y = user_mem s sp y) /\
    (forall x, breakpoints_by_address_ (st_debugger s') !! x =
       set_installed false <$> breakpoints_by_address_ (st_debugger s) !! x) /\
    pending_breakpoint_step_ (st_debugger s') = None.
Proof.
  intros sp Ht Hall. destruct (restore_all_run s tid Ht Hall) as (s' & E & _ & Hview & Htab & Hp).
  exists s'. split; [done|]. split; [|done]. intros y. rewrite <- Hview. symmetry. by eapply user_mem_real.
Qed.

(** ** Hitting a breakpoint and stepping off it *)

(** C7: a breakpoint hit puts the program counter back on the breakpoint's address and
    its original byte in place, keeps the registers for later inspection and leaves a
    displaced step pending; the memory a user sees does not change. *)
Theorem prepare_breakpoint_hit_spec s tid address b regs :
  let sp := k_space (st_world s) tid in
  tracee s tid -> in_u64 address -> mapped_word (st_world s) tid address ->
  breakpoints_by_address_ (st_debugger s) !! address = Some b -> bp_installed b = true ->
  exists s',
    prepare_breakpoint_hit address regs tid s = (Ok tt, s') /\ tracee s' tid /\
    k_regs (st_world s') tid = set_rip regs address /\
    k_mem (st_world s') sp address = Some (bp_original_byte b) /\
    breakpoint_register_snapshot tid address (st_debugger s') = Some (set_rip regs address) /\
    breakpoints_by_address_ (st_debugger s') =
      alter (set_installed false) address (breakpoints_by_address_ (st_debugger s)) /\
    pending_breakpoint_step_ (st_debugger s') = Some (mkPending address tid) /\
    (forall x, user_mem s' sp x = user_mem s sp x).
Proof.
  intros sp Ht Ha Hm Hb Hi.
  pose proof (law_setregs tid (set_rip regs address) (st_world s) (tr_kernel _ _ Ht)) as Hset.
  destruct (k_setregs tid (set_rip regs address) (st_world s)) as [r w1] eqn:Er.
  destruct Hset as (-> & Hs1 & Hs2 & Hs3 & Hs4 & Hs5).
  assert (Hm1 : mapped_word w1 tid address) by (intros i Hi'; rewrite Hs2, Hs3; by apply Hm).
  assert (Hk1 : k_stopped w1 tid) by (by apply Hs1, Ht).
  destruct (write_byte_stores w1 _ _ (bp_original_byte b) Ha Hk1 Hm1) as (w' & Hw & Hst).
  pose proof Hst as [Hsame Hmem]. rewrite Hs2 in Hmem. fold sp in Hmem.
  unfold prepare_breakpoint_hit. rewrite run_get, Hb, Hi. simpl. mrun. rewrite run_upd.
  erewrite run_kernel_Ok by (simpl; unfold Ptrace.set_registers, Ptrace.sys; by rewrite Er).
  erewrite run_kernel_Ok by exact Hw.
  eexists. split; [done|]. simpl.
  split; [|split; [|split; [|split; [|split; [done|split; [done|]]]]]].
  - destruct Ht as [H1 H2 H3 H4 H5]. split; simpl; auto. by apply (same_stopped _ _ Hsame).
  - rewrite (same_regs _ _ Hsame), Hs5. by rewrite decide_True.
  - rewrite Hmem. by rewrite decide_True.
  - unfold breakpoint_register_snapshot. apply lookup_insert_eq.
  - intros x. unfold user_mem. unfold breakpoints_by_address_ at 1. simpl. rewrite Hmem, Hs3.
    destruct (decide (x = address)) as [->|Hx].
    + rewrite lookup_alter_eq. unfold breakpoints_by_address_ in Hb |- *. rewrite Hb. simpl. rewrite Hi.
      by rewrite decide_True.
    + rewrite lookup_alter_ne by done. by rewrite decide_False by tauto.
Qed.

(** C8: putting the trap byte back after the displaced step installs the breakpoint
    again; when its original byte was in place the memory a user sees is unchanged. *)
Theorem reinsert_breakpoint_spec s tid address b :
  let sp := k_space (st_world s) tid in
  tracee s tid -> in_u64 address -> mapped_word (st_world s) tid address ->
  breakpoints_by_address_ (st_debugger s) !! address = Some b -> bp_installed b = false ->
  exists s',
    reinsert_breakpoint address tid s = (Ok tt, s') /\ tracee s' tid /\
    k_mem (st_world s') sp address = Some kInt3 /\
    breakpoints_by_address_ (st_debugger s') =
      alter (set_installed true) address (breakpoints_by_address_ (st_debugger s)) /\
    (k_mem (st_world s) sp address = Some (bp_original_byte b) ->
     forall x, user_mem s' sp x = user_mem s sp x).
Proof.
  intros sp Ht Ha Hm Hb Hi.
  destruct (write_byte_stores _ _ _ kInt3 Ha (tr_kernel _ _ Ht) Hm) as (w' & Hw & Hst).
  pose proof Hst as [Hsame Hmem]. fold sp in Hmem.
  unfold reinsert_breakpoint. rewrite run_get, Hb, Hi.
  erewrite run_kernel_Ok by exact Hw. eexists. split; [done|]. simpl.
  split; [by apply (tracee_same s)|].
  split; [rewrite Hmem; by rewrite decide_True|]. split; [done|]. intros Hreal x.
  unfold user_mem. unfold breakpoints_by_address_ at 1. simpl. rewrite Hmem.
  destruct (decide (x = address)) as [->|Hx].
  - rewrite lookup_alter_eq. unfold breakpoints_by_address_ in Hb |- *. rewrite Hb. simpl. by rewrite Hi.
  - rewrite lookup_alter_ne by done. by rewrite decide_False by tauto.
Qed.

(** ** Writing memory *)

(** The byte a write of [bytes] at [address] stores at [x]. *)
Definition range_byte (address : Z) (bytes : list byte) (x : Z) : option byte :=
  if address <=? x then bytes !! Z.to_nat (x - address) else None.

Lemma range_byte_cons address v bytes x :
  range_byte address (v :: bytes) x = if x =? address then Some v else range_byte (address + 1) bytes x.
Proof.
  unfold range_byte. destruct (Z.eqb_spec x address) as [->|Hne].
  - by rewrite Z.leb_refl, Z.sub_diag.
  - destruct (Z.leb_spec address x), (Z.leb_spec (address + 1) x); try lia; [|done].
    by replace (Z.to_nat (x - address)) with (S (Z.to_nat (x - (address + 1)))) by lia.
Qed.

Lemma range_byte_Some address bytes x :
  is_Some (range_byte address bytes x) <-> address <= x < address + Z.of_nat (length bytes).
Proof.
  unfold range_byte. destruct (Z.leb_spec address x).
  - rewrite lookup_lt_is_Some. lia.
  - split; [intros [? [=]]|lia].
Qed.

Definition installed_at (bps : gmap Z Breakpoint) (x : Z) : bool :=
  match bps !! x with Some b => bp_installed b | None => false end.

(** The bytes that reach the tracee are those not under an installed breakpoint. *)
Lemma write_memory_bytes_spec tid address off bytes s :
  let sp := k_space (st_world s) tid in
  tracee s tid -> 0 <= address + off -> address + off + Z.of_nat (length bytes) <= u64_max + 1 ->
  (forall x, is_Some (range_byte (address + off) bytes x) -> mapped_word (st_world s) tid x) ->
  exists w',
    write_memory_bytes tid address off bytes s = (Ok tt, mkSt (st_debugger s) w' (st_sequence s)) /\
    same_tasks (st_world s) w' /\
    (forall x, k_mem w' sp x =
       match range_byte (address + off) bytes x with
       | Some v => if installed_at (breakpoints_by_address_ (st_debugger s)) x
                   then k_mem (st_world s) sp x else Some v
       | None => k_mem (st_world s) sp x
       end).
Proof.
  revert off s. induction bytes as [|v bytes IH]; intros off s sp Ht H0 Hmax Hmap.
  - exists (st_world s). destruct s. split; [done|]. split; [done|]. intros x. simpl.
    unfold range_byte. by destruct (_ <=? _).
  - cbn [length] in Hmax.
    assert (Hin : in_u64 (address + off)) by (unfold in_u64; lia).
    assert (Hm : mapped_word (st_world s) tid (address + off)).
    { apply Hmap. rewrite range_byte_cons, Z.eqb_refl. by eexists. }
    assert (Hstep : exists w1,
      write_memory_bytes tid address off (v :: bytes) s =
        write_memory_bytes tid address (off + 1) bytes (mkSt (st_debugger s) w1 (st_sequence s)) /\
      same_tasks (st_world s) w1 /\
      (forall y, mapped_word (st_world s) tid y -> mapped_word w1 tid y) /\
      (forall x, k_mem w1 sp x =
         if (x =? address + off) && negb (installed_at (breakpoints_by_address_ (st_debugger s)) x)
         then Some v else k_mem (st_world s) sp x)).
    { simpl. rewrite u64_small, run_get by done.
      destruct (installed_at (breakpoints_by_address_ (st_debugger s)) (address + off)) eqn:Hi.
      - exists (st_world s). split; [|split; [done|split; [done|]]].
        + destruct s. unfold installed_at in Hi. by destruct (_ !! _) as [b|]; [rewrite Hi|].
        + intros x. destruct (Z.eqb_spec x (address + off)) as [->|]; [|done]. by rewrite Hi.
      - destruct (write_byte_stores _ _ _ v Hin (tr_kernel _ _ Ht) Hm) as (w1 & Hw & Hst).
        pose proof Hst as [Hsame Hmem].
        exists w1. split; [|split; [done|split; [by intros; eapply mapped_stored|]]].
        + unfold installed_at in Hi.
          destruct (_ !! _) as [b|]; [rewrite Hi|]; by erewrite run_kernel_Ok by exact Hw.
        + intros x. rewrite Hmem. fold sp. destruct (Z.eqb_spec x (address + off)) as [->|].
          * rewrite Hi. by rewrite decide_True.
          * by rewrite decide_False by tauto. }
    destruct Hstep as (w1 & -> & Hsame & Hmap1 & Hmem).
    destruct (IH (off + 1) (mkSt (st_debugger s) w1 (st_sequence s))) as (w' & E & Hs2 & Hmem2);
      [by apply (tracee_same s)|lia|lia| |].
    { intros x Hx. apply Hmap1, Hmap. rewrite range_byte_cons. destruct (_ =? _); [by eexists|].
      by rewrite Z.add_assoc in Hx. }
    exists w'. split; [done|]. simpl in *. split; [by etrans|]. intros x.
    rewrite (same_space _ _ Hsame) in Hmem2. fold sp in Hmem2.
    rewrite Hmem2, Hmem, range_byte_cons, Z.add_assoc.
    destruct (Z.eqb_spec x (address + off)) as [->|]; simpl; [|done].
    assert (range_byte (address + off + 1) bytes (address + off) = None) as ->.
    { unfold range_byte. by destruct (Z.leb_spec (address + off + 1) (address + off)); [lia|]. }
    by destruct (installed_at _ _).
Qed.

Definition apply_updates (updates : list (Z * byte)) (bps : gmap Z Breakpoint) : gmap Z Breakpoint :=
  foldl (fun m u => alter (set_original_byte u.2) u.1 m) bps updates.

Lemma update_saved_bytes_run updates s :
  mfor updates update_saved_byte s =
  (Ok tt, mkSt (set_active (dset_breakpoints
     (apply_updates updates (breakpoints_by_address_ (st_debugger s)))
     (breakpoint_ids_ (st_debugger s)) (active (st_debugger s))) (st_debugger s))
     (st_world s) (st_sequence s)).
Proof.
  revert s. induction updates as [|u updates IH]; intros s.
  - by destruct s as [[[] ? ? ? ?] ? ?].
  - cbn [mfor]. erewrite run_Ok by reflexivity. by rewrite IH.
Qed.

Lemma apply_updates_lookup updates bps x :
  (forall v, (x, v) ∉ updates) -> apply_updates updates bps !! x = bps !! x.
Proof.
  revert bps. induction updates as [|[y v] updates IH]; intros bps H; [done|]. simpl.
  rewrite IH by (intros v' Hin; apply (H v'); by right).
  rewrite lookup_alter_ne; [done|]. intros <-. apply (H v). left.
Qed.

(** The updates are the overlapped breakpoints with the bytes written over them. *)
Lemma saved_byte_updates_spec (bps : gmap Z Breakpoint) address off bytes :
  0 <= address + off -> address + off + Z.of_nat (length bytes) <= u64_max + 1 ->
  (forall x b, bps !! x = Some b -> is_Some (range_byte (address + off) bytes x) -> bp_installed b = true) ->
  exists updates, saved_byte_updates bps address off bytes = Ok updates /\
    (forall x v, (x, v) ∈ updates -> is_Some (range_byte (address + off) bytes x)) /\
    (forall m x, apply_updates updates m !! x =
       match range_byte (address + off) bytes x with
       | Some v => if bps !! x then set_original_byte v <$> m !! x else m !! x
       | None => m !! x
       end).
Proof.
  revert off. induction bytes as [|v bytes IH]; intros off H0 Hmax Hins.
  - exists []. split; [done|]. split; [by intros x v []%elem_of_nil|]. intros m x. simpl.
    unfold range_byte. by destruct (_ <=? _).
  - cbn [length] in Hmax. destruct (IH (off + 1)) as (ups & E & Hin & Hl); [lia|lia| |].
    { intros x b Hx Hr. apply (Hins x b Hx). rewrite range_byte_cons.
      destruct (_ =? _); [by eexists|]. by rewrite Z.add_assoc in Hr. }
    rewrite Z.add_assoc in Hin, Hl. simpl. rewrite u64_small by (unfold in_u64; lia).
    assert (Hnone : range_byte (address + off + 1) bytes (address + off) = None).
    { unfold range_byte. by destruct (Z.leb_spec (address + off + 1) (address + off)); [lia|]. }
    destruct (bps !! (address + off)) as [b|] eqn:Eb.
    + rewrite (Hins _ b Eb) by (rewrite range_byte_cons, Z.eqb_refl; by eexists).
      simpl. rewrite E. simpl. eexists. split; [done|]. split.
      * intros x w [[= -> ->]|Hx]%elem_of_cons; rewrite range_byte_cons, ?Z.eqb_refl; [by eexists|].
        destruct (_ =? _); [by eexists|by eapply Hin].
      * intros m x. simpl. rewrite Hl, range_byte_cons.
        destruct (Z.eqb_spec x (address + off)) as [->|Hne].
        -- by rewrite Hnone, Eb, lookup_alter_eq.
        -- by rewrite lookup_alter_ne.
    + exists ups. split; [done|]. split.
      * intros x w Hx. rewrite range_byte_cons. destruct (_ =? _); [by eexists|by eapply Hin].
      * intros m x. rewrite Hl, range_byte_cons. destruct (Z.eqb_spec x (address + off)) as [->|Hne];
          [by rewrite Hnone, Eb|done].
Qed.

(** C3: [write_memory] is a plain store on the memory the user sees: afterwards the
    range holds the bytes that were passed and everything else is as before, with
    every trap byte still in the tracee. *)
Theorem write_memory_stores s tid address bytes :
  let sp := k_space (st_world s) tid in
  tracee s tid -> armed s sp -> bytes <> [] -> (length bytes <= kMaxMemoryWriteBytes)%nat ->
  0 <= address -> address + Z.of_nat (length bytes) <= u64_max + 1 ->
  (forall x, is_Some (range_byte address bytes x) -> mapped_word (st_world s) tid x) ->
  (forall x b, breakpoints_by_address_ (st_debugger s) !! x = Some b ->
     is_Some (range_byte address bytes x) -> bp_installed b = true) ->
  (forall p, pending_breakpoint_step_ (st_debugger s) = Some p ->
     range_byte address bytes (pbs_address p) = None /\ in_u64 (pbs_address p)) ->
  exists s',
    write_memory address bytes s = (Ok tt, s') /\ tracee s' tid /\ armed s' sp /\
    (forall x, user_mem s' sp x =
       match range_byte address bytes x with Some v => Some v | None => user_mem s sp x end).
Proof.
  intros sp Ht Harm Hne Hlen H0 Hmax Hmap Hins Hpend.
  assert (0 < Z.of_nat (length bytes)) by (destruct bytes; [done|simpl; lia]).
  destruct (saved_byte_updates_spec (breakpoints_by_address_ (st_debugger s)) address 0 bytes)
    as (ups & Eups & Hin & Hups); [lia|lia|by rewrite Z.add_0_r|].
  destruct (write_memory_bytes_spec tid address 0 bytes s Ht) as (w' & Ew & Hsame & Hmem);
    [lia|lia|by rewrite Z.add_0_r|]. rewrite Z.add_0_r in *.
  unfold write_memory. rewrite (run_stopped_tid s tid) by done. mrun.
  rewrite bool_decide_false by done.
  destruct (Z.ltb_spec (Z.of_nat kMaxMemoryWriteBytes) (Z.of_nat (length bytes))); [lia|].
  destruct (Z.ltb_spec (u64_max - (Z.of_nat (length bytes) - 1)) address); [lia|].
  rewrite run_get. mrun.
  assert (match pending_breakpoint_step_ (st_debugger s) with
          | Some p => range_contains address (Z.of_nat (length bytes)) (pbs_address p)
          | None => false end = false) as ->.
  { destruct (pending_breakpoint_step_ (st_debugger s)) as [p|]; [|done].
    destruct (Hpend p eq_refl) as [Hr Hu]. unfold in_u64, u64_max in *.
    assert (~ (address <= pbs_address p < address + Z.of_nat (length bytes)))
      by (rewrite <- range_byte_Some, Hr; intros [? [=]]).
    unfold range_contains. destruct (Z.leb_spec address (pbs_address p)); [|by rewrite andb_false_r].
    rewrite u64_small by (unfold in_u64, u64_max; lia).
    destruct (Z.ltb_spec (pbs_address p - address) (Z.of_nat (length bytes))); [lia|].
    by rewrite andb_false_r. }
  rewrite Eups. mrun. erewrite run_Ok by exact Ew. rewrite update_saved_bytes_run. simpl.
  eexists. split; [done|]. split; [by apply (tracee_same s)|]. unfold installed_at in Hmem. split.
  - intros x b. unfold breakpoints_by_address_ at 1. simpl. rewrite Hups, Hmem. intros Hb Hi.
    destruct (breakpoints_by_address_ (st_debugger s) !! x) as [b0|] eqn:Eb0;
      [|by destruct (range_byte address bytes x)].
    assert (Hi0 : bp_installed b0 = true) by (destruct (range_byte address bytes x);
      simpl in Hb; injection Hb as <-; done).
    destruct (Harm x b0 Eb0 Hi0). rewrite Hi0. by destruct (range_byte address bytes x).
  - intros x. unfold user_mem. unfold breakpoints_by_address_ at 1. simpl. rewrite Hups, Hmem.
    destruct (breakpoints_by_address_ (st_debugger s) !! x) as [b0|] eqn:Eb0;
      [|by destruct (range_byte address bytes x)].
    destruct (range_byte address bytes x) as [v|] eqn:Er; [|done].
    simpl. rewrite (Hins x b0 Eb0) by (by eexists). done.
Qed.
End Breakpoints.

(** ** Witnesses on the concrete kernel *)

Definition demo_stop : StopInfo :=
  mkStopInfo InitialExec SIGTRAP None None None 100 None None NoEvent None None false 1.
Definition demo_tracee : process := single_stopped_task 100 (new_process 100 Launched).
Definition demo_dst : dst (K := SimKernel) :=
  mkSt (K := SimKernel) (new_debugger demo_tracee demo_stop "/bin/tracee") demo_world 1.
(** The same with a breakpoint at 0x1001. *)
Definition demo_bp_dst : dst (K := SimKernel) := snd (add_breakpoint (K := SimKernel) 0x1001 demo_dst).
Definition demo_bp : Breakpoint := mkBreakpoint 1 0x1001 (byte_of_Z 0x48) true.

Ltac solve_mapped :=
  let i := fresh in let H := fresh in
  intros i H; do 8 (destruct i as [|i]; [vm_compute; by eexists|]); lia.

Lemma demo_dst_tracee : tracee (L := SimKernelLaws) demo_dst 100.
Proof. by split; vm_compute. Qed.
Lemma demo_bp_dst_tracee : tracee (L := SimKernelLaws) demo_bp_dst 100.
Proof. by split; vm_compute. Qed.
Lemma demo_bp_table :
  breakpoints_by_address_ (st_debugger demo_bp_dst) = {[0x1001 := demo_bp]}.
Proof. by vm_compute. Qed.
Lemma demo_bp_armed : armed (L := SimKernelLaws) demo_bp_dst 0.
Proof.
  intros x b. rewrite demo_bp_table. intros [<- <-]%lookup_singleton_Some _.
  split; [unfold in_u64, u64_max; lia|]. by vm_compute.
Qed.

Lemma add_breakpoint_transparent_witness :
  exists s', add_breakpoint (K := SimKernel) 0x1001 demo_dst = (Ok 1, s') /\
    k_mem (K := SimKernel) (KernelLaws := SimKernelLaws) (st_world s') 0 0x1001 = Some kInt3 /\
    (forall x, user_mem (L := SimKernelLaws) s' 0 x = user_mem (L := SimKernelLaws) demo_dst 0 x).
Proof.
  destruct (add_breakpoint_transparent (L := SimKernelLaws) demo_dst 100 0x1001)
    as (s' & o & H1 & _ & _ & _ & _ & H2 & H3).
  - exact demo_dst_tracee.
  - intros x b H. discriminate (eq_trans (eq_sym (lookup_empty x)) H).
  - unfold in_u64, u64_max. lia.
  - solve_mapped.
  - reflexivity.
  - reflexivity.
  - discriminate.
  - exists s'. exact (conj H1 (conj H2 H3)).
Defined.

Lemma remove_breakpoint_transparent_witness :
  exists s', remove_breakpoint (K := SimKernel) 1 demo_bp_dst = (Ok true, s') /\
    (forall x, user_mem (L := SimKernelLaws) s' 0 x = user_mem (L := SimKernelLaws) demo_bp_dst 0 x).
Proof.
  destruct (remove_breakpoint_transparent (L := SimKernelLaws) demo_bp_dst 100 1 0x1001 demo_bp)
    as (s' & H1 & _ & _ & _ & _ & _ & H2).
  - exact demo_bp_dst_tracee.
  - exact demo_bp_armed.
  - unfold in_u64, u64_max. lia.
  - solve_mapped.
  - reflexivity.
  - reflexivity.
  - reflexivity.
  - exists s'. exact (conj H1 H2).
Defined.

Lemma restore_all_makes_real_witness :
  exists s', restore_all_breakpoints (K := SimKernel) demo_bp_dst = (Ok tt, s') /\
    (forall y, k_mem (K := SimKernel) (KernelLaws := SimKernelLaws) (st_world s') 0 y =
               user_mem (L := SimKernelLaws) demo_bp_dst 0 y).
Proof.
  destruct (restore_all_makes_real (L := SimKernelLaws) demo_bp_dst 100) as (s' & H1 & H2 & _ & _).
  - exact demo_bp_dst_tracee.
  - intros x b. rewrite demo_bp_table. intros [<- <-]%lookup_singleton_Some.
    split; [unfold in_u64, u64_max; lia|]. solve_mapped.
  - exists s'. exact (conj H1 H2).
Defined.

Lemma prepare_breakpoint_hit_spec_witness :
  exists s', prepare_breakpoint_hit (K := SimKernel) 0x1001 (set_rip zero_regs 0x1002) 100 demo_bp_dst = (Ok tt, s') /\
    k_regs (K := SimKernel) (KernelLaws := SimKernelLaws) (st_world s') 100 = set_rip zero_regs 0x1001 /\
    pending_breakpoint_step_ (st_debugger s') = Some (mkPending 0x1001 100).
Proof.
  destruct (prepare_breakpoint_hit_spec (L := SimKernelLaws) demo_bp_dst 100 0x1001 demo_bp
              (set_rip zero_regs 0x1002)) as (s' & H1 & _ & H2 & _ & _ & _ & H3 & _).
  - exact demo_bp_dst_tracee.
  - unfold in_u64, u64_max. lia.
  - solve_mapped.
  - reflexivity.
  - reflexivity.
  - exists s'. exact (conj H1 (conj H2 H3)).
Defined.

(** The state after the hit. *)
Definition demo_hit_dst : dst (K := SimKernel) :=
  snd (prepare_breakpoint_hit (K := SimKernel) 0x1001 (set_rip zero_regs 0x1002) 100 demo_bp_dst).

Lemma reinsert_breakpoint_spec_witness :
  exists s', reinsert_breakpoint (K := SimKernel) 0x1001 100 demo_hit_dst = (Ok tt, s') /\
    k_mem (K := SimKernel) (KernelLaws := SimKernelLaws) (st_world s') 0 0x1001 = Some kInt3 /\
    (forall x, user_mem (L := SimKernelLaws) s' 0 x = user_mem (L := SimKernelLaws) demo_hit_dst 0 x).
Proof.
  destruct (reinsert_breakpoint_spec (L := SimKernelLaws) demo_hit_dst 100 0x1001 (set_installed false demo_bp))
    as (s' & H1 & _ & H2 & _ & H3).
  - by split; vm_compute.
  - unfold in_u64, u64_max. lia.
  - solve_mapped.
  - vm_compute. reflexivity.
  - reflexivity.
  - exists s'. split; [exact H1|]. split; [exact H2|]. apply H3. vm_compute. reflexivity.
Defined.

Lemma write_memory_stores_witness :
  exists s', write_memory (K := SimKernel) 0x1000 [Byte.x01; Byte.x02; Byte.x03] demo_bp_dst = (Ok tt, s') /\
    armed (L := SimKernelLaws) s' 0 /\
    (forall x, user_mem (L := SimKernelLaws) s' 0 x =
       match range_byte 0x1000 [Byte.x01; Byte.x02; Byte.x03] x with
       | Some v => Some v
       | None => user_mem (L := SimKernelLaws) demo_bp_dst 0 x
       end).
Proof.
  destruct (write_memory_stores (L := SimKernelLaws) demo_bp_dst 100 0x1000 [Byte.x01; Byte.x02; Byte.x03])
    as (s' & H1 & _ & H2 & H3).
  - exact demo_bp_dst_tracee.
  - exact demo_bp_armed.
  - discriminate.
  - unfold kMaxMemoryWriteBytes. simpl. lia.
  - lia.
  - unfold u64_max. simpl. lia.
  - intros x [H4 H5]%range_byte_Some. simpl in H5.
    assert (x = 0x1000 \/ x = 0x1001 \/ x = 0x1002) as [-> | [-> | ->]] by lia; solve_mapped.
  - intros x b. rewrite demo_bp_table. by intros [<- <-]%lookup_singleton_Some _.
  - intros p Hp. assert (pending_breakpoint_step_ (st_debugger demo_bp_dst) = None) as E
      by (vm_compute; reflexivity). rewrite E in Hp. discriminate Hp.
  - exists s'. exact (conj H1 (conj H2 H3)).
Defined.

(** ** What adding and removing a breakpoint does to the tables

    The two tables of the active process after a call that succeeded, whatever the kernel is. *)

Section Tables.
Context `{K : Kernel}.

(** The tables after a breakpoint was added. *)
Lemma add_breakpoint_adds address s id s' :
  add_breakpoint address s = (Ok id, s') ->
  id = next_breakpoint_id_ (st_debugger s) /\ breakpoints_by_address_ (st_debugger s) !! address = None /\
  process_ (st_debugger s') = process_ (st_debugger s) /\
  exists original, breakpoints_by_address_ (st_debugger s') !! address = Some (mkBreakpoint id address original true).
Proof.
  unfold add_breakpoint. unfold get_debugger at 1. rewrite run_gets, run_throw_if.
  destruct (_ && _); [done|]. unfold mbind at 1, M_bind at 1.
  pose proof (pure_stopped_tid s) as Hp. destruct (stopped_tid s) as [[tid|e|w|] s1]; try done. simpl in Hp.
  rewrite run_throw_if. case_bool_decide as Hb; [done|]. unfold mbind at 1, M_bind at 1.
  pose proof (pure_kernel (Ptrace.read_byte tid address) s1) as Hp1.
  destruct (kernel (Ptrace.read_byte tid address) s1) as [[original|e|w|] s2]; try done. simpl in Hp1.
  unfold mbind at 1, M_bind at 1. pose proof (pure_kernel (Ptrace.write_byte tid address kInt3) s2) as Hp2.
  destruct (kernel (Ptrace.write_byte tid address kInt3) s2) as [[[]|e|w|] s3]; try done. simpl in Hp2.
  rewrite run_upd_debugger, run_upd. intros [= <- <-]. simpl.
  rewrite eq_None_not_Some. split; [done|]. split; [done|]. unfold process_. simpl. rewrite Hp2, Hp1, Hp. split; [done|].
  exists original. unfold breakpoints_by_address_ in *. simpl. unfold emplace.
  destruct (d_breakpoints_by_address _ !! address) eqn:E; [by destruct Hb|]. by rewrite lookup_insert_eq.
Qed.

Lemma forget_breakpoint_run id address s :
  exists s', forget_breakpoint id address s = (Ok tt, s') /\ process_ (st_debugger s') = process_ (st_debugger s) /\
    breakpoints_by_address_ (st_debugger s') = delete address (breakpoints_by_address_ (st_debugger s)) /\
    breakpoint_ids_ (st_debugger s') = delete id (breakpoint_ids_ (st_debugger s)).
Proof.
  unfold forget_breakpoint, get_debugger. rewrite run_gets. unfold mwhen.
  destruct (match pending_breakpoint_step_ _ with Some _ => _ | None => _ end).
  - rewrite run_upd. by eexists.
  - rewrite run_mskip. by eexists.
Qed.

(** The tables after a breakpoint was removed. *)
Lemma remove_breakpoint_removes id address s b s' :
  remove_breakpoint id s = (Ok b, s') -> breakpoint_ids_ (st_debugger s) !! id = Some address ->
  b = true /\ process_ (st_debugger s') = process_ (st_debugger s) /\
  breakpoints_by_address_ (st_debugger s') = delete address (breakpoints_by_address_ (st_debugger s)) /\
  breakpoint_ids_ (st_debugger s') = delete id (breakpoint_ids_ (st_debugger s)).
Proof.
  unfold remove_breakpoint, get_debugger at 1. rewrite run_gets. intros Hr Hid. rewrite Hid in Hr. revert Hr.
  lazymatch goal with |- (?m ≫= ?f) s = _ -> _ => set (write := m); set (rest := f) end.
  assert (Hw : pure_of write).
  { unfold write. destruct (_ !! address) as [bp|]; [|done]. unfold mwhen. destruct (_ && _); [|done].
    apply pure_bind; [apply pure_stopped_tid|intros tid; apply pure_kernel]. }
  unfold mbind at 1, M_bind at 1. specialize (Hw s). destruct (write s) as [[[]|e|w|] s1]; try done. simpl in Hw.
  unfold rest. destruct (forget_breakpoint_run id address s1) as (s2 & Hf & Hpid & Hbps & Hids).
  rewrite (run_Ok _ _ _ _ _ Hf). intros [= <- <-]. rewrite Hpid, Hbps, Hids, Hw. done.
Qed.

(** An identifier that is not known. *)
Lemma remove_breakpoint_unknown id s :
  breakpoint_ids_ (st_debugger s) !! id = None -> remove_breakpoint id s = (Ok false, s).
Proof. intros Hid. unfold remove_breakpoint, get_debugger. by rewrite run_gets, Hid. Qed.
End Tables.
