(* ===== verification/Watchpoints.v ===== *)
(** * The hardware watchpoint

    [add_write_watchpoint] programs slot 0 of the x86 debug registers and leaves the
    other slots alone; [remove_watchpoint] puts back what the registers held before. *)

From S2P Require Import Prelude Machine SimKernel Ptrace Process DebuggerState Debugger DebuggerWait.
From S2P Require Import Breakpoints.
From S2P Require Ptrace.

(** ** The bits of DR7 *)

Definition slot0_bits : list Z := [0; 1; 16; 17; 18; 19].

Lemma slot0_mask_bit i : 0 <= i < 64 ->
  Z.testbit (u64 (Z.lnot (Z.lor kDr7Slot0EnableMask kDr7Slot0ControlMask))) i =
  negb (existsb (Z.eqb i) slot0_bits).
Proof.
  assert (H : forallb (fun n => Bool.eqb (Z.testbit (u64 (Z.lnot (Z.lor kDr7Slot0EnableMask kDr7Slot0ControlMask))) (Z.of_nat n))
      (negb (existsb (Z.eqb (Z.of_nat n)) slot0_bits))) (seq 0 64) = true) by (vm_compute; reflexivity).
  rewrite forallb_forall in H. intros Hi. specialize (H (Z.to_nat i)).
  rewrite Z2Nat.id in H by lia. apply Bool.eqb_prop, H, in_seq. lia.
Qed.

(** the DR7 value of an armed watchpoint has local enable 0 set, the write
    condition and the length of slot 0 as encoded, and every bit that belongs to
    another slot as it was. *)
Theorem configured_dr7_bits dr7 enc i :
  0 <= enc < 4 -> 0 <= i < 64 ->
  Z.testbit (configured_dr7 (disable_slot0 dr7) enc) i =
    if i =? 0 then true
    else if i =? 1 then false
    else if i =? 16 then true
    else if i =? 17 then false
    else if i =? 18 then Z.testbit enc 0
    else if i =? 19 then Z.testbit enc 1
    else Z.testbit dr7 i.
Proof.
  intros He Hi. unfold configured_dr7, disable_slot0.
  rewrite !Z.lor_spec, Z.land_spec, slot0_mask_bit, !Z.shiftl_spec by lia.
  assert (H1 : Z.testbit 1 i = (i =? 0)) by (destruct (Z.eqb_spec i 0); [by subst|by apply (Z.pow2_bits_false 0); lia]).
  assert (H2 : Z.testbit 1 (i - 16) = (i =? 16)).
  { destruct (Z.eqb_spec i 16); [by subst|].
    destruct (Z.ltb_spec i 16); [apply Z.testbit_neg_r; lia|apply (Z.pow2_bits_false 0); lia]. }
  assert (H3 : i <> 18 -> i <> 19 -> Z.testbit enc (i - 18) = false).
  { intros. destruct (Z.ltb_spec i 18); [apply Z.testbit_neg_r; lia|].
    destruct (Z.eqb_spec enc 0) as [->|]; [apply Z.testbit_0_l|].
    apply Z.bits_above_log2; [lia|]. apply Z.log2_lt_pow2; [lia|].
    apply Z.lt_le_trans with (2 ^ 2); [lia|]. apply Z.pow_le_mono_r; lia. }
  rewrite H1, H2. unfold slot0_bits. cbn [existsb].
  destruct (Z.eqb_spec i 0), (Z.eqb_spec i 1), (Z.eqb_spec i 16), (Z.eqb_spec i 17),
    (Z.eqb_spec i 18), (Z.eqb_spec i 19); subst; try lia; simpl;
    rewrite ?H3, ?andb_false_r, ?andb_true_r, ?orb_false_r, ?orb_true_r by lia; done.
Qed.

Lemma configured_dr7_bits_witness :
  Z.testbit (configured_dr7 (disable_slot0 0xff0f0c) 3) 20 = Z.testbit 0xff0f0c 20.
Proof. apply (configured_dr7_bits 0xff0f0c 3 20); lia. Defined.

Section Watchpoints.
Context `{K : Kernel} `{L : !KernelLaws K}.

(** The debug registers of [pid] after the four writes of [restore_debug_registers]. *)
Definition drs_written (old : Z -> Z) (dr0 dr6 dr7 : Z) (i : Z) : Z :=
  if i =? 7 then dr7 else if i =? 6 then dr6 else if i =? 0 then dr0 else old i.

Lemma set_dr_run tid i v s :
  k_stopped (st_world s) tid -> 0 <= i < 8 ->
  exists r w', kernel (Ptrace.set_debug_register tid i v) s = (r, mkSt (st_debugger s) w' (st_sequence s)) /\
    dr_changed (st_world s) w' tid /\
    (r = Ok tt -> forall j, k_dr w' tid j = if decide (j = i) then v else k_dr (st_world s) tid j).
Proof.
  intros Hs Hi. pose proof (set_debug_register_spec (st_world s) tid i v Hs Hi) as H.
  destruct (Ptrace.set_debug_register tid i v (st_world s)) as [r w'] eqn:E.
  destruct H as [H1 H2]. exists r, w'. split; [by apply kernel_run|]. split; [done|]. by intros ->.
Qed.

(** One write of the four; when it fails the rest is skipped. *)
Lemma bind_set_dr {A} tid i v (f : unit -> M dst A) s a s' :
  k_stopped (st_world s) tid -> 0 <= i < 8 ->
  (kernel (Ptrace.set_debug_register tid i v) ≫= f) s = (Ok a, s') ->
  exists w', f tt (mkSt (st_debugger s) w' (st_sequence s)) = (Ok a, s') /\
    dr_changed (st_world s) w' tid /\
    forall j, k_dr w' tid j = if decide (j = i) then v else k_dr (st_world s) tid j.
Proof.
  intros Hs Hi. destruct (set_dr_run tid i v s Hs Hi) as (r & w' & E & Hc & Hd).
  unfold mbind, M_bind. rewrite E. destruct r as [[]|e|u|]; [|done..]. intros Hf.
  exists w'. auto.
Qed.

Lemma restore_debug_registers_spec tid d7 dr0 dr6 dr7 s s' :
  k_stopped (st_world s) tid ->
  restore_debug_registers tid d7 dr0 dr6 dr7 s = (Ok tt, s') ->
  st_debugger s' = st_debugger s /\ dr_changed (st_world s) (st_world s') tid /\
  forall j, k_dr (st_world s') tid j = drs_written (k_dr (st_world s) tid) dr0 dr6 dr7 j.
Proof.
  intros Hs H. unfold restore_debug_registers in H.
  apply bind_set_dr in H as (w1 & H & C1 & D1); [|done|lia].
  apply bind_set_dr in H as (w2 & H & C2 & D2); [|by apply C1|lia]. simpl in C2, D2.
  apply bind_set_dr in H as (w3 & H & C3 & D3); [|by apply C2, C1|lia]. simpl in C3, D3.
  destruct (set_dr_run tid 7 dr7 (mkSt (st_debugger s) w3 (st_sequence s))) as (r & w4 & E & C4 & D4);
    [by apply C3, C2, C1|lia|]. pose proof (eq_trans (eq_sym E) H) as X. injection X as -> <-.
  split; [done|]. simpl in *. split; [by repeat (eapply dr_changed_trans; [eassumption|])|].
  intros j. rewrite (D4 eq_refl), D3, D2, D1. unfold drs_written.
  destruct (Z.eqb_spec j 7), (Z.eqb_spec j 6), (Z.eqb_spec j 0); repeat case_decide; done || lia.
Qed.

Lemma kernel_get_dr tid i s :
  k_stopped (st_world s) tid -> 0 <= i < 8 ->
  kernel (Ptrace.get_debug_register tid i) s = (Ok (k_dr (st_world s) tid i), s).
Proof.
  intros Hs Hi. rewrite (kernel_run _ _ _ _ (get_debug_register_reads (st_world s) tid i Hs Hi)).
  by destruct s.
Qed.

Lemma bind_on_throw {A B} (m : M dst A) h (f : A -> M dst B) s b s' :
  (mon_throw m h ≫= f) s = (Ok b, s') -> (m ≫= f) s = (Ok b, s').
Proof.
  unfold mon_throw, mcatch, mbind, M_bind, lift. destruct (m s) as [[a|e|u|] s1]; try done.
  by destruct (h s1) as [[]].
Qed.

(** A watchpoint that was added: all that has changed. *)
Lemma add_watchpoint_effect s tid address len enc id s' :
  tracee s tid -> watchpoint_length_encoding len = Ok enc ->
  add_write_watchpoint address len s = (Ok id, s') ->
  let dr := k_dr (st_world s) tid in
  id = next_watchpoint_id_ (st_debugger s) /\ address mod len = 0 /\
  Z.land (dr 7) kDr7Slot0EnableMask = 0 /\
  watchpoint_ (st_debugger s') = Some (mkWatchpoint id address len) /\
  watchpoint_register_snapshot_ (st_debugger s') = Some (mkSnapshot tid (dr 0) (dr 6) (dr 7)) /\
  dr_changed (st_world s) (st_world s') tid /\ tracee s' tid /\
  forall j, k_dr (st_world s') tid j =
    drs_written dr address (clear_hit0 (dr 6)) (configured_dr7 (disable_slot0 (dr 7)) enc) j.
Proof.
  intros Ht Henc H dr. pose proof (tr_kernel _ _ Ht) as Hk. unfold add_write_watchpoint in H.
  rewrite (run_stopped_tid s tid), run_get in H by done. autorewrite with mrun in H.
  case_bool_decide; [done|]. rewrite Henc in H. autorewrite with mrun in H.
  destruct (Z.eqb_spec (address mod len) 0) as [Hal|]; [|done].
  do 3 (erewrite run_Ok in H by (apply kernel_get_dr; [done|lia])).
  autorewrite with mrun in H. fold (dr 0) (dr 6) (dr 7) in H.
  destruct (Z.eqb_spec (Z.land (dr 7) kDr7Slot0EnableMask) 0) as [Hfree|]; [|done].
  cbn [negb] in H. apply bind_on_throw in H.
  destruct (restore_debug_registers tid (disable_slot0 (dr 7)) address (clear_hit0 (dr 6))
              (configured_dr7 (disable_slot0 (dr 7)) enc) s) as [r s1] eqn:E.
  unfold mbind at 1, M_bind at 1 in H. rewrite E in H. destruct r as [[]|e|u|]; [|done..].
  destruct (restore_debug_registers_spec _ _ _ _ _ _ _ Hk E) as (Hd & Hc & Hdr).
  injection H as <- <-. simpl. rewrite Hd.
  do 5 (split; [done|]). split; [done|]. split; [|done].
  destruct Ht as [H1 H2 H3 H4 H5]. split; simpl; rewrite ?Hd; auto. by apply Hc.
Qed.

(** a watchpoint that was added on a free slot watches its address: DR0 holds it,
    the stale hit bit of DR6 is gone, DR7 is configured for the length and no other
    debug register changes; the address is aligned to the length, the slot was free
    and the snapshot remembers the previous values. *)
Theorem add_write_watchpoint_arms s tid address len enc id s' :
  tracee s tid -> watchpoint_length_encoding len = Ok enc ->
  add_write_watchpoint address len s = (Ok id, s') ->
  let dr := k_dr (st_world s) tid in
  let dr' := k_dr (st_world s') tid in
  dr' 0 = address /\ dr' 6 = clear_hit0 (dr 6) /\ dr' 7 = configured_dr7 (disable_slot0 (dr 7)) enc /\
  (forall j, j <> 0 -> j <> 6 -> j <> 7 -> dr' j = dr j) /\
  address mod len = 0 /\ Z.land (dr 7) kDr7Slot0EnableMask = 0 /\
  watchpoints (st_debugger s') = [mkWatchpoint (next_watchpoint_id_ (st_debugger s)) address len] /\
  watchpoint_register_snapshot_ (st_debugger s') = Some (mkSnapshot tid (dr 0) (dr 6) (dr 7)).
Proof.
  intros Ht Henc H dr dr'.
  destruct (add_watchpoint_effect _ _ _ _ _ _ _ Ht Henc H) as (-> & H1 & H2 & H3 & H4 & _ & _ & H5).
  subst dr'. rewrite !H5. unfold drs_written. simpl. do 3 (split; [done|]). split.
  - intros j H6 H7 H8. rewrite H5. unfold drs_written.
    destruct (Z.eqb_spec j 7), (Z.eqb_spec j 6), (Z.eqb_spec j 0); done.
  - do 2 (split; [done|]). split; [|done]. unfold watchpoints. by rewrite H3.
Qed.

(** C9: removing the watchpoint restores DR0, DR6 and DR7 of the thread it was set
    in to what they were before it was added. *)
Theorem watchpoint_round_trip s tid address len enc id s1 s2 :
  tracee s tid -> watchpoint_length_encoding len = Ok enc ->
  add_write_watchpoint address len s = (Ok id, s1) ->
  remove_watchpoint id s1 = (Ok true, s2) ->
  (forall j, 0 <= j < 8 -> k_dr (st_world s2) tid j = k_dr (st_world s) tid j) /\
  watchpoint_ (st_debugger s2) = None /\ watchpoint_register_snapshot_ (st_debugger s2) = None.
Proof.
  intros Ht Henc Hadd Hrem. set (dr := k_dr (st_world s) tid).
  destruct (add_watchpoint_effect _ _ _ _ _ _ _ Ht Henc Hadd) as (_ & _ & _ & Hw & Hsnap & _ & Ht1 & Hdr1).
  fold dr in Hsnap, Hdr1.
  unfold remove_watchpoint in Hrem. rewrite run_get, Hw in Hrem. cbn [wp_id] in Hrem.
  rewrite Z.eqb_refl in Hrem. cbn [negb] in Hrem. autorewrite with mrun in Hrem.
  rewrite bool_decide_false in Hrem by (rewrite (tr_state _ _ Ht1); auto).
  unfold restore_watchpoint_registers in Hrem. rewrite run_assoc, run_get, Hsnap in Hrem.
  cbn [drs_tid drs_dr0 drs_dr6 drs_dr7] in Hrem. rewrite run_assoc in Hrem. autorewrite with mrun in Hrem.
  rewrite bool_decide_false in Hrem by (rewrite (tr_task _ _ Ht1); auto).
  erewrite run_Ok in Hrem by (apply kernel_get_dr; [apply Ht1|lia]).
  unfold mbind at 1, M_bind at 1 in Hrem.
  destruct (restore_debug_registers tid _ (dr 0) (dr 6) (dr 7) s1) as [r s0] eqn:E in Hrem.
  destruct r as [[]|e|u|]; [|done..].
  destruct (restore_debug_registers_spec _ _ _ _ _ _ _ (tr_kernel _ _ Ht1) E) as (Hd & Hc & Hdr).
  injection Hrem as <-. simpl. split; [|done]. intros j Hj. rewrite Hdr. unfold drs_written.
  rewrite Hdr1. unfold drs_written. fold (dr j).
  destruct (Z.eqb_spec j 7) as [E7|], (Z.eqb_spec j 6) as [E6|], (Z.eqb_spec j 0) as [E0|]; by subst.
Qed.
End Watchpoints.

(** ** Witnesses *)

Definition demo_watch_dst : dst (K := SimKernel) :=
  snd (add_write_watchpoint (K := SimKernel) 0x2000 8 demo_dst).

Lemma add_write_watchpoint_arms_witness :
  watchpoints (st_debugger demo_watch_dst) = [mkWatchpoint 1 0x2000 8] /\
  k_dr (K := SimKernel) (KernelLaws := SimKernelLaws) (st_world demo_watch_dst) 100 0 = 0x2000.
Proof.
  destruct (add_write_watchpoint_arms (L := SimKernelLaws) demo_dst 100 0x2000 8 2 1 demo_watch_dst)
    as (H1 & _ & _ & _ & _ & _ & H2 & _).
  - exact demo_dst_tracee.
  - reflexivity.
  - reflexivity.
  - exact (conj H2 H1).
Defined.

Lemma watchpoint_round_trip_witness :
  exists s2, remove_watchpoint (K := SimKernel) 1 demo_watch_dst = (Ok true, s2) /\
    (forall j, 0 <= j < 8 ->
       k_dr (K := SimKernel) (KernelLaws := SimKernelLaws) (st_world s2) 100 j =
       k_dr (K := SimKernel) (KernelLaws := SimKernelLaws) (st_world demo_dst) 100 j).
Proof.
  exists (snd (remove_watchpoint (K := SimKernel) 1 demo_watch_dst)).
  destruct (watchpoint_round_trip (L := SimKernelLaws) demo_dst 100 0x2000 8 2 1 demo_watch_dst
    (snd (remove_watchpoint (K := SimKernel) 1 demo_watch_dst))) as (H1 & _ & _).
  - exact demo_dst_tracee.
  - reflexivity.
  - reflexivity.
  - reflexivity.
  - split; [reflexivity|exact H1].
Defined.
