(* ===== verification/Termination.v ===== *)
(** * The event loop returns

    The loops of the debugger wait for kernel events, so they end when the kernel runs
    out of them.  [FiniteEvents] is a kernel with a finite number of events to report:
    [budget] counts them, only [waitpid] changes the count, and it decreases when
    an event is reported or the call is interrupted.  On such a kernel every call of
    the debugger returns: a bound on the loops above the budget is never reached. *)

From S2P Require Import Prelude Machine SimKernel Process DebuggerState Debugger DebuggerWait Breakpoints.
From S2P Require Ptrace.

Class FiniteEvents (K : Kernel) := {
  budget : world -> nat;
  fe_wait : forall pid w, match k_waitpid pid w with
    | (inr _, w') => (budget w' < budget w)%nat
    | (inl e, w') => if e =? EINTR then (budget w' < budget w)%nat else (budget w' <= budget w)%nat
    end;
  fe_peekdata : forall p a w, (budget (snd (k_peekdata p a w)) <= budget w)%nat;
  fe_pokedata : forall p a v w, (budget (snd (k_pokedata p a v w)) <= budget w)%nat;
  fe_getregs : forall p w, (budget (snd (k_getregs p w)) <= budget w)%nat;
  fe_setregs : forall p r w, (budget (snd (k_setregs p r w)) <= budget w)%nat;
  fe_peekuser : forall p o w, (budget (snd (k_peekuser p o w)) <= budget w)%nat;
  fe_pokeuser : forall p o v w, (budget (snd (k_pokeuser p o v w)) <= budget w)%nat;
  fe_detach : forall p s w, (budget (snd (k_detach p s w)) <= budget w)%nat;
  fe_setoptions : forall p o w, (budget (snd (k_setoptions p o w)) <= budget w)%nat;
  fe_geteventmsg : forall p w, (budget (snd (k_geteventmsg p w)) <= budget w)%nat;
  fe_cont : forall p s w, (budget (snd (k_cont p s w)) <= budget w)%nat;
  fe_singlestep : forall p s w, (budget (snd (k_singlestep p s w)) <= budget w)%nat;
  fe_kill : forall p s w, (budget (snd (k_kill p s w)) <= budget w)%nat
}.

(** The undefined behaviour a computation is allowed to run into; [nothing] for code that
    has none. *)
Class Allowed := allowed : string -> Prop.
Definition nothing : Allowed := fun _ => False.

(** ** Computations that return on a kernel with fewer than [n] events *)

Section Bounded.
Context `{K : Kernel} `{F : !FiniteEvents K} `{U : Allowed}.
Context {S : Type} (wd : S -> world).

(** [m] returns a value or throws, having used [used] events at least when it returns a value;
    undefined behaviour only as far as it is allowed. *)
Definition consumes {A} (n used : nat) (m : M S A) : Prop := forall s,
  (budget (wd s) < n)%nat ->
  match m s with
  | (Ok _, s') => (budget (wd s') + used <= budget (wd s))%nat
  | (Throw _, s') => (budget (wd s') <= budget (wd s))%nat
  | (Undef what, _) => allowed what
  | (OutOfFuel, _) => False
  end.

Definition returns {A} (n : nat) (m : M S A) : Prop := consumes n 0 m.

Lemma consumes_returns {A} n u (m : M S A) : consumes n u m -> returns n m.
Proof. intros H s Hs. specialize (H s Hs). destruct (m s) as [[]]; lia || done. Qed.

Lemma returns_bind {A B} n (m : M S A) (f : A -> M S B) :
  returns n m -> (forall a, returns n (f a)) -> returns n (m ≫= f).
Proof.
  intros Hm Hf s Hs. specialize (Hm s Hs). unfold mbind, M_bind.
  destruct (m s) as [[a|e|u|] s1]; try done.
  specialize (Hf a s1 ltac:(lia)). destruct (f a s1) as [[]]; lia || done.
Qed.

Lemma consumes_bind_l {A B} n u (m : M S A) (f : A -> M S B) :
  consumes n u m -> (forall a, returns n (f a)) -> consumes n u (m ≫= f).
Proof.
  intros Hm Hf s Hs. specialize (Hm s Hs). unfold mbind, M_bind.
  destruct (m s) as [[a|e|w|] s1]; try done.
  specialize (Hf a s1 ltac:(lia)). destruct (f a s1) as [[]]; lia || done.
Qed.

(** The continuation runs on a smaller budget. *)
Lemma returns_bind_step {A B} n (m : M S A) (f : A -> M S B) :
  consumes (Datatypes.S n) 1 m -> (forall a, returns n (f a)) -> returns (Datatypes.S n) (m ≫= f).
Proof.
  intros Hm Hf s Hs. specialize (Hm s Hs). unfold mbind, M_bind.
  destruct (m s) as [[a|e|w|] s1]; try done.
  specialize (Hf a s1 ltac:(lia)). destruct (f a s1) as [[]]; lia || done.
Qed.

Lemma returns_catch {A} n (m : M S A) h :
  returns n m -> (forall e, returns n (h e)) -> returns n (mcatch m h).
Proof.
  intros Hm Hh s Hs. specialize (Hm s Hs). unfold mcatch.
  destruct (m s) as [[a|e|u|] s1]; try done.
  specialize (Hh e s1 ltac:(lia)). destruct (h e s1) as [[]]; lia || done.
Qed.

Lemma returns_mfor {A} n (l : list A) (f : A -> M S unit) :
  (forall x, returns n (f x)) -> returns n (mfor l f).
Proof.
  intros Hf. induction l; simpl; [intros s Hs; simpl; lia|]. by apply returns_bind.
Qed.

Lemma returns_mwhen n b (m : M S unit) : returns n m -> returns n (mwhen b m).
Proof. destruct b; simpl; [done|]. intros _ s Hs. simpl. lia. Qed.

(** An outcome that is a value, an exception or allowed. *)
Definition admissible {A} (r : res A) : Prop :=
  match r with Undef what => allowed what | OutOfFuel => False | _ => True end.

Lemma settles_admissible {A} (r : res A) : settles r -> admissible r.
Proof. by destruct r. Qed.
Lemma admissible_bind {A B} (r : res A) (f : A -> res B) :
  admissible r -> (forall a, admissible (f a)) -> admissible (r ≫= f).
Proof. by destruct r; simpl; auto. Qed.

Lemma returns_same {A} n (m : M S A) :
  (forall s, wd (snd (m s)) = wd s) -> (forall s, admissible (fst (m s))) -> returns n m.
Proof.
  intros Hw Ho s Hs. specialize (Hw s). specialize (Ho s). destruct (m s) as [[]]; simpl in *; rewrite ?Hw; done || lia.
Qed.

Lemma returns_ret {A} n (a : A) : returns n (mret a : M S A).
Proof. by apply returns_same. Qed.
Lemma returns_gets {A} n (f : S -> A) : returns n (gets f).
Proof. by apply returns_same. Qed.
Lemma returns_lift {A} n (r : res A) : admissible r -> returns n (lift r).
Proof. intros Hr. by apply returns_same. Qed.
Lemma returns_mthrow {A} n c msg : returns n (mthrow c msg : M S A).
Proof. by apply returns_same. Qed.
Lemma returns_mskip n : returns n mskip.
Proof. by apply returns_same. Qed.
Lemma returns_mthrow_if n b c msg : returns n (mthrow_if b c msg).
Proof. by destruct b; apply returns_same. Qed.
End Bounded.

Create HintDb mret discriminated.
#[export] Hint Resolve returns_ret returns_gets returns_mthrow returns_mskip returns_mthrow_if : mret.

Ltac returns_step :=
  lazymatch goal with
  | |- forall _, _ => intro
  | |- returns _ _ (mbind _ _) => apply returns_bind
  | |- returns _ _ (mcatch _ _) => apply returns_catch
  | |- returns _ _ (mon_throw _ _) => apply returns_catch
  | |- returns _ _ (mtry _) => apply returns_catch
  | |- returns _ _ (mwhen _ _) => apply returns_mwhen
  | |- returns _ _ (mfor _ _) => apply returns_mfor
  | |- returns _ _ (lift (Throw _)) => by apply returns_lift
  | |- returns _ _ (let _ := _ in _) => cbv zeta
  | |- returns _ _ (match ?x with _ => _ end) => destruct x
  end.
Ltac returns_auto := repeat (solve [eauto with mret] || returns_step).

(** ** The requests and the process methods *)

Section Process.
Context `{K : Kernel} `{F : !FiniteEvents K} `{U : Allowed}.

Notation wreturns := (returns (fun w : world => w)).
Notation preturns := (returns (fun s : pst => s.2)).

Lemma returns_sys {A} n op (k : world -> (Z + A) * world) :
  (forall w, (budget (snd (k w)) <= budget w)%nat) -> wreturns n (Ptrace.sys op k).
Proof.
  intros H w Hw. unfold Ptrace.sys. specialize (H w).
  destruct (k w) as [[e|a] w']; simpl in *; lia.
Qed.

Lemma returns_peek n p a : wreturns n (Ptrace.peek_word p a).
Proof. apply returns_sys, fe_peekdata. Qed.
Lemma returns_poke n p a v : wreturns n (Ptrace.poke_word p a v).
Proof. apply returns_sys, fe_pokedata. Qed.
Lemma returns_getregs n p : wreturns n (Ptrace.get_registers p).
Proof. apply returns_sys, fe_getregs. Qed.
Lemma returns_setregs n p r : wreturns n (Ptrace.set_registers p r).
Proof. apply returns_sys, fe_setregs. Qed.
Lemma returns_detach n p s : wreturns n (Ptrace.detach p s).
Proof. apply returns_sys, fe_detach. Qed.
Lemma returns_setoptions n p o : wreturns n (Ptrace.set_options p o).
Proof. apply returns_sys, fe_setoptions. Qed.
Lemma returns_geteventmsg n p : wreturns n (Ptrace.get_event_message p).
Proof. apply returns_sys, fe_geteventmsg. Qed.
Lemma returns_cont n p s : wreturns n (Ptrace.continue_process p s).
Proof. apply returns_sys, fe_cont. Qed.
Lemma returns_singlestep n p s : wreturns n (Ptrace.single_step p s).
Proof. apply returns_sys, fe_singlestep. Qed.
Lemma returns_offset n i : wreturns n (lift (Ptrace.debug_register_offset i)).
Proof. apply returns_lift. unfold Ptrace.debug_register_offset. by destruct (8 <=? i). Qed.
Lemma returns_get_dr n p i : wreturns n (Ptrace.get_debug_register p i).
Proof. apply returns_bind; [apply returns_offset|intros o]. apply returns_sys, fe_peekuser. Qed.
Lemma returns_set_dr n p i v : wreturns n (Ptrace.set_debug_register p i v).
Proof. apply returns_bind; [apply returns_offset|intros o]. apply returns_sys. intros w. apply fe_pokeuser. Qed.
Lemma returns_write_byte n p a v : wreturns n (Ptrace.write_byte p a v).
Proof. apply returns_bind; [apply returns_peek|intros w]. apply returns_poke. Qed.

Lemma waitpid_retry_returns n pid w :
  (budget w < n)%nat ->
  match waitpid_retry n pid w with
  | (Ok (inr _), w') => (budget w' < budget w)%nat
  | (Ok (inl _), w') => (budget w' <= budget w)%nat
  | _ => False
  end.
Proof.
  revert w. induction n as [|n IH]; intros w Hn; [lia|]. simpl.
  pose proof (fe_wait pid w) as H. destruct (k_waitpid pid w) as [[e|r] w']; [|done].
  destruct (e =? EINTR); [|done]. specialize (IH w' ltac:(lia)).
  destruct (waitpid_retry n pid w') as [[[]| | |]]; lia.
Qed.

Lemma returns_waitpid n pid : wreturns n (waitpid_retry n pid).
Proof.
  intros w Hw. pose proof (waitpid_retry_returns n pid w Hw).
  destruct (waitpid_retry n pid w) as [[[]| | |]]; lia.
Qed.

Lemma returns_on_world {A} n (m : M world A) : wreturns n m -> preturns n (on_world m).
Proof.
  intros Hm [p w] Hw. specialize (Hm w Hw). unfold on_world, zoom. simpl.
  by destruct (m w) as [[]].
Qed.

Lemma returns_upd_process n f : preturns n (upd_process f).
Proof. by apply returns_same. Qed.
Lemma returns_get_process n : preturns n get_process.
Proof. by apply returns_same. Qed.

Hint Resolve returns_on_world returns_upd_process returns_get_process returns_detach
  returns_geteventmsg returns_waitpid : mret.

Lemma returns_task_stopped n result status : preturns n (task_stopped result status).
Proof. unfold task_stopped. returns_auto. Qed.

(** A wait that succeeds has used an event. *)
Lemma wait_for_consumes n tid : consumes (fun s : pst => s.2) n 1 (wait_for n tid).
Proof.
  intros [p w] Hw. simpl in Hw. pose proof (waitpid_retry_returns n tid w Hw) as H.
  unfold wait_for. unfold mbind at 1, M_bind at 1, on_world, zoom. cbn [fst snd].
  destruct (waitpid_retry n tid w) as [[[e|[result status]]| | |] w1]; try done.
  lazymatch goal with |- match ?f ?x with _ => _ end =>
    assert (Hr : preturns n f) by (pose proof returns_task_stopped; returns_auto);
    specialize (Hr x); cbn [fst snd] in Hr; specialize (Hr ltac:(lia));
    destruct (f x) as [[] [q w2]]; simpl in *; lia || done
  end.
Qed.

Lemma wait_consumes n : consumes (fun s : pst => s.2) n 1 (wait n).
Proof. apply wait_for_consumes. Qed.

Lemma wait_current_consumes n : consumes (fun s : pst => s.2) n 1 (wait_current n).
Proof.
  intros s Hs. unfold wait_current, get_process. mrun.
  destruct (_ <=? 0); [simpl; lia|]. by apply wait_for_consumes.
Qed.

Lemma returns_detach_loop n t sig l e : preturns n (detach_loop t sig l e).
Proof.
  revert e. induction l as [|x l IH]; intros e; simpl; [auto with mret|].
  apply returns_bind; [|auto]. unfold erase_task. returns_auto.
Qed.

Lemma returns_process_detach n sig : preturns n (Process.detach sig).
Proof. pose proof returns_detach_loop. unfold Process.detach. returns_auto. Qed.

Lemma returns_reap n k : (k <= n)%nat -> forall s : pst, (budget s.2 < k)%nat ->
  match reap_loop n k s with
  | (OutOfFuel, _) | (Undef _, _) => False
  | (_, s') => (budget s'.2 <= budget s.2)%nat
  end.
Proof.
  intros Hk. induction k as [|k IH]; intros [p w] Hw; simpl in *; [lia|].
  pose proof (waitpid_retry_returns n (-1) w ltac:(lia)) as H.
  unfold mbind at 1, M_bind at 1, on_world, zoom. cbn [fst snd].
  destruct (waitpid_retry n (-1) w) as [[[e|[result status]]| | |] w1]; try done.
  unfold erase_task, upd_process. mrun. cbn [fst snd].
  specialize (IH ltac:(lia) (set_tasks (delete result (task_states_ p)) p, w1)). simpl in IH.
  specialize (IH ltac:(lia)). destruct (reap_loop n k _) as [[]]; done || lia.
Qed.

Lemma returns_cleanup n : preturns n (cleanup n).
Proof.
  unfold cleanup, erase_task. pose proof returns_process_detach.
  apply returns_bind; [auto with mret|intros p]. destruct (_ || _); [auto with mret|].
  case_bool_decide; [returns_auto|]. apply returns_bind.
  - intros [q w] Hw. simpl in *. pose proof (fe_kill (pid_ p) SIGKILL w). lia.
  - intros _. apply returns_bind; [|auto with mret]. intros s Hs.
    pose proof (returns_reap n n ltac:(lia) s Hs) as Hr. destruct (reap_loop n n s) as [[]]; done || lia.
Qed.

Lemma returns_destroy n p : wreturns n (destroy_process n p).
Proof.
  intros w Hw. unfold destroy_process. pose proof (returns_cleanup n (p, w) Hw) as H.
  destruct (cleanup n (p, w)) as [[] [q w']]; simpl in *; lia || done.
Qed.
End Process.

(** ** The debugger *)

Section Debugger.
Context `{K : Kernel} `{F : !FiniteEvents K} `{U : Allowed}.
Variable n : nat.

Notation dreturns := (returns st_world).

Lemma returns_kernel {A} k (m : M world A) :
  returns (fun w : world => w) k m -> dreturns k (kernel m).
Proof.
  intros Hm s Hs. specialize (Hm (st_world s) Hs). unfold kernel, zoom.
  by destruct (m (st_world s)) as [[]].
Qed.
Lemma consumes_on_process {A} k u (m : M pst A) :
  consumes (fun s : pst => s.2) k u m -> consumes st_world k u (on_process m).
Proof.
  intros Hm s Hs. specialize (Hm (process_ (st_debugger s), st_world s) Hs).
  unfold on_process, zoom. by destruct (m _) as [[] [p w]].
Qed.
Lemma returns_get_debugger k : dreturns k get_debugger.
Proof. by apply returns_same. Qed.
Lemma returns_upd k f : dreturns k (upd f).
Proof. by apply returns_same. Qed.
Lemma returns_upd_debugger k f : dreturns k (upd_debugger f).
Proof. by apply returns_same. Qed.
Lemma returns_counter k r v t : dreturns k (counter (make_stop r v t)).
Proof. by apply returns_same. Qed.
Lemma returns_kill k pid : dreturns k (kill_process pid).
Proof. intros s Hs. simpl. pose proof (fe_kill pid SIGKILL (st_world s)). lia. Qed.
Lemma returns_executable k pid : dreturns k (kernel (process_executable pid)).
Proof. apply returns_kernel, returns_same; intros w; unfold process_executable; by destruct (k_exe pid w). Qed.
Lemma returns_mark k tid : dreturns k (on_process (upd_process (mark_running_tid tid))).
Proof. apply consumes_on_process, returns_upd_process. Qed.
Lemma returns_adopt k pid origin : dreturns k (lift (adopt_stopped pid origin)).
Proof. apply returns_lift. unfold adopt_stopped. by destruct (pid <=? 0). Qed.
Lemma returns_collapse k tid : dreturns k (on_process (collapse_after_exec tid)).
Proof.
  apply consumes_on_process. unfold collapse_after_exec. apply returns_bind; [auto with mret|].
  intros _. apply returns_upd_process.
Qed.
Lemma returns_adopt_stopped k pid : dreturns k (on_process (adopt_stopped_process pid)).
Proof.
  apply consumes_on_process. unfold adopt_stopped_process. apply returns_bind; [auto with mret|].
  intros _. apply returns_upd_process.
Qed.
Lemma returns_wait : dreturns n (on_process (wait n)).
Proof. apply consumes_on_process, (consumes_returns _ _ 1), wait_consumes. Qed.

Hint Resolve returns_kernel returns_get_debugger returns_upd returns_upd_debugger returns_counter
  returns_kill returns_executable returns_mark returns_adopt returns_collapse returns_adopt_stopped
  returns_wait returns_getregs returns_setregs returns_detach returns_setoptions returns_geteventmsg
  returns_cont returns_singlestep returns_get_dr returns_set_dr returns_write_byte returns_destroy : mret.

Lemma returns_stopped_tid k : dreturns k stopped_tid.
Proof. unfold stopped_tid. returns_auto. Qed.
Lemma returns_restore_debug_registers k t a b c d : dreturns k (restore_debug_registers t a b c d).
Proof. unfold restore_debug_registers. returns_auto. Qed.
Hint Resolve returns_stopped_tid returns_restore_debug_registers : mret.
Lemma returns_restore_watchpoint_registers k : dreturns k restore_watchpoint_registers.
Proof. unfold restore_watchpoint_registers. returns_auto. Qed.
Lemma returns_finish k r v t f : dreturns k (finish_stop r v t f).
Proof. unfold finish_stop. returns_auto. Qed.
Hint Resolve returns_restore_watchpoint_registers returns_finish : mret.

Lemma returns_swap pid : dreturns n (swap_active_process n pid).
Proof. unfold swap_active_process. returns_auto. Qed.
Hint Resolve returns_swap : mret.

Lemma returns_task_gone r1 r2 r3 event : dreturns n (task_gone n r1 r2 r3 event).
Proof. unfold task_gone, discard_breakpoint_register_snapshots. returns_auto. Qed.
Lemma returns_handle_exec event : dreturns n (handle_exec event).
Proof. unfold handle_exec, discard_image_state. returns_auto. Qed.

Lemma returns_initial_stop child : returns (fun w : world => w) n (wait_for_unfollowed_child_stop n child).
Proof. unfold wait_for_unfollowed_child_stop. pose proof returns_waitpid. returns_auto. Qed.

Lemma transient_child_consumes child :
  consumes (fun w : world => w) n 1 (wait_for_transient_child n child).
Proof.
  intros w Hw. pose proof (waitpid_retry_returns n child w Hw) as H.
  unfold wait_for_transient_child, mbind, M_bind.
  destruct (waitpid_retry n child w) as [[[e|[result status]]| | |] w1]; try done.
  unfold mthrow_if. destruct (negb _); simpl; lia.
Qed.

Lemma returns_follow_vfork_child k child : (k <= n)%nat -> dreturns k (follow_vfork_child n k child).
Proof.
  induction k as [|k IH]; intros Hk; [intros s Hs; lia|]. cbn [follow_vfork_child].
  apply returns_bind_step.
  - intros s Hs. pose proof (transient_child_consumes child (st_world s) ltac:(lia)) as H.
    unfold kernel, zoom. by destruct (wait_for_transient_child n child (st_world s)) as [[]].
  - intros status. specialize (IH ltac:(lia)). returns_auto.
Qed.

Lemma returns_follow child : dreturns n (follow_vfork_child n n child).
Proof. by apply returns_follow_vfork_child. Qed.

Hint Resolve returns_initial_stop returns_follow : mret.

Lemma returns_kill_child k child : dreturns k (kill_child child).
Proof. unfold kill_child. returns_auto. Qed.
Lemma returns_refuse k b child c msg : dreturns k (refuse_child_if b child c msg).
Proof. unfold refuse_child_if. pose proof returns_kill_child. returns_auto. Qed.
Lemma returns_clear_child k child tid : dreturns k (clear_child_watchpoint child tid).
Proof. unfold clear_child_watchpoint. returns_auto. Qed.
Lemma returns_arm_child k tid child : dreturns k (arm_child_watchpoint tid child).
Proof. unfold arm_child_watchpoint. returns_auto. Qed.
Lemma returns_restore_bytes k tid : dreturns k (restore_bytes_in tid).
Proof. unfold restore_bytes_in. returns_auto. Qed.
Lemma returns_fork_child what event : dreturns n (fork_child n what event).
Proof. unfold fork_child. returns_auto. Qed.
Hint Resolve returns_kill_child returns_refuse returns_clear_child returns_arm_child
  returns_restore_bytes returns_fork_child : mret.

Lemma returns_handle_vfork event : dreturns n (handle_vfork n event).
Proof. unfold handle_vfork. returns_auto. Qed.
Lemma returns_retain_child event child : dreturns n (retain_child n event child).
Proof. unfold retain_child, inherit_watchpoint, register_child. returns_auto. Qed.
Hint Resolve returns_retain_child : mret.
Lemma returns_handle_fork event : dreturns n (handle_fork n event).
Proof. unfold handle_fork, handle_fork_both, handle_fork_child, handle_fork_parent. returns_auto. Qed.
Lemma returns_handle_clone event : dreturns n (handle_clone event).
Proof. unfold handle_clone. returns_auto. Qed.
Lemma returns_handle_stop b event : dreturns n (handle_stop b event).
Proof.
  unfold handle_stop, handle_trap, prepare_breakpoint_hit, mark_installed, classify_watchpoint_stop.
  returns_auto.
Qed.

Lemma returns_classify b event : dreturns n (classify_event n b event).
Proof.
  unfold classify_event, handle_exited, handle_signaled.
  repeat case_match; auto using returns_task_gone, returns_handle_exec, returns_handle_vfork,
    returns_handle_fork, returns_handle_clone, returns_handle_stop, @returns_mthrow.
Qed.

Lemma wait_active_consumes : consumes st_world n 1 (wait_active_process n).
Proof.
  intros s Hs. unfold wait_active_process, get_debugger. mrun.
  destruct (negb _).
  - by apply (consumes_on_process n 1 _ (wait_current_consumes n)).
  - by apply (consumes_on_process n 1 _ (wait_consumes n)).
Qed.
End Debugger.

(** The turns of the loop: [k] of them on a budget below [k], each call inside with
    the larger bound [n]. *)
Section Loop.
Context `{K : Kernel} `{F : !FiniteEvents K} `{U : Allowed}.

Lemma consumes_le {S A} (wd : S -> world) n m u (c : M S A) :
  (m <= n)%nat -> consumes wd n u c -> consumes wd m u c.
Proof. intros Hm H s Hs. apply H. lia. Qed.

Lemma loop_returns n k b : (k <= n)%nat -> returns st_world k (wait_and_classify n k b).
Proof.
  induction k as [|k IH]; intros Hk; [intros s Hs; lia|]. cbn [wait_and_classify].
  apply returns_bind_step; [apply (consumes_le _ n); [done|apply wait_active_consumes]|].
  intros event. apply returns_bind.
  - apply (consumes_le _ n); [lia|]. apply returns_classify.
  - intros [info|]; [auto with mret|]. apply IH. lia.
Qed.
End Loop.

(** ** What a stop reports *)

Section Reports.
Context `{K : Kernel}.
Variable n : nat.

(** The end of a task: of the process, of the last process, of a thread; nothing while the
    other threads run. *)
Definition end_reason (signaled : bool) (d : debugger) : option StopReason :=
  if bool_decide (tids (process_ d) = []) then
    Some (match first_stopped_retained_process d with
          | Some _ => if signaled then ProcessSignaled else ProcessExited
          | None => if signaled then SignaledStop else ExitedStop
          end)
  else if bool_decide (state_ (process_ d) = Stopped) then Some (if signaled then ThreadSignaled else ThreadExited)
  else None.

(** A stop with this reason, value and task. *)
Definition says (reason : StopReason) (value tid : Z) (stop : StopInfo) : Prop :=
  si_reason stop = reason /\ si_value stop = value /\ si_tid stop = tid.

(** The hit of the watchpoint is looked for, and there is none. *)
Definition no_hit (s s1 : dst) (tid : Z) : Prop := classify_watchpoint_stop tid s = (Ok None, s1).

(** A stop that is no ptrace event, and no thread start. *)
Definition signal_stop (event : WaitEvent) : Prop :=
  ev_kind event = KStopped /\
  ev_ptrace_event event ∉ [PTRACE_EVENT_EXEC; PTRACE_EVENT_VFORK; PTRACE_EVENT_VFORK_DONE; PTRACE_EVENT_FORK; PTRACE_EVENT_CLONE].
Definition plain_stop (event : WaitEvent) (s : dst) : Prop :=
  signal_stop event /\ ev_tid event ∉ pending_thread_starts_ (st_debugger s).

(** What an event waited for in the state [s] is reported as; [None]: not at all. *)
Inductive event_report (expected_single_step : bool) (event : WaitEvent) (s : dst) : option StopInfo -> Prop :=
  | report_end reason stop :
      ev_kind event <> KStopped -> end_reason (bool_decide (ev_kind event = KSignaled)) (st_debugger s) = Some reason ->
      says reason (ev_value event) (ev_tid event) stop -> event_report expected_single_step event s (Some stop)
  | report_no_end :
      ev_kind event <> KStopped -> end_reason (bool_decide (ev_kind event = KSignaled)) (st_debugger s) = None ->
      event_report expected_single_step event s None
  | report_exec stop :
      ev_kind event = KStopped -> ev_ptrace_event event = PTRACE_EVENT_EXEC ->
      says ExecStop SIGTRAP (ev_tid event) stop -> event_report expected_single_step event s (Some stop)
  | report_vfork stop child :
      ev_kind event = KStopped -> ev_ptrace_event event = PTRACE_EVENT_VFORK ->
      says TrapStop SIGTRAP (ev_tid event) stop -> si_process_event stop = VforkEvent -> si_child_pid stop = Some child ->
      fst (Ptrace.get_event_message (ev_tid event) (st_world s)) = Ok child ->
      event_report expected_single_step event s (Some stop)
  | report_fork stop child :
      ev_kind event = KStopped -> ev_ptrace_event event = PTRACE_EVENT_FORK ->
      fst (Ptrace.get_event_message (ev_tid event) (st_world s)) = Ok child ->
      says TrapStop SIGTRAP (if bool_decide (fork_follow_policy_ (st_debugger s) = FollowChild) then child else ev_tid event) stop ->
      si_process_event stop = ForkEvent -> si_child_pid stop = Some child ->
      si_parent_pid stop = Some (pid_ (process_ (st_debugger s))) ->
      si_retains_child stop = bool_decide (fork_follow_policy_ (st_debugger s) = FollowBoth) ->
      event_report expected_single_step event s (Some stop)
  | report_clone :
      ev_kind event = KStopped -> ev_ptrace_event event = PTRACE_EVENT_CLONE ->
      event_report expected_single_step event s None
  | report_start stop :
      signal_stop event -> ev_tid event ∈ pending_thread_starts_ (st_debugger s) ->
      says ThreadCreated (ev_value event) (ev_tid event) stop -> si_new_tid stop = Some (ev_tid event) ->
      event_report expected_single_step event s (Some stop)
  | report_signal stop :
      plain_stop event s -> ev_value event <> SIGTRAP -> says SignalStop (ev_value event) (ev_tid event) stop ->
      event_report expected_single_step event s (Some stop)
  | report_watchpoint stop watchpoint snapshot dr6 :
      plain_stop event s -> ev_value event = SIGTRAP ->
      watchpoint_ (st_debugger s) = Some watchpoint -> watchpoint_register_snapshot_ (st_debugger s) = Some snapshot ->
      drs_tid snapshot = ev_tid event -> fst (Ptrace.get_debug_register (ev_tid event) 6 (st_world s)) = Ok dr6 ->
      Z.land dr6 kDr6Breakpoint0 <> 0 ->
      says WatchpointStop SIGTRAP (ev_tid event) stop -> si_watchpoint_id stop = Some (wp_id watchpoint) ->
      si_watchpoint_address stop = Some (wp_address watchpoint) -> event_report expected_single_step event s (Some stop)
  | report_step stop s1 :
      plain_stop event s -> ev_value event = SIGTRAP -> no_hit s s1 (ev_tid event) -> expected_single_step = true ->
      says SingleStep SIGTRAP (ev_tid event) stop -> event_report expected_single_step event s (Some stop)
  | report_breakpoint stop s1 regs bp :
      plain_stop event s -> ev_value event = SIGTRAP -> no_hit s s1 (ev_tid event) -> expected_single_step = false ->
      fst (Ptrace.get_registers (ev_tid event) (st_world s1)) = Ok regs -> 0 < rip regs ->
      breakpoints_by_address_ (st_debugger s) !! (rip regs - 1) = Some bp -> bp_installed bp = true ->
      says BreakpointStop SIGTRAP (ev_tid event) stop -> si_breakpoint_address stop = Some (rip regs - 1) ->
      event_report expected_single_step event s (Some stop)
  | report_trap stop s1 regs :
      plain_stop event s -> ev_value event = SIGTRAP -> no_hit s s1 (ev_tid event) -> expected_single_step = false ->
      fst (Ptrace.get_registers (ev_tid event) (st_world s1)) = Ok regs ->
      (0 < rip regs -> forall bp, breakpoints_by_address_ (st_debugger s) !! (rip regs - 1) = Some bp -> bp_installed bp = false) ->
      says TrapStop SIGTRAP (ev_tid event) stop -> si_breakpoint_address stop = None ->
      event_report expected_single_step event s (Some stop).

(** The stop that is returned is the one the debugger then is at. *)
Definition recorded (o : option StopInfo) (s' : dst) : Prop :=
  forall stop, o = Some stop -> stop_info_ (st_debugger s') = stop.

Lemma finish_stop_Ok reason value tid refine s o s' :
  finish_stop reason value tid refine s = (Ok o, s') ->
  exists k, let stop := refine (mkStopInfo reason value None None None tid None None NoEvent None None false k) in
    o = Some stop /\ stop_info_ (st_debugger s') = stop.
Proof. intros [= <- <-]. eexists. split; reflexivity. Qed.

(** Runs past everything but the last call. *)
Ltac past E := repeat lazymatch type of E with mbind _ _ _ = _ => apply bind_M_Ok in E as (? & ? & _ & E) end.
Ltac finished H := apply finish_stop_Ok in H as (? & -> & ?).

Lemma recorded_Some stop s' : stop_info_ (st_debugger s') = stop -> recorded (Some stop) s'.
Proof. by intros ? ? [= <-]. Qed.

Lemma kernel_Ok {A} (m : M world A) s a s' :
  kernel m s = (Ok a, s') -> m (st_world s) = (Ok a, st_world s') /\ st_debugger s' = st_debugger s.
Proof. unfold kernel, zoom. destruct (m (st_world s)) as [r w] eqn:E. by intros [= -> <-]. Qed.

Lemma on_throw_Ok {S A} (m : M S A) cleanup s a s' : mon_throw m cleanup s = (Ok a, s') -> m s = (Ok a, s').
Proof.
  unfold mon_throw, mcatch. destruct (m s) as [[b|e|w|] s1]; try done.
  by intros (? & ? & _ & [=])%bind_M_Ok.
Qed.

Lemma throw_if_run_Ok {S} b c msg (s : S) u s' : mthrow_if b c msg s = (Ok u, s') -> b = false /\ s' = s.
Proof. by destruct b; intros [= <-]. Qed.

Lemma task_gone_reports r1 r2 r3 event s o s' :
  task_gone n r1 r2 r3 event s = (Ok o, s') ->
  recorded o s' /\
  match (if bool_decide (tids (process_ (st_debugger s)) = []) then
           Some (if first_stopped_retained_process (st_debugger s) then r1 else r2)
         else if bool_decide (state_ (process_ (st_debugger s)) = Stopped) then Some r3 else None) with
  | Some reason => exists stop, o = Some stop /\ says reason (ev_value event) (ev_tid event) stop
  | None => o = None
  end.
Proof.
  unfold task_gone, discard_breakpoint_register_snapshots. rewrite !run_upd, run_get. cbn [st_debugger].
  intros E. apply bind_M_Ok in E as ([] & s1 & E1 & E). rewrite run_get in E.
  assert (Hd : process_ (st_debugger s1) = process_ (st_debugger s) /\
    first_stopped_retained_process (st_debugger s1) = first_stopped_retained_process (st_debugger s)).
  { unfold mwhen in E1. destruct (match watchpoint_register_snapshot_ _ with Some _ => _ | None => _ end); by injection E1 as <-. }
  destruct Hd as [Hp Hf]. rewrite Hp, Hf in E. case_bool_decide.
  - destruct (first_stopped_retained_process (st_debugger s)) as [survivor|].
    + unfold mbind at 1, M_bind at 1 in E. cbn [counter zoom make_stop next_stop_sequence] in E.
      apply bind_M_Ok in E as ([] & s2 & E2 & E). apply bind_M_Ok in E as ([] & s3 & _ & E).
      rewrite run_get in E. apply bind_M_Ok in E as ([] & s4 & _ & E). rewrite run_upd in E. injection E as <- <-.
      split; [by apply recorded_Some|]. by eexists.
    + finished E. split; [by apply recorded_Some|]. by eexists.
  - destruct (decide (state_ (process_ (st_debugger s)) = Stopped)) as [Hs|Hs].
    + rewrite bool_decide_false in E by auto. rewrite bool_decide_true by done. finished E.
      split; [by apply recorded_Some|]. by eexists.
    + rewrite bool_decide_true in E by done. rewrite bool_decide_false by done. by injection E as <- <-.
Qed.

Lemma fork_child_Ok what event s child s' :
  fork_child n what event s = (Ok child, s') ->
  fst (Ptrace.get_event_message (ev_tid event) (st_world s)) = Ok child /\ st_debugger s' = st_debugger s.
Proof.
  unfold fork_child. intros (c & s1 & [E1 D1]%kernel_Ok & E)%bind_M_Ok.
  apply bind_M_Ok in E as ([] & s2 & [_ ->]%throw_if_run_Ok & E).
  apply bind_M_Ok in E as ([] & s3 & [_ D3]%kernel_Ok & E). injection E as <- <-.
  rewrite E1. split; [done|]. congruence.
Qed.

Lemma refuse_child_Ok b child c msg s u s' : refuse_child_if b child c msg s = (Ok u, s') -> b = false /\ s' = s.
Proof. unfold refuse_child_if. destruct b; simpl; [|by intros [= _ <-]]. by intros ([] & ? & _ & [=])%bind_M_Ok. Qed.

Lemma handle_exec_reports event s o s' :
  handle_exec event s = (Ok o, s') ->
  recorded o s' /\ exists stop, o = Some stop /\ says ExecStop SIGTRAP (ev_tid event) stop.
Proof.
  unfold handle_exec. intros E. past E.
  finished E. split; [by apply recorded_Some|]. by eexists.
Qed.

Lemma handle_vfork_reports event s o s' :
  handle_vfork n event s = (Ok o, s') ->
  recorded o s' /\ exists stop child, o = Some stop /\ says TrapStop SIGTRAP (ev_tid event) stop /\
    si_process_event stop = VforkEvent /\ si_child_pid stop = Some child /\
    fst (Ptrace.get_event_message (ev_tid event) (st_world s)) = Ok child.
Proof.
  unfold handle_vfork. intros (child & s1 & [Hm _]%fork_child_Ok & E)%bind_M_Ok.
  past E.
  finished E. split; [by apply recorded_Some|]. by eexists _, child.
Qed.

Lemma handle_fork_reports event s o s' :
  handle_fork n event s = (Ok o, s') ->
  recorded o s' /\ exists stop child, o = Some stop /\
    fst (Ptrace.get_event_message (ev_tid event) (st_world s)) = Ok child /\
    says TrapStop SIGTRAP (if bool_decide (fork_follow_policy_ (st_debugger s) = FollowChild) then child else ev_tid event) stop /\
    si_process_event stop = ForkEvent /\ si_child_pid stop = Some child /\
    si_parent_pid stop = Some (pid_ (process_ (st_debugger s))) /\
    si_retains_child stop = bool_decide (fork_follow_policy_ (st_debugger s) = FollowBoth).
Proof.
  unfold handle_fork. intros (child & s1 & [Hm Hd]%fork_child_Ok & E)%bind_M_Ok. rewrite run_get, Hd in E.
  unfold handle_fork_parent, handle_fork_child, handle_fork_both in E. cbv zeta in E.
  destruct (fork_follow_policy_ (st_debugger s)) eqn:Ep;
    past E; finished E;
    (split; [by apply recorded_Some|]; by eexists _, child).
Qed.

Lemma classify_watchpoint_reports tid s o s' :
  classify_watchpoint_stop tid s = (Ok o, s') ->
  match o with
  | None => st_debugger s' = st_debugger s
  | Some stop => exists w snapshot dr6,
      watchpoint_ (st_debugger s) = Some w /\ watchpoint_register_snapshot_ (st_debugger s) = Some snapshot /\
      drs_tid snapshot = tid /\ fst (Ptrace.get_debug_register tid 6 (st_world s)) = Ok dr6 /\
      Z.land dr6 kDr6Breakpoint0 <> 0 /\ says WatchpointStop SIGTRAP tid stop /\
      si_watchpoint_id stop = Some (wp_id w) /\ si_watchpoint_address stop = Some (wp_address w)
  end.
Proof.
  unfold classify_watchpoint_stop. rewrite run_get.
  destruct (watchpoint_ (st_debugger s)) as [w|]; [|by intros [= <- <-]].
  destruct (watchpoint_register_snapshot_ (st_debugger s)) as [snapshot|]; [|by intros [= <- <-]].
  destruct (Z.eqb_spec (drs_tid snapshot) tid); [|by intros [= <- <-]]. cbn [negb].
  intros (dr6 & s1 & [E1 D1]%kernel_Ok & E)%bind_M_Ok.
  destruct (Z.eqb_spec (Z.land dr6 kDr6Breakpoint0) 0); [by injection E as <- <-|].
  apply bind_M_Ok in E as ([] & s2 & _ & E). injection E as <- <-. exists w, snapshot, dr6. by rewrite E1.
Qed.
Lemma prepare_hit_stop address regs tid s u s' :
  prepare_breakpoint_hit address regs tid s = (Ok u, s') -> stop_info_ (st_debugger s') = stop_info_ (st_debugger s).
Proof.
  unfold prepare_breakpoint_hit. rewrite run_get. destruct (_ !! address) as [bp|]; [|done].
  intros ([] & s1 & [_ ->]%throw_if_run_Ok & E)%bind_M_Ok. cbv zeta in E. rewrite run_upd in E.
  apply bind_M_Ok in E as ([] & s2 & [_ D2]%kernel_Ok & E). apply bind_M_Ok in E as ([] & s3 & [_ D3]%kernel_Ok & E).
  unfold mark_installed in E. rewrite run_upd in E. injection E as <- <-. simpl. by rewrite D3, D2.
Qed.

Lemma handle_stop_reports b event s o s' :
  signal_stop event -> handle_stop b event s = (Ok o, s') -> recorded o s' /\ event_report b event s o.
Proof.
  intros Hs. unfold handle_stop. rewrite run_get. case_bool_decide as Hstart.
  { rewrite run_upd. intros E. finished E. split; [by apply recorded_Some|]. by apply report_start. }
  assert (Hp : plain_stop event s) by done.
  cbv zeta. destruct (Z.eqb_spec (ev_value event) SIGTRAP) as [Hv|Hv]; cbn [negb].
  2: { rewrite run_upd. intros E. finished E. split; [by apply recorded_Some|]. by apply report_signal. }
  intros (hit & s1 & Hhit & E)%bind_M_Ok. pose proof (classify_watchpoint_reports _ _ _ _ Hhit) as Hr. destruct hit as [info|].
  - rewrite run_upd in E. injection E as <- <-. split; [by apply recorded_Some|].
    destruct Hr as (w & snapshot & dr6 & H1 & H2 & H3 & H4 & H5 & H6 & H7 & H8). by apply (report_watchpoint _ _ _ _ w snapshot dr6).
  - destruct b.
    { finished E. split; [by apply recorded_Some|]. by eapply report_step. }
    unfold handle_trap in E. apply bind_M_Ok in E as (regs & s2 & [Hregs D2]%kernel_Ok & E). rewrite run_get, D2, Hr in E.
    cbv zeta in E. destruct (_ && _) eqn:Hb.
    + apply andb_true_iff in Hb as [Hpos%Z.ltb_lt Hb].
      destruct (breakpoints_by_address_ (st_debugger s) !! (rip regs - 1)) as [bp|] eqn:Hbp; [|done].
      apply bind_M_Ok in E as ([] & s3 & _ & E). finished E. split; [by apply recorded_Some|].
      eapply report_breakpoint; try done. by rewrite Hregs.
    + finished E. split; [by apply recorded_Some|]. apply (report_trap _ _ _ _ s1 regs); try done; [by rewrite Hregs|].
      intros Hpos bp Hbp. rewrite Hbp in Hb. apply Z.ltb_lt in Hpos. by rewrite Hpos in Hb.
Qed.

Lemma classify_reports b event s o s' :
  classify_event n b event s = (Ok o, s') -> recorded o s' /\ event_report b event s o.
Proof.
  assert (Hend : forall signaled r1 r2 r3, ev_kind event <> KStopped -> bool_decide (ev_kind event = KSignaled) = signaled ->
    r1 = (if signaled then ProcessSignaled else ProcessExited) -> r2 = (if signaled then SignaledStop else ExitedStop) ->
    r3 = (if signaled then ThreadSignaled else ThreadExited) ->
    task_gone n r1 r2 r3 event s = (Ok o, s') -> recorded o s' /\ event_report b event s o).
  { intros signaled r1 r2 r3 Hk Hsig -> -> -> [Hrec Hr]%task_gone_reports. split; [done|].
    set (reason := if bool_decide (tids _ = []) then _ else _) in Hr.
    assert (He : end_reason (bool_decide (ev_kind event = KSignaled)) (st_debugger s) = reason).
    { rewrite Hsig. unfold end_reason, reason. by destruct (first_stopped_retained_process _), signaled. }
    destruct reason as [reason|]; [destruct Hr as (stop & -> & Hr); by eapply report_end|subst; by apply report_no_end]. }
  unfold classify_event. destruct (decide (ev_kind event = KExited)) as [Hx|Hx].
  { rewrite (bool_decide_true _ Hx). apply (Hend false); rewrite ?Hx; done. }
  destruct (decide (ev_kind event = KSignaled)) as [Hg|Hg]; rewrite (bool_decide_false _ Hx).
  { rewrite (bool_decide_true _ Hg). apply (Hend true); rewrite ?Hg; done. }
  rewrite (bool_decide_false _ Hg). clear Hend. assert (Hk : ev_kind event = KStopped) by (by destruct (ev_kind event)).
  destruct (Z.eqb_spec (ev_ptrace_event event) PTRACE_EVENT_EXEC) as [He|N1].
  { intros (Hr & stop & -> & Hs)%handle_exec_reports. split; [done|]. by apply report_exec. }
  destruct (Z.eqb_spec (ev_ptrace_event event) PTRACE_EVENT_VFORK) as [He|N2].
  { intros (Hr & stop & child & -> & Hs & H1 & H2 & H3)%handle_vfork_reports. split; [done|]. by apply (report_vfork _ _ _ _ child). }
  destruct (Z.eqb_spec (ev_ptrace_event event) PTRACE_EVENT_VFORK_DONE) as [He|N3]; [done|].
  destruct (Z.eqb_spec (ev_ptrace_event event) PTRACE_EVENT_FORK) as [He|N4].
  { intros (Hr & stop & child & -> & H1 & Hs & H2 & H3 & H4 & H5)%handle_fork_reports. split; [done|].
    by apply (report_fork _ _ _ _ child). }
  destruct (Z.eqb_spec (ev_ptrace_event event) PTRACE_EVENT_CLONE) as [He|N5].
  { unfold handle_clone. destruct (ev_new_tid event); [|done]. intros E. past E. injection E as <- _. split; [done|].
    by apply report_clone. }
  apply handle_stop_reports. split; [done|]. rewrite !not_elem_of_cons. auto 10 using not_elem_of_nil.
Qed.

(** Events that were waited for and reported nothing. *)
Inductive passed (expected_single_step : bool) : dst -> dst -> Prop :=
  | passed_none s : passed expected_single_step s s
  | passed_event s event s1 s2 s' :
      wait_active_process n s = (Ok event, s1) -> event_report expected_single_step event s1 None ->
      classify_event n expected_single_step event s1 = (Ok None, s2) -> passed expected_single_step s2 s' ->
      passed expected_single_step s s'.

Lemma loop_reports k b s stop s' :
  wait_and_classify n k b s = (Ok stop, s') ->
  exists s1 s2 event, passed b s s1 /\ wait_active_process n s1 = (Ok event, s2) /\
    event_report b event s2 (Some stop) /\ stop_info_ (st_debugger s') = stop.
Proof.
  revert s. induction k as [|k IH]; intros s; [done|]. cbn [wait_and_classify].
  intros (event & s1 & Hw & E)%bind_M_Ok. apply bind_M_Ok in E as (o & s2 & Hc & E).
  destruct (classify_reports _ _ _ _ _ Hc) as [Hrec Hrep]. destruct o as [info|].
  - injection E as <- <-. exists s, s1, event. split; [constructor|]. split; [done|]. split; [done|]. by apply Hrec.
  - apply IH in E as (s3 & s4 & event' & Hp & Hr). exists s3, s4, event'. split; [|done]. by apply (passed_event _ _ event s1 s2).
Qed.
End Reports.

Section Returns.
Context `{K : Kernel} `{F : !FiniteEvents K}.

(** C19: on a kernel that reports finitely many events, a bound above the number of events left is
    enough for the event loop to end in a stop or an exception.  A stop reports the last
    event that was waited for, with its task, its value and the reason that kind of event has
    in the state the debugger was in (the end of a thread, of a process or of the last one;
    [exec], a fork with the child the kernel names; a thread's start; a signal; the watchpoint
    when its hit bit is set, a step when one was asked for, a breakpoint when one is in
    place just below the program counter, else a plain trap), and the debugger records it.  The
    events passed over before are clones and the ends of threads while others run. *)
Theorem wait_and_classify_returns n b s :
  (budget (st_world s) < n)%nat ->
  match wait_and_classify n n b s with
  | (Ok stop, s') =>
    exists s1 s2 event, passed n b s s1 /\ wait_active_process n s1 = (Ok event, s2) /\
      event_report b event s2 (Some stop) /\ stop_info_ (st_debugger s') = stop
  | (Throw _, _) => True
  | (Undef _, _) | (OutOfFuel, _) => False
  end.
Proof.
  intros Hs. pose proof (loop_returns (U := nothing) n n b ltac:(lia) s Hs) as H.
  destruct (wait_and_classify n n b s) as [[stop|e|w|] s'] eqn:E; try done. by apply (loop_reports n n).
Qed.
End Returns.

(** ** The concrete kernel has finitely many events *)

#[export] Program Instance SimFiniteEvents : FiniteEvents SimKernel := {|
  budget w := length (sm_events w)
|}.
Next Obligation. intros pid w. simpl. destruct (sm_events w) as [|[tid status [r|]] es] eqn:E; simpl; rewrite ?E; simpl; lia. Qed.
Next Obligation. intros. simpl. by destruct (sim_word w a). Qed.
Next Obligation. intros. cbn [k_pokedata SimKernel]. by destruct (sim_word w a). Qed.
Solve All Obligations with (intros; simpl; lia).

(** A process that exits after a breakpoint trap and a signal. *)
Definition demo_events : list sim_event :=
  [mkEvent 100 (stop_status SIGTRAP 0) (Some (set_rip zero_regs 0x1002)); mkEvent 100 (exit_status 3) None].

(** The breakpoint trap at 0x1001 is reported as a plain trap: no breakpoint was set there. *)
Definition demo_waiting : dst (K := SimKernel) :=
  mkSt (K := SimKernel) (new_debugger (single_stopped_task 100 (new_process 100 Launched)) demo_stop "/bin/tracee")
    (sim_init (sim_mapped 0x1000 (repeat Byte.x90 16)) demo_events) 1.

Lemma wait_and_classify_returns_witness :
  match wait_and_classify (K := SimKernel) 3 3 false demo_waiting with
  | (Ok stop, s') => exists s1 s2 event, passed 3 false demo_waiting s1 /\ wait_active_process 3 s1 = (Ok event, s2) /\
      event_report false event s2 (Some stop) /\ stop_info_ (st_debugger s') = stop
  | (Throw _, _) => True
  | (Undef _, _) | (OutOfFuel, _) => False
  end.
Proof. apply (wait_and_classify_returns (F := SimFiniteEvents) 3 false demo_waiting). simpl. lia. Defined.

Example demo_waiting_stop :
  si_reason <$> (match wait_and_classify (K := SimKernel) 3 3 false demo_waiting with (Ok stop, _) => Some stop | _ => None end) =
    Some TrapStop.
Proof. vm_compute. reflexivity. Qed.
