(* ===== verification/ByteReader.v ===== *)
(** * Reading binary data

    The bounds-checked readers the ELF and DWARF parsers share.  Each parser of the
    sources has its own copy with its own messages; the copies are instances of the
    definitions here.  A cursor passed by reference is the state of the monad; an
    offset, a size and a limit are [std::size_t] or [std::uint64_t] values. *)

From S2P Require Import Prelude.

(** ** Files

    The file system is not code of the repository. *)
Inductive file_result :=
  | FileOpenFailed
  | FileSizeFailed
  | FileReadFailed
  | FileBytes (bytes : list byte).

(** ** Fixed-width reads *)

Definition size_of {A} (l : list A) : Z := Z.of_nat (length l).

Lemma size_snoc {A} (l : list A) x : size_of (l ++ [x]) = size_of l + 1.
Proof. unfold size_of. rewrite length_app. simpl. lia. Qed.

Lemma size_map {A B} (f : A -> B) l : size_of (map f l) = size_of l.
Proof. unfold size_of. by rewrite length_map. Qed.

(** [memcpy] of [n] bytes at [offset] into a little-endian integer. *)
Definition le_at (bytes : list byte) (offset n : Z) : Z :=
  le_combine (take (Z.to_nat n) (drop (Z.to_nat offset) bytes)).

(** [offset > bytes.size() || n > bytes.size() - offset] *)
Definition out_of_bounds (bytes : list byte) (offset n : Z) : bool :=
  (size_of bytes <? offset) || (size_of bytes - offset <? n).

Definition read_at_with (msg : string) (bytes : list byte) (offset n : Z) : res Z :=
  _ ← throw_if (out_of_bounds bytes offset n) (Exn RuntimeError msg);
  Ok (le_at bytes offset n).

Definition read_scalar_with (boundary at_end : string) (bytes : list byte) (limit n : Z) : M Z Z :=
  cursor ← mget;
  _ ← mthrow_if ((limit <? cursor) || (limit - cursor <? n)) RuntimeError boundary;
  value ← lift (read_at_with at_end bytes cursor n);
  _ ← modify (fun c => u64 (c + n));
  mret value.

(** [std::to_integer<unsigned char>(bytes[i])]; indexing past the end is undefined. *)
Definition byte_at (bytes : list byte) (i : Z) : res Z :=
  match bytes !! Z.to_nat i with
  | Some b => Ok (byte_val b)
  | None => Undef "vector index out of range"
  end.

Definition char_of_Z (v : Z) : ascii := ascii_of_N (Z.to_N v).

(** [while (cursor < limit) { ... }]: one byte a turn, so [limit - cursor] turns. *)
Fixpoint c_string_loop (fuel : nat) (msg : string) (bytes : list byte) (limit : Z) : M Z string :=
  cursor ← mget;
  if cursor <? limit then
    match fuel with
    | O => mout_of_fuel
    | S fuel =>
      value ← lift (byte_at bytes cursor);
      _ ← modify (fun c => c + 1);
      if value =? 0 then mret EmptyString
      else rest ← c_string_loop fuel msg bytes limit; mret (String (char_of_Z value) rest)
    end
  else mthrow RuntimeError msg.

Definition read_c_string_with (msg : string) (bytes : list byte) (limit : Z) : M Z string :=
  cursor ← mget;
  c_string_loop (Z.to_nat (limit - cursor)) msg bytes limit.

(** ** LEB128 *)

(** [for (count = 0; count < 10; ++count)], [n] turns left; [shift] is [7 * count]. *)
Fixpoint uleb_loop (n : nat) (u8 : M Z Z) (overflow too_long : string) (result shift : Z) : M Z Z :=
  match n with
  | O => mthrow RuntimeError too_long
  | S n =>
    byte ← u8;
    let payload := Z.land byte 0x7f in
    _ ← mthrow_if ((63 <? shift) || ((shift =? 63) && (1 <? payload))) RuntimeError overflow;
    let result := Z.lor result (u64 (Z.shiftl payload shift)) in
    if Z.land byte 0x80 =? 0 then mret result
    else uleb_loop n u8 overflow too_long result (shift + 7)
  end.

Definition read_uleb_with (u8 : M Z Z) (overflow too_long : string) : M Z Z :=
  uleb_loop 10 u8 overflow too_long 0 0.

(** [overflow] is the message of the overflow check, for the parsers that have one. *)
Fixpoint sleb_loop (n : nat) (u8 : M Z Z) (overflow : option string) (too_long : string)
    (result shift : Z) : M Z Z :=
  match n with
  | O => mthrow RuntimeError too_long
  | S n =>
    byte ← u8;
    let payload := Z.land byte 0x7f in
    _ ← (match overflow with
         | Some msg =>
           mthrow_if ((63 <? shift) || ((shift =? 63) && negb (payload =? 0) && negb (payload =? 0x7f)))
             RuntimeError msg
         | None => mskip
         end);
    let result := Z.lor result (u64 (Z.shiftl payload shift)) in
    let shift := shift + 7 in
    if Z.land byte 0x80 =? 0 then
      let result := if negb (Z.land byte 0x40 =? 0) && (shift <? 64)
                    then Z.lor result (u64 (Z.shiftl u64_max shift)) else result in
      mret (i64 result)
    else sleb_loop n u8 overflow too_long result shift
  end.

Definition read_sleb_with (u8 : M Z Z) (overflow : option string) (too_long : string) : M Z Z :=
  sleb_loop 10 u8 overflow too_long 0 0.

(** ** Well-behaved readers

    [m] never runs into undefined behaviour or out of fuel, never moves the cursor
    backwards, and when it succeeds leaves it at most at [limit]; [used] bytes are
    consumed at least. *)
Definition reads {A} (limit used : Z) (m : M Z A) : Prop := forall c, 0 <= c ->
  match m c with
  | (Ok _, c') => c + used <= c' /\ (c' <= limit \/ c' = c)
  | (Throw _, c') => c <= c'
  | (Undef _, _) | (OutOfFuel, _) => False
  end.

Lemma reads_weaken {A} limit u v (m : M Z A) : v <= u -> reads limit u m -> reads limit v m.
Proof. intros Hv H c Hc. specialize (H c Hc). destruct (m c) as [[]]; intuition lia. Qed.

Lemma reads_ret {A} limit (a : A) : reads limit 0 (mret a).
Proof. intros c Hc. simpl. lia. Qed.
Lemma reads_throw {A} limit u c msg : reads limit u (mthrow c msg : M Z A).
Proof. intros x Hx. simpl. lia. Qed.
Lemma reads_throw_if limit b c msg : reads limit 0 (mthrow_if b c msg).
Proof. intros x Hx. destruct b; simpl; lia. Qed.
Lemma reads_skip limit : reads limit 0 mskip.
Proof. intros x Hx. simpl. lia. Qed.
Lemma reads_lift {A} limit (r : res A) : defined r -> r <> OutOfFuel -> reads limit 0 (lift r).
Proof. intros Hd Hf x Hx. unfold lift. destruct r; simpl in *; done || lia. Qed.

Lemma reads_mget limit : reads limit 0 (mget : M Z Z).
Proof. intros c Hc. simpl. lia. Qed.
Lemma reads_settle_lift {A} limit (r : res A) : settles r -> reads limit 0 (lift r).
Proof. intros H c Hc. unfold lift. destruct r; simpl in *; done || lia. Qed.

(** Bytes that fit in the address space, and a limit in them. *)
Definition limit_in (bytes : list byte) (limit : Z) : Prop := limit <= size_of bytes /\ size_of bytes <= i64_max.

Lemma reads_bind {A B} limit u v (m : M Z A) (f : A -> M Z B) :
  0 <= u -> 0 <= v -> reads limit u m -> (forall a, reads limit v (f a)) -> reads limit (u + v) (m ≫= f).
Proof.
  intros Hu Hv Hm Hf c Hc. specialize (Hm c Hc). unfold mbind, M_bind.
  destruct (m c) as [[a|e|w|] c1]; try done. destruct Hm as [H1 H2].
  specialize (Hf a c1 ltac:(lia)). destruct (f a c1) as [[]]; intuition lia.
Qed.

(** The common case: the first part consumes, the rest may. *)
Lemma reads_bind_l {A B} limit u (m : M Z A) (f : A -> M Z B) :
  0 <= u -> reads limit u m -> (forall a, reads limit 0 (f a)) -> reads limit u (m ≫= f).
Proof. intros Hu Hm Hf. rewrite <- (Z.add_0_r u). by apply reads_bind. Qed.
Lemma reads_bind_r {A B} limit u (m : M Z A) (f : A -> M Z B) :
  0 <= u -> reads limit 0 m -> (forall a, reads limit u (f a)) -> reads limit u (m ≫= f).
Proof. intros Hu Hm Hf. rewrite <- (Z.add_0_l u). by apply reads_bind. Qed.

Lemma reads_scalar b e bytes limit n :
  0 < n -> limit <= u64_max -> reads limit n (read_scalar_with b e bytes limit n).
Proof.
  intros Hn Hl c Hc. unfold read_scalar_with. mrun.
  destruct (Z.ltb_spec limit c), (Z.ltb_spec (limit - c) n); simpl; try lia.
  unfold read_at_with, throw_if. destruct (out_of_bounds bytes c n); simpl; [lia|].
  unfold modify, mret, M_ret, mbind, M_bind, lift. rewrite u64_small by (unfold in_u64, u64_max in *; lia). lia.
Qed.

Lemma reads_c_string msg bytes limit :
  limit <= size_of bytes -> reads limit 1 (read_c_string_with msg bytes limit).
Proof.
  intros Hl c Hc. unfold read_c_string_with. mrun.
  assert (H : forall n c, 0 <= c -> (Z.to_nat (limit - c) <= n)%nat ->
    match c_string_loop n msg bytes limit c with
    | (Ok _, c') => c < c' /\ c' <= limit
    | (Throw _, c') => c <= c'
    | _ => False
    end).
  { clear c Hc. induction n as [|n IH]; intros c Hc Hn; simpl; mrun;
      (destruct (Z.ltb_spec c limit); [|simpl; lia]); [lia|].
    unfold byte_at. destruct (bytes !! Z.to_nat c) as [b|] eqn:E.
    2: { apply lookup_ge_None in E. unfold size_of in Hl. lia. }
    mrun. destruct (byte_val b =? 0); [simpl; lia|].
    specialize (IH (c + 1) ltac:(lia) ltac:(lia)). unfold mbind, M_bind.
    destruct (c_string_loop n msg bytes limit (c + 1)) as [[]]; simpl; intuition lia. }
  specialize (H (Z.to_nat (limit - c)) c Hc ltac:(lia)).
  destruct (c_string_loop _ _ _ _ _) as [[]]; intuition lia.
Qed.

Lemma reads_uleb_loop limit u8 o t n r s :
  reads limit 0 u8 -> reads limit 0 (uleb_loop n u8 o t r s).
Proof.
  intros H8. revert r s. induction n as [|n IH]; intros r s; [apply reads_throw|].
  apply reads_bind_l; [lia|done|intros byte]. apply reads_bind_r; [lia|apply reads_throw_if|intros _].
  destruct (_ =? 0); [apply reads_ret|apply IH].
Qed.

Lemma reads_sleb_loop limit u8 o t n r s :
  reads limit 0 u8 -> reads limit 0 (sleb_loop n u8 o t r s).
Proof.
  intros H8. revert r s. induction n as [|n IH]; intros r s; [apply reads_throw|].
  apply reads_bind_l; [lia|done|intros byte]. apply reads_bind_r; [lia| |intros _].
  - destruct o; [apply reads_throw_if|apply reads_skip].
  - destruct (_ =? 0); [apply reads_ret|apply IH].
Qed.

Lemma reads_uleb_first limit u8 o t n r s :
  reads limit 1 u8 -> reads limit 1 (uleb_loop (S n) u8 o t r s).
Proof.
  intros H8. apply reads_bind_l; [lia|done|intros byte].
  apply reads_bind_r; [lia|apply reads_throw_if|intros _].
  destruct (_ =? 0); [apply reads_ret|apply reads_uleb_loop]. by apply (reads_weaken _ 1); [lia|].
Qed.

Lemma reads_sleb_first limit u8 o t n r s :
  reads limit 1 u8 -> reads limit 1 (sleb_loop (S n) u8 o t r s).
Proof.
  intros H8. apply reads_bind_l; [lia|done|intros byte]. apply reads_bind_r; [lia| |intros _].
  - destruct o; [apply reads_throw_if|apply reads_skip].
  - destruct (_ =? 0); [apply reads_ret|apply reads_sleb_loop]. by apply (reads_weaken _ 1); [lia|].
Qed.

Lemma reads_uleb limit u8 o t : reads limit 1 u8 -> reads limit 1 (read_uleb_with u8 o t).
Proof. apply reads_uleb_first. Qed.
Lemma reads_sleb limit u8 o t : reads limit 1 u8 -> reads limit 1 (read_sleb_with u8 o t).
Proof. apply reads_sleb_first. Qed.

(** *** Running a reader from a given cursor

    [yields_at c Q m]: [m] started at [c] returns with [Q] of its value and the new
    cursor, or throws. *)
Definition yields_at {S A} (c : S) (Q : A -> S -> Prop) (m : M S A) : Prop :=
  match m c with
  | (Ok a, c') => Q a c'
  | (Throw _, _) => True
  | (Undef _, _) | (OutOfFuel, _) => False
  end.

Lemma yields_at_bind {S A B} c (P : A -> S -> Prop) (Q : B -> S -> Prop) (m : M S A) (f : A -> M S B) :
  yields_at c P m -> (forall a c', P a c' -> yields_at c' Q (f a)) -> yields_at c Q (m ≫= f).
Proof.
  unfold yields_at, mbind, M_bind. intros Hm Hf. destruct (m c) as [[a|e|w|] c']; [by apply Hf|done..].
Qed.
Lemma yields_at_weaken {S A} c (P Q : A -> S -> Prop) (m : M S A) :
  (forall a c', P a c' -> Q a c') -> yields_at c P m -> yields_at c Q m.
Proof. unfold yields_at. intros H Hm. destruct (m c) as [[a|e|w|] c']; [by apply H|done..]. Qed.
Lemma yields_run {S A} (c : S) (Q : A -> S -> Prop) (P : A -> Prop) (m : M S A) :
  (forall a c', Q a c' -> P a) -> yields_at c Q m -> yields P (fst (m c)).
Proof. unfold yields_at. intros H. destruct (m c) as [[a|e|w|] c']; simpl; eauto. Qed.
Lemma yields_at_guard {S B} c (Q : B -> S -> Prop) b cls msg (f : unit -> M S B) :
  (b = false -> yields_at c Q (f tt)) -> yields_at c Q (mthrow_if b cls msg ≫= f).
Proof. destruct b; [done|]. auto. Qed.
Lemma yields_at_throw_if {S} (c : S) b cls msg :
  yields_at c (fun _ c' => b = false /\ c' = c) (mthrow_if b cls msg).
Proof. by destruct b. Qed.
Lemma yields_at_mget {S B} c (Q : B -> S -> Prop) (f : S -> M S B) :
  yields_at c Q (f c) -> yields_at c Q (mget ≫= f).
Proof. done. Qed.
Lemma yields_at_lift {S A} (c : S) (P : A -> Prop) (r : res A) :
  yields P r -> yields_at c (fun a c' => P a /\ c' = c) (lift r).
Proof. unfold yields_at, lift. destruct r; simpl; auto. Qed.
Lemma yields_at_reads {A} c limit u (m : M Z A) :
  reads limit u m -> 0 <= c -> yields_at c (fun _ c' => c + u <= c' /\ (c' <= limit \/ c' = c)) m.
Proof. intros H Hc. specialize (H c Hc). unfold yields_at. by destruct (m c) as [[]]. Qed.

Lemma yields_at_read {A B} c limit u (Q : B -> Z -> Prop) (m : M Z A) (f : A -> M Z B) :
  reads limit u m -> 0 <= c ->
  (forall a c', c + u <= c' -> c' <= limit \/ c' = c -> yields_at c' Q (f a)) -> yields_at c Q (m ≫= f).
Proof.
  intros H Hc Hf. eapply yields_at_bind; [by apply yields_at_reads|]. intros a c' [H1 H2]. by apply Hf.
Qed.

(** The same with a property of the value read. *)
Lemma yields_at_read_val {A B} c limit u (P : A -> Prop) (Q : B -> Z -> Prop) (m : M Z A) (f : A -> M Z B) :
  reads limit u m -> 0 <= c -> (forall a c', m c = (Ok a, c') -> P a) ->
  (forall a c', P a -> c + u <= c' -> c' <= limit \/ c' = c -> yields_at c' Q (f a)) -> yields_at c Q (m ≫= f).
Proof.
  intros H Hc Hv Hf. specialize (H c Hc). unfold yields_at, mbind, M_bind.
  destruct (m c) as [[a|e|w|] c'] eqn:E; [|done..]. apply (Hf a c'); [by eapply Hv|lia..].
Qed.

Lemma lor_u64 a b : in_u64 a -> in_u64 b -> in_u64 (Z.lor a b).
Proof.
  unfold in_u64, u64_max. intros Ha Hb.
  assert (E : Z.lor a b = Z.lor a b mod 2 ^ 64).
  { rewrite <- Z.land_ones, Z.land_lor_distr_l, !Z.land_ones, !Z.mod_small by lia. done. }
  rewrite E. pose proof (Z.mod_pos_bound (Z.lor a b) (2 ^ 64) ltac:(lia)). lia.
Qed.

Lemma uleb_loop_value n u8 o t r s c v c' :
  in_u64 r -> uleb_loop n u8 o t r s c = (Ok v, c') -> in_u64 v.
Proof.
  revert r s c. induction n as [|n IH]; intros r s c Hr; [done|]. cbn [uleb_loop].
  unfold mbind, M_bind. destruct (u8 c) as [[b|e|w|] c1]; [|done..]. unfold mthrow_if.
  destruct (_ || _); [done|]. cbn.
  assert (Hr' : in_u64 (Z.lor r (u64 (Z.shiftl (Z.land b 127) s)))) by (apply lor_u64; [done|apply u64_range]).
  destruct (_ =? 0); [by intros [= <- _]|by apply IH].
Qed.
Lemma read_uleb_with_value u8 o t c v c' : read_uleb_with u8 o t c = (Ok v, c') -> in_u64 v.
Proof. apply uleb_loop_value. unfold in_u64, u64_max. lia. Qed.

Lemma reads_weaken_limit {A} limit limit' u (m : M Z A) : limit <= limit' -> reads limit u m -> reads limit' u m.
Proof. intros Hv H c Hc. specialize (H c Hc). destruct (m c) as [[]]; intuition lia. Qed.

(** ** LEB128 decodes what it encodes *)

Fixpoint encode_uleb (n : nat) (z : Z) : list byte :=
  match n with
  | O => []
  | S n => if z <? 128 then [byte_of_Z z] else byte_of_Z (z mod 128 + 128) :: encode_uleb n (z / 128)
  end.

Fixpoint encode_sleb (n : nat) (z : Z) : list byte :=
  match n with
  | O => []
  | S n => if (-64 <=? z) && (z <? 64) then [byte_of_Z (z mod 128)]
           else byte_of_Z (z mod 128 + 128) :: encode_sleb n (z / 128)
  end.

(** A byte reader that returns the bytes of [l] from the cursor [c] on. *)
Definition feeds (u8 : M Z Z) (c : Z) (l : list byte) : Prop :=
  forall i b, l !! i = Some b -> u8 (c + Z.of_nat i) = (Ok (byte_val b), c + Z.of_nat i + 1).

Lemma feeds_cons u8 c b l :
  feeds u8 c (b :: l) -> u8 c = (Ok (byte_val b), c + 1) /\ feeds u8 (c + 1) l.
Proof.
  intros H. split.
  - specialize (H O b eq_refl). by rewrite Z.add_0_r in H.
  - intros i x Hi. specialize (H (S i) x Hi).
    replace (c + 1 + Z.of_nat i) with (c + Z.of_nat (S i)) by lia. done.
Qed.

Lemma byte_land_bits b : 0 <= b < 256 ->
  Z.land b 0x7f = b mod 128 /\ (Z.land b 0x80 =? 0) = (b <? 128) /\
  (Z.land b 0x40 =? 0) = (b mod 128 <? 64).
Proof.
  intros Hb. assert (H : forallb (fun n => let b := Z.of_nat n in (Z.land b 0x7f =? b mod 128) &&
    Bool.eqb (Z.land b 0x80 =? 0) (b <? 128) && Bool.eqb (Z.land b 0x40 =? 0) (b mod 128 <? 64))
    (seq 0 256) = true) by (vm_compute; reflexivity).
  rewrite forallb_forall in H. specialize (H (Z.to_nat b)). cbn zeta in H.
  rewrite Z2Nat.id in H by lia. rewrite !andb_true_iff in H.
  destruct H as [[H1%Z.eqb_eq H2%Bool.eqb_prop] H3%Bool.eqb_prop]; [apply in_seq; lia|done].
Qed.

Lemma lor_low_high r p s : 0 <= s -> 0 <= r < 2 ^ s -> Z.lor r (Z.shiftl p s) = r + p * 2 ^ s.
Proof. intros Hs Hr. rewrite Z.lor_comm, lor_shiftl_add by done. lia. Qed.

Lemma u64_shiftl p s : 0 <= s -> 0 <= p -> p * 2 ^ s < 2 ^ 64 -> u64 (Z.shiftl p s) = Z.shiftl p s.
Proof.
  intros Hs Hp H. assert (0 < 2 ^ s) by (apply Z.pow_pos_nonneg; lia).
  rewrite Z.shiftl_mul_pow2 by done. apply u64_small. unfold in_u64, u64_max. nia.
Qed.

Lemma uleb_loop_encode u8 o t n z r s c :
  (1 <= n)%nat -> s = 7 * (10 - Z.of_nat n) -> 0 <= s -> 0 <= z -> z * 2 ^ s < 2 ^ 64 -> 0 <= r < 2 ^ s ->
  feeds u8 c (encode_uleb n z) ->
  uleb_loop n u8 o t r s c = (Ok (r + z * 2 ^ s), c + size_of (encode_uleb n z)).
Proof.
  revert z r s c. induction n as [|n IH]; intros z r s c Hn Es Hs Hz Hlim Hr Hf; [lia|].
  cbn [encode_uleb] in *. cbn [uleb_loop].
  assert (Hp : 0 < 2 ^ s) by (apply Z.pow_pos_nonneg; lia).
  assert (Hbig : forall p, 0 <= p < 128 -> p * 2 ^ s < 2 ^ 64 ->
    ((63 <? s) || ((s =? 63) && (1 <? p))) = false).
  { intros p Hp1 Hp2. destruct (Z.ltb_spec 63 s); [lia|]. destruct (Z.eqb_spec s 63) as [->|]; [|done].
    destruct (Z.ltb_spec 1 p); [|done]. change (2 ^ 64) with (2 * 2 ^ 63) in Hp2. nia. }
  destruct (Z.ltb_spec z 128) as [Hsmall|Hbig'].
  - apply feeds_cons in Hf as [Hb _]. erewrite run_Ok by exact Hb.
    rewrite byte_val_of_Z, (Z.mod_small z 256) by lia.
    destruct (byte_land_bits z ltac:(lia)) as (-> & -> & _). rewrite Z.mod_small by lia. mrun.
    rewrite Hbig by lia. destruct (Z.ltb_spec z 128); [|lia].
    rewrite u64_shiftl, lor_low_high by lia. done.
  - apply feeds_cons in Hf as [Hb Hf]. erewrite run_Ok by exact Hb.
    pose proof (Z.mod_pos_bound z 128 ltac:(lia)) as Hm.
    rewrite byte_val_of_Z, (Z.mod_small (z mod 128 + 128) 256) by lia.
    destruct (byte_land_bits (z mod 128 + 128) ltac:(lia)) as (-> & -> & _).
    replace ((z mod 128 + 128) mod 128) with (z mod 128) by dlia. mrun.
    assert (Hle : z mod 128 * 2 ^ s <= z * 2 ^ s) by (apply Z.mul_le_mono_nonneg_r; [lia|dlia]).
    rewrite Hbig by lia. destruct (Z.ltb_spec (z mod 128 + 128) 128); [lia|].
    assert (Hs7 : s + 7 < 64).
    { apply (Z.pow_lt_mono_r_iff 2); [lia..|]. rewrite Z.pow_add_r by lia. change (2 ^ 7) with 128. nia. }
    assert (Hpow : 2 ^ (s + 7) = 128 * 2 ^ s) by (rewrite Z.pow_add_r by lia; lia).
    rewrite u64_shiftl, lor_low_high by lia.
    pose proof (Z.div_mod z 128 ltac:(lia)) as Hdm.
    rewrite (IH (z / 128)); [| lia | lia | lia | apply Z.div_pos; lia | | | done].
    + f_equal; [f_equal; rewrite Hpow; nia|]. unfold size_of. simpl. lia.
    + rewrite Hpow. nia.
    + rewrite Hpow. nia.
Qed.

(** ULEB128 decoding inverts the encoding of every 64-bit value. *)
Lemma read_uleb_encode u8 o t z c :
  in_u64 z -> feeds u8 c (encode_uleb 10 z) ->
  read_uleb_with u8 o t c = (Ok z, c + size_of (encode_uleb 10 z)).
Proof.
  intros Hz Hf. unfold read_uleb_with. unfold in_u64, u64_max in Hz.
  rewrite (uleb_loop_encode u8 o t 10 z 0 0 c); [f_equal; f_equal; lia|lia..|done].
Qed.

(** The check of the stricter parsers lets a canonical encoding through. *)
Definition sleb_guard (overflow : option string) (s p : Z) : M Z unit :=
  match overflow with
  | Some msg =>
    mthrow_if ((63 <? s) || ((s =? 63) && negb (p =? 0) && negb (p =? 0x7f))) RuntimeError msg
  | None => mskip
  end.

Lemma run_sleb_guard {A} o s p (f : unit -> M Z A) c :
  s <= 63 -> (s = 63 -> p = 0 \/ p = 127) -> (sleb_guard o s p ≫= f) c = f tt c.
Proof.
  intros Hs Hp. destruct o; [|done]. unfold sleb_guard. mrun.
  destruct (Z.ltb_spec 63 s); [lia|]. destruct (Z.eqb_spec s 63) as [E|]; [|done].
  destruct (Hp E) as [-> | ->]; done.
Qed.

(** The last byte: the payload completes the value and bit 6 is extended. *)
Lemma sleb_last z r s :
  0 <= s <= 63 -> (s = 63 \/ s + 7 < 64) -> -64 <= z < 64 -> - 2 ^ (63 - s) <= z < 2 ^ (63 - s) ->
  0 <= r < 2 ^ s ->
  let p := z mod 128 in
  let result := Z.lor r (u64 (Z.shiftl p s)) in
  i64 (if negb (p <? 64) && (s + 7 <? 64) then Z.lor result (u64 (Z.shiftl u64_max (s + 7))) else result)
  = r + z * 2 ^ s.
Proof.
  intros Hs Hs' Hz Hlim Hr p result.
  assert (Hp : p = if z <? 0 then z + 128 else z).
  { unfold p. destruct (Z.ltb_spec z 0); [|apply Z.mod_small; lia].
    symmetry. apply (Z.mod_unique_pos _ _ (-1)); lia. }
  assert (Hpos : 0 < 2 ^ s) by (apply Z.pow_pos_nonneg; lia).
  assert (Hprod : 2 ^ (63 - s) * 2 ^ s = 2 ^ 63) by (rewrite <- Z.pow_add_r by lia; f_equal; lia).
  unfold i64, to_signed. change (2 ^ (64 - 1)) with (2 ^ 63). change (2 ^ 64) with (2 * 2 ^ 63).
  destruct Hs' as [->|Hlt].
  - change (2 ^ (63 - 63)) with 1 in Hlim. assert (z = 0 \/ z = -1) as [-> | ->] by lia.
    + subst result. rewrite Hp. cbn [Z.ltb Z.compare]. change (63 + 7 <? 64) with false. rewrite andb_false_r.
      change (u64 (Z.shiftl 0 63)) with 0. rewrite Z.lor_0_r, Z.mul_0_l, Z.add_0_r.
      rewrite ?Z.lor_0_r, Z.mod_small by lia. destruct (Z.ltb_spec r (2 ^ 63)); lia.
    + subst result. rewrite Hp. cbn [Z.ltb Z.compare]. change (63 + 7 <? 64) with false. rewrite andb_false_r.
      change (u64 (Z.shiftl (-1 + 128) 63)) with (Z.shiftl 1 63).
      rewrite lor_low_high by lia. rewrite Z.mod_small by lia.
      destruct (Z.ltb_spec (r + 1 * 2 ^ 63) (2 ^ 63)); lia.
  - assert (Hpow : 2 ^ (s + 7) = 128 * 2 ^ s) by (rewrite Z.pow_add_r by lia; lia).
    assert (Hle : 2 ^ (s + 7) <= 2 ^ 63) by (apply Z.pow_le_mono_r; lia).
    assert (Hres : result = r + p * 2 ^ s).
    { unfold result. assert (0 <= p < 128) by (rewrite Hp; destruct (Z.ltb_spec z 0); lia).
      rewrite u64_shiftl by nia. apply lor_low_high; lia. }
    destruct (Z.ltb_spec (s + 7) 64); [|lia]. rewrite andb_true_r, Hres, Hp.
    destruct (Z.ltb_spec z 0).
    + destruct (Z.ltb_spec (z + 128) 64); [lia|]. cbn [negb].
      assert (E : u64 (Z.shiftl u64_max (s + 7)) = Z.shiftl (2 ^ (64 - (s + 7)) - 1) (s + 7)).
      { assert (H64 : 2 ^ (64 - (s + 7)) * 2 ^ (s + 7) = 2 * 2 ^ 63)
          by (rewrite <- Z.pow_add_r by lia; change (2 * 2 ^ 63) with (2 ^ 64); f_equal; lia).
        rewrite !Z.shiftl_mul_pow2 by lia. unfold u64, u64_max.
        change 18446744073709551616 with (2 * 2 ^ 63).
        symmetry. apply (Z.mod_unique_pos _ _ (2 ^ (s + 7) - 1)); nia. }
      assert (H64 : 2 ^ (64 - (s + 7)) * 2 ^ (s + 7) = 2 * 2 ^ 63)
        by (rewrite <- Z.pow_add_r by lia; change (2 * 2 ^ 63) with (2 ^ 64); f_equal; lia).
      rewrite E, lor_low_high by nia.
      rewrite Z.mod_small by nia.
      destruct (Z.ltb_spec (r + (z + 128) * 2 ^ s + (2 ^ (64 - (s + 7)) - 1) * 2 ^ (s + 7)) (2 ^ 63)); nia.
    + destruct (Z.ltb_spec z 64); [|lia]. cbn [negb]. rewrite Z.mod_small by nia.
      destruct (Z.ltb_spec (r + z * 2 ^ s) (2 ^ 63)); nia.
Qed.

Lemma sleb_loop_encode u8 o t n z r s c :
  (1 <= n)%nat -> s = 7 * (10 - Z.of_nat n) -> 0 <= s -> - 2 ^ (63 - s) <= z < 2 ^ (63 - s) ->
  0 <= r < 2 ^ s -> feeds u8 c (encode_sleb n z) ->
  sleb_loop n u8 o t r s c = (Ok (r + z * 2 ^ s), c + size_of (encode_sleb n z)).
Proof.
  revert z r s c. induction n as [|n IH]; intros z r s c Hn Es Hs Hlim Hr Hf; [lia|].
  cbn [encode_sleb] in *. cbn [sleb_loop]. pose proof (Z.mod_pos_bound z 128 ltac:(lia)) as Hm.
  assert (Hpos : 0 < 2 ^ s) by (apply Z.pow_pos_nonneg; lia).
  destruct ((-64 <=? z) && (z <? 64)) eqn:Esmall.
  - apply andb_true_iff in Esmall as [H1%Z.leb_le H2%Z.ltb_lt].
    apply feeds_cons in Hf as [Hb _]. erewrite run_Ok by exact Hb.
    rewrite byte_val_of_Z, (Z.mod_small (z mod 128) 256) by lia.
    destruct (byte_land_bits (z mod 128) ltac:(lia)) as (E1 & E2 & E3).
    cbv zeta. rewrite E1, E2, E3, Z.mod_mod by lia.
    destruct (Z.ltb_spec (z mod 128) 128); [|lia].
    fold (sleb_guard o s (z mod 128)). rewrite run_sleb_guard; [|lia|].
    + rewrite (sleb_last z r s) by lia. done.
    + intros ->. change (2 ^ (63 - 63)) with 1 in Hlim. assert (z = 0 \/ z = -1) as [-> | ->] by lia; auto.
  - assert (Hs7 : s + 7 < 64).
    { destruct (Z.leb_spec (s + 7) 63); [lia|]. assert (n = O /\ s = 63) as [_ ->] by lia.
      change (2 ^ (63 - 63)) with 1 in Hlim. apply andb_false_iff in Esmall as [?%Z.leb_gt|?%Z.ltb_ge]; lia. }
    apply feeds_cons in Hf as [Hb Hf]. erewrite run_Ok by exact Hb.
    rewrite byte_val_of_Z, (Z.mod_small (z mod 128 + 128) 256) by lia.
    destruct (byte_land_bits (z mod 128 + 128) ltac:(lia)) as (E1 & E2 & _).
    cbv zeta. rewrite E1, E2. replace ((z mod 128 + 128) mod 128) with (z mod 128) by dlia.
    destruct (Z.ltb_spec (z mod 128 + 128) 128); [lia|].
    fold (sleb_guard o s (z mod 128)). rewrite run_sleb_guard by lia.
    assert (Hpow : 2 ^ (s + 7) = 128 * 2 ^ s) by (rewrite Z.pow_add_r by lia; lia).
    assert (Hle : 2 ^ (s + 7) <= 2 ^ 63) by (apply Z.pow_le_mono_r; lia).
    assert (Hhalf : 2 ^ (63 - s) = 128 * 2 ^ (63 - (s + 7)))
      by (replace (63 - s) with (7 + (63 - (s + 7))) by lia; rewrite Z.pow_add_r by lia; lia).
    rewrite u64_shiftl, lor_low_high by nia.
    pose proof (Z.div_mod z 128 ltac:(lia)) as Hdm.
    rewrite (IH (z / 128)); [| lia | lia | lia | | | done].
    + f_equal; [f_equal; rewrite Hpow; nia|]. unfold size_of. simpl. lia.
    + dlia.
    + rewrite Hpow. nia.
Qed.

(** SLEB128 decoding inverts the encoding of every signed 64-bit value, with and
    without the overflow check. *)
Lemma read_sleb_encode u8 o t z c :
  i64_min <= z <= i64_max -> feeds u8 c (encode_sleb 10 z) ->
  read_sleb_with u8 o t c = (Ok z, c + size_of (encode_sleb 10 z)).
Proof.
  intros Hz Hf. unfold read_sleb_with. unfold i64_min, i64_max in Hz.
  rewrite (sleb_loop_encode u8 o t 10 z 0 0 c); [f_equal; f_equal; lia|lia..|done].
Qed.
