(* ===== verification/TraceeReads.v ===== *)
(** * Reading the tracee

    A read of registers or memory through the debugger changes nothing: neither the object
    nor the kernel.  It returns exactly as many bytes as asked for or fails with the errno of
    [ptrace]. *)

From S2P Require Import Prelude Machine SimKernel Ptrace Process DebuggerState Debugger Breakpoints ByteReader.
From S2P Require Ptrace.

Section Reads.
Context `{K : Kernel} `{L : !KernelLaws K}.

(** A read of [n] bytes: a list of that length, or a [PtraceError]. *)
Definition read_result (n : Z) (r : res (list byte)) : Prop :=
  match r with
  | Ok l => size_of l = n
  | Throw e => is_ptrace_error e = true
  | Undef _ | OutOfFuel => False
  end.

Lemma peek_word_same pid a w :
  exists r, Ptrace.peek_word pid a w = (r, w) /\
    match r with Ok _ => True | Throw e => is_ptrace_error e = true | _ => False end.
Proof.
  unfold peek_word, sys. pose proof (law_peek_world pid a w) as Hw.
  destruct (k_peekdata pid a w) as [[e|v] w']; simpl in Hw; subst; by eexists.
Qed.

Lemma length_word_bytes v n : length (word_bytes v n) = n.
Proof. unfold word_bytes. by rewrite length_map, length_seq. Qed.

Lemma read_memory_loop_same fuel pid a len off w :
  len - off <= 8 * Z.of_nat fuel ->
  exists r, Ptrace.read_memory_loop fuel pid a len off w = (r, w) /\ read_result (Z.max 0 (len - off)) r.
Proof.
  revert off. induction fuel as [|fuel IH]; intros off Hf; cbn [Ptrace.read_memory_loop];
    (destruct (Z.ltb_spec off len); [|eexists; split; [done|simpl; unfold size_of; simpl; lia]]); [lia|].
  destruct (peek_word_same pid (u64 (a + off)) w) as (r & Hr & Hp). unfold mbind, M_bind. rewrite Hr.
  destruct r as [v|e|w'|]; [|by eexists|done|done].
  destruct (IH (off + 8)) as (r' & Hr' & Hs'); [lia|]. rewrite Hr'.
  destruct r' as [l|e|w'|]; [|by eexists|done|done]. eexists. split; [done|].
  cbn [read_result] in *. unfold size_of in *. rewrite length_app, length_word_bytes. lia.
Qed.

Lemma registers_same s tid : tracee s tid -> registers s = (Ok (k_regs (st_world s) tid), s).
Proof.
  intros Ht. unfold registers. rewrite (run_stopped_tid _ _ _ Ht).
  erewrite kernel_run; [|unfold get_registers, sys; by rewrite law_getregs by apply Ht]. by destruct s.
Qed.

Lemma read_memory_same s tid a n : tracee s tid -> 0 <= n ->
  exists r, read_memory a n s = (r, s) /\ read_result n r.
Proof.
  intros Ht Hn. unfold read_memory. rewrite (run_stopped_tid _ _ _ Ht).
  destruct (read_memory_loop_same (Z.to_nat n) tid a n 0 (st_world s)) as (r & Hr & Hs); [lia|].
  exists r. erewrite kernel_run by exact Hr. split; [by destruct s|]. by replace n with (Z.max 0 (n - 0)) by lia.
Qed.
End Reads.
