(* ===== verification/FramePointer.v ===== *)
(** * Frame-pointer unwinding ([src/unwind/frame_pointer.cpp]) *)

From S2P Require Import Prelude Machine SimKernel Ptrace Process DebuggerState Debugger Breakpoints ByteReader TraceeReads.

(* src/unwind/frame_pointer.hpp:11-16 UnwindStopReason *)
Inductive UnwindStopReason := EndOfChain | FrameLimit | InvalidFramePointer | MemoryReadError.
(* src/unwind/frame_pointer.hpp:18-21 StackFrame *)
Record StackFrame := mkStackFrame { sf_instruction_pointer : Z; sf_frame_pointer : Z }.
(* src/unwind/frame_pointer.hpp:23-26 Backtrace *)
Record Backtrace := mkBacktrace { bt_frames : list StackFrame; bt_stop_reason : UnwindStopReason }.

#[export] Instance UnwindStopReason_eq_dec : EqDecision UnwindStopReason.
Proof. solve_decision. Defined.

(** Eight bytes from [offset] on, the lowest first; an index past the end is undefined. *)
(* src/unwind/frame_pointer.cpp:15-20 read_u64 *)
Fixpoint read_u64_loop (n : nat) (bytes : list byte) (offset shift value : Z) : res Z :=
  match n with
  | O => Ok value
  | S n =>
    byte ← byte_at bytes offset;
    read_u64_loop n bytes (offset + 1) (shift + 8) (Z.lor value (u64 (Z.shiftl byte shift)))
  end.
(* src/unwind/frame_pointer.cpp:14-21 read_u64 *)
Definition read_u64 (bytes : list byte) (offset : Z) : res Z := read_u64_loop 8 bytes offset 0 0.

(* src/unwind/frame_pointer.cpp:88-100 unwind_stop_reason_name *)
Definition unwind_stop_reason_name (reason : UnwindStopReason) : string :=
  match reason with
  | EndOfChain => "end of frame chain"
  | FrameLimit => "frame limit reached"
  | InvalidFramePointer => "invalid frame pointer"
  | MemoryReadError => "frame memory is unreadable"
  end.

Section FramePointer.
Context `{K : Kernel}.

(** [try { ... } catch (const lowlevel::PtraceError&)]: [None] when it is caught. *)
Definition catch_ptrace {A} (m : M dst A) : M dst (option A) :=
  mcatch (a ← m; mret (Some a)) (fun e => if is_ptrace_error e then mret None else lift (Throw e)).

(** Every turn appends a frame or returns, so there are at most [max_frames] turns. *)
(* src/unwind/frame_pointer.cpp:44-85 unwind_frame_pointers *)
Fixpoint unwind_loop (fuel : nat) (max_frames max_frame_span frame_pointer : Z) (frames : list StackFrame)
    : M dst Backtrace :=
  if negb (frame_pointer =? 0) then
    match fuel with
    | O => mout_of_fuel
    | S fuel =>
      if negb (frame_pointer mod 8 =? 0) then mret (mkBacktrace frames InvalidFramePointer)
      else
        frame_data ← catch_ptrace (read_memory frame_pointer 16);
        match frame_data with
        | None => mret (mkBacktrace frames MemoryReadError)
        | Some frame_data =>
          next_frame_pointer ← lift (read_u64 frame_data 0);
          return_address ← lift (read_u64 frame_data 8);
          if return_address =? 0 then mret (mkBacktrace frames EndOfChain)
          else if next_frame_pointer =? 0 then
            mret (mkBacktrace (frames ++ [mkStackFrame return_address 0]) EndOfChain)
          else if (next_frame_pointer <=? frame_pointer) ||
                  (max_frame_span <? u64 (next_frame_pointer - frame_pointer)) then
            mret (mkBacktrace frames InvalidFramePointer)
          else
            let frames := frames ++ [mkStackFrame return_address next_frame_pointer] in
            if max_frames <=? size_of frames then mret (mkBacktrace frames FrameLimit)
            else unwind_loop fuel max_frames max_frame_span next_frame_pointer frames
        end
    end
  else mret (mkBacktrace frames EndOfChain).

(* src/unwind/frame_pointer.cpp:25-86 unwind_frame_pointers *)
Definition unwind_frame_pointers (max_frames max_frame_span : Z) : M dst Backtrace :=
  _ ← mthrow_if (max_frames =? 0) InvalidArgument "frame-pointer unwind requires a non-zero frame limit";
  _ ← mthrow_if (max_frame_span =? 0) InvalidArgument "frame-pointer unwind requires a non-zero frame span";
  regs ← registers;
  let frames := [mkStackFrame (rip regs) (rbp regs)] in
  if max_frames =? 1 then mret (mkBacktrace frames FrameLimit)
  else unwind_loop (Z.to_nat max_frames) max_frames max_frame_span (rbp regs) frames.
End FramePointer.

(** ** The words of a frame record *)

Lemma read_u64_loop_spec n bytes offset shift value :
  0 <= offset -> offset + Z.of_nat n <= size_of bytes -> 0 <= shift -> shift + 8 * Z.of_nat n <= 64 ->
  0 <= value < 2 ^ shift ->
  read_u64_loop n bytes offset shift value =
    Ok (value + 2 ^ shift * le_combine (take n (drop (Z.to_nat offset) bytes))).
Proof.
  revert offset shift value. induction n as [|n IH]; intros offset shift value Ho Hn Hs Hw Hv; cbn [read_u64_loop take].
  { f_equal. destruct (drop _ _); simpl; lia. }
  unfold byte_at. destruct (bytes !! Z.to_nat offset) as [b|] eqn:E.
  2: { apply lookup_ge_None in E. unfold size_of in Hn. lia. }
  cbn [mbind res_bind]. pose proof (byte_val_range b) as Hb.
  assert (H256 : 2 ^ (shift + 8) = 256 * 2 ^ shift) by (rewrite Z.pow_add_r by lia; lia).
  assert (Hle : 2 ^ (shift + 8) <= 2 ^ 64) by (apply Z.pow_le_mono_r; lia).
  rewrite u64_shiftl, lor_low_high by nia. rewrite IH by nia.
  replace (Z.to_nat (offset + 1)) with (S (Z.to_nat offset)) by lia.
  rewrite (drop_S _ b _ E). cbn [take le_combine]. rewrite H256. f_equal. ring.
Qed.

Lemma read_u64_halves l : size_of l = 16 ->
  read_u64 l 0 = Ok (le_combine (take 8 l)) /\ read_u64 l 8 = Ok (le_combine (drop 8 l)).
Proof.
  intros Hl. unfold read_u64. rewrite !read_u64_loop_spec by lia. change (2 ^ 0) with 1.
  rewrite !Z.add_0_l, !Z.mul_1_l. split; [done|]. rewrite take_ge; [done|].
  rewrite length_drop. unfold size_of in Hl. change (Z.to_nat 8) with 8%nat. lia.
Qed.

Lemma le_combine_u64 l : (length l <= 8)%nat -> in_u64 (le_combine l).
Proof.
  intros Hl. pose proof (le_combine_bound l) as Hb. unfold in_u64, u64_max.
  assert (256 ^ Z.of_nat (length l) <= 256 ^ 8) by (apply Z.pow_le_mono_r; lia). lia.
Qed.

Section Spec.
Context `{K : Kernel} `{L : !KernelLaws K}.

(** The record at [fp]: the saved frame pointer, and above it the return address. *)
Definition frame_record (s : dst) (fp next ret : Z) : Prop :=
  exists l, read_memory fp 16 s = (Ok l, s) /\ next = le_combine (take 8 l) /\ ret = le_combine (drop 8 l).

(** [g] is the caller's frame that the record of [f] describes. *)
Definition linked (s : dst) (span : Z) (f g : StackFrame) : Prop :=
  sf_frame_pointer f <> 0 /\ sf_frame_pointer f mod 8 = 0 /\
  frame_record s (sf_frame_pointer f) (sf_frame_pointer g) (sf_instruction_pointer g) /\
  sf_instruction_pointer g <> 0 /\
  (sf_frame_pointer g = 0 \/ 0 < sf_frame_pointer g - sf_frame_pointer f <= span).

(** Why the walk stopped at a frame with the frame pointer [fp]. *)
Definition stopped_at (s : dst) (span fp : Z) (reason : UnwindStopReason) : Prop :=
  match reason with
  | FrameLimit => True
  | EndOfChain => fp = 0 \/ exists next, frame_record s fp next 0
  | InvalidFramePointer => fp <> 0 /\ (fp mod 8 <> 0 \/
      exists next ret, frame_record s fp next ret /\ next <> 0 /\ (next <= fp \/ span < next - fp))
  | MemoryReadError => exists e, read_memory fp 16 s = (Throw e, s)
  end.

(** The frames of a finished walk: each is linked to the next, there are at most [limit],
    and exactly that many when the limit is why it stopped. *)
Definition walk (s : dst) (span limit : Z) (bt : Backtrace) : Prop :=
  Sorted (linked s span) (bt_frames bt) /\ size_of (bt_frames bt) <= limit /\
  (bt_stop_reason bt = FrameLimit -> size_of (bt_frames bt) = limit) /\
  exists f, last (bt_frames bt) = Some f /\ stopped_at s span (sf_frame_pointer f) (bt_stop_reason bt).

Lemma catch_ptrace_run {A} (m : M dst A) s r : m s = (r, s) ->
  catch_ptrace m s = (match r with
                      | Ok a => Ok (Some a)
                      | Throw e => if is_ptrace_error e then Ok None else Throw e
                      | Undef w => Undef w
                      | OutOfFuel => OutOfFuel
                      end, s).
Proof.
  intros Hm. unfold catch_ptrace, mcatch, mbind, M_bind. rewrite Hm. destruct r as [a|e|w|]; try done.
  by destruct (is_ptrace_error e).
Qed.

Lemma walk_stops s span max l f r :
  Sorted (linked s span) (l ++ [f]) -> size_of (l ++ [f]) <= max -> stopped_at s span (sf_frame_pointer f) r ->
  (r = FrameLimit -> size_of (l ++ [f]) = max) -> walk s span max (mkBacktrace (l ++ [f]) r).
Proof. intros Hs Hl Hr Hf. do 3 (split; [done|]). exists f. split; [apply last_snoc|done]. Qed.

(** [frame_record] is what the loop reads. *)
Lemma read_record s tid fp : tracee s tid ->
  (exists e, read_memory fp 16 s = (Throw e, s) /\ is_ptrace_error e = true) \/
  (exists l, read_memory fp 16 s = (Ok l, s) /\ frame_record s fp (le_combine (take 8 l)) (le_combine (drop 8 l)) /\
     read_u64 l 0 = Ok (le_combine (take 8 l)) /\ read_u64 l 8 = Ok (le_combine (drop 8 l)) /\
     in_u64 (le_combine (take 8 l))).
Proof.
  intros Ht. destruct (read_memory_same s tid fp 16 Ht) as (r & Hr & Hres); [lia|].
  destruct r as [l|e|w|]; cbn [read_result] in Hres; [right|left; by exists e|done..].
  exists l. split; [done|]. split; [by exists l|]. destruct (read_u64_halves l Hres) as [E1 E2].
  split; [done|]. split; [done|]. apply le_combine_u64. rewrite length_take. lia.
Qed.

Lemma unwind_loop_walk s tid fuel max span frames f :
  tracee s tid -> in_u64 (sf_frame_pointer f) ->
  Sorted (linked s span) (frames ++ [f]) -> size_of (frames ++ [f]) < max ->
  max - size_of (frames ++ [f]) <= Z.of_nat fuel ->
  exists bt rest, unwind_loop fuel max span (sf_frame_pointer f) (frames ++ [f]) s = (Ok bt, s) /\
    bt_frames bt = frames ++ f :: rest /\ walk s span max bt.
Proof.
  intros Ht. revert frames f. induction fuel as [|fuel IH]; intros frames f Hf Hs Hlt Hfuel; [lia|].
  assert (Hend : forall r, stopped_at s span (sf_frame_pointer f) r -> r <> FrameLimit ->
    exists bt rest, (Ok (mkBacktrace (frames ++ [f]) r), s) = (Ok bt, s) /\ bt_frames bt = frames ++ f :: rest /\ walk s span max bt).
  { intros r Hr Hn. eexists _, []. split; [done|]. split; [done|]. apply walk_stops; done || lia. }
  cbn [unwind_loop]. destruct (Z.eqb_spec (sf_frame_pointer f) 0) as [E0|E0]; cbn [negb]; [apply Hend; [by left|done]|].
  destruct (Z.eqb_spec (sf_frame_pointer f mod 8) 0) as [E8|E8]; cbn [negb]; [|apply Hend; [split; [done|by left]|done]].
  unfold mbind at 1, M_bind at 1.
  destruct (read_record s tid (sf_frame_pointer f) Ht) as [(e & He & Hp)|(l & Hl & Hrec & E1 & E2 & Hn)].
  { rewrite (catch_ptrace_run _ _ _ He), Hp. apply Hend; [by exists e|done]. }
  rewrite (catch_ptrace_run _ _ _ Hl), E1, run_lift_Ok, E2, run_lift_Ok.
  clear E1 E2. revert Hrec Hn. generalize (le_combine (take 8 l)) (le_combine (drop 8 l)). intros next ret Hrec Hn.
  destruct (Z.eqb_spec ret 0) as [->|Eret]; [apply Hend; [right; by exists next|done]|].
  assert (Hlink : (next = 0 \/ 0 < next - sf_frame_pointer f <= span) -> Sorted (linked s span) ((frames ++ [f]) ++ [mkStackFrame ret next]))
    by (intros; apply sorted_snoc; [done|]; by repeat split).
  pose proof (size_snoc (frames ++ [f]) (mkStackFrame ret next)) as Hsize.
  destruct (Z.eqb_spec next 0) as [->|Enext].
  { eexists _, [_]. split; [done|]. split; [by rewrite <- app_assoc|].
    apply walk_stops; [by apply Hlink; left|lia|by left|done]. }
  destruct (Z.leb_spec next (sf_frame_pointer f)) as [Hle|Hgt]; cbn [orb].
  { apply Hend; [|done]. split; [done|]. right. exists next, ret. split; [done|]. split; [done|by left]. }
  rewrite u64_small by (unfold in_u64 in *; lia).
  destruct (Z.ltb_spec span (next - sf_frame_pointer f)) as [Hbig|Hspan].
  { apply Hend; [|done]. split; [done|]. right. exists next, ret. split; [done|]. split; [done|by right]. }
  destruct (Z.leb_spec max (size_of ((frames ++ [f]) ++ [mkStackFrame ret next]))) as [Hmax|Hmax].
  - eexists _, [_]. split; [done|]. split; [by rewrite <- app_assoc|]. apply walk_stops; [apply Hlink; lia|lia|done|lia].
  - destruct (IH (frames ++ [f]) (mkStackFrame ret next)) as (bt & rest & H1 & H2 & H3); [done|apply Hlink; lia|lia..|].
    exists bt, (mkStackFrame ret next :: rest). split; [exact H1|]. by rewrite H2, <- app_assoc.
Qed.

(** frame-pointer unwinding of a stopped tracee always ends, without touching it: it refuses a
    zero limit or span, and else returns the walk that starts at the registers. Every frame is
    what the record at the frame pointer of the frame below says, frame pointers are aligned and
    grow by at most the span, there are at most [max_frames] frames, and the reason says why the
    walk stopped. *)
Theorem unwind_frame_pointers_walk s tid max span :
  tracee s tid -> in_u64 (rbp (k_regs (st_world s) tid)) -> 0 <= max ->
  if (max =? 0) || (span =? 0)
  then exists msg, unwind_frame_pointers max span s = (Throw (Exn InvalidArgument msg), s)
  else exists bt rest, unwind_frame_pointers max span s = (Ok bt, s) /\
    bt_frames bt = mkStackFrame (rip (k_regs (st_world s) tid)) (rbp (k_regs (st_world s) tid)) :: rest /\
    walk s span max bt.
Proof.
  intros Ht Hfp Hmax. unfold unwind_frame_pointers. rewrite run_throw_if.
  destruct (Z.eqb_spec max 0) as [->|Hm]; cbn [orb]; [by eexists|]. rewrite run_throw_if.
  destruct (Z.eqb_spec span 0) as [->|Hsp]; [by eexists|].
  rewrite (run_Ok _ _ _ _ _ (registers_same s tid Ht)). set (regs := k_regs (st_world s) tid) in *.
  destruct (Z.eqb_spec max 1) as [->|Hm1].
  - eexists _, []. split; [done|]. split; [done|]. apply (walk_stops s span 1 []); [by repeat constructor|done..].
  - apply (unwind_loop_walk s tid (Z.to_nat max) max span [] (mkStackFrame (rip regs) (rbp regs)) Ht Hfp);
      [by apply Sorted_cons|simpl; unfold size_of; simpl; lia..].
Qed.
End Spec.

(** ** Two frame records on the concrete kernel *)

Definition demo_frames_dst : dst (K := SimKernel) :=
  mkSt (new_debugger demo_tracee demo_stop "/bin/tracee")
    (mkSim (sim_store (sim_store (sim_store (sim_store ∅ 0x1000 (le_split 8 0x1010)) 0x1008 (le_split 8 0x401111))
              0x1010 (le_split 8 0)) 0x1018 (le_split 8 0x402222))
       {[100 := Regs 0 0 0 0 0x1000 0 0 0 0 0 0 0 0 0 0 0 0x400000 0 0 0x0ff0 0 0 0 0 0 0 0]} ∅ [] 0 ["100"] ∅) 0.

Lemma demo_frames_tracee : tracee (L := SimKernelLaws) demo_frames_dst 100.
Proof. split; reflexivity || exact I. Qed.

Example demo_frames_unwind :
  fst (unwind_frame_pointers 64 0x1000000 demo_frames_dst) =
    Ok (mkBacktrace [mkStackFrame 0x400000 0x1000; mkStackFrame 0x401111 0x1010; mkStackFrame 0x402222 0] EndOfChain).
Proof. vm_compute. reflexivity. Qed.

Lemma unwind_frame_pointers_walk_witness :
  exists bt, walk (K := SimKernel) demo_frames_dst 0x1000000 64 bt.
Proof.
  assert (Hfp : in_u64 (rbp (k_regs (KernelLaws := SimKernelLaws) (st_world demo_frames_dst) 100)))
    by (vm_compute; split; discriminate).
  destruct (unwind_frame_pointers_walk (K := SimKernel) demo_frames_dst 100 64 0x1000000
    demo_frames_tracee Hfp ltac:(discriminate)) as (bt & rest & _ & _ & Hw).
  exists bt. exact Hw.
Defined.
