(* ===== verification/ElfFormat.v ===== *)
(** * The structures of [<elf.h>] and [<sys/procfs.h>]

    The records the parsers copy out of a file with [memcpy], with the field offsets
    of the x86-64 System V ABI, and the file system the parsers read from. *)

From S2P Require Import Prelude Machine ByteReader.

(** ** Files and process maps *)

Class Host := {
  (** [std::ifstream] in binary mode, the size by [tellg], one [read] *)
  h_file : string -> file_result;
  (** [std::filesystem::canonical]; [None]: an error *)
  h_canonical : string -> option string;
  (** [std::filesystem::is_regular_file] *)
  h_regular : string -> bool;
  (** [sysconf(_SC_PAGESIZE)] *)
  h_page_size : Z
}.

(** The lines of [/proc/<pid>/maps]; [None]: it cannot be opened. *)
Class ProcMaps (K : Kernel) := { k_maps : Z -> world -> option (list string) }.

(** Files read piece by piece. *)
Class FileAccess := {
  (** every byte up to the end of the file; outer [None]: it cannot be opened, inner
      [None]: a read fails before the end *)
  f_stream : string -> option (option (list byte));
  (** [seekg] to the end and [tellg]; outer [None]: it cannot be opened, inner [None]:
      the position cannot be told *)
  f_size : string -> option (option Z);
  (** [seekg] and one [read] of that many bytes from an open file *)
  f_read_at : string -> Z -> Z -> option (list byte)
}.

(** ** Headers *)

Record Elf64_Ehdr := mkEhdr {
  e_ident : list byte; e_type : Z; e_machine : Z; e_version : Z; e_entry : Z; e_phoff : Z; e_shoff : Z;
  e_phentsize : Z; e_phnum : Z; e_shentsize : Z; e_shnum : Z; e_shstrndx : Z
}.
Definition sizeof_Ehdr : Z := 64.
Definition ehdr_at (b : list byte) (o : Z) : Elf64_Ehdr :=
  mkEhdr (take 16 (drop (Z.to_nat o) b)) (le_at b (o + 16) 2) (le_at b (o + 18) 2) (le_at b (o + 20) 4)
    (le_at b (o + 24) 8) (le_at b (o + 32) 8) (le_at b (o + 40) 8) (le_at b (o + 54) 2) (le_at b (o + 56) 2)
    (le_at b (o + 58) 2) (le_at b (o + 60) 2) (le_at b (o + 62) 2).

(** [e_ident[i]] *)
Definition ident (h : Elf64_Ehdr) (i : nat) : Z := default 0 (byte_val <$> e_ident h !! i).
Definition has_elf_magic (h : Elf64_Ehdr) : bool :=
  (ident h 0 =? 0x7f) && (ident h 1 =? 0x45) && (ident h 2 =? 0x4c) && (ident h 3 =? 0x46).
Definition EI_CLASS : nat := 4.
Definition EI_DATA : nat := 5.
Definition EI_VERSION : nat := 6.
Definition ELFCLASS64 := 2.
Definition ELFDATA2LSB := 1.
Definition EV_CURRENT := 1.
Definition EM_X86_64 := 62.
Definition ET_EXEC := 2.
Definition ET_DYN := 3.
Definition ET_CORE := 4.
Definition PN_XNUM := 0xffff.
Definition SHN_UNDEF := 0.
Definition SHN_XINDEX := 0xffff.
Definition SHF_COMPRESSED := 0x800.

Record Elf64_Phdr := mkPhdr {
  p_type : Z; p_flags : Z; p_offset : Z; p_vaddr : Z; p_filesz : Z; p_memsz : Z
}.
Definition sizeof_Phdr : Z := 56.
Definition phdr_at (b : list byte) (o : Z) : Elf64_Phdr :=
  mkPhdr (le_at b o 4) (le_at b (o + 4) 4) (le_at b (o + 8) 8) (le_at b (o + 16) 8)
    (le_at b (o + 32) 8) (le_at b (o + 40) 8).
Definition PT_LOAD := 1.
Definition PT_NOTE := 4.

Record Elf64_Shdr := mkShdr {
  sh_name : Z; sh_type : Z; sh_flags : Z; sh_addr : Z; sh_offset : Z; sh_size : Z;
  sh_link : Z; sh_entsize : Z
}.
Definition sizeof_Shdr : Z := 64.
Definition shdr_at (b : list byte) (o : Z) : Elf64_Shdr :=
  mkShdr (le_at b o 4) (le_at b (o + 4) 4) (le_at b (o + 8) 8) (le_at b (o + 16) 8)
    (le_at b (o + 24) 8) (le_at b (o + 32) 8) (le_at b (o + 40) 4) (le_at b (o + 56) 8).
Definition SHT_SYMTAB := 2.
Definition SHT_DYNSYM := 11.

Record Elf64_Sym := mkSym { st_name : Z; st_info : Z; st_shndx : Z; st_value : Z; st_size : Z }.
Definition sizeof_Sym : Z := 24.
Definition sym_at (b : list byte) (o : Z) : Elf64_Sym :=
  mkSym (le_at b o 4) (le_at b (o + 4) 1) (le_at b (o + 6) 2) (le_at b (o + 8) 8) (le_at b (o + 16) 8).
Definition ELF64_ST_BIND (info : Z) : Z := Z.shiftr info 4.
Definition ELF64_ST_TYPE (info : Z) : Z := Z.land info 0xf.
Definition STT_NOTYPE := 0.
Definition STT_FUNC := 2.
Definition STT_SECTION := 3.
Definition STT_FILE := 4.
Definition STB_GLOBAL := 1.

Record Elf64_Nhdr := mkNhdr { n_namesz : Z; n_descsz : Z; n_type : Z }.
Definition sizeof_Nhdr : Z := 12.
Definition nhdr_at (b : list byte) (o : Z) : Elf64_Nhdr :=
  mkNhdr (le_at b o 4) (le_at b (o + 4) 4) (le_at b (o + 8) 4).
Definition NT_PRSTATUS := 1.
Definition NT_FPREGSET := 2.
Definition NT_PRPSINFO := 3.
Definition NT_AUXV := 6.
Definition NT_SIGINFO := 0x53494749.
Definition NT_FILE := 0x46494c45.

(** ** Note payloads ([elf_prstatus], [elf_prpsinfo], [siginfo_t], [user_fpregs_struct]) *)

(** The register file at [o], in the order of [user_regs_struct]. *)
Definition regs_at (b : list byte) (o : Z) : user_regs_struct :=
  let r i := le_at b (o + 8 * i) 8 in
  Regs (r 0) (r 1) (r 2) (r 3) (r 4) (r 5) (r 6) (r 7) (r 8) (r 9) (r 10) (r 11) (r 12) (r 13)
    (r 14) (r 15) (r 16) (r 17) (r 18) (r 19) (r 20) (r 21) (r 22) (r 23) (r 24) (r 25) (r 26).

Record elf_prstatus := mkPrstatus {
  pr_info_si_signo : Z; pr_cursig : Z; pr_pid : Z; pr_reg : user_regs_struct
}.
Definition sizeof_prstatus : Z := 336.
Definition prstatus_at (b : list byte) (o : Z) : elf_prstatus :=
  mkPrstatus (to_signed 32 (le_at b o 4)) (to_signed 16 (le_at b (o + 12) 2))
    (to_signed 32 (le_at b (o + 32) 4)) (regs_at b (o + 112)).

Record elf_prpsinfo := mkPrpsinfo {
  psinfo_pid : Z; psinfo_ppid : Z; psinfo_pgrp : Z; psinfo_sid : Z;
  psinfo_fname : list byte; psinfo_psargs : list byte
}.
Definition sizeof_prpsinfo : Z := 136.
Definition bytes_at (b : list byte) (o n : Z) : list byte := take (Z.to_nat n) (drop (Z.to_nat o) b).
Definition prpsinfo_at (b : list byte) (o : Z) : elf_prpsinfo :=
  mkPrpsinfo (to_signed 32 (le_at b (o + 24) 4)) (to_signed 32 (le_at b (o + 28) 4))
    (to_signed 32 (le_at b (o + 32) 4)) (to_signed 32 (le_at b (o + 36) 4))
    (bytes_at b (o + 40) 16) (bytes_at b (o + 56) 80).

Record siginfo_t := mkSiginfo { si_signo : Z; si_code : Z; si_addr : Z }.
Definition sizeof_siginfo : Z := 128.
Definition siginfo_at (b : list byte) (o : Z) : siginfo_t :=
  mkSiginfo (to_signed 32 (le_at b o 4)) (to_signed 32 (le_at b (o + 8) 4)) (le_at b (o + 16) 8).

Record user_fpregs_struct := mkFpregs { fp_mxcsr : Z; fp_mxcr_mask : Z; fp_xmm_space : list byte }.
Definition sizeof_fpregs : Z := 512.
Definition fpregs_at (b : list byte) (o : Z) : user_fpregs_struct :=
  mkFpregs (le_at b (o + 24) 4) (le_at b (o + 28) 4) (bytes_at b (o + 160) 256).

Record Elf64_auxv_t := mkAuxv { a_type : Z; a_val : Z }.
Definition sizeof_auxv : Z := 16.
Definition auxv_at (b : list byte) (o : Z) : Elf64_auxv_t := mkAuxv (le_at b o 8) (le_at b (o + 8) 8).
Definition AT_NULL := 0.
Definition AT_PHDR := 3.
Definition AT_PHNUM := 5.
Definition AT_PAGESZ := 6.
Definition AT_BASE := 7.
Definition AT_ENTRY := 9.

(** ** Bounds *)

Lemma le_at_range b o n : 0 <= n -> 0 <= le_at b o n < 256 ^ n.
Proof.
  intros Hn. unfold le_at. set (l := take _ _).
  pose proof (le_combine_bound l) as H.
  assert (256 ^ Z.of_nat (length l) <= 256 ^ n).
  { apply Z.pow_le_mono_r; [lia|]. unfold l. rewrite length_take. lia. }
  lia.
Qed.

Lemma le_at_u64 b o : in_u64 (le_at b o 8).
Proof. pose proof (le_at_range b o 8 ltac:(lia)) as H. unfold in_u64, u64_max. change (256 ^ 8) with 18446744073709551616 in H. lia. Qed.
Lemma le_at_u32 b o : 0 <= le_at b o 4 < 4294967296.
Proof. exact (le_at_range b o 4 ltac:(lia)). Qed.
Lemma le_at_u16 b o : 0 <= le_at b o 2 < 65536.
Proof. exact (le_at_range b o 2 ltac:(lia)). Qed.
Lemma le_at_u8 b o : 0 <= le_at b o 1 < 256.
Proof. exact (le_at_range b o 1 ltac:(lia)). Qed.
