(* ===== verification/SourcePath.v ===== *)
(** * Source path substitution ([src/source/source_path.hpp])

    A resolver holds prefix substitutions; the longest matching prefix wins, and a
    candidate counts only when it is a regular file. *)

From S2P Require Import Prelude Machine Paths ByteReader ElfFormat.

(* src/source/source_path.hpp:47-50 Substitution *)
Record Substitution := mkSubstitution { sub_from : string; sub_to : string }.

(** [substitutions_] *)
(* src/source/source_path.hpp:113-113 SourcePathResolver *)
Definition SourcePathResolver : Type := list Substitution.

(* src/source/source_path.hpp:52-54 SourcePathResolver::normalized *)
Definition normalized (path : string) : string := lexically_normal path.

(** The assignment of the loop, or the [push_back] after it. *)
(* src/source/source_path.hpp:24-30 SourcePathResolver::add_substitution *)
Fixpoint put_substitution (from to : string) (substitutions : list Substitution) : list Substitution :=
  match substitutions with
  | [] => [mkSubstitution from to]
  | substitution :: rest =>
    if path_eqb (sub_from substitution) from then mkSubstitution (sub_from substitution) to :: rest
    else substitution :: put_substitution from to rest
  end.

(* src/source/source_path.hpp:14-31 SourcePathResolver::add_substitution *)
Definition add_substitution (from to : string) (r : SourcePathResolver) : res SourcePathResolver :=
  let from := normalized from in
  let to := normalized to in
  _ ← throw_if (String.eqb from EmptyString || path_eqb from ".")
        (Exn InvalidArgument "source substitution prefix must not be empty");
  _ ← throw_if (String.eqb to EmptyString)
        (Exn InvalidArgument "source substitution target must not be empty");
  Ok (put_substitution from to r).

(** Both iterators advance together. *)
(* src/source/source_path.hpp:56-63 SourcePathResolver::has_component_prefix *)
Fixpoint component_prefix (path prefix : list string) : bool :=
  match prefix, path with
  | [], _ => true
  | _ :: _, [] => false
  | x :: prefix, y :: path => if String.eqb y x then component_prefix path prefix else false
  end.

(* src/source/source_path.hpp:56-63 SourcePathResolver::has_component_prefix *)
Definition has_component_prefix (path prefix : string) : bool :=
  component_prefix (components path) (components prefix).

(* src/source/source_path.hpp:65-69 SourcePathResolver::component_count *)
Definition component_count (path : string) : nat := length (components path).

(** [path_it] is advanced once per element of the prefix. *)
(* src/source/source_path.hpp:71-79 SourcePathResolver::suffix_after *)
Definition suffix_after (path prefix : string) : string :=
  foldl path_append EmptyString (drop (length (components prefix)) (components path)).

(** The longest matching substitution; the first of those of equal length. *)
(* src/source/source_path.hpp:84-93 SourcePathResolver::substituted_candidate *)
Definition best_substitution (path : string) (r : SourcePathResolver) : option Substitution :=
  foldl (fun best substitution =>
    if negb (has_component_prefix path (sub_from substitution)) then best
    else match best with
         | None => Some substitution
         | Some b => if (component_count (sub_from b) <? component_count (sub_from substitution))%nat
                     then Some substitution else best
         end) None r.

(* src/source/source_path.hpp:81-96 SourcePathResolver::substituted_candidate *)
Definition substituted_candidate (candidate : string) (r : SourcePathResolver) : option string :=
  let normalized_candidate := normalized candidate in
  best ← best_substitution normalized_candidate r;
  Some (normalized (path_append (sub_to best) (suffix_after normalized_candidate (sub_from best)))).

Section Resolve.
Context `{H : Host}.

(* src/source/source_path.hpp:98-111 SourcePathResolver::resolve_candidate *)
Definition resolve_candidate (candidate : string) (r : SourcePathResolver) : option string :=
  let unsubstituted :=
    let normalized_candidate := normalized candidate in
    if h_regular normalized_candidate then Some normalized_candidate else None in
  match substituted_candidate candidate r with
  | Some substituted => if h_regular substituted then Some substituted else unsubstituted
  | None => unsubstituted
  end.

(* src/source/source_path.hpp:33-44 SourcePathResolver::resolve *)
Definition resolve (recorded_file module_path : string) (r : SourcePathResolver) : option string :=
  if String.eqb recorded_file EmptyString then None
  else
    match resolve_candidate recorded_file r with
    | Some resolved => Some resolved
    | None =>
      if negb (path_is_absolute recorded_file) && negb (String.eqb module_path EmptyString)
      then resolve_candidate (path_append (path_parent module_path) recorded_file) r
      else None
    end.
End Resolve.

(** ** The table of substitutions *)

(** Prefixes are distinct, normal and not empty; so are the targets. *)
Record wf_resolver (r : SourcePathResolver) : Prop := {
  wf_distinct : NoDup (map (fun s => components (sub_from s)) r);
  wf_normal : Forall (fun s => normalized (sub_from s) = sub_from s /\ normalized (sub_to s) = sub_to s) r;
  wf_nonempty : Forall (fun s => sub_from s <> EmptyString /\ sub_to s <> EmptyString) r
}.

(** The target that a prefix is replaced with. *)
Definition target (r : SourcePathResolver) (from : string) : option string :=
  '(_, s) ← list_find (fun s => components (sub_from s) = components from) r; Some (sub_to s).

Lemma put_froms from to r :
  map (fun s => components (sub_from s)) (put_substitution from to r) =
    (if bool_decide (components from ∈ map (fun s => components (sub_from s)) r)
     then map (fun s => components (sub_from s)) r
     else map (fun s => components (sub_from s)) r ++ [components from]).
Proof.
  induction r as [|s r IH]; [done|]. cbn [put_substitution map]. unfold path_eqb.
  destruct (decide (components (sub_from s) = components from)) as [E|E].
  - rewrite (bool_decide_true (_ = _)), bool_decide_true by (try done; rewrite E; left). done.
  - rewrite (bool_decide_false (_ = _)) by done. cbn [map]. rewrite IH. case_bool_decide as Hin.
    + rewrite bool_decide_true; [done|]. by right.
    + rewrite bool_decide_false; [done|]. intros [H|H]%elem_of_cons; [congruence|done].
Qed.

Lemma put_Forall (P : Substitution -> Prop) from to r :
  Forall P r -> P (mkSubstitution from to) ->
  (forall s, s ∈ r -> path_eqb (sub_from s) from = true -> P (mkSubstitution (sub_from s) to)) ->
  Forall P (put_substitution from to r).
Proof.
  intros Hr Hn He. induction r as [|s r IH]; [by constructor|]. apply Forall_cons in Hr as [Hs Hr]. cbn [put_substitution].
  destruct (path_eqb (sub_from s) from) eqn:E; constructor; try done.
  - apply He; [left|done].
  - apply IH; [done|]. intros s' Hs'. apply He. by right.
Qed.

Lemma target_put from to r from' :
  target (put_substitution from to r) from' =
    if decide (components from' = components from) then Some to else target r from'.
Proof.
  unfold target. induction r as [|s r IH].
  - cbn [put_substitution list_find mbind option_bind]. cbn [sub_from]. repeat case_decide; naive_solver.
  - cbn [put_substitution]. unfold path_eqb. case_bool_decide as E; cbn [list_find sub_from].
    + repeat case_decide; try done; congruence.
    + destruct (decide (components (sub_from s) = components from')) as [E'|E']; [case_decide; [congruence|done]|].
      destruct (list_find _ (put_substitution from to r)) as [[i x]|]; cbn in IH |- *;
        destruct (list_find _ r) as [[j y]|]; cbn in IH |- *; exact IH.
Qed.

Lemma normalized_idempotent p : normalized (normalized p) = normalized p.
Proof. apply lexically_normal_idempotent. Qed.

Lemma components_dot p : components p = ["."] -> p <> EmptyString.
Proof. by intros ? ->. Qed.

Lemma wf_put from to r :
  wf_resolver r -> normalized from <> EmptyString -> normalized to <> EmptyString ->
  wf_resolver (put_substitution (normalized from) (normalized to) r).
Proof.
  intros [Hd Hn He] Hf Ht. split.
  - rewrite put_froms. case_bool_decide; [done|]. apply NoDup_app. split; [done|]. split; [|apply NoDup_singleton].
    intros x Hx ->%list_elem_of_singleton. done.
  - apply put_Forall; [done| |].
    + split; apply normalized_idempotent.
    + intros s Hs _. rewrite Forall_forall in Hn. split; [apply (Hn s Hs)|apply normalized_idempotent].
  - apply put_Forall; [done|done|]. intros s Hs _. rewrite Forall_forall in He. split; [apply (He s Hs)|done].
Qed.

(** substitutions stay well formed: their prefixes are distinct, normal and not empty. A new
    substitution replaces the target of its prefix and of no other, and an empty prefix or
    target is refused. *)
Theorem add_substitution_wf from to r :
  wf_resolver r ->
  match add_substitution from to r with
  | Ok r' => wf_resolver r' /\
      forall f, target r' f = if decide (components f = components (normalized from))
                              then Some (normalized to) else target r f
  | Throw e => exn_cls e = InvalidArgument /\
      (normalized from = EmptyString \/ components (normalized from) = ["."] \/ normalized to = EmptyString)
  | _ => False
  end.
Proof.
  intros Hr. unfold add_substitution, path_eqb.
  destruct (String.eqb_spec (normalized from) EmptyString) as [E|Ef]; cbn [orb].
  { split; [done|by left]. }
  case_bool_decide as Edot; [split; [done|right; by left]|].
  destruct (String.eqb_spec (normalized to) EmptyString) as [E|Et]; cbn [throw_if mbind res_bind].
  { split; [done|right; by right]. }
  split; [by apply wf_put|intros f; apply target_put].
Qed.

(** ** The longest prefix *)

Lemma component_prefix_spec path prefix :
  component_prefix path prefix = true <-> exists rest, path = prefix ++ rest.
Proof.
  revert path. induction prefix as [|x prefix IH]; intros path; [split; [by exists path|by destruct path]|].
  destruct path as [|y path]; cbn [component_prefix]; [split; [done|by intros (? & ?)]|].
  destruct (String.eqb_spec y x) as [->|Hne].
  - rewrite IH. split; intros [rest Hr]; exists rest; [by rewrite Hr|by injection Hr].
  - split; [done|]. intros (? & [= ? ?]). congruence.
Qed.

(** [s] matches [path], and no matching substitution has a longer prefix. *)
Definition longest_match (path : string) (r : SourcePathResolver) (s : Substitution) : Prop :=
  s ∈ r /\ has_component_prefix path (sub_from s) = true /\
  forall s', s' ∈ r -> has_component_prefix path (sub_from s') = true ->
    (component_count (sub_from s') <= component_count (sub_from s))%nat.

Definition best_step (path : string) (best : option Substitution) (substitution : Substitution) : option Substitution :=
  if negb (has_component_prefix path (sub_from substitution)) then best
  else match best with
       | None => Some substitution
       | Some b => if (component_count (sub_from b) <? component_count (sub_from substitution))%nat
                   then Some substitution else best
       end.

Lemma best_substitution_spec path r :
  match best_substitution path r with
  | Some s => longest_match path r s
  | None => forall s, s ∈ r -> has_component_prefix path (sub_from s) = false
  end.
Proof.
  unfold best_substitution. fold (best_step path).
  induction r as [|s r IH] using rev_ind; [by intros ? ?%not_elem_of_nil|]. rewrite foldl_app. cbn [foldl].
  unfold best_step at 1. destruct (has_component_prefix path (sub_from s)) eqn:E; cbn [negb].
  - destruct (foldl _ None r) as [b|].
    + destruct IH as (Hb & Hp & Hmax). destruct (Nat.ltb_spec (component_count (sub_from b)) (component_count (sub_from s))).
      * repeat split; [by apply elem_of_app; right; apply list_elem_of_singleton|done|].
        intros s' [Hs'| ->%list_elem_of_singleton]%elem_of_app Hp'; [|done]. specialize (Hmax _ Hs' Hp'). lia.
      * repeat split; [by apply elem_of_app; left|done|].
        intros s' [Hs'| ->%list_elem_of_singleton]%elem_of_app Hp'; [by apply Hmax|lia].
    + repeat split; [by apply elem_of_app; right; apply list_elem_of_singleton|done|].
      intros s' [Hs'| ->%list_elem_of_singleton]%elem_of_app Hp'; [|done]. by rewrite IH in Hp'.
  - destruct (foldl _ None r) as [b|].
    + destruct IH as (Hb & Hp & Hmax). repeat split; [by apply elem_of_app; left|done|].
      intros s' [Hs'| ->%list_elem_of_singleton]%elem_of_app Hp'; [by apply Hmax|congruence].
    + intros s' [Hs'| ->%list_elem_of_singleton]%elem_of_app; auto.
Qed.

(** Two prefixes of a path with equally many elements are one. *)
Lemma longest_match_unique path r s1 s2 :
  wf_resolver r -> longest_match path r s1 -> longest_match path r s2 -> s1 = s2.
Proof.
  intros [Hd _ _] (H1 & P1 & M1) (H2 & P2 & M2).
  specialize (M1 _ H2 P2). specialize (M2 _ H1 P1). unfold component_count in *.
  apply component_prefix_spec in P1 as [t1 E1]. apply component_prefix_spec in P2 as [t2 E2].
  assert (E : components (sub_from s1) = components (sub_from s2)).
  { rewrite E1 in E2. apply app_inj_1 in E2 as [? _]; [done|lia]. }
  apply list_elem_of_lookup in H1 as [i Hi]. apply list_elem_of_lookup in H2 as [j Hj].
  assert (i = j).
  { eapply (NoDup_lookup _ i j); [exact Hd|by rewrite list_lookup_fmap, Hi|]. rewrite list_lookup_fmap, Hj. by rewrite E. }
  congruence.
Qed.

(** A prefix that ends in a separator has an empty last element, which no path of a file has. *)
Lemma trailing_prefix_never_matches from path :
  trailing_sep from = true -> trailing_sep path = false -> has_component_prefix path from = false.
Proof.
  intros Hf Hp. destruct (has_component_prefix path from) eqn:E; [exfalso|done].
  apply component_prefix_spec in E as [rest E].
  assert (Hin : EmptyString ∈ components path).
  { rewrite E. apply elem_of_app. left. unfold components. rewrite Hf. rewrite !elem_of_app. right. right. left. }
  unfold components in Hin. rewrite Hp, app_nil_r in Hin. apply elem_of_app in Hin as [Hin|Hin].
  - destruct (path_is_absolute path); [by apply list_elem_of_singleton in Hin|by apply not_elem_of_nil in Hin].
  - pose proof (names_are_names path) as Hn. rewrite Forall_forall in Hn. by destruct (Hn _ Hin).
Qed.

(** ** What a resolver finds *)

Section Found.
Context `{H : Host}.

(** A candidate as it is replaced by the substitution [s]. *)
Definition substituted (s : Substitution) (candidate : string) : string :=
  normalized (path_append (sub_to s) (suffix_after (normalized candidate) (sub_from s))).

(** The recorded file, and a relative one beside the module. *)
Definition candidates (recorded_file module_path : string) : list string :=
  recorded_file ::
  if path_is_absolute recorded_file || String.eqb module_path EmptyString then []
  else [path_append (path_parent module_path) recorded_file].

(** The file a candidate stands for: the one of the longest matching substitution, or
    else the candidate itself. *)
Definition finds (r : SourcePathResolver) (candidate file : string) : Prop :=
  h_regular file = true /\
  ((exists s, longest_match (normalized candidate) r s /\ file = substituted s candidate) \/
   (file = normalized candidate /\
    forall s, longest_match (normalized candidate) r s -> h_regular (substituted s candidate) = false)).

Lemma resolve_candidate_spec r candidate : wf_resolver r ->
  match resolve_candidate candidate r with
  | Some file => finds r candidate file
  | None => forall file, ~ finds r candidate file
  end.
Proof.
  intros Hr. unfold resolve_candidate, substituted_candidate.
  pose proof (best_substitution_spec (normalized candidate) r) as Hb.
  destruct (best_substitution (normalized candidate) r) as [s|]; cbn [mbind option_bind].
  - fold (substituted s candidate).
    assert (Hu : forall s', longest_match (normalized candidate) r s' -> s' = s)
      by (intros s' Hs'; by eapply longest_match_unique).
    destruct (h_regular (substituted s candidate)) eqn:E; [split; [done|left; by exists s]|].
    destruct (h_regular (normalized candidate)) eqn:E'.
    + split; [done|]. right. split; [done|]. by intros s' ->%Hu.
    + intros file [Hf [(s' & ->%Hu & ->)|[-> _]]]; congruence.
  - assert (Hu : forall s, ~ longest_match (normalized candidate) r s).
    { intros s (Hs & Hp & _). by rewrite Hb in Hp. }
    destruct (h_regular (normalized candidate)) eqn:E'.
    + split; [done|]. right. split; [done|]. by intros s' ?%Hu.
    + intros file [Hf [(s' & ?%Hu & _)|[-> _]]]; congruence.
Qed.

(** a source file resolves to what the recorded path stands for, and, when that is nothing
    and the path is relative, to what it stands for beside its module: in each case the file
    of the longest matching substitution before the path itself, and only a regular file.
    Nothing is resolved only when no candidate stands for a file. *)
Theorem resolve_spec recorded_file module_path r : wf_resolver r ->
  match resolve recorded_file module_path r with
  | Some file => exists before candidate after,
      candidates recorded_file module_path = before ++ candidate :: after /\
      (forall c f, c ∈ before -> ~ finds r c f) /\ finds r candidate file
  | None => recorded_file = EmptyString \/
      forall c f, c ∈ candidates recorded_file module_path -> ~ finds r c f
  end.
Proof.
  intros Hr. unfold resolve, candidates. destruct (String.eqb_spec recorded_file EmptyString); [by left|].
  pose proof (resolve_candidate_spec r recorded_file Hr) as H1.
  destruct (resolve_candidate recorded_file r) as [file|].
  { eexists [], recorded_file, _. split; [done|]. split; [by intros ? ? ?%not_elem_of_nil|done]. }
  destruct (path_is_absolute recorded_file); cbn [negb andb orb].
  { right. intros c f ->%list_elem_of_singleton. apply H1. }
  destruct (String.eqb module_path EmptyString); cbn [negb].
  { right. intros c f ->%list_elem_of_singleton. apply H1. }
  pose proof (resolve_candidate_spec r (path_append (path_parent module_path) recorded_file) Hr) as H2.
  destruct (resolve_candidate (path_append (path_parent module_path) recorded_file) r) as [file|].
  - exists [recorded_file], (path_append (path_parent module_path) recorded_file), []. split; [done|].
    split; [|done]. by intros c f ->%list_elem_of_singleton.
  - right. intros c f [->| ->%list_elem_of_singleton]%elem_of_cons; auto.
Qed.
End Found.

(** ** On a concrete table *)

Definition demo_substitutions : SourcePathResolver :=
  match (r ← add_substitution "/build/./src" "/home/me/project" []; add_substitution "/build" "/mnt" r) with
  | Ok r => r
  | _ => []
  end.

(** Only one file exists. *)
Definition DemoSources : Host := {|
  h_file _ := FileOpenFailed;
  h_canonical _ := None;
  h_regular path := String.eqb path "/home/me/project/a/main.c";
  h_page_size := 4096
|}.

Lemma wf_nil : wf_resolver [].
Proof. split; constructor. Qed.

Lemma demo_substitutions_wf : wf_resolver demo_substitutions.
Proof. apply (wf_put "/build" "/mnt"); [apply (wf_put "/build/./src" "/home/me/project")|..]; done || apply wf_nil. Qed.

Lemma add_substitution_wf_witness :
  wf_resolver demo_substitutions /\ target demo_substitutions "/build" = Some "/mnt".
Proof.
  destruct (add_substitution_wf "/build/./src" "/home/me/project" [] wf_nil) as [H1 _].
  destruct (add_substitution_wf "/build" "/mnt" _ H1) as [H2 H3]. split; [exact H2|].
  etransitivity; [exact (H3 "/build")|vm_compute; reflexivity].
Defined.

Lemma resolve_spec_witness :
  exists c, c ∈ candidates "../src/a//main.c" "/build/src/lib.so" /\
    finds (H := DemoSources) demo_substitutions c "/home/me/project/a/main.c".
Proof.
  pose proof (resolve_spec (H := DemoSources) "../src/a//main.c" "/build/src/lib.so" demo_substitutions demo_substitutions_wf) as R.
  assert (E : resolve (H := DemoSources) "../src/a//main.c" "/build/src/lib.so" demo_substitutions = Some "/home/me/project/a/main.c")
    by (vm_compute; reflexivity).
  rewrite E in R. destruct R as (before & c & after & Hc & _ & Hf). exists c. split; [|exact Hf].
  rewrite Hc. apply elem_of_app. right. left.
Defined.
