(* ===== verification/ModulePath.v ===== *)
(** * Module files of a snapshot ([src/snapshot/module_path.hpp])

    The paths recorded in a core are mapped to local files by prefix substitutions, and a
    separate debug file is accepted only when the module's [.gnu_debuglink] section names
    it and its CRC matches. *)

From S2P Require Import Prelude Machine Paths ByteReader ElfFormat SourcePath.

(** ** The debug link of a module *)

(* src/snapshot/module_path.hpp:36-45 read_struct *)
Definition read_struct {T} (what : string) (sizeof : Z) (at_ : list byte -> Z -> T) (bytes : list byte) (offset : Z)
    : res T :=
  _ ← throw_if (out_of_bounds bytes offset sizeof) (Exn RuntimeError (what +:+ " extends past end of file"));
  Ok (at_ bytes offset).

(* src/snapshot/module_path.hpp:47-52 require_range *)
Definition require_range (bytes : list byte) (offset size : Z) (what : string) : res unit :=
  throw_if (out_of_bounds bytes offset size) (Exn RuntimeError (what +:+ " extends past end of file")).

(** The characters before the first zero byte of [cursor, end); [None] when there is none.
    One byte a turn. *)
(* src/snapshot/module_path.hpp:61-67 section_name *)
Fixpoint name_until (fuel : nat) (bytes : list byte) (cursor end_ : Z) : res (option string) :=
  if cursor <? end_ then
    match fuel with
    | O => OutOfFuel
    | S fuel =>
      character ← byte_at bytes cursor;
      if character =? 0 then Ok (Some EmptyString)
      else
        rest ← name_until fuel bytes (cursor + 1) end_;
        Ok (option_map (String (char_of_Z character)) rest)
    end
  else Ok None.

(* src/snapshot/module_path.hpp:54-69 section_name *)
Definition section_name (bytes : list byte) (strings : Elf64_Shdr) (offset : Z) : res string :=
  _ ← throw_if (sh_size strings <=? offset) (Exn RuntimeError "ELF section name offset is out of range");
  let begin_ := u64 (sh_offset strings + offset) in
  let end_ := u64 (sh_offset strings + sh_size strings) in
  found ← name_until (Z.to_nat (end_ - begin_)) bytes begin_ end_;
  match found with
  | Some name => Ok name
  | None => runtime_error "ELF section name is not terminated"
  end.

(* src/snapshot/module_path.hpp:71-74 GnuDebugLink *)
Record GnuDebugLink := mkDebugLink { dl_filename : string; dl_crc32 : Z }.

(** Every padding byte is zero. *)
(* src/snapshot/module_path.hpp:132-136 read_gnu_debuglink *)
Fixpoint zero_padding (n : nat) (bytes : list byte) (cursor : Z) : res unit :=
  match n with
  | O => Ok tt
  | S n =>
    value ← byte_at bytes cursor;
    _ ← throw_if (negb (value =? 0)) (Exn RuntimeError ".gnu_debuglink contains non-zero padding");
    zero_padding n bytes (cursor + 1)
  end.

(** Four bytes, the lowest first. *)
(* src/snapshot/module_path.hpp:137-142 read_gnu_debuglink *)
Fixpoint link_crc (n : nat) (bytes : list byte) (cursor shift : Z) (crc : Z) : res Z :=
  match n with
  | O => Ok crc
  | S n =>
    value ← byte_at bytes cursor;
    link_crc n bytes (cursor + 1) (shift + 8) (Z.lor crc (Z.shiftl value shift mod 2 ^ 32))
  end.

(** The contents of a [.gnu_debuglink] section. *)
(* src/snapshot/module_path.hpp:107-143 read_gnu_debuglink *)
Definition parse_debuglink (bytes : list byte) (section : Elf64_Shdr) : res GnuDebugLink :=
  _ ← require_range bytes (sh_offset section) (sh_size section) ".gnu_debuglink";
  _ ← throw_if (sh_size section <? 5) (Exn RuntimeError ".gnu_debuglink section is truncated");
  found ← name_until (Z.to_nat (sh_size section)) bytes (sh_offset section) (sh_offset section + sh_size section);
  let filename := default EmptyString found in
  _ ← throw_if (match found with None => true | Some _ => false end || String.eqb filename EmptyString ||
                negb (String.eqb (path_filename filename) filename))
        (Exn RuntimeError ".gnu_debuglink contains an invalid filename");
  let relative := Z.of_nat (String.length filename) in
  let crc_relative := Z.land (relative + 1 + 3) (u64 (Z.lnot 3)) in
  _ ← throw_if ((sh_size section <? crc_relative) || negb (4 =? sh_size section - crc_relative))
        (Exn RuntimeError ".gnu_debuglink has an invalid CRC field");
  _ ← zero_padding (Z.to_nat (crc_relative - (relative + 1))) bytes (sh_offset section + (relative + 1));
  crc ← link_crc 4 bytes (sh_offset section + crc_relative) 0 0;
  Ok (mkDebugLink filename crc).

(** The sections with the name of the link; a second one is an error. *)
(* src/snapshot/module_path.hpp:103-145 read_gnu_debuglink *)
Fixpoint find_debuglink (bytes : list byte) (names : Elf64_Shdr) (result : option GnuDebugLink)
    (sections : list Elf64_Shdr) : res (option GnuDebugLink) :=
  match sections with
  | [] => Ok result
  | section :: sections =>
    name ← section_name bytes names (sh_name section);
    if negb (String.eqb name ".gnu_debuglink") then find_debuglink bytes names result sections
    else
      _ ← throw_if (bool_decide (is_Some result))
            (Exn RuntimeError "runtime ELF contains duplicate .gnu_debuglink sections");
      link ← parse_debuglink bytes section;
      find_debuglink bytes names (Some link) sections
  end.

(* src/snapshot/module_path.hpp:79-146 read_gnu_debuglink *)
Definition parse_gnu_debuglink (bytes : list byte) : res (option GnuDebugLink) :=
  header ← read_struct "ELF header" sizeof_Ehdr ehdr_at bytes 0;
  _ ← throw_if (negb (has_elf_magic header) || negb (ident header EI_CLASS =? ELFCLASS64) ||
                negb (ident header EI_DATA =? ELFDATA2LSB) || negb (e_machine header =? EM_X86_64))
        (Exn RuntimeError "snapshot runtime module is not supported x86-64 ELF64");
  if (e_shnum header =? 0) || (e_shstrndx header =? SHN_UNDEF) then Ok None
  else
    _ ← throw_if (negb (e_shentsize header =? sizeof_Shdr) || (e_shstrndx header =? SHN_XINDEX) ||
                  (e_shnum header <=? e_shstrndx header))
          (Exn RuntimeError "unsupported ELF section table for GNU debuglink");
    _ ← require_range bytes (e_shoff header) (e_shnum header * sizeof_Shdr) "ELF section table";
    sections ← mapM (fun index => read_struct "ELF section header" sizeof_Shdr shdr_at bytes
                        (u64 (e_shoff header + Z.of_nat index * sizeof_Shdr)))
                 (seq 0 (Z.to_nat (e_shnum header)));
    match sections !! Z.to_nat (e_shstrndx header) with
    | None => Undef "vector index out of range"
    | Some names =>
      _ ← require_range bytes (sh_offset names) (sh_size names) "ELF section-name table";
      find_debuglink bytes names None sections
    end.

(** ** The CRC of a debug file *)

(* src/snapshot/module_path.hpp:158-160 gnu_debuglink_crc32 *)
Definition crc_bit (crc : Z) : Z :=
  Z.lxor (Z.shiftr crc 1) (Z.land 0xedb88320 ((0 - Z.land crc 1) mod 2 ^ 32)).

(* src/snapshot/module_path.hpp:156-161 gnu_debuglink_crc32 *)
Definition crc_byte (crc : Z) (value : byte) : Z := Nat.iter 8 crc_bit (Z.lxor crc (byte_val value)).

(** The file is read in buffers of 8192 bytes; the last is shorter, perhaps empty. *)
(* src/snapshot/module_path.hpp:152-162 gnu_debuglink_crc32 *)
Fixpoint crc_buffers (fuel : nat) (crc : Z) (rest : list byte) : res Z :=
  match fuel with
  | O => OutOfFuel
  | S fuel =>
    let crc := foldl crc_byte crc (take (Z.to_nat 8192) rest) in
    if size_of rest <? 8192 then Ok crc else crc_buffers fuel crc (drop (Z.to_nat 8192) rest)
  end.

(* src/snapshot/module_path.hpp:151-164 gnu_debuglink_crc32 *)
Definition crc32_of (bytes : list byte) : res Z :=
  crc ← crc_buffers (S (length bytes)) 0xffffffff bytes;
  Ok (Z.lxor crc 0xffffffff).

Section Artifacts.
Context `{H : Host} `{F : FileAccess}.

(* src/snapshot/module_path.hpp:21-34 read_file *)
Definition read_file (path : string) : res (list byte) :=
  match h_file path with
  | FileOpenFailed => runtime_error ("failed to open snapshot artifact: " +:+ path)
  | FileSizeFailed => runtime_error "failed to determine snapshot artifact size"
  | FileReadFailed => runtime_error "failed to read snapshot artifact"
  | FileBytes bytes => Ok bytes
  end.

(* src/snapshot/module_path.hpp:76-78 read_gnu_debuglink *)
Definition read_gnu_debuglink (runtime_module : string) : res (option GnuDebugLink) :=
  bytes ← read_file runtime_module;
  parse_gnu_debuglink bytes.

(* src/snapshot/module_path.hpp:148-165 gnu_debuglink_crc32 *)
Definition gnu_debuglink_crc32 (path : string) : res Z :=
  match f_stream path with
  | None => runtime_error ("failed to open debug companion: " +:+ path)
  | Some None => runtime_error "failed to read debug companion"
  | Some (Some bytes) => crc32_of bytes
  end.
End Artifacts.

(** ** [SnapshotModulePathResolver] *)

(* src/snapshot/module_path.hpp:273-276 DebugFile *)
Record DebugFile := mkDebugFile { recorded_module : string; local_debug_file : string }.

(** [substitutions_] and [debug_files_]; the substitutions are those of the source paths. *)
(* src/snapshot/module_path.hpp:268-271 Substitution *)
Definition ModuleSubstitution : Type := Substitution.
(* src/snapshot/module_path.hpp:324-325 SnapshotModulePathResolver *)
Record SnapshotModulePathResolver := mkModulePaths {
  substitutions_ : list ModuleSubstitution;
  debug_files_ : list DebugFile
}.

Definition no_module_paths : SnapshotModulePathResolver := mkModulePaths [] [].

(* src/snapshot/module_path.hpp:278-280 SnapshotModulePathResolver::normalized *)
Definition module_normalized (path : string) : string := lexically_normal path.

(* src/snapshot/module_path.hpp:181-187 SnapshotModulePathResolver::add_substitution *)
Definition put_module_substitution : string -> string -> list ModuleSubstitution -> list ModuleSubstitution :=
  put_substitution.

(* src/snapshot/module_path.hpp:171-188 SnapshotModulePathResolver::add_substitution *)
Definition add_module_substitution (from to : string) (r : SnapshotModulePathResolver)
    : res SnapshotModulePathResolver :=
  let from := module_normalized from in
  let to := module_normalized to in
  _ ← throw_if (String.eqb from EmptyString || path_eqb from ".")
        (Exn InvalidArgument "snapshot module substitution prefix must not be empty");
  _ ← throw_if (String.eqb to EmptyString)
        (Exn InvalidArgument "snapshot module substitution target must not be empty");
  Ok (mkModulePaths (put_module_substitution from to (substitutions_ r)) (debug_files_ r)).

(* src/snapshot/module_path.hpp:200-207 SnapshotModulePathResolver::add_debug_file *)
Fixpoint put_debug_file (recorded local : string) (files : list DebugFile) : list DebugFile :=
  match files with
  | [] => [mkDebugFile recorded local]
  | mapping :: rest =>
    if path_eqb (recorded_module mapping) recorded then mkDebugFile (recorded_module mapping) local :: rest
    else mapping :: put_debug_file recorded local rest
  end.

(* src/snapshot/module_path.hpp:190-208 SnapshotModulePathResolver::add_debug_file *)
Definition add_debug_file (recorded local : string) (r : SnapshotModulePathResolver)
    : res SnapshotModulePathResolver :=
  let recorded := module_normalized recorded in
  let local := module_normalized local in
  _ ← throw_if (String.eqb recorded EmptyString || negb (path_is_absolute recorded))
        (Exn InvalidArgument "snapshot debug-file module identity must be absolute");
  _ ← throw_if (String.eqb local EmptyString)
        (Exn InvalidArgument "snapshot debug-file path must not be empty");
  Ok (mkModulePaths (substitutions_ r) (put_debug_file recorded local (debug_files_ r))).

(* src/snapshot/module_path.hpp:282-289 SnapshotModulePathResolver::has_component_prefix *)
Definition module_has_component_prefix : string -> string -> bool := has_component_prefix.
(* src/snapshot/module_path.hpp:291-295 SnapshotModulePathResolver::component_count *)
Definition module_component_count : string -> nat := component_count.
(* src/snapshot/module_path.hpp:297-304 SnapshotModulePathResolver::suffix_after *)
Definition module_suffix_after : string -> string -> string := suffix_after.
(* src/snapshot/module_path.hpp:308-317 SnapshotModulePathResolver::substituted_candidate *)
Definition best_module_substitution : string -> list ModuleSubstitution -> option ModuleSubstitution :=
  best_substitution.

(* src/snapshot/module_path.hpp:306-322 SnapshotModulePathResolver::substituted_candidate *)
Definition module_substituted_candidate (candidate : string) (r : SnapshotModulePathResolver) : option string :=
  best ← best_module_substitution candidate (substitutions_ r);
  let suffix := module_suffix_after candidate (sub_from best) in
  if String.eqb suffix EmptyString then Some (sub_to best)
  else Some (module_normalized (path_append (sub_to best) suffix)).

Section Resolver.
Context `{H : Host} `{F : FileAccess}.

(* src/snapshot/module_path.hpp:210-234 SnapshotModulePathResolver::resolve *)
Definition resolve_module (recorded : string) (r : SnapshotModulePathResolver) : res string :=
  _ ← throw_if (String.eqb recorded EmptyString)
        (Exn InvalidArgument "snapshot module path must not be empty");
  _ ← throw_if (negb (path_is_absolute recorded))
        (Exn RuntimeError "snapshot NT_FILE mapping lacks an absolute module path");
  let normalized_recorded := module_normalized recorded in
  match module_substituted_candidate normalized_recorded r with
  | Some substituted =>
    if h_regular substituted then Ok substituted
    else runtime_error ("substituted snapshot module file is unavailable: " +:+ substituted)
  | None =>
    if h_regular normalized_recorded then Ok normalized_recorded
    else runtime_error ("snapshot module file is unavailable: " +:+ recorded)
  end.

(* src/snapshot/module_path.hpp:236-265 SnapshotModulePathResolver::resolve_debug_file *)
Definition resolve_debug_file (recorded : string) (r : SnapshotModulePathResolver) : res string :=
  runtime_file ← resolve_module recorded r;
  let normalized_recorded := module_normalized recorded in
  match List.find (fun candidate => path_eqb (recorded_module candidate) normalized_recorded) (debug_files_ r) with
  | None => Ok runtime_file
  | Some mapping =>
    let local := local_debug_file mapping in
    _ ← throw_if (negb (h_regular local))
          (Exn RuntimeError ("snapshot debug companion is unavailable: " +:+ local));
    link ← read_gnu_debuglink runtime_file;
    match link with
    | None => runtime_error ("snapshot runtime module has no .gnu_debuglink: " +:+ runtime_file)
    | Some link =>
      _ ← throw_if (negb (String.eqb (path_filename local) (dl_filename link)))
            (Exn RuntimeError ("debug companion filename does not match GNU debuglink: " +:+ local));
      crc ← gnu_debuglink_crc32 local;
      _ ← throw_if (negb (crc =? dl_crc32 link))
            (Exn RuntimeError ("debug companion CRC mismatch: " +:+ local));
      Ok local
    end
  end.
End Resolver.

Example crc_check : crc32_of (map byte_of_Z [49; 50; 51; 52; 53; 54; 55; 56; 57]) = Ok 0xcbf43926.
Proof. vm_compute. reflexivity. Qed.
