(* ===== verification/Elf.v ===== *)
(** * ELF files and core snapshots ([src/elf/])

    The parsers work on the bytes of the file.  A vector access past the end is
    undefined behaviour in the model; a failed bounds check is an exception. *)

From S2P Require Import Prelude Machine ByteReader ElfFormat.
From S2P Require Process.

(** A loop over a list that updates a value and may throw. *)
Fixpoint res_fold {A B} (f : B -> A -> res B) (l : list A) (b : B) : res B :=
  match l with
  | [] => Ok b
  | x :: l => b ← f b x; res_fold f l b
  end.

(** ** Helpers *)

(* src/elf/elf.cpp:20-28 read_struct *)
Definition read_struct {T} (sizeof : Z) (at_ : list byte -> Z -> T) (bytes : list byte) (offset : Z) : res T :=
  _ ← throw_if (out_of_bounds bytes offset sizeof)
        (Exn RuntimeError "ELF structure extends past end of file");
  Ok (at_ bytes offset).

(* src/elf/elf.cpp:30-35 require_range *)
Definition require_range (bytes : list byte) (offset size : Z) (what : string) : res unit :=
  throw_if (out_of_bounds bytes offset size) (Exn RuntimeError (what +:+ " extends past end of file")).

(* src/elf/elf.cpp:37-42 checked_add *)
Definition checked_add (left right : Z) (what : string) : res Z :=
  _ ← throw_if (u64_max - left <? right) (Exn RuntimeError (what +:+ " overflows"));
  Ok (left + right).

(* src/elf/elf.cpp:44-49 checked_mul *)
Definition checked_mul (left right : Z) (what : string) : res Z :=
  _ ← throw_if (negb (left =? 0) && (u64_max / left <? right)) (Exn RuntimeError (what +:+ " overflows"));
  Ok (left * right).

(* src/elf/elf.cpp:51-53 align4 *)
Definition align4 (value : Z) (what : string) : res Z :=
  sum ← checked_add value 3 what;
  Ok (Z.land sum (u64 (Z.lnot 3))).

(* src/elf/elf.cpp:55-64 read_u64 *)
Definition read_u64 (bytes : list byte) (offset limit : Z) (what : string) : res Z :=
  _ ← throw_if ((limit <? offset) || (limit - offset <? 8))
        (Exn RuntimeError (what +:+ " extends past note payload"));
  _ ← require_range bytes offset 8 what;
  Ok (le_at bytes offset 8).

(** The characters up to the first zero byte; [None] when there is none below [end]. *)
Fixpoint string_until (fuel : nat) (bytes : list byte) (cursor end_ : Z) : res (option string) :=
  if cursor <? end_ then
    match fuel with
    | O => OutOfFuel
    | S fuel =>
      value ← byte_at bytes cursor;
      if value =? 0 then Ok (Some EmptyString)
      else
        rest ← string_until fuel bytes (cursor + 1) end_;
        Ok (option_map (String (char_of_Z value)) rest)
    end
  else Ok None.

(* src/elf/elf.cpp:66-78 read_string *)
Definition read_string (bytes : list byte) (table_offset table_size string_offset : Z) : res string :=
  if table_size <=? string_offset then Ok EmptyString
  else
    let begin_ := u64 (table_offset + string_offset) in
    let end_ := u64 (table_offset + table_size) in
    found ← string_until (Z.to_nat (end_ - begin_)) bytes begin_ end_;
    Ok (default EmptyString found).

(* src/elf/elf.cpp:80-86 trim_left *)
Fixpoint trim_left (value : string) : string :=
  match value with
  | String c t => if Process.is_space c then trim_left t else value
  | EmptyString => EmptyString
  end.

(** The characters of a byte array. *)
Definition string_of_bytes (l : list byte) : string :=
  String.string_of_list_ascii (map (fun b => char_of_Z (byte_val b)) l).

(** A byte array up to its first zero byte. *)
Fixpoint until_nul (l : list byte) : list byte :=
  match l with
  | [] => []
  | b :: l => if byte_val b =? 0 then [] else b :: until_nul l
  end.

Fixpoint drop_trailing_spaces (reversed : list byte) : list byte :=
  match reversed with
  | b :: l => if byte_val b =? 32 then drop_trailing_spaces l else reversed
  | [] => []
  end.

(* src/elf/elf.cpp:88-94 bounded_process_text *)
Definition bounded_process_text (data : list byte) : string :=
  string_of_bytes (reverse (drop_trailing_spaces (reverse (until_nul data)))).

(* src/elf/elf.cpp:117-128 note_owner *)
Definition note_owner (bytes : list byte) (offset size : Z) : res string :=
  _ ← require_range bytes offset size "ELF note name";
  Ok (string_of_bytes (until_nul (bytes_at bytes offset size))).

(* src/elf/elf.cpp:130-141 fault_address_for_siginfo *)
Definition fault_address_for_siginfo (info : siginfo_t) : option Z :=
  if (si_signo info =? SIGILL) || (si_signo info =? SIGFPE) || (si_signo info =? SIGSEGV) ||
     (si_signo info =? SIGBUS) || (si_signo info =? SIGTRAP)
  then Some (si_addr info) else None.

(** ** [std::stoull(text, nullptr, 16)] *)

Definition hex_value (c : ascii) : option Z :=
  let n := Z.of_N (N_of_ascii c) in
  if (48 <=? n) && (n <=? 57) then Some (n - 48)
  else if (97 <=? n) && (n <=? 102) then Some (n - 87)
  else if (65 <=? n) && (n <=? 70) then Some (n - 55)
  else None.

(** The value of the leading digits, and whether there is any. *)
Fixpoint hex_digits (acc : Z) (any : bool) (s : string) : Z * bool :=
  match s with
  | String c t => match hex_value c with
                  | Some d => hex_digits (acc * 16 + d) true t
                  | None => (acc, any)
                  end
  | EmptyString => (acc, any)
  end.

(** An optional [0x] is skipped when a digit follows. *)
Definition skip_hex_prefix (s : string) : string :=
  match s with
  | String "0" (String x (String c t)) =>
    if (Ascii.eqb x "x" || Ascii.eqb x "X") && bool_decide (is_Some (hex_value c)) then String c t else s
  | _ => s
  end.

Definition stoull16 (s : string) : res Z :=
  let s := trim_left s in
  let '(neg, s) := match s with
                   | String "-" t => (true, t)
                   | String "+" t => (false, t)
                   | _ => (false, s)
                   end in
  let '(v, any) := hex_digits 0 false (skip_hex_prefix s) in
  if negb any then invalid_argument "stoull"
  else if u64_max <? v then out_of_range "stoull"
  else Ok (if neg : bool then u64 (- v) else v).

(** [stream >> token]: the characters up to the next white space. *)
Fixpoint take_token (s : string) : string * string :=
  match s with
  | String c t => if Process.is_space c then (EmptyString, s)
                  else let '(a, b) := take_token t in (String c a, b)
  | EmptyString => (EmptyString, EmptyString)
  end.
Definition next_token (s : string) : option (string * string) :=
  match trim_left s with
  | EmptyString => None
  | s => Some (take_token s)
  end.

(** ** [ElfFile] *)

(* src/elf/elf.hpp:17-23 ElfSymbol *)
Record ElfSymbol := mkSymbol {
  sym_name : string; sym_value : Z; sym_size : Z; sym_type : Z; sym_binding : Z
}.
(* src/elf/elf.hpp:25-28 ResolvedSymbol *)
Record ResolvedSymbol := mkResolved { rs_symbol : ElfSymbol; rs_offset : Z }.

(* src/elf/elf.hpp:30-57 ElfFile *)
Record ElfFile := mkElfFile {
  elf_path : string;
  elf_symbols : list ElfSymbol;
  elf_type : Z;
  zero_offset_load_vaddr : Z
}.

(** [left < right] of the sort, as in [std::string::operator<]. *)
Definition string_lt (a b : string) : bool := String.ltb a b.
(* src/elf/elf.cpp:212-216 ElfFile::parse *)
Definition symbol_less (left right : ElfSymbol) : bool :=
  if negb (sym_value left =? sym_value right) then sym_value left <? sym_value right
  else if negb (String.eqb (sym_name left) (sym_name right)) then string_lt (sym_name left) (sym_name right)
  else sym_type left <? sym_type right.
Definition symbol_le (a b : ElfSymbol) : Prop := symbol_less b a = false.
#[export] Instance symbol_le_dec : RelDecision symbol_le.
Proof. intros a b. unfold symbol_le. apply _. Defined.

(* src/elf/elf.cpp:212-221 ElfFile::parse *)
Definition sort_symbols (symbols : list ElfSymbol) : list ElfSymbol :=
  unique_by (fun left right => (sym_value left =? sym_value right) &&
                               String.eqb (sym_name left) (sym_name right))
    (merge_sort symbol_le symbols).

(** Reads the [count] structures of a table. *)
Definition read_table {T} (sizeof : Z) (at_ : list byte -> Z -> T) (bytes : list byte) (offset count : Z)
    : res (list T) :=
  mapM (fun index => read_struct sizeof at_ bytes (u64 (offset + Z.of_nat index * sizeof)))
    (seq 0 (Z.to_nat count)).

(* src/elf/elf.cpp:170-182 ElfFile::parse *)
Definition load_virtual_base (page_size : Z) (phdrs : list Elf64_Phdr) : Z :=
  let base := foldl (fun base phdr =>
    if negb (p_type phdr =? PT_LOAD) then base
    else if negb (p_offset phdr / page_size =? 0) then base
    else Z.min base (p_vaddr phdr - p_vaddr phdr mod page_size)) u64_max phdrs in
  if base =? u64_max then 0 else base.

(** One entry of a symbol table; [None]: skipped. *)
(* src/elf/elf.cpp:200-208 ElfFile::parse *)
Definition parse_symbol (bytes : list byte) (strings : Elf64_Shdr) (offset : Z) : res (option ElfSymbol) :=
  symbol ← read_struct sizeof_Sym sym_at bytes offset;
  if (st_name symbol =? 0) || (st_shndx symbol =? SHN_UNDEF) then Ok None
  else
    let type := ELF64_ST_TYPE (st_info symbol) in
    if (type =? STT_SECTION) || (type =? STT_FILE) then Ok None
    else
      name ← read_string bytes (sh_offset strings) (sh_size strings) (st_name symbol);
      if String.eqb name EmptyString then Ok None
      else Ok (Some (mkSymbol name (st_value symbol) (st_size symbol) type
                       (ELF64_ST_BIND (st_info symbol)))).

(* src/elf/elf.cpp:192-209 ElfFile::parse *)
Definition parse_symbol_table (bytes : list byte) (sections : list Elf64_Shdr) (section : Elf64_Shdr)
    : res (list ElfSymbol) :=
  if negb (sh_type section =? SHT_SYMTAB) && negb (sh_type section =? SHT_DYNSYM) then Ok []
  else if negb (sh_entsize section =? sizeof_Sym) then Ok []
  else
    match sections !! Z.to_nat (sh_link section) with
    | None => Ok []
    | Some strings =>
      _ ← require_range bytes (sh_offset section) (sh_size section) "ELF symbol table";
      _ ← require_range bytes (sh_offset strings) (sh_size strings) "ELF string table";
      entries ← mapM (fun index =>
        parse_symbol bytes strings (u64 (sh_offset section + Z.of_nat index * sizeof_Sym)))
        (seq 0 (Z.to_nat (sh_size section / sizeof_Sym)));
      Ok (omap id entries)
    end.

(* src/elf/elf.cpp:149-222 ElfFile::parse *)
Definition parse_elf (page_size : Z) (path : string) (bytes : list byte) : res ElfFile :=
  header ← read_struct sizeof_Ehdr ehdr_at bytes 0;
  _ ← throw_if (negb (has_elf_magic header)) (Exn RuntimeError "file is not ELF");
  _ ← throw_if (negb (ident header EI_CLASS =? ELFCLASS64) || negb (ident header EI_DATA =? ELFDATA2LSB))
        (Exn RuntimeError "only little-endian ELF64 is supported");
  _ ← throw_if (negb (e_machine header =? EM_X86_64))
        (Exn RuntimeError "only x86-64 ELF files are supported");
  _ ← throw_if (negb (e_phentsize header =? sizeof_Phdr) && negb (e_phnum header =? 0))
        (Exn RuntimeError "unsupported ELF program-header entry size");
  _ ← throw_if (negb (e_shentsize header =? sizeof_Shdr) && negb (e_shnum header =? 0))
        (Exn RuntimeError "unsupported ELF section-header entry size");
  phdrs ← read_table sizeof_Phdr phdr_at bytes (e_phoff header) (e_phnum header);
  sections ← read_table sizeof_Shdr shdr_at bytes (e_shoff header) (e_shnum header);
  symbols ← mapM (parse_symbol_table bytes sections) sections;
  Ok (mkElfFile path (sort_symbols (concat symbols)) (e_type header)
        (load_virtual_base page_size phdrs)).

(* src/elf/elf.cpp:224-234 ElfFile::find_symbol *)
Definition find_symbol (elf : ElfFile) (name : string) : option ElfSymbol :=
  foldl (fun best symbol =>
    if negb (String.eqb (sym_name symbol) name) then best
    else match best with
         | None => Some symbol
         | Some b =>
           if ((sym_type symbol =? STT_FUNC) && negb (sym_type b =? STT_FUNC)) ||
              ((sym_binding symbol =? STB_GLOBAL) && negb (sym_binding b =? STB_GLOBAL))
           then Some symbol else best
         end) None (elf_symbols elf).

(** [continue] of the loop: wrong type, or the address is past the symbol's end. *)
(* src/elf/elf.cpp:241-242 ElfFile::find_symbol_by_virtual_address *)
Definition covers (address : Z) (symbol : ElfSymbol) : bool :=
  ((sym_type symbol =? STT_FUNC) || (sym_type symbol =? STT_NOTYPE)) &&
  negb (negb (sym_size symbol =? 0) && (u64 (sym_value symbol + sym_size symbol) <=? address)).

(* src/elf/elf.cpp:239-247 ElfFile::find_symbol_by_virtual_address *)
Fixpoint best_symbol (address : Z) (best : option ElfSymbol) (symbols : list ElfSymbol) : option ElfSymbol :=
  match symbols with
  | [] => best
  | symbol :: symbols =>
    if address <? sym_value symbol then best
    else
      let best' :=
        if negb (covers address symbol) then best
        else match best with
             | None => Some symbol
             | Some b =>
               if (sym_value b <? sym_value symbol) ||
                  ((sym_value symbol =? sym_value b) && (sym_type symbol =? STT_FUNC) &&
                   negb (sym_type b =? STT_FUNC))
               then Some symbol else best
             end in
      best_symbol address best' symbols
  end.

(* src/elf/elf.cpp:236-250 ElfFile::find_symbol_by_virtual_address *)
Definition find_symbol_by_virtual_address (elf : ElfFile) (address : Z) : option ResolvedSymbol :=
  best ← best_symbol address None (elf_symbols elf);
  Some (mkResolved best (address - sym_value best)).

(** One line of [/proc/<pid>/maps]; [None] where the source says [continue]. *)
(* src/elf/elf.cpp:262-278 ElfFile::load_bias *)
Definition maps_line (mapped_file : string) (load_vaddr : Z) (line : string) : res (option Z) :=
  let fields :=
    '(range, s) ← next_token line;
    '(permissions, s) ← next_token s;
    '(offset_text, s) ← next_token s;
    '(device, s) ← next_token s;
    '(inode, s) ← next_token s;
    Some (range, offset_text, s) in
  match fields with
  | None => Ok None
  | Some (range, offset_text, rest) =>
    let mapped_path := trim_left rest in
    if negb (String.eqb mapped_path mapped_file) then Ok None
    else
      offset ← stoull16 offset_text;
      if negb (offset =? 0) then Ok None
      else
        match String.index 0 "-" range with
        | None => Ok None
        | Some dash =>
          start ← stoull16 (String.substring 0 dash range);
          _ ← throw_if (start <? load_vaddr)
                (Exn RuntimeError "invalid ELF mapping below load virtual address");
          Ok (Some (start - load_vaddr))
        end
  end.

(* src/elf/elf.cpp:261-280 ElfFile::load_bias *)
Fixpoint maps_bias (mapped_file : string) (load_vaddr : Z) (lines : list string) : res Z :=
  match lines with
  | [] => runtime_error ("could not locate ELF mapping for load bias: " +:+ mapped_file)
  | line :: lines =>
    found ← maps_line mapped_file load_vaddr line;
    match found with
    | Some bias => Ok bias
    | None => maps_bias mapped_file load_vaddr lines
    end
  end.

Section ElfFile.
Context `{H : Host}.

(* src/elf/elf.cpp:102-115 read_binary_file *)
Definition read_binary_file (path : string) : res (list byte) :=
  match h_file path with
  | FileOpenFailed => runtime_error ("failed to open ELF file: " +:+ path)
  | FileSizeFailed => runtime_error "failed to determine ELF file size"
  | FileReadFailed => runtime_error "failed to read ELF file"
  | FileBytes bytes => Ok bytes
  end.

(* src/elf/elf.cpp:145-150 ElfFile::ElfFile *)
Definition open_elf (path : string) : res ElfFile :=
  bytes ← read_binary_file path;
  parse_elf h_page_size path bytes.

(* src/elf/elf.cpp:96-100 mapped_identity_path *)
Definition mapped_identity_path (path : string) : string := default path (h_canonical path).

Context `{K : Kernel} `{PM : !ProcMaps K}.

(* src/elf/elf.cpp:252-281 ElfFile::load_bias *)
Definition load_bias (elf : ElfFile) (pid : Z) : M world Z := fun w =>
  if elf_type elf =? ET_EXEC then (Ok 0, w)
  else if negb (elf_type elf =? ET_DYN) then (runtime_error "unsupported ELF executable type", w)
  else match k_maps pid w with
       | None => (runtime_error "failed to open tracee memory map", w)
       | Some lines =>
         (maps_bias (mapped_identity_path (elf_path elf)) (zero_offset_load_vaddr elf) lines, w)
       end.

(* src/elf/elf.cpp:283-285 ElfFile::runtime_address *)
Definition runtime_address (elf : ElfFile) (pid : Z) (symbol : ElfSymbol) : M world Z :=
  bias ← load_bias elf pid;
  mret (u64 (sym_value symbol + bias)).

(* src/elf/elf.cpp:287-292 ElfFile::find_symbol_by_runtime_address *)
Definition find_symbol_by_runtime_address (elf : ElfFile) (pid address : Z)
    : M world (option ResolvedSymbol) :=
  bias ← load_bias elf pid;
  if address <? bias then mret None
  else mret (find_symbol_by_virtual_address elf (address - bias)).
End ElfFile.
