(* ===== verification/Core.v ===== *)
(** * Core snapshots ([CoreSnapshot] of [src/elf/elf.cpp])

    The notes and memory of an ELF core file. *)

From S2P Require Import Prelude Machine ByteReader ElfFormat Elf.

(* src/elf/elf.hpp:59-64 CoreFileMapping *)
Record CoreFileMapping := mkMapping { map_start : Z; map_end : Z; map_file_offset : Z; map_path : string }.
(* src/elf/elf.hpp:66-70 CoreCrashInfo *)
Record CoreCrashInfo := mkCrash { crash_signal_number : Z; crash_signal_code : Z; crash_fault_address : option Z }.
(* src/elf/elf.hpp:72-79 CoreProcessInfo *)
Record CoreProcessInfo := mkProcessInfo {
  core_pid : Z; core_parent_pid : Z; core_process_group_id : Z; core_session_id : Z;
  core_file_name : string; core_command : string
}.
(* src/elf/elf.hpp:81-86 CoreThreadSnapshot *)
Record CoreThreadSnapshot := mkThread {
  thread_tid : Z; thread_signal_number : Z; thread_registers : user_regs_struct; thread_is_crashed : bool
}.
(* src/elf/elf.hpp:122-127 CoreSnapshot::LoadSegment *)
Record LoadSegment := mkSegment {
  seg_virtual_address : Z; seg_file_offset : Z; seg_file_size : Z; seg_memory_size : Z
}.

(* src/elf/elf.hpp:88-143 CoreSnapshot *)
Record CoreSnapshot := mkCore {
  core_path : string;
  core_bytes : list byte;
  load_segments : list LoadSegment;
  file_mappings : list CoreFileMapping;
  core_threads : list CoreThreadSnapshot;
  crash_info : option CoreCrashInfo;
  process_info : option CoreProcessInfo;
  core_registers : user_regs_struct;
  crashed_tid : Z;
  signal_number : Z;
  has_registers : bool
}.

Definition set_segments v c := mkCore (core_path c) (core_bytes c) v (file_mappings c) (core_threads c) (crash_info c) (process_info c) (core_registers c) (crashed_tid c) (signal_number c) (has_registers c).
Definition set_mappings v c := mkCore (core_path c) (core_bytes c) (load_segments c) v (core_threads c) (crash_info c) (process_info c) (core_registers c) (crashed_tid c) (signal_number c) (has_registers c).
Definition set_crash v c := mkCore (core_path c) (core_bytes c) (load_segments c) (file_mappings c) (core_threads c) v (process_info c) (core_registers c) (crashed_tid c) (signal_number c) (has_registers c).
Definition set_process_info v c := mkCore (core_path c) (core_bytes c) (load_segments c) (file_mappings c) (core_threads c) (crash_info c) v (core_registers c) (crashed_tid c) (signal_number c) (has_registers c).
Definition set_threads v c := mkCore (core_path c) (core_bytes c) (load_segments c) (file_mappings c) v (crash_info c) (process_info c) (core_registers c) (crashed_tid c) (signal_number c) (has_registers c).
Definition set_crashed_thread regs tid signal c := mkCore (core_path c) (core_bytes c) (load_segments c) (file_mappings c) (core_threads c) (crash_info c) (process_info c) regs tid signal true.

Definition empty_core (path : string) (bytes : list byte) : CoreSnapshot :=
  mkCore path bytes [] [] [] None None zero_regs (-1) 0 false.

Definition fail {A} (msg : string) : res A := runtime_error msg.
Definition fail_if (bad : bool) (msg : string) : res unit := throw_if bad (Exn RuntimeError msg).

(** ** Notes *)

(** The header, owner and payload of the note at [cursor]. *)
Record core_note := mkNote {
  note_owner_ : string; note_type_ : Z; note_descsz_ : Z; note_desc_offset_ : Z; note_next_ : Z
}.

(* src/elf/elf.cpp:363-377 CoreSnapshot::parse_notes *)
Definition read_note (bytes : list byte) (cursor end_ : Z) : res core_note :=
  _ ← fail_if (end_ - cursor <? sizeof_Nhdr) "truncated ELF core note header";
  note ← read_struct sizeof_Nhdr nhdr_at bytes cursor;
  let cursor := cursor + sizeof_Nhdr in
  name_padded ← align4 (n_namesz note) "ELF core note name";
  _ ← fail_if (end_ - cursor <? name_padded) "truncated ELF core note name";
  owner ← note_owner bytes cursor (n_namesz note);
  let cursor := cursor + name_padded in
  let desc_offset := cursor in
  desc_padded ← align4 (n_descsz note) "ELF core note payload";
  _ ← fail_if (end_ - cursor <? desc_padded) "truncated ELF core note payload";
  Ok (mkNote owner (n_type note) (n_descsz note) desc_offset (cursor + desc_padded)).

(* src/elf/elf.cpp:380-407 CoreSnapshot::parse_notes *)
Definition parse_prstatus (note : core_note) (c : CoreSnapshot) : res CoreSnapshot :=
  _ ← fail_if (negb (note_descsz_ note =? sizeof_prstatus)) "unsupported x86-64 NT_PRSTATUS size";
  status ← read_struct sizeof_prstatus prstatus_at (core_bytes c) (note_desc_offset_ note);
  _ ← fail_if (pr_pid status <=? 0) "NT_PRSTATUS has invalid TID";
  _ ← fail_if (existsb (fun thread => thread_tid thread =? pr_pid status) (core_threads c))
        "ELF core contains duplicate NT_PRSTATUS TID";
  let regs := pr_reg status in
  let signal := if negb (pr_cursig status =? 0) then pr_cursig status else pr_info_si_signo status in
  let is_crashed := match core_threads c with [] => true | _ => false end in
  let c := set_threads (core_threads c ++ [mkThread (pr_pid status) signal regs is_crashed]) c in
  Ok (if is_crashed then set_crashed_thread regs (pr_pid status) signal c else c).

(* src/elf/elf.cpp:409-424 CoreSnapshot::parse_notes *)
Definition parse_prpsinfo (note : core_note) (c : CoreSnapshot) : res CoreSnapshot :=
  _ ← fail_if (bool_decide (is_Some (process_info c))) "duplicate NT_PRPSINFO note";
  _ ← fail_if (negb (note_descsz_ note =? sizeof_prpsinfo)) "unsupported x86-64 NT_PRPSINFO size";
  process ← read_struct sizeof_prpsinfo prpsinfo_at (core_bytes c) (note_desc_offset_ note);
  Ok (set_process_info (Some (mkProcessInfo (psinfo_pid process) (psinfo_ppid process)
        (psinfo_pgrp process) (psinfo_sid process) (bounded_process_text (psinfo_fname process))
        (bounded_process_text (psinfo_psargs process)))) c).

(* src/elf/elf.cpp:426-435 CoreSnapshot::parse_notes *)
Definition parse_siginfo (note : core_note) (c : CoreSnapshot) : res CoreSnapshot :=
  _ ← fail_if (bool_decide (is_Some (crash_info c))) "duplicate NT_SIGINFO note";
  _ ← fail_if (negb (note_descsz_ note =? sizeof_siginfo)) "unsupported x86-64 NT_SIGINFO size";
  info ← read_struct sizeof_siginfo siginfo_at (core_bytes c) (note_desc_offset_ note);
  _ ← fail_if (si_signo info <=? 0) "NT_SIGINFO has invalid signal number";
  Ok (set_crash (Some (mkCrash (si_signo info) (si_code info) (fault_address_for_siginfo info))) c).

(** Start, end and page offset of the mapping at [entry]. *)
(* src/elf/elf.cpp:462-469 CoreSnapshot::parse_notes *)
Definition read_raw_mapping (bytes : list byte) (entry desc_end : Z) : res (Z * Z * Z) :=
  start ← read_u64 bytes entry desc_end "NT_FILE mapping start";
  mapping_end ← read_u64 bytes (u64 (entry + 8)) desc_end "NT_FILE mapping end";
  page_offset ← read_u64 bytes (u64 (entry + 16)) desc_end "NT_FILE mapping file offset";
  _ ← fail_if (mapping_end <=? start) "invalid NT_FILE mapping range";
  Ok (start, mapping_end, page_offset).

(** The characters of a path and the cursor after its terminator. *)
(* src/elf/elf.cpp:475-486 CoreSnapshot::parse_notes *)
Definition read_mapping_path (bytes : list byte) (string_cursor desc_end : Z) : res (string * Z) :=
  _ ← fail_if (desc_end <=? string_cursor) "missing NT_FILE path";
  found ← string_until (Z.to_nat (desc_end - string_cursor)) bytes string_cursor desc_end;
  match found with
  | None => fail "invalid NT_FILE path"
  | Some path =>
    _ ← fail_if (String.eqb path EmptyString) "invalid NT_FILE path";
    Ok (path, string_cursor + Z.of_nat (String.length path) + 1)
  end.

(* src/elf/elf.cpp:472-491 CoreSnapshot::parse_notes *)
Fixpoint name_mappings (bytes : list byte) (desc_end page_size string_cursor : Z) (raw : list (Z * Z * Z))
    : res (list CoreFileMapping) :=
  match raw with
  | [] => Ok []
  | (start, end_, page_offset) :: raw =>
    '(path, string_cursor) ← read_mapping_path bytes string_cursor desc_end;
    file_offset ← checked_mul page_offset page_size "NT_FILE file offset";
    rest ← name_mappings bytes desc_end page_size string_cursor raw;
    Ok (mkMapping start end_ file_offset path :: rest)
  end.

(* src/elf/elf.cpp:437-491 CoreSnapshot::parse_notes *)
Definition parse_file_note (note : core_note) (c : CoreSnapshot) : res CoreSnapshot :=
  let bytes := core_bytes c in
  let desc_offset := note_desc_offset_ note in
  _ ← fail_if (match file_mappings c with [] => false | _ => true end) "duplicate NT_FILE note";
  _ ← fail_if (note_descsz_ note <? 2 * 8) "truncated NT_FILE header";
  desc_end ← checked_add desc_offset (note_descsz_ note) "NT_FILE payload";
  count ← read_u64 bytes desc_offset desc_end "NT_FILE mapping count";
  page_size ← read_u64 bytes (u64 (desc_offset + 8)) desc_end "NT_FILE page size";
  _ ← fail_if (page_size =? 0) "NT_FILE page size is zero";
  triples_size ← checked_mul count (3 * 8) "NT_FILE mapping table";
  let triples_offset := u64 (desc_offset + 2 * 8) in
  strings_offset ← checked_add triples_offset triples_size "NT_FILE mapping table";
  _ ← fail_if (desc_end <? strings_offset) "truncated NT_FILE mapping table";
  raw ← mapM (fun index => read_raw_mapping bytes (u64 (triples_offset + Z.of_nat index * 3 * 8)) desc_end)
          (seq 0 (Z.to_nat count));
  mappings ← name_mappings bytes desc_end page_size strings_offset raw;
  Ok (set_mappings (file_mappings c ++ mappings) c).

(* src/elf/elf.cpp:379-437 CoreSnapshot::parse_notes *)
Definition parse_note (note : core_note) (c : CoreSnapshot) : res CoreSnapshot :=
  if negb (String.eqb (note_owner_ note) "CORE") then Ok c
  else if note_type_ note =? NT_PRSTATUS then parse_prstatus note c
  else if note_type_ note =? NT_PRPSINFO then parse_prpsinfo note c
  else if note_type_ note =? NT_SIGINFO then parse_siginfo note c
  else if negb (note_type_ note =? NT_FILE) then Ok c
  else parse_file_note note c.

(* src/elf/elf.cpp:362-492 CoreSnapshot::parse_notes *)
Fixpoint parse_notes_loop (fuel : nat) (cursor end_ : Z) (c : CoreSnapshot) : res CoreSnapshot :=
  if cursor <? end_ then
    match fuel with
    | O => OutOfFuel
    | S fuel =>
      note ← read_note (core_bytes c) cursor end_;
      c ← parse_note note c;
      parse_notes_loop fuel (note_next_ note) end_ c
    end
  else Ok c.

(* src/elf/elf.cpp:494-498 CoreSnapshot::parse_notes *)
Definition mapping_less (left right : CoreFileMapping) : bool :=
  if negb (map_start left =? map_start right) then map_start left <? map_start right
  else map_end left <? map_end right.
Definition mapping_le (a b : CoreFileMapping) : Prop := mapping_less b a = false.
#[export] Instance mapping_le_dec : RelDecision mapping_le.
Proof. intros a b. unfold mapping_le. apply _. Defined.

(** A note has a header of twelve bytes, so there are fewer notes than bytes. *)
(* src/elf/elf.cpp:359-499 CoreSnapshot::parse_notes *)
Definition parse_notes (offset size : Z) (c : CoreSnapshot) : res CoreSnapshot :=
  end_ ← checked_add offset size "ELF core PT_NOTE range";
  c ← parse_notes_loop (Z.to_nat size) offset end_ c;
  Ok (set_mappings (merge_sort mapping_le (file_mappings c)) c).

(** ** The file *)

(* src/elf/elf.cpp:534-542 CoreSnapshot::mapping_for_address *)
Fixpoint find_mapping (value : Z) (mappings : list CoreFileMapping) : option CoreFileMapping :=
  match mappings with
  | [] => None
  | mapping :: mappings =>
    if value <? map_start mapping then None
    else if (map_start mapping <=? value) && (value <? map_end mapping) then Some mapping
    else find_mapping value mappings
  end.
(* src/elf/elf.cpp:534-542 CoreSnapshot::mapping_for_address *)
Definition mapping_for_address (c : CoreSnapshot) (address : Z) : option CoreFileMapping :=
  find_mapping address (file_mappings c).

(* src/elf/elf.cpp:321-332 CoreSnapshot::parse *)
Definition parse_core_segment (c : CoreSnapshot) (phdr : Elf64_Phdr) : res CoreSnapshot :=
  if p_type phdr =? PT_LOAD then
    _ ← fail_if (p_memsz phdr <? p_filesz phdr) "ELF core PT_LOAD file size exceeds memory size";
    _ ← checked_add (p_vaddr phdr) (p_memsz phdr) "ELF core PT_LOAD address range";
    _ ← require_range (core_bytes c) (p_offset phdr) (p_filesz phdr) "ELF core PT_LOAD bytes";
    Ok (set_segments (load_segments c ++
          [mkSegment (p_vaddr phdr) (p_offset phdr) (p_filesz phdr) (p_memsz phdr)]) c)
  else if p_type phdr =? PT_NOTE then
    _ ← require_range (core_bytes c) (p_offset phdr) (p_filesz phdr) "ELF core PT_NOTE";
    parse_notes (p_offset phdr) (p_filesz phdr) c
  else Ok c.

(* src/elf/elf.cpp:298-316 CoreSnapshot::parse *)
Definition check_core_header (bytes : list byte) (header : Elf64_Ehdr) : res unit :=
  _ ← fail_if (negb (has_elf_magic header)) "core file is not ELF";
  _ ← fail_if (negb (ident header EI_CLASS =? ELFCLASS64) || negb (ident header EI_DATA =? ELFDATA2LSB) ||
               negb (ident header EI_VERSION =? EV_CURRENT) || negb (e_version header =? EV_CURRENT))
        "only current little-endian ELF64 core files are supported";
  _ ← fail_if (negb (e_type header =? ET_CORE)) "ELF file is not ET_CORE";
  _ ← fail_if (negb (e_machine header =? EM_X86_64)) "only x86-64 ELF core files are supported";
  _ ← fail_if ((e_phnum header =? 0) || (e_phnum header =? PN_XNUM) ||
               negb (e_phentsize header =? sizeof_Phdr)) "unsupported ELF core program-header table";
  phdr_bytes ← checked_mul (e_phnum header) sizeof_Phdr "ELF core program-header table";
  require_range bytes (e_phoff header) phdr_bytes "ELF core program-header table".

(* src/elf/elf.cpp:335-356 CoreSnapshot::parse *)
Definition check_core (c : CoreSnapshot) : res unit :=
  _ ← fail_if (negb (has_registers c) || match core_threads c with [] => true | _ => false end)
        "ELF core lacks NT_PRSTATUS registers";
  _ ← fail_if (match crash_info c with
               | Some crash => negb (crash_signal_number crash =? signal_number c)
               | None => false
               end) "NT_SIGINFO and crashed NT_PRSTATUS disagree on signal identity";
  _ ← (match process_info c with
       | Some info =>
         _ ← fail_if (core_pid info <=? 0) "NT_PRPSINFO has invalid process PID";
         fail_if (negb (existsb (fun thread => thread_tid thread =? core_pid info) (core_threads c)))
           "NT_PRPSINFO PID is not present in NT_PRSTATUS thread catalogue"
       | None => Ok tt
       end);
  _ ← fail_if (match load_segments c with [] => true | _ => false end) "ELF core lacks PT_LOAD memory";
  _ ← fail_if (match file_mappings c with [] => true | _ => false end) "ELF core lacks NT_FILE mappings";
  fail_if (match mapping_for_address c (rip (core_registers c)) with Some _ => false | None => true end)
    "ELF core crash RIP is not covered by NT_FILE mapping".

(* src/elf/elf.cpp:296-357 CoreSnapshot::parse *)
Definition parse_core (path : string) (bytes : list byte) : res CoreSnapshot :=
  header ← read_struct sizeof_Ehdr ehdr_at bytes 0;
  _ ← check_core_header bytes header;
  c ← res_fold (fun c index =>
        phdr ← read_struct sizeof_Phdr phdr_at bytes (u64 (e_phoff header + Z.of_nat index * sizeof_Phdr));
        parse_core_segment c phdr)
        (seq 0 (Z.to_nat (e_phnum header))) (empty_core path bytes);
  _ ← check_core c;
  Ok c.

Section Core.
Context `{H : Host}.

(* src/elf/elf.cpp:294-297 CoreSnapshot::CoreSnapshot *)
Definition open_core (path : string) : res CoreSnapshot :=
  bytes ← read_binary_file path;
  parse_core path bytes.
End Core.

(* src/elf/elf.cpp:501-506 CoreSnapshot::thread *)
Definition core_thread (c : CoreSnapshot) (tid : Z) : res CoreThreadSnapshot :=
  match List.find (fun thread => thread_tid thread =? tid) (core_threads c) with
  | Some thread => Ok thread
  | None => out_of_range "core thread TID is unavailable"
  end.

(** The first segment that holds [start] decides. *)
(* src/elf/elf.cpp:514-531 CoreSnapshot::read_memory *)
Fixpoint read_segments (bytes : list byte) (segments : list LoadSegment) (start end_ length : Z)
    : res (list byte) :=
  match segments with
  | [] => fail "core memory range is unmapped"
  | segment :: segments =>
    memory_end ← checked_add (seg_virtual_address segment) (seg_memory_size segment)
                   "core PT_LOAD memory range";
    if (start <? seg_virtual_address segment) || (memory_end <=? start)
    then read_segments bytes segments start end_ length
    else
      _ ← fail_if (memory_end <? end_) "core memory read spans PT_LOAD boundary";
      captured_end ← checked_add (seg_virtual_address segment) (seg_file_size segment)
                       "core PT_LOAD captured range";
      _ ← fail_if (captured_end <? end_) "core memory range is not captured in PT_LOAD file bytes";
      let delta := start - seg_virtual_address segment in
      file_offset ← checked_add (seg_file_offset segment) delta "core memory file offset";
      _ ← require_range bytes file_offset length "core memory bytes";
      Ok (bytes_at bytes file_offset length)
  end.

(* src/elf/elf.cpp:508-532 CoreSnapshot::read_memory *)
Definition core_read_memory (c : CoreSnapshot) (address length : Z) : res (list byte) :=
  if length =? 0 then Ok []
  else
    end_ ← checked_add address length "core memory read range";
    read_segments (core_bytes c) (load_segments c) address end_ length.
