(* ===== verification/CoreExtras.v ===== *)
(** * More of a core file ([src/elf/core_fpregset.hpp], [src/snapshot/startup.hpp])

    The floating-point registers of a thread and the auxiliary vector, read from the
    notes by parsers of their own. *)

From S2P Require Import Prelude Machine ByteReader ElfFormat Elf Core.

(** ** Notes, as these two parsers walk them *)

(* src/elf/core_fpregset.hpp:29-34 core_align4 *)
Definition core_align4 (overflow : string) (value : Z) : res Z :=
  _ ← fail_if (u64_max - 3 <? value) overflow;
  Ok (Z.land (value + 3) (u64 (Z.lnot 3))).

(* src/elf/core_fpregset.hpp:51-60 core_read_struct *)
Definition core_read_struct {T} (sizeof : Z) (at_ : list byte -> Z -> T) (what : string)
    (bytes : list byte) (offset : Z) : res T :=
  _ ← fail_if (out_of_bounds bytes offset sizeof) (what +:+ " extends past end of core file");
  Ok (at_ bytes offset).

(* src/elf/core_fpregset.hpp:62-74 core_note_owner *)
Definition core_note_owner (past : string) (bytes : list byte) (offset size : Z) : res string :=
  _ ← fail_if (out_of_bounds bytes offset size) past;
  Ok (string_of_bytes (until_nul (bytes_at bytes offset size))).

(** The messages in which the two walkers differ. *)
Record walk_messages := mkWalk {
  wm_header : string; wm_note : string; wm_name : string; wm_payload : string;
  wm_align : string; wm_owner : string
}.

(* src/elf/core_fpregset.hpp:119-131 read_core_floating_point_state *)
Definition walk_note (m : walk_messages) (bytes : list byte) (cursor end_ : Z) : res core_note :=
  _ ← fail_if (end_ - cursor <? sizeof_Nhdr) (wm_header m);
  note ← core_read_struct sizeof_Nhdr nhdr_at (wm_note m) bytes cursor;
  let cursor := cursor + sizeof_Nhdr in
  name_size ← core_align4 (wm_align m) (n_namesz note);
  _ ← fail_if (end_ - cursor <? name_size) (wm_name m);
  owner ← core_note_owner (wm_owner m) bytes cursor (n_namesz note);
  let desc_offset := cursor + name_size in
  desc_size ← core_align4 (wm_align m) (n_descsz note);
  _ ← fail_if (end_ - desc_offset <? desc_size) (wm_payload m);
  Ok (mkNote owner (n_type note) (n_descsz note) desc_offset (desc_offset + desc_size)).

(** [while (cursor < end)] over the notes of a segment. *)
Fixpoint walk_notes {S} (fuel : nat) (m : walk_messages) (step : S -> core_note -> res S)
    (bytes : list byte) (cursor end_ : Z) (s : S) : res S :=
  if cursor <? end_ then
    match fuel with
    | O => OutOfFuel
    | Datatypes.S fuel =>
      note ← walk_note m bytes cursor end_;
      s ← step s note;
      walk_notes fuel m step bytes (note_next_ note) end_ s
    end
  else Ok s.

(** ** Floating-point registers *)

(* src/elf/core_fpregset.hpp:21-25 CoreFloatingPointState *)
Record CoreFloatingPointState := mkFpState { fps_mxcsr : Z; fps_mxcsr_mask : Z; fps_xmm : list (list byte) }.

(* src/elf/core_fpregset.hpp:76-86 decode_core_fpregset *)
Definition decode_core_fpregset (registers : user_fpregs_struct) : CoreFloatingPointState :=
  mkFpState (fp_mxcsr registers) (fp_mxcr_mask registers)
    (map (fun i => take 16 (drop (16 * i) (fp_xmm_space registers))) (seq 0 16)).

(** The thread the notes belong to, the threads seen and the state asked for. *)
Record fp_walk := mkFpWalk {
  fw_current : option Z; fw_seen : gset Z; fw_target : option CoreFloatingPointState
}.

(* src/elf/core_fpregset.hpp:132-159 read_core_floating_point_state *)
Definition fp_note (bytes : list byte) (target_tid : Z) (s : fp_walk) (note : core_note) : res fp_walk :=
  if negb (String.eqb (note_owner_ note) "CORE") then Ok s
  else if note_type_ note =? NT_PRSTATUS then
    _ ← fail_if (negb (note_descsz_ note =? sizeof_prstatus))
          "unsupported x86-64 NT_PRSTATUS size while associating FPREGSET";
    status ← core_read_struct sizeof_prstatus prstatus_at "NT_PRSTATUS while associating FPREGSET"
               bytes (note_desc_offset_ note);
    _ ← fail_if (pr_pid status <=? 0) "NT_PRSTATUS has invalid TID";
    Ok (mkFpWalk (Some (pr_pid status)) (fw_seen s) (fw_target s))
  else if negb (note_type_ note =? NT_FPREGSET) then Ok s
  else
    match fw_current s with
    | None => fail "NT_FPREGSET appeared before any NT_PRSTATUS thread context"
    | Some current =>
      _ ← fail_if (negb (note_descsz_ note =? sizeof_fpregs)) "unsupported x86-64 NT_FPREGSET size";
      _ ← fail_if (bool_decide (current ∈ fw_seen s)) "duplicate NT_FPREGSET for one core thread";
      registers ← core_read_struct sizeof_fpregs fpregs_at "NT_FPREGSET" bytes (note_desc_offset_ note);
      Ok (mkFpWalk (Some current) ({[current]} ∪ fw_seen s)
            (if current =? target_tid then Some (decode_core_fpregset registers) else fw_target s))
    end.

Definition fp_messages : walk_messages :=
  mkWalk "truncated ELF core note header" "ELF core note" "truncated ELF core note name"
    "truncated ELF core note payload" "ELF core note alignment overflows"
    "ELF core note owner extends past end of file".

(* src/elf/core_fpregset.hpp:109-161 read_core_floating_point_state *)
Definition fp_segment (bytes : list byte) (target_tid phoff : Z) (s : fp_walk) (index : nat) : res fp_walk :=
  phdr ← core_read_struct sizeof_Phdr phdr_at "ELF core program header" bytes
           (u64 (phoff + Z.of_nat index * sizeof_Phdr));
  if negb (p_type phdr =? PT_NOTE) then Ok s
  else
    _ ← fail_if (out_of_bounds bytes (p_offset phdr) (p_filesz phdr)) "ELF core PT_NOTE extends past end of file";
    walk_notes (Z.to_nat (p_filesz phdr)) fp_messages (fp_note bytes target_tid) bytes
      (p_offset phdr) (p_offset phdr + p_filesz phdr) s.

(* src/elf/core_fpregset.hpp:94-162 read_core_floating_point_state *)
Definition parse_floating_point_state (bytes : list byte) (target_tid : Z)
    : res (option CoreFloatingPointState) :=
  _ ← fail_if (size_of bytes <? sizeof_Ehdr) "core is smaller than ELF header";
  header ← core_read_struct sizeof_Ehdr ehdr_at "ELF core header" bytes 0;
  _ ← fail_if (negb (has_elf_magic header) || negb (ident header EI_CLASS =? ELFCLASS64) ||
               negb (ident header EI_DATA =? ELFDATA2LSB) || negb (e_type header =? ET_CORE) ||
               negb (e_machine header =? EM_X86_64))
        "floating-point state requires little-endian x86-64 ET_CORE";
  _ ← fail_if ((e_phnum header =? 0) || (e_phnum header =? PN_XNUM) ||
               negb (e_phentsize header =? sizeof_Phdr)) "unsupported ELF core program-header table";
  s ← res_fold (fp_segment bytes target_tid (e_phoff header)) (seq 0 (Z.to_nat (e_phnum header)))
        (mkFpWalk None ∅ None);
  Ok (fw_target s).

(** ** The auxiliary vector *)

(* src/snapshot/startup.hpp:18-21 CoreAuxvEntry *)
Record CoreAuxvEntry := mkAuxvEntry { auxv_type : Z; auxv_value : Z }.
(* src/snapshot/startup.hpp:23-30 CoreStartupInfo *)
Record CoreStartupInfo := mkStartup {
  entry_point : option Z;
  program_headers : option Z;
  program_header_count : option Z;
  page_size : option Z;
  interpreter_base : option Z;
  auxv_entries : list CoreAuxvEntry
}.
Definition empty_startup : CoreStartupInfo := mkStartup None None None None None [].

(* src/snapshot/startup.hpp:71-75 assign_once *)
Definition assign_once (target : option Z) (value : Z) (label : string) : res (option Z) :=
  _ ← fail_if (bool_decide (is_Some target)) ("duplicate NT_AUXV " +:+ label);
  Ok (Some value).

(* src/snapshot/startup.hpp:151-171 read_core_startup_info *)
Definition add_auxv (info : CoreStartupInfo) (entry : Elf64_auxv_t) : res CoreStartupInfo :=
  let v := a_val entry in
  let '(mkStartup e p n g b entries) := info in
  let entries := entries ++ [mkAuxvEntry (a_type entry) v] in
  if a_type entry =? AT_ENTRY then
    e ← assign_once e v "AT_ENTRY"; Ok (mkStartup e p n g b entries)
  else if a_type entry =? AT_PHDR then
    p ← assign_once p v "AT_PHDR"; Ok (mkStartup e p n g b entries)
  else if a_type entry =? AT_PHNUM then
    n ← assign_once n v "AT_PHNUM"; Ok (mkStartup e p n g b entries)
  else if a_type entry =? AT_PAGESZ then
    g ← assign_once g v "AT_PAGESZ"; Ok (mkStartup e p n g b entries)
  else if a_type entry =? AT_BASE then
    b ← assign_once b v "AT_BASE"; Ok (mkStartup e p n g b entries)
  else Ok (mkStartup e p n g b entries).

(** The entries up to [AT_NULL], and whether there is one. *)
(* src/snapshot/startup.hpp:143-172 read_core_startup_info *)
Fixpoint read_auxv (bytes : list byte) (offset : Z) (count : nat) (info : CoreStartupInfo)
    : res (CoreStartupInfo * bool) :=
  match count with
  | O => Ok (info, false)
  | S count =>
    let entry := auxv_at bytes offset in
    if a_type entry =? AT_NULL then Ok (info, true)
    else
      info ← add_auxv info entry;
      read_auxv bytes (offset + sizeof_auxv) count info
  end.

(** [value] is set, and is not in a file mapping. *)
Definition unowned (snapshot : CoreSnapshot) (value : Z) : bool :=
  match mapping_for_address snapshot value with Some _ => false | None => true end.

(* src/snapshot/startup.hpp:173-194 read_core_startup_info *)
Definition check_startup (snapshot : CoreSnapshot) (info : CoreStartupInfo) : res unit :=
  _ ← fail_if (match page_size info with
               | Some v => (v =? 0) || negb (Z.land v (v - 1) =? 0)
               | None => false
               end) "NT_AUXV AT_PAGESZ is not a power of two";
  _ ← fail_if (match program_header_count info with Some v => v =? 0 | None => false end)
        "NT_AUXV AT_PHNUM is zero";
  _ ← fail_if (match entry_point info with
               | Some v => (v =? 0) || unowned snapshot v | None => false end)
        "NT_AUXV AT_ENTRY is outside NT_FILE ownership";
  _ ← fail_if (match program_headers info with
               | Some v => (v =? 0) || unowned snapshot v | None => false end)
        "NT_AUXV AT_PHDR is outside NT_FILE ownership";
  fail_if (match interpreter_base info with
           | Some v => negb (v =? 0) && unowned snapshot v | None => false end)
    "NT_AUXV AT_BASE is outside NT_FILE ownership".

(* src/snapshot/startup.hpp:129-196 read_core_startup_info *)
Definition startup_note (snapshot : CoreSnapshot) (bytes : list byte) (result : option CoreStartupInfo)
    (note : core_note) : res (option CoreStartupInfo) :=
  if negb (String.eqb (note_owner_ note) "CORE") || negb (note_type_ note =? NT_AUXV) then Ok result
  else
    _ ← fail_if (bool_decide (is_Some result)) "duplicate NT_AUXV note";
    _ ← fail_if ((note_descsz_ note =? 0) || (4096 <? note_descsz_ note) ||
                 negb (note_descsz_ note mod sizeof_auxv =? 0))
          "unsupported bounded x86-64 NT_AUXV payload";
    _ ← fail_if (out_of_bounds bytes (note_desc_offset_ note) (note_descsz_ note))
          "NT_AUXV payload extends past core file";
    '(info, saw_null) ← read_auxv bytes (note_desc_offset_ note)
                          (Z.to_nat (note_descsz_ note / sizeof_auxv)) empty_startup;
    _ ← fail_if (negb saw_null) "NT_AUXV lacks AT_NULL terminator";
    _ ← check_startup snapshot info;
    Ok (Some info).

Definition startup_messages : walk_messages :=
  mkWalk "truncated core startup note header" "core startup note" "truncated core startup note name"
    "truncated core startup note payload" "core startup note alignment overflow"
    "core startup note owner extends past file".

(* src/snapshot/startup.hpp:94-197 read_core_startup_info *)
Definition startup_segment (snapshot : CoreSnapshot) (bytes : list byte) (phoff : Z)
    (result : option CoreStartupInfo) (index : nat) : res (option CoreStartupInfo) :=
  let ph_offset := u64 (phoff + Z.of_nat index * sizeof_Phdr) in
  _ ← fail_if (out_of_bounds bytes ph_offset sizeof_Phdr)
        "core startup program header extends past file";
  let phdr := phdr_at bytes ph_offset in
  if negb (p_type phdr =? PT_NOTE) then Ok result
  else
    _ ← fail_if (out_of_bounds bytes (p_offset phdr) (p_filesz phdr)) "core startup PT_NOTE extends past file";
    walk_notes (Z.to_nat (p_filesz phdr)) startup_messages (startup_note snapshot bytes) bytes
      (p_offset phdr) (p_offset phdr + p_filesz phdr) result.

(* src/snapshot/startup.hpp:79-199 read_core_startup_info *)
Definition parse_startup_info (snapshot : CoreSnapshot) (bytes : list byte)
    : res (option CoreStartupInfo) :=
  _ ← fail_if (size_of bytes <? sizeof_Ehdr) "core startup metadata lacks ELF header";
  let header := ehdr_at bytes 0 in
  _ ← fail_if (negb (e_phentsize header =? sizeof_Phdr)) "unsupported core startup program-header size";
  res_fold (startup_segment snapshot bytes (e_phoff header)) (seq 0 (Z.to_nat (e_phnum header))) None.

Section Files.
Context `{H : Host}.

(* src/elf/core_fpregset.hpp:36-49 read_core_bytes *)
Definition read_core_bytes (path : string) : res (list byte) :=
  match h_file path with
  | FileOpenFailed => fail ("failed to open ELF core file: " +:+ path)
  | FileSizeFailed => fail "failed to determine ELF core file size"
  | FileReadFailed => fail "failed to read ELF core file"
  | FileBytes bytes => Ok bytes
  end.

(* src/elf/core_fpregset.hpp:90-163 read_core_floating_point_state *)
Definition read_core_floating_point_state (path : string) (target_tid : Z)
    : res (option CoreFloatingPointState) :=
  _ ← throw_if (target_tid <=? 0) (Exn InvalidArgument "core floating-point TID must be positive");
  bytes ← read_core_bytes path;
  parse_floating_point_state bytes target_tid.

(* src/elf/elf.hpp:109-112 CoreSnapshot::floating_point_state *)
Definition floating_point_state (c : CoreSnapshot) (tid : Z) : res (option CoreFloatingPointState) :=
  _ ← core_thread c tid;
  read_core_floating_point_state (core_path c) tid.

(* src/snapshot/startup.hpp:41-54 read_core_bytes *)
Definition read_startup_bytes (path : string) : res (list byte) :=
  match h_file path with
  | FileOpenFailed => fail "failed to open core file for startup metadata"
  | FileSizeFailed => fail "failed to determine core startup file size"
  | FileReadFailed => fail "failed to read core startup metadata"
  | FileBytes bytes => Ok bytes
  end.

(* src/snapshot/startup.hpp:79-84 read_core_startup_info *)
Definition read_core_startup_info (snapshot : CoreSnapshot) : res (option CoreStartupInfo) :=
  bytes ← read_startup_bytes (core_path snapshot);
  parse_startup_info snapshot bytes.
End Files.
