(* ===== verification/ElfProofs.v ===== *)
(** * Properties of the ELF and core parsers *)

From S2P Require Import Prelude Machine ByteReader ElfFormat Elf Core CoreExtras.
From S2P Require Process.

(** ** The parsers are total

    Whatever the file holds, a parser returns a value or throws: no access outside
    the file's bytes, and every loop ends. *)

Lemma string_until_settles fuel bytes cursor end_ :
  0 <= cursor -> end_ <= size_of bytes -> end_ - cursor <= Z.of_nat fuel ->
  settles (string_until fuel bytes cursor end_).
Proof.
  intros Hc He. revert cursor Hc. induction fuel as [|fuel IH]; intros cursor Hc Hf; simpl;
    (destruct (Z.ltb_spec cursor end_); [|done]); [lia|].
  unfold byte_at. destruct (bytes !! Z.to_nat cursor) as [b|] eqn:E.
  - simpl. destruct (byte_val b =? 0); [done|]. apply settles_bind; [apply IH; lia|done].
  - apply lookup_ge_None in E. unfold size_of in He. lia.
Qed.

Lemma out_of_bounds_false bytes o n :
  out_of_bounds bytes o n = false <-> o <= size_of bytes /\ n <= size_of bytes - o.
Proof. unfold out_of_bounds. rewrite orb_false_iff, !Z.ltb_ge. lia. Qed.

Lemma require_range_Ok bytes o n what u :
  require_range bytes o n what = Ok u -> o <= size_of bytes /\ n <= size_of bytes - o.
Proof. intros H%throw_if_Ok. by apply out_of_bounds_false. Qed.

Lemma read_struct_settles {T} n (f : list byte -> Z -> T) bytes o : settles (read_struct n f bytes o).
Proof. unfold read_struct. settles_auto. Qed.
Lemma require_range_settles bytes o n what : settles (require_range bytes o n what).
Proof. unfold require_range. auto with msettle. Qed.
Lemma checked_add_settles a b what : settles (checked_add a b what).
Proof. unfold checked_add. settles_auto. Qed.
Lemma checked_mul_settles a b what : settles (checked_mul a b what).
Proof. unfold checked_mul. settles_auto. Qed.
Lemma align4_settles a what : settles (align4 a what).
Proof. unfold align4, checked_add. settles_auto. Qed.
Lemma fail_if_settles b msg : settles (fail_if b msg).
Proof. apply settles_throw_if. Qed.
Lemma fail_settles {A} msg : settles (fail msg : res A).
Proof. done. Qed.
Lemma note_owner_settles bytes o n : settles (note_owner bytes o n).
Proof. unfold note_owner, require_range. settles_auto. Qed.
Lemma read_u64_settles bytes o l what : settles (read_u64 bytes o l what).
Proof. unfold read_u64, require_range. settles_auto. Qed.
#[export] Hint Resolve read_struct_settles require_range_settles checked_add_settles checked_mul_settles
  align4_settles fail_if_settles fail_settles note_owner_settles read_u64_settles : msettle.

Lemma shdr_at_range bytes o : in_u64 (sh_offset (shdr_at bytes o)) /\ in_u64 (sh_size (shdr_at bytes o)) /\
  0 <= sh_name (shdr_at bytes o) < 4294967296.
Proof. split; [apply le_at_u64|]. split; [apply le_at_u64|apply le_at_u32]. Qed.

(** A file is smaller than the address space. *)
Definition file_sized (bytes : list byte) : Prop := size_of bytes <= i64_max.

Lemma read_string_settles bytes o n so :
  file_sized bytes -> 0 <= o -> 0 <= so -> o <= size_of bytes -> n <= size_of bytes - o ->
  settles (read_string bytes o n so).
Proof.
  intros Hfile Ho Hso H1 H2. unfold file_sized, i64_max in Hfile.
  unfold read_string. destruct (Z.leb_spec n so); [done|].
  rewrite !u64_small by (unfold in_u64, u64_max; lia).
  apply settles_bind; [|done]. apply string_until_settles; lia.
Qed.

Lemma read_table_spec {T} n (f : list byte -> Z -> T) bytes o count l :
  read_table n f bytes o count = Ok l -> Forall (fun x => exists o', x = f bytes o') l.
Proof.
  unfold read_table. generalize (seq 0 (Z.to_nat count)). intros idx. revert l.
  induction idx as [|i idx IH]; intros l H; simpl in H; [by injection H as <-|].
  inv_res. subst. constructor; [|by apply IH].
  unfold read_struct in *. inv_res. by eexists.
Qed.

Lemma parse_symbol_settles bytes strings o :
  file_sized bytes -> (exists so, strings = shdr_at bytes so) ->
  sh_offset strings <= size_of bytes -> sh_size strings <= size_of bytes - sh_offset strings ->
  settles (parse_symbol bytes strings o).
Proof.
  intros Hf [so ->] H1 H2. destruct (shdr_at_range bytes so) as ([? ?] & [? ?] & _).
  unfold parse_symbol. apply settles_bind; [auto with msettle|]. intros s Hs.
  destruct (_ || _); [done|]. cbv zeta. destruct (_ || _); [done|].
  apply settles_bind; [|intros; settles_auto].
  apply read_string_settles; try done.
  unfold read_struct in Hs. inv_res. subst. apply le_at_u32.
Qed.

Lemma parse_symbol_table_settles bytes sections section :
  file_sized bytes -> Forall (fun x => exists o, x = shdr_at bytes o) sections ->
  settles (parse_symbol_table bytes sections section).
Proof.
  intros Hf Hs. unfold parse_symbol_table. destruct (_ && _); [done|]. destruct (negb _); [done|].
  destruct (sections !! Z.to_nat (sh_link section)) as [strings|] eqn:E; [|done].
  apply settles_bind; [auto with msettle|intros _ _].
  apply settles_bind; [auto with msettle|intros _ [H1 H2]%require_range_Ok].
  apply settles_bind; [|done]. apply settles_mapM. intros i _. apply parse_symbol_settles; auto.
  rewrite Forall_lookup in Hs. eauto.
Qed.

Lemma parse_elf_total page_size path bytes : file_sized bytes -> settles (parse_elf page_size path bytes).
Proof.
  intros Hf. unfold parse_elf. do 6 (apply settles_bind; [auto with msettle|intros ? ?]).
  apply settles_bind; [apply settles_mapM; auto with msettle|intros phdrs _].
  apply settles_bind; [apply settles_mapM; auto with msettle|intros sections Hs%read_table_spec].
  apply settles_bind; [|done]. apply settles_mapM. intros s _. by apply parse_symbol_table_settles.
Qed.

(** whatever bytes a file holds, parsing it as an ELF file returns the symbol table
    or throws; it never reads outside the file and always ends. *)
Theorem parse_elf_settles page_size path bytes : file_sized bytes -> settles (parse_elf page_size path bytes).
Proof. apply parse_elf_total. Qed.

(** ** Looking up a symbol by address *)

Definition sorted_by_value : list ElfSymbol -> Prop :=
  StronglySorted (fun a b => sym_value a <= sym_value b).

Lemma best_symbol_spec address l best :
  sorted_by_value l ->
  (forall b, best = Some b -> covers address b = true /\ sym_value b <= address /\
     Forall (fun s => sym_value b <= sym_value s) l) ->
  match best_symbol address best l with
  | Some r => (Some r = best \/ r ∈ l) /\ covers address r = true /\ sym_value r <= address /\
      (forall s, s ∈ l -> covers address s = true -> sym_value s <= address -> sym_value s <= sym_value r) /\
      (forall b, best = Some b -> sym_value b <= sym_value r)
  | None => best = None /\ forall s, s ∈ l -> ~ (covers address s = true /\ sym_value s <= address)
  end.
Proof.
  revert best. induction l as [|s l IH]; intros best Hs Hb; simpl.
  - destruct best as [b|]; [|split; [done|by intros ? ?%elem_of_nil]].
    destruct (Hb b eq_refl) as (H1 & H2 & _). split; [by left|]. do 2 (split; [done|]).
    split; [by intros ? ?%elem_of_nil|]. intros b' [= ->]. lia.
  - inversion Hs as [|? ? Hs' Hall]; subst.
    destruct (Z.ltb_spec address (sym_value s)) as [Hlt|Hle].
    + assert (Hno : forall x, x ∈ s :: l -> ~ sym_value x <= address).
      { intros x [->|Hx]%elem_of_cons; [lia|]. rewrite Forall_forall in Hall.
        specialize (Hall x Hx). simpl in Hall. lia. }
      destruct best as [b|]; [|split; [done|]; intros x Hx [_ H]; by apply (Hno x)].
      destruct (Hb b eq_refl) as (H1 & H2 & _). split; [by left|]. do 2 (split; [done|]).
      split; [|intros b' [= ->]; lia]. intros x Hx _ H. by apply Hno in Hx.
    + set (best' := if negb (covers address s) then best else _).
      assert (Hbest' : (best' = best /\ (covers address s = true ->
                          exists b, best = Some b /\ sym_value s <= sym_value b)) \/
                       (best' = Some s /\ covers address s = true)).
      { subst best'. destruct (covers address s) eqn:Ec; simpl; [|by left].
        destruct best as [b|]; [|by right].
        destruct (Z.ltb_spec (sym_value b) (sym_value s)); simpl; [by right|].
        destruct ((sym_value s =? sym_value b) && _ && _); [by right|].
        left. split; [done|]. intros _. eauto. }
      specialize (IH best' Hs'). lapply IH; clear IH.
      2: { intros b Hb'. destruct Hbest' as [[-> _]|[-> Hc]].
           - destruct (Hb b Hb') as (? & ? & Hf). inversion Hf; subst. auto.
           - injection Hb' as <-. auto. }
      destruct (best_symbol address best' l) as [r|] eqn:Er.
      * intros (H1 & H2 & H3 & H4 & H5). split.
        { destruct H1 as [H1|H1]; [|right; by right].
          destruct Hbest' as [[E _]|[E _]]; rewrite E in H1; [by left|right; injection H1 as ->; left]. }
        do 2 (split; [done|]). split.
        -- intros x [->|Hx]%elem_of_cons Hc Hv; [|by apply H4].
           destruct Hbest' as [[E Hw]|[E _]]; [|by apply H5].
           destruct (Hw Hc) as (b & Eb & Hle'). etrans; [exact Hle'|]. apply H5. congruence.
        -- intros b Eb. destruct Hbest' as [[E _]|[E _]]; [apply H5; congruence|].
           destruct (Hb b Eb) as (_ & _ & Hf). inversion Hf; subst. etrans; [done|]. by apply H5.
      * intros [H1 H2]. destruct Hbest' as [[E Hw]|[E _]]; [|congruence]. split; [congruence|].
        intros x [->|Hx]%elem_of_cons [Hc Hv]; [|by apply (H2 x)].
        destruct (Hw Hc) as (b & Eb & _). congruence.
Qed.

(** on a symbol list sorted by value, the lookup by address returns a function or
    untyped symbol that holds the address, the one with the greatest value, with the
    distance from its start; and nothing only when no symbol holds the address. *)
Theorem find_symbol_by_virtual_address_spec elf address :
  sorted_by_value (elf_symbols elf) ->
  match find_symbol_by_virtual_address elf address with
  | Some (mkResolved s offset) =>
      s ∈ elf_symbols elf /\ covers address s = true /\ 0 <= offset /\ sym_value s + offset = address /\
      (forall s', s' ∈ elf_symbols elf -> covers address s' = true -> sym_value s' <= address ->
         sym_value s' <= sym_value s)
  | None => forall s, s ∈ elf_symbols elf -> ~ (covers address s = true /\ sym_value s <= address)
  end.
Proof.
  intros Hs. pose proof (best_symbol_spec address (elf_symbols elf) None Hs ltac:(done)) as H.
  unfold find_symbol_by_virtual_address. destruct (best_symbol address None (elf_symbols elf)) as [r|]; simpl.
  - destruct H as ([|H1] & H2 & H3 & H4 & _); [done|]. split; [done|]. split; [done|]. split; [lia|].
    split; [lia|done].
  - by destruct H.
Qed.

(** ** Witnesses: an executable with a string table, a symbol table and one function *)

Definition demo_elf_file : list byte :=
  le_split 16 0x010102464c457f ++ le_split 2 2 ++ le_split 2 62 ++ le_split 4 1 ++ le_split 8 0x401000 ++
  le_split 8 0 ++ le_split 8 64 ++ le_split 4 0 ++ le_split 2 64 ++ le_split 2 56 ++ le_split 2 0 ++
  le_split 2 64 ++ le_split 2 2 ++ le_split 2 0 ++
  (* section 0: the string table at 192; section 1: the symbol table at 200 *)
  le_split 4 0 ++ le_split 4 3 ++ le_split 16 0 ++ le_split 8 192 ++ le_split 8 6 ++ le_split 24 0 ++
  le_split 4 0 ++ le_split 4 2 ++ le_split 16 0 ++ le_split 8 200 ++ le_split 8 24 ++ le_split 4 0 ++ le_split 12 0 ++
  le_split 8 24 ++
  (* "\0main\0" and the symbol *)
  le_split 8 0x6e69616d00 ++
  le_split 4 1 ++ le_split 1 0x12 ++ le_split 1 0 ++ le_split 2 1 ++ le_split 8 0x401000 ++ le_split 8 32.

Definition demo_symbol : ElfSymbol := mkSymbol "main" 0x401000 32 STT_FUNC STB_GLOBAL.
Definition demo_elf : ElfFile := mkElfFile "demo" [demo_symbol] ET_EXEC 0.

Example demo_elf_parses : parse_elf 4096 "demo" demo_elf_file = Ok demo_elf.
Proof. vm_cast_no_check (@eq_refl (res ElfFile) (Ok demo_elf)). Qed.

Lemma parse_elf_settles_witness : settles (parse_elf 4096 "demo" demo_elf_file).
Proof. apply parse_elf_settles. vm_compute. congruence. Defined.

Lemma find_symbol_by_virtual_address_spec_witness :
  find_symbol_by_virtual_address demo_elf 0x401010 = Some (mkResolved demo_symbol 16) /\
  demo_symbol ∈ elf_symbols demo_elf.
Proof.
  assert (Hs : sorted_by_value (elf_symbols demo_elf)) by repeat constructor.
  pose proof (find_symbol_by_virtual_address_spec demo_elf 0x401010 Hs) as H.
  split; [vm_compute; reflexivity|exact (proj1 H)].
Defined.
