(* ===== verification/ModulePathProofs.v ===== *)
(** * Debug links and their CRC

    The parser of the [.gnu_debuglink] section always ends in a link or an exception, the
    CRC tells apart any two files that differ in one byte, and a debug file is accepted
    only with both. *)

From S2P Require Import Prelude Machine Paths ByteReader ElfFormat SourcePath ModulePath.
From S2P Require Elf ElfProofs.

(** ** The CRC *)

Definition in_u32 (z : Z) : Prop := 0 <= z < 2 ^ 32.

Lemma crc_bit_cases c : in_u32 c ->
  crc_bit c = if Z.odd c then Z.lxor (c / 2) 0xedb88320 else c / 2.
Proof.
  intros Hc. unfold crc_bit. rewrite Z.shiftr_div_pow2 by lia. change (2 ^ 1) with 2.
  rewrite (land_mask c 1 1) by done. change (2 ^ 1) with 2.
  rewrite Zmod_odd. destruct (Z.odd c); [done|]. apply Z.lxor_0_r.
Qed.

Lemma half_range c : in_u32 c -> 0 <= c / 2 < 2 ^ 31.
Proof. unfold in_u32. intros. change (2 ^ 32) with (2 * 2 ^ 31) in *. dlia. Qed.

Lemma lxor_u32 a b : in_u32 a -> in_u32 b -> in_u32 (Z.lxor a b).
Proof.
  unfold in_u32. intros Ha Hb. split; [by apply Z.lxor_nonneg; lia|].
  destruct (Z.eq_dec (Z.lxor a b) 0) as [->|Hne]; [lia|].
  assert (0 <= Z.lxor a b) by (apply Z.lxor_nonneg; lia).
  apply Z.log2_lt_pow2; [lia|]. eapply Z.le_lt_trans; [apply Z.log2_lxor; lia|].
  destruct (Z.eq_dec a 0) as [->|], (Z.eq_dec b 0) as [->|]; cbn [Z.log2]; try lia.
  - rewrite Z.max_r by apply Z.log2_nonneg. apply Z.log2_lt_pow2; lia.
  - rewrite Z.max_l by apply Z.log2_nonneg. apply Z.log2_lt_pow2; lia.
  - apply Z.max_lub_lt; apply Z.log2_lt_pow2; lia.
Qed.

Lemma lor_u32 a b : in_u32 a -> in_u32 b -> in_u32 (Z.lor a b).
Proof.
  unfold in_u32. intros Ha Hb. rewrite <- (Z.mod_small a (2 ^ 32)), <- (Z.mod_small b (2 ^ 32)) by lia.
  rewrite <- !Z.land_ones, <- Z.land_lor_distr_l, Z.land_ones by lia. apply Z.mod_pos_bound. lia.
Qed.

Lemma crc_bit_range c : in_u32 c -> in_u32 (crc_bit c).
Proof.
  intros Hc. rewrite crc_bit_cases by done. pose proof (half_range c Hc).
  destruct (Z.odd c); [apply lxor_u32; unfold in_u32; lia|unfold in_u32; lia].
Qed.

Lemma lxor_cancel_l a b c : Z.lxor a b = Z.lxor a c -> b = c.
Proof.
  intros E. apply (f_equal (Z.lxor a)) in E. by rewrite <- !Z.lxor_assoc, Z.lxor_nilpotent, !Z.lxor_0_l in E.
Qed.

(** The top bit of the result is the bit that was shifted out. *)
Lemma crc_bit_top c : in_u32 c -> Z.testbit (crc_bit c) 31 = Z.odd c.
Proof.
  intros Hc. rewrite crc_bit_cases by done. pose proof (half_range c Hc) as Hh.
  assert (Ht : Z.testbit (c / 2) 31 = false).
  { destruct (Z.eq_dec (c / 2) 0) as [->|]; [apply Z.bits_0|]. apply Z.bits_above_log2; [lia|]. apply Z.log2_lt_pow2; lia. }
  destruct (Z.odd c); [|done]. by rewrite Z.lxor_spec, Ht.
Qed.

Lemma crc_bit_inj a b : in_u32 a -> in_u32 b -> crc_bit a = crc_bit b -> a = b.
Proof.
  intros Ha Hb E. assert (Eo : Z.odd a = Z.odd b) by (rewrite <- !crc_bit_top by done; by rewrite E).
  assert (Eh : a / 2 = b / 2).
  { rewrite !crc_bit_cases in E by done. rewrite <- Eo in E. destruct (Z.odd a); [|done].
    rewrite !(Z.lxor_comm (_ / 2)) in E. by apply lxor_cancel_l in E. }
  rewrite (Z.div_mod a 2), (Z.div_mod b 2), Eh, !Zmod_odd, Eo by lia. done.
Qed.

Lemma crc_byte_eq c v : crc_byte c v = Nat.iter 8 crc_bit (Z.lxor c (byte_val v)).
Proof. reflexivity. Qed.

Lemma crc_byte_range c v : in_u32 c -> in_u32 (crc_byte c v).
Proof.
  intros Hc. unfold crc_byte. apply Nat.iter_invariant; [intros; by apply crc_bit_range|].
  apply lxor_u32; [done|]. pose proof (byte_val_range v). unfold in_u32. lia.
Qed.

Lemma crc_bits_inj n a b : in_u32 a -> in_u32 b -> Nat.iter n crc_bit a = Nat.iter n crc_bit b -> a = b.
Proof.
  revert a b. induction n as [|n IH]; intros a b Ha Hb; [done|]. rewrite !Nat.iter_succ_r.
  intros E. apply IH in E; [|by apply crc_bit_range..]. by apply crc_bit_inj.
Qed.

Lemma byte_u32 c v : in_u32 c -> in_u32 (Z.lxor c (byte_val v)).
Proof. intros Hc. apply lxor_u32; [done|]. pose proof (byte_val_range v). unfold in_u32. lia. Qed.

Lemma crc_byte_inj_l c d v : in_u32 c -> in_u32 d -> crc_byte c v = crc_byte d v -> c = d.
Proof.
  intros Hc Hd E. rewrite !crc_byte_eq in E. apply crc_bits_inj in E; [|by apply byte_u32..].
  rewrite !(Z.lxor_comm _ (byte_val v)) in E. by apply lxor_cancel_l in E.
Qed.
Lemma crc_byte_inj_r c v w : in_u32 c -> crc_byte c v = crc_byte c w -> v = w.
Proof.
  intros Hc E. rewrite !crc_byte_eq in E. apply crc_bits_inj in E; [|by apply byte_u32..]. apply lxor_cancel_l in E. by apply byte_val_inj.
Qed.

Lemma crc_fold_range l c : in_u32 c -> in_u32 (foldl crc_byte c l).
Proof. revert c. induction l as [|v l IH]; intros c Hc; [done|]. apply IH, crc_byte_range, Hc. Qed.

Lemma crc_fold_inj l c d : in_u32 c -> in_u32 d -> foldl crc_byte c l = foldl crc_byte d l -> c = d.
Proof.
  revert c d. induction l as [|v l IH]; intros c d Hc Hd E; [done|].
  apply IH in E; [|by apply crc_byte_range..]. by apply crc_byte_inj_l in E.
Qed.

(** Reading in buffers makes no difference. *)
Lemma crc_buffers_fold fuel c l : (length l < fuel)%nat -> crc_buffers fuel c l = Ok (foldl crc_byte c l).
Proof.
  revert c l. induction fuel as [|fuel IH]; intros c l Hl; [lia|]. cbn [crc_buffers]. unfold size_of.
  destruct (Z.ltb_spec (Z.of_nat (length l)) 8192).
  - by rewrite take_ge by lia.
  - rewrite IH by (rewrite length_drop; lia). by rewrite <- foldl_app, take_drop.
Qed.

Lemma crc32_of_fold l : crc32_of l = Ok (Z.lxor (foldl crc_byte 0xffffffff l) 0xffffffff).
Proof. unfold crc32_of. by rewrite crc_buffers_fold by lia. Qed.

(** the CRC of a debug file is defined for every file, has 32 bits, and changes whenever one
    byte of the file changes. *)
Theorem crc32_detects_byte pre x y post : x <> y ->
  exists c d, crc32_of (pre ++ x :: post) = Ok c /\ crc32_of (pre ++ y :: post) = Ok d /\
    in_u32 c /\ in_u32 d /\ c <> d.
Proof.
  intros Hne. assert (H0 : in_u32 0xffffffff) by (unfold in_u32; lia).
  eexists _, _. split; [apply crc32_of_fold|]. split; [apply crc32_of_fold|].
  split; [by apply lxor_u32; [apply crc_fold_range|]|]. split; [by apply lxor_u32; [apply crc_fold_range|]|].
  rewrite !(Z.lxor_comm _ 0xffffffff). intros E%lxor_cancel_l. rewrite !foldl_app in E. cbn [foldl] in E.
  assert (Hp : in_u32 (foldl crc_byte 0xffffffff pre)) by by apply crc_fold_range.
  apply crc_fold_inj in E; [|by apply crc_byte_range..]. by apply crc_byte_inj_r in E.
Qed.

Lemma crc32_detects_byte_witness :
  exists c d, crc32_of [Byte.x41; Byte.x42] = Ok c /\ crc32_of [Byte.x41; Byte.x43] = Ok d /\ c <> d.
Proof.
  destruct (crc32_detects_byte [Byte.x41] Byte.x42 Byte.x43 []) as (c & d & H1 & H2 & _ & _ & H3); [discriminate|].
  exists c, d. split; [exact H1|]. split; [exact H2|exact H3].
Defined.

(** ** The parser of the debug link *)

Import ElfProofs.

Lemma byte_at_in bytes i : 0 <= i < size_of bytes -> exists b, byte_at bytes i = Ok (byte_val b) /\ bytes !! Z.to_nat i = Some b.
Proof.
  intros Hi. unfold byte_at. destruct (bytes !! Z.to_nat i) as [b|] eqn:E; [by exists b|].
  apply lookup_ge_None in E. unfold size_of in Hi. lia.
Qed.

Lemma name_until_yields fuel bytes cursor end_ :
  0 <= cursor -> end_ <= size_of bytes -> end_ - cursor <= Z.of_nat fuel ->
  yields (fun found => forall name, found = Some name -> cursor + Z.of_nat (String.length name) < end_)
    (name_until fuel bytes cursor end_).
Proof.
  intros Hc He. revert cursor Hc. induction fuel as [|fuel IH]; intros cursor Hc Hf; cbn [name_until];
    (destruct (Z.ltb_spec cursor end_); [|done]); [lia|].
  destruct (byte_at_in bytes cursor) as (b & -> & _); [lia|]. cbn [mbind res_bind].
  destruct (byte_val b =? 0); [intros ? [= <-]; simpl; lia|].
  eapply yields_bind; [apply IH; lia|]. intros found Hrest name Hn. destruct found as [rest|]; [|done].
  injection Hn as <-. specialize (Hrest rest eq_refl). cbn [String.length]. lia.
Qed.

Lemma zero_padding_settles n bytes cursor :
  0 <= cursor -> cursor + Z.of_nat n <= size_of bytes -> settles (zero_padding n bytes cursor).
Proof.
  revert cursor. induction n as [|n IH]; intros cursor Hc Hn; [done|]. cbn [zero_padding].
  destruct (byte_at_in bytes cursor) as (b & -> & _); [lia|]. cbn [mbind res_bind].
  destruct (negb _); [done|]. apply IH; lia.
Qed.

Lemma link_crc_yields n bytes cursor shift crc :
  0 <= cursor -> cursor + Z.of_nat n <= size_of bytes -> in_u32 crc -> yields in_u32 (link_crc n bytes cursor shift crc).
Proof.
  revert cursor shift crc. induction n as [|n IH]; intros cursor shift crc Hc Hn Hcrc; [done|]. cbn [link_crc].
  destruct (byte_at_in bytes cursor) as (b & -> & _); [lia|]. cbn [mbind res_bind]. apply IH; [lia..|].
  unfold in_u32 in *. assert (0 <= Z.shiftl (byte_val b) shift mod 2 ^ 32 < 2 ^ 32) by (apply Z.mod_pos_bound; lia).
  by apply lor_u32.
Qed.

(** A link names a file of its own directory and carries a 32-bit CRC. *)
Definition link_ok (link : GnuDebugLink) : Prop :=
  dl_filename link <> EmptyString /\ path_filename (dl_filename link) = dl_filename link /\ in_u32 (dl_crc32 link).

Lemma parse_debuglink_yields bytes section :
  file_sized bytes -> in_u64 (sh_offset section) -> in_u64 (sh_size section) ->
  yields link_ok (parse_debuglink bytes section).
Proof.
  unfold file_sized, in_u64, u64_max, i64_max. intros Hf Ho Hs. unfold parse_debuglink.
  apply yields_guard. intros [H1 H2]%out_of_bounds_false.
  apply yields_guard. intros _.
  eapply yields_bind; [apply name_until_yields; lia|]. intros found Hfound.
  apply yields_guard. intros Hname. destruct found as [name|]; [|done]. unfold default, id in *. cbn [orb] in *.
  apply orb_false_elim in Hname as [Hn1 Hn2]. apply negb_false_iff, String.eqb_eq in Hn2. apply String.eqb_neq in Hn1.
  specialize (Hfound name eq_refl). set (r := Z.of_nat (String.length name)) in *.
  assert (Hr : 0 <= r) by lia. set (c := Z.land (r + 1 + 3) (u64 (Z.lnot 3))).
  assert (Hc : 0 <= c) by (apply Z.land_nonneg; right; vm_compute; discriminate).
  apply yields_guard. intros [Hg1 Hg2]%orb_false_elim. apply Z.ltb_ge in Hg1. apply negb_false_iff, Z.eqb_eq in Hg2.
  eapply yields_bind; [apply settles_yields, zero_padding_settles; lia|]. intros [] _.
  eapply yields_bind; [apply link_crc_yields; [lia..|unfold in_u32; lia]|]. intros crc Hcrc. done.
Qed.

Lemma section_name_settles bytes strings offset :
  file_sized bytes -> 0 <= offset -> in_u64 (sh_offset strings) -> sh_offset strings <= size_of bytes ->
  sh_size strings <= size_of bytes - sh_offset strings -> settles (section_name bytes strings offset).
Proof.
  unfold file_sized, in_u64, u64_max, i64_max. intros Hf Ho H0 H1 H2. unfold section_name.
  apply settles_bind; [apply settles_throw_if|]. intros [] H%throw_if_Ok. apply Z.leb_gt in H.
  rewrite !u64_small by (unfold in_u64, u64_max; lia).
  apply settles_bind; [eapply yields_settles, name_until_yields; lia|]. by intros [].
Qed.

Definition is_shdr (bytes : list byte) (section : Elf64_Shdr) : Prop := exists o, section = shdr_at bytes o.

Lemma find_debuglink_yields bytes names result sections :
  file_sized bytes -> is_shdr bytes names -> sh_offset names <= size_of bytes ->
  sh_size names <= size_of bytes - sh_offset names -> Forall (is_shdr bytes) sections ->
  (forall link, result = Some link -> link_ok link) ->
  yields (fun r => forall link, r = Some link -> link_ok link) (find_debuglink bytes names result sections).
Proof.
  intros Hf [no ->] H1 H2 Hs. revert result. induction sections as [|section sections IH]; intros result Hr; [done|].
  apply Forall_cons in Hs as [[so ->] Hs]. cbn [find_debuglink].
  eapply yields_bind.
  { apply settles_yields, section_name_settles; [done| |apply shdr_at_range|done..]. by destruct (shdr_at_range bytes so) as (_ & _ & ? & _). }
  intros name _. destruct (negb _); [by apply IH|]. apply yields_guard. intros _.
  eapply yields_bind; [apply parse_debuglink_yields; [done|apply shdr_at_range..]|]. intros link Hl.
  apply IH; [done|]. by intros ? [= <-].
Qed.

Lemma mapM_shdr_yields bytes what (f : nat -> Z) l :
  yields (fun r => Forall (is_shdr bytes) r /\ length r = length l)
    (mapM (fun i => read_struct what sizeof_Shdr shdr_at bytes (f i)) l).
Proof.
  apply yields_mapM_length. intros i _. unfold read_struct. apply yields_guard. intros _. by exists (f i).
Qed.

(** whatever bytes a module file holds, reading its debug link returns nothing or a link
    whose name is a plain file name and whose CRC has 32 bits, or throws; it never reads
    outside the file and always ends. *)
Theorem parse_gnu_debuglink_total bytes : file_sized bytes ->
  yields (fun found => forall link, found = Some link -> link_ok link) (parse_gnu_debuglink bytes).
Proof.
  intros Hf. unfold parse_gnu_debuglink.
  apply yields_bind with (fun header => 0 <= e_shstrndx header).
  { unfold read_struct. apply yields_guard; intros _. apply (le_at_u16 bytes (0 + 62)). }
  intros header H0.
  apply yields_guard. intros _. destruct (_ || _); [done|]. apply yields_guard. intros Hx.
  apply orb_false_elim in Hx as [_ Hx]. apply Z.leb_gt in Hx. apply yields_guard. intros _.
  eapply yields_bind; [apply mapM_shdr_yields|]. intros sections [Hs Hl]. rewrite length_seq in Hl.
  destruct (sections !! Z.to_nat (e_shstrndx header)) as [names|] eqn:E.
  - apply yields_guard. intros [H1 H2]%out_of_bounds_false.
    rewrite Forall_lookup in Hs. apply find_debuglink_yields; [done|by eapply Hs|done..|by rewrite Forall_lookup|done].
  - apply lookup_ge_None in E. lia.
Qed.

(** ** Resolving module and debug files *)

Section Resolvers.
Context `{H : Host} `{F : FileAccess}.

(** The file that stands for the recorded module. *)
Definition substituted_module (s : Substitution) (path : string) : string :=
  let suffix := suffix_after path (sub_from s) in
  if String.eqb suffix EmptyString then sub_to s else module_normalized (path_append (sub_to s) suffix).

Definition stands_for (r : SnapshotModulePathResolver) (recorded file : string) : Prop :=
  let path := module_normalized recorded in
  (exists s, longest_match path (substitutions_ r) s /\ file = substituted_module s path) \/
  ((forall s, ~ longest_match path (substitutions_ r) s) /\ file = path).

Lemma module_candidate_spec r path :
  match module_substituted_candidate path r with
  | Some file => exists s, longest_match path (substitutions_ r) s /\ file = substituted_module s path
  | None => forall s, ~ longest_match path (substitutions_ r) s
  end.
Proof.
  unfold module_substituted_candidate, best_module_substitution.
  pose proof (best_substitution_spec path (substitutions_ r)) as Hb.
  destruct (best_substitution path (substitutions_ r)) as [s|]; cbn [mbind option_bind].
  - unfold substituted_module, module_suffix_after. destruct (String.eqb _ _) eqn:E; exists s; rewrite E; done.
  - intros s (Hs & Hp & _). by rewrite Hb in Hp.
Qed.

Lemma resolve_module_Ok r recorded file : resolve_module recorded r = Ok file ->
  path_is_absolute recorded = true /\ h_regular file = true /\ stands_for r recorded file.
Proof.
  unfold resolve_module. intros Hr. inv_res. pose proof (module_candidate_spec r (module_normalized recorded)) as Hc.
  destruct (module_substituted_candidate (module_normalized recorded) r) as [s|].
  - destruct (h_regular s) eqn:E; [|done]. simplify_eq. split; [by destruct (path_is_absolute recorded)|]. split; [done|by left].
  - destruct (h_regular (module_normalized recorded)) eqn:E; [|done]. simplify_eq.
    split; [by destruct (path_is_absolute recorded)|]. split; [done|by right].
Qed.

(** The debug file registered for a recorded module. *)
Definition companion (r : SnapshotModulePathResolver) (recorded : string) : option string :=
  local_debug_file <$> List.find (fun m => path_eqb (recorded_module m) (module_normalized recorded)) (debug_files_ r).

(** C22: the file debug information is read from is the regular file that stands for the recorded
    module, or the debug file registered for it; and that one only when the module's debug
    link names it and its bytes have the CRC of the link. *)
Theorem resolve_debug_file_spec recorded r file :
  resolve_debug_file recorded r = Ok file ->
  exists runtime, path_is_absolute recorded = true /\ h_regular runtime = true /\ stands_for r recorded runtime /\
    match companion r recorded with
    | None => file = runtime
    | Some local => file = local /\ h_regular local = true /\
        exists module link bytes, h_file runtime = FileBytes module /\
          parse_gnu_debuglink module = Ok (Some link) /\ path_filename local = dl_filename link /\
          f_stream local = Some (Some bytes) /\ crc32_of bytes = Ok (dl_crc32 link)
    end.
Proof.
  unfold resolve_debug_file, companion. intros Hr.
  destruct (resolve_module recorded r) as [runtime|e|w|] eqn:Em; [|done..]. cbn [mbind res_bind] in Hr.
  exists runtime. destruct (resolve_module_Ok _ _ _ Em) as (H1 & H2 & H3). do 3 (split; [done|]). clear Em H1 H2 H3.
  destruct (List.find _ (debug_files_ r)) as [mapping|]; cbn [fmap option_fmap option_map]; [|by simplify_eq].
  destruct (h_regular (local_debug_file mapping)) eqn:E1; [|done]. cbn [throw_if negb mbind res_bind] in Hr.
  unfold read_gnu_debuglink, read_file in Hr. destruct (h_file runtime) as [| | |bytes] eqn:Ef; try done.
  cbn [mbind res_bind] in Hr. destruct (parse_gnu_debuglink bytes) as [[link|]|e|w|] eqn:El; try done.
  cbn [mbind res_bind] in Hr. destruct (String.eqb_spec (path_filename (local_debug_file mapping)) (dl_filename link)); [|done].
  cbn [throw_if negb mbind res_bind] in Hr. unfold gnu_debuglink_crc32 in Hr.
  destruct (f_stream (local_debug_file mapping)) as [[stream|]|] eqn:Es; try done.
  destruct (crc32_of stream) as [crc|e'|w|] eqn:Ec; try done. cbn [mbind res_bind] in Hr.
  destruct (Z.eqb_spec crc (dl_crc32 link)) as [->|]; [|done]. cbn [throw_if negb mbind res_bind] in Hr.
  simplify_eq. split; [done|]. split; [done|]. by exists bytes, link, stream.
Qed.
End Resolvers.

(** ** A module with a debug link to [a.debug] *)

Definition text_bytes (s : string) : list byte :=
  map (fun c => byte_of_Z (Z.of_N (N_of_ascii c))) (String.list_ascii_of_string s) ++ [Byte.x00].

Definition demo_module_file : list byte :=
  let names := [Byte.x00] ++ text_bytes ".gnu_debuglink" in
  let link := text_bytes "a.debug" ++ le_split 4 0xcbf43926 in
  le_split 16 0x010102464c457f ++ le_split 2 2 ++ le_split 2 62 ++ le_split 4 1 ++ le_split 16 0 ++ le_split 8 64 ++
  le_split 4 0 ++ le_split 6 0 ++ le_split 2 64 ++ le_split 2 2 ++ le_split 2 1 ++
  le_split 4 1 ++ le_split 20 0 ++ le_split 8 (192 + size_of names) ++ le_split 8 (size_of link) ++ le_split 24 0 ++
  le_split 4 0 ++ le_split 20 0 ++ le_split 8 192 ++ le_split 8 (size_of names) ++ le_split 24 0 ++
  names ++ link.

Definition DemoModules : Host := {|
  h_file path := if String.eqb path "/mnt/lib.so" then FileBytes demo_module_file else FileOpenFailed;
  h_canonical _ := None;
  h_regular path := String.eqb path "/mnt/lib.so" || String.eqb path "/dbg/a.debug";
  h_page_size := 4096
|}.
Definition DemoAccess : FileAccess := {|
  f_stream path := if String.eqb path "/dbg/a.debug"
    then Some (Some (map byte_of_Z [49; 50; 51; 52; 53; 54; 55; 56; 57])) else None;
  f_size _ := None;
  f_read_at _ _ _ := None
|}.
Definition demo_module_paths : SnapshotModulePathResolver :=
  match (r ← add_module_substitution "/usr" "/mnt" no_module_paths;
         add_debug_file "/usr/lib.so" "/dbg/a.debug" r) with
  | Ok r => r
  | _ => no_module_paths
  end.

Lemma parse_gnu_debuglink_total_witness : link_ok (mkDebugLink "a.debug" 0xcbf43926).
Proof.
  assert (Hf : file_sized demo_module_file) by (vm_compute; congruence).
  pose proof (parse_gnu_debuglink_total demo_module_file Hf) as Hy.
  assert (E : parse_gnu_debuglink demo_module_file = Ok (Some (mkDebugLink "a.debug" 0xcbf43926)))
    by vm_cast_no_check (@eq_refl (res (option GnuDebugLink)) (Ok (Some (mkDebugLink "a.debug" 0xcbf43926)))).
  rewrite E in Hy. exact (Hy _ eq_refl).
Defined.

Lemma resolve_debug_file_spec_witness :
  exists runtime, stands_for demo_module_paths "/usr/lib.so" runtime /\
    companion demo_module_paths "/usr/lib.so" = Some "/dbg/a.debug".
Proof.
  assert (E : resolve_debug_file (H := DemoModules) (F := DemoAccess) "/usr/lib.so" demo_module_paths = Ok "/dbg/a.debug")
    by vm_cast_no_check (@eq_refl (res string) (Ok "/dbg/a.debug")).
  destruct (resolve_debug_file_spec (H := DemoModules) (F := DemoAccess) "/usr/lib.so" demo_module_paths _ E) as (runtime & _ & _ & Hs & _).
  exists runtime. split; [exact Hs|vm_compute; reflexivity].
Defined.
