(* ===== verification/CoreProofs.v ===== *)
(** * Properties of core snapshots

    A parsed core satisfies the invariant [wf_core], its memory is the captured bytes
    of the file, and the mapping lookup is exact.  The three parsers of the notes are
    total. *)

From S2P Require Import Prelude Machine ByteReader ElfFormat Elf Core CoreExtras ElfProofs.

(** ** The invariant *)

Definition wf_segment (bytes : list byte) (s : LoadSegment) : Prop :=
  0 <= seg_virtual_address s /\ 0 <= seg_file_offset s /\ 0 <= seg_file_size s <= seg_memory_size s /\
  seg_virtual_address s + seg_memory_size s <= u64_max /\
  seg_file_offset s + seg_file_size s <= size_of bytes.

Definition wf_mapping (m : CoreFileMapping) : Prop :=
  0 <= map_start m < map_end m /\ map_end m <= u64_max /\ map_path m <> EmptyString.

(** A thread: a positive TID, and registers of 64 bits. *)
Definition wf_thread (t : CoreThreadSnapshot) : Prop :=
  0 < thread_tid t /\ in_u64 (rip (thread_registers t)) /\ in_u64 (rsp (thread_registers t)).

(** The threads: distinct positive TIDs, the first one is the crashed one. *)
Definition wf_threads (c : CoreSnapshot) : Prop :=
  NoDup (map thread_tid (core_threads c)) /\ Forall wf_thread (core_threads c) /\
  match core_threads c with
  | [] => has_registers c = false
  | t :: rest =>
    has_registers c = true /\ thread_is_crashed t = true /\
    thread_tid t = crashed_tid c /\ thread_registers t = core_registers c /\
    thread_signal_number t = signal_number c /\ Forall (fun t => thread_is_crashed t = false) rest
  end.

(** What holds while the program headers are visited. *)
Definition wf_partial (bytes : list byte) (c : CoreSnapshot) : Prop :=
  core_bytes c = bytes /\ Forall (wf_segment bytes) (load_segments c) /\
  Forall wf_mapping (file_mappings c) /\ wf_threads c /\ StronglySorted mapping_le (file_mappings c).

Definition in_mapping (m : CoreFileMapping) (a : Z) : Prop := map_start m <= a < map_end m.

Definition wf_core (bytes : list byte) (c : CoreSnapshot) : Prop :=
  wf_partial bytes c /\ core_threads c <> [] /\ load_segments c <> [] /\
  (exists m, m ∈ file_mappings c /\ in_mapping m (rip (core_registers c))) /\
  (forall i, crash_info c = Some i -> crash_signal_number i = signal_number c) /\
  (forall i, process_info c = Some i -> core_pid i ∈ map thread_tid (core_threads c)).

(** ** Sorted mappings *)

#[export] Instance mapping_le_total : Total mapping_le.
Proof.
  intros a b. unfold mapping_le, mapping_less.
  destruct (Z.eqb_spec (map_start a) (map_start b)), (Z.eqb_spec (map_start b) (map_start a)); simpl;
    rewrite !Z.ltb_ge; lia.
Qed.
#[export] Instance mapping_le_trans : Transitive mapping_le.
Proof.
  intros a b c. unfold mapping_le, mapping_less.
  destruct (Z.eqb_spec (map_start b) (map_start a)), (Z.eqb_spec (map_start c) (map_start b)),
    (Z.eqb_spec (map_start c) (map_start a)); simpl; rewrite !Z.ltb_ge; lia.
Qed.
Lemma mapping_le_start a b : mapping_le a b -> map_start a <= map_start b.
Proof.
  unfold mapping_le, mapping_less. destruct (Z.eqb_spec (map_start b) (map_start a)); simpl; rewrite Z.ltb_ge; lia.
Qed.

Lemma find_mapping_spec value l :
  StronglySorted mapping_le l ->
  match find_mapping value l with
  | Some m => m ∈ l /\ in_mapping m value
  | None => forall m, m ∈ l -> ~ in_mapping m value
  end.
Proof.
  unfold in_mapping. induction 1 as [|m l Hs IH Hall]; simpl; [by intros ? ?%elem_of_nil|].
  rewrite Forall_forall in Hall.
  destruct (Z.ltb_spec value (map_start m)) as [Hlt|Hge].
  - intros x [->|Hx]%elem_of_cons; [lia|]. specialize (Hall x Hx). apply mapping_le_start in Hall. lia.
  - destruct (Z.leb_spec (map_start m) value), (Z.ltb_spec value (map_end m)); simpl; try lia.
    + split; [left|lia].
    + destruct (find_mapping value l) as [r|].
      * destruct IH as [H1 H2]. split; [by right|done].
      * intros x [->|Hx]%elem_of_cons; [lia|]. by apply IH.
Qed.

(** on a parsed core, the mapping lookup returns a file mapping that holds the
    address, and nothing only when no mapping holds it. *)
Theorem mapping_for_address_spec bytes c address :
  wf_core bytes c ->
  match mapping_for_address c address with
  | Some m => m ∈ file_mappings c /\ in_mapping m address
  | None => forall m, m ∈ file_mappings c -> ~ in_mapping m address
  end.
Proof. intros ((_ & _ & _ & _ & Hs) & _). by apply find_mapping_spec. Qed.

(** ** Reading memory *)

Definition in_segment (s : LoadSegment) (a : Z) : Prop :=
  seg_virtual_address s <= a < seg_virtual_address s + seg_memory_size s.

Lemma checked_add_small a b what : a + b <= u64_max -> checked_add a b what = Ok (a + b).
Proof. intros H. unfold checked_add, throw_if. destruct (Z.ltb_spec (u64_max - a) b); [lia|done]. Qed.

(** [l] are the bytes the file holds for the [n] addresses from [a] of segment [s]. *)
Definition captured (bytes : list byte) (s : LoadSegment) (a n : Z) (l : list byte) : Prop :=
  a + n <= seg_virtual_address s + seg_file_size s /\ size_of l = n /\
  forall i, 0 <= i < n ->
    l !! Z.to_nat i = bytes !! Z.to_nat (seg_file_offset s + (a + i - seg_virtual_address s)).

Lemma bytes_at_lookup bytes o n i :
  0 <= o -> 0 <= i < n -> bytes_at bytes o n !! Z.to_nat i = bytes !! Z.to_nat (o + i).
Proof.
  intros Ho Hi. unfold bytes_at. rewrite lookup_take_lt by lia. rewrite lookup_drop. f_equal. lia.
Qed.

Lemma size_bytes_at bytes o n :
  0 <= o -> 0 <= n -> o + n <= size_of bytes -> size_of (bytes_at bytes o n) = n.
Proof. intros. unfold size_of, bytes_at in *. rewrite length_take, length_drop. lia. Qed.

Lemma read_segments_spec bytes segments a n :
  file_sized bytes -> Forall (wf_segment bytes) segments -> 0 < n -> 0 <= a ->
  match read_segments bytes segments a (a + n) n with
  | Ok l => exists s, s ∈ segments /\ in_segment s a /\ captured bytes s a n l
  | Throw _ =>
      (forall s, s ∈ segments -> ~ in_segment s a) \/
      (exists s, s ∈ segments /\ in_segment s a /\ seg_virtual_address s + seg_file_size s < a + n)
  | _ => False
  end.
Proof.
  intros Hf Hwf Hn Ha. unfold in_segment. induction Hwf as [|s l (H1 & H2 & H3 & H4 & H5) _ IH];
    cbn [read_segments]; [by left; intros ? ?%elem_of_nil|].
  rewrite (checked_add_small (seg_virtual_address s) (seg_memory_size s)) by lia. cbn [mbind res_bind].
  destruct (Z.ltb_spec a (seg_virtual_address s)) as [Hlt|Hge]; cbn [orb];
    [|destruct (Z.leb_spec (seg_virtual_address s + seg_memory_size s) a)].
  1,2: destruct (read_segments bytes l a (a + n) n);
    [destruct IH as (s' & ? & ? & ?); exists s'; split; [by right|done]| |done..].
  1,2: destruct IH as [IH|(s' & ? & ?)]; [left; intros x [->|Hx]%elem_of_cons; [lia|by apply IH]|
    right; exists s'; split; [by right|done]].
  unfold fail_if, throw_if. destruct (Z.ltb_spec (seg_virtual_address s + seg_memory_size s) (a + n)); cbn [mbind res_bind].
  { right. exists s. split; [left|]. lia. }
  rewrite (checked_add_small (seg_virtual_address s)) by lia. cbn [mbind res_bind].
  destruct (Z.ltb_spec (seg_virtual_address s + seg_file_size s) (a + n)); cbn [mbind res_bind].
  { right. exists s. split; [left|]. lia. }
  unfold file_sized, i64_max in Hf.
  rewrite checked_add_small by (unfold u64_max; lia). cbn [mbind res_bind]. unfold require_range, throw_if.
  replace (out_of_bounds bytes _ n) with false by (symmetry; apply out_of_bounds_false; lia). cbn [mbind res_bind].
  exists s. split; [left|]. split; [lia|]. split; [lia|]. split; [apply size_bytes_at; lia|].
  intros i Hi. rewrite bytes_at_lookup by lia. do 2 f_equal. lia.
Qed.

(** reading the memory of a parsed core returns exactly the bytes the file holds for
    the range, from a segment that contains its start; it throws when the range wraps
    around, when no segment holds its start, or when a segment that does has not
    captured the whole range; and it does nothing else. *)
Theorem core_read_memory_spec bytes c address length :
  file_sized bytes -> wf_core bytes c -> in_u64 address -> in_u64 length ->
  match core_read_memory c address length with
  | Ok l => length = 0 /\ l = [] \/
      0 < length /\ exists s, s ∈ load_segments c /\ in_segment s address /\ captured bytes s address length l
  | Throw _ => 0 < length /\
      (u64_max < address + length \/
       (forall s, s ∈ load_segments c -> ~ in_segment s address) \/
       (exists s, s ∈ load_segments c /\ in_segment s address /\
          seg_virtual_address s + seg_file_size s < address + length))
  | _ => False
  end.
Proof.
  intros Hf ((<- & Hs & _) & _) Ha Hl. unfold in_u64 in *. unfold core_read_memory.
  destruct (Z.eqb_spec length 0) as [->|]; [by left|].
  destruct (Z.leb_spec (address + length) u64_max) as [Hle|Hgt].
  - rewrite checked_add_small by lia. cbn [mbind res_bind].
    pose proof (read_segments_spec _ _ address length Hf Hs ltac:(lia) ltac:(lia)) as H.
    destruct (read_segments _ _ _ _ _); [right; split; [lia|done]|split; [lia|by right]|done..].
  - unfold checked_add, throw_if. destruct (Z.ltb_spec (u64_max - address) length); [|lia].
    simpl. split; [lia|left; lia].
Qed.

(** ** Parsing establishes the invariant *)

Lemma land_align v : 0 <= v <= u64_max -> Z.land v (u64 (Z.lnot 3)) = v - v mod 4.
Proof.
  intros Hv. unfold u64_max in Hv. rewrite <- (Z.mod_small v (2 ^ 64)) by lia.
  rewrite <- Z.land_ones, <- Z.land_assoc by lia.
  change (Z.land (Z.ones 64) (u64 (Z.lnot 3))) with (Z.land (Z.ones 64) (Z.lnot (Z.ones 2))).
  rewrite Z.land_assoc, Z.land_ones, Z.mod_small by lia.
  rewrite <- Z.ldiff_land, Z.ldiff_ones_r, Z.shiftr_div_pow2, Z.shiftl_mul_pow2 by lia.
  change (2 ^ 2) with 4. dlia.
Qed.

Lemma checked_add_yields a b what : yields (fun r => r = a + b /\ r <= u64_max) (checked_add a b what).
Proof. unfold checked_add. apply yields_guard. intros H%Z.ltb_ge. simpl. lia. Qed.

Lemma checked_mul_yields a b what : yields (fun r => r = a * b) (checked_mul a b what).
Proof. unfold checked_mul. apply yields_guard. by intros _. Qed.

Lemma align4_yields a what : 0 <= a -> yields (fun r => a <= r) (align4 a what).
Proof.
  intros Ha. unfold align4. eapply yields_bind; [apply checked_add_yields|]. intros r [-> Hr]. simpl.
  rewrite land_align by lia. dlia.
Qed.

Lemma read_struct_yields {T} n (f : list byte -> Z -> T) bytes o :
  yields (fun x => x = f bytes o) (read_struct n f bytes o).
Proof. unfold read_struct. by apply yields_guard. Qed.

Lemma require_range_yields bytes o n what :
  yields (fun _ => o <= size_of bytes /\ n <= size_of bytes - o) (require_range bytes o n what).
Proof. eapply yields_weaken, yields_throw_if. intros ? H. by apply out_of_bounds_false. Qed.

Lemma read_u64_yields bytes o limit what : yields in_u64 (read_u64 bytes o limit what).
Proof.
  unfold read_u64. apply yields_guard; intros _. eapply yields_bind; [apply require_range_yields|].
  intros _ _. apply le_at_u64.
Qed.

(** The payload of a note is in the segment, and the next note is further on. *)
Definition note_in (cursor end_ : Z) (n : core_note) : Prop :=
  0 <= note_desc_offset_ n /\ 0 <= note_descsz_ n /\ note_desc_offset_ n + note_descsz_ n <= end_ /\
  cursor + 12 <= note_next_ n <= end_.

Lemma read_note_yields bytes cursor end_ :
  0 <= cursor -> end_ <= size_of bytes -> yields (note_in cursor end_) (read_note bytes cursor end_).
Proof.
  intros Hc He. unfold read_note. apply yields_guard; intros H1%Z.ltb_ge. unfold sizeof_Nhdr in *.
  eapply yields_bind; [apply read_struct_yields|intros note ->].
  pose proof (le_at_u32 bytes cursor). pose proof (le_at_u32 bytes (cursor + 4)).
  eapply yields_bind; [apply align4_yields; simpl; lia|intros np Hnp].
  apply yields_guard; intros H2%Z.ltb_ge.
  eapply yields_bind; [apply settles_yields, note_owner_settles|intros owner _].
  eapply yields_bind; [apply align4_yields; simpl; lia|intros dp Hdp].
  apply yields_guard; intros H3%Z.ltb_ge. unfold note_in. simpl in *. lia.
Qed.

Definition wf_unsorted (bytes : list byte) (c : CoreSnapshot) : Prop :=
  core_bytes c = bytes /\ Forall (wf_segment bytes) (load_segments c) /\
  Forall wf_mapping (file_mappings c) /\ wf_threads c.

Lemma parse_prstatus_yields bytes note c :
  wf_unsorted bytes c -> yields (wf_unsorted bytes) (parse_prstatus note c).
Proof.
  intros (Hb & Hs & Hm & Hnd & Hpos & Ht). unfold parse_prstatus. apply yields_guard; intros _.
  eapply yields_bind; [apply read_struct_yields|intros st Hst].
  apply yields_guard; intros Hp%Z.leb_gt. apply yields_guard; intros He.
  assert (Hreg : in_u64 (rip (pr_reg st)) /\ in_u64 (rsp (pr_reg st))) by (simpl in Hst; rewrite Hst; split; apply le_at_u64).
  assert (Hnew : forall t, t ∈ core_threads c -> thread_tid t <> pr_pid st).
  { intros t Ht' E. assert (existsb (fun t => thread_tid t =? pr_pid st) (core_threads c) = true); [|congruence].
    apply existsb_exists. exists t. split; [by apply list_elem_of_In|by apply Z.eqb_eq]. }
  unfold wf_unsorted, wf_threads. destruct (core_threads c) as [|t0 rest] eqn:Ec; cbn.
  - do 3 (split; [done|]). split; [repeat constructor; set_solver|]. split; [by apply Forall_singleton|done].
  - do 3 (split; [done|]). split; [|split].
    + change (NoDup (map thread_tid ((t0 :: rest) ++ [mkThread (pr_pid st)
        (if negb (pr_cursig st =? 0) then pr_cursig st else pr_info_si_signo st) (pr_reg st) false]))).
      rewrite map_app. apply NoDup_app. split; [done|]. split; [|repeat constructor; set_solver].
      intros x Hx ->%list_elem_of_singleton. apply list_elem_of_fmap in Hx as (t & E & Hx). by apply (Hnew t).
    + inversion Hpos; subst. constructor; [done|]. apply Forall_app. split; [done|by apply Forall_singleton].
    + destruct Ht as (? & ? & ? & ? & ? & ?). do 5 (split; [done|]). apply Forall_app. split; [done|by repeat constructor].
Qed.

Lemma string_until_yields fuel bytes cursor end_ :
  0 <= cursor -> end_ <= size_of bytes -> end_ - cursor <= Z.of_nat fuel ->
  yields (fun o => forall s, o = Some s -> cursor + Z.of_nat (String.length s) < end_)
    (string_until fuel bytes cursor end_).
Proof.
  intros Hc He. revert cursor Hc. induction fuel as [|fuel IH]; intros cursor Hc Hf; simpl;
    (destruct (Z.ltb_spec cursor end_); [|done]); [lia|].
  unfold byte_at. destruct (bytes !! Z.to_nat cursor) as [b|] eqn:E.
  2: { apply lookup_ge_None in E. unfold size_of in He. lia. }
  simpl. destruct (byte_val b =? 0); [intros s [= <-]; simpl; lia|].
  eapply yields_bind; [apply IH; lia|intros [s|] Hs; simpl; [|done]].
  intros s' [= <-]. specialize (Hs s eq_refl). simpl. lia.
Qed.

Lemma read_mapping_path_yields bytes cursor end_ :
  0 <= cursor -> end_ <= size_of bytes ->
  yields (fun '(path, c') => path <> EmptyString /\ cursor < c' <= end_) (read_mapping_path bytes cursor end_).
Proof.
  intros Hc He. unfold read_mapping_path. apply yields_guard; intros _.
  eapply yields_bind; [apply string_until_yields; lia|intros [s|] Hs; [|done]].
  specialize (Hs s eq_refl). apply yields_guard; intros Hne%String.eqb_neq. simpl. split; [done|lia].
Qed.

Definition wf_raw (r : Z * Z * Z) : Prop := let '(start, end_, _) := r in 0 <= start < end_ /\ end_ <= u64_max.

Lemma name_mappings_yields bytes end_ page cursor raw :
  end_ <= size_of bytes -> Forall wf_raw raw -> 0 <= cursor ->
  yields (Forall wf_mapping) (name_mappings bytes end_ page cursor raw).
Proof.
  intros He Hraw. revert cursor. induction Hraw as [|[[a b] o] raw Hr _ IH]; intros cursor Hc; [by constructor|].
  simpl. eapply yields_bind; [by apply read_mapping_path_yields|intros [path c'] [Hp Hc']].
  eapply yields_bind; [apply checked_mul_yields|intros off _].
  eapply yields_bind; [apply IH; lia|intros rest Hrest]. destruct Hr. by apply Forall_cons.
Qed.

Lemma read_raw_mapping_yields bytes entry end_ : yields wf_raw (read_raw_mapping bytes entry end_).
Proof.
  unfold read_raw_mapping. eapply yields_bind; [apply read_u64_yields|intros a Ha].
  eapply yields_bind; [apply read_u64_yields|intros b Hb].
  eapply yields_bind; [apply read_u64_yields|intros o _].
  apply yields_guard; intros H%Z.leb_gt. unfold in_u64 in *. simpl. lia.
Qed.

Lemma parse_file_note_yields bytes note c end_ :
  note_in 0 end_ note -> end_ <= size_of bytes -> wf_unsorted bytes c ->
  yields (wf_unsorted bytes) (parse_file_note note c).
Proof.
  intros (N1 & N2 & N3 & _) He (Hb & Hs & Hm & Ht). unfold parse_file_note. cbv zeta.
  do 2 (apply yields_guard; intros _).
  eapply yields_bind; [apply checked_add_yields|intros de [-> _]].
  eapply yields_bind; [apply read_u64_yields|intros count Hcount].
  eapply yields_bind; [apply read_u64_yields|intros page _]. apply yields_guard; intros _.
  eapply yields_bind; [apply checked_mul_yields|intros ts ->].
  eapply yields_bind; [apply checked_add_yields|intros so [-> _]]. apply yields_guard; intros _.
  eapply yields_bind; [apply yields_mapM; intros; apply read_raw_mapping_yields|intros raw Hraw].
  rewrite Hb. eapply yields_bind.
  - apply name_mappings_yields; [lia|done|]. pose proof (u64_range (note_desc_offset_ note + 2 * 8)).
    unfold in_u64 in *. lia.
  - intros l Hl. split; [done|]. split; [done|]. split; [by apply Forall_app|done].
Qed.

Lemma parse_note_yields bytes note c cursor end_ :
  0 <= cursor -> note_in cursor end_ note -> end_ <= size_of bytes -> wf_unsorted bytes c ->
  yields (wf_unsorted bytes) (parse_note note c).
Proof.
  intros Hc Hn He Hwf. unfold parse_note. destruct (negb _); [done|].
  destruct (_ =? _); [by apply parse_prstatus_yields|]. destruct (_ =? _).
  { unfold parse_prpsinfo. do 2 (apply yields_guard; intros _).
    by eapply yields_bind; [apply read_struct_yields|]. }
  destruct (_ =? _).
  { unfold parse_siginfo. do 2 (apply yields_guard; intros _).
    eapply yields_bind; [apply read_struct_yields|intros info _]. by apply yields_guard. }
  destruct (negb _); [done|]. apply (parse_file_note_yields _ _ _ end_); [|done..].
  destruct Hn as (? & ? & ? & ?). unfold note_in. lia.
Qed.

Lemma parse_notes_loop_yields fuel bytes cursor end_ c :
  0 <= cursor -> end_ - cursor <= Z.of_nat fuel -> end_ <= size_of bytes -> wf_unsorted bytes c ->
  yields (wf_unsorted bytes) (parse_notes_loop fuel cursor end_ c).
Proof.
  revert cursor c. induction fuel as [|fuel IH]; intros cursor c Hc Hf He Hwf; simpl;
    (destruct (Z.ltb_spec cursor end_); [|done]); [lia|].
  destruct (Hwf) as [-> _]. eapply yields_bind; [by apply read_note_yields|intros note Hn].
  eapply yields_bind; [by apply (parse_note_yields bytes _ _ cursor end_)|intros c' Hwf'].
  destruct Hn as (_ & _ & _ & Hnext). apply IH; [lia..|done].
Qed.

Lemma sort_mappings_wf bytes c :
  wf_unsorted bytes c -> wf_partial bytes (set_mappings (merge_sort mapping_le (file_mappings c)) c).
Proof.
  intros (Hb & Hs & Hm & Ht). split; [done|]. split; [done|]. split; [|split; [done|]].
  - cbn. by rewrite merge_sort_Permutation.
  - apply (StronglySorted_merge_sort mapping_le).
Qed.

Lemma parse_notes_yields bytes o n c :
  0 <= o -> o <= size_of bytes /\ n <= size_of bytes - o -> wf_partial bytes c ->
  yields (wf_partial bytes) (parse_notes o n c).
Proof.
  intros Ho Hr (Hb & Hs & Hm & Ht & _). unfold parse_notes.
  eapply yields_bind; [apply checked_add_yields|intros e [-> _]].
  eapply yields_bind; [by apply (parse_notes_loop_yields _ bytes); [lia..|]|intros c' Hwf].
  by apply sort_mappings_wf.
Qed.

Lemma parse_core_segment_yields bytes c o :
  wf_partial bytes c -> yields (wf_partial bytes) (parse_core_segment c (phdr_at bytes o)).
Proof.
  intros Hwf. destruct (Hwf) as (Hb & Hs & Hm & Ht & Hso). unfold parse_core_segment. rewrite Hb.
  pose proof (le_at_u64 bytes (o + 8)) as H1. pose proof (le_at_u64 bytes (o + 16)) as H2.
  pose proof (le_at_u64 bytes (o + 32)) as H3. pose proof (le_at_u64 bytes (o + 40)) as H4.
  unfold in_u64 in *. destruct (_ =? _); [|destruct (_ =? _); [|done]].
  - apply yields_guard; intros Hlt%Z.ltb_ge.
    eapply yields_bind; [apply checked_add_yields|intros s [-> Hsum]].
    eapply yields_bind; [apply require_range_yields|intros ? Hrange].
    split; [done|]. split; [|done]. apply Forall_app. split; [done|]. apply Forall_singleton.
    unfold wf_segment. simpl in *. lia.
  - eapply yields_bind; [apply require_range_yields|intros ? Hrange]. by apply parse_notes_yields; simpl; [lia|..].
Qed.

Lemma yields_res_fold {A B} (P : B -> Prop) (f : B -> A -> res B) l b :
  P b -> (forall b x, P b -> yields P (f b x)) -> yields P (res_fold f l b).
Proof.
  intros Hb Hf. revert b Hb. induction l as [|x l IH]; intros b Hb; [done|]. simpl.
  eapply yields_bind; [by apply Hf|intros b' Hb']. by apply IH.
Qed.

Lemma check_core_yields bytes c :
  wf_partial bytes c -> yields (fun _ => wf_core bytes c) (check_core c).
Proof.
  intros Hwf. destruct (Hwf) as (_ & _ & _ & _ & Hso). unfold check_core.
  apply yields_guard; intros [_ H1]%orb_false_iff. apply yields_guard; intros H2.
  apply yields_bind with (fun _ : unit => forall i, process_info c = Some i ->
                            core_pid i ∈ map thread_tid (core_threads c)).
  { destruct (process_info c) as [i|]; [|done]. apply yields_guard; intros _.
    eapply yields_weaken, yields_throw_if. intros ? H%negb_false_iff ? [= <-].
    apply existsb_exists in H as (t & Ht%list_elem_of_In & E%Z.eqb_eq).
    apply list_elem_of_fmap. eauto. }
  intros ? H3. do 2 (apply yields_guard; intros ?).
  eapply yields_weaken, yields_throw_if. intros ? H4. split; [done|].
  split; [by destruct (core_threads c)|]. split; [by destruct (load_segments c)|]. split; [|split; [|done]].
  - pose proof (find_mapping_spec (rip (core_registers c)) _ Hso) as H5. unfold mapping_for_address in H4.
    destruct (find_mapping _ _) as [m|]; [|done]. by exists m.
  - intros i Hi. rewrite Hi in H2. apply negb_false_iff in H2. lia.
Qed.

Lemma empty_core_wf path bytes : wf_partial bytes (empty_core path bytes).
Proof. repeat split; constructor. Qed.

Lemma parse_core_yields path bytes : yields (wf_core bytes) (parse_core path bytes).
Proof.
  unfold parse_core. eapply yields_bind; [apply read_struct_yields|intros header ->].
  eapply yields_bind; [apply settles_yields|intros _ _].
  { unfold check_core_header. settles_auto. }
  apply yields_bind with (wf_partial bytes).
  - apply yields_res_fold; [apply empty_core_wf|]. intros c i Hc.
    eapply yields_bind; [apply read_struct_yields|intros phdr ->]. by apply parse_core_segment_yields.
  - intros c Hc. eapply yields_bind; [by apply check_core_yields|]. by intros ? Hwf.
Qed.

(** C11: whatever bytes a file holds, parsing it as a core either throws or returns a
    well-formed snapshot: distinct positive thread ids with the first thread the
    crashed one, whose registers, signal and id are the snapshot's; segments inside
    the file and the address space; non-empty file mappings sorted by address that
    cover the crash instruction pointer; signal and process notes that agree with
    the threads.  There is no access outside the file, and every loop ends. *)
Theorem parse_core_wf path bytes : yields (wf_core bytes) (parse_core path bytes).
Proof. apply parse_core_yields. Qed.

(** ** A core file with one thread, one mapping and one segment *)

Definition demo_notes : list byte :=
  (* NT_PRSTATUS of thread 7, stopped by SIGSEGV at 0x1004 *)
  le_split 4 5 ++ le_split 4 336 ++ le_split 4 1 ++ le_split 8 0x45524f43 ++
  le_split 4 11 ++ le_split 8 0 ++ le_split 4 11 ++ le_split 16 0 ++ le_split 4 7 ++ replicate 76 Byte.x00 ++
  replicate 128 Byte.x00 ++ le_split 8 0x1004 ++ replicate 88 Byte.x00 ++
  (* NT_FILE with one mapping *)
  le_split 4 5 ++ le_split 4 44 ++ le_split 4 0x46494c45 ++ le_split 8 0x45524f43 ++
  le_split 8 1 ++ le_split 8 4096 ++ le_split 8 0x1000 ++ le_split 8 0x2000 ++ le_split 8 0 ++ le_split 4 0x612f.

Definition demo_core_file : list byte :=
  le_split 16 0x010102464c457f ++ le_split 2 4 ++ le_split 2 62 ++ le_split 4 1 ++ le_split 8 0 ++
  le_split 8 64 ++ le_split 8 0 ++ le_split 4 0 ++ le_split 2 64 ++ le_split 2 56 ++ le_split 2 2 ++ le_split 6 0 ++
  le_split 4 4 ++ le_split 4 0 ++ le_split 8 176 ++ le_split 16 0 ++ le_split 8 (size_of demo_notes) ++ le_split 16 0 ++
  le_split 4 1 ++ le_split 4 5 ++ le_split 8 (176 + size_of demo_notes) ++ le_split 8 0x1000 ++ le_split 8 0 ++
  le_split 8 16 ++ le_split 8 4096 ++ le_split 8 4096 ++ demo_notes ++ map byte_of_Z (seqZ 1 16).

Definition demo_core : CoreSnapshot := Eval vm_compute in
  match parse_core "core" demo_core_file with Ok c => c | _ => empty_core "core" demo_core_file end.

Lemma demo_core_parses : parse_core "core" demo_core_file = Ok demo_core.
Proof. vm_cast_no_check (@eq_refl (res CoreSnapshot) (Ok demo_core)). Qed.

Lemma demo_core_wf : wf_core demo_core_file demo_core.
Proof. exact (yields_Ok _ _ _ (parse_core_yields "core" demo_core_file) demo_core_parses). Qed.

Lemma demo_core_sized : file_sized demo_core_file.
Proof. vm_compute. congruence. Qed.

Lemma mapping_for_address_spec_witness :
  exists m, mapping_for_address demo_core 0x1abc = Some m /\ in_mapping m 0x1abc.
Proof.
  pose proof (mapping_for_address_spec demo_core_file demo_core 0x1abc demo_core_wf) as H.
  eexists. split; [vm_compute; reflexivity|apply H].
Defined.

Lemma core_read_memory_spec_witness :
  exists s, in_segment s 0x1002 /\ captured demo_core_file s 0x1002 3 [Byte.x03; Byte.x04; Byte.x05].
Proof.
  assert (A : in_u64 0x1002) by (vm_compute; split; congruence).
  assert (L : in_u64 3) by (vm_compute; split; congruence).
  pose proof (core_read_memory_spec demo_core_file demo_core 0x1002 3 demo_core_sized demo_core_wf A L) as H.
  change (core_read_memory demo_core 0x1002 3) with (Ok [Byte.x03; Byte.x04; Byte.x05] : res (list byte)) in H.
  destruct H as [[H _]|[_ (s & _ & H)]]; [discriminate H|exists s; exact H].
Defined.

(** ** The other parsers of the notes *)

Lemma core_align4_yields msg a : 0 <= a -> yields (fun r => a <= r) (core_align4 msg a).
Proof.
  intros Ha. unfold core_align4. apply yields_guard; intros H%Z.ltb_ge. simpl.
  rewrite land_align by lia. dlia.
Qed.

Lemma core_read_struct_yields {T} n (f : list byte -> Z -> T) what bytes o :
  yields (fun x => x = f bytes o) (core_read_struct n f what bytes o).
Proof. unfold core_read_struct. by apply yields_guard. Qed.

Lemma walk_note_yields m bytes cursor end_ :
  0 <= cursor -> yields (note_in cursor end_) (walk_note m bytes cursor end_).
Proof.
  intros Hc. unfold walk_note. apply yields_guard; intros H1%Z.ltb_ge. unfold sizeof_Nhdr in *.
  eapply yields_bind; [apply core_read_struct_yields|intros note ->].
  pose proof (le_at_u32 bytes cursor). pose proof (le_at_u32 bytes (cursor + 4)).
  eapply yields_bind; [apply core_align4_yields; simpl; lia|intros np Hnp].
  apply yields_guard; intros H2%Z.ltb_ge.
  eapply yields_bind; [apply settles_yields; unfold core_note_owner, fail_if; settles_auto|intros owner _].
  eapply yields_bind; [apply core_align4_yields; simpl; lia|intros dp Hdp].
  apply yields_guard; intros H3%Z.ltb_ge. unfold note_in. simpl in *. lia.
Qed.

Lemma walk_notes_settles {S} fuel m (step : S -> core_note -> res S) bytes cursor end_ s :
  0 <= cursor -> end_ - cursor <= Z.of_nat fuel -> (forall s n, settles (step s n)) ->
  settles (walk_notes fuel m step bytes cursor end_ s).
Proof.
  intros Hc Hf Hstep. revert cursor s Hc Hf. induction fuel as [|fuel IH]; intros cursor s Hc Hf; simpl;
    (destruct (Z.ltb_spec cursor end_); [|done]); [lia|].
  apply settles_bind; [by eapply yields_settles, walk_note_yields|intros note Hn].
  apply settles_bind; [apply Hstep|intros s' _].
  destruct (yields_Ok _ _ _ (walk_note_yields m bytes cursor end_ Hc) Hn) as (_ & _ & _ & ?). apply IH; lia.
Qed.

Lemma res_fold_settles {A B} (f : B -> A -> res B) l b :
  (forall b x, settles (f b x)) -> settles (res_fold f l b).
Proof.
  intros Hf. revert b. induction l as [|x l IH]; intros b; [done|]. simpl.
  apply settles_bind; [apply Hf|intros; apply IH].
Qed.

Lemma core_read_struct_settles {T} n (f : list byte -> Z -> T) what bytes o :
  settles (core_read_struct n f what bytes o).
Proof. eapply yields_settles, core_read_struct_yields. Qed.
#[export] Hint Resolve core_read_struct_settles : msettle.

Lemma phdr_at_yields what bytes o :
  yields (fun p => in_u64 (p_offset p) /\ in_u64 (p_filesz p)) (core_read_struct sizeof_Phdr phdr_at what bytes o).
Proof. eapply yields_weaken, core_read_struct_yields. intros ? ->. split; apply le_at_u64. Qed.

Lemma fp_segment_settles bytes tid phoff s i : settles (fp_segment bytes tid phoff s i).
Proof.
  unfold fp_segment. pose proof (phdr_at_yields "ELF core program header" bytes
    (u64 (phoff + Z.of_nat i * sizeof_Phdr))) as Hp.
  apply settles_bind; [settles_auto|intros phdr E]. destruct (yields_Ok _ _ _ Hp E) as [[? _] [? _]].
  destruct (negb (p_type phdr =? PT_NOTE)); [done|]. apply settles_bind; [settles_auto|intros _ _].
  apply walk_notes_settles; [lia..|]. intros ? ?. unfold fp_note, fail_if. settles_auto.
Qed.

(** reading the floating-point state of a thread returns it, reports that there
    is none, or throws, on every file: no access outside it, and every loop ends. *)
Theorem parse_floating_point_state_settles bytes tid : settles (parse_floating_point_state bytes tid).
Proof.
  unfold parse_floating_point_state, fail_if. do 4 (apply settles_bind; [settles_auto|intros ? _]).
  apply settles_bind; [|done]. apply res_fold_settles. intros. apply fp_segment_settles.
Qed.

Lemma read_auxv_settles bytes o n info : settles (read_auxv bytes o n info).
Proof.
  revert o info. induction n as [|n IH]; intros o info; [done|]. simpl. destruct (_ =? _); [done|].
  apply settles_bind; [|intros; apply IH]. destruct info. unfold add_auxv, assign_once. settles_auto.
Qed.
#[export] Hint Resolve read_auxv_settles : msettle.

(** reading the auxiliary vector of a core returns it, reports that there is
    none, or throws, on every file: no access outside it, and every loop ends. *)
Theorem parse_startup_info_settles c bytes : settles (parse_startup_info c bytes).
Proof.
  unfold parse_startup_info, fail_if. cbv zeta. do 2 (apply settles_bind; [settles_auto|intros _ _]).
  apply res_fold_settles. intros s i. unfold startup_segment. cbv zeta.
  generalize (u64 (e_phoff (ehdr_at bytes 0) + Z.of_nat i * sizeof_Phdr)). intros o.
  apply settles_bind; [settles_auto|intros _ _]. destruct (negb (p_type _ =? _)); [done|].
  apply settles_bind; [settles_auto|intros _ _].
  destruct (le_at_u64 bytes (o + 8)) as [? _]. destruct (le_at_u64 bytes (o + 32)) as [? _].
  apply walk_notes_settles; [done|cbn; lia|].
  intros r n. unfold startup_note, check_startup, fail_if. settles_auto.
Qed.
