(* ===== verification/EhFrame.v ===== *)
(** * Call-frame information ([src/dwarf/eh_frame.cpp], [src/dwarf/eh_frame.hpp])

    The [.eh_frame] section of a file, the interpreter of its CFA instructions and the
    caller's frame they give.  A cursor over the section is the state of [M Z]; the
    evaluation reads the stack through a memory reader in any state. *)

From S2P Require Import Prelude Machine ByteReader ElfFormat.
From S2P Require Elf.
From S2P Require Import Process DebuggerState Debugger.

(* src/dwarf/eh_frame.hpp:15-19 EhFrameCursor *)
Record EhFrameCursor := mkCursor {
  instruction_pointer : Z;
  stack_pointer : Z;
  frame_pointer : option Z;
  cursor_rbx : option Z
}.

Definition kPcrelSdata4 : Z := 0x1b.
Definition kPcrelSdata8 : Z := 0x1c.
Definition kPcrelIndirectSdata4 : Z := 0x9b.
Definition kPcrelIndirectSdata8 : Z := 0x9c.
Definition kDwarfRbx : Z := 3.
Definition kDwarfRbp : Z := 6.
Definition kDwarfRsp : Z := 7.
Definition kDwarfRip : Z := 16.

(* src/dwarf/eh_frame.cpp:32-39 Cie *)
Record Cie := mkCie {
  code_alignment : Z;
  data_alignment : Z;
  return_register : Z;
  fde_encoding : Z;
  instructions_begin : Z;
  instructions_end : Z
}.

(* src/dwarf/eh_frame.cpp:41-41 RuleKind *)
Inductive RuleKind := RuleUndefined | RuleSameValue | RuleOffset.
(* src/dwarf/eh_frame.cpp:42-45 RegisterRule *)
Record RegisterRule := mkRule { rule_kind : RuleKind; rule_offset : Z }.
(* src/dwarf/eh_frame.cpp:46-51 CfiState *)
Record CfiState := mkCfi {
  cfa_defined : bool;
  cfa_register : Z;
  cfa_offset : Z;
  rules : gmap Z RegisterRule
}.
(* src/dwarf/eh_frame.cpp:52-56 EvaluatedFrame *)
Record EvaluatedFrame := mkFrame { frame_state : CfiState; frame_cfa : Z; frame_return_address : Z }.

Definition empty_cfi : CfiState := mkCfi false 0 0 ∅.
Definition set_rule (reg : Z) (rule : RegisterRule) (s : CfiState) : CfiState :=
  mkCfi (cfa_defined s) (cfa_register s) (cfa_offset s) (<[reg := rule]> (rules s)).

#[export] Instance RuleKind_eq_dec : EqDecision RuleKind.
Proof. solve_decision. Defined.

(** ** Readers *)

(* src/dwarf/eh_frame.cpp:58-66 read_at *)
Definition read_at (what : string) (bytes : list byte) (offset n : Z) : res Z :=
  read_at_with (what +:+ " extends past end of data") bytes offset n.

(* src/dwarf/eh_frame.cpp:58-66 read_at *)
Definition read_struct_at {T} (what : string) (sizeof : Z) (at_ : list byte -> Z -> T) (bytes : list byte)
    (offset : Z) : res T :=
  _ ← throw_if (out_of_bounds bytes offset sizeof) (Exn RuntimeError (what +:+ " extends past end of data"));
  Ok (at_ bytes offset).

(* src/dwarf/eh_frame.cpp:68-77 read_scalar *)
Definition read_scalar (what : string) (bytes : list byte) (limit n : Z) : M Z Z :=
  read_scalar_with (what +:+ " extends past CFI entry boundary") (what +:+ " extends past end of data")
    bytes limit n.

(* src/dwarf/eh_frame.cpp:79-81 is_pcrel_signed_encoding *)
Definition is_pcrel_signed_encoding (encoding : Z) : bool :=
  (encoding =? kPcrelSdata4) || (encoding =? kPcrelSdata8).

(* src/dwarf/eh_frame.cpp:83-85 is_pcrel_indirect_signed_encoding *)
Definition is_pcrel_indirect_signed_encoding (encoding : Z) : bool :=
  (encoding =? kPcrelIndirectSdata4) || (encoding =? kPcrelIndirectSdata8).

(* src/dwarf/eh_frame.cpp:87-100 read_signed_encoded_value *)
Definition read_signed_encoded_value (bytes : list byte) (limit encoding : Z) (what : string) : M Z Z :=
  if (encoding =? kPcrelSdata4) || (encoding =? kPcrelIndirectSdata4) then
    value ← read_scalar what bytes limit 4; mret (to_signed 32 value)
  else if (encoding =? kPcrelSdata8) || (encoding =? kPcrelIndirectSdata8) then
    value ← read_scalar what bytes limit 8; mret (i64 value)
  else mthrow RuntimeError "unsupported signed PC-relative CFI pointer encoding".

(* src/dwarf/eh_frame.cpp:102-117 read_uleb *)
Definition read_uleb (bytes : list byte) (limit : Z) : M Z Z :=
  read_uleb_with (read_scalar "ULEB128" bytes limit 1) "ULEB128 overflows 64 bits" "ULEB128 is too long".

(* src/dwarf/eh_frame.cpp:119-134 read_sleb *)
Definition read_sleb (bytes : list byte) (limit : Z) : M Z Z :=
  read_sleb_with (read_scalar "SLEB128" bytes limit 1) None "SLEB128 is too long".

(* src/dwarf/eh_frame.cpp:136-145 read_c_string *)
Definition read_c_string (bytes : list byte) (limit : Z) (what : string) : M Z string :=
  read_c_string_with ("unterminated " +:+ what) bytes limit.

(** Runs a reader from a cursor of its own. *)
Definition run_at {A} (cursor : Z) (m : M Z A) : res (A * Z) :=
  match m cursor with
  | (Ok a, c) => Ok (a, c)
  | (Throw e, _) => Throw e
  | (Undef w, _) => Undef w
  | (OutOfFuel, _) => OutOfFuel
  end.

(** ** Finding the section *)

(** The first section called [.eh_frame]. *)
(* src/dwarf/eh_frame.cpp:189-205 find_eh_frame *)
Fixpoint named_eh_frame (bytes : list byte) (names : Elf64_Shdr) (names_begin names_end : Z)
    (sections : list Elf64_Shdr) : res (option (Z * list byte)) :=
  match sections with
  | [] => Ok None
  | section :: sections =>
    if sh_size names <=? sh_name section then named_eh_frame bytes names names_begin names_end sections
    else
      '(name, _) ← run_at (names_begin + sh_name section) (read_c_string bytes names_end "ELF section name");
      if negb (String.eqb name ".eh_frame") then named_eh_frame bytes names names_begin names_end sections
      else
        _ ← throw_if (negb (Z.land (sh_flags section) SHF_COMPRESSED =? 0))
              (Exn RuntimeError "compressed .eh_frame is unsupported");
        _ ← throw_if (out_of_bounds bytes (sh_offset section) (sh_size section))
              (Exn RuntimeError ".eh_frame extends past end of file");
        Ok (Some (sh_addr section, bytes_at bytes (sh_offset section) (sh_size section)))
  end.

(* src/dwarf/eh_frame.cpp:162-206 find_eh_frame *)
Definition find_eh_frame (bytes : list byte) : res (option (Z * list byte)) :=
  header ← read_struct_at "ELF header" sizeof_Ehdr ehdr_at bytes 0;
  _ ← throw_if (negb (has_elf_magic header) || negb (ident header EI_CLASS =? ELFCLASS64) ||
                negb (ident header EI_DATA =? ELFDATA2LSB) || negb (e_machine header =? EM_X86_64))
        (Exn RuntimeError ".eh_frame parsing requires little-endian x86-64 ELF64");
  if (e_shnum header =? 0) || (e_shstrndx header =? SHN_UNDEF) then Ok None
  else
    _ ← throw_if (negb (e_shentsize header =? sizeof_Shdr) || (e_shstrndx header =? SHN_XINDEX) ||
                  (e_shnum header <=? e_shstrndx header))
          (Exn RuntimeError "unsupported ELF section layout for .eh_frame");
    sections ← mapM (fun index => read_struct_at "ELF section header" sizeof_Shdr shdr_at bytes
                        (u64 (e_shoff header + Z.of_nat index * sizeof_Shdr)))
                 (seq 0 (Z.to_nat (e_shnum header)));
    match sections !! Z.to_nat (e_shstrndx header) with
    | None => Undef "vector index out of range"
    | Some names =>
      _ ← throw_if (out_of_bounds bytes (sh_offset names) (sh_size names))
            (Exn RuntimeError "ELF section-name table extends past end of file");
      named_eh_frame bytes names (sh_offset names) (sh_offset names + sh_size names) sections
    end.

(** ** Offsets *)

(** The quotient of signed integers truncates towards zero. *)
(* src/dwarf/eh_frame.cpp:208-222 scaled_offset *)
Definition scaled_offset (alignment factor : Z) : res Z :=
  _ ← throw_if (i64_max <? factor) (Exn RuntimeError "CFI offset factor is too large");
  _ ← throw_if ((alignment <? 0) && negb (factor =? 0) && (alignment <? Z.quot i64_min factor))
        (Exn RuntimeError "CFI offset overflows 64 bits");
  _ ← throw_if ((0 <? alignment) && negb (factor =? 0) && (Z.quot i64_max factor <? alignment))
        (Exn RuntimeError "CFI offset overflows 64 bits");
  Ok (alignment * factor).

(* src/dwarf/eh_frame.cpp:224-236 add_signed *)
Definition add_signed (base offset : Z) (what : string) : res Z :=
  if 0 <=? offset then
    _ ← throw_if (u64_max - base <? offset) (Exn RuntimeError (what +:+ " overflows address space"));
    Ok (base + offset)
  else
    let value := u64 (- (offset + 1)) + 1 in
    _ ← throw_if (base <? value) (Exn RuntimeError (what +:+ " underflows address space"));
    Ok (base - value).

(** ** Common information entries *)

(** The descriptors after the [z]; the encoding of FDE pointers once one gives it. *)
(* src/dwarf/eh_frame.cpp:256-289 parse_cie *)
Fixpoint cie_augmentation (bytes : list byte) (augmentation_end : Z) (augmentation : list ascii)
    (encoding : option Z) : M Z (option Z) :=
  match augmentation with
  | [] => mret encoding
  | c :: augmentation =>
    if Ascii.eqb c "P" then
      e ← read_scalar "personality encoding" bytes augmentation_end 1;
      _ ← mthrow_if (negb (is_pcrel_indirect_signed_encoding e)) RuntimeError
            "unsupported .eh_frame personality pointer encoding";
      _ ← read_signed_encoded_value bytes augmentation_end e "personality pointer";
      cie_augmentation bytes augmentation_end augmentation encoding
    else if Ascii.eqb c "L" then
      e ← read_scalar "LSDA encoding" bytes augmentation_end 1;
      _ ← mthrow_if (negb (is_pcrel_signed_encoding e)) RuntimeError
            "unsupported .eh_frame LSDA pointer encoding";
      cie_augmentation bytes augmentation_end augmentation encoding
    else if Ascii.eqb c "R" then
      e ← read_scalar "FDE encoding" bytes augmentation_end 1;
      _ ← mthrow_if (negb (is_pcrel_signed_encoding e)) RuntimeError
            "unsupported .eh_frame FDE pointer encoding";
      cie_augmentation bytes augmentation_end augmentation (Some e)
    else mthrow RuntimeError "unsupported .eh_frame CIE augmentation descriptor"
  end.

(* src/dwarf/eh_frame.cpp:238-298 parse_cie *)
Definition parse_cie (bytes : list byte) (end_ : Z) : M Z Cie :=
  version ← read_scalar "CIE version" bytes end_ 1;
  _ ← mthrow_if (negb (version =? 1)) RuntimeError "only .eh_frame CIE version 1 is supported";
  augmentation ← read_c_string bytes end_ "CIE augmentation";
  match String.list_ascii_of_string augmentation with
  | "z"%char :: descriptors =>
    code_alignment ← read_uleb bytes end_;
    data_alignment ← read_sleb bytes end_;
    return_register ← read_scalar "CIE return register" bytes end_ 1;
    augmentation_size ← read_uleb bytes end_;
    cursor ← mget;
    _ ← mthrow_if (u64 (end_ - cursor) <? augmentation_size) RuntimeError
          "CIE augmentation extends past entry boundary";
    let augmentation_end := cursor + augmentation_size in
    encoding ← cie_augmentation bytes augmentation_end descriptors None;
    match encoding with
    | None => mthrow RuntimeError "CIE augmentation does not define an FDE pointer encoding"
    | Some fde_encoding =>
      cursor ← mget;
      _ ← mthrow_if (negb (cursor =? augmentation_end)) RuntimeError
            "unexpected trailing CIE augmentation data";
      mret (mkCie code_alignment data_alignment return_register fde_encoding cursor end_)
    end
  | _ => mthrow RuntimeError "only z-prefixed .eh_frame augmentation is supported"
  end.

(** ** CFA instructions *)

(* src/dwarf/eh_frame.cpp:300-305 restore_rule *)
Definition restore_rule (state : CfiState) (initial : option CfiState) (reg : Z) : res CfiState :=
  match initial with
  | None => runtime_error "CIE uses an invalid restore opcode"
  | Some initial =>
    Ok (mkCfi (cfa_defined state) (cfa_register state) (cfa_offset state)
          match rules initial !! reg with
          | None => delete reg (rules state)
          | Some rule => <[reg := rule]> (rules state)
          end)
  end.

(** The next location; [None]: it is past the target. *)
(* src/dwarf/eh_frame.cpp:307-321 advance *)
Definition advance (location units : Z) (cie : Cie) (target : Z) : res (option Z) :=
  _ ← throw_if ((code_alignment cie =? 0) || (u64_max / code_alignment cie <? units))
        (Exn RuntimeError "invalid CFI location advance");
  let delta := units * code_alignment cie in
  _ ← throw_if (u64_max - location <? delta) (Exn RuntimeError "CFI location overflows address space");
  let next := location + delta in
  Ok (if target <? next then None else Some next).

(** One turn of the interpreter's loop: it returns, or goes on with a location, a
    state and a stack of saved states. *)
Inductive cfi_step := CfiReturn (state : CfiState) | CfiNext (location : Z) (state : CfiState) (stack : list CfiState).

Section Execute.
Context (bytes : list byte) (end_ : Z) (cie : Cie) (initial : option CfiState) (target : Z).

Definition cfi_advance (location units : Z) (state : CfiState) (stack : list CfiState) : M Z cfi_step :=
  next ← lift (advance location units cie target);
  mret match next with
       | None => CfiReturn state
       | Some location => CfiNext location state stack
       end.

Definition offset_rule : M Z RegisterRule :=
  factor ← read_uleb bytes end_;
  offset ← lift (scaled_offset (data_alignment cie) factor);
  mret (mkRule RuleOffset offset).

Definition cfa_offset_operand : M Z Z :=
  offset ← read_uleb bytes end_;
  _ ← mthrow_if (i64_max <? offset) RuntimeError "CFA offset is too large";
  mret offset.

(** The opcodes without an operand in their low bits. *)
(* src/dwarf/eh_frame.cpp:345-410 execute *)
Definition execute_extended (opcode location : Z) (state : CfiState) (stack : list CfiState) : M Z cfi_step :=
  match opcode with
  | 0x00 => mret (CfiNext location state stack)
  | 0x02 => units ← read_scalar "advance_loc1" bytes end_ 1; cfi_advance location units state stack
  | 0x03 => units ← read_scalar "advance_loc2" bytes end_ 2; cfi_advance location units state stack
  | 0x04 => units ← read_scalar "advance_loc4" bytes end_ 4; cfi_advance location units state stack
  | 0x05 =>
    reg ← read_uleb bytes end_;
    rule ← offset_rule;
    mret (CfiNext location (set_rule reg rule state) stack)
  | 0x06 =>
    reg ← read_uleb bytes end_;
    state ← lift (restore_rule state initial reg);
    mret (CfiNext location state stack)
  | 0x07 => reg ← read_uleb bytes end_; mret (CfiNext location (set_rule reg (mkRule RuleUndefined 0) state) stack)
  | 0x08 => reg ← read_uleb bytes end_; mret (CfiNext location (set_rule reg (mkRule RuleSameValue 0) state) stack)
  | 0x0a => mret (CfiNext location state (state :: stack))
  | 0x0b =>
    match stack with
    | [] => mthrow RuntimeError "unbalanced DW_CFA_restore_state"
    | saved :: stack => mret (CfiNext location saved stack)
    end
  | 0x0c =>
    reg ← read_uleb bytes end_;
    offset ← cfa_offset_operand;
    mret (CfiNext location (mkCfi true reg offset (rules state)) stack)
  | 0x0d =>
    _ ← mthrow_if (negb (cfa_defined state)) RuntimeError "CFA register is undefined";
    reg ← read_uleb bytes end_;
    mret (CfiNext location (mkCfi (cfa_defined state) reg (cfa_offset state) (rules state)) stack)
  | 0x0e =>
    _ ← mthrow_if (negb (cfa_defined state)) RuntimeError "CFA register is undefined";
    offset ← cfa_offset_operand;
    mret (CfiNext location (mkCfi (cfa_defined state) (cfa_register state) offset (rules state)) stack)
  | 0x2e => _ ← read_uleb bytes end_; mret (CfiNext location state stack)
  | _ => mthrow RuntimeError "unsupported DWARF CFI opcode"
  end.

(* src/dwarf/eh_frame.cpp:329-410 execute *)
Definition execute_instruction (location : Z) (state : CfiState) (stack : list CfiState) : M Z cfi_step :=
  opcode ← read_scalar "CFI opcode" bytes end_ 1;
  let primary := Z.land opcode 0xc0 in
  if primary =? 0x40 then cfi_advance location (Z.land opcode 0x3f) state stack
  else if primary =? 0x80 then
    rule ← offset_rule;
    mret (CfiNext location (set_rule (Z.land opcode 0x3f) rule state) stack)
  else if primary =? 0xc0 then
    state ← lift (restore_rule state initial (Z.land opcode 0x3f));
    mret (CfiNext location state stack)
  else execute_extended opcode location state stack.

(** An instruction has an opcode, so there are at most [end - cursor] turns. *)
(* src/dwarf/eh_frame.cpp:323-414 execute *)
Fixpoint execute_loop (fuel : nat) (location : Z) (state : CfiState) (stack : list CfiState) : M Z CfiState :=
  cursor ← mget;
  if cursor <? end_ then
    match fuel with
    | O => mout_of_fuel
    | S fuel =>
      step ← execute_instruction location state stack;
      match step with
      | CfiReturn state => mret state
      | CfiNext location state stack => execute_loop fuel location state stack
      end
    end
  else mret state.
End Execute.

(* src/dwarf/eh_frame.cpp:323-414 execute *)
Definition execute (bytes : list byte) (begin_ end_ : Z) (cie : Cie) (state : CfiState)
    (initial : option CfiState) (location target : Z) : res CfiState :=
  '(state, _) ← run_at begin_ (execute_loop bytes end_ cie initial target (Z.to_nat (end_ - begin_))
                                 location state []);
  Ok state.

(** ** Registers and stack slots *)

(* src/dwarf/eh_frame.cpp:416-437 dwarf_register *)
Definition dwarf_register (regs : user_regs_struct) (reg : Z) : res Z :=
  match reg with
  | 0 => Ok (rax regs) | 1 => Ok (rdx regs) | 2 => Ok (rcx regs) | 3 => Ok (rbx regs)
  | 4 => Ok (rsi regs) | 5 => Ok (rdi regs) | 6 => Ok (rbp regs) | 7 => Ok (rsp regs)
  | 8 => Ok (r8 regs) | 9 => Ok (r9 regs) | 10 => Ok (r10 regs) | 11 => Ok (r11 regs)
  | 12 => Ok (r12 regs) | 13 => Ok (r13 regs) | 14 => Ok (r14 regs) | 15 => Ok (r15 regs)
  | 16 => Ok (rip regs)
  | _ => runtime_error "unsupported x86-64 DWARF register"
  end.

(* src/dwarf/eh_frame.cpp:439-458 cursor_register *)
Definition cursor_register (cursor : EhFrameCursor) (reg : Z) : res Z :=
  if reg =? kDwarfRbx then
    match cursor_rbx cursor with
    | None => runtime_error "CFI backtrace requires an unavailable caller RBX"
    | Some v => Ok v
    end
  else if reg =? kDwarfRbp then
    match frame_pointer cursor with
    | None => runtime_error "CFI backtrace requires an unavailable caller RBP"
    | Some v => Ok v
    end
  else if reg =? kDwarfRsp then Ok (stack_pointer cursor)
  else if reg =? kDwarfRip then Ok (instruction_pointer cursor)
  else runtime_error "CFI backtrace requires an unrecovered x86-64 register".

(** [value |= byte << (index * 8)] for the bytes in order. *)
Fixpoint or_bytes (value shift : Z) (bytes : list byte) : Z :=
  match bytes with
  | [] => value
  | b :: bytes => or_bytes (Z.lor value (u64 (Z.shiftl (byte_val b) shift))) (shift + 8) bytes
  end.

(* src/dwarf/eh_frame.cpp:460-469 read_u64 *)
Definition read_u64 (bytes : list byte) : res Z :=
  _ ← throw_if (negb (size_of bytes =? 8)) (Exn RuntimeError "unexpected CFI register read size");
  Ok (or_bytes 0 0 bytes).

Section Evaluate.
Context {S : Type} (read_memory : Z -> Z -> M S (list byte)).

(** Every exception of the reader becomes the same [runtime_error]. *)
(* src/dwarf/eh_frame.cpp:471-479 read_cfi_slot *)
Definition read_cfi_slot (address : Z) (what : string) : M S Z :=
  mcatch (bytes ← read_memory address 8; lift (read_u64 bytes))
    (fun _ => mthrow RuntimeError (what +:+ " is unreadable")).

(** The start and the size of the range of an FDE, and the cursor after its header. *)
(* src/dwarf/eh_frame.cpp:512-528 evaluate_frame *)
Definition parse_fde (section : list byte) (section_virtual_address end_ : Z) (cie : Cie) : M Z (Z * Z) :=
  cursor ← mget;
  let field_virtual_address := u64 (section_virtual_address + cursor) in
  relative ← read_signed_encoded_value section end_ (fde_encoding cie) "FDE initial location";
  initial_location ← lift (add_signed field_virtual_address relative "FDE start");
  signed_range ← read_signed_encoded_value section end_ (fde_encoding cie) "FDE address range";
  _ ← mthrow_if (signed_range <? 0) RuntimeError "negative FDE address range";
  _ ← mthrow_if (u64_max - initial_location <? signed_range) RuntimeError
        "FDE address range overflows address space";
  augmentation_size ← read_uleb section end_;
  cursor ← mget;
  _ ← mthrow_if (u64 (end_ - cursor) <? augmentation_size) RuntimeError
        "FDE augmentation extends past entry boundary";
  _ ← modify (fun c => c + augmentation_size);
  mret (initial_location, signed_range).

(** The registers' rules at [target], from the instructions of the CIE and the FDE. *)
(* src/dwarf/eh_frame.cpp:531-536 evaluate_frame *)
Definition cfi_row (section : list byte) (cursor end_ : Z) (cie : Cie) (initial_location target : Z)
    : res CfiState :=
  cie_state ← execute section (instructions_begin cie) (instructions_end cie) cie empty_cfi None
                initial_location u64_max;
  state ← execute section cursor end_ cie cie_state (Some cie_state) initial_location target;
  _ ← throw_if (negb (cfa_defined state)) (Exn RuntimeError "CFI did not define a CFA");
  Ok state.

(** The address of the slot of the return address. *)
(* src/dwarf/eh_frame.cpp:538-543 evaluate_frame *)
Definition cfi_slots (read_register : Z -> res Z) (cie : Cie) (state : CfiState) : res (Z * Z) :=
  base ← read_register (cfa_register state);
  cfa ← add_signed base (cfa_offset state) "CFI CFA";
  match rules state !! return_register cie with
  | Some (mkRule RuleOffset offset) =>
    slot ← add_signed cfa offset "CFI return slot";
    Ok (cfa, slot)
  | _ => runtime_error "CFI return-address rule is not a supported memory offset"
  end.

(* src/dwarf/eh_frame.cpp:530-546 evaluate_frame *)
Definition resolve_frame (section : list byte) (cursor end_ : Z) (cie : Cie) (initial_location target : Z)
    (read_register : Z -> res Z) : M S EvaluatedFrame :=
  state ← lift (cfi_row section cursor end_ cie initial_location target);
  '(cfa, slot) ← lift (cfi_slots read_register cie state);
  return_address ← read_cfi_slot slot "CFI return-address slot";
  _ ← mthrow_if (return_address =? 0) RuntimeError "CFI resolved a zero return address";
  mret (mkFrame state cfa return_address).

(** What the entry at [entry] is: the end of the section, a CIE, or an FDE with its
    CIE, its range and its instructions. *)
Inductive eh_entry :=
  | EntryEnd
  | EntryCie (cie : Cie) (end_ : Z)
  | EntryFde (cie : Cie) (initial_location range cursor end_ : Z).

(* src/dwarf/eh_frame.cpp:490-528 evaluate_frame *)
Definition read_entry (section : list byte) (section_virtual_address : Z) (cies : gmap Z Cie) (entry : Z)
    : res eh_entry :=
  length ← read_at ".eh_frame length" section entry 4;
  if length =? 0 then Ok EntryEnd
  else
    _ ← throw_if (length =? 0xffffffff) (Exn RuntimeError "DWARF64 .eh_frame is unsupported");
    let content := entry + 4 in
    _ ← throw_if (size_of section - content <? length)
          (Exn RuntimeError ".eh_frame entry extends past section boundary");
    let end_ := content + length in
    '(cie_pointer, cursor) ← run_at content (read_scalar "CIE pointer" section end_ 4);
    if cie_pointer =? 0 then
      '(cie, _) ← run_at cursor (parse_cie section end_);
      Ok (EntryCie cie end_)
    else
      _ ← throw_if (content <? cie_pointer) (Exn RuntimeError "FDE CIE pointer underflows section");
      match cies !! (content - cie_pointer) with
      | None => runtime_error "FDE references an unknown CIE"
      | Some cie =>
        '((initial_location, range), cursor) ← run_at cursor (parse_fde section section_virtual_address end_ cie);
        Ok (EntryFde cie initial_location range cursor end_)
      end.

(** Every entry has a length field of four bytes, so there are fewer entries than
    bytes in the section. *)
(* src/dwarf/eh_frame.cpp:481-552 evaluate_frame *)
Fixpoint evaluate_loop (fuel : nat) (section : list byte) (section_virtual_address target : Z)
    (read_register : Z -> res Z) (cies : gmap Z Cie) (entry : Z) : M S (option EvaluatedFrame) :=
  if entry <? size_of section then
    match fuel with
    | O => mout_of_fuel
    | Datatypes.S fuel =>
      found ← lift (read_entry section section_virtual_address cies entry);
      match found with
      | EntryEnd => mret None
      | EntryCie cie end_ =>
        evaluate_loop fuel section section_virtual_address target read_register
          (emplace entry cie cies) end_
      | EntryFde cie initial_location range cursor end_ =>
        if (initial_location <=? target) && (target <? initial_location + range) then
          frame ← resolve_frame section cursor end_ cie initial_location target read_register;
          mret (Some frame)
        else evaluate_loop fuel section section_virtual_address target read_register cies end_
      end
    end
  else mret None.

(* src/dwarf/eh_frame.cpp:481-552 evaluate_frame *)
Definition evaluate_frame (section : list byte) (section_virtual_address target : Z)
    (read_register : Z -> res Z) : M S (option EvaluatedFrame) :=
  evaluate_loop (length section) section section_virtual_address target read_register ∅ 0.

(* src/dwarf/eh_frame.cpp:554-572 recover_register *)
Definition recover_register (evaluated : EvaluatedFrame) (reg : Z) (current_value : option Z) (what : string)
    : M S (option Z) :=
  match rules (frame_state evaluated) !! reg with
  | None => mret None
  | Some (mkRule RuleUndefined _) => mret None
  | Some (mkRule RuleSameValue _) => mret current_value
  | Some (mkRule RuleOffset offset) =>
    slot ← lift (add_signed (frame_cfa evaluated) offset what);
    value ← read_cfi_slot slot what;
    mret (Some value)
  end.

(* src/dwarf/eh_frame.cpp:574-585 recover_frame_pointer *)
Definition recover_frame_pointer (current : EhFrameCursor) (evaluated : EvaluatedFrame) : M S (option Z) :=
  recover_register evaluated kDwarfRbp (frame_pointer current) "CFI RBP slot".

(* src/dwarf/eh_frame.cpp:587-592 recover_rbx *)
Definition recover_rbx (current : EhFrameCursor) (evaluated : EvaluatedFrame) : M S (option Z) :=
  recover_register evaluated kDwarfRbx (cursor_rbx current) "CFI RBX slot".

End Evaluate.

(** ** [EhFrame] *)

(* src/dwarf/eh_frame.hpp:25-41 EhFrame *)
Record EhFrame := mkEhFrame {
  eh_path : string;
  eh_section : list byte;
  eh_section_virtual_address : Z;
  eh_available : bool
}.

Section CallerFrame.
Context {S : Type}.

(* src/dwarf/eh_frame.cpp:645-658 EhFrame::caller_frame *)
Definition caller_frame_with (eh : EhFrame) (read_memory : Z -> Z -> M S (list byte)) (module_virtual_pc : Z)
    (current : EhFrameCursor) : M S (option EhFrameCursor) :=
  if negb (eh_available eh) then mret None
  else
    evaluated ← evaluate_frame read_memory (eh_section eh) (eh_section_virtual_address eh)
                  module_virtual_pc (cursor_register current);
    match evaluated with
    | None => mret None
    | Some evaluated =>
      fp ← recover_frame_pointer read_memory current evaluated;
      bx ← recover_rbx read_memory current evaluated;
      mret (Some (mkCursor (frame_return_address evaluated) (frame_cfa evaluated) fp bx))
    end.
End CallerFrame.

Section EhFrame.
Context `{H : Host}.

(* src/dwarf/eh_frame.cpp:147-160 read_file *)
Definition read_file (path : string) : res (list byte) :=
  match h_file path with
  | FileOpenFailed => runtime_error ("failed to open ELF file: " +:+ path)
  | FileSizeFailed => runtime_error "failed to determine ELF file size"
  | FileReadFailed => runtime_error "failed to read ELF file"
  | FileBytes bytes => Ok bytes
  end.

(* src/dwarf/eh_frame.cpp:596-602 EhFrame::EhFrame *)
Definition open_eh_frame (path : string) : res EhFrame :=
  bytes ← read_file path;
  section ← find_eh_frame bytes;
  Ok match section with
     | None => mkEhFrame path [] 0 false
     | Some (address, section) => mkEhFrame path section address true
     end.

Context `{K : Kernel} `{PM : !ProcMaps K}.

(* src/dwarf/eh_frame.cpp:604-624 EhFrame::caller_return_address *)
Definition caller_return_address (eh : EhFrame) (elf : Elf.ElfFile) : M dst (option Z) :=
  if negb (eh_available eh) then mret None
  else
    d ← get_debugger;
    _ ← mthrow_if (bool_decide (state_ (process_ d) <> Stopped)) LogicError
          "CFI evaluation requires a stopped tracee";
    regs ← registers;
    bias ← kernel (Elf.load_bias elf (pid_ (process_ d)));
    _ ← mthrow_if (rip regs <? bias) RuntimeError "runtime RIP is below executable load bias";
    evaluated ← evaluate_frame read_memory (eh_section eh) (eh_section_virtual_address eh)
                  (rip regs - bias) (dwarf_register regs);
    mret (option_map frame_return_address evaluated).

(* src/dwarf/eh_frame.cpp:626-643 EhFrame::caller_frame *)
Definition caller_frame (eh : EhFrame) (elf : Elf.ElfFile) (current : EhFrameCursor)
    : M dst (option EhFrameCursor) :=
  if negb (eh_available eh) then mret None
  else
    d ← get_debugger;
    _ ← mthrow_if (bool_decide (state_ (process_ d) <> Stopped)) LogicError
          "CFI backtrace requires a stopped tracee";
    bias ← kernel (Elf.load_bias elf (pid_ (process_ d)));
    _ ← mthrow_if (instruction_pointer current <? bias) RuntimeError
          "runtime frame RIP is below executable load bias";
    caller_frame_with eh read_memory (instruction_pointer current - bias) current.
End EhFrame.
