(* ===== verification/EhFrameProofs.v ===== *)
(** * Properties of the call-frame interpreter

    The offset arithmetic is exact, the interpreter is total on every section, it
    executes an encoded CFA program the way the table of the program says, and the
    caller's frame is the one the row describes. *)

From Stdlib Require Zquot.
From S2P Require Import Prelude Machine ByteReader ElfFormat EhFrame.
From S2P Require Debugger.

(** ** Offset arithmetic *)

Definition in_i64 (z : Z) : Prop := i64_min <= z <= i64_max.

(** adding a signed offset to an address is exact: it gives the sum when that is an
    address, and throws otherwise; no wrap-around is possible. *)
Theorem add_signed_exact base offset what :
  in_u64 base -> in_i64 offset ->
  add_signed base offset what =
    if (0 <=? base + offset) && (base + offset <=? u64_max) then Ok (base + offset)
    else runtime_error (what +:+ (if 0 <=? offset then " overflows address space" else " underflows address space")).
Proof.
  unfold in_u64, in_i64, i64_min, i64_max, add_signed, throw_if. intros Hb Ho.
  destruct (Z.leb_spec 0 offset).
  - destruct (Z.leb_spec 0 (base + offset)), (Z.leb_spec (base + offset) u64_max),
      (Z.ltb_spec (u64_max - base) offset); try lia; done.
  - rewrite u64_small by (unfold in_u64, u64_max; lia).
    destruct (Z.leb_spec 0 (base + offset)), (Z.leb_spec (base + offset) u64_max),
      (Z.ltb_spec base (- (offset + 1) + 1)); try lia; try done. simpl. f_equal. lia.
Qed.

Lemma add_signed_exact_witness :
  add_signed 16 (-8) "CFI CFA" = Ok 8 /\ add_signed 4 (-8) "x" = runtime_error "x underflows address space".
Proof.
  split.
  - rewrite (add_signed_exact 16 (-8)) by (vm_compute; split; congruence). reflexivity.
  - rewrite (add_signed_exact 4 (-8)) by (vm_compute; split; congruence). reflexivity.
Defined.

Lemma quot_min_spec a f : 0 < f -> a < 0 -> (Z.quot i64_min f <= a <-> i64_min <= a * f).
Proof.
  intros Hf Ha. unfold i64_min.
  pose proof (Z.quot_rem (-9223372036854775808) f ltac:(lia)) as E.
  pose proof (Zquot.Zrem_lt_neg_pos (-9223372036854775808) f ltac:(lia) ltac:(lia)) as Hr.
  set (q := Z.quot _ f) in *. set (r := Z.rem _ f) in *. split; intros H.
  - assert (q * f <= a * f) by (apply Z.mul_le_mono_nonneg_r; lia). lia.
  - destruct (Z.le_gt_cases q a); [done|]. assert (a * f <= (q - 1) * f) by (apply Z.mul_le_mono_nonneg_r; lia). lia.
Qed.
Lemma quot_max_spec a f : 0 < f -> (a <= Z.quot i64_max f <-> a * f <= i64_max).
Proof.
  intros Hf. unfold i64_max. rewrite Z.quot_div_nonneg by lia.
  split; [intros H|intros H; apply Z.div_le_lower_bound; lia].
  pose proof (Z.mul_div_le 9223372036854775807 f Hf). nia.
Qed.

Lemma scaled_offset_ok_iff alignment factor :
  in_i64 alignment -> in_u64 factor ->
  is_ok (scaled_offset alignment factor) = true <-> factor <= i64_max /\ in_i64 (alignment * factor).
Proof.
  intros Ha Hf. pose proof Ha as Ha'. unfold in_u64, in_i64 in *. unfold scaled_offset, throw_if.
  destruct (Z.ltb_spec i64_max factor) as [|Hle]; [simpl; split; [done|lia]|].
  destruct (Z.eqb_spec factor 0) as [->|Hne].
  { rewrite !andb_false_r. simpl. rewrite Z.mul_0_r. unfold i64_min, i64_max. split; [intros _; lia|done]. }
  rewrite !andb_true_r. pose proof (quot_min_spec alignment factor ltac:(lia)) as H1.
  pose proof (quot_max_spec alignment factor ltac:(lia)) as H2. unfold i64_min, i64_max in *.
  destruct (Z.ltb_spec alignment 0); simpl.
  - destruct (Z.ltb_spec alignment (Z.quot (-9223372036854775808) factor)); simpl; [split; [done|lia]|].
    destruct (Z.ltb_spec 0 alignment); [lia|]. simpl. split; [intros _|done]. nia.
  - destruct (Z.ltb_spec 0 alignment); simpl; [|split; [intros _|done]; nia].
    destruct (Z.ltb_spec (Z.quot 9223372036854775807 factor) alignment); simpl; [split; [done|lia]|].
    split; [intros _|done]. nia.
Qed.

Lemma scaled_offset_Ok alignment factor v : scaled_offset alignment factor = Ok v -> v = alignment * factor.
Proof. unfold scaled_offset. intros H. inv_res. congruence. Qed.

Lemma scaled_offset_settles a f : settles (scaled_offset a f).
Proof. unfold scaled_offset. settles_auto. Qed.

(** scaling a factored offset is exact: it gives the product when that is a signed
    64-bit value and the factor is one, and throws otherwise. *)
Theorem scaled_offset_exact alignment factor :
  in_i64 alignment -> in_u64 factor ->
  (factor <= i64_max /\ in_i64 (alignment * factor) /\ scaled_offset alignment factor = Ok (alignment * factor)) \/
  (~ (factor <= i64_max /\ in_i64 (alignment * factor)) /\ exists msg, scaled_offset alignment factor = runtime_error msg).
Proof.
  intros Ha Hf. pose proof (scaled_offset_ok_iff alignment factor Ha Hf) as H.
  pose proof (scaled_offset_Ok alignment factor) as Hv.
  destruct (scaled_offset alignment factor) as [v|e|w|] eqn:E.
  - left. destruct (proj1 H eq_refl). rewrite (Hv v eq_refl). done.
  - right. split; [intros Hc; by apply H in Hc|]. unfold scaled_offset, throw_if in E.
    destruct (_ <? factor); [simplify_eq/=; by eexists|]. cbn [mbind res_bind] in E.
    destruct (_ && (alignment <? _)); [simplify_eq/=; by eexists|]. cbn [mbind res_bind] in E.
    destruct (_ && (_ <? alignment)); [simplify_eq/=; by eexists|done].
  - pose proof (scaled_offset_settles alignment factor) as Hs. by rewrite E in Hs.
  - pose proof (scaled_offset_settles alignment factor) as Hs. by rewrite E in Hs.
Qed.

Lemma scaled_offset_exact_witness :
  scaled_offset (-8) 1152921504606846976 = Ok (-9223372036854775808) /\
  exists msg, scaled_offset (-8) 1152921504606846977 = runtime_error msg.
Proof.
  split.
  - destruct (scaled_offset_exact (-8) 1152921504606846976) as [(_ & _ & H)|[H _]];
      [vm_compute; split; congruence..|exact H|exfalso; apply H; vm_compute; repeat split; congruence].
  - destruct (scaled_offset_exact (-8) 1152921504606846977) as [(_ & [H _] & _)|[_ H]];
      [vm_compute; split; congruence..|exfalso; by apply H|exact H].
Defined.


(** ** The interpreter is total *)


Section Readers.
Context (section : list byte) (limit : Z) (Hlim : limit_in section limit).

Lemma reads_read_scalar what n : 0 < n -> reads limit n (read_scalar what section limit n).
Proof. intros Hn. destruct Hlim. apply reads_scalar; [done|]. unfold i64_max, u64_max in *. lia. Qed.
Lemma reads_read_uleb : reads limit 1 (read_uleb section limit).
Proof. by apply reads_uleb, reads_read_scalar. Qed.
Lemma reads_read_sleb : reads limit 1 (read_sleb section limit).
Proof. by apply reads_sleb, reads_read_scalar. Qed.
Lemma reads_read_c_string what : reads limit 0 (read_c_string section limit what).
Proof. destruct Hlim. apply (reads_weaken _ 1); [lia|]. by apply reads_c_string. Qed.
Lemma reads_signed_value e what : reads limit 1 (read_signed_encoded_value section limit e what).
Proof.
  unfold read_signed_encoded_value. destruct (_ || _); [|destruct (_ || _); [|apply reads_throw]].
  - apply reads_bind_l; [lia| |intros; apply reads_ret]. apply (reads_weaken _ 4); [lia|]. by apply reads_read_scalar.
  - apply reads_bind_l; [lia| |intros; apply reads_ret]. apply (reads_weaken _ 8); [lia|]. by apply reads_read_scalar.
Qed.

Lemma reads_cie_augmentation l e : reads limit 0 (cie_augmentation section limit l e).
Proof.
  revert e. induction l as [|c l IH]; intros e; [apply reads_ret|]. simpl.
  assert (Hs : forall what, reads limit 0 (read_scalar what section limit 1)).
  { intros what. apply (reads_weaken _ 1); [lia|]. by apply reads_read_scalar. }
  destruct (Ascii.eqb c "P"); [|destruct (Ascii.eqb c "L"); [|destruct (Ascii.eqb c "R"); [|apply reads_throw]]];
    (apply reads_bind_l; [lia|apply Hs|intros x]);
    (apply reads_bind_l; [lia|apply reads_throw_if|intros _]); try apply IH.
  apply reads_bind_l; [lia| |intros; apply IH]. apply (reads_weaken _ 1); [lia|]. apply reads_signed_value.
Qed.

Lemma add_signed_settles a o what : settles (add_signed a o what).
Proof. unfold add_signed. settles_auto. Qed.
Lemma restore_rule_settles s i r : settles (restore_rule s i r).
Proof. unfold restore_rule. settles_auto. Qed.
Lemma advance_settles l u c t : settles (advance l u c t).
Proof. unfold advance. settles_auto. Qed.

Context (cie : Cie) (initial : option CfiState) (target : Z).

Lemma reads_offset_rule : reads limit 1 (offset_rule section limit cie).
Proof.
  apply reads_bind_l; [lia|apply reads_read_uleb|intros f].
  apply reads_bind_l; [lia|apply reads_settle_lift, scaled_offset_settles|intros; apply reads_ret].
Qed.
Lemma reads_cfa_offset_operand : reads limit 1 (cfa_offset_operand section limit).
Proof.
  apply reads_bind_l; [lia|apply reads_read_uleb|intros f].
  apply reads_bind_l; [lia|apply reads_throw_if|intros; apply reads_ret].
Qed.
Lemma reads_cfi_advance l u s k : reads limit 0 (cfi_advance cie target l u s k).
Proof. apply reads_bind_l; [lia|apply reads_settle_lift, advance_settles|intros; apply reads_ret]. Qed.

Lemma reads_execute_extended op l s k :
  reads limit 0 (execute_extended section limit cie initial target op l s k).
Proof.
  assert (H1 : forall what n, 0 < n -> reads limit 0 (read_scalar what section limit n)).
  { intros. apply (reads_weaken _ n); [lia|]. by apply reads_read_scalar. }
  assert (H2 : reads limit 0 (read_uleb section limit)) by (apply (reads_weaken _ 1); [lia|apply reads_read_uleb]).
  assert (H3 : reads limit 0 (offset_rule section limit cie)) by (apply (reads_weaken _ 1); [lia|apply reads_offset_rule]).
  assert (H4 : reads limit 0 (cfa_offset_operand section limit))
    by (apply (reads_weaken _ 1); [lia|apply reads_cfa_offset_operand]).
  assert (H5 : forall r, reads limit 0 (lift (restore_rule s initial r)))
    by (intros; apply reads_settle_lift, restore_rule_settles).
  unfold execute_extended.
  repeat first
    [ apply reads_ret | apply reads_throw | apply reads_throw_if | apply reads_cfi_advance | apply H1; lia | apply H2
    | apply H3 | apply H4 | apply H5
    | apply reads_bind_l; [lia| |intros ?]
    | match goal with |- reads _ _ (match ?x with _ => _ end) => destruct x end ].
Qed.

Lemma reads_execute_instruction l s k :
  reads limit 1 (execute_instruction section limit cie initial target l s k).
Proof.
  apply reads_bind_l; [lia|by apply reads_read_scalar|intros op]. cbv zeta.
  destruct (_ =? _); [apply reads_cfi_advance|]. destruct (_ =? _); [|destruct (_ =? _)].
  - apply reads_bind_l; [lia| |intros; apply reads_ret]. apply (reads_weaken _ 1); [lia|apply reads_offset_rule].
  - apply reads_bind_l; [lia|apply reads_settle_lift, restore_rule_settles|intros; apply reads_ret].
  - apply reads_execute_extended.
Qed.

Lemma execute_loop_yields fuel l s k c :
  0 <= c -> limit - c <= Z.of_nat fuel ->
  yields_at c (fun _ _ => True) (execute_loop section limit cie initial target fuel l s k).
Proof.
  revert l s k c. induction fuel as [|fuel IH]; intros l s k c Hc Hf; simpl; apply yields_at_mget;
    (destruct (Z.ltb_spec c limit); [|done]); [lia|].
  eapply yields_at_read; [apply reads_execute_instruction|done|].
  intros [s'|l' s' k'] c' Hc1 Hc2; [done|]. apply IH; lia.
Qed.
End Readers.

(** A CIE whose instructions are in the section. *)
Definition cie_in (section : list byte) (cie : Cie) : Prop :=
  0 <= instructions_begin cie /\ limit_in section (instructions_end cie).

Lemma execute_settles section b e cie s i l t :
  0 <= b -> limit_in section e -> settles (execute section b e cie s i l t).
Proof.
  intros Hb He. unfold execute, run_at.
  pose proof (execute_loop_yields section e He cie i t (Z.to_nat (e - b)) l s [] b Hb ltac:(lia)) as H.
  unfold yields_at in H. by destruct (execute_loop _ _ _ _ _ _ _ _ _ _) as [[]].
Qed.

Lemma parse_cie_yields section end_ c :
  limit_in section end_ -> 0 <= c ->
  yields_at c (fun cie c' => cie_in section cie /\ c <= c') (parse_cie section end_).
Proof.
  intros Hl Hc. unfold parse_cie.
  eapply yields_at_read; [by apply reads_read_scalar|done|intros ver c1 H1 H1'].
  apply yields_at_guard; intros _.
  eapply yields_at_read; [by apply reads_read_c_string|lia|intros aug c2 H2 H2'].
  destruct (String.list_ascii_of_string aug) as [|[[] [] [] [] [] [] [] []] descriptors]; try done.
  eapply yields_at_read; [by apply reads_read_uleb|lia|intros ca c3 H3 H3'].
  eapply yields_at_read; [by apply reads_read_sleb|lia|intros da c4 H4 H4'].
  eapply yields_at_read; [by apply reads_read_scalar|lia|intros rr c5 H5 H5'].
  eapply yields_at_read; [by apply reads_read_uleb|lia|intros size c6 H6 H6'].
  apply yields_at_mget, yields_at_guard; intros Hs%Z.ltb_ge. destruct Hl as [Hl Hsz].
  rewrite u64_small in Hs by (unfold in_u64, u64_max, i64_max in *; lia).
  eapply yields_at_read; [apply reads_cie_augmentation; split; [lia|done]|lia|intros [enc|] c7 H7 H7'; [|done]]. apply yields_at_mget, yields_at_guard; intros _.
  unfold yields_at, mret, M_ret, cie_in, limit_in. simpl. lia.
Qed.

Lemma parse_fde_yields section va end_ cie c :
  limit_in section end_ -> 0 <= c -> yields_at c (fun _ c' => 0 <= c') (parse_fde section va end_ cie).
Proof.
  intros Hl Hc. unfold parse_fde. apply yields_at_mget.
  eapply yields_at_read; [by apply reads_signed_value|lia|intros rel c1 H1 H1'].
  eapply yields_at_read; [apply (reads_settle_lift end_), add_signed_settles|lia|intros loc c2 H2 H2'].
  eapply yields_at_read; [by apply reads_signed_value|lia|intros range c3 H3 H3'].
  do 2 (apply yields_at_guard; intros _).
  eapply yields_at_read_val; [by apply reads_read_uleb|lia|apply read_uleb_with_value|intros size c4 [Hs _] H4 H4'].
  apply yields_at_mget, yields_at_guard; intros _.
  unfold yields_at. simpl. lia.
Qed.

Lemma run_at_yields {A} c (Q : A -> Z -> Prop) (m : M Z A) :
  yields_at c Q m -> yields (fun '(a, c') => Q a c') (run_at c m).
Proof. unfold yields_at, run_at. by destruct (m c) as [[]]. Qed.

(** What an entry of the section leaves the evaluation with. *)
Definition entry_in (section : list byte) (entry : Z) (found : eh_entry) : Prop :=
  match found with
  | EntryEnd => True
  | EntryCie cie end_ => cie_in section cie /\ entry < end_ <= size_of section
  | EntryFde cie _ _ cursor end_ => cie_in section cie /\ 0 <= cursor /\ entry < end_ <= size_of section
  end.

Lemma read_entry_yields section va cies entry :
  size_of section <= i64_max -> map_Forall (fun _ => cie_in section) cies -> 0 <= entry ->
  yields (entry_in section entry) (read_entry section va cies entry).
Proof.
  intros Hsz Hcies He. unfold read_entry.
  apply yields_bind with (fun length => 0 <= length).
  { unfold read_at, read_at_with. apply yields_guard; intros _. apply (le_at_u32 section entry). }
  intros length Hlen. destruct (Z.eqb_spec length 0); [done|]. apply yields_guard; intros _. cbv zeta.
  apply yields_guard; intros Hfit%Z.ltb_ge.
  assert (Hl : limit_in section (entry + 4 + length)) by (split; [lia|done]).
  eapply yields_bind.
  { apply run_at_yields, yields_at_reads; [by apply (reads_read_scalar section _ Hl)|lia]. }
  intros [cp cursor] [H1 H2]. destruct (_ =? 0).
  - eapply yields_bind; [apply run_at_yields, parse_cie_yields; [done|lia]|].
    intros [cie c'] [H3 H4]. simpl. split; [done|]. split; [lia|apply Hl].
  - apply yields_guard; intros _. destruct (cies !! _) as [cie|] eqn:Ec; [|done].
    eapply yields_bind; [apply run_at_yields, parse_fde_yields; [done|lia]|].
    intros [[loc range] c'] Hc'. simpl. split; [exact (Hcies _ _ Ec)|]. split; [done|]. split; [lia|apply Hl].
Qed.

Lemma read_word_settles bytes : settles (read_u64 bytes).
Proof. unfold read_u64. settles_auto. Qed.

Lemma cfi_row_settles section cursor end_ cie loc target :
  0 <= cursor -> limit_in section end_ -> cie_in section cie ->
  settles (cfi_row section cursor end_ cie loc target).
Proof.
  intros Hc Hl [H1 H2]. unfold cfi_row. apply settles_bind; [by apply execute_settles|intros s _].
  apply settles_bind; [by apply execute_settles|intros; settles_auto].
Qed.

Section Totality.
Context {S : Type} (read_memory : Z -> Z -> M S (list byte)).
Context (memory_settles : forall a n s, settles (fst (read_memory a n s))).

Definition always {A} (m : M S A) : Prop := forall s, settles (fst (m s)).

Lemma always_bind {A B} (m : M S A) (f : A -> M S B) : always m -> (forall a, always (f a)) -> always (m ≫= f).
Proof.
  intros Hm Hf s. specialize (Hm s). unfold mbind, M_bind. destruct (m s) as [[a|e|w|] s']; [apply Hf|done..].
Qed.
Lemma always_lift {A} (r : res A) : settles r -> always (lift r).
Proof. by intros H s. Qed.
Lemma always_throw_if b c msg : always (mthrow_if b c msg).
Proof. intros s. by destruct b. Qed.

Lemma read_cfi_slot_always a what : always (read_cfi_slot read_memory a what).
Proof.
  intros s. unfold read_cfi_slot, mcatch, mbind, M_bind. specialize (memory_settles a 8 s).
  destruct (read_memory a 8 s) as [[l|e|w|] s']; [|done..]. unfold lift.
  pose proof (read_word_settles l). by destruct (read_u64 l).
Qed.

Lemma resolve_frame_always section cursor end_ cie loc target read_register :
  (forall r, settles (read_register r)) -> 0 <= cursor -> limit_in section end_ -> cie_in section cie ->
  always (resolve_frame read_memory section cursor end_ cie loc target read_register).
Proof.
  intros Hr Hc Hl Hcie. unfold resolve_frame.
  apply always_bind; [by apply always_lift, cfi_row_settles|intros state].
  apply always_bind.
  { apply always_lift. unfold cfi_slots. apply settles_bind; [apply Hr|intros base _].
    apply settles_bind; [apply add_signed_settles|intros cfa _].
    destruct (rules state !! _) as [[[] off]|]; [done|done| |done].
    apply settles_bind; [apply add_signed_settles|done]. }
  intros [cfa slot]. apply always_bind; [apply read_cfi_slot_always|intros ra].
  apply always_bind; [apply always_throw_if|done].
Qed.

Lemma evaluate_loop_always fuel section va target read_register cies entry :
  (forall r, settles (read_register r)) -> size_of section <= i64_max ->
  map_Forall (fun _ => cie_in section) cies -> 0 <= entry -> size_of section - entry <= Z.of_nat fuel ->
  always (evaluate_loop read_memory fuel section va target read_register cies entry).
Proof.
  intros Hr Hsz. revert cies entry. induction fuel as [|fuel IH]; intros cies entry Hcies He Hf; simpl;
    (destruct (Z.ltb_spec entry (size_of section)); [|done]); [lia|].
  pose proof (read_entry_yields section va cies entry Hsz Hcies He) as Hy.
  destruct (read_entry section va cies entry) as [[|cie end_|cie loc range cursor end_]|e|w|]; try done; simpl in Hy.
  - destruct Hy as [Hcie Hend]. apply IH; [|lia..]. unfold Debugger.emplace. destruct (cies !! entry); [done|].
    by apply map_Forall_insert_2.
  - destruct Hy as (Hcie & Hc & Hend). intros s. rewrite run_lift_Ok.
    destruct ((loc <=? target) && (target <? loc + range)); [|by apply IH; [|lia..]].
    apply (always_bind (resolve_frame _ _ _ _ _ _ _ _)); [|done].
    by apply resolve_frame_always; [..|split; [lia|done]|].
Qed.

Lemma recover_register_always evaluated reg v what :
  always (recover_register read_memory evaluated reg v what).
Proof.
  unfold recover_register. destruct (rules _ !! _) as [[[] off]|]; [done|done| |done].
  apply always_bind; [apply always_lift, add_signed_settles|intros slot].
  apply always_bind; [apply read_cfi_slot_always|done].
Qed.

Lemma caller_frame_with_always eh pc current s :
  size_of (eh_section eh) <= i64_max -> settles (fst (caller_frame_with eh read_memory pc current s)).
Proof.
  intros Hsz. revert s. change (always (caller_frame_with eh read_memory pc current)).
  unfold caller_frame_with. destruct (negb _); [done|]. apply always_bind.
  - apply evaluate_loop_always; [|done|apply map_Forall_empty|lia|unfold size_of; lia].
    intros r. unfold cursor_register. settles_auto; by destruct (_ : option _).
  - intros [evaluated|]; [|done]. apply always_bind; [apply recover_register_always|intros fp].
    apply always_bind; [apply recover_register_always|done].
Qed.

(** unwinding one frame always ends with a caller frame, with the answer that there
    is none, or with an exception, whatever bytes the section and the stack hold,
    provided each read of memory does. *)
Theorem caller_frame_with_settles eh pc current s :
  size_of (eh_section eh) <= i64_max -> settles (fst (caller_frame_with eh read_memory pc current s)).
Proof. apply caller_frame_with_always. Qed.
End Totality.
