(* ===== verification/EhFrameSignal.v ===== *)
(** * Signal frames in [.eh_frame] ([src/dwarf/eh_frame_signal.hpp])

    The index that tells whether an address is in a signal frame: it reads the entries of
    the section as [EhFrame] does, but accepts the [S] descriptor of a CIE and never
    looks at the instructions.  The readers of its namespace [eh_signal_detail] are word
    for word those of [src/dwarf/eh_frame.cpp]; they are the definitions of [EhFrame]
    here.  The names of this file are used qualified. *)

From S2P Require Import Prelude Machine ByteReader ElfFormat.
From S2P Require Import Debugger EhFrame.

(* src/dwarf/eh_frame_signal.hpp:25-28 CieMetadata *)
Record CieMetadata := mkMetadata { fde_encoding : Z; signal_frame : bool }.

(** ** The readers *)

(* src/dwarf/eh_frame_signal.hpp:30-39 read_at *)
Definition read_at : string -> list byte -> Z -> Z -> res Z := EhFrame.read_at.
(* src/dwarf/eh_frame_signal.hpp:41-50 read_scalar *)
Definition read_scalar : string -> list byte -> Z -> Z -> M Z Z := EhFrame.read_scalar.
(* src/dwarf/eh_frame_signal.hpp:52-67 read_uleb *)
Definition read_uleb : list byte -> Z -> M Z Z := EhFrame.read_uleb.
(* src/dwarf/eh_frame_signal.hpp:69-85 read_sleb *)
Definition read_sleb : list byte -> Z -> M Z Z := EhFrame.read_sleb.
(* src/dwarf/eh_frame_signal.hpp:87-97 read_c_string *)
Definition read_c_string : list byte -> Z -> string -> M Z string := EhFrame.read_c_string.
(* src/dwarf/eh_frame_signal.hpp:99-101 signed_pcrel_encoding *)
Definition signed_pcrel_encoding (encoding : Z) : bool :=
  (encoding =? kPcrelSdata4) || (encoding =? kPcrelSdata8).
(* src/dwarf/eh_frame_signal.hpp:103-105 indirect_signed_pcrel_encoding *)
Definition indirect_signed_pcrel_encoding (encoding : Z) : bool :=
  (encoding =? kPcrelIndirectSdata4) || (encoding =? kPcrelIndirectSdata8).

(* src/dwarf/eh_frame_signal.hpp:107-120 read_signed_pointer *)
Definition read_signed_pointer (bytes : list byte) (limit encoding : Z) (what : string) : M Z Z :=
  if (encoding =? kPcrelSdata4) || (encoding =? kPcrelIndirectSdata4) then
    value ← read_scalar what bytes limit 4; mret (to_signed 32 value)
  else if (encoding =? kPcrelSdata8) || (encoding =? kPcrelIndirectSdata8) then
    value ← read_scalar what bytes limit 8; mret (i64 value)
  else mthrow RuntimeError "unsupported signal-frame CFI pointer encoding".

(* src/dwarf/eh_frame_signal.hpp:122-136 add_signed *)
Definition add_signed : Z -> Z -> string -> res Z := EhFrame.add_signed.

(** ** Finding the section *)

(* src/dwarf/eh_frame_signal.hpp:181-198 find_eh_frame *)
Definition named_eh_frame : list byte -> Elf64_Shdr -> Z -> Z -> list Elf64_Shdr -> res (option (Z * list byte)) :=
  EhFrame.named_eh_frame.

(* src/dwarf/eh_frame_signal.hpp:153-199 find_eh_frame *)
Definition find_eh_frame (bytes : list byte) : res (option (Z * list byte)) :=
  header ← read_struct_at "ELF header" sizeof_Ehdr ehdr_at bytes 0;
  _ ← throw_if (negb (has_elf_magic header) || negb (ident header EI_CLASS =? ELFCLASS64) ||
                negb (ident header EI_DATA =? ELFDATA2LSB) || negb (e_machine header =? EM_X86_64))
        (Exn RuntimeError "signal-frame metadata requires little-endian x86-64 ELF64");
  if (e_shnum header =? 0) || (e_shstrndx header =? SHN_UNDEF) then Ok None
  else
    _ ← throw_if (negb (e_shentsize header =? sizeof_Shdr) || (e_shstrndx header =? SHN_XINDEX) ||
                  (e_shnum header <=? e_shstrndx header))
          (Exn RuntimeError "unsupported ELF section layout for signal-frame metadata");
    sections ← mapM (fun index => read_struct_at "ELF section header" sizeof_Shdr shdr_at bytes
                        (u64 (e_shoff header + Z.of_nat index * sizeof_Shdr)))
                 (seq 0 (Z.to_nat (e_shnum header)));
    match sections !! Z.to_nat (e_shstrndx header) with
    | None => Undef "vector index out of range"
    | Some names =>
      _ ← throw_if (out_of_bounds bytes (sh_offset names) (sh_size names))
            (Exn RuntimeError "ELF section-name table extends past end of file");
      named_eh_frame bytes names (sh_offset names) (sh_offset names + sh_size names) sections
    end.

(** ** Entries *)

(** The descriptors after the [z]: the encoding of FDE pointers once one gives it, and
    whether there was an [S]. *)
(* src/dwarf/eh_frame_signal.hpp:221-257 parse_cie_metadata *)
Fixpoint cie_augmentation (bytes : list byte) (augmentation_end : Z) (augmentation : list ascii)
    (encoding : option Z) (signal : bool) : M Z (option Z * bool) :=
  match augmentation with
  | [] => mret (encoding, signal)
  | c :: augmentation =>
    if Ascii.eqb c "P" then
      e ← read_scalar "personality encoding" bytes augmentation_end 1;
      _ ← mthrow_if (negb (indirect_signed_pcrel_encoding e)) RuntimeError
            "unsupported .eh_frame personality pointer encoding";
      _ ← read_signed_pointer bytes augmentation_end e "personality pointer";
      cie_augmentation bytes augmentation_end augmentation encoding signal
    else if Ascii.eqb c "L" then
      e ← read_scalar "LSDA encoding" bytes augmentation_end 1;
      _ ← mthrow_if (negb (signed_pcrel_encoding e)) RuntimeError
            "unsupported .eh_frame LSDA pointer encoding";
      cie_augmentation bytes augmentation_end augmentation encoding signal
    else if Ascii.eqb c "R" then
      e ← read_scalar "FDE encoding" bytes augmentation_end 1;
      _ ← mthrow_if (negb (signed_pcrel_encoding e)) RuntimeError
            "unsupported .eh_frame FDE pointer encoding";
      cie_augmentation bytes augmentation_end augmentation (Some e) signal
    else if Ascii.eqb c "S" then
      cie_augmentation bytes augmentation_end augmentation encoding true
    else mthrow RuntimeError "unsupported .eh_frame CIE augmentation descriptor"
  end.

(* src/dwarf/eh_frame_signal.hpp:201-265 parse_cie_metadata *)
Definition parse_cie_metadata (bytes : list byte) (end_ : Z) : M Z CieMetadata :=
  version ← read_scalar "CIE version" bytes end_ 1;
  _ ← mthrow_if (negb (version =? 1)) RuntimeError "only .eh_frame CIE version 1 is supported";
  augmentation ← read_c_string bytes end_ "CIE augmentation";
  match String.list_ascii_of_string augmentation with
  | "z"%char :: descriptors =>
    _ ← read_uleb bytes end_;
    _ ← read_sleb bytes end_;
    _ ← read_scalar "CIE return register" bytes end_ 1;
    augmentation_size ← read_uleb bytes end_;
    cursor ← mget;
    _ ← mthrow_if (u64 (end_ - cursor) <? augmentation_size) RuntimeError
          "CIE augmentation extends past entry boundary";
    let augmentation_end := cursor + augmentation_size in
    '(encoding, signal) ← cie_augmentation bytes augmentation_end descriptors None false;
    match encoding with
    | None => mthrow RuntimeError "CIE augmentation does not define an FDE pointer encoding"
    | Some fde_encoding =>
      cursor ← mget;
      _ ← mthrow_if (negb (cursor =? augmentation_end)) RuntimeError
            "unexpected trailing CIE augmentation data";
      mret (mkMetadata fde_encoding signal)
    end
  | _ => mthrow RuntimeError "only z-prefixed .eh_frame augmentation is supported"
  end.

(** The start and the size of the range of an FDE. *)
(* src/dwarf/eh_frame_signal.hpp:312-326 EhFrameSignalIndex::is_signal_frame *)
Definition parse_fde_range (section : list byte) (section_virtual_address end_ : Z) (cie : CieMetadata)
    : M Z (Z * Z) :=
  cursor ← mget;
  let field_virtual_address := u64 (section_virtual_address + cursor) in
  relative ← read_signed_pointer section end_ (fde_encoding cie) "FDE initial location";
  initial_location ← lift (add_signed field_virtual_address relative "FDE start");
  signed_range ← read_signed_pointer section end_ (fde_encoding cie) "FDE address range";
  _ ← mthrow_if (signed_range <? 0) RuntimeError "negative FDE address range";
  _ ← mthrow_if (u64_max - initial_location <? signed_range) RuntimeError
        "FDE address range overflows address space";
  mret (initial_location, signed_range).

Inductive signal_entry :=
  | SignalEnd
  | SignalCie (cie : CieMetadata) (end_ : Z)
  | SignalFde (cie : CieMetadata) (initial_location range end_ : Z).

(* src/dwarf/eh_frame_signal.hpp:286-326 EhFrameSignalIndex::is_signal_frame *)
Definition read_entry (section : list byte) (section_virtual_address : Z) (cies : gmap Z CieMetadata) (entry : Z)
    : res signal_entry :=
  length ← read_at ".eh_frame length" section entry 4;
  if length =? 0 then Ok SignalEnd
  else
    _ ← throw_if (length =? 0xffffffff) (Exn RuntimeError "DWARF64 .eh_frame is unsupported");
    let content := entry + 4 in
    _ ← throw_if (size_of section - content <? length)
          (Exn RuntimeError ".eh_frame entry extends past section boundary");
    let end_ := content + length in
    '(cie_pointer, cursor) ← run_at content (read_scalar "CIE pointer" section end_ 4);
    if cie_pointer =? 0 then
      '(cie, _) ← run_at cursor (parse_cie_metadata section end_);
      Ok (SignalCie cie end_)
    else
      _ ← throw_if (content <? cie_pointer) (Exn RuntimeError "FDE CIE pointer underflows section");
      match cies !! (content - cie_pointer) with
      | None => runtime_error "FDE references an unknown CIE"
      | Some cie =>
        '((initial_location, range), _) ← run_at cursor (parse_fde_range section section_virtual_address end_ cie);
        Ok (SignalFde cie initial_location range end_)
      end.

(** Every entry has a length field of four bytes, so there are fewer entries than
    bytes in the section. *)
(* src/dwarf/eh_frame_signal.hpp:283-332 EhFrameSignalIndex::is_signal_frame *)
Fixpoint signal_loop (fuel : nat) (section : list byte) (section_virtual_address target : Z)
    (cies : gmap Z CieMetadata) (entry : Z) : res bool :=
  if entry <? size_of section then
    match fuel with
    | O => OutOfFuel
    | S fuel =>
      found ← read_entry section section_virtual_address cies entry;
      match found with
      | SignalEnd => Ok false
      | SignalCie cie end_ =>
        signal_loop fuel section section_virtual_address target (emplace entry cie cies) end_
      | SignalFde cie initial_location range end_ =>
        if (initial_location <=? target) && (target <? initial_location + range) then Ok (signal_frame cie)
        else signal_loop fuel section section_virtual_address target cies end_
      end
    end
  else Ok false.

(** ** [EhFrameSignalIndex] *)

(* src/dwarf/eh_frame_signal.hpp:335-338 EhFrameSignalIndex *)
Record EhFrameSignalIndex := mkSignalIndex {
  signal_section : list byte;
  signal_section_virtual_address : Z;
  signal_available : bool
}.

(* src/dwarf/eh_frame_signal.hpp:281-333 EhFrameSignalIndex::is_signal_frame *)
Definition is_signal_frame (index : EhFrameSignalIndex) (target : Z) : res bool :=
  if negb (signal_available index) then Ok false
  else signal_loop (length (signal_section index)) (signal_section index) (signal_section_virtual_address index)
         target ∅ 0.

Section Open.
Context `{H : Host}.

(* src/dwarf/eh_frame_signal.hpp:138-151 read_file *)
Definition read_file : string -> res (list byte) := EhFrame.read_file.

(* src/dwarf/eh_frame_signal.hpp:271-277 EhFrameSignalIndex::EhFrameSignalIndex *)
Definition open_signal_index (path : string) : res EhFrameSignalIndex :=
  bytes ← read_file path;
  section ← find_eh_frame bytes;
  Ok match section with
     | None => mkSignalIndex [] 0 false
     | Some (address, section) => mkSignalIndex section address true
     end.
End Open.
