(* ===== verification/CfaProgram.v ===== *)
(** * CFA programs

    The instructions of a CFA program, their encoding, and the table of rows a program
    denotes, as the DWARF standard describes it.  The interpreter of [EhFrame] run on
    the encoding of a program returns the row of the table that covers the target. *)

From S2P Require Import Prelude Machine ByteReader ElfFormat EhFrame EhFrameProofs.

Inductive cfa_insn :=
  | Nop
  | AdvanceLoc (units : Z)
  | OffsetAt (reg factor : Z)
  | Restore (reg : Z)
  | Undefine (reg : Z)
  | SameValue (reg : Z)
  | RememberState
  | RestoreState
  | DefCfa (reg offset : Z)
  | DefCfaRegister (reg : Z)
  | DefCfaOffset (offset : Z)
  | ArgsSize (size : Z).

(** ** Encoding *)

Definition uleb (z : Z) : list byte := encode_uleb 10 z.

Definition encode_insn (i : cfa_insn) : list byte :=
  match i with
  | Nop => [byte_of_Z 0x00]
  | AdvanceLoc u =>
    if u <? 64 then [byte_of_Z (0x40 + u)]
    else if u <? 256 then byte_of_Z 0x02 :: le_split 1 u
    else if u <? 65536 then byte_of_Z 0x03 :: le_split 2 u
    else byte_of_Z 0x04 :: le_split 4 u
  | OffsetAt r f => if r <? 64 then byte_of_Z (0x80 + r) :: uleb f else byte_of_Z 0x05 :: uleb r ++ uleb f
  | Restore r => if r <? 64 then [byte_of_Z (0xc0 + r)] else byte_of_Z 0x06 :: uleb r
  | Undefine r => byte_of_Z 0x07 :: uleb r
  | SameValue r => byte_of_Z 0x08 :: uleb r
  | RememberState => [byte_of_Z 0x0a]
  | RestoreState => [byte_of_Z 0x0b]
  | DefCfa r o => byte_of_Z 0x0c :: uleb r ++ uleb o
  | DefCfaRegister r => byte_of_Z 0x0d :: uleb r
  | DefCfaOffset o => byte_of_Z 0x0e :: uleb o
  | ArgsSize n => byte_of_Z 0x2e :: uleb n
  end.

Fixpoint encode_program (p : list cfa_insn) : list byte :=
  match p with
  | [] => []
  | i :: p => encode_insn i ++ encode_program p
  end.

(** The operands fit the encoding. *)
Definition insn_fits (i : cfa_insn) : Prop :=
  match i with
  | AdvanceLoc u => 0 <= u < 2 ^ 32
  | OffsetAt r f => in_u64 r /\ in_u64 f
  | DefCfa r o => in_u64 r /\ in_u64 o
  | Restore r | Undefine r | SameValue r | DefCfaRegister r | DefCfaOffset r | ArgsSize r => in_u64 r
  | Nop | RememberState | RestoreState => True
  end.

(** ** The table of a program *)

Definition guard_some {A} (b : bool) (a : A) : option A := if b then Some a else None.

(** The location, the row and the saved rows after an instruction; [None]: the program
    has no meaning. *)
Definition insn_step (code_align data_align : Z) (initial : option CfiState) (i : cfa_insn)
    (loc : Z) (s : CfiState) (saved : list CfiState) : option (Z * CfiState * list CfiState) :=
  match i with
  | Nop | ArgsSize _ => Some (loc, s, saved)
  | AdvanceLoc u =>
    guard_some (negb (code_align =? 0) && (loc + u * code_align <=? u64_max)) (loc + u * code_align, s, saved)
  | OffsetAt r f =>
    guard_some ((f <=? i64_max) && (i64_min <=? data_align * f) && (data_align * f <=? i64_max))
      (loc, set_rule r (mkRule RuleOffset (data_align * f)) s, saved)
  | Restore r =>
    init ← initial;
    Some (loc, mkCfi (cfa_defined s) (cfa_register s) (cfa_offset s)
                 (partial_alter (fun _ => rules init !! r) r (rules s)), saved)
  | Undefine r => Some (loc, set_rule r (mkRule RuleUndefined 0) s, saved)
  | SameValue r => Some (loc, set_rule r (mkRule RuleSameValue 0) s, saved)
  | RememberState => Some (loc, s, s :: saved)
  | RestoreState => match saved with [] => None | s' :: saved => Some (loc, s', saved) end
  | DefCfa r o => guard_some (o <=? i64_max) (loc, mkCfi true r o (rules s), saved)
  | DefCfaRegister r => guard_some (cfa_defined s) (loc, mkCfi true r (cfa_offset s) (rules s), saved)
  | DefCfaOffset o =>
    guard_some (cfa_defined s && (o <=? i64_max)) (loc, mkCfi true (cfa_register s) o (rules s), saved)
  end.

(** The rows of the table with the first location each is for: a row is complete when
    the location advances, and at the end. *)
Fixpoint table_of (code_align data_align : Z) (initial : option CfiState) (p : list cfa_insn)
    (loc : Z) (s : CfiState) (saved : list CfiState) : option (list (Z * CfiState)) :=
  match p with
  | [] => Some [(loc, s)]
  | i :: p =>
    '(loc', s', saved') ← insn_step code_align data_align initial i loc s saved;
    table ← table_of code_align data_align initial p loc' s' saved';
    Some (match i with AdvanceLoc _ => (loc, s) :: table | _ => table end)
  end.

(** The last row that starts at or before the target. *)
Definition row_for (target : Z) (table : list (Z * CfiState)) : option CfiState :=
  snd <$> last (filter (fun r => r.1 <= target) table).

(** ** Reading what is encoded *)

(** The section holds [l] at [c], before [limit]. *)
Definition holds (section : list byte) (limit c : Z) (l : list byte) : Prop :=
  0 <= c /\ c + size_of l <= limit /\
  forall i b, l !! i = Some b -> section !! (Z.to_nat c + i)%nat = Some b.

Lemma size_of_app {A} (a b : list A) : size_of (a ++ b) = size_of a + size_of b.
Proof. unfold size_of. rewrite length_app. lia. Qed.

Lemma holds_app section limit c l1 l2 :
  holds section limit c (l1 ++ l2) -> holds section limit c l1 /\ holds section limit (c + size_of l1) l2.
Proof.
  intros (H1 & H2 & H3). rewrite size_of_app in H2. unfold holds, size_of in *.
  split; (split; [lia|]; split; [lia|]); intros i b Hi.
  - apply H3. by apply lookup_app_l_Some.
  - replace (Z.to_nat (c + Z.of_nat (length l1)) + i)%nat with (Z.to_nat c + (length l1 + i))%nat by lia.
    apply H3. rewrite lookup_app_r by lia. by replace (length l1 + i - length l1)%nat with i by lia.
Qed.

Lemma holds_take section limit c l :
  holds section limit c l -> take (length l) (drop (Z.to_nat c) section) = l.
Proof.
  intros (H1 & H2 & H3). apply list_eq. intros i. destruct (decide (i < length l)%nat) as [Hi|Hi].
  - rewrite lookup_take_lt, lookup_drop by done. destruct (lookup_lt_is_Some_2 l i Hi) as [b Hb].
    rewrite Hb. by apply H3.
  - rewrite lookup_take_ge by lia. symmetry. apply lookup_ge_None. lia.
Qed.

Section Reading.
Context (section : list byte) (limit : Z) (Hlim : limit_in section limit).

Lemma read_scalar_holds what c l n :
  holds section limit c l -> size_of l = n -> 0 < n ->
  read_scalar what section limit n c = (Ok (le_combine l), c + n).
Proof.
  intros Hh Hn Hpos. pose proof (holds_take _ _ _ _ Hh) as Ht. destruct Hh as (H1 & H2 & H3). destruct Hlim as [Hl Hs].
  unfold read_scalar, read_scalar_with. mrun.
  destruct (Z.ltb_spec limit c), (Z.ltb_spec (limit - c) n); simpl; try lia.
  unfold read_at_with, throw_if. replace (out_of_bounds section c n) with false
    by (symmetry; unfold out_of_bounds; apply orb_false_iff; rewrite !Z.ltb_ge; lia).
  unfold le_at. rewrite <- Hn. unfold size_of. rewrite Nat2Z.id, Ht. cbn.
  unfold modify, mret, M_ret, mbind, M_bind, lift.
  rewrite u64_small by (unfold in_u64, u64_max, size_of, i64_max in *; lia). done.
Qed.

Lemma read_byte_holds what c z l :
  holds section limit c (byte_of_Z z :: l) -> 0 <= z < 256 ->
  read_scalar what section limit 1 c = (Ok z, c + 1) /\ holds section limit (c + 1) l.
Proof.
  intros Hh Hz. apply (holds_app _ _ _ [byte_of_Z z]) in Hh as [H1 H2]. split; [|done].
  rewrite (read_scalar_holds what c [byte_of_Z z] 1) by done. cbn [le_combine].
  rewrite byte_val_of_Z, Z.mod_small by lia. by rewrite Z.mul_0_r, Z.add_0_r.
Qed.

Lemma feeds_holds what c l : holds section limit c l -> feeds (read_scalar what section limit 1) c l.
Proof.
  intros (H1 & H2 & H3) i b Hi. pose proof (lookup_lt_Some _ _ _ Hi). unfold size_of in *.
  rewrite (read_scalar_holds what _ [b] 1); [cbn; do 2 f_equal; lia| |done|lia].
  split; [lia|]. split; [unfold size_of; cbn; lia|].
  intros j x Hj. destruct j as [|j]; [|by destruct j]. injection Hj as <-.
  replace (Z.to_nat (c + Z.of_nat i) + 0)%nat with (Z.to_nat c + i)%nat by lia. by apply H3.
Qed.

(** The unsigned LEB128 reader of the section inverts the encoder. *)
Lemma read_uleb_holds c z l :
  holds section limit c (uleb z ++ l) -> in_u64 z ->
  read_uleb section limit c = (Ok z, c + size_of (uleb z)) /\ holds section limit (c + size_of (uleb z)) l.
Proof.
  intros [H1 H2]%holds_app Hz. split; [|done]. by apply read_uleb_encode, feeds_holds.
Qed.
End Reading.

Lemma opcode_bits b : 0 <= b < 256 -> Z.land b 0xc0 = b / 64 * 64 /\ Z.land b 0x3f = b mod 64.
Proof.
  intros Hb. assert (H : forallb (fun n => let b := Z.of_nat n in
    (Z.land b 0xc0 =? b / 64 * 64) && (Z.land b 0x3f =? b mod 64)) (seq 0 256) = true) by (vm_compute; reflexivity).
  rewrite forallb_forall in H. specialize (H (Z.to_nat b)). cbn zeta in H.
  rewrite Z2Nat.id in H by lia. rewrite andb_true_iff in H.
  destruct H as [H1%Z.eqb_eq H2%Z.eqb_eq]; [apply in_seq; lia|done].
Qed.

(** ** Executing one instruction *)

Section Execute.
Context (section : list byte) (limit : Z) (Hlim : limit_in section limit).
Context (cie : Cie) (initial : option CfiState) (target : Z).
Context (Hca : in_u64 (code_alignment cie)) (Hda : in_i64 (data_alignment cie)) (Htarget : in_u64 target).

#[local] Abbreviation exec := (execute_instruction section limit cie initial target).
#[local] Abbreviation extended := (execute_extended section limit cie initial target).
#[local] Abbreviation next loc s s' saved := (if target <? loc then CfiReturn s else CfiNext loc s' saved).

(** The dispatch on the opcode, by its two high bits. *)
Lemma exec_opcode z loc s saved c l :
  holds section limit c (byte_of_Z z :: l) -> 0 <= z < 64 ->
  exec loc s saved c = extended z loc s saved (c + 1) /\ holds section limit (c + 1) l.
Proof.
  intros Hh Hz. destruct (read_byte_holds section limit Hlim "CFI opcode" c z l Hh ltac:(lia)) as [E Hh'].
  split; [|done]. unfold execute_instruction. erewrite run_Ok by exact E. cbv zeta.
  destruct (opcode_bits z ltac:(lia)) as [-> _]. by rewrite (Z.div_small z 64) by lia.
Qed.

Lemma exec_primary z q r loc s saved c l :
  holds section limit c (byte_of_Z z :: l) -> z = 64 * q + r -> 0 <= r < 64 -> 1 <= q <= 3 ->
  exec loc s saved c =
    (if q =? 1 then cfi_advance cie target loc r s saved
     else if q =? 2 then
       rule ← offset_rule section limit cie; mret (CfiNext loc (set_rule r rule s) saved)
     else s' ← lift (restore_rule s initial r); mret (CfiNext loc s' saved)) (c + 1) /\
  holds section limit (c + 1) l.
Proof.
  intros Hh -> Hr Hq. destruct (read_byte_holds section limit Hlim "CFI opcode" c _ l Hh ltac:(lia)) as [E Hh'].
  split; [|done]. unfold execute_instruction. erewrite run_Ok by exact E. cbv zeta.
  destruct (opcode_bits (64 * q + r) ltac:(lia)) as [-> ->].
  replace ((64 * q + r) / 64) with q by dlia. replace ((64 * q + r) mod 64) with r by dlia.
  assert (q = 1 \/ q = 2 \/ q = 3) as [-> | [-> | ->]] by lia; done.
Qed.

Lemma cfi_advance_small loc u s saved c :
  0 <= u -> loc <= u64_max -> code_alignment cie <> 0 -> loc + u * code_alignment cie <= u64_max -> 0 <= loc ->
  cfi_advance cie target loc u s saved c =
    (Ok (next (loc + u * code_alignment cie) s s saved), c).
Proof.
  intros Hu Hl Hne Hsum H0. unfold in_u64 in Hca. unfold cfi_advance, advance, throw_if.
  destruct (Z.eqb_spec (code_alignment cie) 0); [done|]. simpl.
  assert (u <= u64_max / code_alignment cie) by (apply Z.div_le_lower_bound; lia).
  destruct (Z.ltb_spec (u64_max / code_alignment cie) u); [lia|]. simpl.
  destruct (Z.ltb_spec (u64_max - loc) (u * code_alignment cie)); [lia|]. simpl.
  unfold lift, mret, M_ret, mbind, M_bind. by destruct (target <? _).
Qed.

Lemma offset_rule_holds f c l :
  holds section limit c (uleb f ++ l) -> in_u64 f -> f <= i64_max -> in_i64 (data_alignment cie * f) ->
  offset_rule section limit cie c = (Ok (mkRule RuleOffset (data_alignment cie * f)), c + size_of (uleb f)).
Proof.
  intros Hh Hf Hmax Hprod. destruct (read_uleb_holds section limit Hlim c f l Hh Hf) as [E _].
  unfold offset_rule. erewrite run_Ok by exact E.
  destruct (scaled_offset (data_alignment cie) f) as [v|e|w|] eqn:Es.
  - apply scaled_offset_Ok in Es as ->. done.
  - pose proof (proj2 (scaled_offset_ok_iff (data_alignment cie) f Hda Hf) (conj Hmax Hprod)) as H. by rewrite Es in H.
  - pose proof (scaled_offset_settles (data_alignment cie) f) as H. by rewrite Es in H.
  - pose proof (scaled_offset_settles (data_alignment cie) f) as H. by rewrite Es in H.
Qed.

Lemma cfa_offset_operand_holds o c l :
  holds section limit c (uleb o ++ l) -> in_u64 o -> o <= i64_max ->
  cfa_offset_operand section limit c = (Ok o, c + size_of (uleb o)).
Proof.
  intros Hh Ho Hmax. destruct (read_uleb_holds section limit Hlim c o l Hh Ho) as [E _].
  unfold cfa_offset_operand. erewrite run_Ok by exact E. mrun. by destruct (Z.ltb_spec i64_max o); [lia|].
Qed.

Lemma restore_rule_partial_alter s init r :
  restore_rule s (Some init) r =
    Ok (mkCfi (cfa_defined s) (cfa_register s) (cfa_offset s)
          (partial_alter (fun _ => rules init !! r) r (rules s))).
Proof. unfold restore_rule. by destruct (rules init !! r). Qed.

Lemma exec_advance u loc s saved c l :
  holds section limit c (encode_insn (AdvanceLoc u) ++ l) -> 0 <= u < 2 ^ 32 ->
  exec loc s saved c = cfi_advance cie target loc u s saved (c + size_of (encode_insn (AdvanceLoc u))).
Proof.
  intros Hh Hu. cbn [encode_insn] in *. change (2 ^ 32) with 4294967296 in Hu.
  assert (Hwide : forall op n what, (forall loc s saved, extended op loc s saved =
       (units ← read_scalar what section limit (Z.of_nat n); cfi_advance cie target loc units s saved)) ->
     0 <= op < 64 -> (0 < n)%nat -> u < 256 ^ Z.of_nat n ->
     holds section limit c (byte_of_Z op :: le_split n u ++ l) ->
     exec loc s saved c = cfi_advance cie target loc u s saved (c + size_of (byte_of_Z op :: le_split n u))).
  { intros op n what Hop Hr Hn Hfit Hh'. destruct (exec_opcode op loc s saved c _ Hh' Hr) as [-> [H1 _]%holds_app].
    assert (Hlen : size_of (le_split n u) = Z.of_nat n) by (unfold size_of; by rewrite length_le_split).
    rewrite Hop. erewrite run_Ok by (apply (read_scalar_holds section limit Hlim what _ _ (Z.of_nat n) H1); lia || done).
    rewrite le_combine_split, Z.mod_small by lia. f_equal. unfold size_of in *. cbn [length]. lia. }
  destruct (Z.ltb_spec u 64).
  - destruct (exec_primary (0x40 + u) 1 u loc s saved c l Hh) as [-> _]; [lia..|done].
  - destruct (Z.ltb_spec u 256); [by apply (Hwide 2 1%nat "advance_loc1"); [done|lia..|]|].
    destruct (Z.ltb_spec u 65536); [by apply (Hwide 3 2%nat "advance_loc2"); [done|lia..|]|].
    by apply (Hwide 4 4%nat "advance_loc4"); [done|lia..|].
Qed.
#[local] Abbreviation step i loc s saved := (insn_step (code_alignment cie) (data_alignment cie) initial i loc s saved).
(** The effect of an instruction without an advance, at its opcode. *)
#[local] Abbreviation does i loc s saved c loc' s' saved' :=
  (exec loc s saved c = (Ok (CfiNext loc' s' saved'), c + size_of (encode_insn i))).

Lemma size_cons {A} (x : A) l : size_of (x :: l) = 1 + size_of l.
Proof. unfold size_of. cbn [length]. lia. Qed.

(** Reads the LEB128 operands of an instruction. *)
Ltac operand Hh E := let H := fresh in
  match type of Hh with holds _ _ ?c (uleb ?z ++ ?l) =>
    destruct (read_uleb_holds section limit Hlim c z l Hh ltac:(done)) as [E H]; clear Hh; rename H into Hh end.
Ltac sizes := rewrite ?size_cons, ?size_of_app; unfold size_of; cbn [length]; lia.

Lemma exec_offset_at r f loc s saved c l loc' s' saved' :
  holds section limit c (encode_insn (OffsetAt r f) ++ l) -> in_u64 r -> in_u64 f ->
  step (OffsetAt r f) loc s saved = Some (loc', s', saved') -> does (OffsetAt r f) loc s saved c loc' s' saved'.
Proof.
  intros Hh Hr Hf. cbn [insn_step]. unfold guard_some. destruct (_ && _) eqn:Hg; [|done]. intros [= <- <- <-].
  apply andb_true_iff in Hg as [[H1%Z.leb_le H2%Z.leb_le]%andb_true_iff H3%Z.leb_le].
  assert (Hp : in_i64 (data_alignment cie * f)) by done. cbn [encode_insn] in *.
  destruct (Z.ltb_spec r 64).
  - unfold in_u64 in Hr. destruct (exec_primary (0x80 + r) 2 r loc s saved c _ Hh) as [-> Hh']; [lia..|].
    cbn [Z.eqb Pos.eqb]. erewrite run_Ok by (by eapply offset_rule_holds). unfold mret, M_ret. f_equal. sizes.
  - cbn [app] in Hh. rewrite <- app_assoc in Hh.
    destruct (exec_opcode 5 loc s saved c _ Hh ltac:(lia)) as [-> Hh']. operand Hh' E.
    cbn [execute_extended]. erewrite run_Ok by exact E. erewrite run_Ok by (by eapply offset_rule_holds).
    unfold mret, M_ret. f_equal. sizes.
Qed.

Lemma exec_restore r loc s saved c l loc' s' saved' :
  holds section limit c (encode_insn (Restore r) ++ l) -> in_u64 r ->
  step (Restore r) loc s saved = Some (loc', s', saved') -> does (Restore r) loc s saved c loc' s' saved'.
Proof.
  intros Hh Hr. cbn [insn_step]. destruct initial as [init|] eqn:Ei; [|done]. intros [= <- <- <-].
  cbn [encode_insn] in *. destruct (Z.ltb_spec r 64).
  - unfold in_u64 in Hr. destruct (exec_primary (0xc0 + r) 3 r loc s saved c _ Hh) as [E _]; [lia..|]. rewrite Ei in E.
    rewrite E. cbn [Z.eqb Pos.eqb]. rewrite restore_rule_partial_alter. unfold mret, M_ret. cbn. f_equal.
  - cbn [app] in Hh. destruct (exec_opcode 6 loc s saved c _ Hh ltac:(lia)) as [E1 Hh']. rewrite Ei in E1. rewrite E1. operand Hh' E.
    cbn [execute_extended]. erewrite run_Ok by exact E. rewrite restore_rule_partial_alter.
    unfold mret, M_ret. cbn. f_equal. sizes.
Qed.

Lemma exec_def_cfa i loc s saved c l loc' s' saved' :
  match i with DefCfa _ _ | DefCfaRegister _ | DefCfaOffset _ => True | _ => False end ->
  holds section limit c (encode_insn i ++ l) -> insn_fits i ->
  step i loc s saved = Some (loc', s', saved') -> does i loc s saved c loc' s' saved'.
Proof.
  destruct i as [| | | | | | | |r o|r|o|]; try done; intros _ Hh Hfit; cbn [insn_step]; unfold guard_some;
    cbn [encode_insn app insn_fits] in *.
  - destruct (Z.leb_spec o i64_max); [|done]. intros [= <- <- <-]. rewrite <- app_assoc in Hh. destruct Hfit.
    destruct (exec_opcode 12 loc s saved c _ Hh ltac:(lia)) as [-> Hh']. operand Hh' E.
    cbn [execute_extended]. erewrite run_Ok by exact E.
    erewrite run_Ok by (by eapply cfa_offset_operand_holds). unfold mret, M_ret. f_equal. sizes.
  - destruct (cfa_defined s) eqn:Ed; [|done]. intros [= <- <- <-].
    destruct (exec_opcode 13 loc s saved c _ Hh ltac:(lia)) as [-> Hh']. operand Hh' E.
    cbn [execute_extended]. rewrite Ed. mrun. cbn [negb]. erewrite run_Ok by exact E.
    unfold mret, M_ret. f_equal. sizes.
  - destruct (cfa_defined s) eqn:Ed; [|done]. destruct (Z.leb_spec o i64_max); [|done]. intros [= <- <- <-].
    destruct (exec_opcode 14 loc s saved c _ Hh ltac:(lia)) as [-> Hh'].
    cbn [execute_extended]. rewrite Ed. mrun. cbn [negb].
    erewrite run_Ok by (by eapply cfa_offset_operand_holds). unfold mret, M_ret. f_equal. sizes.
Qed.

Lemma exec_simple i loc s saved c l loc' s' saved' :
  match i with
  | Nop | RememberState | RestoreState | Undefine _ | SameValue _ | ArgsSize _ => True | _ => False
  end ->
  holds section limit c (encode_insn i ++ l) -> insn_fits i ->
  step i loc s saved = Some (loc', s', saved') -> does i loc s saved c loc' s' saved'.
Proof.
  assert (Hone : forall op r, 0 <= op < 64 -> holds section limit c (byte_of_Z op :: uleb r ++ l) -> in_u64 r ->
    forall f, (forall loc s saved, extended op loc s saved =
                 (reg ← read_uleb section limit; mret (f reg loc s saved))) ->
    exec loc s saved c = (Ok (f r loc s saved), c + size_of (byte_of_Z op :: uleb r))).
  { intros op r Hop Hh Hr f Hf. destruct (exec_opcode op loc s saved c _ Hh Hop) as [-> Hh']. rewrite Hf. operand Hh' E.
    erewrite run_Ok by exact E. unfold mret, M_ret. f_equal. sizes. }
  destruct i as [| | | |r|r| | | | | |r]; try done; intros _ Hh Hfit; cbn [insn_step];
    cbn [encode_insn app insn_fits] in *.
  - intros [= <- <- <-]. by destruct (exec_opcode 0 loc s saved c _ Hh ltac:(lia)) as [-> _].
  - intros [= <- <- <-].
    by apply (Hone 7 r ltac:(lia) Hh Hfit (fun reg loc s saved => CfiNext loc (set_rule reg (mkRule RuleUndefined 0) s) saved)).
  - intros [= <- <- <-].
    by apply (Hone 8 r ltac:(lia) Hh Hfit (fun reg loc s saved => CfiNext loc (set_rule reg (mkRule RuleSameValue 0) s) saved)).
  - intros [= <- <- <-]. by destruct (exec_opcode 10 loc s saved c _ Hh ltac:(lia)) as [-> _].
  - destruct saved as [|s0 saved0]; [done|]. intros [= <- <- <-].
    by destruct (exec_opcode 11 loc s (s0 :: saved0) c _ Hh ltac:(lia)) as [-> _].
  - intros [= <- <- <-]. by apply (Hone 46 r ltac:(lia) Hh Hfit (fun _ loc s saved => CfiNext loc s saved)).
Qed.

(** Any instruction: it advances past the target, or has the effect of its step. *)
Lemma exec_insn i loc s saved c l loc' s' saved' :
  holds section limit c (encode_insn i ++ l) -> insn_fits i -> 0 <= loc <= target ->
  step i loc s saved = Some (loc', s', saved') ->
  exec loc s saved c = (Ok (next loc' s s' saved'), c + size_of (encode_insn i)) /\
  loc <= loc' <= u64_max /\
  match i with AdvanceLoc _ => s' = s | _ => loc' = loc end.
Proof.
  intros Hh Hfit Hloc Hstep. unfold in_u64 in Htarget.
  assert (Hsame : loc' = loc -> does i loc s saved c loc' s' saved' ->
    exec loc s saved c = (Ok (next loc' s s' saved'), c + size_of (encode_insn i)) /\ loc <= loc' <= u64_max).
  { intros -> ->. destruct (Z.ltb_spec target loc); [lia|]. split; [done|lia]. }
  assert (Hkeep : match i with AdvanceLoc _ => True | _ => loc' = loc end).
  { destruct i; try done; revert Hstep; cbn [insn_step]; unfold guard_some;
      [| |destruct initial as [init|]; [|done]|..]; cbn [mbind option_bind]; repeat case_match; congruence. }
  rewrite (and_assoc (exec _ _ _ _ = _)).
  destruct i as [|u| | | | | | | | | |]; try (split; [|done]; apply Hsame; [done|]).
  1,5,6,7,8,12: by eapply exec_simple.
  2: { destruct Hfit. by eapply exec_offset_at. }
  2: by eapply exec_restore.
  2,3,4: by eapply exec_def_cfa.
  cbn [insn_step] in Hstep. unfold guard_some in Hstep. destruct (_ && _) eqn:Hg; [|done]. injection Hstep as <- <- <-.
  apply andb_true_iff in Hg as [H1%negb_true_iff%Z.eqb_neq H2%Z.leb_le]. cbn [insn_fits] in Hfit. unfold in_u64 in Hca.
  erewrite exec_advance by done. rewrite cfi_advance_small by (done || lia). split; [|done]. split; [done|nia].
Qed.
End Execute.

(** ** Executing a program *)

Lemma size_insn_pos i : 0 < size_of (encode_insn i).
Proof.
  unfold size_of. destruct i; cbn [encode_insn length]; repeat case_match; cbn [length]; lia.
Qed.

Lemma insn_step_mono ca da initial i loc s saved loc' s' saved' :
  0 <= ca -> insn_fits i -> insn_step ca da initial i loc s saved = Some (loc', s', saved') -> loc <= loc'.
Proof.
  intros Hca Hfit. destruct i; cbn [insn_step insn_fits] in *; unfold guard_some; repeat case_match;
    intros Hstep; simplify_eq/=; try lia; try nia. destruct initial; simplify_eq/=. lia.
Qed.

Lemma table_rows_after ca da initial p loc s saved table :
  0 <= ca -> Forall insn_fits p -> table_of ca da initial p loc s saved = Some table ->
  Forall (fun r => loc <= r.1) table.
Proof.
  intros Hca Hp. revert loc s saved table. induction Hp as [|i p Hi _ IH]; intros loc s saved table; cbn [table_of].
  { intros [= <-]. repeat constructor. simpl. lia. }
  destruct (insn_step _ _ _ _ _ _ _) as [[[loc' s'] saved']|] eqn:Hs; [|done]. cbn [mbind option_bind].
  apply insn_step_mono in Hs as Hle; [|done..].
  destruct (table_of _ _ _ p _ _ _) as [t|] eqn:Ht; [|done]. cbn [mbind option_bind]. apply IH in Ht.
  assert (Ht' : Forall (fun r => loc <= r.1) t) by (eapply Forall_impl; [done|]; simpl; intros; lia).
  intros [= <-]. destruct i; try done. by constructor.
Qed.

Lemma row_for_cons target loc s table :
  loc <= target ->
  row_for target ((loc, s) :: table) = match row_for target table with Some st => Some st | None => Some s end.
Proof.
  intros H. unfold row_for. rewrite filter_cons_True by done. rewrite last_cons. by destruct (last _) as [[]|].
Qed.
Lemma row_for_after target table : Forall (fun r => target < r.1) table -> row_for target table = None.
Proof.
  intros H. unfold row_for. induction H as [|r t Hr _ IH]; [done|]. rewrite filter_cons_False; [done|lia].
Qed.

Lemma execute_loop_program section limit cie initial target p loc s saved table fuel c :
  limit_in section limit -> in_u64 (code_alignment cie) -> in_i64 (data_alignment cie) -> in_u64 target ->
  Forall insn_fits p -> table_of (code_alignment cie) (data_alignment cie) initial p loc s saved = Some table ->
  0 <= loc <= target -> holds section limit c (encode_program p) -> c + size_of (encode_program p) = limit ->
  limit - c <= Z.of_nat fuel ->
  exists st c', execute_loop section limit cie initial target fuel loc s saved c = (Ok st, c') /\
    row_for target table = Some st.
Proof.
  intros Hlim Hca Hda Ht Hp. revert loc s saved table fuel c.
  induction Hp as [|i p Hi Hp IH]; intros loc s saved table fuel c Htab Hloc Hh Hc Hf; cbn [table_of encode_program] in *.
  { injection Htab as <-. unfold size_of in Hc. cbn in Hc. exists s, c. rewrite row_for_cons by lia. split; [|done].
    destruct fuel; cbn [execute_loop]; mrun; by destruct (Z.ltb_spec c limit); [lia|]. }
  rewrite size_of_app in Hc. pose proof (size_insn_pos i) as Hpos.
  destruct (insn_step _ _ _ _ _ _ _) as [[[loc' s'] saved']|] eqn:Hs; [|done]. cbn [mbind option_bind] in Htab.
  destruct (table_of _ _ _ p _ _ _) as [t|] eqn:Ht'; [|done]. cbn [mbind option_bind] in Htab. injection Htab as <-.
  destruct (exec_insn section limit Hlim cie initial target Hca Hda Ht i loc s saved c _ _ _ _ Hh Hi Hloc Hs)
    as (Hex & Hmono & Hkind). apply holds_app in Hh as [_ Hh].
  destruct fuel as [|fuel]; [unfold size_of in *; lia|]. cbn [execute_loop]. mrun.
  destruct (Z.ltb_spec c limit); [|unfold size_of in *; lia]. erewrite run_Ok by exact Hex.
  destruct (Z.ltb_spec target loc') as [Hpast|Hle].
  - exists s, (c + size_of (encode_insn i)). split; [done|].
    destruct i; try lia. rewrite row_for_cons by lia. rewrite row_for_after; [done|].
    eapply Forall_impl; [eapply table_rows_after; [|done..]; unfold in_u64 in Hca; lia|]. simpl. intros. lia.
  - destruct (IH loc' s' saved' t fuel (c + size_of (encode_insn i)) Ht' ltac:(lia) Hh ltac:(lia) ltac:(lia))
      as (st & c' & E & Hrow). exists st, c'. split; [done|].
    destruct i; try done. rewrite row_for_cons by lia. by rewrite Hrow.
Qed.

Lemma execute_program section b e cie initial target p loc s table :
  limit_in section e -> in_u64 (code_alignment cie) -> in_i64 (data_alignment cie) -> in_u64 target ->
  Forall insn_fits p -> table_of (code_alignment cie) (data_alignment cie) initial p loc s [] = Some table ->
  0 <= loc <= target -> holds section e b (encode_program p) -> b + size_of (encode_program p) = e ->
  exists st, execute section b e cie s initial loc target = Ok st /\ row_for target table = Some st.
Proof.
  intros. unfold execute, run_at.
  destruct (execute_loop_program section e cie initial target p loc s [] table (Z.to_nat (e - b)) b)
    as (st & c' & -> & Hrow); [done..|lia|]. by exists st.
Qed.

(** C10: the row the interpreter computes for an address from the instructions of a CIE and
    of an FDE is the row of the table these two programs denote: the last row that
    starts at or before the address, where the initial rules restored by the FDE are
    the rules the CIE ends with. *)
Theorem cfi_row_of_programs section cie cursor end_ loc target p0 p t0 st0 t st :
  limit_in section (instructions_end cie) -> limit_in section end_ ->
  in_u64 (code_alignment cie) -> in_i64 (data_alignment cie) ->
  holds section (instructions_end cie) (instructions_begin cie) (encode_program p0) ->
  instructions_begin cie + size_of (encode_program p0) = instructions_end cie ->
  holds section end_ cursor (encode_program p) -> cursor + size_of (encode_program p) = end_ ->
  Forall insn_fits p0 -> Forall insn_fits p -> 0 <= loc <= target -> target <= u64_max ->
  table_of (code_alignment cie) (data_alignment cie) None p0 loc empty_cfi [] = Some t0 ->
  row_for u64_max t0 = Some st0 ->
  table_of (code_alignment cie) (data_alignment cie) (Some st0) p loc st0 [] = Some t ->
  row_for target t = Some st ->
  cfi_row section cursor end_ cie loc target = if cfa_defined st then Ok st else runtime_error "CFI did not define a CFA".
Proof.
  intros L1 L2 Hca Hda H0 E0 H E F0 F Hloc Ht T0 R0 T R. unfold cfi_row.
  destruct (execute_program section (instructions_begin cie) (instructions_end cie) cie None u64_max p0 loc empty_cfi t0 L1 Hca Hda) as (x & -> & Rx);
    [unfold in_u64, u64_max; lia|done..|lia|done|done|].
  rewrite R0 in Rx. injection Rx as <-. cbn [mbind res_bind].
  destruct (execute_program section cursor end_ cie (Some st0) target p loc st0 t L2 Hca Hda) as (y & -> & Ry);
    [unfold in_u64; lia|done..|].
  rewrite R in Ry. injection Ry as <-. cbn [mbind res_bind]. by destruct (cfa_defined st).
Qed.

(** ** A section with one CIE and one FDE, as a compiler emits it for
       [push %rbp; mov %rsp, %rbp; ...] *)

Definition demo_cie_program : list cfa_insn := [DefCfa 7 8; OffsetAt 16 1; Nop; Nop].
Definition demo_fde_program : list cfa_insn :=
  [AdvanceLoc 1; DefCfaOffset 16; OffsetAt 6 2; AdvanceLoc 3; DefCfaRegister 6; RememberState; AdvanceLoc 300;
   DefCfa 7 8; RestoreState; Nop].

Definition demo_eh_section : list byte :=
  let cie := le_split 4 0 ++ le_split 1 1 ++ le_split 3 0x527a ++ uleb 1 ++ encode_sleb 10 (-8) ++ le_split 1 16 ++
             uleb 1 ++ le_split 1 0x1b ++ encode_program demo_cie_program in
  let fde := le_split 4 (8 + size_of cie) ++ le_split 4 (0x1000 - (0x2000 + size_of cie + 12)) ++ le_split 4 0x200 ++
             uleb 0 ++ encode_program demo_fde_program in
  le_split 4 (size_of cie) ++ cie ++ le_split 4 (size_of fde) ++ fde ++ le_split 4 0.

Definition demo_eh : EhFrame := mkEhFrame "demo" demo_eh_section 0x2000 true.

(** The stack of the demo: the word at [a] is [a + 1]. *)
Definition demo_stack (a n : Z) : M unit (list byte) := mret (le_split (Z.to_nat n) (a + 1)).

Example demo_caller_frame :
  caller_frame_with demo_eh demo_stack 0x1004 (mkCursor 0x1004 0x7000 (Some 0x8000) None) tt =
    (Ok (Some (mkCursor 0x8009 0x8010 (Some 0x8001) None)), tt).
Proof. vm_compute. reflexivity. Qed.

Definition demo_cie : Cie := mkCie 1 (-8) 16 0x1b 17 24.

(** The tables of the two programs, the rows of the CIE and of 0x1002. *)
Definition demo_table0 : list (Z * CfiState) := default [] (table_of 1 (-8) None demo_cie_program 0x1000 empty_cfi []).
Definition demo_row0 : CfiState := default empty_cfi (row_for u64_max demo_table0).
Definition demo_table : list (Z * CfiState) :=
  default [] (table_of 1 (-8) (Some demo_row0) demo_fde_program 0x1000 demo_row0 []).
Definition demo_row : CfiState := mkCfi true 7 16 (<[6 := mkRule RuleOffset (-16)]> {[16 := mkRule RuleOffset (-8)]}).

Lemma demo_limit e : e <= 62 -> limit_in demo_eh_section e.
Proof. intros H. split; [|vm_compute; congruence]. by replace (size_of demo_eh_section) with 62 by (vm_compute; reflexivity). Qed.

Lemma holds_of_take section limit c l :
  0 <= c -> c + size_of l <= limit -> take (length l) (drop (Z.to_nat c) section) = l -> holds section limit c l.
Proof.
  intros H1 H2 H3. split; [done|]. split; [done|]. intros i b Hi. pose proof (lookup_lt_Some _ _ _ Hi).
  by rewrite <- H3, lookup_take_lt, lookup_drop in Hi by done.
Qed.

Lemma cfi_row_of_programs_witness : cfi_row demo_eh_section 41 58 demo_cie 0x1000 0x1002 = Ok demo_row.
Proof.
  refine (cfi_row_of_programs demo_eh_section demo_cie 41 58 0x1000 0x1002 demo_cie_program demo_fde_program
    demo_table0 demo_row0 demo_table demo_row _ _ _ _ _ _ _ _ _ _ _ _ _ _ _ _).
  - apply demo_limit. vm_compute. congruence.
  - apply demo_limit. vm_compute. congruence.
  - vm_compute. split; congruence.
  - vm_compute. split; congruence.
  - apply holds_of_take; [vm_compute; congruence..|vm_compute; reflexivity].
  - vm_compute. reflexivity.
  - apply holds_of_take; [vm_compute; congruence..|vm_compute; reflexivity].
  - vm_compute. reflexivity.
  - repeat constructor; vm_compute; congruence.
  - repeat constructor; vm_compute; congruence.
  - lia.
  - vm_compute. congruence.
  - vm_compute. reflexivity.
  - vm_compute. reflexivity.
  - vm_compute. reflexivity.
  - vm_compute. reflexivity.
Defined.

(** ** The caller's frame

    What [EhFrame::caller_frame] returns, in terms of the row of the FDE that covers the
    address, and the LEB128 readers of the section. *)

(** *** The words of the stack *)

Lemma or_bytes_le l v s :
  0 <= s -> 0 <= v < 2 ^ s -> s + 8 * size_of l <= 64 -> or_bytes v s l = v + 2 ^ s * le_combine l.
Proof.
  revert v s. induction l as [|b l IH]; intros v s Hs Hv Hl; cbn [or_bytes le_combine]; [lia|].
  rewrite size_cons in Hl. assert (0 <= size_of l) by (unfold size_of; lia). pose proof (byte_val_range b) as Hb.
  assert (E : 2 ^ (s + 8) = 256 * 2 ^ s) by (rewrite Z.pow_add_r by lia; lia).
  assert (Hle : 2 ^ (s + 8) <= 2 ^ 64) by (apply Z.pow_le_mono_r; lia).
  rewrite u64_shiftl by nia. rewrite lor_low_high by lia. rewrite IH by nia. rewrite E. ring.
Qed.

Lemma read_u64_Ok l v : read_u64 l = Ok v -> size_of l = 8 /\ v = le_combine l.
Proof.
  unfold read_u64. intros H. inv_res. apply negb_false_iff, Z.eqb_eq in H. split; [done|].
  rewrite (or_bytes_le l 0 0) in H0 by lia. change (2 ^ 0) with 1 in H0. lia.
Qed.

Section Caller.
(** A memory that only depends on the address, as the one of a snapshot. *)
Context {S : Type} (mem : Z -> Z -> res (list byte)).
Definition pure_reader (a n : Z) : M S (list byte) := lift (mem a n).

(** The word of the stack at [a]. *)
Definition word_at (a v : Z) : Prop := exists l, mem a 8 = Ok l /\ size_of l = 8 /\ v = le_combine l.

Lemma read_cfi_slot_pure a what (s : S) :
  match read_cfi_slot pure_reader a what s with
  | (Ok v, s') => word_at a v /\ s' = s
  | (_, s') => s' = s
  end.
Proof.
  unfold read_cfi_slot, pure_reader, mcatch, lift, mbind, M_bind. destruct (mem a 8) as [l|e|w|] eqn:E; try done.
  destruct (read_u64 l) as [v|e|w|] eqn:E'; try done. apply read_u64_Ok in E' as [H1 H2]. split; [|done]. by exists l.
Qed.

(** The value of a register in the caller: what the rule of the row says. *)
Definition recovered (row : CfiState) (cfa reg : Z) (what : string) (current caller : option Z) : Prop :=
  match rules row !! reg with
  | Some (mkRule RuleSameValue _) => caller = current
  | Some (mkRule RuleOffset offset) =>
      exists slot v, add_signed cfa offset what = Ok slot /\ word_at slot v /\ caller = Some v
  | Some (mkRule RuleUndefined _) | None => caller = None
  end.

Lemma recover_register_pure evaluated reg current what (s s' : S) v :
  recover_register pure_reader evaluated reg current what s = (Ok v, s') ->
  recovered (EhFrame.frame_state evaluated) (frame_cfa evaluated) reg what current v /\ s' = s.
Proof.
  unfold recover_register, recovered. destruct (rules _ !! reg) as [[[] offset]|];
    try (by unfold mret, M_ret; intros [= <- <-]).
  destruct (add_signed _ _ _) as [slot|e|w|]; [|done..]. rewrite run_lift_Ok.
  pose proof (read_cfi_slot_pure slot what s) as H. unfold mbind, M_bind.
  destruct (read_cfi_slot _ _ _ s) as [[x|e|w|] s1]; try done. destruct H as [Hw ->].
  unfold mret, M_ret. intros [= <- <-]. split; [|done]. by exists slot, x.
Qed.

(** The FDE of the section that covers the address. *)
Definition covering_fde (eh : EhFrame) (pc : Z) (cie : Cie) (loc cursor end_ : Z) : Prop :=
  exists cies entry range,
    read_entry (eh_section eh) (eh_section_virtual_address eh) cies entry = Ok (EntryFde cie loc range cursor end_) /\
    loc <= pc < loc + range.

Lemma resolve_frame_pure section cursor end_ cie loc pc read_register (s s' : S) f :
  resolve_frame pure_reader section cursor end_ cie loc pc read_register s = (Ok f, s') ->
  s' = s /\ cfi_row section cursor end_ cie loc pc = Ok (EhFrame.frame_state f) /\
  exists slot, cfi_slots read_register cie (EhFrame.frame_state f) = Ok (frame_cfa f, slot) /\
    word_at slot (frame_return_address f) /\ frame_return_address f <> 0.
Proof.
  unfold resolve_frame. destruct (cfi_row _ _ _ _ _ _) as [row|e|w|]; [|done..]. rewrite run_lift_Ok.
  destruct (cfi_slots _ _ row) as [[cfa slot]|e|w|] eqn:Es; [|done..]. rewrite run_lift_Ok.
  pose proof (read_cfi_slot_pure slot "CFI return-address slot" s) as H. unfold mbind at 1, M_bind at 1.
  destruct (read_cfi_slot _ _ _ s) as [[ra|e|w|] s1]; try done. destruct H as [Hw ->]. mrun.
  destruct (Z.eqb_spec ra 0); [done|]. unfold mret, M_ret. intros [= <- <-]. split; [done|]. split; [done|].
  by exists slot.
Qed.

Lemma evaluate_loop_pure fuel section va pc read_register cies entry (s s' : S) f :
  evaluate_loop pure_reader fuel section va pc read_register cies entry s = (Ok (Some f), s') ->
  exists cies entry cie loc range cursor end_,
    read_entry section va cies entry = Ok (EntryFde cie loc range cursor end_) /\ loc <= pc < loc + range /\
    resolve_frame pure_reader section cursor end_ cie loc pc read_register s = (Ok f, s').
Proof.
  revert cies entry. induction fuel as [|fuel IH]; intros cies entry; cbn [evaluate_loop];
    (destruct (entry <? size_of section); [|done]); [done|].
  destruct (read_entry section va cies entry) as [[|cie end_|cie loc range cursor end_]|e|w|] eqn:E; try done;
    rewrite run_lift_Ok; [apply IH|].
  destruct (Z.leb_spec loc pc); cbn [andb]; [|apply IH]. destruct (Z.ltb_spec pc (loc + range)); [|apply IH].
  unfold mbind, M_bind. destruct (resolve_frame _ _ _ _ _ _ _ _ s) as [[f'|e|w|] s1] eqn:Er; try done.
  unfold mret, M_ret. intros [= <- <-]. by exists cies, entry, cie, loc, range, cursor, end_.
Qed.

(** The caller's frame the row of the covering FDE describes: the stack pointer is the CFA
    (the row's register plus its offset), the instruction pointer the non-zero word at the
    slot of the return-address rule, the frame pointer and RBX what their rules say. *)
Definition frame_rules (eh : EhFrame) (pc : Z) (current caller : EhFrameCursor) : Prop :=
  exists cie loc cursor end_ row base slot,
    covering_fde eh pc cie loc cursor end_ /\
    cfi_row (eh_section eh) cursor end_ cie loc pc = Ok row /\
    cursor_register current (cfa_register row) = Ok base /\
    add_signed base (cfa_offset row) "CFI CFA" = Ok (stack_pointer caller) /\
    (exists offset, rules row !! return_register cie = Some (mkRule RuleOffset offset) /\
       add_signed (stack_pointer caller) offset "CFI return slot" = Ok slot) /\
    word_at slot (instruction_pointer caller) /\ instruction_pointer caller <> 0 /\
    recovered row (stack_pointer caller) kDwarfRbp "CFI RBP slot" (frame_pointer current) (frame_pointer caller) /\
    recovered row (stack_pointer caller) kDwarfRbx "CFI RBX slot" (cursor_rbx current) (cursor_rbx caller).

Lemma caller_frame_rules eh pc current caller (s s' : S) :
  caller_frame_with eh pure_reader pc current s = (Ok (Some caller), s') ->
  s' = s /\ eh_available eh = true /\ frame_rules eh pc current caller.
Proof.
  unfold caller_frame_with. destruct (eh_available eh); cbn [negb]; [|done].
  unfold mbind at 1, M_bind at 1. destruct (evaluate_frame _ _ _ _ _ s) as [[[f|]|e|w|] s1] eqn:Ev; try done.
  apply evaluate_loop_pure in Ev as (cies & entry & cie & loc & range & cursor & end_ & Hentry & Hrange & Hres).
  apply resolve_frame_pure in Hres as (-> & Hrow & slot & Hslots & Hword & Hne).
  unfold mbind, M_bind. destruct (recover_frame_pointer _ _ _ s) as [[fp|e|w|] s2] eqn:Efp; try done.
  apply recover_register_pure in Efp as [Hfp ->].
  destruct (recover_rbx _ _ _ s) as [[bx|e|w|] s2] eqn:Ebx; try done.
  apply recover_register_pure in Ebx as [Hbx ->]. unfold mret, M_ret. intros [= <- <-]. split; [done|]. split; [done|].
  unfold cfi_slots in Hslots. inv_res.
  destruct (rules (EhFrame.frame_state f) !! return_register cie) as [[[] offset]|] eqn:Er; try done. inv_res. simplify_eq/=.
  exists cie, loc, cursor, end_, (EhFrame.frame_state f), x, slot.
  split; [by exists cies, entry, range|]. do 3 (split; [done|]). split; [by exists offset|]. done.
Qed.

(** the caller's frame that unwinding returns is the one the row of the covering FDE
    describes: the stack pointer is the CFA (the row's register plus its offset), the
    instruction pointer is the non-zero word at the slot of the return-address rule,
    and the frame pointer and RBX are what their rules say. *)
Theorem caller_frame_spec eh pc current caller (s s' : S) :
  caller_frame_with eh pure_reader pc current s = (Ok (Some caller), s') ->
  s' = s /\ eh_available eh = true /\ frame_rules eh pc current caller.
Proof. apply caller_frame_rules. Qed.
End Caller.

Definition demo_memory (a n : Z) : res (list byte) := Ok (le_split (Z.to_nat n) (a + 1)).

Lemma caller_frame_spec_witness :
  exists slot, word_at demo_memory slot 0x8009 /\ 0x8009 <> 0.
Proof.
  assert (E : caller_frame_with (S := unit) demo_eh (pure_reader demo_memory) 0x1004
                (mkCursor 0x1004 0x7000 (Some 0x8000) None) tt =
              (Ok (Some (mkCursor 0x8009 0x8010 (Some 0x8001) None)), tt)) by (vm_compute; reflexivity).
  pose proof (caller_frame_spec demo_memory demo_eh 0x1004 _ _ tt tt E) as H.
  destruct H as (_ & _ & _ & _ & _ & _ & _ & _ & slot & _ & _ & _ & _ & _ & Hw & Hne & _).
  exists slot. split; [exact Hw|exact Hne].
Defined.

Lemma caller_frame_with_settles_witness :
  settles (fst (caller_frame_with demo_eh (pure_reader (S := unit) demo_memory) 0x1004
                  (mkCursor 0x1004 0x7000 (Some 0x8000) None) tt)).
Proof.
  refine (caller_frame_with_settles (S := unit) (pure_reader demo_memory) _ demo_eh 0x1004 _ tt _).
  - intros a n s. exact I.
  - vm_compute. congruence.
Defined.

(** *** LEB128 *)

(** the LEB128 readers of the section are inverse to the encoding of every unsigned and
    signed 64-bit value, and leave the cursor after it. *)
Theorem leb128_round_trip pre u i post :
  in_u64 u -> in_i64 i ->
  let section := pre ++ uleb u ++ encode_sleb 10 i ++ post in
  size_of section <= i64_max ->
  (a ← read_uleb section (size_of section); b ← read_sleb section (size_of section); mret (a, b)) (size_of pre) =
    (Ok (u, i), size_of pre + size_of (uleb u) + size_of (encode_sleb 10 i)).
Proof.
  intros Hu Hi section Hs. assert (Hl : limit_in section (size_of section)) by (split; [lia|done]).
  assert (Hh : holds section (size_of section) (size_of pre) (uleb u ++ encode_sleb 10 i ++ post)).
  { split; [unfold size_of; lia|]. split; [unfold section; rewrite !size_of_app; lia|].
    intros k b Hk. unfold section, size_of. rewrite Nat2Z.id, lookup_app_r by lia.
    by replace (length pre + k - length pre)%nat with k by lia. }
  destruct (read_uleb_holds section _ Hl _ u _ Hh Hu) as [E Hh']. erewrite run_Ok by exact E.
  apply holds_app in Hh' as [Hh' _].
  erewrite run_Ok; [|apply read_sleb_encode; [exact Hi|apply (feeds_holds section _ Hl), Hh']]. done.
Qed.

Lemma leb128_round_trip_witness :
  let section := [] ++ uleb 624485 ++ encode_sleb 10 (-123456) ++ [] in
  (a ← read_uleb section (size_of section); b ← read_sleb section (size_of section); mret (a, b)) 0 = (Ok (624485, -123456), 6).
Proof. apply (leb128_round_trip [] 624485 (-123456) []); vm_compute; repeat split; congruence. Defined.
