(* ===== verification/EhFrameSignalProofs.v ===== *)
(** * The signal index and the unwinder read the same section

    What [EhFrame] reads, [EhFrameSignal] reads as well and calls ordinary: a frame the
    CFA rules unwind is never a signal frame.  The index itself always answers or throws. *)

From S2P Require Import Prelude Machine ByteReader ElfFormat Debugger EhFrame EhFrameProofs CfaProgram.
From S2P Require EhFrameSignal.

(** What the index keeps of a CIE [EhFrame] accepts. *)
Definition strip (cie : Cie) : EhFrameSignal.CieMetadata := EhFrameSignal.mkMetadata (fde_encoding cie) false.

(** ** Readers that succeed in step *)

Lemma guard_M_Ok {S B} b c msg (f : unit -> M S B) s r :
  (mthrow_if b c msg ≫= f) s = (Ok r.1, r.2) <-> b = false /\ f tt s = (Ok r.1, r.2).
Proof. rewrite run_throw_if. destruct b; [split; [discriminate|naive_solver]|naive_solver]. Qed.

(** When [m] succeeds, [m'] succeeds with what [f] makes of the result, and leaves the
    same state. *)
Definition follows {S A A'} (f : A -> A') (m : M S A) (m' : M S A') : Prop :=
  forall s a s', m s = (Ok a, s') -> m' s = (Ok (f a), s').

Lemma follows_refl {S A} (m : M S A) : follows id m m.
Proof. by intros s a s' ->. Qed.
Lemma follows_bind {S A A' B B'} (f : A -> A') (g : B -> B') (m : M S A) m' (k : A -> M S B) k' :
  follows f m m' -> (forall a, follows g (k a) (k' (f a))) -> follows g (m ≫= k) (m' ≫= k').
Proof.
  intros Hm Hk s b s' (a & s1 & Ha & Hb)%bind_M_Ok. apply bind_M_Ok. exists (f a), s1.
  split; [by apply Hm|by apply Hk].
Qed.
Lemma follows_same {S A B B'} (g : B -> B') (m : M S A) (k : A -> M S B) k' :
  (forall a, follows g (k a) (k' a)) -> follows g (m ≫= k) (m ≫= k').
Proof. apply (follows_bind id), follows_refl. Qed.
Lemma follows_ret {S A A'} (f : A -> A') (a : A) : follows f (mret a : M S A) (mret (f a)).
Proof. by intros s ? ? [= <- <-]. Qed.
Lemma follows_throw {S A A'} (f : A -> A') c msg (m : M S A') : follows f (mthrow c msg) m.
Proof. intros s a s' [=]. Qed.

Section Readers.
Context (section : list byte).

Lemma signed_pointer_follows limit encoding what :
  follows id (read_signed_encoded_value section limit encoding what)
    (EhFrameSignal.read_signed_pointer section limit encoding what).
Proof.
  unfold read_signed_encoded_value, EhFrameSignal.read_signed_pointer.
  destruct (_ || _); [apply follows_refl|]. destruct (_ || _); [apply follows_refl|apply follows_throw].
Qed.

Lemma cie_augmentation_follows limit descriptors encoding :
  follows (fun e => (e, false)) (cie_augmentation section limit descriptors encoding)
    (EhFrameSignal.cie_augmentation section limit descriptors encoding false).
Proof.
  revert encoding. induction descriptors as [|c l IH]; intros encoding; simpl;
    [apply (follows_ret (fun e => (e, false)))|].
  destruct (Ascii.eqb c "P"); [|destruct (Ascii.eqb c "L"); [|destruct (Ascii.eqb c "R"); [|apply follows_throw]]];
    do 2 (apply follows_same; intros ?); try apply IH.
  apply (follows_bind id); [apply signed_pointer_follows|intros _; apply IH].
Qed.

Lemma parse_cie_follows limit :
  follows strip (parse_cie section limit) (EhFrameSignal.parse_cie_metadata section limit).
Proof.
  do 3 (apply follows_same; intros ?).
  destruct (String.list_ascii_of_string _) as [|[[] [] [] [] [] [] [] []] l]; try apply follows_throw.
  do 6 (apply follows_same; intros ?).
  apply (follows_bind (fun e => (e, false))); [|intros [e|]; [|apply follows_throw]].
  - apply cie_augmentation_follows.
  - do 2 (apply follows_same; intros ?). apply (follows_ret strip).
Qed.

Lemma run_at_follows {A A'} (f : A -> A') c (m : M Z A) m' a c' :
  follows f m m' -> run_at c m = Ok (a, c') -> run_at c m' = Ok (f a, c').
Proof.
  unfold run_at. intros Hf. destruct (m c) as [[x|e|w|] c1] eqn:E; try discriminate. intros [= <- <-].
  by rewrite (Hf _ _ _ E).
Qed.

(** The index stops where the range is read; the unwinder reads the augmentation too. *)
Lemma parse_fde_follows va limit cie c loc range c' :
  parse_fde section va limit cie c = (Ok (loc, range), c') ->
  exists c1, EhFrameSignal.parse_fde_range section va limit (strip cie) c = (Ok (loc, range), c1).
Proof.
  unfold parse_fde, EhFrameSignal.parse_fde_range, EhFrameSignal.add_signed. rewrite !run_mget. cbv zeta.
  intros (rel & c1 & H1 & H)%bind_M_Ok. apply signed_pointer_follows in H1. rewrite (run_Ok _ _ _ _ _ H1).
  apply bind_M_Ok in H as (l & c2 & H2 & H). cbn [id]. rewrite (run_Ok _ _ _ _ _ H2).
  apply bind_M_Ok in H as (r & c3 & H3 & H). apply signed_pointer_follows in H3. rewrite (run_Ok _ _ _ _ _ H3).
  cbn [id]. revert H. rewrite !run_throw_if. destruct (r <? 0); [discriminate|]. destruct (u64_max - l <? r); [discriminate|].
  intros (size & c4 & _ & H)%bind_M_Ok. rewrite run_mget, run_throw_if in H.
  destruct (_ <? size); [discriminate|]. rewrite run_modify in H. injection H as -> -> _. by exists c3.
Qed.

(** What the index makes of an entry. *)
Definition strip_entry (found : eh_entry) : EhFrameSignal.signal_entry :=
  match found with
  | EntryEnd => EhFrameSignal.SignalEnd
  | EntryCie cie end_ => EhFrameSignal.SignalCie (strip cie) end_
  | EntryFde cie loc range _ end_ => EhFrameSignal.SignalFde (strip cie) loc range end_
  end.

Lemma read_entry_follows va cies entry found :
  read_entry section va cies entry = Ok found ->
  EhFrameSignal.read_entry section va (strip <$> cies) entry = Ok (strip_entry found).
Proof.
  unfold read_entry, EhFrameSignal.read_entry, EhFrameSignal.read_at, EhFrameSignal.read_scalar.
  destruct (read_at _ _ _ _) as [len|e|w|]; try done. simpl.
  destruct (len =? 0); [by intros [= <-]|]. destruct (len =? 0xffffffff); [done|]. simpl.
  destruct (_ <? len); [done|]. simpl.
  destruct (run_at (entry + 4) _) as [[ptr cursor]|e|w|]; try done. simpl.
  destruct (ptr =? 0).
  - intros ([cie c] & H & E)%bind_Ok. simpl in E. injection E as <-.
    by rewrite (run_at_follows _ _ _ _ _ _ (parse_cie_follows _) H).
  - destruct (_ <? ptr); [done|]. simpl. rewrite lookup_fmap.
    destruct (cies !! _) as [cie|]; [|done]. simpl. intros ([[loc range] c] & H & E)%bind_Ok. simpl in E. injection E as <-.
    revert H. unfold run_at. destruct (parse_fde _ _ _ _ _) as [[[l r]|e|w|] c1] eqn:Hf; try done. intros [= -> -> ->].
    by apply parse_fde_follows in Hf as [c2 ->].
Qed.
End Readers.

(** ** The walk over the entries *)

Lemma fmap_emplace {A B} (f : A -> B) k v (m : gmap Z A) : f <$> emplace k v m = emplace k (f v) (f <$> m).
Proof. unfold emplace. rewrite lookup_fmap. destruct (m !! k); [done|]. apply fmap_insert. Qed.

Lemma evaluate_loop_follows {S} (read_memory : Z -> Z -> M S (list byte)) fuel section va target read_register cies entry s r s' :
  evaluate_loop read_memory fuel section va target read_register cies entry s = (Ok r, s') ->
  EhFrameSignal.signal_loop fuel section va target (strip <$> cies) entry = Ok false.
Proof.
  revert cies entry. induction fuel as [|fuel IH]; intros cies entry; simpl; (destruct (entry <? _); [|done]); [done|].
  destruct (read_entry section va cies entry) as [found|e|w|] eqn:E; try done. rewrite run_lift_Ok.
  rewrite (read_entry_follows _ _ _ _ _ E). simpl. destruct found as [|cie end_|cie loc range cursor end_]; simpl; [done| |].
  - rewrite <- fmap_emplace. apply IH.
  - destruct (_ && _); [done|]. apply IH.
Qed.

(** ** Opening the section *)

(** The index over the section an [EhFrame] holds. *)
Definition index_of (eh : EhFrame) : EhFrameSignal.EhFrameSignalIndex :=
  EhFrameSignal.mkSignalIndex (eh_section eh) (eh_section_virtual_address eh) (eh_available eh).

(** The two searches differ in the messages of the header only. *)
Lemma find_eh_frame_agrees bytes found :
  find_eh_frame bytes = Ok found <-> EhFrameSignal.find_eh_frame bytes = Ok found.
Proof.
  unfold find_eh_frame, EhFrameSignal.find_eh_frame, EhFrameSignal.named_eh_frame.
  destruct (read_struct_at _ _ _ _ _) as [header|e|w|]; simpl; [|split; discriminate..].
  destruct (negb (has_elf_magic header) || _ || _ || _); simpl; [split; discriminate|].
  destruct ((e_shnum header =? 0) || _); [done|].
  destruct (negb (e_shentsize header =? sizeof_Shdr) || _ || _); simpl; [split; discriminate|done].
Qed.

Section Files.
Context `{H : Host}.

Lemma open_signal_index_agrees path eh :
  open_eh_frame path = Ok eh -> EhFrameSignal.open_signal_index path = Ok (index_of eh).
Proof.
  unfold open_eh_frame, EhFrameSignal.open_signal_index, EhFrameSignal.read_file.
  destruct (read_file path) as [bytes|e|w|]; simpl; try done.
  intros (found & Hf & [= <-])%bind_Ok. apply find_eh_frame_agrees in Hf. rewrite Hf. by destruct found as [[]|].
Qed.

(** C38: The signal index opens whatever file [EhFrame] opens, on the same section, and an
    address whose frame the CFA rules unwind (or for which they find no description) is
    never a signal frame: a signal frame is only ever recovered from the signal context. *)
Theorem unwound_frame_is_ordinary path eh :
  open_eh_frame path = Ok eh ->
  EhFrameSignal.open_signal_index path = Ok (index_of eh) /\
  forall S (read_memory : Z -> Z -> M S (list byte)) pc current s r s',
    caller_frame_with eh read_memory pc current s = (Ok r, s') ->
    EhFrameSignal.is_signal_frame (index_of eh) pc = Ok false.
Proof.
  intros Ho. split; [by apply open_signal_index_agrees|]. intros S read_memory pc current s r s'.
  unfold caller_frame_with, EhFrameSignal.is_signal_frame. cbn [index_of EhFrameSignal.signal_available].
  destruct (eh_available eh); [|done]. cbn [negb]. intros (e & s1 & He & _)%bind_M_Ok.
  apply evaluate_loop_follows in He. by rewrite fmap_empty in He.
Qed.
End Files.

(** ** The index is total *)

Section Totality.
Context (section : list byte) (Hsz : size_of section <= i64_max).

Lemma reads_signed_pointer limit e what :
  limit_in section limit -> reads limit 1 (EhFrameSignal.read_signed_pointer section limit e what).
Proof.
  intros Hl. unfold EhFrameSignal.read_signed_pointer, EhFrameSignal.read_scalar.
  destruct (_ || _); [|destruct (_ || _); [|apply reads_throw]].
  - apply reads_bind_l; [lia| |intros; apply reads_ret]. apply (reads_weaken _ 4); [lia|]. by apply reads_read_scalar.
  - apply reads_bind_l; [lia| |intros; apply reads_ret]. apply (reads_weaken _ 8); [lia|]. by apply reads_read_scalar.
Qed.

Lemma reads_signal_augmentation limit l e b :
  limit_in section limit -> reads limit 0 (EhFrameSignal.cie_augmentation section limit l e b).
Proof.
  intros Hl. revert e b. induction l as [|c l IH]; intros e b; [apply reads_ret|]. simpl.
  assert (Hs : forall what, reads limit 0 (read_scalar what section limit 1)).
  { intros what. apply (reads_weaken _ 1); [lia|]. by apply reads_read_scalar. }
  destruct (Ascii.eqb c "P");
    [|destruct (Ascii.eqb c "L"); [|destruct (Ascii.eqb c "R"); [|destruct (Ascii.eqb c "S"); [apply IH|apply reads_throw]]]];
    (apply reads_bind_l; [lia|apply Hs|intros x]);
    (apply reads_bind_l; [lia|apply reads_throw_if|intros _]); try apply IH.
  apply reads_bind_l; [lia| |intros; apply IH]. apply (reads_weaken _ 1); [lia|]. by apply reads_signed_pointer.
Qed.

Lemma parse_cie_metadata_yields end_ c :
  limit_in section end_ -> 0 <= c -> yields_at c (fun _ _ => True) (EhFrameSignal.parse_cie_metadata section end_).
Proof.
  intros Hl Hc. unfold EhFrameSignal.parse_cie_metadata.
  eapply yields_at_read; [by apply reads_read_scalar|done|intros ver c1 H1 H1'].
  apply yields_at_guard; intros _.
  eapply yields_at_read; [by apply reads_read_c_string|lia|intros aug c2 H2 H2'].
  destruct (String.list_ascii_of_string aug) as [|[[] [] [] [] [] [] [] []] descriptors]; try done.
  eapply yields_at_read; [by apply reads_read_uleb|lia|intros ca c3 H3 H3'].
  eapply yields_at_read; [by apply reads_read_sleb|lia|intros da c4 H4 H4'].
  eapply yields_at_read; [by apply reads_read_scalar|lia|intros rr c5 H5 H5'].
  eapply yields_at_read; [by apply reads_read_uleb|lia|intros size c6 H6 H6'].
  apply yields_at_mget, yields_at_guard; intros Hs%Z.ltb_ge. destruct Hl as [Hl Hsz'].
  rewrite u64_small in Hs by (unfold in_u64, u64_max, i64_max in *; lia).
  eapply yields_at_read; [apply reads_signal_augmentation; split; [lia|done]|lia|intros [[enc|] b] c7 H7 H7'; [|done]].
  apply yields_at_mget, yields_at_guard; by intros _.
Qed.

Lemma parse_fde_range_yields va end_ cie c :
  limit_in section end_ -> 0 <= c -> yields_at c (fun _ _ => True) (EhFrameSignal.parse_fde_range section va end_ cie).
Proof.
  intros Hl Hc. unfold EhFrameSignal.parse_fde_range. apply yields_at_mget. cbv zeta.
  eapply yields_at_read; [by apply reads_signed_pointer|done|intros rel c1 H1 H1'].
  eapply yields_at_read; [apply (reads_settle_lift end_), add_signed_settles|lia|intros loc c2 H2 H2'].
  eapply yields_at_read; [by apply reads_signed_pointer|lia|intros range c3 H3 H3'].
  by do 2 (apply yields_at_guard; intros _).
Qed.

(** An entry ends after it starts, within the section. *)
Definition signal_entry_in (entry : Z) (found : EhFrameSignal.signal_entry) : Prop :=
  match found with
  | EhFrameSignal.SignalEnd => True
  | EhFrameSignal.SignalCie _ end_ | EhFrameSignal.SignalFde _ _ _ end_ => entry < end_ <= size_of section
  end.

Lemma signal_entry_yields va cies entry :
  0 <= entry -> yields (signal_entry_in entry) (EhFrameSignal.read_entry section va cies entry).
Proof.
  intros He. unfold EhFrameSignal.read_entry, EhFrameSignal.read_at, EhFrameSignal.read_scalar.
  eapply yields_bind with (P := fun len => 0 <= len).
  { unfold read_at, read_at_with. apply yields_guard; intros _. apply (le_at_u32 section entry). }
  intros len Hlen. destruct (len =? 0); [done|]. apply yields_guard; intros _. cbv zeta.
  apply yields_guard; intros Hle%Z.ltb_ge.
  assert (Hl : limit_in section (entry + 4 + len)) by (split; [lia|done]).
  eapply yields_bind.
  { apply run_at_yields, yields_at_reads; [by apply (reads_read_scalar section _ Hl)|lia]. }
  intros [ptr cursor] [H1 H2].
  destruct (ptr =? 0).
  - eapply yields_bind; [apply run_at_yields, parse_cie_metadata_yields; [done|lia]|intros [cie c] _]. simpl. lia.
  - apply yields_guard; intros _. destruct (cies !! _) as [cie|]; [|done].
    eapply yields_bind; [apply run_at_yields, parse_fde_range_yields; [done|lia]|intros [[loc range] c] _]. simpl. lia.
Qed.

Lemma signal_loop_settles fuel va target cies entry :
  0 <= entry -> size_of section - entry <= Z.of_nat fuel ->
  settles (EhFrameSignal.signal_loop fuel section va target cies entry).
Proof.
  revert cies entry. induction fuel as [|fuel IH]; intros cies entry He Hf; simpl;
    (destruct (Z.ltb_spec entry (size_of section)); [|done]); [lia|].
  pose proof (signal_entry_yields va cies entry He) as Hy.
  destruct (EhFrameSignal.read_entry _ _ _ _) as [found|e|w|]; [|done..]. simpl in Hy |- *.
  destruct found as [|cie end_|cie loc range end_]; simpl in Hy; [done|apply IH; lia|].
  destruct (_ && _); [done|]. apply IH; lia.
Qed.
End Totality.

Lemma is_signal_frame_settles index target :
  size_of (EhFrameSignal.signal_section index) <= i64_max -> settles (EhFrameSignal.is_signal_frame index target).
Proof.
  intros Hsz. unfold EhFrameSignal.is_signal_frame. destruct (negb _); [done|].
  apply signal_loop_settles; [done|lia|unfold size_of; lia].
Qed.

(** ** A file with one ordinary FDE, and a section with a signal frame *)

Definition name_bytes (s : string) : list byte :=
  map (fun c => byte_of_Z (Z.of_N (N_of_ascii c))) (String.list_ascii_of_string s) ++ [Byte.x00].

(** An ELF file with this [.eh_frame] section at this address. *)
Definition eh_file (section : list byte) (address : Z) : list byte :=
  let names := [Byte.x00] ++ name_bytes ".eh_frame" in
  le_split 16 0x010102464c457f ++ le_split 2 2 ++ le_split 2 62 ++ le_split 4 1 ++ le_split 16 0 ++ le_split 8 64 ++
  le_split 4 0 ++ le_split 6 0 ++ le_split 2 64 ++ le_split 2 2 ++ le_split 2 1 ++
  le_split 4 1 ++ le_split 12 0 ++ le_split 8 address ++ le_split 8 (192 + size_of names) ++
  le_split 8 (size_of section) ++ le_split 24 0 ++
  le_split 4 0 ++ le_split 20 0 ++ le_split 8 192 ++ le_split 8 (size_of names) ++ le_split 24 0 ++
  names ++ section.

Definition DemoEhFile : Host := {|
  h_file _ := FileBytes (eh_file demo_eh_section 0x2000);
  h_canonical _ := None; h_regular _ := true; h_page_size := 4096
|}.

Lemma demo_eh_opens : open_eh_frame (H := DemoEhFile) "demo" = Ok demo_eh.
Proof. vm_cast_no_check (@eq_refl (res EhFrame) (Ok demo_eh)). Qed.

Lemma unwound_frame_is_ordinary_witness :
  EhFrameSignal.open_signal_index (H := DemoEhFile) "demo" = Ok (index_of demo_eh) /\
  EhFrameSignal.is_signal_frame (index_of demo_eh) 0x1004 = Ok false.
Proof.
  destruct (unwound_frame_is_ordinary (H := DemoEhFile) "demo" demo_eh demo_eh_opens) as [Ho Hs].
  split; [exact Ho|exact (Hs _ _ _ _ _ _ _ demo_caller_frame)].
Defined.

(** A [zRS] CIE and an FDE for 0x3000 .. 0x30ff. *)
Definition demo_signal_section : list byte :=
  let cie := le_split 4 0 ++ le_split 1 1 ++ name_bytes "zRS" ++ [Byte.x01] ++ encode_sleb 10 (-8) ++ le_split 1 16 ++
             [Byte.x01] ++ le_split 1 0x1b in
  let fde := le_split 4 (8 + size_of cie) ++ le_split 4 (0x3000 - (0x2000 + size_of cie + 12)) ++ le_split 4 0x100 in
  le_split 4 (size_of cie) ++ cie ++ le_split 4 (size_of fde) ++ fde ++ le_split 4 0.

Definition demo_signal_eh : EhFrame := mkEhFrame "restorer" demo_signal_section 0x2000 true.

(** The signal frame is found, and the unwinder refuses the section. *)
Example demo_signal_frame :
  EhFrameSignal.is_signal_frame (index_of demo_signal_eh) 0x3080 = Ok true /\
  EhFrameSignal.is_signal_frame (index_of demo_signal_eh) 0x3100 = Ok false /\
  fst (caller_frame_with demo_signal_eh demo_stack 0x3080 (mkCursor 0x3080 0x7000 None None) tt) =
    runtime_error "unsupported .eh_frame CIE augmentation descriptor".
Proof. repeat split; vm_compute; reflexivity. Qed.
