(* ===== verification/SignalContext.v ===== *)
(** * The context saved by signal delivery ([src/snapshot/linux_x86_signal_frame.hpp])

    The registers the kernel saved in the [ucontext] on the stack of a core, read at
    their fixed offsets, and the first vector register of the floating-point state the
    context points to. *)

From S2P Require Import Prelude Machine ByteReader ElfFormat Debugger EhFrame.
From S2P Require Import Elf Core ElfProofs CoreProofs.

(* src/snapshot/linux_x86_signal_frame.hpp:16-22 LinuxX86SignalFrameRecovery *)
Record LinuxX86SignalFrameRecovery := mkRecovery {
  rec_cursor : EhFrameCursor;
  rec_r12 : Z;
  rec_rdi : Z;
  rec_rsi : Z;
  rec_xmm0 : list byte
}.

Definition kMcontextOffset : Z := 0x28.
Definition kGregSize : Z := 8.
Definition kGregCount : Z := 23.
Definition kFpregsPointerOffset : Z := kMcontextOffset + kGregCount * 8.
Definition kFxsaveXmm0Offset : Z := 160.
Definition kXmmSize : Z := 16.

Definition kR12 : Z := 4.
Definition kRdi : Z := 8.
Definition kRsi : Z := 9.
Definition kRbp : Z := 10.
Definition kRbx : Z := 11.
Definition kRsp : Z := 15.
Definition kRip : Z := 16.

(** The address of the slot wraps. *)
(* src/snapshot/linux_x86_signal_frame.hpp:24-37 read_linux_x86_signal_slot *)
Definition read_linux_x86_signal_slot (snapshot : CoreSnapshot) (ucontext_address greg_index : Z) : res Z :=
  let address := u64 (ucontext_address + kMcontextOffset + greg_index * kGregSize) in
  bytes ← core_read_memory snapshot address 8;
  _ ← throw_if (negb (size_of bytes =? 8))
        (Exn RuntimeError "Linux x86-64 signal context register is truncated");
  Ok (le_combine bytes).

(* src/snapshot/linux_x86_signal_frame.hpp:39-89 read_linux_x86_signal_xmm0 *)
Definition read_linux_x86_signal_xmm0 (snapshot : CoreSnapshot) (ucontext_address restored_rsp : Z)
    : res (list byte) :=
  _ ← throw_if (u64_max - kFpregsPointerOffset <? ucontext_address)
        (Exn OverflowError "Linux x86-64 signal fpregs pointer address overflows");
  pointer_bytes ← core_read_memory snapshot (ucontext_address + kFpregsPointerOffset) 8;
  _ ← throw_if (negb (size_of pointer_bytes =? 8))
        (Exn RuntimeError "Linux x86-64 signal fpregs pointer is truncated");
  let fpstate_address := le_combine pointer_bytes in
  _ ← throw_if ((fpstate_address =? 0) || (u64_max <? fpstate_address))
        (Exn RuntimeError "Linux x86-64 signal fpregs pointer is invalid");
  _ ← throw_if ((fpstate_address <=? ucontext_address) || (restored_rsp <=? fpstate_address))
        (Exn RuntimeError "Linux x86-64 signal fpstate is outside the evidence-proven same-stack layout");
  _ ← throw_if (u64_max - kFxsaveXmm0Offset <? fpstate_address)
        (Exn OverflowError "Linux x86-64 signal XMM0 address overflows");
  let xmm0_address := fpstate_address + kFxsaveXmm0Offset in
  _ ← throw_if (u64_max - kXmmSize <? xmm0_address)
        (Exn OverflowError "Linux x86-64 signal XMM0 range overflows");
  _ ← throw_if (restored_rsp <? xmm0_address + kXmmSize)
        (Exn RuntimeError
           "Linux x86-64 signal XMM0 state extends outside the evidence-proven same-stack layout");
  bytes ← core_read_memory snapshot xmm0_address kXmmSize;
  _ ← throw_if (negb (size_of bytes =? kXmmSize))
        (Exn RuntimeError "Linux x86-64 signal XMM0 state is truncated");
  Ok bytes.

(* src/snapshot/linux_x86_signal_frame.hpp:91-127 recover_linux_x86_signal_frame *)
Definition recover_linux_x86_signal_frame (snapshot : CoreSnapshot) (ucontext_address : Z)
    : res LinuxX86SignalFrameRecovery :=
  r12 ← read_linux_x86_signal_slot snapshot ucontext_address kR12;
  rdi ← read_linux_x86_signal_slot snapshot ucontext_address kRdi;
  rsi ← read_linux_x86_signal_slot snapshot ucontext_address kRsi;
  rip ← read_linux_x86_signal_slot snapshot ucontext_address kRip;
  rsp ← read_linux_x86_signal_slot snapshot ucontext_address kRsp;
  rbp ← read_linux_x86_signal_slot snapshot ucontext_address kRbp;
  rbx ← read_linux_x86_signal_slot snapshot ucontext_address kRbx;
  _ ← throw_if ((rip =? 0) || (rsp =? 0))
        (Exn RuntimeError "Linux x86-64 signal context contains a zero RIP or RSP");
  _ ← throw_if (rsp <=? ucontext_address)
        (Exn RuntimeError "Linux x86-64 signal context is outside the evidence-proven same-stack layout");
  xmm0 ← read_linux_x86_signal_xmm0 snapshot ucontext_address rsp;
  Ok (mkRecovery (mkCursor rip rsp (Some rbp) (Some rbx)) r12 rdi rsi xmm0).

(** ** What is recovered *)

(** The word the core holds at [address] (which wraps) is [v]. *)
Definition core_word (c : CoreSnapshot) (address v : Z) : Prop :=
  exists l, core_read_memory c (u64 address) 8 = Ok l /\ size_of l = 8 /\ le_combine l = v.

(** The general register [i] of the context at [u]. *)
Definition saved_greg (c : CoreSnapshot) (u i v : Z) : Prop := core_word c (u + 0x28 + i * 8) v.

(** The vector register saved between the context and the interrupted stack. *)
Definition saved_xmm0 (c : CoreSnapshot) (u rsp : Z) (xmm0 : list byte) : Prop :=
  exists fpstate, core_word c (u + 0x28 + 23 * 8) fpstate /\ u < fpstate /\ fpstate + 160 + 16 <= rsp /\
    core_read_memory c (fpstate + 160) 16 = Ok xmm0 /\ size_of xmm0 = 16.

(** The interrupted context lies above the frame of the handler and has a code address. *)
Definition recovered_from (c : CoreSnapshot) (u : Z) (r : LinuxX86SignalFrameRecovery) : Prop :=
  exists rbp rbx,
    rec_cursor r = mkCursor (instruction_pointer (rec_cursor r)) (stack_pointer (rec_cursor r)) (Some rbp) (Some rbx) /\
    instruction_pointer (rec_cursor r) <> 0 /\ u < stack_pointer (rec_cursor r) /\
    saved_greg c u 16 (instruction_pointer (rec_cursor r)) /\ saved_greg c u 15 (stack_pointer (rec_cursor r)) /\
    saved_greg c u 10 rbp /\ saved_greg c u 11 rbx /\ saved_greg c u 4 (rec_r12 r) /\
    saved_greg c u 8 (rec_rdi r) /\ saved_greg c u 9 (rec_rsi r) /\
    saved_xmm0 c u (stack_pointer (rec_cursor r)) (rec_xmm0 r).

(** Reading a core always ends with bytes or an exception. *)
Lemma core_read_settles c a n : settles (core_read_memory c a n).
Proof.
  unfold core_read_memory. destruct (n =? 0); [done|]. apply settles_bind; [unfold checked_add; settles_auto|intros end_ _].
  induction (load_segments c) as [|s l IH]; [done|]. cbn [read_segments]. unfold checked_add, fail_if, require_range.
  settles_auto.
Qed.

Lemma core_read_yields c a n : yields (fun l => core_read_memory c a n = Ok l) (core_read_memory c a n).
Proof. apply settles_yields, core_read_settles. Qed.

Lemma signal_slot_yields c u i : yields (saved_greg c u i) (read_linux_x86_signal_slot c u i).
Proof.
  unfold read_linux_x86_signal_slot. cbv zeta. eapply yields_bind; [apply core_read_yields|intros l Hl].
  apply yields_guard. intros Hs%negb_false_iff%Z.eqb_eq. by exists l.
Qed.

Lemma signal_xmm0_yields c u rsp :
  0 <= u -> yields (saved_xmm0 c u rsp) (read_linux_x86_signal_xmm0 c u rsp).
Proof.
  intros Hu. unfold read_linux_x86_signal_xmm0. change kFpregsPointerOffset with 224. change kFxsaveXmm0Offset with 160.
  change kXmmSize with 16. apply yields_guard. intros Hb%Z.ltb_ge.
  eapply yields_bind; [apply core_read_yields|intros l Hl].
  apply yields_guard. intros Hs%negb_false_iff%Z.eqb_eq. cbv zeta.
  apply yields_guard. intros _. apply yields_guard. intros [Hlo%Z.leb_gt Hhi%Z.leb_gt]%orb_false_iff.
  do 2 (apply yields_guard; intros _). apply yields_guard. intros H3%Z.ltb_ge.
  eapply yields_bind; [apply core_read_yields|intros x Hx].
  apply yields_guard. intros Hsx%negb_false_iff%Z.eqb_eq. simpl.
  exists (le_combine l). split; [|split; [done|split; [lia|done]]].
  exists l. rewrite u64_small by (unfold in_u64, u64_max in *; lia).
  replace (u + 0x28 + 23 * 8) with (u + 224) by lia. done.
Qed.

(** The recovery always answers or throws, and what it answers are the words of the
    context in memory. *)
Lemma recover_linux_x86_signal_frame_spec c u :
  0 <= u -> yields (recovered_from c u) (recover_linux_x86_signal_frame c u).
Proof.
  intros Hu. unfold recover_linux_x86_signal_frame.
  do 7 (eapply yields_bind; [apply signal_slot_yields|intros ? ?]).
  apply yields_guard. intros [Hrip%Z.eqb_neq _]%orb_false_iff. apply yields_guard. intros Hrsp%Z.leb_gt.
  eapply yields_bind; [by apply signal_xmm0_yields|intros xmm0 Hx].
  do 2 eexists. split; [reflexivity|]. simpl. repeat (split; [done || eassumption|]). done.
Qed.
