(* ===== verification/SnapshotMemory.v ===== *)
(** * Memory of a core with runtime files behind it ([src/snapshot/memory.hpp])

    A range the core captured is read from the core; a range it left out entirely is read
    from the runtime file the core's mapping names; a mixture of both is refused. *)

From S2P Require Import Prelude Machine ByteReader Paths ElfFormat ModulePath.
From S2P Require Import Elf Core CoreProofs ModulePathProofs.

(* src/snapshot/memory.hpp:16-16 SnapshotMemoryProvenance *)
Inductive SnapshotMemoryProvenance := FromCore | FromRuntimeArtifact.

(* src/snapshot/memory.hpp:18-24 SnapshotMemoryRead *)
Record SnapshotMemoryRead := mkMemoryRead {
  mr_bytes : list byte;
  mr_provenance : SnapshotMemoryProvenance;
  mr_module_path : string;
  mr_module_file_path : string;
  mr_artifact_file_offset : Z
}.

Definition kMaxReadLength : Z := 4096.

(** One byte of the core; [None] when the read throws a [std::runtime_error]. *)
(* src/snapshot/memory.hpp:48-55 read_snapshot_memory *)
Definition core_byte (snapshot : CoreSnapshot) (address : Z) : res (option byte) :=
  match core_read_memory snapshot address 1 with
  | Ok (byte :: _) => Ok (Some byte)
  | Ok [] => Undef "front of an empty vector"
  | Throw e => if is_runtime_error e then Ok None else Throw e
  | Undef w => Undef w
  | OutOfFuel => OutOfFuel
  end.

(** The bytes of the range one by one, zero where the core has none; whether one was
    captured and whether one was omitted. *)
(* src/snapshot/memory.hpp:43-56 read_snapshot_memory *)
Fixpoint core_bytes_from (n : nat) (snapshot : CoreSnapshot) (address : Z) : res (list byte * bool * bool) :=
  match n with
  | O => Ok ([], false, false)
  | S n =>
    byte ← core_byte snapshot address;
    '(bytes, any_captured, any_omitted) ← core_bytes_from n snapshot (u64 (address + 1));
    Ok match byte with
       | Some byte => (byte :: bytes, true, any_omitted)
       | None => (Byte.x00 :: bytes, any_captured, true)
       end
  end.

Section Read.
Context `{H : Host} `{F : FileAccess}.

(** [length] bytes of the file from [file_offset]. *)
(* src/snapshot/memory.hpp:81-94 read_snapshot_memory *)
Definition read_artifact (module_file_path : string) (file_offset length : Z) : res (list byte) :=
  match f_size module_file_path with
  | None => runtime_error ("failed to open snapshot runtime artifact: " +:+ module_file_path)
  | Some file_size =>
    _ ← throw_if (match file_size with
                  | None => true
                  | Some file_size => (file_size <? file_offset) || (file_size - file_offset <? length)
                  end) (Exn RuntimeError "snapshot runtime artifact range extends past end of file");
    match f_read_at module_file_path file_offset length with
    | None => runtime_error "failed to read snapshot runtime artifact bytes"
    | Some bytes => Ok bytes
    end
  end.

(** The part of the read that goes to the runtime file. *)
(* src/snapshot/memory.hpp:65-97 read_snapshot_memory *)
Definition read_omitted (snapshot : CoreSnapshot) (module_paths : SnapshotModulePathResolver)
    (start length : Z) : res SnapshotMemoryRead :=
  match mapping_for_address snapshot start with
  | None => runtime_error "omitted snapshot memory range is not wholly owned by one NT_FILE mapping"
  | Some mapping =>
    _ ← throw_if (map_end mapping <? start + length)
          (Exn RuntimeError "omitted snapshot memory range is not wholly owned by one NT_FILE mapping");
    _ ← throw_if (negb (path_is_absolute (map_path mapping)))
          (Exn RuntimeError "omitted snapshot memory lacks an absolute NT_FILE owner");
    let delta := start - map_start mapping in
    _ ← throw_if (u64_max - map_file_offset mapping <? delta)
          (Exn RuntimeError "snapshot artifact file offset overflows");
    let file_offset := map_file_offset mapping + delta in
    module_file_path ← resolve_module (map_path mapping) module_paths;
    bytes ← read_artifact module_file_path file_offset length;
    Ok (mkMemoryRead bytes FromRuntimeArtifact (map_path mapping) module_file_path file_offset)
  end.

(* src/snapshot/memory.hpp:26-98 read_snapshot_memory *)
Definition read_snapshot_memory (snapshot : CoreSnapshot) (module_paths : SnapshotModulePathResolver)
    (address length : Z) : res SnapshotMemoryRead :=
  _ ← throw_if (length =? 0) (Exn InvalidArgument "snapshot memory read length must be non-zero");
  _ ← throw_if (kMaxReadLength <? length)
        (Exn InvalidArgument "snapshot memory read length exceeds bounded limit");
  _ ← throw_if (u64_max - address <? length)
        (Exn InvalidArgument "snapshot memory read range overflows");
  '(core_bytes, any_captured, any_omitted) ← core_bytes_from (Z.to_nat length) snapshot address;
  if negb any_omitted then Ok (mkMemoryRead core_bytes FromCore EmptyString EmptyString 0)
  else
    _ ← throw_if any_captured
          (Exn RuntimeError
             "snapshot memory range mixes captured and omitted bytes; artifact fallback refused");
    read_omitted snapshot module_paths address length.
End Read.
