(* ===== verification/SnapshotMemoryProofs.v ===== *)
(** * Where the bytes of a snapshot read come from *)

From S2P Require Import Prelude Machine ByteReader Paths ElfFormat ModulePath.
From S2P Require Import Elf Core ElfProofs CoreProofs ModulePathProofs SnapshotMemory.

(** ** The core throws runtime errors only *)

Definition throws_runtime {A} (r : res A) : Prop := match r with Throw e => is_runtime_error e = true | _ => True end.

Lemma throws_runtime_bind {A B} (m : res A) (f : A -> res B) :
  throws_runtime m -> (forall a, throws_runtime (f a)) -> throws_runtime (m ≫= f).
Proof. destruct m; simpl; auto. Qed.

Lemma throws_runtime_fail_if b msg : throws_runtime (fail_if b msg).
Proof. by destruct b. Qed.

Lemma core_read_memory_throws c a n : throws_runtime (core_read_memory c a n).
Proof.
  assert (Hadd : forall x y what, throws_runtime (checked_add x y what)).
  { intros. apply throws_runtime_bind; [by destruct (_ <? _)|done]. }
  unfold core_read_memory. destruct (n =? 0); [done|]. apply throws_runtime_bind; [done|]. intros end_.
  induction (load_segments c) as [|s l IH]; [done|]. cbn [read_segments].
  apply throws_runtime_bind; [done|]. intros memory_end. destruct (_ || _); [done|].
  apply throws_runtime_bind; [apply throws_runtime_fail_if|]. intros _.
  apply throws_runtime_bind; [done|]. intros captured_end.
  apply throws_runtime_bind; [apply throws_runtime_fail_if|]. intros _. cbv zeta.
  apply throws_runtime_bind; [done|]. intros offset.
  apply throws_runtime_bind; [unfold require_range; by destruct (out_of_bounds _ _ _)|done].
Qed.

Section Reads.
Context (file : list byte) (c : CoreSnapshot) (Hf : file_sized file) (Hwf : wf_core file c).

(** The core has byte [b] at [a]; the core has none. *)
Definition has_byte (a : Z) (b : byte) : Prop := core_read_memory c a 1 = Ok [b].
Definition omits (a : Z) : Prop := exists e, core_read_memory c a 1 = Throw e.

Lemma core_byte_spec a : in_u64 a ->
  match core_byte c a with
  | Ok (Some b) => has_byte a b
  | Ok None => omits a
  | _ => False
  end.
Proof.
  intros Ha. unfold core_byte, has_byte, omits.
  pose proof (core_read_memory_spec file c a 1 Hf Hwf Ha ltac:(unfold in_u64, u64_max; lia)) as H.
  pose proof (core_read_memory_throws c a 1) as Ht.
  destruct (core_read_memory c a 1) as [[|b [|b' l]]|e|w|]; try done.
  - destruct H as [[? _]|(_ & s & _ & _ & _ & Hs & _)]; [lia|discriminate Hs].
  - destruct H as [[? _]|(_ & s & _ & _ & _ & Hs & _)]; [lia|]. unfold size_of in Hs. simpl in Hs. lia.
  - simpl in Ht. rewrite Ht. eauto.
Qed.

(** What the byte-by-byte loop finds from [a] on. *)
Definition gathered (a : Z) (n : nat) (bytes : list byte) (any_captured any_omitted : bool) : Prop :=
  length bytes = n /\
  (forall i b, bytes !! i = Some b -> has_byte (a + Z.of_nat i) b \/ omits (a + Z.of_nat i) /\ any_omitted = true) /\
  (forall i, (i < n)%nat -> omits (a + Z.of_nat i) \/ any_captured = true) /\
  (any_captured = true -> exists i b, (i < n)%nat /\ has_byte (a + Z.of_nat i) b) /\
  (any_omitted = true -> exists i, (i < n)%nat /\ omits (a + Z.of_nat i)).

Lemma core_bytes_from_spec n a :
  0 <= a -> a + Z.of_nat n <= u64_max ->
  match core_bytes_from n c a with
  | Ok (bytes, any_captured, any_omitted) => gathered a n bytes any_captured any_omitted
  | _ => False
  end.
Proof.
  revert a. induction n as [|n IH]; intros a Ha Hn.
  { split; [done|]. split; [by intros ? ? [=]|]. split; [lia|]. by split. }
  cbn [core_bytes_from]. pose proof (core_byte_spec a ltac:(unfold in_u64; lia)) as Hb.
  destruct (core_byte c a) as [ob|e|w|]; try done. cbn [mbind res_bind].
  rewrite (u64_small (a + 1)) by (unfold in_u64; lia). specialize (IH (a + 1) ltac:(lia) ltac:(lia)).
  destruct (core_bytes_from n c (a + 1)) as [[[l cap] om]|e|w|]; try done. cbn [mbind res_bind].
  destruct IH as (Hl & H1 & H2 & H3 & H4).
  assert (Hshift : forall i, a + Z.of_nat (Datatypes.S i) = a + 1 + Z.of_nat i) by lia.
  destruct ob as [b|]; (split; [simpl; by rewrite Hl|]).
  - split; [|split; [|split]].
    + intros [|i] x Hx; [left; simpl in Hx; injection Hx as <-; by rewrite Z.add_0_r|]. rewrite Hshift. by apply H1.
    + by right.
    + intros _. exists 0%nat, b. rewrite Z.add_0_r. split; [lia|done].
    + intros (i & Hi & Ho)%H4. exists (Datatypes.S i). rewrite Hshift. split; [lia|done].
  - split; [|split; [|split]].
    + intros [|i] x Hx; [right; by rewrite Z.add_0_r|]. rewrite Hshift.
      destruct (H1 i x Hx) as [?|[? _]]; [by left|by right].
    + intros [|i] Hi; [left; by rewrite Z.add_0_r|]. rewrite Hshift. apply H2. lia.
    + intros (i & x & Hi & Hx)%H3. exists (Datatypes.S i), x. rewrite Hshift. split; [lia|done].
    + intros _. exists 0%nat. rewrite Z.add_0_r. split; [lia|done].
Qed.

Lemma has_byte_not_omits a b : has_byte a b -> omits a -> False.
Proof. unfold has_byte, omits. intros -> [e [=]]. Qed.

(** ** The read *)

Context `{H : Host} `{F : FileAccess}.
Context (paths : SnapshotModulePathResolver).

Lemma read_artifact_yields path offset n :
  yields (fun bytes => f_read_at path offset n = Some bytes) (read_artifact path offset n).
Proof.
  unfold read_artifact. destruct (f_size path); [|done]. apply yields_guard. intros _.
  by destruct (f_read_at path offset n).
Qed.

Lemma resolve_module_settles recorded r : settles (resolve_module recorded r).
Proof. unfold resolve_module. settles_auto. Qed.

(** [r] are the [length] bytes at [address] of the file that stands for the module the
    mapping around the whole range names. *)
Definition backed_by_artifact (address length : Z) (r : SnapshotMemoryRead) : Prop :=
  exists m, m ∈ file_mappings c /\ map_start m <= address /\ address + length <= map_end m /\
    path_is_absolute (map_path m) = true /\ mr_module_path r = map_path m /\
    resolve_module (map_path m) paths = Ok (mr_module_file_path r) /\
    mr_artifact_file_offset r = map_file_offset m + (address - map_start m) /\
    f_read_at (mr_module_file_path r) (mr_artifact_file_offset r) length = Some (mr_bytes r).

Lemma read_omitted_yields address length :
  yields (fun r => mr_provenance r = FromRuntimeArtifact /\ backed_by_artifact address length r)
    (read_omitted c paths address length).
Proof.
  unfold read_omitted. pose proof (mapping_for_address_spec file c address Hwf) as Hm.
  destruct (mapping_for_address c address) as [m|]; [|done]. destruct Hm as [Hin Hm].
  apply yields_guard. intros Hend%Z.ltb_ge. apply yields_guard. intros Habs%negb_false_iff. cbv zeta.
  apply yields_guard. intros _.
  eapply yields_bind; [apply settles_yields, resolve_module_settles|intros path Hp].
  eapply yields_bind; [apply read_artifact_yields|intros bytes Hb]. split; [done|].
  exists m. unfold in_mapping in Hm. repeat (split; [done || lia|]). exact Hb.
Qed.

(** What a successful read says of its bytes. *)
Definition from_snapshot (address length : Z) (r : SnapshotMemoryRead) : Prop :=
  0 < length <= kMaxReadLength /\ address + length <= u64_max /\
  match mr_provenance r with
  | FromCore =>
      size_of (mr_bytes r) = length /\ forall i b, mr_bytes r !! i = Some b -> has_byte (address + Z.of_nat i) b
  | FromRuntimeArtifact =>
      (forall i, 0 <= i < length -> omits (address + i)) /\ backed_by_artifact address length r
  end.

Lemma snapshot_memory_yields address length :
  in_u64 address -> in_u64 length ->
  yields (from_snapshot address length) (read_snapshot_memory c paths address length).
Proof.
  unfold in_u64. intros Ha Hl. unfold read_snapshot_memory.
  apply yields_guard. intros Hz%Z.eqb_neq. apply yields_guard. intros Hmax%Z.ltb_ge.
  apply yields_guard. intros Hover%Z.ltb_ge.
  pose proof (core_bytes_from_spec (Z.to_nat length) address ltac:(lia) ltac:(lia)) as Hg.
  destruct (core_bytes_from _ c address) as [[[bytes cap] om]|e|w|]; try done. cbn [mbind res_bind].
  destruct Hg as (Hlen & H1 & H2 & H3 & H4). destruct om; cbn [negb].
  - apply yields_guard. intros ->.
    eapply yields_weaken; [|apply read_omitted_yields]. intros r [Hp Hb]. unfold from_snapshot. rewrite Hp.
    split; [lia|]. split; [lia|]. split; [|done]. intros i Hi.
    destruct (H2 (Z.to_nat i) ltac:(lia)) as [Ho|[=]]. by rewrite Z2Nat.id in Ho by lia.
  - split; [lia|]. split; [lia|]. simpl. split; [unfold size_of; lia|]. intros i b Hb.
    by destruct (H1 i b Hb) as [?|[_ [=]]].
Qed.

(** C34: on a parsed core, reading memory of the snapshot returns bytes that are all the core's,
    or, when the core has none of the range, the bytes of the runtime file at the offset
    the one mapping around the range gives; it never mixes the two, and otherwise throws. *)
Theorem read_snapshot_memory_spec address length :
  in_u64 address -> in_u64 length ->
  yields (from_snapshot address length) (read_snapshot_memory c paths address length).
Proof. apply snapshot_memory_yields. Qed.

(** A range of which the core has one byte and lacks another is refused. *)
Lemma mixed_range_refused address length i j b :
  in_u64 address -> in_u64 length -> 0 <= i < length -> 0 <= j < length ->
  has_byte (address + i) b -> omits (address + j) ->
  exists e, read_snapshot_memory c paths address length = Throw e.
Proof.
  intros Ha Hl Hi Hj Hb Ho. pose proof (snapshot_memory_yields address length Ha Hl) as Hs.
  destruct (read_snapshot_memory c paths address length) as [r|e|w|]; [|by eauto|done..].
  exfalso. destruct Hs as (_ & _ & Hs). destruct (mr_provenance r).
  - destruct Hs as [Hsz Hs]. destruct (lookup_lt_is_Some_2 (mr_bytes r) (Z.to_nat j)) as [x Hx].
    { unfold size_of in Hsz. lia. }
    apply Hs in Hx. rewrite Z2Nat.id in Hx by lia. by eapply has_byte_not_omits.
  - destruct Hs as [Hs _]. eapply has_byte_not_omits; [exact Hb|by apply Hs].
Qed.
End Reads.

(** ** The core of [CoreProofs] holds sixteen bytes of a page; the file ["/a"] has the rest *)

Definition DemoArtifactHost : Host := {|
  h_file _ := FileOpenFailed; h_canonical _ := None; h_regular _ := true; h_page_size := 4096
|}.
Definition DemoArtifact : FileAccess := {|
  f_stream _ := None;
  f_size path := if String.eqb path "/a" then Some (Some 4096) else None;
  f_read_at path o n := Some (repeat (byte_of_Z o) (Z.to_nat n))
|}.

Definition demo_artifact_read : res SnapshotMemoryRead :=
  read_snapshot_memory (H := DemoArtifactHost) (F := DemoArtifact) demo_core no_module_paths 0x1842 3.

Example demo_reads :
  demo_artifact_read = Ok (mkMemoryRead [Byte.x42; Byte.x42; Byte.x42] FromRuntimeArtifact "/a" "/a" 0x842) /\
  read_snapshot_memory (H := DemoArtifactHost) (F := DemoArtifact) demo_core no_module_paths 0x1002 3 =
    Ok (mkMemoryRead [Byte.x03; Byte.x04; Byte.x05] FromCore EmptyString EmptyString 0) /\
  read_snapshot_memory (H := DemoArtifactHost) (F := DemoArtifact) demo_core no_module_paths 0x100e 3 =
    runtime_error "snapshot memory range mixes captured and omitted bytes; artifact fallback refused".
Proof. repeat split; vm_compute; reflexivity. Qed.

Lemma read_snapshot_memory_spec_witness :
  yields (from_snapshot (H := DemoArtifactHost) (F := DemoArtifact) demo_core no_module_paths 0x1842 3) demo_artifact_read.
Proof.
  unfold demo_artifact_read.
  apply (read_snapshot_memory_spec (H := DemoArtifactHost) (F := DemoArtifact) demo_core_file demo_core demo_core_sized
    demo_core_wf no_module_paths 0x1842 3); vm_compute; split; congruence.
Defined.
