(* ===== verification/LineTable.v ===== *)
(** * DWARF line tables ([src/dwarf/line_table.cpp], [src/dwarf/line_table.hpp])

    The [.debug_line] section: unit headers of versions 4 and 5, the line-number
    program, and the address ranges it gives.  A cursor over the file is the state of
    [M Z]; a signed overflow of the line register is undefined behaviour. *)

From stdpp Require Import pretty.
From S2P Require Import Prelude Paths Machine ByteReader ElfFormat.
From S2P Require Elf.

(* src/dwarf/line_table.hpp:16-20 SourceLocation *)
Record SourceLocation := mkLocation { loc_file : string; loc_line : Z; loc_column : Z }.

(* src/dwarf/line_table.hpp:39-42 DwarfLineTable::FileTable *)
Record FileTable := mkFileTable { ft_dwarf5 : bool; ft_files : list string }.

(* src/dwarf/line_table.hpp:44-49 DwarfLineTable::Range *)
Record Range := mkRange {
  range_begin : Z;
  range_end : Z;
  range_location : SourceLocation;
  range_file_table : nat
}.

(* src/dwarf/line_table.hpp:22-56 DwarfLineTable *)
Record DwarfLineTable := mkLineTable {
  lt_path : string;
  file_tables : list FileTable;
  ranges : list Range
}.

(* src/dwarf/line_table.hpp:26-26 DwarfLineTable::available *)
Definition line_table_available (t : DwarfLineTable) : bool :=
  match ranges t with [] => false | _ => true end.

(* src/dwarf/line_table.cpp:20-20 kLnsCopy *)
Definition kLnsCopy : Z := 1.
(* src/dwarf/line_table.cpp:21-21 kLnsAdvancePc *)
Definition kLnsAdvancePc : Z := 2.
(* src/dwarf/line_table.cpp:22-22 kLnsAdvanceLine *)
Definition kLnsAdvanceLine : Z := 3.
(* src/dwarf/line_table.cpp:23-23 kLnsSetFile *)
Definition kLnsSetFile : Z := 4.
(* src/dwarf/line_table.cpp:24-24 kLnsSetColumn *)
Definition kLnsSetColumn : Z := 5.
(* src/dwarf/line_table.cpp:25-25 kLnsNegateStmt *)
Definition kLnsNegateStmt : Z := 6.
(* src/dwarf/line_table.cpp:26-26 kLnsSetBasicBlock *)
Definition kLnsSetBasicBlock : Z := 7.
(* src/dwarf/line_table.cpp:27-27 kLnsConstAddPc *)
Definition kLnsConstAddPc : Z := 8.
(* src/dwarf/line_table.cpp:28-28 kLnsFixedAdvancePc *)
Definition kLnsFixedAdvancePc : Z := 9.
(* src/dwarf/line_table.cpp:29-29 kLnsSetPrologueEnd *)
Definition kLnsSetPrologueEnd : Z := 10.
(* src/dwarf/line_table.cpp:30-30 kLnsSetEpilogueBegin *)
Definition kLnsSetEpilogueBegin : Z := 11.
(* src/dwarf/line_table.cpp:31-31 kLnsSetIsa *)
Definition kLnsSetIsa : Z := 12.
(* src/dwarf/line_table.cpp:33-33 kLneEndSequence *)
Definition kLneEndSequence : Z := 1.
(* src/dwarf/line_table.cpp:34-34 kLneSetAddress *)
Definition kLneSetAddress : Z := 2.
(* src/dwarf/line_table.cpp:35-35 kLneDefineFile *)
Definition kLneDefineFile : Z := 3.
(* src/dwarf/line_table.cpp:36-36 kLneSetDiscriminator *)
Definition kLneSetDiscriminator : Z := 4.
(* src/dwarf/line_table.cpp:38-38 kLnctPath *)
Definition kLnctPath : Z := 0x01.
(* src/dwarf/line_table.cpp:39-39 kLnctDirectoryIndex *)
Definition kLnctDirectoryIndex : Z := 0x02.
(* src/dwarf/line_table.cpp:41-41 kFormData2 *)
Definition kFormData2 : Z := 0x05.
(* src/dwarf/line_table.cpp:42-42 kFormData4 *)
Definition kFormData4 : Z := 0x06.
(* src/dwarf/line_table.cpp:43-43 kFormData8 *)
Definition kFormData8 : Z := 0x07.
(* src/dwarf/line_table.cpp:44-44 kFormString *)
Definition kFormString : Z := 0x08.
(* src/dwarf/line_table.cpp:45-45 kFormData1 *)
Definition kFormData1 : Z := 0x0b.
(* src/dwarf/line_table.cpp:46-46 kFormSdata *)
Definition kFormSdata : Z := 0x0d.
(* src/dwarf/line_table.cpp:47-47 kFormUdata *)
Definition kFormUdata : Z := 0x0f.
(* src/dwarf/line_table.cpp:48-48 kFormData16 *)
Definition kFormData16 : Z := 0x1e.
(* src/dwarf/line_table.cpp:49-49 kFormLineStrp *)
Definition kFormLineStrp : Z := 0x1f.

(* src/dwarf/line_table.cpp:51-54 FileEntry *)
Record FileEntry := mkFileEntry { fe_name : string; fe_directory_index : Z }.
(* src/dwarf/line_table.cpp:56-59 EntryFormat *)
Record EntryFormat := mkFormat { content_type : Z; form : Z }.
(* src/dwarf/line_table.cpp:61-64 SectionRange *)
Record SectionRange := mkSection { sec_offset : Z; sec_size : Z }.
(* src/dwarf/line_table.cpp:66-69 Row *)
Record Row := mkRow { row_address : Z; row_location : option SourceLocation }.
(* src/dwarf/line_table.cpp:71-76 State *)
Record State := mkState { ln_address : Z; ln_file : Z; ln_line : Z; ln_column : Z }.
Definition initial_state : State := mkState 0 1 1 0.

(** ** Readers *)

(* src/dwarf/line_table.cpp:78-86 read_at *)
Definition read_struct_at {T} (what : string) (sizeof : Z) (at_ : list byte -> Z -> T) (bytes : list byte)
    (offset : Z) : res T :=
  _ ← throw_if (out_of_bounds bytes offset sizeof) (Exn RuntimeError (what +:+ " extends past end of file"));
  Ok (at_ bytes offset).

(* src/dwarf/line_table.cpp:88-97 read_scalar *)
Definition read_scalar (what : string) (bytes : list byte) (limit n : Z) : M Z Z :=
  read_scalar_with (what +:+ " extends past DWARF unit boundary") (what +:+ " extends past end of file")
    bytes limit n.

(* src/dwarf/line_table.cpp:99-104 require_range *)
Definition require_range (bytes : list byte) (offset size : Z) (what : string) : res unit :=
  throw_if (out_of_bounds bytes offset size) (Exn RuntimeError (what +:+ " extends past end of file")).

(* src/dwarf/line_table.cpp:106-115 read_c_string *)
Definition read_c_string (bytes : list byte) (limit : Z) (what : string) : M Z string :=
  read_c_string_with ("unterminated " +:+ what) bytes limit.

(* src/dwarf/line_table.cpp:117-132 read_uleb *)
Definition read_uleb (bytes : list byte) (limit : Z) : M Z Z :=
  read_uleb_with (read_scalar "ULEB128 operand" bytes limit 1) "ULEB128 operand overflows 64 bits"
    "ULEB128 operand is too long".

(* src/dwarf/line_table.cpp:134-153 read_sleb *)
Definition read_sleb (bytes : list byte) (limit : Z) : M Z Z :=
  read_sleb_with (read_scalar "SLEB128 operand" bytes limit 1) (Some "SLEB128 operand overflows 64 bits")
    "SLEB128 operand is too long".

(** Runs a reader from a cursor of its own. *)
Definition run_from {A} (cursor : Z) (m : M Z A) : res A := fst (m cursor).

(** ** Sections *)

(* src/dwarf/line_table.cpp:205-219 find_debug_section *)
Fixpoint named_section (bytes : list byte) (wanted_name : string) (names_size names_begin names_end : Z)
    (sections : list Elf64_Shdr) : res (option SectionRange) :=
  match sections with
  | [] => Ok None
  | section :: sections =>
    if names_size <=? sh_name section then named_section bytes wanted_name names_size names_begin names_end sections
    else
      name ← run_from (names_begin + sh_name section) (read_c_string bytes names_end "ELF section name");
      if negb (String.eqb name wanted_name)
      then named_section bytes wanted_name names_size names_begin names_end sections
      else
        _ ← throw_if (negb (Z.land (sh_flags section) SHF_COMPRESSED =? 0))
              (Exn RuntimeError ("compressed " +:+ wanted_name +:+ " sections are unsupported"));
        _ ← require_range bytes (sh_offset section) (sh_size section) wanted_name;
        Ok (Some (mkSection (sh_offset section) (sh_size section)))
  end.

(* src/dwarf/line_table.cpp:170-220 find_debug_section *)
Definition find_debug_section (bytes : list byte) (wanted_name : string) : res (option SectionRange) :=
  header ← read_struct_at "ELF header" sizeof_Ehdr ehdr_at bytes 0;
  _ ← throw_if (negb (has_elf_magic header)) (Exn RuntimeError "file is not ELF");
  _ ← throw_if (negb (ident header EI_CLASS =? ELFCLASS64) || negb (ident header EI_DATA =? ELFDATA2LSB))
        (Exn RuntimeError "DWARF line parsing requires little-endian ELF64");
  _ ← throw_if (negb (e_machine header =? EM_X86_64))
        (Exn RuntimeError "DWARF line parsing currently supports x86-64 ELF only");
  if e_shnum header =? 0 then Ok None
  else
    _ ← throw_if (negb (e_shentsize header =? sizeof_Shdr))
          (Exn RuntimeError "unsupported ELF section-header entry size");
    _ ← throw_if (e_shstrndx header =? SHN_XINDEX)
          (Exn RuntimeError "ELF extended section numbering is unsupported");
    if (e_shstrndx header =? SHN_UNDEF) || (e_shnum header <=? e_shstrndx header) then Ok None
    else
      sections ← mapM (fun index => read_struct_at "ELF section header" sizeof_Shdr shdr_at bytes
                          (u64 (e_shoff header + Z.of_nat index * sizeof_Shdr)))
                   (seq 0 (Z.to_nat (e_shnum header)));
      match sections !! Z.to_nat (e_shstrndx header) with
      | None => Undef "vector index out of range"
      | Some names =>
        _ ← require_range bytes (sh_offset names) (sh_size names) "ELF section-name table";
        named_section bytes wanted_name (sh_size names) (sh_offset names) (sh_offset names + sh_size names) sections
      end.

(* src/dwarf/line_table.cpp:222-232 read_section_string *)
Definition read_section_string (bytes : list byte) (section : option SectionRange) (offset : Z) (what : string)
    : res string :=
  match section with
  | None => runtime_error (what +:+ " section is missing")
  | Some section =>
    _ ← throw_if (sec_size section <=? offset)
          (Exn RuntimeError (what +:+ " offset is outside its string section"));
    run_from (sec_offset section + offset) (read_c_string bytes (sec_offset section + sec_size section) what)
  end.

(** ** Directory and file tables *)

(* src/dwarf/line_table.cpp:234-241 read_v4_file_entry *)
Definition read_v4_file_entry (bytes : list byte) (limit : Z) : M Z FileEntry :=
  name ← read_c_string bytes limit "DWARF file name";
  directory_index ← read_uleb bytes limit;
  _ ← read_uleb bytes limit;
  _ ← read_uleb bytes limit;
  mret (mkFileEntry name directory_index).

(** [m] run [n] times. *)
Fixpoint repeat_m {A} (n : nat) (m : M Z A) : M Z (list A) :=
  match n with
  | O => mret []
  | S n => x ← m; l ← repeat_m n m; mret (x :: l)
  end.

(* src/dwarf/line_table.cpp:243-255 read_v5_entry_formats *)
Definition read_v5_entry_formats (bytes : list byte) (header_end : Z) (what : string) : M Z (list EntryFormat) :=
  count ← read_scalar what bytes header_end 1;
  repeat_m (Z.to_nat count)
    (content ← read_uleb bytes header_end; form ← read_uleb bytes header_end; mret (mkFormat content form)).

(** [std::to_string] of an unsigned value. *)
Definition to_string (z : Z) : string := pretty (Z.to_N z).

(* src/dwarf/line_table.cpp:257-275 read_v5_unsigned_form *)
Definition read_v5_unsigned_form (bytes : list byte) (limit form : Z) : M Z Z :=
  if form =? kFormUdata then read_uleb bytes limit
  else if form =? kFormData1 then read_scalar "DWARF5 data1 form" bytes limit 1
  else if form =? kFormData2 then read_scalar "DWARF5 data2 form" bytes limit 2
  else if form =? kFormData4 then read_scalar "DWARF5 data4 form" bytes limit 4
  else if form =? kFormData8 then read_scalar "DWARF5 data8 form" bytes limit 8
  else mthrow RuntimeError ("unsupported DWARF5 unsigned line-table form " +:+ to_string form).

(* src/dwarf/line_table.cpp:277-293 read_v5_path_form *)
Definition read_v5_path_form (bytes : list byte) (limit form : Z) (line_strings : option SectionRange)
    : M Z string :=
  if form =? kFormString then read_c_string bytes limit "DWARF5 inline path"
  else if form =? kFormLineStrp then
    offset ← read_scalar "DWARF5 line_strp offset" bytes limit 4;
    lift (read_section_string bytes line_strings offset "DWARF5 line string")
  else mthrow RuntimeError ("unsupported DWARF5 path line-table form " +:+ to_string form).

Definition drop_value {A} (m : M Z A) : M Z unit := _ ← m; mret tt.

(* src/dwarf/line_table.cpp:295-337 skip_v5_form *)
Definition skip_v5_form (bytes : list byte) (limit form : Z) : M Z unit :=
  if form =? kFormString then drop_value (read_c_string bytes limit "DWARF5 string form")
  else if form =? kFormLineStrp then drop_value (read_scalar "DWARF5 line_strp offset" bytes limit 4)
  else if form =? kFormUdata then drop_value (read_uleb bytes limit)
  else if form =? kFormSdata then drop_value (read_sleb bytes limit)
  else if form =? kFormData1 then drop_value (read_scalar "DWARF5 data1 form" bytes limit 1)
  else if form =? kFormData2 then drop_value (read_scalar "DWARF5 data2 form" bytes limit 2)
  else if form =? kFormData4 then drop_value (read_scalar "DWARF5 data4 form" bytes limit 4)
  else if form =? kFormData8 then drop_value (read_scalar "DWARF5 data8 form" bytes limit 8)
  else if form =? kFormData16 then
    cursor ← mget;
    _ ← mthrow_if ((limit <? cursor) || (limit - cursor <? 16)) RuntimeError
          "DWARF5 data16 form extends past header boundary";
    modify (fun c => c + 16)
  else mthrow RuntimeError ("unsupported DWARF5 line-table form " +:+ to_string form).

(* src/dwarf/line_table.cpp:344-354 read_v5_entry *)
Fixpoint read_v5_columns (bytes : list byte) (limit : Z) (formats : list EntryFormat)
    (line_strings : option SectionRange) (path : option string) (directory_index : Z)
    : M Z (option string * Z) :=
  match formats with
  | [] => mret (path, directory_index)
  | format :: formats =>
    if content_type format =? kLnctPath then
      _ ← mthrow_if (bool_decide (is_Some path)) RuntimeError "duplicate DWARF5 path column";
      p ← read_v5_path_form bytes limit (form format) line_strings;
      read_v5_columns bytes limit formats line_strings (Some p) directory_index
    else if content_type format =? kLnctDirectoryIndex then
      index ← read_v5_unsigned_form bytes limit (form format);
      read_v5_columns bytes limit formats line_strings path index
    else
      _ ← skip_v5_form bytes limit (form format);
      read_v5_columns bytes limit formats line_strings path directory_index
  end.

(* src/dwarf/line_table.cpp:339-356 read_v5_entry *)
Definition read_v5_entry (bytes : list byte) (limit : Z) (formats : list EntryFormat)
    (line_strings : option SectionRange) : M Z FileEntry :=
  '(path, directory_index) ← read_v5_columns bytes limit formats line_strings None 0;
  match path with
  | None => mthrow RuntimeError "DWARF5 line-table entry has no path column"
  | Some path => mret (mkFileEntry path directory_index)
  end.

(** A count of entries, bounded by the bytes left. *)
Definition read_v5_count (bytes : list byte) (header_end : Z) (msg : string) : M Z nat :=
  count ← read_uleb bytes header_end;
  cursor ← mget;
  _ ← mthrow_if (u64 (header_end - cursor) <? count) RuntimeError msg;
  mret (Z.to_nat count).

(* src/dwarf/line_table.cpp:358-384 read_v5_directory_and_file_tables *)
Definition read_v5_directory_and_file_tables (bytes : list byte) (header_end : Z)
    (line_strings : option SectionRange) : M Z (list string * list FileEntry) :=
  directory_formats ← read_v5_entry_formats bytes header_end "directory format count";
  directory_count ← read_v5_count bytes header_end "DWARF5 directory count exceeds header bounds";
  directories ← repeat_m directory_count (read_v5_entry bytes header_end directory_formats line_strings);
  file_formats ← read_v5_entry_formats bytes header_end "file format count";
  file_count ← read_v5_count bytes header_end "DWARF5 file count exceeds header bounds";
  files ← repeat_m file_count (read_v5_entry bytes header_end file_formats line_strings);
  mret (map fe_name directories, files).

(** [while (cursor < header_end)] until an empty string. *)
(* src/dwarf/line_table.cpp:516-521 DwarfLineTable::parse *)
Fixpoint v4_directories (fuel : nat) (bytes : list byte) (header_end : Z) : M Z (list string) :=
  cursor ← mget;
  if cursor <? header_end then
    match fuel with
    | O => mout_of_fuel
    | S fuel =>
      directory ← read_c_string bytes header_end "DWARF include directory";
      match directory with
      | EmptyString => mret []
      | _ => rest ← v4_directories fuel bytes header_end; mret (directory :: rest)
      end
    end
  else mret [].

(* src/dwarf/line_table.cpp:523-529 DwarfLineTable::parse *)
Fixpoint v4_files (fuel : nat) (bytes : list byte) (header_end : Z) : M Z (list FileEntry) :=
  before ← mget;
  if before <? header_end then
    match fuel with
    | O => mout_of_fuel
    | S fuel =>
      name ← read_c_string bytes header_end "DWARF file name";
      match name with
      | EmptyString => mret []
      | _ =>
        _ ← modify (fun _ => before);
        file ← read_v4_file_entry bytes header_end;
        rest ← v4_files fuel bytes header_end;
        mret (file :: rest)
      end
    end
  else mret [].

(** ** Source locations *)

(* src/dwarf/line_table.cpp:386-394 file_entry_offset *)
Definition file_entry_offset (file_index : Z) (file_count : nat) (dwarf5 : bool) : option nat :=
  if dwarf5 then
    if Z.of_nat file_count <=? file_index then None else Some (Z.to_nat file_index)
  else if (file_index =? 0) || (Z.of_nat file_count <? file_index) then None
  else Some (Z.to_nat (file_index - 1)).

(* src/dwarf/line_table.cpp:396-414 resolved_file_path *)
Definition resolved_file_path (file : FileEntry) (directories : list string) (dwarf5 : bool) : string :=
  let path := fe_name file in
  let index := fe_directory_index file in
  if path_is_absolute path then path
  else if dwarf5 then
    match directories !! Z.to_nat index with Some directory => path_append directory path | None => path end
  else if index =? 0 then path
  else match directories !! Z.to_nat (index - 1) with
       | Some directory => path_append directory path
       | None => path
       end.

(* src/dwarf/line_table.cpp:416-425 source_location *)
Definition source_location (state : State) (directories : list string) (files : list FileEntry) (dwarf5 : bool)
    : option SourceLocation :=
  if ln_line state <=? 0 then None
  else
    index ← file_entry_offset (ln_file state) (length files) dwarf5;
    file ← files !! index;
    Some (mkLocation (resolved_file_path file directories dwarf5) (ln_line state) (ln_column state)).

(** ** Unit headers *)

Record unit_header := mkUnit {
  dwarf5 : bool;
  unit_end : Z;
  header_end : Z;
  minimum_instruction_length : Z;
  line_base : Z;
  line_range : Z;
  opcode_base : Z;
  standard_opcode_lengths : list Z
}.

(** The version, and for version 5 the sizes of an address and a segment selector. *)
(* src/dwarf/line_table.cpp:451-470 DwarfLineTable::parse *)
Definition read_version (bytes : list byte) (unit_end : Z) : M Z bool :=
  version ← read_scalar "DWARF line-table version" bytes unit_end 2;
  _ ← mthrow_if (negb (version =? 4) && negb (version =? 5)) RuntimeError
        ("DWARF line table version " +:+ to_string version +:+
         " is unsupported; versions 4 and 5 are supported");
  if version =? 5 then
    address_size ← read_scalar "DWARF5 address size" bytes unit_end 1;
    segment_selector_size ← read_scalar "DWARF5 segment selector size" bytes unit_end 1;
    _ ← mthrow_if (negb (address_size =? 8)) RuntimeError
          "DWARF5 line table address size does not match ELF64";
    _ ← mthrow_if (negb (segment_selector_size =? 0)) RuntimeError
          "DWARF5 segmented addresses are unsupported";
    mret true
  else mret false.

(* src/dwarf/line_table.cpp:440-505 DwarfLineTable::parse *)
Definition read_unit_header (bytes : list byte) (section_end : Z) : M Z unit_header :=
  unit_length ← read_scalar "DWARF unit length" bytes section_end 4;
  _ ← mthrow_if (unit_length =? 0xffffffff) RuntimeError "64-bit DWARF line-table format is unsupported";
  _ ← mthrow_if (unit_length =? 0) RuntimeError "zero-length DWARF line-table unit";
  cursor ← mget;
  _ ← mthrow_if (section_end - cursor <? unit_length) RuntimeError
        "DWARF line-table unit extends past .debug_line";
  let unit_end := cursor + unit_length in
  dwarf5 ← read_version bytes unit_end;
  header_length ← read_scalar "DWARF line header length" bytes unit_end 4;
  cursor ← mget;
  _ ← mthrow_if (unit_end - cursor <? header_length) RuntimeError
        "DWARF line-table header extends past unit boundary";
  let header_end := cursor + header_length in
  minimum_instruction_length ← read_scalar "minimum instruction length" bytes header_end 1;
  maximum_operations_per_instruction ← read_scalar "maximum operations per instruction" bytes header_end 1;
  _ ← mthrow_if ((minimum_instruction_length =? 0) || negb (maximum_operations_per_instruction =? 1))
        RuntimeError "DWARF line tables with multi-operation instructions are unsupported";
  _ ← read_scalar "default is_stmt" bytes header_end 1;
  line_base ← read_scalar "line base" bytes header_end 1;
  line_range ← read_scalar "line range" bytes header_end 1;
  opcode_base ← read_scalar "opcode base" bytes header_end 1;
  _ ← mthrow_if ((line_range =? 0) || (opcode_base =? 0)) RuntimeError
        "invalid DWARF line-table opcode parameters";
  lengths ← repeat_m (Z.to_nat (opcode_base - 1)) (read_scalar "standard opcode operand count" bytes header_end 1);
  mret (mkUnit dwarf5 unit_end header_end minimum_instruction_length (to_signed 8 line_base) line_range
          opcode_base lengths).

(** The directories and files of a unit; the cursor ends after the header. *)
(* src/dwarf/line_table.cpp:507-531 DwarfLineTable::parse *)
Definition read_unit_tables (bytes : list byte) (line_strings : option SectionRange) (h : unit_header)
    : M Z (list string * list FileEntry) :=
  tables ← (if dwarf5 h then
              tables ← read_v5_directory_and_file_tables bytes (header_end h) line_strings;
              cursor ← mget;
              _ ← mthrow_if (negb (cursor =? header_end h)) RuntimeError
                    "DWARF5 line-table header has trailing bytes";
              mret tables
            else
              cursor ← mget;
              directories ← v4_directories (Z.to_nat (header_end h - cursor)) bytes (header_end h);
              cursor ← mget;
              files ← v4_files (Z.to_nat (header_end h - cursor)) bytes (header_end h);
              mret (directories, files));
  _ ← modify (fun _ => header_end h);
  mret tables.

(** ** The line-number program *)

(** The registers, the previous row, the ranges and the files of a running program. *)
Record program := mkProgram {
  pg_state : State;
  pg_previous : option Row;
  pg_ranges : list Range;
  pg_files : list FileEntry
}.

Definition set_state (s : State) (p : program) : program :=
  mkProgram s (pg_previous p) (pg_ranges p) (pg_files p).
Definition set_address (a : Z) (s : State) : State := mkState a (ln_file s) (ln_line s) (ln_column s).
Definition set_line (l : Z) (s : State) : State := mkState (ln_address s) (ln_file s) l (ln_column s).
Definition advance_address (delta : Z) (p : program) : program :=
  set_state (set_address (u64 (ln_address (pg_state p) + delta)) (pg_state p)) p.

(** [state.line += delta]: an overflow of the signed register is undefined. *)
Definition advance_line (delta : Z) (p : program) : res program :=
  let line := ln_line (pg_state p) + delta in
  if (i64_min <=? line) && (line <=? i64_max) then Ok (set_state (set_line line (pg_state p)) p)
  else Undef "signed integer overflow".

Section Program.
Context (bytes : list byte) (h : unit_header) (directories : list string) (file_table_index : nat).

(* src/dwarf/line_table.cpp:538-548 DwarfLineTable::parse *)
Definition emit (end_sequence : bool) (p : program) : program :=
  let state := pg_state p in
  let emitted :=
    match pg_previous p with
    | Some (mkRow address (Some location)) =>
      if address <? ln_address state then [mkRange address (ln_address state) location file_table_index] else []
    | _ => []
    end in
  mkProgram state
    (if end_sequence then None
     else Some (mkRow (ln_address state) (source_location state directories (pg_files p) (dwarf5 h))))
    (pg_ranges p ++ emitted) (pg_files p).

(** An extended opcode; the cursor ends after its payload. *)
(* src/dwarf/line_table.cpp:554-586 DwarfLineTable::parse *)
Definition execute_extended_opcode (p : program) : M Z program :=
  payload_length ← read_uleb bytes (unit_end h);
  cursor ← mget;
  _ ← mthrow_if ((payload_length =? 0) || (u64 (unit_end h - cursor) <? payload_length)) RuntimeError
        "invalid DWARF extended line opcode length";
  let payload_end := cursor + payload_length in
  extended_opcode ← read_scalar "DWARF extended line opcode" bytes payload_end 1;
  p ← (if extended_opcode =? kLneEndSequence then mret (set_state initial_state (emit true p))
       else if extended_opcode =? kLneSetAddress then
         cursor ← mget;
         _ ← mthrow_if (negb (payload_end - cursor =? 8)) RuntimeError
               "DWARF set_address width does not match line header";
         address ← read_scalar "DWARF set_address operand" bytes payload_end 8;
         mret (set_state (set_address address (pg_state p)) p)
       else if extended_opcode =? kLneDefineFile then
         _ ← mthrow_if (dwarf5 h) RuntimeError "DWARF5 define_file opcode is unsupported";
         file ← read_v4_file_entry bytes payload_end;
         mret (mkProgram (pg_state p) (pg_previous p) (pg_ranges p) (pg_files p ++ [file]))
       else if extended_opcode =? kLneSetDiscriminator then
         _ ← read_uleb bytes payload_end; mret p
       else mret p);
  _ ← modify (fun _ => payload_end);
  mret p.

(** [adjusted / line_range] operations of the minimum instruction length. *)
Definition operation_advance (adjusted : Z) : Z := adjusted / line_range h * minimum_instruction_length h.

(* src/dwarf/line_table.cpp:590-636 DwarfLineTable::parse *)
Definition execute_standard_opcode (opcode : Z) (p : program) : M Z program :=
  let state := pg_state p in
  if opcode =? kLnsCopy then mret (emit false p)
  else if opcode =? kLnsAdvancePc then
    n ← read_uleb bytes (unit_end h);
    mret (advance_address (u64 (n * minimum_instruction_length h)) p)
  else if opcode =? kLnsAdvanceLine then
    n ← read_sleb bytes (unit_end h); lift (advance_line n p)
  else if opcode =? kLnsSetFile then
    n ← read_uleb bytes (unit_end h);
    mret (set_state (mkState (ln_address state) n (ln_line state) (ln_column state)) p)
  else if opcode =? kLnsSetColumn then
    n ← read_uleb bytes (unit_end h);
    mret (set_state (mkState (ln_address state) (ln_file state) (ln_line state) n) p)
  else if (opcode =? kLnsNegateStmt) || (opcode =? kLnsSetBasicBlock) ||
          (opcode =? kLnsSetPrologueEnd) || (opcode =? kLnsSetEpilogueBegin) then mret p
  else if opcode =? kLnsConstAddPc then mret (advance_address (operation_advance (255 - opcode_base h)) p)
  else if opcode =? kLnsFixedAdvancePc then
    n ← read_scalar "fixed advance PC operand" bytes (unit_end h) 2; mret (advance_address n p)
  else if opcode =? kLnsSetIsa then _ ← read_uleb bytes (unit_end h); mret p
  else
    match standard_opcode_lengths h !! Z.to_nat (opcode - 1) with
    | None => mundef "vector index out of range"
    | Some count => _ ← repeat_m (Z.to_nat count) (read_uleb bytes (unit_end h)); mret p
    end.

(* src/dwarf/line_table.cpp:638-643 DwarfLineTable::parse *)
Definition execute_special_opcode (opcode : Z) (p : program) : res program :=
  let adjusted := opcode - opcode_base h in
  p ← advance_line (line_base h + adjusted mod line_range h) (advance_address (operation_advance adjusted) p);
  Ok (emit false p).

(* src/dwarf/line_table.cpp:552-644 DwarfLineTable::parse *)
Definition execute_opcode (p : program) : M Z program :=
  opcode ← read_scalar "DWARF line opcode" bytes (unit_end h) 1;
  if opcode =? 0 then execute_extended_opcode p
  else if opcode <? opcode_base h then execute_standard_opcode opcode p
  else lift (execute_special_opcode opcode p).

(** [while (cursor < unit_end)]: every opcode has a byte. *)
(* src/dwarf/line_table.cpp:536-644 DwarfLineTable::parse *)
Fixpoint run_program (fuel : nat) (p : program) : M Z program :=
  cursor ← mget;
  if cursor <? unit_end h then
    match fuel with
    | O => mout_of_fuel
    | S fuel => p ← execute_opcode p; run_program fuel p
    end
  else mret p.
End Program.

(** ** The whole section *)

(** One unit of the section: its ranges, and the paths of its files. *)
(* src/dwarf/line_table.cpp:440-650 DwarfLineTable::parse *)
Definition parse_unit (bytes : list byte) (line_strings : option SectionRange) (section_end : Z)
    (t : list FileTable * list Range) : M Z (list FileTable * list Range) :=
  let '(tables, ranges) := t in
  h ← read_unit_header bytes section_end;
  '(directories, files) ← read_unit_tables bytes line_strings h;
  cursor ← mget;
  p ← run_program bytes h directories (length tables) (Z.to_nat (unit_end h - cursor))
        (mkProgram initial_state None ranges files);
  mret (tables ++ [mkFileTable (dwarf5 h)
                     (map (fun file => resolved_file_path file directories (dwarf5 h)) (pg_files p))],
        pg_ranges p).

(* src/dwarf/line_table.cpp:437-651 DwarfLineTable::parse *)
Fixpoint parse_units (fuel : nat) (bytes : list byte) (line_strings : option SectionRange) (section_end : Z)
    (t : list FileTable * list Range) : M Z (list FileTable * list Range) :=
  cursor ← mget;
  if cursor <? section_end then
    match fuel with
    | O => mout_of_fuel
    | S fuel =>
      t ← parse_unit bytes line_strings section_end t;
      parse_units fuel bytes line_strings section_end t
    end
  else mret t.

(* src/dwarf/line_table.cpp:653-656 DwarfLineTable::parse *)
Definition range_less (left right : Range) : bool :=
  if negb (range_begin left =? range_begin right) then range_begin left <? range_begin right
  else range_end left <? range_end right.
Definition range_le (a b : Range) : Prop := range_less b a = false.
#[export] Instance range_le_dec : RelDecision range_le.
Proof. intros a b. unfold range_le. apply _. Defined.

(** [std::sort] leaves the order of equal ranges open; the theorems about a table hold
    for every sorted order. *)
(* src/dwarf/line_table.cpp:431-657 DwarfLineTable::parse *)
Definition parse_line_table (path : string) (bytes : list byte) : res DwarfLineTable :=
  section ← find_debug_section bytes ".debug_line";
  match section with
  | None => Ok (mkLineTable path [] [])
  | Some section =>
    line_strings ← find_debug_section bytes ".debug_line_str";
    let section_end := sec_offset section + sec_size section in
    '(tables, ranges) ← run_from (sec_offset section)
      (parse_units (Z.to_nat (sec_size section)) bytes line_strings section_end ([], []));
    Ok (mkLineTable path tables (merge_sort range_le ranges))
  end.

(** ** Lookups *)

(** [std::prev(std::upper_bound(...))]: the last range that does not start after the
    address; in a sorted list the ranges that do are a suffix. *)
Fixpoint last_not_after (address : Z) (found : option Range) (l : list Range) : option Range :=
  match l with
  | [] => found
  | range :: l => if address <? range_begin range then found else last_not_after address (Some range) l
  end.

(* src/dwarf/line_table.cpp:659-668 DwarfLineTable::find_virtual_address *)
Definition find_virtual_address (t : DwarfLineTable) (address : Z) : option SourceLocation :=
  range ← last_not_after address None (ranges t);
  if (address <? range_begin range) || (range_end range <=? address) then None
  else Some (range_location range).

(** The unit that owns the address; a second one is an error. *)
(* src/dwarf/line_table.cpp:680-688 DwarfLineTable::find_virtual_file *)
Fixpoint range_owner (address : Z) (owner : option nat) (l : list Range) : res (option nat) :=
  match l with
  | [] => Ok owner
  | range :: l =>
    if (address <? range_begin range) || (range_end range <=? address) then range_owner address owner l
    else match owner with
         | None => range_owner address (Some (range_file_table range)) l
         | Some o =>
           if negb (o =? range_file_table range)%nat
           then runtime_error "virtual address is owned by multiple DWARF line-table units"
           else range_owner address owner l
         end
  end.

(* src/dwarf/line_table.cpp:677-699 DwarfLineTable::find_virtual_file *)
Definition find_virtual_file (t : DwarfLineTable) (address file_index : Z) : res (option string) :=
  owner ← range_owner address None (ranges t);
  match owner with
  | None => Ok None
  | Some owner =>
    match file_tables t !! owner with
    | None => logic_error "DWARF line range lost its owning file table"
    | Some table =>
      Ok (offset ← file_entry_offset file_index (length (ft_files table)) (ft_dwarf5 table);
          ft_files table !! offset)
    end
  end.

Section Files.
Context `{H : Host}.

(* src/dwarf/line_table.cpp:155-168 read_file *)
Definition read_file (path : string) : res (list byte) :=
  match h_file path with
  | FileOpenFailed => runtime_error ("failed to open ELF file: " +:+ path)
  | FileSizeFailed => runtime_error "failed to determine ELF file size"
  | FileReadFailed => runtime_error "failed to read ELF file"
  | FileBytes bytes => Ok bytes
  end.

(* src/dwarf/line_table.cpp:429-432 DwarfLineTable::DwarfLineTable *)
Definition open_line_table (path : string) : res DwarfLineTable :=
  bytes ← read_file path;
  parse_line_table path bytes.

Context `{K : Kernel} `{PM : !ProcMaps K}.

(* src/dwarf/line_table.cpp:670-675 DwarfLineTable::find_runtime_address *)
Definition find_runtime_address (t : DwarfLineTable) (pid address : Z) (elf : Elf.ElfFile)
    : M world (option SourceLocation) :=
  bias ← Elf.load_bias elf pid;
  if address <? bias then mret None else mret (find_virtual_address t (address - bias)).
End Files.
