(* ===== verification/SourceLines.v ===== *)
(** * From a source line to an address

    [DwarfLineTable::find_virtual_source] and [find_runtime_source]
    ([src/dwarf/source_lookup_impl.inc]): the lowest address of the ranges of a line, for a
    file given by its path or by its name alone. *)

From S2P Require Import Prelude Machine Paths ByteReader ElfFormat LineTable.
From S2P Require Elf.

Record source_query := mkQuery { q_best : option Z; q_matched : option string }.

(* src/dwarf/source_lookup_impl.inc:3123-3123 DwarfLineTable::find_virtual_source *)
Definition qualified_query (file : string) : bool := path_is_absolute file || path_has_parent file.

(* src/dwarf/source_lookup_impl.inc:3128-3131 DwarfLineTable::find_virtual_source *)
Definition matches_file (file candidate : string) : bool :=
  if qualified_query file then path_eqb (lexically_normal candidate) (lexically_normal file)
  else path_eqb (path_filename candidate) (path_filename (lexically_normal file)).

(* src/dwarf/source_lookup_impl.inc:3126-3142 DwarfLineTable::find_virtual_source *)
Definition source_step (file : string) (line : Z) (q : source_query) (range : Range) : res source_query :=
  let candidate := loc_file (range_location range) in
  if negb (loc_line (range_location range) =? line) then Ok q
  else if negb (matches_file file candidate) then Ok q
  else
    matched ←
      (if qualified_query file then Ok (q_matched q)
       else
         let candidate_identity := normalized_source_path candidate in
         _ ← throw_if (match q_matched q with
                       | Some matched_file => negb (String.eqb matched_file candidate_identity)
                       | None => false
                       end)
               (Exn RuntimeError ("ambiguous source file for line lookup: " +:+ file));
         Ok (Some candidate_identity));
    let best := match q_best q with
                | None => Some (range_begin range)
                | Some b => if range_begin range <? b then Some (range_begin range) else Some b
                end in
    Ok (mkQuery best matched).

(* src/dwarf/source_lookup_impl.inc:3118-3144 DwarfLineTable::find_virtual_source *)
Definition find_virtual_source (t : DwarfLineTable) (file : string) (line : Z) : res (option Z) :=
  if String.eqb file EmptyString || (line =? 0) then Ok None
  else
    q ← Elf.res_fold (source_step file line) (ranges t) (mkQuery None None);
    Ok (q_best q).

Section Runtime.
Context `{H : Host} `{K : Kernel} `{PM : !ProcMaps K}.

(* src/dwarf/source_lookup_impl.inc:3146-3155 DwarfLineTable::find_runtime_source *)
Definition find_runtime_source (t : DwarfLineTable) (pid : Z) (file : string) (line : Z) (elf : Elf.ElfFile)
    : M world (option Z) :=
  virtual_address ← lift (find_virtual_source t file line);
  match virtual_address with
  | None => mret None
  | Some virtual_address =>
    bias ← Elf.load_bias elf pid;
    _ ← mthrow_if (u64_max - bias <? virtual_address) RuntimeError
          "source address overflows runtime address space";
    mret (Some (virtual_address + bias))
  end.
End Runtime.

(** ** The lowest matching address *)

(** The ranges of the line whose file answers the query. *)
Definition answers (file : string) (line : Z) (range : Range) : Prop :=
  loc_line (range_location range) = line /\ matches_file file (loc_file (range_location range)) = true.

Definition identity_of (range : Range) : string := normalized_source_path (loc_file (range_location range)).

(** What the fold knows after the ranges [l]. *)
Definition query_inv (file : string) (line : Z) (l : list Range) (q : source_query) : Prop :=
  match q_best q with
  | None => forall r, r ∈ l -> ~ answers file line r
  | Some b => (exists r, r ∈ l /\ answers file line r /\ range_begin r = b) /\
              forall r, r ∈ l -> answers file line r -> b <= range_begin r
  end /\
  (qualified_query file = false ->
   match q_matched q with
   | None => q_best q = None
   | Some m => (exists r, r ∈ l /\ answers file line r) /\ forall r, r ∈ l -> answers file line r -> identity_of r = m
   end).

Lemma elem_snoc {A} (l : list A) x y : x ∈ l ++ [y] <-> x ∈ l \/ x = y.
Proof. by rewrite elem_of_app, list_elem_of_singleton. Qed.

Definition ambiguous (file : string) (line : Z) (l : list Range) : Prop :=
  qualified_query file = false /\
  exists r1 r2, r1 ∈ l /\ r2 ∈ l /\ answers file line r1 /\ answers file line r2 /\ identity_of r1 <> identity_of r2.

Lemma source_step_inv file line l q range :
  query_inv file line l q ->
  match source_step file line q range with
  | Ok q' => query_inv file line (l ++ [range]) q'
  | Throw e => exn_cls e = RuntimeError /\ ambiguous file line (l ++ [range])
  | _ => False
  end.
Proof.
  intros [Hb Hm]. unfold source_step.
  assert (Hskip : ~ answers file line range -> query_inv file line (l ++ [range]) q).
  { intros Hn. split; [destruct (q_best q) as [b|]|intros Hq; specialize (Hm Hq); destruct (q_matched q)].
    - destruct Hb as [(r & Hr & Ha & Hbr) Hmin]. split; [exists r; by rewrite elem_snoc; auto|].
      intros r' [Hr'| ->]%elem_snoc Ha'; [by apply Hmin|done].
    - intros r [Hr| ->]%elem_snoc; auto.
    - destruct Hm as [(r & Hr & Ha) Hall]. split; [exists r; by rewrite elem_snoc; auto|].
      intros r' [Hr'| ->]%elem_snoc Ha'; [by apply Hall|done].
    - done. }
  destruct (Z.eqb_spec (loc_line (range_location range)) line) as [El|El]; cbn [negb]; [|apply Hskip; by intros [? _]].
  destruct (matches_file file (loc_file (range_location range))) eqn:Ef; cbn [negb];
    [|apply Hskip; intros [_ ?]; congruence].
  assert (Ha : answers file line range) by done. clear Hskip.
  assert (Hbest : forall m', (qualified_query file = false ->
      match m' with
      | None => False
      | Some m => forall r, r ∈ l ++ [range] -> answers file line r -> identity_of r = m
      end) ->
    query_inv file line (l ++ [range]) (mkQuery (match q_best q with
      | None => Some (range_begin range)
      | Some b => if range_begin range <? b then Some (range_begin range) else Some b end) m')).
  { intros m' Hm'. split.
    - cbn [q_best]. destruct (q_best q) as [b|].
      + destruct Hb as [(r & Hr & Har & Hbr) Hmin].
        destruct (Z.ltb_spec (range_begin range) b).
        * split; [exists range; by rewrite elem_snoc; auto|]. intros r' [Hr'| ->]%elem_snoc Ha'; [|lia].
          specialize (Hmin r' Hr' Ha'). lia.
        * split; [exists r; by rewrite elem_snoc; auto|]. intros r' [Hr'| ->]%elem_snoc Ha'; [by apply Hmin|lia].
      + split; [exists range; by rewrite elem_snoc; auto|]. intros r' [Hr'| ->]%elem_snoc Ha'; [by destruct (Hb r' Hr')|lia].
    - intros Hq. specialize (Hm' Hq). cbn [q_matched]. destruct m'; [|done].
      split; [exists range; by rewrite elem_snoc; auto|done]. }
  destruct (qualified_query file) eqn:Eq; cbn [mbind res_bind]; [by apply Hbest|].
  specialize (Hm eq_refl). destruct (q_matched q) as [m|] eqn:Em.
  - destruct (String.eqb_spec m (normalized_source_path (loc_file (range_location range)))) as [E|E];
      cbn [negb throw_if mbind res_bind].
    + apply Hbest. intros _ r [Hr| ->]%elem_snoc Har; [|done]. rewrite <- E. by apply Hm.
    + destruct Hm as [(r & Hr & Har) Hall]. split; [done|]. split; [done|]. exists r, range.
      rewrite !elem_snoc. split; [by left|]. split; [by right|]. split; [done|]. split; [done|].
      by rewrite (Hall r Hr Har).
  - cbn [throw_if mbind res_bind]. apply Hbest. intros _ r [Hr| ->]%elem_snoc Har; [|done].
    rewrite Hm in Hb. by destruct (Hb r Hr).
Qed.

Lemma source_fold_inv file line rest l q :
  query_inv file line l q ->
  match Elf.res_fold (source_step file line) rest q with
  | Ok q' => query_inv file line (l ++ rest) q'
  | Throw e => exn_cls e = RuntimeError /\ ambiguous file line (l ++ rest)
  | _ => False
  end.
Proof.
  revert l q. induction rest as [|range rest IH]; intros l q Hq; cbn [Elf.res_fold]; [by rewrite app_nil_r|].
  pose proof (source_step_inv file line l q range Hq) as Hs.
  destruct (source_step file line q range) as [q'|e|w|]; cbn [mbind res_bind]; try done.
  - specialize (IH _ _ Hs). by rewrite <- app_assoc in IH.
  - destruct Hs as [He (Hq' & r1 & r2 & H1 & H2 & H3)]. split; [done|]. split; [done|]. exists r1, r2.
    rewrite !elem_snoc in H1, H2. rewrite !elem_of_app, !elem_of_cons. naive_solver.
Qed.

(** a source line resolves to the lowest address of the ranges of that line in the file asked
    for; a file given by its name alone must be one file. Nothing is found only when no range
    answers, and the one error is a name that is ambiguous. *)
Theorem find_virtual_source_spec t file line :
  match find_virtual_source t file line with
  | Ok (Some address) =>
      (exists r, r ∈ ranges t /\ answers file line r /\ range_begin r = address) /\
      (forall r, r ∈ ranges t -> answers file line r -> address <= range_begin r) /\
      ~ ambiguous file line (ranges t)
  | Ok None => file = EmptyString \/ line = 0 \/ forall r, r ∈ ranges t -> ~ answers file line r
  | Throw e => exn_cls e = RuntimeError /\ ambiguous file line (ranges t)
  | Undef _ | OutOfFuel => False
  end.
Proof.
  unfold find_virtual_source. destruct (String.eqb_spec file EmptyString) as [->|_]; [by left|].
  destruct (Z.eqb_spec line 0) as [->|_]; [right; by left|]. cbn [orb].
  assert (H0 : query_inv file line [] (mkQuery None None)) by (split; [by intros r ?%not_elem_of_nil|done]).
  pose proof (source_fold_inv file line (ranges t) [] _ H0) as Hf. cbn [app] in Hf.
  destruct (Elf.res_fold (source_step file line) (ranges t) (mkQuery None None)) as [q|e|w|]; cbn [mbind res_bind]; try done.
  destruct Hf as [Hb Hm]. destruct (q_best q) as [b|]; [|right; by right].
  destruct Hb as [Hex Hmin]. split; [done|]. split; [done|]. intros (Hq & r1 & r2 & H1 & H2 & A1 & A2 & Hne).
  specialize (Hm Hq). destruct (q_matched q) as [m|]; [|done]. destruct Hm as [_ Hall]. apply Hne.
  by rewrite (Hall r1), (Hall r2).
Qed.
