(* ===== verification/ModuleMap.v ===== *)
(** * Modules of a running process ([src/unwind/cfi.cpp])

    Which file is mapped at an address, and symbols and source lines across all the mapped
    modules.  Whether two paths are one file is asked of the file system. *)

From stdpp Require Import pretty.
From S2P Require Import Prelude Machine Paths ByteReader ElfFormat.
From S2P Require Process Elf LineTable SourceLines.

(** [std::filesystem::equivalent]; [None]: an error. *)
Class FileIdentity := { h_equivalent : string -> string -> option bool }.

(* src/unwind/cfi.hpp:73-77 ModuleResolvedSymbol *)
Record ModuleResolvedSymbol := mkModuleSymbol { ms_module_path : string; ms_name : string; ms_offset : Z }.
(* src/unwind/cfi.hpp:79-83 ModuleResolvedSymbolAddress *)
Record ModuleResolvedSymbolAddress :=
  mkModuleSymbolAddress { msa_module_path : string; msa_name : string; msa_address : Z }.
(* src/unwind/cfi.hpp:85-90 ModuleResolvedSource *)
Record ModuleResolvedSource :=
  mkModuleSource { mo_module_path : string; mo_file : string; mo_line : Z; mo_column : Z }.
(* src/unwind/cfi.hpp:92-97 ModuleResolvedSourceAddress *)
Record ModuleResolvedSourceAddress :=
  mkModuleSourceAddress { moa_module_path : string; moa_file : string; moa_line : Z; moa_address : Z }.

(** ** Lines of the memory map *)

(* src/unwind/cfi.cpp:21-27 trim_left *)
Definition trim_left : string -> string := Elf.trim_left.

(* src/unwind/cfi.cpp:29-32 is_deleted_mapping *)
Definition is_deleted_mapping (path : string) : bool :=
  (10 <=? String.length path)%nat &&
  String.eqb (String.substring (String.length path - 10) 10 path) " (deleted)".

(** Five fields, and the text after them; [None] where the source says [continue]. *)
(* src/unwind/cfi.cpp:47-49 mapped_module_path *)
Definition map_fields (line : string) : option (string * string) :=
  '(range, s) ← Elf.next_token line;
  '(permissions, s) ← Elf.next_token s;
  '(offset, s) ← Elf.next_token s;
  '(device, s) ← Elf.next_token s;
  '(inode, s) ← Elf.next_token s;
  Some (range, s).

(** The two numbers of a range; every exception of [std::stoull] is caught. *)
(* src/unwind/cfi.cpp:50-60 mapped_module_path *)
Definition map_range (range : string) : option (Z * Z) :=
  dash ← String.index 0 "-" range;
  match Elf.stoull16 (String.substring 0 dash range),
        Elf.stoull16 (String.substring (S dash) (String.length range) range) with
  | Ok begin_, Ok end_ => Some (begin_, end_)
  | _, _ => None
  end.

(* src/unwind/cfi.cpp:63-69 mapped_module_path *)
Definition module_of_mapping (rest : string) : option string :=
  let path := trim_left rest in
  match path with
  | String "/" _ => if is_deleted_mapping path then None else Some path
  | _ => None
  end.

(** [None]: the next line; [Some r]: the function returns [r]. *)
(* src/unwind/cfi.cpp:47-69 mapped_module_path *)
Definition mapped_line (address : Z) (line : string) : option (option string) :=
  '(range, rest) ← map_fields line;
  '(begin_, end_) ← map_range range;
  if (address <? begin_) || (end_ <=? address) then None
  else Some (module_of_mapping rest).

(* src/unwind/cfi.cpp:45-71 mapped_module_path *)
Fixpoint first_mapping (address : Z) (lines : list string) : option string :=
  match lines with
  | [] => None
  | line :: lines =>
    match mapped_line address line with
    | Some r => r
    | None => first_mapping address lines
    end
  end.

Section Modules.
Context `{H : Host} `{FI : FileIdentity}.

(* src/unwind/cfi.cpp:34-39 same_file *)
Definition same_file (left right : string) : bool :=
  match h_equivalent left right with
  | Some equivalent => equivalent
  | None => String.eqb left right
  end.

(* src/unwind/cfi.cpp:81-93 mapped_module_paths *)
Definition add_module_path (paths : list string) (line : string) : list string :=
  match map_fields line with
  | None => paths
  | Some (_, rest) =>
    match module_of_mapping rest with
    | None => paths
    | Some path => if existsb (fun known => same_file known path) paths then paths else paths ++ [path]
    end
  end.

Context `{K : Kernel} `{PM : !ProcMaps K}.

(* src/unwind/cfi.cpp:41-72 mapped_module_path *)
Definition mapped_module_path (pid address : Z) : M world (option string) := fun w =>
  match k_maps pid w with
  | None => (runtime_error "failed to open tracee memory map for CFI unwind", w)
  | Some lines => (Ok (first_mapping address lines), w)
  end.

(* src/unwind/cfi.cpp:74-96 mapped_module_paths *)
Definition mapped_module_paths (pid : Z) : M world (list string) := fun w =>
  match k_maps pid w with
  | None => (runtime_error "failed to open tracee memory map for source lookup", w)
  | Some lines => (Ok (foldl add_module_path [] lines), w)
  end.

(** The preferred file when [path] is the same file; else the file at [path], [None] when an
    exception is caught. *)
(* src/unwind/cfi.cpp:101-110 symbol_address_in_module *)
Definition module_elf (path : string) (preferred_elf : Elf.ElfFile) : res (option Elf.ElfFile) :=
  if negb (same_file path (Elf.elf_path preferred_elf)) then
    match Elf.open_elf path with
    | Ok elf => Ok (Some elf)
    | Throw _ => Ok None
    | Undef w => Undef w
    | OutOfFuel => OutOfFuel
    end
  else Ok (Some preferred_elf).

(* src/unwind/cfi.cpp:98-121 symbol_address_in_module *)
Definition symbol_address_in_module (pid : Z) (name path : string) (preferred_elf : Elf.ElfFile)
    : M world (option ModuleResolvedSymbolAddress) :=
  elf ← lift (module_elf path preferred_elf);
  match elf with
  | None => mret None
  | Some elf =>
    match Elf.find_symbol elf name with
    | None => mret None
    | Some symbol =>
      mcatch (address ← Elf.runtime_address elf pid symbol;
              mret (Some (mkModuleSymbolAddress path (Elf.sym_name symbol) address)))
        (fun _ => mret None)
    end
  end.

(* src/dwarf/line_table.hpp:26-26 DwarfLineTable::available *)
Definition lines_available (t : LineTable.DwarfLineTable) : bool := negb (bool_decide (LineTable.ranges t = [])).

(** The line table of a module; [None] when an exception is caught or it has no ranges. *)
(* src/unwind/cfi.cpp:137-143 source_address_in_module *)
Definition module_lines (elf : Elf.ElfFile) : res (option LineTable.DwarfLineTable) :=
  match LineTable.open_line_table (Elf.elf_path elf) with
  | Ok lines => Ok (if lines_available lines then Some lines else None)
  | Throw _ => Ok None
  | Undef w => Undef w
  | OutOfFuel => OutOfFuel
  end.

(* src/unwind/cfi.cpp:123-153 source_address_in_module *)
Definition source_address_in_module (pid : Z) (file : string) (line : Z) (path : string)
    (preferred_elf : Elf.ElfFile) : M world (option ModuleResolvedSourceAddress) :=
  elf ← lift (module_elf path preferred_elf);
  match elf with
  | None => mret None
  | Some elf =>
    lines ← lift (module_lines elf);
    match lines with
    | None => mret None
    | Some lines =>
      address ← SourceLines.find_runtime_source lines pid file line elf;
      match address with
      | None => mret None
      | Some address =>
        source ← LineTable.find_runtime_address lines pid address elf;
        match source with
        | None => mthrow RuntimeError "reverse source lookup resolved an unmapped line-table address"
        | Some source =>
          mret (Some (mkModuleSourceAddress path (LineTable.loc_file source) (LineTable.loc_line source) address))
        end
      end
    end
  end.

(* src/unwind/cfi.cpp:208-222 find_module_symbol_by_runtime_address *)
Definition find_module_symbol_by_runtime_address (pid address : Z) (preferred_elf : Elf.ElfFile)
    : M world (option ModuleResolvedSymbol) :=
  path ← mapped_module_path pid address;
  match path with
  | None => mret None
  | Some path =>
    elf ← lift (if same_file path (Elf.elf_path preferred_elf) then Ok preferred_elf else Elf.open_elf path);
    symbol ← Elf.find_symbol_by_runtime_address elf pid address;
    match symbol with
    | None => mret None
    | Some symbol =>
      mret (Some (mkModuleSymbol path (Elf.sym_name (Elf.rs_symbol symbol)) (Elf.rs_offset symbol)))
    end
  end.

(** The candidates of the modules in turn; a second one is an error. *)
(* src/unwind/cfi.cpp:228-238 find_module_symbol_by_name *)
Fixpoint unique_candidate {A} (candidate : string -> M world (option A)) (message : string)
    (result : option A) (paths : list string) : M world (option A) :=
  match paths with
  | [] => mret result
  | path :: paths =>
    found ← candidate path;
    match found with
    | None => unique_candidate candidate message result paths
    | Some found =>
      _ ← mthrow_if (bool_decide (is_Some result)) RuntimeError message;
      unique_candidate candidate message (Some found) paths
    end
  end.

(* src/unwind/cfi.cpp:224-239 find_module_symbol_by_name *)
Definition find_module_symbol_by_name (pid : Z) (name : string) (preferred_elf : Elf.ElfFile)
    : M world (option ModuleResolvedSymbolAddress) :=
  if String.eqb name EmptyString then mret None
  else
    paths ← mapped_module_paths pid;
    unique_candidate (fun path => symbol_address_in_module pid name path preferred_elf)
      ("ambiguous symbol across loaded modules: " +:+ name) None paths.

(** Every exception of the lookup in one module is caught. *)
(* src/unwind/cfi.cpp:241-265 find_module_source_by_runtime_address *)
Definition find_module_source_by_runtime_address (pid address : Z) (preferred_elf : Elf.ElfFile)
    : M world (option ModuleResolvedSource) :=
  path ← mapped_module_path pid address;
  match path with
  | None => mret None
  | Some path =>
    mcatch
      (elf ← lift (if same_file path (Elf.elf_path preferred_elf) then Ok preferred_elf else Elf.open_elf path);
       lines ← lift (LineTable.open_line_table (Elf.elf_path elf));
       if negb (lines_available lines) then mret None
       else
         source ← LineTable.find_runtime_address lines pid address elf;
         match source with
         | None => mret None
         | Some source =>
           mret (Some (mkModuleSource path (LineTable.loc_file source) (LineTable.loc_line source)
                         (LineTable.loc_column source)))
         end)
      (fun _ => mret None)
  end.

(* src/unwind/cfi.cpp:267-282 find_module_source_by_file_line *)
Definition find_module_source_by_file_line (pid : Z) (file : string) (line : Z) (preferred_elf : Elf.ElfFile)
    : M world (option ModuleResolvedSourceAddress) :=
  if String.eqb file EmptyString || (line =? 0) then mret None
  else
    paths ← mapped_module_paths pid;
    unique_candidate (fun path => source_address_in_module pid file line path preferred_elf)
      ("ambiguous source location across loaded modules: " +:+ file +:+ ":" +:+ pretty (Z.to_N line)) None paths.
End Modules.
