(* ===== verification/Loader.v ===== *)
(** * Deferred breakpoints ([src/loader/deferred_symbol_breakpoints.cpp])

    A request for a symbol or a source line that no loaded module has yet is kept, and
    tried again whenever the dynamic loader stops at its rendezvous breakpoint.  The
    methods run on [lst]: the object and the debugger it refers to. *)

From S2P Require Import Prelude Machine Process DebuggerState Debugger DebuggerWait ByteReader ElfFormat ModuleMap.
From S2P Require Elf.

(* src/loader/deferred_symbol_breakpoints.hpp:15-15 DeferredBreakpointTargetKind *)
Inductive DeferredBreakpointTargetKind := TargetSymbol | TargetSource.
#[export] Instance DeferredBreakpointTargetKind_eq_dec : EqDecision DeferredBreakpointTargetKind.
Proof. solve_decision. Defined.

(* src/loader/deferred_symbol_breakpoints.hpp:17-21 DeferredBreakpointTarget *)
Record DeferredBreakpointTarget := mkTarget {
  tg_kind : DeferredBreakpointTargetKind; tg_name : string; tg_line : Z
}.
#[export] Instance DeferredBreakpointTarget_eq_dec : EqDecision DeferredBreakpointTarget.
Proof. solve_decision. Defined.

(* src/loader/deferred_symbol_breakpoints.hpp:23-28 DeferredBreakpoint *)
Record DeferredBreakpoint := mkDeferred {
  df_request_id : Z;
  df_target : DeferredBreakpointTarget;
  df_breakpoint_id : option Z;
  df_address : option Z
}.
Definition set_df_breakpoint_id v r := mkDeferred (df_request_id r) (df_target r) v (df_address r).
Definition set_df_address v r := mkDeferred (df_request_id r) (df_target r) (df_breakpoint_id r) v.

(* src/loader/deferred_symbol_breakpoints.hpp:47-50 LoaderMetadata *)
Record LoaderMetadata := mkLoaderMetadata {
  entry_virtual_address : Z; dt_debug_value_virtual_address : Z
}.

(* src/loader/deferred_symbol_breakpoints.hpp:75-84 DeferredBreakpoints *)
Record DeferredBreakpoints := mkDeferredBreakpoints {
  executable_ : Elf.ElfFile;
  metadata_ : LoaderMetadata;
  requests_ : gmap Z DeferredBreakpoint;
  next_request_id_ : Z;
  r_debug_address_ : option Z;
  bootstrap_breakpoint_id_ : option Z;
  bootstrap_breakpoint_address_ : option Z;
  loader_breakpoint_id_ : option Z;
  loader_breakpoint_address_ : option Z
}.
(** [executable_] is a reference: what it refers to may be assigned to. *)
Definition set_executable v o := mkDeferredBreakpoints v (metadata_ o) (requests_ o) (next_request_id_ o) (r_debug_address_ o) (bootstrap_breakpoint_id_ o) (bootstrap_breakpoint_address_ o) (loader_breakpoint_id_ o) (loader_breakpoint_address_ o).
Definition set_requests v o := mkDeferredBreakpoints (executable_ o) (metadata_ o) v (next_request_id_ o) (r_debug_address_ o) (bootstrap_breakpoint_id_ o) (bootstrap_breakpoint_address_ o) (loader_breakpoint_id_ o) (loader_breakpoint_address_ o).
Definition set_next_request_id v o := mkDeferredBreakpoints (executable_ o) (metadata_ o) (requests_ o) v (r_debug_address_ o) (bootstrap_breakpoint_id_ o) (bootstrap_breakpoint_address_ o) (loader_breakpoint_id_ o) (loader_breakpoint_address_ o).
Definition set_r_debug_address v o := mkDeferredBreakpoints (executable_ o) (metadata_ o) (requests_ o) (next_request_id_ o) v (bootstrap_breakpoint_id_ o) (bootstrap_breakpoint_address_ o) (loader_breakpoint_id_ o) (loader_breakpoint_address_ o).
Definition set_bootstrap id a o := mkDeferredBreakpoints (executable_ o) (metadata_ o) (requests_ o) (next_request_id_ o) (r_debug_address_ o) id a (loader_breakpoint_id_ o) (loader_breakpoint_address_ o).
Definition set_loader id a o := mkDeferredBreakpoints (executable_ o) (metadata_ o) (requests_ o) (next_request_id_ o) (r_debug_address_ o) (bootstrap_breakpoint_id_ o) (bootstrap_breakpoint_address_ o) id a.

(* src/loader/deferred_symbol_breakpoints.cpp:30-33 same_target *)
Definition same_target (left right : DeferredBreakpointTarget) : bool :=
  bool_decide (tg_kind left = tg_kind right) && String.eqb (tg_name left) (tg_name right) &&
  (tg_line left =? tg_line right).

(** ** The program headers of the executable *)

Definition PT_DYNAMIC := 2.
Definition DT_NULL := 0.
Definition DT_DEBUG := 21.
Record Elf64_Dyn := mkDyn { d_tag : Z; d_val : Z }.
Definition sizeof_Dyn : Z := 16.
Definition dyn_at (b : list byte) (o : Z) : Elf64_Dyn := mkDyn (i64 (le_at b o 8)) (le_at b (o + 8) 8).

Section Metadata.
Context `{F : FileAccess}.

(* src/loader/deferred_symbol_breakpoints.cpp:18-28 read_file_struct *)
Definition read_file_struct {T} (sizeof : Z) (at_ : list byte -> Z -> T) (path : string) (offset : Z)
    (what : string) : res T :=
  _ ← throw_if (i64_max <? offset) (Exn RuntimeError (what +:+ " offset is out of range"));
  match f_read_at path offset sizeof with
  | Some bytes => Ok (at_ bytes 0)
  | None => runtime_error ("failed to read " +:+ what)
  end.

(** The entries of a dynamic segment from [dyn_index] on, [n] of them. *)
(* src/loader/deferred_symbol_breakpoints.cpp:70-78 DeferredBreakpoints::read_loader_metadata *)
Fixpoint find_dt_debug (n : nat) (path : string) (phdr : Elf64_Phdr) (dyn_index : Z) : res (option Z) :=
  match n with
  | O => Ok None
  | S n =>
    dynamic ← read_file_struct sizeof_Dyn dyn_at path (u64 (p_offset phdr + dyn_index * sizeof_Dyn)) "dynamic entry";
    if d_tag dynamic =? DT_NULL then Ok None
    else if negb (d_tag dynamic =? DT_DEBUG) then find_dt_debug n path phdr (dyn_index + 1)
    else Ok (Some (u64 (p_vaddr phdr + dyn_index * sizeof_Dyn + 8)))
  end.

(* src/loader/deferred_symbol_breakpoints.cpp:60-80 DeferredBreakpoints::read_loader_metadata *)
Fixpoint find_dynamic (n : nat) (path : string) (header : Elf64_Ehdr) (index : Z) : res (option Z) :=
  match n with
  | O => Ok None
  | S n =>
    phdr ← read_file_struct sizeof_Phdr phdr_at path (u64 (e_phoff header + index * sizeof_Phdr)) "program header";
    if negb (p_type phdr =? PT_DYNAMIC) then find_dynamic n path header (index + 1)
    else
      _ ← throw_if (negb (p_filesz phdr mod sizeof_Dyn =? 0))
            (Exn RuntimeError "dynamic segment has a partial ELF64 dynamic entry");
      found ← find_dt_debug (Z.to_nat (p_filesz phdr / sizeof_Dyn)) path phdr 0;
      match found with
      | Some address => Ok (Some address)
      | None => find_dynamic n path header (index + 1)
      end
  end.

(* src/loader/deferred_symbol_breakpoints.cpp:44-86 DeferredBreakpoints::read_loader_metadata *)
Definition read_loader_metadata (path : string) : res LoaderMetadata :=
  match f_size path with
  | None => runtime_error ("failed to open executable for loader metadata: " +:+ path)
  | Some _ =>
    header ← read_file_struct sizeof_Ehdr ehdr_at path 0 "ELF header";
    _ ← throw_if (negb (has_elf_magic header) || negb (ident header EI_CLASS =? ELFCLASS64) ||
                  negb (ident header EI_DATA =? ELFDATA2LSB) || negb (e_machine header =? EM_X86_64))
          (Exn RuntimeError "loader rendezvous requires little-endian x86-64 ELF64");
    _ ← throw_if (negb (e_phentsize header =? sizeof_Phdr))
          (Exn RuntimeError "unsupported program-header entry size for loader rendezvous");
    found ← find_dynamic (Z.to_nat (e_phnum header)) path header 0;
    match found with
    | None => runtime_error "executable has no DT_DEBUG loader rendezvous slot"
    | Some dt_debug => Ok (mkLoaderMetadata (e_entry header) dt_debug)
    end
  end.

(* src/loader/deferred_symbol_breakpoints.cpp:37-40 DeferredBreakpoints::DeferredBreakpoints *)
Definition new_deferred_breakpoints (executable : Elf.ElfFile) : res DeferredBreakpoints :=
  metadata ← read_loader_metadata (Elf.elf_path executable);
  Ok (mkDeferredBreakpoints executable metadata ∅ 1 None None None None None).
End Metadata.

(** ** [struct r_debug] ([<link.h>]) *)
Record r_debug := mkRDebug { r_version : Z; r_brk : Z; r_state : Z }.
Definition sizeof_r_debug : Z := 40.
Definition r_debug_at (b : list byte) : r_debug :=
  mkRDebug (to_signed 32 (le_at b 0 4)) (le_at b 16 8) (le_at b 24 4).
Definition RT_CONSISTENT := 0.

(** ** The internal breakpoints *)

(** Which internal breakpoint: its two members of the object. *)
Inductive internal := Bootstrap | LoaderBreak.
#[export] Instance internal_eq_dec : EqDecision internal.
Proof. solve_decision. Defined.
Definition internal_id (i : internal) (o : DeferredBreakpoints) : option Z :=
  match i with Bootstrap => bootstrap_breakpoint_id_ o | LoaderBreak => loader_breakpoint_id_ o end.
Definition internal_address (i : internal) (o : DeferredBreakpoints) : option Z :=
  match i with Bootstrap => bootstrap_breakpoint_address_ o | LoaderBreak => loader_breakpoint_address_ o end.
Definition set_internal (i : internal) (id address : option Z) (o : DeferredBreakpoints) : DeferredBreakpoints :=
  match i with Bootstrap => set_bootstrap id address o | LoaderBreak => set_loader id address o end.

(** ** The methods *)

Section Loader.
Context `{H : Host} `{FI : FileIdentity} `{K : Kernel} `{PM : !ProcMaps K}.
(** The fuel of the debugger's waits. *)
Variable fuel : nat.

(** The object and the debugger. *)
Record lst := mkLst { ls_object : DeferredBreakpoints; ls_dst : dst }.
Definition get_object : M lst DeferredBreakpoints := gets ls_object.
Definition upd_object (f : DeferredBreakpoints -> DeferredBreakpoints) : M lst unit :=
  modify (fun s => mkLst (f (ls_object s)) (ls_dst s)).
Definition on_debugger {A} (m : M dst A) : M lst A := zoom ls_dst (fun d s => mkLst (ls_object s) d) m.

(** [debugger_.pid()] and [debugger_.state()] *)
Definition debugger_pid : M dst Z := d ← get_debugger; mret (pid_ (process_ d)).
Definition debugger_state : M dst ProcessState := d ← get_debugger; mret (state_ (process_ d)).

(* src/loader/deferred_symbol_breakpoints.cpp:88-90 DeferredBreakpoints::load_bias *)
Definition load_bias (o : DeferredBreakpoints) : M dst Z :=
  pid ← debugger_pid;
  kernel (Elf.load_bias (executable_ o) pid).

(* src/loader/deferred_symbol_breakpoints.cpp:92-102 DeferredBreakpoints::runtime_address *)
Definition runtime_address (o : DeferredBreakpoints) (virtual_address : Z) : M dst Z :=
  bias ← load_bias o;
  _ ← mthrow_if (u64_max - bias <? virtual_address) RuntimeError "loader runtime address overflows address space";
  let address := u64 (bias + virtual_address) in
  _ ← mthrow_if (u64_max <? address) RuntimeError "loader runtime address does not fit uintptr_t";
  mret address.

(* src/loader/deferred_symbol_breakpoints.cpp:104-112 DeferredBreakpoints::read_u64 *)
Definition read_u64 (address : Z) : M dst Z :=
  bytes ← read_memory address 8;
  _ ← mthrow_if (negb (size_of bytes =? 8)) RuntimeError "failed to read loader pointer from tracee";
  mret (le_at bytes 0 8).

(* src/loader/deferred_symbol_breakpoints.cpp:114-122 DeferredBreakpoints::current_r_debug_address *)
Definition current_r_debug_address (o : DeferredBreakpoints) : M dst (option Z) :=
  slot ← runtime_address o (dt_debug_value_virtual_address (metadata_ o));
  value ← read_u64 slot;
  if value =? 0 then mret None
  else
    _ ← mthrow_if (u64_max <? value) RuntimeError "DT_DEBUG pointer does not fit uintptr_t";
    mret (Some value).

(* src/loader/deferred_symbol_breakpoints.cpp:124-136 DeferredBreakpoints::current_loader_break_address *)
Definition current_loader_break_address (o : DeferredBreakpoints) : M dst Z :=
  match r_debug_address_ o with
  | None => mthrow LogicError "r_debug address is not initialized"
  | Some address =>
    bytes ← read_memory address sizeof_r_debug;
    _ ← mthrow_if (negb (size_of bytes =? sizeof_r_debug)) RuntimeError "failed to read r_debug rendezvous";
    let rendezvous := r_debug_at bytes in
    _ ← mthrow_if ((r_version rendezvous <=? 0) || (r_brk rendezvous =? 0)) RuntimeError
          "dynamic loader rendezvous is not initialized";
    mret (r_brk rendezvous)
  end.

(* src/loader/deferred_symbol_breakpoints.cpp:138-147 DeferredBreakpoints::loader_state_is_consistent *)
Definition loader_state_is_consistent (o : DeferredBreakpoints) : M dst bool :=
  match r_debug_address_ o with
  | None => mret false
  | Some address =>
    bytes ← read_memory address sizeof_r_debug;
    _ ← mthrow_if (negb (size_of bytes =? sizeof_r_debug)) RuntimeError "failed to read r_debug state";
    mret (r_state (r_debug_at bytes) =? RT_CONSISTENT)
  end.

(* src/loader/deferred_symbol_breakpoints.cpp:149-160 DeferredBreakpoints::resolve_target *)
Definition resolve_target (o : DeferredBreakpoints) (target : DeferredBreakpointTarget) : M dst (option Z) :=
  pid ← debugger_pid;
  match tg_kind target with
  | TargetSymbol =>
    resolved ← kernel (find_module_symbol_by_name pid (tg_name target) (executable_ o));
    mret (msa_address <$> resolved)
  | TargetSource =>
    resolved ← kernel (find_module_source_by_file_line pid (tg_name target) (tg_line target) (executable_ o));
    mret (moa_address <$> resolved)
  end.

(** A breakpoint of the debugger at [address], entered in the object; the address is entered
    first. *)
Definition install_internal (i : internal) (address : Z) : M lst unit :=
  _ ← upd_object (fun o => set_internal i (internal_id i o) (Some address) o);
  id ← on_debugger (add_breakpoint address);
  upd_object (fun o => set_internal i (Some id) (internal_address i o) o).

(* src/loader/deferred_symbol_breakpoints.cpp:231-239 DeferredBreakpoints::try_install_loader_breakpoint *)
Definition try_install_loader_breakpoint : M lst bool :=
  o ← get_object;
  address ← on_debugger (current_r_debug_address o);
  match address with
  | None => mret false
  | Some address =>
    _ ← upd_object (set_r_debug_address (Some address));
    o ← get_object;
    loader_break ← on_debugger (current_loader_break_address o);
    _ ← install_internal LoaderBreak loader_break;
    mret true
  end.

(* src/loader/deferred_symbol_breakpoints.cpp:241-245 DeferredBreakpoints::install_bootstrap_breakpoint *)
Definition install_bootstrap_breakpoint : M lst unit :=
  o ← get_object;
  entry ← on_debugger (runtime_address o (entry_virtual_address (metadata_ o)));
  install_internal Bootstrap entry.

(* src/loader/deferred_symbol_breakpoints.cpp:226-229 DeferredBreakpoints::ensure_monitoring *)
Definition ensure_monitoring : M lst unit :=
  o ← get_object;
  if bool_decide (requests_ o = ∅) || bool_decide (is_Some (loader_breakpoint_id_ o)) ||
     bool_decide (is_Some (bootstrap_breakpoint_id_ o)) then mskip
  else
    installed ← try_install_loader_breakpoint;
    mwhen (negb installed) install_bootstrap_breakpoint.

(** [try { if (debugger_.state() == Stopped) debugger_.remove_breakpoint(id) } catch (...) {}] *)
(* src/loader/deferred_symbol_breakpoints.cpp:319-331 DeferredBreakpoints::remove_internal_breakpoint *)
Definition remove_internal_breakpoint (i : internal) : M lst unit :=
  o ← get_object;
  match internal_id i o with
  | None => upd_object (set_internal i None None)
  | Some id =>
    _ ← mtry (on_debugger (
          state ← debugger_state;
          mwhen (bool_decide (state = Stopped)) (_ ← remove_breakpoint id; mskip)));
    upd_object (set_internal i None None)
  end.

(* src/loader/deferred_symbol_breakpoints.cpp:270-273 DeferredBreakpoints::suspend_monitoring *)
Definition suspend_monitoring : M lst unit :=
  _ ← remove_internal_breakpoint LoaderBreak;
  remove_internal_breakpoint Bootstrap.

(* src/loader/deferred_symbol_breakpoints.cpp:42-42 DeferredBreakpoints::~DeferredBreakpoints *)
Definition destroy_deferred : M lst unit := suspend_monitoring.

(* src/loader/deferred_symbol_breakpoints.cpp:275-279 DeferredBreakpoints::stop_monitoring_if_idle *)
Definition stop_monitoring_if_idle : M lst unit :=
  o ← get_object;
  if negb (bool_decide (requests_ o = ∅)) then mskip
  else
    _ ← suspend_monitoring;
    upd_object (set_r_debug_address None).

Definition erase_request (id : Z) : M lst unit :=
  upd_object (fun o => set_requests (delete id (requests_ o)) o).
(** Assigns to a member of the request at [id]. *)
Definition upd_request (id : Z) (f : DeferredBreakpoint -> DeferredBreakpoint) : M lst unit :=
  upd_object (fun o => set_requests (alter f id (requests_ o)) o).

(** The cleanup of [add_target]. *)
(* src/loader/deferred_symbol_breakpoints.cpp:195-199 DeferredBreakpoints::add_target *)
Definition withdraw_request (request_id : Z) : M lst unit :=
  o ← get_object;
  _ ← (match requests_ o !! request_id ≫= df_breakpoint_id with
       | Some breakpoint_id => _ ← on_debugger (remove_breakpoint breakpoint_id); mskip
       | None => mskip
       end);
  erase_request request_id.

(** The new request; its breakpoint when the target is already loaded. *)
(* src/loader/deferred_symbol_breakpoints.cpp:184-188 DeferredBreakpoints::add_target *)
Definition new_request (o : DeferredBreakpoints) (request_id : Z) (target : DeferredBreakpointTarget)
    : M dst DeferredBreakpoint :=
  resolved ← resolve_target o target;
  match resolved with
  | None => mret (mkDeferred request_id target None None)
  | Some address =>
    breakpoint_id ← add_breakpoint address;
    mret (mkDeferred request_id target (Some breakpoint_id) (Some address))
  end.

(* src/loader/deferred_symbol_breakpoints.cpp:173-203 DeferredBreakpoints::add_target *)
Definition add_target (target : DeferredBreakpointTarget) : M lst Z :=
  state ← on_debugger debugger_state;
  _ ← mthrow_if (bool_decide (state <> Stopped)) LogicError "deferred breakpoints can only be modified while stopped";
  o ← get_object;
  _ ← mthrow_if (existsb (fun '(_, request) => same_target (df_target request) target) (map_in_order (requests_ o)))
        InvalidArgument "a deferred breakpoint request already exists for that target";
  let request_id := next_request_id_ o in
  _ ← upd_object (set_next_request_id (u64 (request_id + 1)));
  request ← on_debugger (new_request o request_id target);
  _ ← upd_object (fun o => set_requests (emplace request_id request (requests_ o)) o);
  _ ← mon_throw ensure_monitoring (withdraw_request request_id);
  mret request_id.

(* src/loader/deferred_symbol_breakpoints.cpp:162-165 DeferredBreakpoints::add_symbol *)
Definition add_symbol (symbol : string) : M lst Z :=
  _ ← mthrow_if (String.eqb symbol EmptyString) InvalidArgument "deferred symbol must not be empty";
  add_target (mkTarget TargetSymbol symbol 0).

(* src/loader/deferred_symbol_breakpoints.cpp:167-171 DeferredBreakpoints::add_source *)
Definition add_source (file : string) (line : Z) : M lst Z :=
  _ ← mthrow_if (String.eqb file EmptyString) InvalidArgument "deferred source file must not be empty";
  _ ← mthrow_if (line =? 0) InvalidArgument "deferred source line must be non-zero";
  add_target (mkTarget TargetSource file line).

(* src/loader/deferred_symbol_breakpoints.cpp:205-214 DeferredBreakpoints::remove *)
Definition remove (request_id : Z) : M lst bool :=
  o ← get_object;
  match requests_ o !! request_id with
  | None => mret false
  | Some request =>
    _ ← (match df_breakpoint_id request with
         | Some breakpoint_id =>
           removed ← on_debugger (remove_breakpoint breakpoint_id);
           mthrow_if (negb removed) LogicError "resolved deferred breakpoint disappeared from debugger state"
         | None => mskip
         end);
    _ ← erase_request request_id;
    _ ← stop_monitoring_if_idle;
    mret true
  end.

(* src/loader/deferred_symbol_breakpoints.cpp:216-224 DeferredBreakpoints::breakpoints *)
Definition deferred_breakpoints (o : DeferredBreakpoints) : list DeferredBreakpoint :=
  (map_in_order (requests_ o)).*2.

(** Whether the breakpoint of a request stays; a stale one is discarded. *)
(* src/loader/deferred_symbol_breakpoints.cpp:252-262 DeferredBreakpoints::reconcile_requests *)
Definition keep_or_discard (id : Z) (request : DeferredBreakpoint) (resolved : option Z) : M lst bool :=
  match df_breakpoint_id request with
  | None => mret false
  | Some breakpoint_id =>
    match df_address request with
    | None => mthrow LogicError "resolved deferred breakpoint has no address"
    | Some address =>
      if bool_decide (resolved = Some address) then mret true
      else
        discarded ← on_debugger (discard_breakpoint breakpoint_id);
        _ ← mthrow_if (negb discarded) LogicError "stale deferred breakpoint disappeared from debugger state";
        _ ← upd_request id (fun request => set_df_address None (set_df_breakpoint_id None request));
        mret false
    end
  end.

(* src/loader/deferred_symbol_breakpoints.cpp:250-266 DeferredBreakpoints::reconcile_requests *)
Definition reconcile_request (id : Z) : M lst unit :=
  o ← get_object;
  match requests_ o !! id with
  | None => mskip
  | Some request =>
    resolved ← on_debugger (resolve_target o (df_target request));
    keep ← keep_or_discard id request resolved;
    if (keep : bool) then mskip
    else
      match resolved with
      | None => mskip
      | Some address =>
        _ ← upd_request id (set_df_address (Some address));
        breakpoint_id ← on_debugger (add_breakpoint address);
        upd_request id (set_df_breakpoint_id (Some breakpoint_id))
      end
  end.

(** The keys do not change while the requests are visited. *)
(* src/loader/deferred_symbol_breakpoints.cpp:247-268 DeferredBreakpoints::reconcile_requests *)
Definition reconcile_requests : M lst unit :=
  o ← get_object;
  mfor (map_in_order (requests_ o)).*1 reconcile_request.

(* src/loader/deferred_symbol_breakpoints.cpp:281-286 DeferredBreakpoints::is_internal_stop *)
Definition is_internal_stop (o : DeferredBreakpoints) (stop : StopInfo) : bool :=
  if bool_decide (si_reason stop <> BreakpointStop) || bool_decide (si_breakpoint_address stop = None) then false
  else
    (bool_decide (is_Some (bootstrap_breakpoint_address_ o)) &&
     bool_decide (si_breakpoint_address stop = bootstrap_breakpoint_address_ o)) ||
    (bool_decide (is_Some (loader_breakpoint_address_ o)) &&
     bool_decide (si_breakpoint_address stop = loader_breakpoint_address_ o)).

Definition reconcile_if_consistent : M lst unit :=
  o ← get_object;
  consistent ← on_debugger (loader_state_is_consistent o);
  mwhen consistent reconcile_requests.

(* src/loader/deferred_symbol_breakpoints.cpp:288-304 DeferredBreakpoints::handle_internal_stop *)
Definition handle_internal_stop (stop : StopInfo) : M lst unit :=
  o ← get_object;
  if bool_decide (is_Some (bootstrap_breakpoint_address_ o)) &&
     bool_decide (si_breakpoint_address stop = bootstrap_breakpoint_address_ o) then
    _ ← remove_internal_breakpoint Bootstrap;
    installed ← try_install_loader_breakpoint;
    _ ← mthrow_if (negb installed) RuntimeError "DT_DEBUG was not initialized before executable entry";
    reconcile_if_consistent
  else if bool_decide (is_Some (loader_breakpoint_address_ o)) &&
          bool_decide (si_breakpoint_address stop = loader_breakpoint_address_ o) then
    reconcile_if_consistent
  else mthrow LogicError "attempted to handle a non-internal breakpoint stop".

(* src/loader/deferred_symbol_breakpoints.cpp:308-316 DeferredBreakpoints::continue_execution *)
Fixpoint continue_loop (n : nat) (policy : SignalPolicy) : M lst StopInfo :=
  match n with
  | O => mout_of_fuel
  | S n =>
    stop ← on_debugger (DebuggerWait.continue_execution fuel policy);
    o ← get_object;
    if negb (is_internal_stop o stop) then
      _ ← suspend_monitoring;
      mret stop
    else
      _ ← handle_internal_stop stop;
      continue_loop n Suppress
  end.

(* src/loader/deferred_symbol_breakpoints.cpp:306-317 DeferredBreakpoints::continue_execution *)
Definition continue_execution (policy : SignalPolicy) : M lst StopInfo :=
  _ ← ensure_monitoring;
  continue_loop fuel policy.
End Loader.
