(* ===== verification/Unwind.v ===== *)
(** * CFI unwinding and inspection frames ([src/unwind/cfi.cpp]) *)

From S2P Require Import Prelude Machine SimKernel Ptrace Process DebuggerState Debugger Breakpoints ByteReader ElfFormat TraceeReads EhFrame ModuleMap.
From S2P Require Elf.

(* src/unwind/cfi.hpp:20-25 CfiUnwindStopReason *)
Inductive CfiUnwindStopReason := EndOfChain | FrameLimit | NoFrameInfo | InvalidFrameState.
(* src/unwind/cfi.hpp:27-31 CfiStackFrame *)
Record CfiStackFrame := mkCfiFrame {
  cf_instruction_pointer : Z; cf_stack_pointer : Z; cf_frame_pointer : option Z
}.
(* src/unwind/cfi.hpp:33-36 CfiBacktrace *)
Record CfiBacktrace := mkCfiBacktrace { cb_frames : list CfiStackFrame; cb_stop_reason : CfiUnwindStopReason }.

#[export] Instance CfiUnwindStopReason_eq_dec : EqDecision CfiUnwindStopReason.
Proof. solve_decision. Defined.

(* src/unwind/cfi.hpp:38-56 InspectionRegisterState *)
Record InspectionRegisterState := mkInspectionRegisters {
  ir_rax : option Z; ir_rbx : option Z; ir_rcx : option Z; ir_rdx : option Z; ir_rsi : option Z; ir_rdi : option Z;
  ir_rbp : option Z; ir_rsp : option Z; ir_r8 : option Z; ir_r9 : option Z; ir_r10 : option Z; ir_r11 : option Z;
  ir_r12 : option Z; ir_r13 : option Z; ir_r14 : option Z; ir_r15 : option Z; ir_xmm0 : option (list byte)
}.

(* src/unwind/cfi.hpp:58-71 InspectionFrameContext *)
Record InspectionFrameContext := mkInspectionFrame {
  if_index : Z;
  if_process_pid : Z;
  if_tid : Z;
  if_origin_stop_sequence : Z;
  if_origin_runtime_pc : Z;
  if_origin_stack_pointer : Z;
  if_origin_frame_pointer : option Z;
  if_runtime_pc : Z;
  if_stack_pointer : Z;
  if_frame_pointer : option Z;
  if_module_path : string;
  if_registers : InspectionRegisterState
}.

(* src/unwind/cfi.cpp:419-431 cfi_unwind_stop_reason_name *)
Definition cfi_unwind_stop_reason_name (reason : CfiUnwindStopReason) : string :=
  match reason with
  | EndOfChain => "end of CFI chain"
  | FrameLimit => "frame limit reached"
  | NoFrameInfo => "no CFI frame information"
  | InvalidFrameState => "invalid or unsupported CFI frame state"
  end.

(* src/unwind/cfi.cpp:155-162 ModuleCfi *)
Record ModuleCfi := mkModuleCfi { mc_path : string; mc_elf : Elf.ElfFile; mc_cfi : EhFrame }.

(* src/unwind/cfi.cpp:188-192 live_register_state *)
Definition live_register_state (regs : user_regs_struct) : InspectionRegisterState :=
  mkInspectionRegisters (Some (rax regs)) (Some (rbx regs)) (Some (rcx regs)) (Some (rdx regs)) (Some (rsi regs))
    (Some (rdi regs)) (Some (rbp regs)) (Some (rsp regs)) (Some (r8 regs)) (Some (r9 regs)) (Some (r10 regs))
    (Some (r11 regs)) (Some (r12 regs)) (Some (r13 regs)) (Some (r14 regs)) (Some (r15 regs)) None.

(* src/unwind/cfi.cpp:194-204 caller_register_state *)
Definition caller_register_state (caller : EhFrameCursor) : InspectionRegisterState :=
  mkInspectionRegisters None (cursor_rbx caller) None None None None (frame_pointer caller)
    (Some (stack_pointer caller)) None None None None None None None None None.

Section Unwind.
Context `{H : Host} `{FI : FileIdentity} `{K : Kernel} `{PM : !ProcMaps K}.

(* src/unwind/cfi.cpp:156-157 ModuleCfi::ModuleCfi *)
Definition new_module_cfi (module_path : string) : res ModuleCfi :=
  elf ← Elf.open_elf module_path;
  cfi ← open_eh_frame module_path;
  Ok (mkModuleCfi module_path elf cfi).

(** The module and the modules known afterwards. *)
(* src/unwind/cfi.cpp:164-170 cached_module *)
Definition cached_module (modules : list ModuleCfi) (path : string) : res (ModuleCfi * list ModuleCfi) :=
  match List.find (fun module => same_file (mc_path module) path) modules with
  | Some module => Ok (module, modules)
  | None =>
    module ← new_module_cfi path;
    Ok (module, modules ++ [module])
  end.

(* src/unwind/cfi.cpp:172-186 caller_for_cursor *)
Definition caller_for_cursor (preferred_elf : Elf.ElfFile) (preferred_cfi : EhFrame) (current : EhFrameCursor)
    (modules : list ModuleCfi) : M dst (option EhFrameCursor * list ModuleCfi) :=
  d ← get_debugger;
  path ← kernel (mapped_module_path (pid_ (process_ d)) (instruction_pointer current));
  match path with
  | None => mret (None, modules)
  | Some path =>
    if same_file path (Elf.elf_path preferred_elf) then
      if negb (eh_available preferred_cfi) then mret (None, modules)
      else
        caller ← caller_frame preferred_cfi preferred_elf current;
        mret (caller, modules)
    else
      '(module, modules) ← lift (cached_module modules path);
      if negb (eh_available (mc_cfi module)) then mret (None, modules)
      else
        caller ← caller_frame (mc_cfi module) (mc_elf module) current;
        mret (caller, modules)
  end.

(* src/unwind/cfi.cpp:284-302 module_caller_return_address *)
Definition module_caller_return_address (preferred_elf : Elf.ElfFile) (preferred_cfi : EhFrame) : M dst (option Z) :=
  d ← get_debugger;
  _ ← mthrow_if (bool_decide (state_ (process_ d) <> Stopped)) LogicError
        "CFI return-address recovery requires a stopped tracee";
  regs ← registers;
  path ← kernel (mapped_module_path (pid_ (process_ d)) (rip regs));
  match path with
  | None => mret None
  | Some path =>
    if same_file path (Elf.elf_path preferred_elf) then
      if negb (eh_available preferred_cfi) then mret None
      else caller_return_address preferred_cfi preferred_elf
    else
      module ← lift (new_module_cfi path);
      if negb (eh_available (mc_cfi module)) then mret None
      else caller_return_address (mc_cfi module) (mc_elf module)
  end.

(* src/unwind/cfi.cpp:304-328 current_inspection_frame *)
Definition current_inspection_frame : M dst InspectionFrameContext :=
  d ← get_debugger;
  _ ← mthrow_if (bool_decide (state_ (process_ d) <> Stopped)) LogicError
        "inspection-frame construction requires a stopped tracee";
  regs ← registers;
  module ← kernel (mapped_module_path (pid_ (process_ d)) (rip regs));
  match module with
  | None => mthrow RuntimeError "current frame is not owned by a file-backed module"
  | Some module =>
    mret (mkInspectionFrame 0 (pid_ (process_ d)) (current_tid_ (process_ d)) (si_sequence (stop_info_ d))
            (rip regs) (rsp regs) (Some (rbp regs)) (rip regs) (rsp regs) (Some (rbp regs)) module
            (live_register_state regs))
  end.

(** The state in which the caller does not make progress. *)
(* src/unwind/cfi.cpp:350-351 build_inspection_frames *)
Definition no_progress (current caller : EhFrameCursor) : bool :=
  (instruction_pointer caller =? instruction_pointer current) ||
  (stack_pointer caller <=? stack_pointer current).

(** [try { caller = caller_for_cursor(...) } catch (const std::exception&)]: [None] when caught. *)
Definition try_caller (preferred_elf : Elf.ElfFile) (preferred_cfi : EhFrame) (current : EhFrameCursor)
    (modules : list ModuleCfi) : M dst (option (option EhFrameCursor * list ModuleCfi)) :=
  mcatch (r ← caller_for_cursor preferred_elf preferred_cfi current modules; mret (Some r)) (fun _ => mret None).

(** Every turn appends a frame or ends the loop. *)
(* src/unwind/cfi.cpp:343-365 build_inspection_frames *)
Fixpoint inspection_loop (fuel : nat) (preferred_elf : Elf.ElfFile) (preferred_cfi : EhFrame) (max_frames : Z)
    (context : InspectionFrameContext) (current : EhFrameCursor) (modules : list ModuleCfi)
    (result : list InspectionFrameContext) : M dst (list InspectionFrameContext) :=
  if size_of result <? max_frames then
    match fuel with
    | O => mout_of_fuel
    | S fuel =>
      found ← try_caller preferred_elf preferred_cfi current modules;
      match found with
      | None => mret result
      | Some (None, _) => mret result
      | Some (Some caller, modules) =>
        if no_progress current caller then mret result
        else
          d ← get_debugger;
          module ← kernel (mapped_module_path (pid_ (process_ d)) (instruction_pointer caller));
          match module with
          | None => mret result
          | Some module =>
            let frame := mkInspectionFrame (size_of result) (if_process_pid context) (if_tid context)
              (if_origin_stop_sequence context) (if_origin_runtime_pc context) (if_origin_stack_pointer context)
              (if_origin_frame_pointer context) (instruction_pointer caller) (stack_pointer caller)
              (frame_pointer caller) module (caller_register_state caller) in
            inspection_loop fuel preferred_elf preferred_cfi max_frames context caller modules (result ++ [frame])
          end
      end
    end
  else mret result.

(* src/unwind/cfi.cpp:330-366 build_inspection_frames *)
Definition build_inspection_frames (preferred_elf : Elf.ElfFile) (preferred_cfi : EhFrame) (max_frames : Z)
    : M dst (list InspectionFrameContext) :=
  _ ← mthrow_if (max_frames =? 0) InvalidArgument "inspection-frame construction requires a non-zero frame limit";
  current_context ← current_inspection_frame;
  if max_frames =? 1 then mret [current_context]
  else
    let current := mkCursor (if_runtime_pc current_context) (if_stack_pointer current_context)
      (if_frame_pointer current_context) (ir_rbx (if_registers current_context)) in
    inspection_loop (Z.to_nat max_frames) preferred_elf preferred_cfi max_frames current_context current []
      [current_context].

(* src/unwind/cfi.cpp:381-382 unwind_eh_frame *)
Definition cfi_frame (cursor : EhFrameCursor) : CfiStackFrame :=
  mkCfiFrame (instruction_pointer cursor) (stack_pointer cursor) (frame_pointer cursor).

(* src/unwind/cfi.cpp:390-416 unwind_eh_frame *)
Fixpoint unwind_cfi_loop (fuel : nat) (elf : Elf.ElfFile) (cfi : EhFrame) (max_frames : Z)
    (current : EhFrameCursor) (modules : list ModuleCfi) (frames : list CfiStackFrame) : M dst CfiBacktrace :=
  if size_of frames <? max_frames then
    match fuel with
    | O => mout_of_fuel
    | S fuel =>
      found ← try_caller elf cfi current modules;
      match found with
      | None => mret (mkCfiBacktrace frames InvalidFrameState)
      | Some (None, _) =>
        mret (mkCfiBacktrace frames (if size_of frames =? 1 then NoFrameInfo else EndOfChain))
      | Some (Some caller, modules) =>
        if no_progress current caller then mret (mkCfiBacktrace frames InvalidFrameState)
        else unwind_cfi_loop fuel elf cfi max_frames caller modules (frames ++ [cfi_frame caller])
      end
    end
  else mret (mkCfiBacktrace frames FrameLimit).

(* src/unwind/cfi.cpp:368-417 unwind_eh_frame *)
Definition unwind_eh_frame (elf : Elf.ElfFile) (cfi : EhFrame) (max_frames : Z) : M dst CfiBacktrace :=
  _ ← mthrow_if (max_frames =? 0) InvalidArgument "CFI unwind requires a non-zero frame limit";
  d ← get_debugger;
  _ ← mthrow_if (bool_decide (state_ (process_ d) <> Stopped)) LogicError "CFI unwind requires a stopped tracee";
  regs ← registers;
  let current := mkCursor (rip regs) (rsp regs) (Some (rbp regs)) (Some (rbx regs)) in
  let frames := [cfi_frame current] in
  if max_frames =? 1 then mret (mkCfiBacktrace frames FrameLimit)
  else unwind_cfi_loop (Z.to_nat max_frames) elf cfi max_frames current [] frames.
End Unwind.
