(* ===== verification/UnwindProofs.v ===== *)
(** * CFI unwinding of a stopped tracee

    Unwinding changes neither the debugger nor the kernel, always ends, and each frame it
    returns is the caller that the call-frame information of some module gives for the frame
    below, read from the tracee's memory as it is. *)

From S2P Require Import Prelude Machine SimKernel Ptrace Process DebuggerState Debugger Breakpoints ByteReader ElfFormat TraceeReads EhFrame EhFrameProofs CfaProgram ModuleMap Unwind.
From S2P Require Elf ElfProofs.

(** ** Readers that leave the state alone *)

Section Readers.
Context {S : Type} (read : Z -> Z -> M S (list byte)) (mem : Z -> Z -> res (list byte)) (s : S).
Hypothesis read_same : forall a n, read a n s = (mem a n, s).

Lemma read_cfi_slot_same a what : read_cfi_slot read a what s = read_cfi_slot (pure_reader mem) a what s.
Proof. unfold read_cfi_slot, mcatch, mbind, M_bind. by rewrite read_same. Qed.

Lemma read_cfi_slot_state a what : snd (read_cfi_slot (pure_reader mem) a what s) = s.
Proof. pose proof (read_cfi_slot_pure mem a what s) as H. destruct (read_cfi_slot _ _ _ s) as [[] s']; by destruct H || done. Qed.

Lemma resolve_frame_same section cursor end_ cie loc target read_register :
  resolve_frame read section cursor end_ cie loc target read_register s =
  resolve_frame (pure_reader mem) section cursor end_ cie loc target read_register s.
Proof.
  unfold resolve_frame. destruct (cfi_row _ _ _ _ _ _); [|done..]. rewrite !run_lift_Ok.
  destruct (cfi_slots _ _ _) as [[cfa slot]| | |]; [|done..]. rewrite !run_lift_Ok.
  unfold mbind at 1 3, M_bind at 1 3. by rewrite read_cfi_slot_same.
Qed.

Lemma resolve_frame_state section cursor end_ cie loc target read_register :
  snd (resolve_frame (pure_reader mem) section cursor end_ cie loc target read_register s) = s.
Proof.
  unfold resolve_frame. destruct (cfi_row _ _ _ _ _ _); [|done..]. rewrite !run_lift_Ok.
  destruct (cfi_slots _ _ _) as [[cfa slot]| | |]; [|done..]. rewrite !run_lift_Ok.
  unfold mbind at 1, M_bind at 1. pose proof (read_cfi_slot_state slot "CFI return-address slot") as Hs.
  destruct (read_cfi_slot _ _ _ s) as [[v| | |] s']; simpl in Hs; subst; try done.
  rewrite run_throw_if. by destruct (v =? 0).
Qed.

Lemma evaluate_loop_same fuel section va target read_register cies entry :
  evaluate_loop read fuel section va target read_register cies entry s =
  evaluate_loop (pure_reader mem) fuel section va target read_register cies entry s /\
  snd (evaluate_loop (pure_reader mem) fuel section va target read_register cies entry s) = s.
Proof.
  revert cies entry. induction fuel as [|fuel IH]; intros cies entry; cbn [evaluate_loop];
    (destruct (entry <? size_of section); [|done]); [done|].
  destruct (read_entry section va cies entry) as [[|cie end_|cie loc range cursor end_]| | |]; try done;
    rewrite !run_lift_Ok; [apply IH|].
  destruct (_ && _); [|apply IH]. unfold mbind, M_bind. rewrite resolve_frame_same.
  pose proof (resolve_frame_state section cursor end_ cie loc target read_register) as Hs.
  by destruct (resolve_frame _ _ _ _ _ _ _ _ s) as [[] s'].
Qed.

Lemma recover_register_same evaluated reg v what :
  recover_register read evaluated reg v what s = recover_register (pure_reader mem) evaluated reg v what s /\
  snd (recover_register (pure_reader mem) evaluated reg v what s) = s.
Proof.
  unfold recover_register. destruct (rules _ !! reg) as [[[] offset]|]; try done.
  destruct (add_signed _ _ _) as [slot| | |]; [|done..]. rewrite !run_lift_Ok. unfold mbind, M_bind.
  rewrite read_cfi_slot_same. pose proof (read_cfi_slot_state slot what) as Hs.
  by destruct (read_cfi_slot _ _ _ s) as [[] s'].
Qed.

Lemma caller_frame_with_same eh pc current :
  caller_frame_with eh read pc current s = caller_frame_with eh (pure_reader mem) pc current s /\
  snd (caller_frame_with eh (pure_reader mem) pc current s) = s.
Proof.
  unfold caller_frame_with. destruct (negb _); [done|]. unfold evaluate_frame, mbind, M_bind.
  destruct (evaluate_loop_same (length (eh_section eh)) (eh_section eh) (eh_section_virtual_address eh) pc
    (cursor_register current) ∅ 0) as [-> Hs].
  destruct (evaluate_loop _ _ _ _ _ _ _ _ s) as [[[evaluated|]| | |] s']; simpl in Hs; subst; try done.
  unfold recover_frame_pointer, recover_rbx.
  destruct (recover_register_same evaluated kDwarfRbp (frame_pointer current) "CFI RBP slot") as [-> Hs1].
  destruct (recover_register _ _ _ _ _ s) as [[fp| | |] s']; simpl in Hs1; subst; try done.
  destruct (recover_register_same evaluated kDwarfRbx (cursor_rbx current) "CFI RBX slot") as [-> Hs2].
  by destruct (recover_register _ _ _ _ _ s) as [[bx| | |] s'].
Qed.
End Readers.

(** ** Opening modules *)

Import ElfProofs.

Lemma run_at_reads_settles {A} limit u c (m : M Z A) : reads limit u m -> 0 <= c -> settles (run_at c m).
Proof. intros Hm Hc. unfold run_at. specialize (Hm c Hc). by destruct (m c) as [[] c']. Qed.

Lemma named_eh_frame_yields bytes names begin_ end_ sections :
  size_of bytes <= i64_max -> 0 <= begin_ -> end_ <= size_of bytes ->
  Forall (fun s => exists o, s = shdr_at bytes o) sections ->
  yields (fun found => forall va section, found = Some (va, section) -> size_of section <= i64_max)
    (named_eh_frame bytes names begin_ end_ sections).
Proof.
  intros Hf Hb He Hs. induction sections as [|section sections IH]; [done|]. apply Forall_cons in Hs as [[o ->] Hs].
  cbn [named_eh_frame]. destruct (_ <=? _); [by apply IH|].
  destruct (shdr_at_range bytes o) as (_ & _ & Hn & _).
  eapply yields_bind.
  { apply settles_yields. eapply run_at_reads_settles; [|lia]. by apply reads_read_c_string. }
  intros [name c] _. destruct (negb _); [by apply IH|]. do 2 (apply yields_guard; intros _).
  intros va section [= <- <-]. unfold size_of in *. unfold bytes_at. rewrite length_take, length_drop. lia.
Qed.

Lemma find_eh_frame_yields bytes : size_of bytes <= i64_max ->
  yields (fun found => forall va section, found = Some (va, section) -> size_of section <= i64_max)
    (find_eh_frame bytes).
Proof.
  intros Hf. unfold find_eh_frame. apply yields_bind with (fun header => 0 <= e_shstrndx header).
  { unfold read_struct_at. apply yields_guard; intros _. apply (le_at_u16 bytes (0 + 62)). }
  intros header H0. apply yields_guard; intros _. destruct (_ || _); [done|]. apply yields_guard; intros Hx.
  apply orb_false_elim in Hx as [_ Hx%Z.leb_gt].
  eapply yields_bind.
  { apply (yields_mapM_length (fun s => exists o, s = shdr_at bytes o)). intros x _. unfold read_struct_at.
    apply yields_guard; intros _. by eexists. }
  intros sections [Hs Hl]. rewrite length_seq in Hl.
  destruct (lookup_lt_is_Some_2 sections (Z.to_nat (e_shstrndx header)) ltac:(lia)) as [names Hn]. rewrite Hn.
  rewrite Forall_lookup in Hs. destruct (Hs _ _ Hn) as [o ->]. apply yields_guard; intros [H1 H2]%out_of_bounds_false.
  destruct (shdr_at_range bytes o) as ([? ?] & [? ?] & _). apply named_eh_frame_yields; [done|lia..|by apply Forall_lookup].
Qed.

Section Modules.
Context `{H : Host} `{FI : FileIdentity} `{K : Kernel} `{PM : !ProcMaps K}.

(** Every file is smaller than the address space. *)
Hypothesis files_sized : forall path bytes, h_file path = FileBytes bytes -> file_sized bytes.

Lemma open_elf_settles path : settles (Elf.open_elf path).
Proof.
  unfold Elf.open_elf, Elf.read_binary_file. destruct (h_file path) as [| | |bytes] eqn:E; try done.
  cbn [mbind res_bind]. eapply parse_elf_total, files_sized, E.
Qed.

Definition cfi_sized (m : ModuleCfi) : Prop := size_of (eh_section (mc_cfi m)) <= i64_max.

Lemma new_module_cfi_yields path : yields cfi_sized (new_module_cfi path).
Proof.
  unfold new_module_cfi. eapply yields_bind; [apply settles_yields, open_elf_settles|]. intros elf _.
  unfold open_eh_frame, EhFrame.read_file. destruct (h_file path) as [| | |bytes] eqn:E; try done.
  cbn [mbind res_bind]. pose proof (find_eh_frame_yields bytes (files_sized _ _ E)) as Hy.
  destruct (find_eh_frame bytes) as [[[va section]|]| | |]; try done; cbn; unfold cfi_sized; cbn.
  by eapply Hy.
Qed.

(** A module of the cache: what its file gives. *)
Definition opened (m : ModuleCfi) : Prop := new_module_cfi (mc_path m) = Ok m.

Lemma opened_sized m : opened m -> cfi_sized m.
Proof. intros Hm. pose proof (new_module_cfi_yields (mc_path m)) as Hy. by rewrite Hm in Hy. Qed.

Lemma new_module_opened path m : new_module_cfi path = Ok m -> mc_path m = path /\ opened m.
Proof.
  intros Hm. assert (Hp : mc_path m = path).
  { unfold new_module_cfi in Hm. apply bind_Ok in Hm as (elf & _ & Hm). by apply bind_Ok in Hm as (eh & _ & [= <-]). }
  split; [done|]. unfold opened. by rewrite Hp.
Qed.

(** The cache gives a module of the file at the path or of one that is the same file. *)
Lemma cached_module_yields modules path : Forall opened modules ->
  yields (fun r => opened r.1 /\ (mc_path r.1 = path \/ same_file (mc_path r.1) path = true) /\ Forall opened r.2)
    (cached_module modules path).
Proof.
  intros Hm. unfold cached_module. destruct (List.find _ modules) as [module|] eqn:E.
  - apply find_some in E as [E Hsame]. rewrite Forall_forall in Hm. split; [by apply Hm, list_elem_of_In|].
    split; [by right|]. by apply Forall_forall.
  - pose proof (new_module_cfi_yields path) as Hy. destruct (new_module_cfi path) as [module|e|w|] eqn:En; try done.
    destruct (new_module_opened path module En) as [Hp Ho]. split; [done|]. split; [by left|].
    apply Forall_app. split; [done|by constructor].
Qed.

Lemma maps_bias_settles file vaddr lines : settles (Elf.maps_bias file vaddr lines).
Proof.
  induction lines as [|line lines IH]; [done|]. cbn [Elf.maps_bias]. apply settles_bind; [|intros []; done].
  unfold Elf.maps_line. destruct (_ ≫= _) as [[[range offset] rest]|]; [|done]. cbv zeta.
  destruct (negb _); [done|]. assert (Hst : forall s, settles (Elf.stoull16 s)).
  { intros text. unfold Elf.stoull16. repeat case_match; done. }
  apply settles_bind; [apply Hst|]. intros off _. destruct (negb _); [done|].
  destruct (String.index _ _ _); [|done]. apply settles_bind; [apply Hst|]. intros start _. settles_auto.
Qed.

Lemma load_bias_same elf pid w : exists r, Elf.load_bias elf pid w = (r, w) /\ settles r.
Proof.
  unfold Elf.load_bias. destruct (_ =? _); [by eexists|]. destruct (negb _); [by eexists|].
  destruct (k_maps pid w); [|by eexists]. eexists. split; [done|]. apply maps_bias_settles.
Qed.
End Modules.

(** ** The callers of a stopped tracee *)

Section Spec.
Context `{H : Host} `{FI : FileIdentity} `{K : Kernel} `{L : !KernelLaws K} `{PM : !ProcMaps K}.
Hypothesis files_sized : forall path bytes, h_file path = FileBytes bytes -> file_sized bytes.

(** The tracee's memory, as the debugger reads it in the state [s]. *)
Definition tracee_memory (s : dst) (a n : Z) : res (list byte) := fst (read_memory a n s).

Lemma read_memory_total s tid a n : tracee s tid ->
  read_memory a n s = (tracee_memory s a n, s) /\ settles (tracee_memory s a n).
Proof.
  intros Ht. unfold tracee_memory, read_memory. rewrite (run_stopped_tid _ _ _ Ht).
  destruct (read_memory_loop_same (Z.to_nat n) tid a n 0 (st_world s)) as (r & Hr & Hs); [lia|].
  erewrite kernel_run by exact Hr. split; [by destruct s|]. by destruct r.
Qed.

(** The module mapped at an address of the process, with its call-frame information: the
    preferred one when it is its file, else the one the file there gives. *)
Inductive mapped_module (elf : Elf.ElfFile) (cfi : EhFrame) (s : dst) (pc : Z) : Elf.ElfFile -> EhFrame -> Prop :=
  | mapped_preferred path :
      fst (mapped_module_path (pid_ (process_ (st_debugger s))) pc (st_world s)) = Ok (Some path) ->
      same_file path (Elf.elf_path elf) = true -> mapped_module elf cfi s pc elf cfi
  | mapped_file path path' module :
      fst (mapped_module_path (pid_ (process_ (st_debugger s))) pc (st_world s)) = Ok (Some path) ->
      same_file path (Elf.elf_path elf) = false -> path' = path \/ same_file path' path = true ->
      new_module_cfi path' = Ok module -> mapped_module elf cfi s pc (mc_elf module) (mc_cfi module).

(** The caller [eh] gives, the module of [elf] being loaded where the process has it. *)
Definition gives_caller (s : dst) (elf : Elf.ElfFile) (eh : EhFrame) (c : EhFrameCursor) (o : option EhFrameCursor) : Prop :=
  exists bias, fst (Elf.load_bias elf (pid_ (process_ (st_debugger s))) (st_world s)) = Ok bias /\
    bias <= instruction_pointer c /\
    caller_frame_with eh (pure_reader (tracee_memory s)) (instruction_pointer c - bias) c s = (Ok o, s).

(** [c'] is the caller of [c] by the call-frame information of the module mapped at its program
    counter; and there is none, because no module is mapped there or its call-frame information
    has none. *)
Definition called (elf : Elf.ElfFile) (cfi : EhFrame) (s : dst) (c c' : EhFrameCursor) : Prop :=
  exists module eh, mapped_module elf cfi s (instruction_pointer c) module eh /\ gives_caller s module eh c (Some c').
Definition no_caller (elf : Elf.ElfFile) (cfi : EhFrame) (s : dst) (c : EhFrameCursor) : Prop :=
  fst (mapped_module_path (pid_ (process_ (st_debugger s))) (instruction_pointer c) (st_world s)) = Ok None \/
  exists module eh, mapped_module elf cfi s (instruction_pointer c) module eh /\
    (eh_available eh = false \/ gives_caller s module eh c None).

Lemma kernel_same {A} (m : M world A) s r : m (st_world s) = (r, st_world s) -> kernel m s = (r, s).
Proof. intros Hm. erewrite kernel_run by exact Hm. by destruct s. Qed.

Lemma caller_frame_same eh elf c s tid : tracee s tid -> size_of (eh_section eh) <= i64_max ->
  exists r, caller_frame eh elf c s = (r, s) /\ settles r /\
    forall o, r = Ok o -> (eh_available eh = false /\ o = None) \/ gives_caller s elf eh c o.
Proof.
  intros Ht Hsz. unfold caller_frame. destruct (eh_available eh) eqn:Hav; cbn [negb].
  2: { eexists. split; [done|]. split; [done|]. intros o [= <-]. by left. }
  rewrite run_get, run_throw_if.
  rewrite bool_decide_false by (rewrite (tr_state _ _ Ht); auto).
  destruct (load_bias_same elf (pid_ (process_ (st_debugger s))) (st_world s)) as (r & Hr & Hset).
  unfold mbind at 1, M_bind at 1. rewrite (kernel_same _ _ _ Hr).
  destruct r as [bias|e|w|]; [|by eexists; split; [done|]; split; [done|]; intros ? [=]|done..].
  rewrite run_throw_if. destruct (Z.ltb_spec (instruction_pointer c) bias); [by eexists; split; [done|]; split; [done|]; intros ? [=]|].
  pose proof (fun a n => proj1 (read_memory_total s tid a n Ht)) as Hread.
  destruct (caller_frame_with_same read_memory (tracee_memory s) s Hread eh (instruction_pointer c - bias) c) as [E Hs].
  rewrite E. pose proof (caller_frame_with_always (S := dst) (pure_reader (tracee_memory s))) as Ha.
  specialize (Ha ltac:(intros a n s'; apply (read_memory_total s tid a n Ht)) eh (instruction_pointer c - bias) c s Hsz).
  destruct (caller_frame_with eh (pure_reader _) _ c s) as [r s'] eqn:Er. simpl in Hs, Ha. subst s'.
  exists r. split; [done|]. split; [done|]. intros o ->. right. exists bias. split; [by rewrite Hr|]. by split.
Qed.

(** What a search for a caller may find, with the modules known afterwards. *)
Definition found_ok (elf : Elf.ElfFile) (cfi : EhFrame) (s : dst) (c : EhFrameCursor)
    (x : option EhFrameCursor * list ModuleCfi) : Prop :=
  Forall opened x.2 /\ match x.1 with Some c' => called elf cfi s c c' | None => no_caller elf cfi s c end.

(** The search in the module that is mapped there. *)
Lemma module_search_same elf cfi c module eh ms s tid :
  tracee s tid -> size_of (eh_section eh) <= i64_max -> Forall opened ms ->
  mapped_module elf cfi s (instruction_pointer c) module eh ->
  exists r, (if negb (eh_available eh) then mret (None, ms) else caller ← caller_frame eh module c; mret (caller, ms)) s = (r, s) /\
    yields (found_ok elf cfi s c) r.
Proof.
  intros Ht He Hms Hm. destruct (eh_available eh) eqn:Ha; cbn [negb].
  - destruct (caller_frame_same eh module c s tid Ht He) as (r & Hrc & Hrs & Hc). unfold mbind, M_bind. rewrite Hrc.
    destruct r as [o| | |]; [|by eexists|done..]. eexists. split; [done|]. split; [done|]. cbn [fst].
    destruct (Hc o eq_refl) as [[Hf _]|Hg]; [congruence|]. destruct o as [c'|]; [by exists module, eh|].
    right. exists module, eh. auto.
  - eexists. split; [done|]. split; [done|]. right. exists module, eh. auto.
Qed.

Lemma caller_for_cursor_same elf cfi c modules s tid :
  tracee s tid -> size_of (eh_section cfi) <= i64_max -> Forall opened modules ->
  exists r, caller_for_cursor elf cfi c modules s = (r, s) /\ yields (found_ok elf cfi s c) r.
Proof.
  intros Ht Hcfi Hm. unfold caller_for_cursor. rewrite run_get.
  destruct (mapped_module_path (pid_ (process_ (st_debugger s))) (instruction_pointer c) (st_world s)) as [r w] eqn:Epath.
  assert (Hw : w = st_world s /\ settles r) by (unfold mapped_module_path in Epath; destruct (k_maps _ _); by injection Epath as <- <-).
  destruct Hw as [-> Hset]. unfold mbind at 1, M_bind at 1. rewrite (kernel_same _ _ _ Epath).
  assert (Hpath : fst (mapped_module_path (pid_ (process_ (st_debugger s))) (instruction_pointer c) (st_world s)) = r)
    by (by rewrite Epath).
  destruct r as [[path|]|e|w|]; [|by eexists; split; [done|]; split; [done|]; left|by eexists|done..].
  destruct (same_file path (Elf.elf_path elf)) eqn:Hsame; [apply (module_search_same elf cfi c elf cfi modules s tid); try done; by apply (mapped_preferred _ _ _ _ path)|].
  pose proof (cached_module_yields files_sized modules path Hm) as Hy.
  destruct (cached_module modules path) as [[module ms]|e|w|]; [|by eexists|done..]. rewrite run_lift_Ok.
  destruct Hy as (H1 & H2 & H3). apply (module_search_same elf cfi c (mc_elf module) (mc_cfi module) ms s tid); try done;
    [by apply (opened_sized files_sized)|]. by apply (mapped_file _ _ _ _ path (mc_path module)).
Qed.

(** A search that fails: by an exception, which is caught. *)
Definition search_fails (elf : Elf.ElfFile) (cfi : EhFrame) (s : dst) (c : EhFrameCursor) : Prop :=
  exists modules e, Forall opened modules /\ caller_for_cursor elf cfi c modules s = (Throw e, s).

Lemma try_caller_same elf cfi c modules s tid :
  tracee s tid -> size_of (eh_section cfi) <= i64_max -> Forall opened modules ->
  exists r, try_caller elf cfi c modules s = (Ok r, s) /\
    match r with Some x => found_ok elf cfi s c x | None => search_fails elf cfi s c end.
Proof.
  intros Ht Hcfi Hm. destruct (caller_for_cursor_same elf cfi c modules s tid Ht Hcfi Hm) as (r & Hr & Hy).
  unfold try_caller, mcatch, mbind, M_bind. rewrite Hr. destruct r as [x|e|w|]; [by eexists| |done..].
  eexists. split; [done|]. by exists modules, e.
Qed.

(** One frame above another: its caller, further up the stack. *)
Definition progresses (c c' : EhFrameCursor) : Prop :=
  stack_pointer c < stack_pointer c' /\ instruction_pointer c' <> instruction_pointer c.
Definition cfi_step (elf : Elf.ElfFile) (cfi : EhFrame) (s : dst) (c c' : EhFrameCursor) : Prop :=
  called elf cfi s c c' /\ progresses c c'.

Lemma no_progress_spec c c' : no_progress c c' = false <-> progresses c c'.
Proof. unfold no_progress, progresses. rewrite orb_false_iff, Z.eqb_neq, Z.leb_gt. tauto. Qed.

(** Why a walk stopped at its last frame. *)
Definition walk_ends (elf : Elf.ElfFile) (cfi : EhFrame) (s : dst) (limit : Z) (cursors : list EhFrameCursor)
    (reason : CfiUnwindStopReason) : Prop :=
  exists c, last cursors = Some c /\
    match reason with
    | FrameLimit => size_of cursors = limit
    | NoFrameInfo => size_of cursors = 1 /\ no_caller elf cfi s c
    | EndOfChain => size_of cursors <> 1 /\ no_caller elf cfi s c
    | InvalidFrameState => search_fails elf cfi s c \/ exists c', called elf cfi s c c' /\ ~ progresses c c'
    end.

(** The walk that the frames of a backtrace are the cursors of. *)
Definition cfi_walk (elf : Elf.ElfFile) (cfi : EhFrame) (s : dst) (limit : Z) (cursors : list EhFrameCursor)
    (bt : CfiBacktrace) : Prop :=
  cb_frames bt = map cfi_frame cursors /\ Sorted (cfi_step elf cfi s) cursors /\ size_of cursors <= limit /\
  walk_ends elf cfi s limit cursors (cb_stop_reason bt).

Lemma unwind_cfi_loop_walk elf cfi s tid fuel max cursors c modules :
  tracee s tid -> size_of (eh_section cfi) <= i64_max -> Forall opened modules ->
  Sorted (cfi_step elf cfi s) (cursors ++ [c]) -> size_of (cursors ++ [c]) <= max ->
  max - size_of (cursors ++ [c]) <= Z.of_nat fuel ->
  exists bt rest, unwind_cfi_loop fuel elf cfi max c modules (map cfi_frame (cursors ++ [c])) s = (Ok bt, s) /\
    cfi_walk elf cfi s max (cursors ++ c :: rest) bt.
Proof.
  intros Ht Hcfi. revert cursors c modules. induction fuel as [|fuel IH]; intros cursors c modules Hm Hs Hle Hfuel;
    cbn [unwind_cfi_loop]; rewrite size_map; destruct (Z.ltb_spec (size_of (cursors ++ [c])) max) as [Hlt|Hge]; [lia| | |].
  1, 3: eexists _, []; split; [done|]; split; [done|]; split; [done|]; split; [done|]; exists c;
    split; [apply last_snoc|simpl; lia].
  assert (Hend : forall reason, (size_of (cursors ++ [c]) <= max ->
    match reason with
    | FrameLimit => size_of (cursors ++ [c]) = max
    | NoFrameInfo => size_of (cursors ++ [c]) = 1 /\ no_caller elf cfi s c
    | EndOfChain => size_of (cursors ++ [c]) <> 1 /\ no_caller elf cfi s c
    | InvalidFrameState => search_fails elf cfi s c \/ exists c', called elf cfi s c c' /\ ~ progresses c c'
    end) ->
    cfi_walk elf cfi s max (cursors ++ [c]) (mkCfiBacktrace (map cfi_frame (cursors ++ [c])) reason)).
  { intros reason Hr. split; [done|]. split; [done|]. split; [done|]. exists c. split; [apply last_snoc|by apply Hr]. }
  unfold mbind at 1, M_bind at 1. destruct (try_caller_same elf cfi c modules s tid Ht Hcfi Hm) as (r & -> & Hr).
  destruct r as [[[c'|] ms]|].
  - destruct Hr as [Hms Hc']. cbn [fst snd] in Hms, Hc'. destruct (no_progress c c') eqn:Ep.
    { eexists _, []. split; [done|]. apply Hend. intros _. right. exists c'. split; [done|].
      rewrite <- no_progress_spec. by rewrite Ep. }
    assert (Hsize : size_of ((cursors ++ [c]) ++ [c']) = size_of (cursors ++ [c]) + 1)
      by (unfold size_of; rewrite !length_app; simpl; lia).
    destruct (IH (cursors ++ [c]) c' ms Hms) as (bt & rest & H1 & H2); [|lia|lia|].
    + apply sorted_snoc; [done|]. split; [done|by apply no_progress_spec].
    + rewrite map_app in H1. exists bt, (c' :: rest). split; [exact H1|]. by rewrite <- app_assoc in H2.
  - destruct Hr as [_ Hn]. eexists _, []. split; [done|]. apply Hend. intros _.
    by destruct (Z.eqb_spec (size_of (cursors ++ [c])) 1).
  - eexists _, []. split; [done|]. apply Hend. intros _. by left.
Qed.

(** C20: CFI unwinding of a stopped tracee with a non-zero limit, with files smaller than the
    address space, always returns a backtrace and leaves the debugger and the tracee as they are.  It starts at the registers; each frame is
    the caller that the call-frame information of the module mapped at the program counter of
    the frame below gives, at the address that module is loaded at, with a higher stack pointer
    and another program counter.  The reason it stops is that of its last frame: the limit is
    exactly reached, that frame has no caller (no module mapped there, no call-frame
    information, or none for it), or the search for it failed or made no progress. *)
Theorem unwind_eh_frame_walk elf cfi s tid max :
  tracee s tid -> size_of (eh_section cfi) <= i64_max -> 0 < max ->
  exists bt rest, unwind_eh_frame elf cfi max s = (Ok bt, s) /\
    let regs := k_regs (st_world s) tid in
    cfi_walk elf cfi s max (mkCursor (rip regs) (rsp regs) (Some (rbp regs)) (Some (rbx regs)) :: rest) bt.
Proof.
  intros Ht Hcfi Hmax. unfold unwind_eh_frame. rewrite run_throw_if. destruct (Z.eqb_spec max 0); [lia|].
  rewrite run_get, run_throw_if. rewrite bool_decide_false by (rewrite (tr_state _ _ Ht); auto).
  rewrite (run_Ok _ _ _ _ _ (registers_same s tid Ht)). cbv zeta. set (c := mkCursor _ _ _ _).
  destruct (Z.eqb_spec max 1) as [->|Hm1].
  - eexists _, []. split; [done|]. split; [done|]. split; [by repeat constructor|]. split; [done|]. by exists c.
  - apply (unwind_cfi_loop_walk elf cfi s tid (Z.to_nat max) max [] c []); try done; [by apply Sorted_cons| |].
    + simpl. unfold size_of. simpl. lia.
    + simpl. unfold size_of. simpl. lia.
Qed.
End Spec.

(** ** Two frames on the concrete kernel: [demo_eh] describes the first *)

Definition demo_cfi_dst : dst (K := SimKernel) :=
  mkSt (new_debugger demo_tracee demo_stop "/bin/tracee")
    (mkSim (sim_store (sim_store ∅ 0x8000 (le_split 8 0x9000)) 0x8008 (le_split 8 0x401111))
       {[100 := Regs 0 0 0 0 0x8000 7 0 0 0 0 0 0 0 0 0 0 0x1004 0 0 0x7000 0 0 0 0 0 0 0]} ∅ [] 0 ["100"] ∅) 0.

Definition DemoHost : Host := {|
  h_file _ := FileOpenFailed; h_canonical _ := None; h_regular _ := false; h_page_size := 4096
|}.
Definition DemoIdentity : FileIdentity := {| h_equivalent _ _ := None |}.
Definition DemoMaps : ProcMaps SimKernel :=
  {| k_maps _ _ := Some ["1000-3000 r-xp 00000000 08:01 131 /bin/tracee"] |}.
Definition demo_tracee_elf : Elf.ElfFile := Elf.mkElfFile "/bin/tracee" [] ET_EXEC 0.

Lemma demo_cfi_tracee : tracee (L := SimKernelLaws) demo_cfi_dst 100.
Proof. split; reflexivity || exact I. Qed.

Example demo_cfi_unwind :
  fst (unwind_eh_frame (H := DemoHost) (FI := DemoIdentity) (PM := DemoMaps) demo_tracee_elf demo_eh 8 demo_cfi_dst) =
    Ok (mkCfiBacktrace [mkCfiFrame 0x1004 0x7000 (Some 0x8000); mkCfiFrame 0x401111 0x8010 (Some 0x9000)] EndOfChain).
Proof. vm_compute. reflexivity. Qed.

Lemma unwind_eh_frame_walk_witness :
  exists cursors bt, cfi_walk (H := DemoHost) (FI := DemoIdentity) (PM := DemoMaps) (K := SimKernel) demo_tracee_elf demo_eh demo_cfi_dst 8 cursors bt.
Proof.
  assert (Hfiles : forall path bytes, h_file (Host := DemoHost) path = FileBytes bytes -> file_sized bytes)
    by (intros path bytes Hb; discriminate Hb).
  assert (Hsz : size_of (eh_section demo_eh) <= i64_max) by (vm_compute; discriminate).
  destruct (unwind_eh_frame_walk (H := DemoHost) (FI := DemoIdentity) (L := SimKernelLaws) (PM := DemoMaps) Hfiles
    demo_tracee_elf demo_eh demo_cfi_dst 100 8 demo_cfi_tracee Hsz ltac:(reflexivity)) as (bt & rest & _ & Hw).
  eexists _, bt. exact Hw.
Defined.
