(* ===== verification/Inspection.v ===== *)
(** * Frames of a core ([src/snapshot/inspection.hpp], [src/snapshot/frame_lookup.hpp])

    The frames of one thread of a core, each with the module that owns its program
    counter: an ordinary frame is unwound by the CFA rules of its module, a signal frame
    by the context the kernel saved.  A [CoreSnapshot] and the threads inside it are
    passed by reference and compared by address, so they carry an identity here. *)

From S2P Require Import Prelude Machine ByteReader Paths ElfFormat Debugger EhFrame Unwind.
From S2P Require Import ModulePath Elf Core SignalContext LineTable.
From S2P Require EhFrameSignal.

(** ** Objects *)

(** A [CoreSnapshot] at an address. *)
Record SnapshotObject := mkObject { so_address : Z; so_core : CoreSnapshot }.

(** A reference to the thread at a position of the catalogue of the snapshot at an address. *)
Record ThreadRef := mkThreadRef { tr_owner : Z; tr_position : nat; tr_thread : CoreThreadSnapshot }.

Definition same_thread_object (a b : ThreadRef) : bool :=
  (tr_owner a =? tr_owner b) && Nat.eqb (tr_position a) (tr_position b).

(** The reference [CoreSnapshot::thread] returns. *)
(* src/elf/elf.cpp:501-506 CoreSnapshot::thread *)
Definition snapshot_thread (snapshot : SnapshotObject) (tid : Z) : res ThreadRef :=
  match list_find (fun thread => thread_tid thread = tid) (core_threads (so_core snapshot)) with
  | Some (position, thread) => Ok (mkThreadRef (so_address snapshot) position thread)
  | None => out_of_range "core thread TID is unavailable"
  end.

(* src/elf/elf.hpp:105-107 CoreSnapshot::crashed_thread *)
Definition snapshot_crashed_thread (snapshot : SnapshotObject) : res ThreadRef :=
  match core_threads (so_core snapshot) with
  | [] => Undef "front of an empty vector"
  | thread :: _ => Ok (mkThreadRef (so_address snapshot) 0 thread)
  end.

(** ** Data *)

(* src/snapshot/inspection.hpp:22-26 SnapshotModuleAddress *)
Record SnapshotModuleAddress := mkModuleAddress {
  ma_module_path : string; ma_module_file_path : string; ma_virtual_address : Z
}.
(* src/snapshot/inspection.hpp:28-32 SnapshotResolvedSymbol *)
Record SnapshotResolvedSymbol := mkSnapshotSymbol { ss_module_path : string; ss_name : string; ss_offset : Z }.
(* src/snapshot/inspection.hpp:34-39 SnapshotResolvedSource *)
Record SnapshotResolvedSource := mkSnapshotSource {
  so_module_path : string; so_file : string; so_line : Z; so_column : Z
}.
(* src/snapshot/inspection.hpp:41-44 SnapshotFramePcOwnership *)
Inductive SnapshotFramePcOwnership := ExactInstruction | ReturnAddress.
#[export] Instance SnapshotFramePcOwnership_eq_dec : EqDecision SnapshotFramePcOwnership.
Proof. solve_decision. Defined.

(* src/snapshot/inspection.hpp:46-60 SnapshotInspectionFrameContext *)
Record SnapshotInspectionFrameContext := mkSnapshotFrame {
  sf_index : Z;
  sf_owner_snapshot : Z;
  sf_thread_tid : Z;
  sf_thread_signal_number : Z;
  sf_origin_runtime_pc : Z;
  sf_origin_stack_pointer : Z;
  sf_origin_frame_pointer : option Z;
  sf_runtime_pc : Z;
  sf_stack_pointer : Z;
  sf_frame_pointer : option Z;
  sf_pc_ownership : SnapshotFramePcOwnership;
  sf_module_path : string;
  sf_registers : InspectionRegisterState
}.

(* src/snapshot/inspection.hpp:62-65 SnapshotInspectionTrace *)
Record SnapshotInspectionTrace := mkTrace {
  trace_frames : list SnapshotInspectionFrameContext; trace_stop_reason : CfiUnwindStopReason
}.

(* src/elf/elf.cpp:147-147 ElfFile::is_pie *)
Definition is_pie (elf : ElfFile) : bool := elf_type elf =? ET_DYN.

(* src/snapshot/inspection.hpp:67-70 identity_snapshot_module_paths *)
Definition identity_snapshot_module_paths : SnapshotModulePathResolver := no_module_paths.

(** ** The module of an address *)

(** The mapping of an address, with an absolute path. *)
(* src/snapshot/inspection.hpp:178-188 snapshot_frame_module_path *)
Definition snapshot_frame_module_path (snapshot : CoreSnapshot) (address : Z) : res string :=
  match mapping_for_address snapshot address with
  | None => runtime_error "snapshot frame address is not covered by NT_FILE mapping"
  | Some mapping =>
    _ ← throw_if (negb (path_is_absolute (map_path mapping)))
          (Exn RuntimeError "snapshot frame NT_FILE mapping lacks an absolute module path");
    Ok (map_path mapping)
  end.

Section Modules.
Context `{H : Host} `{F : FileAccess}.

(* src/snapshot/inspection.hpp:72-108 resolve_snapshot_module_address *)
Definition resolve_snapshot_module_address (snapshot : CoreSnapshot) (address : Z)
    (module_paths : SnapshotModulePathResolver) : res SnapshotModuleAddress :=
  match mapping_for_address snapshot address with
  | None => runtime_error "snapshot address is not covered by NT_FILE mapping"
  | Some mapping =>
    _ ← throw_if (negb (path_is_absolute (map_path mapping)))
          (Exn RuntimeError "snapshot NT_FILE mapping lacks an absolute module path");
    module_file_path ← resolve_module (map_path mapping) module_paths;
    module ← open_elf module_file_path;
    if negb (is_pie module) then Ok (mkModuleAddress (map_path mapping) module_file_path address)
    else
      match List.find (fun candidate => String.eqb (map_path candidate) (map_path mapping) &&
                                        (map_file_offset candidate =? 0)) (file_mappings snapshot) with
      | None => runtime_error "snapshot PIE module lacks offset-zero NT_FILE mapping"
      | Some base =>
        _ ← throw_if (map_start base <? zero_offset_load_vaddr module)
              (Exn RuntimeError "snapshot PIE mapping is below ELF load virtual base");
        let bias := map_start base - zero_offset_load_vaddr module in
        _ ← throw_if (address <? bias)
              (Exn RuntimeError "snapshot runtime address is below module load bias");
        Ok (mkModuleAddress (map_path mapping) module_file_path (address - bias))
      end
  end.

(* src/snapshot/inspection.hpp:116-126 find_snapshot_symbol_by_runtime_address *)
Definition find_snapshot_symbol_by_runtime_address (snapshot : CoreSnapshot) (address : Z)
    (module_paths : SnapshotModulePathResolver) : res (option SnapshotResolvedSymbol) :=
  module_address ← resolve_snapshot_module_address snapshot address module_paths;
  debug_file ← resolve_debug_file (ma_module_path module_address) module_paths;
  module ← open_elf debug_file;
  Ok match find_symbol_by_virtual_address module (ma_virtual_address module_address) with
     | None => None
     | Some resolved =>
       Some (mkSnapshotSymbol (ma_module_path module_address) (sym_name (rs_symbol resolved)) (rs_offset resolved))
     end.

(* src/snapshot/inspection.hpp:134-145 find_snapshot_source_by_runtime_address *)
Definition find_snapshot_source_by_runtime_address (snapshot : CoreSnapshot) (address : Z)
    (module_paths : SnapshotModulePathResolver) : res (option SnapshotResolvedSource) :=
  module_address ← resolve_snapshot_module_address snapshot address module_paths;
  debug_file ← resolve_debug_file (ma_module_path module_address) module_paths;
  lines ← open_line_table debug_file;
  if negb (line_table_available lines) then Ok None
  else
    Ok match find_virtual_address lines (ma_virtual_address module_address) with
       | None => None
       | Some source =>
         Some (mkSnapshotSource (ma_module_path module_address) (loc_file source) (loc_line source)
                 (loc_column source))
       end.

(** ** Frames *)

(* src/snapshot/inspection.hpp:153-176 validate_snapshot_inspection_frame *)
Definition validate_snapshot_inspection_frame (snapshot : SnapshotObject) (frame : SnapshotInspectionFrameContext)
    : res unit :=
  _ ← throw_if (negb (sf_owner_snapshot frame =? so_address snapshot))
        (Exn LogicError "snapshot inspection frame belongs to a different CoreSnapshot owner");
  thread ← snapshot_thread snapshot (sf_thread_tid frame);
  let regs := thread_registers (tr_thread thread) in
  _ ← throw_if (negb (sf_thread_signal_number frame =? thread_signal_number (tr_thread thread)) ||
                negb (sf_origin_runtime_pc frame =? rip regs) ||
                negb (sf_origin_stack_pointer frame =? rsp regs) ||
                bool_decide (sf_origin_frame_pointer frame <> Some (rbp regs)))
        (Exn LogicError "snapshot inspection frame thread identity does not match its owner");
  _ ← throw_if ((sf_runtime_pc frame =? 0) || (sf_stack_pointer frame =? 0) ||
                String.eqb (sf_module_path frame) EmptyString)
        (Exn InvalidArgument "snapshot inspection frame is incomplete");
  throw_if ((sf_index frame =? 0) && bool_decide (sf_pc_ownership frame <> ExactInstruction))
    (Exn LogicError "snapshot frame zero must own an exact instruction PC").

(** A caller frame as it is recovered: the registers a signal context restored, if any. *)
(* src/snapshot/inspection.hpp:258-263 build_snapshot_inspection_frames *)
Record SnapshotCaller := mkSnapshotCaller {
  sc_cursor : EhFrameCursor;
  sc_pc_ownership : SnapshotFramePcOwnership;
  sc_r12 : option Z;
  sc_rdi : option Z;
  sc_rsi : option Z;
  sc_xmm0 : option (list byte)
}.

(* src/snapshot/inspection.hpp:190-225 make_snapshot_inspection_frame *)
Definition make_snapshot_inspection_frame (snapshot : SnapshotObject) (thread : ThreadRef) (index : Z)
    (caller : SnapshotCaller) : res SnapshotInspectionFrameContext :=
  owned ← snapshot_thread snapshot (thread_tid (tr_thread thread));
  _ ← throw_if (negb (same_thread_object owned thread))
        (Exn LogicError "snapshot thread context belongs to a different owner");
  let origin := thread_registers (tr_thread thread) in
  let cursor := sc_cursor caller in
  let recovered :=
    mkInspectionRegisters None (cursor_rbx cursor) None None (sc_rsi caller) (sc_rdi caller)
      (frame_pointer cursor) (Some (stack_pointer cursor)) None None None None (sc_r12 caller)
      None None None (sc_xmm0 caller) in
  module_path ← snapshot_frame_module_path (so_core snapshot) (instruction_pointer cursor);
  Ok (mkSnapshotFrame index (so_address snapshot) (thread_tid (tr_thread thread))
        (thread_signal_number (tr_thread thread)) (rip origin) (rsp origin) (Some (rbp origin))
        (instruction_pointer cursor) (stack_pointer cursor) (frame_pointer cursor) (sc_pc_ownership caller)
        module_path recovered).

(** The reader the CFA rules get. *)
(* src/snapshot/inspection.hpp:252-255 build_snapshot_inspection_frames *)
Definition core_reader (snapshot : CoreSnapshot) (address length : Z) : M unit (list byte) :=
  lift (core_read_memory snapshot address length).

(** The frame a signal interrupted, or the caller the CFA rules give. *)
(* src/snapshot/inspection.hpp:274-287 build_snapshot_inspection_frames *)
Definition recover_snapshot_caller (snapshot : CoreSnapshot) (cfi : EhFrame) (module : SnapshotModuleAddress)
    (current : EhFrameCursor) : res (option SnapshotCaller) :=
  signal_index ← EhFrameSignal.open_signal_index (ma_module_file_path module);
  signal ← (if EhFrameSignal.signal_available signal_index
            then EhFrameSignal.is_signal_frame signal_index (ma_virtual_address module) else Ok false);
  if (signal : bool) then
    context ← recover_linux_x86_signal_frame snapshot (stack_pointer current);
    Ok (Some (mkSnapshotCaller (rec_cursor context) ExactInstruction (Some (rec_r12 context)) (Some (rec_rdi context))
                (Some (rec_rsi context)) (Some (rec_xmm0 context))))
  else
    caller ← fst (caller_frame_with cfi (core_reader snapshot) (ma_virtual_address module) current tt);
    Ok (option_map (fun cursor => mkSnapshotCaller cursor ReturnAddress None None None None) caller).

(** What a turn of the loop comes to: the trace ends for a reason, or has one more frame. *)
Inductive snapshot_step := StepStop (reason : CfiUnwindStopReason) | StepCaller (caller : SnapshotCaller).

Definition no_caller (frames : Z) : CfiUnwindStopReason := if frames =? 1 then NoFrameInfo else EndOfChain.

(** The [try] block. *)
(* src/snapshot/inspection.hpp:264-301 build_snapshot_inspection_frames *)
Definition snapshot_turn (snapshot : CoreSnapshot) (module_paths : SnapshotModulePathResolver)
    (frames : Z) (current : EhFrameCursor) : res snapshot_step :=
  module ← resolve_snapshot_module_address snapshot (instruction_pointer current) module_paths;
  cfi ← open_eh_frame (ma_module_file_path module);
  if negb (eh_available cfi) then Ok (StepStop (no_caller frames))
  else
    caller ← recover_snapshot_caller snapshot cfi module current;
    match caller with
    | None => Ok (StepStop (no_caller frames))
    | Some caller =>
      if no_progress current (sc_cursor caller) then Ok (StepStop InvalidFrameState)
      else
        _ ← resolve_snapshot_module_address snapshot (instruction_pointer (sc_cursor caller)) module_paths;
        Ok (StepCaller caller)
    end.

(** With its handler [catch (const std::exception&)]. *)
(* src/snapshot/inspection.hpp:264-305 build_snapshot_inspection_frames *)
Definition try_snapshot_turn (snapshot : CoreSnapshot) (module_paths : SnapshotModulePathResolver)
    (frames : Z) (current : EhFrameCursor) : res snapshot_step :=
  match snapshot_turn snapshot module_paths frames current with
  | Throw _ => Ok (StepStop InvalidFrameState)
  | r => r
  end.

(** Every turn appends a frame or ends the loop. *)
(* src/snapshot/inspection.hpp:257-314 build_snapshot_inspection_frames *)
Fixpoint snapshot_frames_loop (fuel : nat) (snapshot : SnapshotObject) (thread : ThreadRef) (max_frames : Z)
    (module_paths : SnapshotModulePathResolver) (current : EhFrameCursor)
    (frames : list SnapshotInspectionFrameContext) : res SnapshotInspectionTrace :=
  if size_of frames <? max_frames then
    match fuel with
    | O => OutOfFuel
    | S fuel =>
      turn ← try_snapshot_turn (so_core snapshot) module_paths (size_of frames) current;
      match turn with
      | StepStop reason => Ok (mkTrace frames reason)
      | StepCaller caller =>
        frame ← make_snapshot_inspection_frame snapshot thread (size_of frames) caller;
        snapshot_frames_loop fuel snapshot thread max_frames module_paths (sc_cursor caller) (frames ++ [frame])
      end
    end
  else Ok (mkTrace frames FrameLimit).

(* src/snapshot/inspection.hpp:227-315 build_snapshot_inspection_frames *)
Definition build_snapshot_inspection_frames (snapshot : SnapshotObject) (thread : ThreadRef) (max_frames : Z)
    (module_paths : SnapshotModulePathResolver) : res SnapshotInspectionTrace :=
  _ ← throw_if (max_frames =? 0)
        (Exn InvalidArgument "snapshot inspection requires a non-zero frame limit");
  owned ← snapshot_thread snapshot (thread_tid (tr_thread thread));
  _ ← throw_if (negb (same_thread_object owned thread))
        (Exn LogicError "snapshot thread context belongs to a different owner");
  let regs := thread_registers (tr_thread thread) in
  let current := mkCursor (rip regs) (rsp regs) (Some (rbp regs)) (Some (rbx regs)) in
  first ← make_snapshot_inspection_frame snapshot thread 0
            (mkSnapshotCaller current ExactInstruction None None None None);
  if max_frames =? 1 then Ok (mkTrace [first] FrameLimit)
  else snapshot_frames_loop (Z.to_nat max_frames) snapshot thread max_frames module_paths current [first].

(* src/snapshot/inspection.hpp:324-329 build_snapshot_inspection_frames *)
Definition build_crashed_thread_frames (snapshot : SnapshotObject) (max_frames : Z)
    (module_paths : SnapshotModulePathResolver) : res SnapshotInspectionTrace :=
  thread ← snapshot_crashed_thread snapshot;
  build_snapshot_inspection_frames snapshot thread max_frames module_paths.

(* src/snapshot/inspection.hpp:337-347 unwind_eh_frame *)
Definition unwind_snapshot (snapshot : SnapshotObject) (max_frames : Z) : res CfiBacktrace :=
  inspection ← build_crashed_thread_frames snapshot max_frames identity_snapshot_module_paths;
  Ok (mkCfiBacktrace
        (map (fun frame => mkCfiFrame (sf_runtime_pc frame) (sf_stack_pointer frame) (sf_frame_pointer frame))
           (trace_frames inspection))
        (trace_stop_reason inspection)).
End Modules.

(** ** The address debug information is looked up at ([frame_lookup.hpp]) *)

(* src/snapshot/frame_lookup.hpp:10-20 snapshot_frame_lookup_pc *)
Definition snapshot_frame_lookup_pc (frame : SnapshotInspectionFrameContext) : res Z :=
  if bool_decide (sf_pc_ownership frame = ExactInstruction) then Ok (sf_runtime_pc frame)
  else
    _ ← throw_if (sf_runtime_pc frame =? 0)
          (Exn UnderflowError "historical snapshot return PC cannot be normalized below zero");
    Ok (sf_runtime_pc frame - 1).

(* src/snapshot/frame_lookup.hpp:22-37 validate_snapshot_frame_lookup_pc *)
Definition validate_snapshot_frame_lookup_pc (frame : SnapshotInspectionFrameContext) : res unit :=
  lookup_pc ← snapshot_frame_lookup_pc frame;
  if bool_decide (sf_pc_ownership frame = ExactInstruction) then
    throw_if (negb (lookup_pc =? sf_runtime_pc frame))
      (Exn LogicError "exact snapshot lookup PC changed runtime identity")
  else
    _ ← throw_if (sf_index frame =? 0)
          (Exn LogicError "snapshot frame zero cannot own a return-address PC");
    throw_if ((sf_runtime_pc frame <=? lookup_pc) || negb (u64 (lookup_pc + 1) =? sf_runtime_pc frame))
      (Exn LogicError "historical snapshot lookup PC is not the return call site").
