(* ===== verification/InspectionProofs.v ===== *)
(** * The frames of a core

    A trace starts with the thread itself, every further frame is what the CFA rules or
    the signal context say of the one before it, and every frame passes the checks the
    inspection session makes of it. *)

From S2P Require Import Prelude Machine ByteReader Paths ElfFormat Debugger EhFrame EhFrameProofs Unwind CfaProgram UnwindProofs.
From S2P Require Import EhFrameSignalProofs ModulePath Elf Core ElfProofs CoreProofs SignalContext SnapshotMemoryProofs Inspection.
From S2P Require EhFrameSignal.

(** ** Threads by reference *)

Lemma snapshot_thread_Ok o tid thread :
  snapshot_thread o tid = Ok thread ->
  tr_owner thread = so_address o /\ thread_tid (tr_thread thread) = tid /\
  snapshot_thread o (thread_tid (tr_thread thread)) = Ok thread.
Proof.
  unfold snapshot_thread. destruct (list_find _ _) as [[i t]|] eqn:E; [|done]. intros [= <-]. simpl.
  apply list_find_Some in E as E'. destruct E' as (_ & Ht & _). rewrite Ht, E. done.
Qed.

Lemma same_thread_object_refl t : same_thread_object t t = true.
Proof. unfold same_thread_object. by rewrite Z.eqb_refl, Nat.eqb_refl. Qed.

(** [thread] is a reference into [o]. *)
Definition owns (o : SnapshotObject) (thread : ThreadRef) : Prop :=
  snapshot_thread o (thread_tid (tr_thread thread)) = Ok thread.

(** Distinct TIDs: the reference to the first thread is the one its TID finds. *)
Lemma crashed_thread_owned file o :
  wf_core file (so_core o) -> exists thread, snapshot_crashed_thread o = Ok thread /\ owns o thread.
Proof.
  intros (_ & Hne & _). unfold snapshot_crashed_thread, owns, snapshot_thread.
  destruct (core_threads (so_core o)) as [|t l]; [done|]. eexists. split; [done|]. simpl.
  by rewrite decide_True by done.
Qed.

(** ** Steps between frames *)

Definition signal_caller (context : LinuxX86SignalFrameRecovery) : SnapshotCaller :=
  mkSnapshotCaller (rec_cursor context) ExactInstruction (Some (rec_r12 context)) (Some (rec_rdi context))
    (Some (rec_rsi context)) (Some (rec_xmm0 context)).
Definition cfi_caller (cursor : EhFrameCursor) : SnapshotCaller :=
  mkSnapshotCaller cursor ReturnAddress None None None None.

Section Frames.
Context `{H : Host} `{F : FileAccess}.
Context (o : SnapshotObject) (paths : SnapshotModulePathResolver).
Context (files_sized : forall path bytes, h_file path = FileBytes bytes -> file_sized bytes).

(** The cursor of a frame and its caller: the frame's address belongs to a module with
    call-frame information; a signal frame resumes what the kernel saved, any other frame
    returns where the CFA rules say; the caller is further up the stack, at another
    address, in a module. *)
Definition snapshot_called (current : EhFrameCursor) (caller : SnapshotCaller) : Prop :=
  exists module cfi signal,
    resolve_snapshot_module_address (so_core o) (instruction_pointer current) paths = Ok module /\
    open_eh_frame (ma_module_file_path module) = Ok cfi /\
    EhFrameSignal.is_signal_frame (index_of cfi) (ma_virtual_address module) = Ok signal /\
    (if (signal : bool) then
       exists context, recovered_from (so_core o) (stack_pointer current) context /\ caller = signal_caller context
     else
       exists cursor, frame_rules (core_read_memory (so_core o)) cfi (ma_virtual_address module) current cursor /\
         caller = cfi_caller cursor) /\
    no_progress current (sc_cursor caller) = false /\
    exists caller_module, resolve_snapshot_module_address (so_core o) (instruction_pointer (sc_cursor caller)) paths =
      Ok caller_module.

Lemma open_eh_frame_yields path :
  yields (fun cfi => size_of (eh_section cfi) <= i64_max /\ open_eh_frame path = Ok cfi /\
                     EhFrameSignal.open_signal_index path = Ok (index_of cfi)) (open_eh_frame path).
Proof.
  assert (Hy : yields (fun cfi => size_of (eh_section cfi) <= i64_max) (open_eh_frame path)).
  { unfold open_eh_frame, EhFrame.read_file. destruct (h_file path) as [| | |bytes] eqn:Eb; try done.
    cbn [mbind res_bind]. eapply yields_bind; [exact (find_eh_frame_yields bytes (files_sized _ _ Eb))|].
    intros [[va section]|] Hs; [by eapply Hs|done]. }
  pose proof (open_signal_index_agrees path) as Ha.
  destruct (open_eh_frame path) as [cfi|e|w|]; try done. simpl in *. auto.
Qed.

Lemma resolve_address_settles address : settles (resolve_snapshot_module_address (so_core o) address paths).
Proof.
  unfold resolve_snapshot_module_address. destruct (mapping_for_address _ _) as [m|]; [|done].
  apply settles_bind; [apply settles_throw_if|intros _ _].
  apply settles_bind; [apply resolve_module_settles|intros path _].
  apply settles_bind; [by apply open_elf_settles|intros elf _]. settles_auto.
Qed.

Lemma core_frame_settles cfi pc current :
  size_of (eh_section cfi) <= i64_max ->
  settles (fst (caller_frame_with cfi (core_reader (so_core o)) pc current tt)).
Proof. intros Hs. apply caller_frame_with_always; [|done]. intros a n []. apply core_read_settles. Qed.

(** What a turn of the loop gives. *)
Definition turn_ok (current : EhFrameCursor) (turn : snapshot_step) : Prop :=
  match turn with StepStop reason => reason <> FrameLimit | StepCaller caller => snapshot_called current caller end.

Lemma no_caller_not_limit n : no_caller n <> FrameLimit.
Proof. unfold no_caller. by destruct (n =? 1). Qed.

Lemma snapshot_turn_yields n current :
  0 <= stack_pointer current -> yields (turn_ok current) (snapshot_turn (so_core o) paths n current).
Proof.
  intros Hsp. unfold snapshot_turn.
  eapply yields_bind; [apply settles_yields, resolve_address_settles|intros module Hm].
  eapply yields_bind; [apply open_eh_frame_yields|intros cfi (Hs & Ho & Hi)].
  destruct (eh_available cfi) eqn:Ha; cbn [negb]; [|apply no_caller_not_limit].
  eapply yields_bind with (P := fun found => match found with
    | None => True
    | Some caller => no_progress current (sc_cursor caller) = false ->
        (exists m, resolve_snapshot_module_address (so_core o) (instruction_pointer (sc_cursor caller)) paths = Ok m) ->
        snapshot_called current caller
    end).
  - unfold recover_snapshot_caller. rewrite Hi. cbn [mbind res_bind]. cbn [index_of EhFrameSignal.signal_available].
    rewrite Ha. eapply yields_bind; [apply settles_yields, is_signal_frame_settles; exact Hs|intros signal Hsig].
    destruct signal.
    + eapply yields_bind; [by apply recover_linux_x86_signal_frame_spec|intros context Hc]. intros Hp Hr.
      exists module, cfi, true. repeat (split; [done|]). split; [by exists context|done].
    + eapply yields_bind; [apply settles_yields, core_frame_settles; exact Hs|intros [cursor|] Hc; [|done]]. intros Hp Hr.
      exists module, cfi, false. repeat (split; [done|]). split; [|done]. exists cursor. split; [|done].
      destruct (caller_frame_with _ _ _ _ _) as [r []] eqn:E in Hc. simpl in Hc. subst r.
      by apply (caller_frame_rules (core_read_memory (so_core o))) in E as (_ & _ & E).
  - intros [caller|] Hc; [|apply no_caller_not_limit].
    destruct (no_progress current (sc_cursor caller)) eqn:Ep; [done|].
    eapply yields_bind; [apply settles_yields, resolve_address_settles|intros m Hr]. apply Hc; [done|by exists m].
Qed.

Lemma try_snapshot_turn_spec n current :
  0 <= stack_pointer current ->
  exists turn, try_snapshot_turn (so_core o) paths n current = Ok turn /\ turn_ok current turn.
Proof.
  intros Hsp. pose proof (snapshot_turn_yields n current Hsp) as Hy. unfold try_snapshot_turn.
  destruct (snapshot_turn _ _ _ _) as [turn|e|w|]; try done; [by exists turn|by exists (StepStop InvalidFrameState)].
Qed.

(** ** Traces *)

Context (thread : ThreadRef) (Hown : owns o thread).

(** The cursor the thread was stopped with. *)
Definition thread_cursor : EhFrameCursor :=
  let regs := thread_registers (tr_thread thread) in mkCursor (rip regs) (rsp regs) (Some (rbp regs)) (Some (rbx regs)).
Definition thread_frame : SnapshotCaller := mkSnapshotCaller thread_cursor ExactInstruction None None None None.

(** Each caller is called from the one before it. *)
Inductive snapshot_chain : EhFrameCursor -> list SnapshotCaller -> Prop :=
  | chain_end current : snapshot_chain current []
  | chain_next current caller callers :
      snapshot_called current caller -> snapshot_chain (sc_cursor caller) callers ->
      snapshot_chain current (caller :: callers).

(** The frame contexts made of the callers, numbered from an index. *)
Inductive frames_of : Z -> list SnapshotCaller -> list SnapshotInspectionFrameContext -> Prop :=
  | frames_none index : frames_of index [] []
  | frames_some index caller callers frame frames :
      make_snapshot_inspection_frame o thread index caller = Ok frame -> frames_of (index + 1) callers frames ->
      frames_of index (caller :: callers) (frame :: frames).

(** The trace starts with the thread's own frame and follows its callers; it is as long as
    the limit exactly when it stops because of the limit. *)
Definition trace_of (max_frames : Z) (t : SnapshotInspectionTrace) : Prop :=
  exists callers,
    frames_of 0 (thread_frame :: callers) (trace_frames t) /\ snapshot_chain thread_cursor callers /\
    size_of (trace_frames t) <= max_frames /\
    (trace_stop_reason t = FrameLimit <-> size_of (trace_frames t) = max_frames).

(** A frame can be made where the program counter has an absolute module path. *)
Lemma make_frame_Ok index caller path :
  snapshot_frame_module_path (so_core o) (instruction_pointer (sc_cursor caller)) = Ok path ->
  exists frame, make_snapshot_inspection_frame o thread index caller = Ok frame.
Proof.
  intros Hp. unfold make_snapshot_inspection_frame. rewrite Hown. cbn [mbind res_bind].
  rewrite same_thread_object_refl. cbn [negb throw_if mbind res_bind]. cbv zeta. rewrite Hp. by eexists.
Qed.

Lemma resolved_module_path address module :
  resolve_snapshot_module_address (so_core o) address paths = Ok module ->
  snapshot_frame_module_path (so_core o) address = Ok (ma_module_path module).
Proof.
  unfold resolve_snapshot_module_address, snapshot_frame_module_path.
  destruct (mapping_for_address _ address) as [m|]; [|done]. intros Hr. inv_res.
  destruct (path_is_absolute (map_path m)); [|done]. simpl. f_equal.
  destruct (negb (is_pie _)); inv_res; [by subst|].
  destruct (List.find _ _) as [base|]; [|done]. inv_res. by subst.
Qed.

Lemma called_progress current caller : snapshot_called current caller ->
  stack_pointer current < stack_pointer (sc_cursor caller) /\
  exists path, snapshot_frame_module_path (so_core o) (instruction_pointer (sc_cursor caller)) = Ok path.
Proof.
  intros (module & cfi & signal & _ & _ & _ & _ & Hp & m & Hm). split.
  - unfold no_progress in Hp. apply orb_false_iff in Hp as [_ Hp%Z.leb_gt]. lia.
  - apply resolved_module_path in Hm. by eexists.
Qed.

Lemma size_app {A} (l l' : list A) : size_of (l ++ l') = size_of l + size_of l'.
Proof. unfold size_of. rewrite length_app. lia. Qed.

(** [t] extends [frames] by a chain of callers. *)
Definition extends (max_frames : Z) (current : EhFrameCursor) (frames : list SnapshotInspectionFrameContext)
    (t : SnapshotInspectionTrace) : Prop :=
  exists callers more,
    trace_frames t = frames ++ more /\ frames_of (size_of frames) callers more /\ snapshot_chain current callers /\
    size_of (trace_frames t) <= max_frames /\
    (trace_stop_reason t = FrameLimit <-> size_of (trace_frames t) = max_frames).

Lemma extends_end max_frames current frames reason :
  size_of frames <= max_frames -> (reason = FrameLimit <-> size_of frames = max_frames) ->
  extends max_frames current frames (mkTrace frames reason).
Proof. intros Hm Hr. exists [], []. rewrite app_nil_r. repeat (split; [done || constructor|]). done. Qed.

Lemma snapshot_frames_loop_spec fuel max_frames current frames :
  0 <= stack_pointer current -> size_of frames <= max_frames -> max_frames - size_of frames <= Z.of_nat fuel ->
  exists t, snapshot_frames_loop fuel o thread max_frames paths current frames = Ok t /\
    extends max_frames current frames t.
Proof.
  revert current frames. induction fuel as [|fuel IH]; intros current frames Hsp Hmax Hfuel; cbn [snapshot_frames_loop];
    (destruct (Z.ltb_spec (size_of frames) max_frames) as [Hlt|Hge];
      [|exists (mkTrace frames FrameLimit); split; [done|]; apply extends_end; [done|split; [lia|done]]]); [lia|].
  destruct (try_snapshot_turn_spec (size_of frames) current Hsp) as (turn & -> & Ht). cbn [mbind res_bind].
  destruct turn as [reason|caller]; cbn [turn_ok] in Ht.
  { exists (mkTrace frames reason). split; [done|]. apply extends_end; [done|]. split; [done|lia]. }
  destruct (called_progress _ _ Ht) as [Hprog [path Hpath]].
  destruct (make_frame_Ok (size_of frames) caller path Hpath) as [frame Hframe]. rewrite Hframe. cbn [mbind res_bind].
  destruct (IH (sc_cursor caller) (frames ++ [frame])) as (t & Hl & callers & more & Happ & Hfs & Hch & Hlim);
    [lia|rewrite size_snoc; lia..|]. rewrite size_snoc in Hfs. rewrite <- app_assoc in Happ.
  exists t. split; [exact Hl|]. exists (caller :: callers), (frame :: more). split; [done|].
  split; [by constructor|]. split; [by constructor|done].
Qed.

Lemma build_frames_trace max_frames path :
  0 < max_frames -> 0 <= rsp (thread_registers (tr_thread thread)) ->
  snapshot_frame_module_path (so_core o) (rip (thread_registers (tr_thread thread))) = Ok path ->
  exists t, build_snapshot_inspection_frames o thread max_frames paths = Ok t /\ trace_of max_frames t.
Proof.
  intros Hmax Hsp Hpath. unfold build_snapshot_inspection_frames. rewrite Hown.
  destruct (Z.eqb_spec max_frames 0) as [|_]; [lia|]. cbn [throw_if mbind res_bind].
  rewrite same_thread_object_refl. cbn [negb throw_if mbind res_bind]. cbv zeta.
  fold thread_cursor. fold thread_frame.
  destruct (make_frame_Ok 0 thread_frame path Hpath) as [first Hfirst]. rewrite Hfirst. cbn [mbind res_bind].
  destruct (Z.eqb_spec max_frames 1) as [->|].
  - exists (mkTrace [first] FrameLimit). split; [done|]. exists []. cbn [trace_frames trace_stop_reason].
    split; [by repeat constructor|]. split; [constructor|]. done.
  - destruct (snapshot_frames_loop_spec (Z.to_nat max_frames) max_frames thread_cursor [first])
      as (t & Hl & callers & more & Happ & Hfs & Hch & Hlim); [done|unfold size_of; simpl; lia..|].
    exists t. split; [exact Hl|]. exists callers. split; [rewrite Happ; by constructor|done].
Qed.

(** ** Frames that pass the checks of a session *)

(** A frame of [o] the session accepts, made for the thread. *)
Definition frame_valid (frame : SnapshotInspectionFrameContext) : Prop :=
  validate_snapshot_inspection_frame o frame = Ok tt /\ validate_snapshot_frame_lookup_pc frame = Ok tt /\
  sf_thread_tid frame = thread_tid (tr_thread thread).

Lemma made_frame_valid index caller frame :
  make_snapshot_inspection_frame o thread index caller = Ok frame ->
  instruction_pointer (sc_cursor caller) <> 0 -> stack_pointer (sc_cursor caller) <> 0 ->
  (sc_pc_ownership caller = ReturnAddress -> index <> 0 /\ in_u64 (instruction_pointer (sc_cursor caller))) ->
  frame_valid frame.
Proof.
  unfold make_snapshot_inspection_frame. rewrite Hown. cbn [mbind res_bind].
  rewrite same_thread_object_refl. cbn [negb throw_if mbind res_bind]. cbv zeta.
  destruct (snapshot_frame_module_path _ _) as [path|e|w|] eqn:Ep; [|done..]. cbn [mbind res_bind].
  intros [= <-] Hip%Z.eqb_neq Hsp%Z.eqb_neq Hret.
  assert (Hne : String.eqb path EmptyString = false).
  { unfold snapshot_frame_module_path in Ep. destruct (mapping_for_address _ _) as [m|]; [|done]. inv_res. subst.
    by destruct (map_path m). }
  split; [|split; [|done]].
  - unfold validate_snapshot_inspection_frame. cbn [sf_owner_snapshot sf_thread_tid sf_thread_signal_number
      sf_origin_runtime_pc sf_origin_stack_pointer sf_origin_frame_pointer sf_runtime_pc sf_stack_pointer sf_module_path
      sf_index sf_pc_ownership].
    rewrite Z.eqb_refl, Hown. cbn [negb throw_if mbind res_bind]. cbv zeta.
    rewrite !Z.eqb_refl, (bool_decide_false (Some _ <> Some _)) by (intros Hx; by apply Hx). cbn [negb orb throw_if mbind res_bind].
    rewrite Hip, Hsp, Hne. cbn [orb throw_if mbind res_bind].
    destruct (sc_pc_ownership caller) eqn:Eo; [by rewrite bool_decide_false, andb_false_r by (intros Hx; by apply Hx)|].
    destruct (Hret eq_refl) as [Hi%Z.eqb_neq _]. by rewrite Hi.
  - unfold validate_snapshot_frame_lookup_pc, snapshot_frame_lookup_pc. cbn [sf_pc_ownership sf_runtime_pc sf_index].
    destruct (sc_pc_ownership caller) eqn:Eo; [rewrite bool_decide_true by done; cbn [mbind res_bind]; by rewrite Z.eqb_refl|].
    destruct (Hret eq_refl) as [Hi%Z.eqb_neq Hu]. rewrite bool_decide_false by done. rewrite Hip.
    cbn [throw_if mbind res_bind]. rewrite Hi. cbn [throw_if mbind res_bind]. apply Z.eqb_neq in Hip.
    rewrite Z.sub_add, (u64_small _ Hu), Z.eqb_refl. unfold in_u64 in Hu.
    by destruct (Z.leb_spec (instruction_pointer (sc_cursor caller)) (instruction_pointer (sc_cursor caller) - 1)); [lia|].
Qed.

Lemma called_valid current caller : snapshot_called current caller ->
  instruction_pointer (sc_cursor caller) <> 0 /\
  (sc_pc_ownership caller = ReturnAddress -> in_u64 (instruction_pointer (sc_cursor caller))).
Proof.
  intros (module & cfi & signal & _ & _ & _ & Hc & _). destruct signal.
  - destruct Hc as (context & (rbp & rbx & _ & Hne & _) & ->). by split.
  - destruct Hc as (cursor & (cie & loc & c & e & row & base & slot & _ & _ & _ & _ & _ & Hw & Hne & _) & ->).
    split; [done|]. intros _. destruct Hw as (l & _ & Hl & Hv). cbn [cfi_caller sc_cursor]. rewrite Hv. pose proof (le_combine_bound l) as Hb.
    unfold size_of in Hl. rewrite Hl in Hb. unfold in_u64, u64_max. lia.
Qed.

Lemma chain_frames_valid index current callers frames :
  0 < index -> 0 <= stack_pointer current -> snapshot_chain current callers -> frames_of index callers frames ->
  Forall frame_valid frames.
Proof.
  intros Hi Hsp Hch. revert index frames Hi. induction Hch as [|current caller callers Hc Hch IH]; intros index frames Hi Hf.
  { inversion Hf. constructor. }
  inversion Hf as [|? ? ? frame more Hmake Hmore]; subst. destruct (called_progress _ _ Hc) as [Hprog _].
  destruct (called_valid _ _ Hc) as [Hne Hu].
  constructor; [eapply made_frame_valid; [exact Hmake|done|lia|]|apply (IH ltac:(lia) (index + 1)); [lia|done]].
  intros Ho. split; [lia|by apply Hu].
Qed.

Lemma trace_valid max_frames t :
  trace_of max_frames t -> rip (thread_registers (tr_thread thread)) <> 0 ->
  0 < rsp (thread_registers (tr_thread thread)) -> trace_frames t <> [] /\ Forall frame_valid (trace_frames t).
Proof.
  intros (callers & Hf & Hch & _) Hip Hsp. inversion Hf as [|? ? ? frame more Hmake Hmore]; subst.
  split; [done|]. constructor; [|by eapply chain_frames_valid; [| |exact Hch|exact Hmore]; simpl; lia].
  eapply made_frame_valid; [exact Hmake|done|simpl; lia|done].
Qed.

(** C23: A thread of a core whose instruction pointer lies in a module of absolute path, and whose
    instruction and stack pointers are not null, always has a trace: its own frame first,
    then the callers, each what the CFA rules or the context saved by a signal say of the
    one before it, further and further up the stack; its length is the limit exactly
    when it ends because of the limit, and every frame passes the checks the inspection
    session makes of its frames. *)
Theorem build_snapshot_frames_spec max_frames path :
  0 < max_frames -> rip (thread_registers (tr_thread thread)) <> 0 -> 0 < rsp (thread_registers (tr_thread thread)) ->
  snapshot_frame_module_path (so_core o) (rip (thread_registers (tr_thread thread))) = Ok path ->
  exists t, build_snapshot_inspection_frames o thread max_frames paths = Ok t /\ trace_of max_frames t /\
    trace_frames t <> [] /\ Forall frame_valid (trace_frames t).
Proof.
  intros Hmax Hip Hsp Hpath. destruct (build_frames_trace max_frames path Hmax ltac:(lia) Hpath) as (t & Hb & Ht).
  exists t. split; [exact Hb|]. split; [exact Ht|]. by apply (trace_valid max_frames).
Qed.
End Frames.

(** ** A core with a signal frame: the handler in ["/a"] returns to the restorer in ["/s"], whose
       context resumes ["/a"] at 0x1010 *)

Definition demo_words : gmap Z Z := list_to_map
  [(0x1080, 0x10f0); (0x1088, 0x3010); (0x10d8, 0x12); (0x10f8, 8); (0x1100, 9); (0x1108, 0x1340); (0x1110, 0xb);
   (0x1130, 0x1300); (0x1138, 0x1010); (0x1170, 0x1180); (0x1220, 1); (0x1228, 2); (0x1348, 0x1020)].
Definition demo_signal_memory : list byte :=
  concat (map (fun i => le_split 8 (default 0 (demo_words !! (0x1000 + 8 * Z.of_nat i)))) (seq 0 128)).

Definition demo_signal_notes : list byte :=
  le_split 4 5 ++ le_split 4 336 ++ le_split 4 1 ++ le_split 8 0x45524f43 ++
  le_split 4 11 ++ le_split 8 0 ++ le_split 4 11 ++ le_split 16 0 ++ le_split 4 7 ++ replicate 76 Byte.x00 ++
  le_split 32 0 ++ le_split 8 0x1080 ++ replicate 88 Byte.x00 ++ le_split 8 0x1004 ++ le_split 16 0 ++ le_split 8 0x1070 ++
  replicate 64 Byte.x00 ++
  le_split 4 5 ++ le_split 4 70 ++ le_split 4 0x46494c45 ++ le_split 8 0x45524f43 ++
  le_split 8 2 ++ le_split 8 4096 ++ le_split 8 0x1000 ++ le_split 8 0x2000 ++ le_split 8 0 ++
  le_split 8 0x3000 ++ le_split 8 0x4000 ++ le_split 8 0 ++ le_split 8 0x732f00612f.

Definition demo_signal_core_file : list byte :=
  le_split 16 0x010102464c457f ++ le_split 2 4 ++ le_split 2 62 ++ le_split 4 1 ++ le_split 8 0 ++
  le_split 8 64 ++ le_split 8 0 ++ le_split 4 0 ++ le_split 2 64 ++ le_split 2 56 ++ le_split 2 2 ++ le_split 6 0 ++
  le_split 4 4 ++ le_split 4 0 ++ le_split 8 176 ++ le_split 16 0 ++ le_split 8 (size_of demo_signal_notes) ++
  le_split 16 0 ++
  le_split 4 1 ++ le_split 4 5 ++ le_split 8 (176 + size_of demo_signal_notes) ++ le_split 8 0x1000 ++ le_split 8 0 ++
  le_split 8 (size_of demo_signal_memory) ++ le_split 8 4096 ++ le_split 8 4096 ++ demo_signal_notes ++ demo_signal_memory.

Definition demo_signal_core : CoreSnapshot := Eval vm_compute in
  match parse_core "core" demo_signal_core_file with Ok c => c | _ => empty_core "core" [] end.

Definition DemoSignalHost : Host := {|
  h_file path := if String.eqb path "/a" then FileBytes (eh_file CfaProgram.demo_eh_section 0x2000)
                 else if String.eqb path "/s" then FileBytes (eh_file demo_signal_section 0x2000) else FileOpenFailed;
  h_canonical _ := None; h_regular _ := true; h_page_size := 4096
|}.

Definition demo_snapshot : SnapshotObject := mkObject 1 demo_signal_core.
Definition demo_thread : ThreadRef := Eval vm_compute in
  match snapshot_thread demo_snapshot 7 with
  | Ok thread => thread
  | _ => mkThreadRef 0 0 (mkThread 0 0 zero_regs false)
  end.

Definition demo_trace : res SnapshotInspectionTrace :=
  build_snapshot_inspection_frames (H := DemoSignalHost) demo_snapshot demo_thread 8 no_module_paths.

Example demo_trace_frames :
  match demo_trace with
  | Ok t => trace_stop_reason t = InvalidFrameState /\
      map (fun f => (sf_runtime_pc f, sf_stack_pointer f, sf_pc_ownership f, sf_module_path f)) (trace_frames t) =
        [(0x1004, 0x1070, ExactInstruction, "/a"); (0x3010, 0x1090, ReturnAddress, "/s");
         (0x1010, 0x1300, ExactInstruction, "/a"); (0x1020, 0x1350, ReturnAddress, "/a")] /\
      map (fun f => (ir_r12 (sf_registers f), ir_xmm0 (sf_registers f))) (take 1 (drop 2 (trace_frames t))) =
        [(Some 0x12, Some (le_split 8 1 ++ le_split 8 2))]
  | _ => False
  end.
Proof. vm_compute. repeat split. Qed.

Lemma demo_files_sized path bytes : h_file (Host := DemoSignalHost) path = FileBytes bytes -> file_sized bytes.
Proof.
  unfold h_file, DemoSignalHost. destruct (String.eqb path "/a"); [|destruct (String.eqb path "/s"); [|done]];
    intros [= <-]; vm_compute; congruence.
Qed.

Lemma build_snapshot_frames_spec_witness :
  exists t, demo_trace = Ok t /\ trace_frames t <> [] /\ Forall (frame_valid demo_snapshot demo_thread) (trace_frames t).
Proof.
  assert (Hown : owns demo_snapshot demo_thread) by (vm_compute; reflexivity).
  destruct (build_snapshot_frames_spec (H := DemoSignalHost) demo_snapshot no_module_paths demo_files_sized demo_thread
    Hown 8 "/a") as (t & Hb & _ & Hne & Hv); [reflexivity|vm_compute; discriminate|reflexivity|vm_compute; reflexivity|].
  exists t. split; [exact Hb|]. split; [exact Hne|exact Hv].
Defined.
