(* ===== verification/LocalValue.v ===== *)
(** * Values of source variables ([src/dwarf/local_value.hpp], [src/dwarf/inline_context.hpp])

    The types and values the inspection of local variables produces, and the interface of
    the DWARF source lookup that produces them. *)

From S2P Require Import Prelude Machine ByteReader ElfFormat.
From S2P Require Import ModulePath Inspection LineTable.

(* src/dwarf/local_value.hpp:19-19 LocalValueKind *)
Inductive LocalValueKind := KInteger | KPointer | KFloating | KStructure | KUnion | KArray | KEnumeration.
#[export] Instance LocalValueKind_eq_dec : EqDecision LocalValueKind.
Proof. solve_decision. Defined.

(* src/dwarf/local_value.hpp:20-20 LocalDiscoveryKind *)
Inductive LocalDiscoveryKind := DVariable | DFormalParameter.
(* src/dwarf/local_value.hpp:21-26 LocalValueStorage *)
Inductive LocalValueStorage := Computed | SnapshotCoreMemory | SnapshotCoreRegister | SnapshotRuntimeArtifact.
#[export] Instance LocalValueStorage_eq_dec : EqDecision LocalValueStorage.
Proof. solve_decision. Defined.

(* src/dwarf/local_value.hpp:28-31 LocalDiscoveryEntry *)
Record LocalDiscoveryEntry := mkDiscovery { ld_name : string; ld_kind : LocalDiscoveryKind }.
(* src/dwarf/local_value.hpp:33-39 LocalPointerPointeeMemberType *)
Record LocalPointerPointeeMemberType := mkPointeeMember {
  pm_name : string; pm_offset : Z; pm_byte_size : Z; pm_is_signed : bool; pm_kind : LocalValueKind
}.
(* src/dwarf/local_value.hpp:41-46 LocalPointerPointeeType *)
Record LocalPointerPointeeType := mkPointee {
  pt_byte_size : Z; pt_is_signed : bool; pt_kind : LocalValueKind; pt_members : list LocalPointerPointeeMemberType
}.
(* src/dwarf/local_value.hpp:48-51 LocalBitSlice *)
Record LocalBitSlice := mkBitSlice { bs_bit_offset : Z; bs_bit_size : Z }.
(* src/dwarf/local_value.hpp:53-56 LocalEnumEntry *)
Record LocalEnumEntry := mkEnumEntry { ee_name : string; ee_raw_value : Z }.
(* src/dwarf/local_value.hpp:58-63 LocalEnumType *)
Record LocalEnumType := mkEnumType {
  et_name : string; et_byte_size : Z; et_is_signed : bool; et_enumerators : list LocalEnumEntry
}.
(* src/dwarf/local_value.hpp:65-70 LocalArrayType *)
Record LocalArrayType := mkArrayType {
  at_element_count : Z; at_element_byte_size : Z; at_element_is_signed : bool; at_element_kind : LocalValueKind
}.

(* src/dwarf/local_value.hpp:72-82 LocalStructMemberType *)
Inductive LocalStructMemberType := mkMemberType {
  mt_name : string; mt_offset : Z; mt_byte_size : Z; mt_is_signed : bool; mt_kind : LocalValueKind;
  mt_pointee_type : option LocalPointerPointeeType; mt_bit_slice : option LocalBitSlice;
  mt_enum_type : option LocalEnumType; mt_members : list LocalStructMemberType
}.

(* src/dwarf/local_value.hpp:84-91 LocalValueType *)
Record LocalValueType := mkValueType {
  vt_byte_size : Z; vt_is_signed : bool; vt_kind : LocalValueKind; vt_members : list LocalStructMemberType;
  vt_array_type : option LocalArrayType; vt_enum_type : option LocalEnumType
}.

(* src/dwarf/local_value.hpp:93-104 LocalStructMember *)
Inductive LocalStructMember := mkMember {
  sm_name : string; sm_raw_value : Z; sm_byte_size : Z; sm_is_signed : bool; sm_kind : LocalValueKind;
  sm_pointee_type : option LocalPointerPointeeType; sm_bit_slice : option LocalBitSlice;
  sm_enum_type : option LocalEnumType; sm_members : list LocalStructMember; sm_offset : Z
}.

(* src/dwarf/local_value.hpp:106-111 LocalArrayElement *)
Record LocalArrayElement := mkElement {
  ae_raw_value : Z; ae_byte_size : Z; ae_is_signed : bool; ae_kind : LocalValueKind
}.

(* src/dwarf/local_value.hpp:113-129 LocalIntegerValue *)
Record LocalScalarValue := mkValue {
  lv_module_path : string; lv_name : string; lv_raw_value : Z; lv_byte_size : Z; lv_is_signed : bool;
  lv_kind : LocalValueKind; lv_members : list LocalStructMember; lv_storage : LocalValueStorage;
  lv_storage_module_path : string; lv_storage_file_path : string; lv_storage_file_offset : Z;
  lv_pointee_type : option LocalValueType; lv_elements : list LocalArrayElement;
  lv_array_type : option LocalArrayType; lv_enum_type : option LocalEnumType
}.

(** [LocalScalarValue{module, name, raw, size, signed, kind}]: the other members keep
    their initialisers. *)
(* src/dwarf/local_value.hpp:113-129 LocalIntegerValue *)
Definition scalar (module_path name : string) (raw byte_size : Z) (is_signed : bool) (kind : LocalValueKind)
    : LocalScalarValue :=
  mkValue module_path name raw byte_size is_signed kind [] Computed EmptyString EmptyString 0 None [] None None.

Definition set_storage (storage : LocalValueStorage) (module file : string) (offset : Z) (v : LocalScalarValue)
    : LocalScalarValue :=
  mkValue (lv_module_path v) (lv_name v) (lv_raw_value v) (lv_byte_size v) (lv_is_signed v) (lv_kind v) (lv_members v)
    storage module file offset (lv_pointee_type v) (lv_elements v) (lv_array_type v) (lv_enum_type v).
Definition set_pointee (pointee : option LocalValueType) (v : LocalScalarValue) : LocalScalarValue :=
  mkValue (lv_module_path v) (lv_name v) (lv_raw_value v) (lv_byte_size v) (lv_is_signed v) (lv_kind v) (lv_members v)
    (lv_storage v) (lv_storage_module_path v) (lv_storage_file_path v) (lv_storage_file_offset v) pointee
    (lv_elements v) (lv_array_type v) (lv_enum_type v).
Definition set_enum_type (enum_type : option LocalEnumType) (v : LocalScalarValue) : LocalScalarValue :=
  mkValue (lv_module_path v) (lv_name v) (lv_raw_value v) (lv_byte_size v) (lv_is_signed v) (lv_kind v) (lv_members v)
    (lv_storage v) (lv_storage_module_path v) (lv_storage_file_path v) (lv_storage_file_offset v) (lv_pointee_type v)
    (lv_elements v) (lv_array_type v) enum_type.
Definition set_members (members : list LocalStructMember) (v : LocalScalarValue) : LocalScalarValue :=
  mkValue (lv_module_path v) (lv_name v) (lv_raw_value v) (lv_byte_size v) (lv_is_signed v) (lv_kind v) members
    (lv_storage v) (lv_storage_module_path v) (lv_storage_file_path v) (lv_storage_file_offset v) (lv_pointee_type v)
    (lv_elements v) (lv_array_type v) (lv_enum_type v).

(** ** Enumerators *)

(** The one enumerator with the value; none when two have it. *)
(* src/dwarf/local_value.hpp:135-140 local_enum_symbol *)
Fixpoint enum_match (raw_value : Z) (found : option LocalEnumEntry) (enumerators : list LocalEnumEntry)
    : option LocalEnumEntry :=
  match enumerators with
  | [] => found
  | enumerator :: enumerators =>
    if negb (ee_raw_value enumerator =? raw_value) then enum_match raw_value found enumerators
    else
      match found with
      | Some _ => None
      | None => enum_match raw_value (Some enumerator) enumerators
      end
  end.

(* src/dwarf/local_value.hpp:133-143 local_enum_symbol *)
Definition local_enum_symbol (raw_value : Z) (enum_type : LocalEnumType) : option string :=
  ee_name <$> enum_match raw_value None (et_enumerators enum_type).

(* src/dwarf/local_value.hpp:145-151 local_enum_symbol *)
Definition value_enum_symbol (value : LocalScalarValue) : option string :=
  match lv_enum_type value with
  | Some enum_type =>
    if bool_decide (lv_kind value = KEnumeration) then local_enum_symbol (lv_raw_value value) enum_type else None
  | None => None
  end.

(* src/dwarf/local_value.hpp:153-159 local_enum_symbol *)
Definition member_enum_symbol (member : LocalStructMember) : option string :=
  match sm_enum_type member with
  | Some enum_type =>
    if bool_decide (sm_kind member = KEnumeration) then local_enum_symbol (sm_raw_value member) enum_type else None
  | None => None
  end.

(** ** The DWARF source lookup *)

(* src/dwarf/inline_context.hpp:17-23 InlineCallsiteContext *)
Record InlineCallsiteContext := mkInlineContext {
  ic_die_offset : Z; ic_depth : Z; ic_module_path : string; ic_name : string; ic_call_site : SourceLocation
}.

(** What the snapshot session calls of [src/dwarf/source_lookup.cpp]; the
    session's theorems hold of any such functions; [InlineValues.SourceLookup] is the
    repository's. *)
Class LocalInspection := {
  discover_inline_call_chain :
    SnapshotObject -> SnapshotInspectionFrameContext -> SnapshotModulePathResolver -> res (list InlineCallsiteContext);
  discover_local_values :
    SnapshotObject -> SnapshotInspectionFrameContext -> SnapshotModulePathResolver -> res (list LocalDiscoveryEntry);
  discover_inline_local_values :
    SnapshotObject -> SnapshotInspectionFrameContext -> Z -> SnapshotModulePathResolver -> res (list LocalDiscoveryEntry);
  inspect_local_value :
    SnapshotObject -> SnapshotInspectionFrameContext -> string -> SnapshotModulePathResolver -> res LocalScalarValue;
  inspect_inline_local_value :
    SnapshotObject -> SnapshotInspectionFrameContext -> Z -> string -> SnapshotModulePathResolver -> res LocalScalarValue;
  dereference_local_pointer :
    SnapshotObject -> SnapshotInspectionFrameContext -> string -> SnapshotModulePathResolver -> res LocalScalarValue;
  dereference_inline_local_pointer :
    SnapshotObject -> SnapshotInspectionFrameContext -> Z -> string -> SnapshotModulePathResolver -> res LocalScalarValue;
  inspect_local_pointer_member :
    SnapshotObject -> SnapshotInspectionFrameContext -> string -> string -> SnapshotModulePathResolver ->
    res LocalScalarValue;
  dereference_local_pointer_member :
    SnapshotObject -> SnapshotInspectionFrameContext -> string -> string -> SnapshotModulePathResolver ->
    res LocalScalarValue
}.
