(* ===== verification/InlineMember.v ===== *)
(** * Members of local values ([src/dwarf/inline_member.hpp])

    Selecting a member of a structure, a union or an array that is already materialised,
    and following a pointer to a structure in the memory of the snapshot.  The metadata
    the DWARF reader attached is checked again at every selection. *)

From stdpp Require Import pretty.
From S2P Require Import Prelude Machine ByteReader ElfFormat EhFrame.
From S2P Require Import Core ModulePath Inspection SnapshotMemory LocalValue.

(** Sizes of [std::uint64_t] and [std::uintptr_t]. *)
Definition sizeof_word : Z := 8.

(* src/dwarf/inline_member.hpp:17-30 decode_scalar *)
Definition decode_scalar (memory : SnapshotMemoryRead) (byte_size : Z) : res Z :=
  _ ← throw_if ((byte_size =? 0) || (sizeof_word <? byte_size) || negb (size_of (mr_bytes memory) =? byte_size))
        (Exn RuntimeError "selected-inline member has an unsupported scalar width");
  Ok (or_bytes 0 0 (mr_bytes memory)).

(* src/dwarf/inline_member.hpp:32-42 attach_storage *)
Definition attach_storage (memory : SnapshotMemoryRead) (result : LocalScalarValue) : LocalScalarValue :=
  match mr_provenance memory with
  | FromCore =>
    set_storage SnapshotCoreMemory (lv_storage_module_path result) (lv_storage_file_path result)
      (lv_storage_file_offset result) result
  | FromRuntimeArtifact =>
    set_storage SnapshotRuntimeArtifact (mr_module_path memory) (mr_module_file_path memory)
      (mr_artifact_file_offset memory) result
  end.

(* src/dwarf/inline_member.hpp:44-59 copy_storage *)
Definition copy_storage (owner : LocalScalarValue) (byte_offset : Z) (result : LocalScalarValue)
    : res LocalScalarValue :=
  let copied offset := set_storage (lv_storage owner) (lv_storage_module_path owner) (lv_storage_file_path owner)
                         offset result in
  if bool_decide (lv_storage owner = SnapshotRuntimeArtifact) then
    _ ← throw_if (u64_max - lv_storage_file_offset owner <? byte_offset)
          (Exn OverflowError "selected-inline aggregate artifact provenance offset overflows");
    Ok (copied (lv_storage_file_offset owner + byte_offset))
  else Ok (copied (lv_storage_file_offset owner)).

(* src/dwarf/inline_member.hpp:61-74 checked_address *)
Definition checked_address (base offset : Z) (context : string) : res Z :=
  _ ← throw_if (base =? 0) (Exn RuntimeError ("cannot traverse a null " +:+ context));
  _ ← throw_if (u64_max <? base) (Exn RuntimeError (context +:+ " exceeds host address width"));
  _ ← throw_if (u64_max - base <? offset) (Exn OverflowError (context +:+ " member address overflows"));
  Ok (base + offset).

(** ** Checks of the metadata *)

(* src/dwarf/inline_member.hpp:107-116 validate_terminal_member *)
Definition bad_pointee_member (pointee : LocalPointerPointeeType) (nested : LocalPointerPointeeMemberType) : bool :=
  bool_decide (pm_kind nested <> KInteger) || (pm_byte_size nested =? 0) || (sizeof_word <? pm_byte_size nested) ||
  (pt_byte_size pointee <? pm_offset nested) || (pt_byte_size pointee - pm_offset nested <? pm_byte_size nested).

(* src/dwarf/inline_member.hpp:95-121 validate_terminal_member *)
Definition validate_pointee (pointee : LocalPointerPointeeType) (context : string) : res unit :=
  match pt_kind pointee with
  | KInteger =>
    throw_if ((sizeof_word <? pt_byte_size pointee) || negb (bool_decide (pt_members pointee = nil)))
      (Exn LogicError (context +:+ " integer pointee metadata is malformed"))
  | KStructure =>
    _ ← throw_if ((sizeof_word <? pt_byte_size pointee) || bool_decide (pt_members pointee = nil) ||
                  (32 <? size_of (pt_members pointee)))
          (Exn LogicError (context +:+ " structure pointee exceeds the bounded shallow model"));
    throw_if (existsb (bad_pointee_member pointee) (pt_members pointee))
      (Exn LogicError (context +:+ " structure pointee member metadata is malformed"))
  | _ => logic_error (context +:+ " pointer pointee kind is unsupported")
  end.

(* src/dwarf/inline_member.hpp:76-134 validate_terminal_member *)
Definition validate_terminal_member (member : LocalStructMember) (context : string) : res unit :=
  _ ← throw_if ((sm_byte_size member =? 0) || (sizeof_word <? sm_byte_size member) ||
                match sm_members member with [] => false | _ => true end)
        (Exn LogicError (context +:+ " has an unsupported terminal width or nested metadata"));
  match sm_kind member with
  | KInteger =>
    throw_if (bool_decide (is_Some (sm_pointee_type member)) || bool_decide (is_Some (sm_enum_type member)))
      (Exn LogicError (context +:+ " integer retained incompatible type metadata"))
  | KPointer =>
    let bad := Exn LogicError (context +:+ " pointer has invalid bounded pointee metadata") in
    match sm_pointee_type member with
    | None => Throw bad
    | Some pointee =>
      _ ← throw_if (negb (sm_byte_size member =? sizeof_word) || sm_is_signed member ||
                    bool_decide (is_Some (sm_enum_type member)) || bool_decide (is_Some (sm_bit_slice member)) ||
                    (pt_byte_size pointee =? 0)) bad;
      validate_pointee pointee context
    end
  | KEnumeration =>
    let bad := Exn LogicError (context +:+ " enum has invalid bounded enum metadata") in
    match sm_enum_type member with
    | None => Throw bad
    | Some enum_type =>
      throw_if (bool_decide (is_Some (sm_pointee_type member)) || bool_decide (is_Some (sm_bit_slice member)) ||
                negb (et_byte_size enum_type =? sm_byte_size member) ||
                negb (Bool.eqb (et_is_signed enum_type) (sm_is_signed member)) ||
                match et_enumerators enum_type with [] => true | _ => false end) bad
    end
  | _ => runtime_error (context +:+ " kind is outside the bounded terminal model")
  end.

(** The children of a nested structure. *)
(* src/dwarf/inline_member.hpp:168-175 aggregate_member *)
Fixpoint validate_children (byte_size : Z) (children : list LocalStructMember) : res unit :=
  match children with
  | [] => Ok tt
  | child :: children =>
    _ ← throw_if ((byte_size <? sm_offset child) || (byte_size - sm_offset child <? sm_byte_size child))
          (Exn LogicError "selected-inline nested child exceeds bounded inner layout");
    _ ← validate_terminal_member child "selected-inline nested child";
    validate_children byte_size children
  end.

Definition member_named (name : string) (members : list LocalStructMember) : option LocalStructMember :=
  List.find (fun candidate => String.eqb (sm_name candidate) name) members.

(* src/dwarf/inline_member.hpp:136-180 aggregate_member *)
Definition aggregate_member (aggregate : LocalScalarValue) (member_name : string) : res LocalStructMember :=
  _ ← throw_if (String.eqb member_name EmptyString)
        (Exn InvalidArgument "selected-inline aggregate member name must not be empty");
  _ ← throw_if (bool_decide (lv_kind aggregate <> KStructure) ||
                match lv_members aggregate with [] => true | _ => false end)
        (Exn RuntimeError ("selected-inline local is not a materialized bounded structure: " +:+ lv_name aggregate));
  match member_named member_name (lv_members aggregate) with
  | None => runtime_error ("bounded selected-inline aggregate has no member named: " +:+ member_name)
  | Some member =>
    _ ← throw_if ((sm_byte_size member =? 0) || (lv_byte_size aggregate <? sm_offset member) ||
                  (lv_byte_size aggregate - sm_offset member <? sm_byte_size member))
          (Exn LogicError "selected-inline aggregate member exceeds bounded owner layout");
    _ ← (if bool_decide (sm_kind member = KStructure) then
           _ ← throw_if (sm_is_signed member || bool_decide (is_Some (sm_pointee_type member)) ||
                         bool_decide (is_Some (sm_bit_slice member)) || bool_decide (is_Some (sm_enum_type member)) ||
                         match sm_members member with [] => true | _ => false end)
                 (Exn LogicError "selected-inline nested structure member has invalid bounded metadata");
           validate_children (sm_byte_size member) (sm_members member)
         else validate_terminal_member member "selected-inline aggregate member");
    Ok member
  end.

(* src/dwarf/inline_member.hpp:182-208 union_member *)
Definition union_member (value : LocalScalarValue) (member_name : string) : res LocalStructMember :=
  _ ← throw_if (String.eqb member_name EmptyString)
        (Exn InvalidArgument "selected-inline union member name must not be empty");
  _ ← throw_if (bool_decide (lv_kind value <> KUnion) || match lv_members value with [] => true | _ => false end)
        (Exn RuntimeError ("selected-inline local is not a materialized bounded union: " +:+ lv_name value));
  match member_named member_name (lv_members value) with
  | None => runtime_error ("bounded selected-inline union has no member named: " +:+ member_name)
  | Some member =>
    _ ← throw_if (bool_decide (sm_kind member <> KInteger) || bool_decide (is_Some (sm_pointee_type member)) ||
                  match sm_members member with [] => false | _ => true end || (sm_byte_size member =? 0) ||
                  (sizeof_word <? sm_byte_size member))
          (Exn RuntimeError
             "selected-inline union member kind is outside the bounded explicit-selection model");
    Ok member
  end.

(** ** Selections in a materialised value *)

(** The type a pointer member points to, with the members of a structure. *)
(* src/dwarf/inline_member.hpp:326-337 inspect_local_aggregate_member *)
Definition selected_pointee (pointee : LocalPointerPointeeType) : LocalValueType :=
  mkValueType (pt_byte_size pointee) (pt_is_signed pointee) (pt_kind pointee)
    (if bool_decide (pt_kind pointee = KStructure) then
       map (fun nested => mkMemberType (pm_name nested) (pm_offset nested) (pm_byte_size nested) (pm_is_signed nested)
                            (pm_kind nested) None None None []) (pt_members pointee)
     else []) None None.

(* src/dwarf/inline_member.hpp:313-344 inspect_local_aggregate_member *)
Definition inspect_local_aggregate_member (aggregate : LocalScalarValue) (member_name : string)
    : res LocalScalarValue :=
  member ← aggregate_member aggregate member_name;
  result ← copy_storage aggregate (sm_offset member)
             (scalar (lv_module_path aggregate) (lv_name aggregate +:+ "." +:+ member_name) (sm_raw_value member)
                (sm_byte_size member) (sm_is_signed member) (sm_kind member));
  match sm_kind member with
  | KPointer =>
    match sm_pointee_type member with
    | None => Undef "value of an empty optional"
    | Some pointee => Ok (set_pointee (Some (selected_pointee pointee)) result)
    end
  | KEnumeration => Ok (set_enum_type (sm_enum_type member) result)
  | KStructure => Ok (set_members (sm_members member) result)
  | _ => Ok result
  end.

(* src/dwarf/inline_member.hpp:346-362 inspect_local_nested_aggregate_member *)
Definition inspect_local_nested_aggregate_member (aggregate : LocalScalarValue)
    (aggregate_member_name terminal_member_name : string) : res LocalScalarValue :=
  inner ← inspect_local_aggregate_member aggregate aggregate_member_name;
  _ ← throw_if (bool_decide (lv_kind inner <> KStructure))
        (Exn RuntimeError ("outer member is not a bounded nested structure: " +:+ lv_name inner));
  terminal ← inspect_local_aggregate_member inner terminal_member_name;
  _ ← throw_if (bool_decide (lv_kind terminal = KStructure))
        (Exn RuntimeError "nested aggregate depth exceeds the bounded one-hop model");
  Ok terminal.

(* src/dwarf/inline_member.hpp:364-369 inspect_inline_local_nested_aggregate_member *)
Definition inspect_inline_local_nested_aggregate_member :
    LocalScalarValue -> string -> string -> res LocalScalarValue := inspect_local_nested_aggregate_member.

(* src/dwarf/inline_member.hpp:371-402 inspect_local_array_element *)
Definition inspect_local_array_element (array : LocalScalarValue) (index : Z) : res LocalScalarValue :=
  let bad := Exn LogicError ("local value is not a materialized bounded fixed array: " +:+ lv_name array) in
  match lv_array_type array with
  | None => Throw bad
  | Some array_type =>
    _ ← throw_if (bool_decide (lv_kind array <> KArray) || (at_element_count array_type =? 0) ||
                  negb (size_of (lv_elements array) =? at_element_count array_type) ||
                  bool_decide (at_element_kind array_type <> KInteger)) bad;
    _ ← throw_if (at_element_count array_type <=? index) (Exn OutOfRange "array index is out of range");
    match lv_elements array !! Z.to_nat index with
    | None => Undef "vector index out of range"
    | Some element =>
      _ ← throw_if (bool_decide (ae_kind element <> KInteger) ||
                    negb (ae_byte_size element =? at_element_byte_size array_type) ||
                    negb (Bool.eqb (ae_is_signed element) (at_element_is_signed array_type)) ||
                    (ae_byte_size element =? 0) || (sizeof_word <? ae_byte_size element))
            (Exn LogicError "bounded fixed-array element metadata is inconsistent");
      _ ← throw_if (u64_max / ae_byte_size element <? index)
            (Exn OverflowError "array element byte offset overflows");
      let byte_offset := index * ae_byte_size element in
      copy_storage array byte_offset
        (scalar (lv_module_path array) (lv_name array +:+ "[" +:+ pretty index +:+ "]") (ae_raw_value element)
           (ae_byte_size element) (ae_is_signed element) (ae_kind element))
    end
  end.

(* src/dwarf/inline_member.hpp:404-413 inspect_local_union_member *)
Definition inspect_local_union_member (value : LocalScalarValue) (member_name : string) : res LocalScalarValue :=
  member ← union_member value member_name;
  copy_storage value (sm_offset member)
    (scalar (lv_module_path value) (lv_name value +:+ "." +:+ member_name) (sm_raw_value member)
       (sm_byte_size member) (sm_is_signed member) (sm_kind member)).

(* src/dwarf/inline_member.hpp:415-418 inspect_inline_local_union_member *)
Definition inspect_inline_local_union_member : LocalScalarValue -> string -> res LocalScalarValue :=
  inspect_local_union_member.
(* src/dwarf/inline_member.hpp:447-450 inspect_inline_local_aggregate_member *)
Definition inspect_inline_local_aggregate_member : LocalScalarValue -> string -> res LocalScalarValue :=
  inspect_local_aggregate_member.

(** ** Pointers followed in the snapshot *)

Section Pointers.
Context `{H : Host} `{F : FileAccess}.

(** The integer a pointer with this pointee type refers to, named [*(name)]. *)
(* src/dwarf/inline_member.hpp:291-310 dereference_inline_local_pointer_member *)
Definition dereference_member (snapshot : CoreSnapshot) (member : LocalScalarValue) (not_integer context : string)
    (module_paths : SnapshotModulePathResolver) : res LocalScalarValue :=
  let bad := Exn RuntimeError not_integer in
  match lv_pointee_type member with
  | None => Throw bad
  | Some pointee =>
    _ ← throw_if (bool_decide (lv_kind member <> KPointer) || bool_decide (vt_kind pointee <> KInteger) ||
                  (vt_byte_size pointee =? 0) || (sizeof_word <? vt_byte_size pointee) ||
                  match vt_members pointee with [] => false | _ => true end) bad;
    address ← checked_address (lv_raw_value member) 0 context;
    memory ← read_snapshot_memory snapshot module_paths address (vt_byte_size pointee);
    raw ← decode_scalar memory (vt_byte_size pointee);
    Ok (attach_storage memory
          (scalar (lv_module_path member) ("*(" +:+ lv_name member +:+ ")") raw (vt_byte_size pointee)
             (vt_is_signed pointee) KInteger))
  end.

(* src/dwarf/inline_member.hpp:420-445 dereference_local_aggregate_member *)
Definition dereference_local_aggregate_member (snapshot : CoreSnapshot) (aggregate : LocalScalarValue)
    (member_name : string) (module_paths : SnapshotModulePathResolver) : res LocalScalarValue :=
  member ← inspect_local_aggregate_member aggregate member_name;
  dereference_member snapshot member
    "selected-inline aggregate pointer member does not have a bounded integer pointee"
    "selected-inline aggregate pointer-valued member" module_paths.

(* src/dwarf/inline_member.hpp:452-458 dereference_inline_local_aggregate_member *)
Definition dereference_inline_local_aggregate_member :
    CoreSnapshot -> LocalScalarValue -> string -> SnapshotModulePathResolver -> res LocalScalarValue :=
  dereference_local_aggregate_member.

(** The checks of the member of the structure a pointer refers to. *)
(* src/dwarf/inline_member.hpp:243-265 inspect_inline_local_pointer_member *)
Definition validate_pointer_member (structure : LocalValueType) (member : LocalStructMemberType) : res unit :=
  _ ← throw_if ((mt_byte_size member =? 0) || (sizeof_word <? mt_byte_size member) ||
                (vt_byte_size structure <? mt_offset member) ||
                (vt_byte_size structure - mt_offset member <? mt_byte_size member) ||
                match mt_members member with [] => false | _ => true end)
        (Exn LogicError "selected-inline structure member exceeds bounded pointee layout");
  match mt_kind member with
  | KInteger =>
    throw_if (bool_decide (is_Some (mt_pointee_type member)))
      (Exn LogicError "selected-inline integer member unexpectedly has pointee metadata")
  | KPointer =>
    throw_if (negb (mt_byte_size member =? sizeof_word) || mt_is_signed member ||
              match mt_pointee_type member with
              | None => true
              | Some pointee => (pt_byte_size pointee =? 0) || (sizeof_word <? pt_byte_size pointee)
              end)
      (Exn LogicError "selected-inline pointer member has invalid bounded pointee metadata")
  | _ => runtime_error "selected-inline structure member kind is outside the bounded traversal model"
  end.

(** The member of the structure the pointer refers to, as a value. *)
(* src/dwarf/inline_member.hpp:222-283 inspect_inline_local_pointer_member *)
Definition pointer_member_value (snapshot : CoreSnapshot) (pointer : LocalScalarValue) (name member_name : string)
    (module_paths : SnapshotModulePathResolver) : res LocalScalarValue :=
  let not_structure := Exn RuntimeError ("selected-inline local is not a pointer to a bounded structure: " +:+ name) in
  match lv_pointee_type pointer with
  | None => Throw not_structure
  | Some structure =>
    _ ← throw_if (bool_decide (lv_kind pointer <> KPointer) || bool_decide (vt_kind structure <> KStructure))
          not_structure;
    _ ← throw_if ((vt_byte_size structure =? 0) || match vt_members structure with [] => true | _ => false end)
          (Exn LogicError "selected-inline structure pointer lost bounded member metadata");
    match List.find (fun candidate => String.eqb (mt_name candidate) member_name) (vt_members structure) with
    | None => runtime_error ("bounded selected-inline structure has no member named: " +:+ member_name)
    | Some member =>
      _ ← validate_pointer_member structure member;
      address ← checked_address (lv_raw_value pointer) (mt_offset member) "selected-inline structure pointer";
      memory ← read_snapshot_memory snapshot module_paths address (mt_byte_size member);
      raw ← decode_scalar memory (mt_byte_size member);
      let result := attach_storage memory
        (scalar (lv_module_path pointer) (lv_name pointer +:+ "->" +:+ member_name) raw (mt_byte_size member)
           (mt_is_signed member) (mt_kind member)) in
      if bool_decide (mt_kind member = KPointer) then
        match mt_pointee_type member with
        | None => Undef "value of an empty optional"
        | Some pointee =>
          Ok (set_pointee (Some (mkValueType (pt_byte_size pointee) (pt_is_signed pointee) KInteger [] None None)) result)
        end
      else Ok result
    end
  end.

Context `{L : LocalInspection}.

(* src/dwarf/inline_member.hpp:212-283 inspect_inline_local_pointer_member *)
Definition inspect_inline_local_pointer_member (snapshot : SnapshotObject) (frame : SnapshotInspectionFrameContext)
    (inline_die_offset : Z) (name member_name : string) (module_paths : SnapshotModulePathResolver)
    : res LocalScalarValue :=
  _ ← throw_if (String.eqb member_name EmptyString)
        (Exn InvalidArgument "selected-inline pointer member name must not be empty");
  pointer ← inspect_inline_local_value snapshot frame inline_die_offset name module_paths;
  pointer_member_value (so_core snapshot) pointer name member_name module_paths.

(* src/dwarf/inline_member.hpp:285-311 dereference_inline_local_pointer_member *)
Definition dereference_inline_local_pointer_member (snapshot : SnapshotObject) (frame : SnapshotInspectionFrameContext)
    (inline_die_offset : Z) (name member_name : string) (module_paths : SnapshotModulePathResolver)
    : res LocalScalarValue :=
  member ← inspect_inline_local_pointer_member snapshot frame inline_die_offset name member_name module_paths;
  dereference_member (so_core snapshot) member
    "selected-inline pointer member does not have a bounded integer pointee"
    "selected-inline pointer-valued member" module_paths.
End Pointers.
