(* ===== verification/InlineMemberProofs.v ===== *)
(** * Selected members stay inside their owner

    A member, nested member or element that is selected is one the owner has, its bytes lie
    inside the owner's, its storage is the owner's at that offset; a member reached
    through a pointer is read from the snapshot at the pointer's value plus its offset. *)

From stdpp Require Import pretty.
From S2P Require Import Prelude Machine ByteReader Paths ElfFormat EhFrame CfaProgram.
From S2P Require Import Core ElfProofs CoreProofs ModulePath Inspection SnapshotMemory SnapshotMemoryProofs LocalValue InlineMember.

(** ** Enumerators *)

Lemma enum_match_spec raw found l :
  enum_match raw found l =
    match found, List.filter (fun e => ee_raw_value e =? raw) l with
    | Some e, [] => Some e
    | None, [e] => Some e
    | _, _ => None
    end.
Proof.
  revert found. induction l as [|e l IH]; intros found; simpl; [by destruct found|].
  destruct (ee_raw_value e =? raw); cbn [negb]; [|apply IH].
  destruct found; [done|]. rewrite IH. by destruct (List.filter _ l).
Qed.

(** An enumeration value has a symbol exactly when one enumerator, and only one, has it. *)
Lemma local_enum_symbol_spec raw enum_type name :
  local_enum_symbol raw enum_type = Some name <->
  exists e, List.filter (fun e => ee_raw_value e =? raw) (et_enumerators enum_type) = [e] /\ ee_name e = name.
Proof.
  unfold local_enum_symbol. rewrite enum_match_spec.
  destruct (List.filter _ _) as [|e [|e' l]]; simpl; split; try (by intros [=]); try (by intros (? & [=] & _)).
  - intros [= <-]. by exists e.
  - by intros (? & [= <-] & <-).
Qed.

(** ** Decoding and storage *)

Lemma decode_scalar_le memory n :
  yields (fun v => v = le_combine (mr_bytes memory) /\ 0 < n <= 8) (decode_scalar memory n).
Proof.
  unfold decode_scalar, sizeof_word. apply yields_guard. intros Hb.
  apply orb_false_iff in Hb as [Hb Hs%negb_false_iff%Z.eqb_eq]. apply orb_false_iff in Hb as [H0%Z.eqb_neq H8%Z.ltb_ge].
  unfold size_of in *. split; [|lia]. rewrite or_bytes_le by (unfold size_of; simpl; lia). rewrite Z.pow_0_r. lia.
Qed.

(** The storage of a part of the owner at an offset. *)
Definition stored_at (owner v : LocalScalarValue) (offset : Z) : Prop :=
  lv_storage v = lv_storage owner /\ lv_storage_module_path v = lv_storage_module_path owner /\
  lv_storage_file_path v = lv_storage_file_path owner /\
  lv_storage_file_offset v =
    lv_storage_file_offset owner + (if decide (lv_storage owner = SnapshotRuntimeArtifact) then offset else 0).

Lemma copy_storage_yields owner offset result :
  yields (fun v => stored_at owner v offset /\ exists s m f o, v = set_storage s m f o result)
    (copy_storage owner offset result).
Proof.
  unfold copy_storage, stored_at. cbv zeta. destruct (decide (lv_storage owner = SnapshotRuntimeArtifact)) as [E|E].
  - rewrite bool_decide_true by done. apply yields_guard. intros _. simpl. split; [done|]. by do 4 eexists.
  - rewrite bool_decide_false by done. simpl. rewrite Z.add_0_r. split; [done|]. by do 4 eexists.
Qed.

(** ** Members of structures *)

Lemma member_named_Some name members m : member_named name members = Some m -> m ∈ members /\ sm_name m = name.
Proof.
  unfold member_named. intros Hf. apply find_some in Hf as [Hin Hn]. split; [by apply list_elem_of_In|by apply String.eqb_eq].
Qed.

Lemma validate_terminal_settles m context : settles (validate_terminal_member m context).
Proof.
  unfold validate_terminal_member, validate_pointee, logic_error, runtime_error. settles_auto.
Qed.

Lemma validate_terminal_pointer m context :
  validate_terminal_member m context = Ok tt -> sm_kind m = KPointer -> is_Some (sm_pointee_type m).
Proof. unfold validate_terminal_member. intros Hv Hk. inv_res. rewrite Hk in *. by destruct (sm_pointee_type m). Qed.

(** The bytes of the member at its offset lie inside [size] bytes. *)
Definition member_inside (size : Z) (m : LocalStructMember) : Prop :=
  sm_offset m <= size /\ sm_byte_size m <= size - sm_offset m.

Lemma validate_children_settles size children : settles (validate_children size children).
Proof.
  induction children as [|m l IH]; [done|]. simpl. apply settles_bind; [apply settles_throw_if|intros _ _].
  apply settles_bind; [apply validate_terminal_settles|by intros _ _].
Qed.

Lemma aggregate_member_yields aggregate name :
  yields (fun m => m ∈ lv_members aggregate /\ sm_name m = name /\ lv_kind aggregate = KStructure /\
            member_inside (lv_byte_size aggregate) m /\ (sm_kind m = KPointer -> is_Some (sm_pointee_type m)))
    (aggregate_member aggregate name).
Proof.
  unfold aggregate_member. apply yields_guard. intros _. apply yields_guard. intros Hk.
  apply orb_false_iff in Hk as [Hk%bool_decide_eq_false _].
  destruct (member_named name (lv_members aggregate)) as [m|] eqn:Em; [|done].
  destruct (member_named_Some _ _ _ Em) as [Hin Hn]. apply yields_guard. intros Hb.
  apply orb_false_iff in Hb as [Hb Hs%Z.ltb_ge]. apply orb_false_iff in Hb as [_ Ho%Z.ltb_ge].
  apply yields_bind with (fun _ => sm_kind m = KPointer -> is_Some (sm_pointee_type m));
    [|intros [] Hp; split; [exact Hin|]; split; [exact Hn|]; split; [by apply dec_stable|];
    split; [by split|exact Hp]].
  destruct (decide (sm_kind m = KStructure)) as [E|E].
  - rewrite bool_decide_true by done. apply yields_guard. intros _.
    eapply yields_weaken; [|apply settles_yields, validate_children_settles]. intros [] _. simpl. by rewrite E.
  - rewrite bool_decide_false by done.
    eapply yields_weaken; [|apply settles_yields, validate_terminal_settles]. intros [] Hv. exact (validate_terminal_pointer _ _ Hv).
Qed.

(** [v] is the member [m] of [aggregate], as a value of its own. *)
Definition value_of_member (aggregate : LocalScalarValue) (m : LocalStructMember) (v : LocalScalarValue) : Prop :=
  lv_name v = (lv_name aggregate +:+ "." +:+ sm_name m) /\ lv_raw_value v = sm_raw_value m /\
  lv_byte_size v = sm_byte_size m /\ lv_is_signed v = sm_is_signed m /\ lv_kind v = sm_kind m /\
  (lv_kind v = KStructure -> lv_members v = sm_members m) /\ stored_at aggregate v (sm_offset m).

Lemma aggregate_member_value aggregate name :
  yields (fun v => exists m, m ∈ lv_members aggregate /\ sm_name m = name /\ lv_kind aggregate = KStructure /\
            member_inside (lv_byte_size aggregate) m /\ value_of_member aggregate m v)
    (inspect_local_aggregate_member aggregate name).
Proof.
  unfold inspect_local_aggregate_member. eapply yields_bind; [apply aggregate_member_yields|].
  intros m (Hin & Hn & Hk & Hb & Hp). eapply yields_bind; [apply copy_storage_yields|].
  intros r [Hst (s & mo & f & o & ->)].
  assert (Hv : forall v, value_of_member aggregate m v -> exists m', m' ∈ lv_members aggregate /\ sm_name m' = name /\
     lv_kind aggregate = KStructure /\ member_inside (lv_byte_size aggregate) m' /\ value_of_member aggregate m' v)
    by (intros v Hv; by exists m).
  subst name. destruct (sm_kind m) eqn:Ek; try (apply Hv; unfold value_of_member; rewrite Ek; by repeat (split; [done|])).
  destruct (Hp eq_refl) as [pointee ->]. apply Hv. unfold value_of_member. rewrite Ek. by repeat (split; [done|]).
Qed.

(** C36: Selecting a member of a member of a structure always ends with the value of that inner member,
    or with an exception: the inner member is one the outer one has, its bytes lie inside
    the structure's, and its storage is the structure's at the sum of the two offsets. *)
Theorem nested_member_inside aggregate outer_name inner_name :
  yields (fun v => exists outer inner,
            outer ∈ lv_members aggregate /\ sm_name outer = outer_name /\ sm_kind outer = KStructure /\
            inner ∈ sm_members outer /\ sm_name inner = inner_name /\ sm_kind inner <> KStructure /\
            lv_name v = (lv_name aggregate +:+ "." +:+ outer_name) +:+ "." +:+ inner_name /\
            lv_raw_value v = sm_raw_value inner /\ lv_byte_size v = sm_byte_size inner /\ lv_kind v = sm_kind inner /\
            sm_offset outer + sm_offset inner + sm_byte_size inner <= lv_byte_size aggregate /\
            stored_at aggregate v (sm_offset outer + sm_offset inner))
    (inspect_local_nested_aggregate_member aggregate outer_name inner_name).
Proof.
  unfold inspect_local_nested_aggregate_member. eapply yields_bind; [apply aggregate_member_value|].
  intros middle (outer & Hin & Hon & _ & [Ho1 Ho2] & Hname & _ & Hsize & _ & Hkind & Hmem & Hs1 & Hs2 & Hs3 & Hs4).
  apply yields_guard. intros Hk%bool_decide_eq_false. apply dec_stable in Hk.
  eapply yields_bind; [apply aggregate_member_value|].
  intros v (inner & Hin' & Hin2 & _ & [Hi1 Hi2] & Hname' & Hraw & Hsz & _ & Hkind' & _ & Ht1 & Ht2 & Ht3 & Ht4).
  apply yields_guard. intros Hk'%bool_decide_eq_false. exists outer, inner.
  rewrite Hmem in Hin' by done. rewrite Hsize in Hi1, Hi2. rewrite Hs1 in Ht1. rewrite Hs1 in Ht4.
  split; [done|]. split; [done|]. split; [congruence|]. do 2 (split; [done|]). split; [congruence|].
  split; [by rewrite Hname', Hname, Hon, Hin2|]. do 3 (split; [done|]). split; [lia|].
  split; [done|]. split; [congruence|]. split; [congruence|]. rewrite Ht4, Hs4. destruct (decide _); lia.
Qed.

(** ** Elements of arrays *)

Lemma array_element_value array index :
  0 <= index ->
  yields (fun v => exists t e, lv_array_type array = Some t /\ index < at_element_count t /\
            lv_elements array !! Z.to_nat index = Some e /\ lv_name v = (lv_name array +:+ "[" +:+ pretty index +:+ "]") /\
            lv_raw_value v = ae_raw_value e /\ lv_byte_size v = at_element_byte_size t /\
            stored_at array v (index * at_element_byte_size t))
    (inspect_local_array_element array index).
Proof.
  intros Hi. unfold inspect_local_array_element. cbv zeta. destruct (lv_array_type array) as [t|]; [|done].
  apply yields_guard. intros Hb. apply orb_false_iff in Hb as [Hb _]. apply orb_false_iff in Hb as [_ Hsz%negb_false_iff%Z.eqb_eq].
  apply yields_guard. intros Hlt%Z.leb_gt.
  destruct (lookup_lt_is_Some_2 (lv_elements array) (Z.to_nat index)) as [e He]; [unfold size_of in Hsz; lia|]. rewrite He.
  apply yields_guard. intros Hm. do 3 (apply orb_false_iff in Hm as [Hm _]).
  apply orb_false_iff in Hm as [_ Hsize%negb_false_iff%Z.eqb_eq]. apply yields_guard. intros _. rewrite Hsize.
  eapply yields_weaken; [|apply copy_storage_yields]. intros v [Hst (s & m & f & o & ->)]. exists t, e.
  by repeat (split; [done|]).
Qed.

(** ** Members behind pointers *)

(** A member that lies inside the structure and is at most a word long. *)
Definition sm_layout (structure : LocalValueType) (m : LocalStructMemberType) : Prop :=
  mt_byte_size m <= 8 /\ mt_offset m + mt_byte_size m <= vt_byte_size structure.

Section Pointers.
Context `{H : Host} `{F : FileAccess}.
Context (file : list byte) (c : CoreSnapshot) (Hf : file_sized file) (Hwf : wf_core file c).
Context (paths : SnapshotModulePathResolver).

(** The value decoded from a read of the snapshot, and the storage it records. *)
Definition decoded_from (address size : Z) (v : LocalScalarValue) : Prop :=
  exists r, from_snapshot c paths address size r /\ 0 < size <= 8 /\ lv_byte_size v = size /\
    lv_raw_value v = le_combine (mr_bytes r) /\
    match mr_provenance r with
    | FromCore => lv_storage v = SnapshotCoreMemory
    | FromRuntimeArtifact => lv_storage v = SnapshotRuntimeArtifact /\ lv_storage_module_path v = mr_module_path r /\
        lv_storage_file_path v = mr_module_file_path r /\ lv_storage_file_offset v = mr_artifact_file_offset r
    end.

Lemma checked_address_yields base offset context :
  0 <= base -> 0 <= offset ->
  yields (fun a => a = base + offset /\ base <> 0 /\ in_u64 a) (checked_address base offset context).
Proof.
  intros Hb Ho. unfold checked_address. apply yields_guard. intros H0%Z.eqb_neq. apply yields_guard. intros H1%Z.ltb_ge.
  apply yields_guard. intros H2%Z.ltb_ge. simpl. unfold in_u64, u64_max in *. lia.
Qed.

(** Reading, decoding and attaching the storage, as the pointer operations do. *)
Lemma read_decode_yields address size (mk : Z -> LocalScalarValue) :
  in_u64 address -> in_u64 size -> (forall raw, lv_raw_value (mk raw) = raw /\ lv_byte_size (mk raw) = size) ->
  yields (decoded_from address size)
    (memory ← read_snapshot_memory c paths address size;
     raw ← decode_scalar memory size;
     Ok (attach_storage memory (mk raw))).
Proof.
  intros Ha Hs Hmk. eapply yields_bind; [by apply (snapshot_memory_yields file c Hf Hwf)|intros r Hr].
  eapply yields_bind; [apply decode_scalar_le|intros raw [-> Hsz]]. destruct (Hmk (le_combine (mr_bytes r))) as [E1 E2].
  exists r. split; [done|]. split; [done|]. unfold attach_storage.
  by destruct (mr_provenance r); repeat (split; [done|]).
Qed.

Lemma decoded_set_pointee address size p v : decoded_from address size v -> decoded_from address size (set_pointee p v).
Proof. intros (r & Hr). by exists r. Qed.

(** The value of a member behind a pointer is what the snapshot holds at the pointer plus the
    member's offset. *)
Lemma pointer_member_decoded pointer name member_name :
  0 <= lv_raw_value pointer ->
  (forall structure, lv_pointee_type pointer = Some structure ->
     Forall (fun m => 0 <= mt_offset m /\ 0 <= mt_byte_size m) (vt_members structure)) ->
  yields (fun v => exists structure member,
            lv_pointee_type pointer = Some structure /\ member ∈ vt_members structure /\ mt_name member = member_name /\
            lv_raw_value pointer <> 0 /\ mt_offset member + mt_byte_size member <= vt_byte_size structure /\
            decoded_from (lv_raw_value pointer + mt_offset member) (mt_byte_size member) v)
    (pointer_member_value c pointer name member_name paths).
Proof.
  intros Hraw Htypes. unfold pointer_member_value. cbv zeta.
  destruct (lv_pointee_type pointer) as [structure|]; [|done]. specialize (Htypes structure eq_refl).
  do 2 (apply yields_guard; intros _).
  destruct (List.find _ (vt_members structure)) as [m|] eqn:Em; [|done].
  apply find_some in Em as [Hin Hn%String.eqb_eq]. apply list_elem_of_In in Hin.
  rewrite Forall_forall in Htypes. destruct (Htypes _ Hin) as [Ho Hs].
  apply yields_bind with (fun _ => sm_layout structure m /\ (mt_kind m = KPointer -> is_Some (mt_pointee_type m))).
  { unfold validate_pointer_member. apply yields_guard. intros Hb. apply orb_false_iff in Hb as [Hb _].
    apply orb_false_iff in Hb as [Hb H2%Z.ltb_ge]. apply orb_false_iff in Hb as [Hb H1%Z.ltb_ge].
    apply orb_false_iff in Hb as [_ H8%Z.ltb_ge]. assert (Hl : sm_layout structure m) by (unfold sm_layout, sizeof_word in *; lia).
    destruct (mt_kind m); try done; [by destruct (bool_decide _)|].
    destruct (mt_pointee_type m) as [pointee|]; [|by rewrite orb_true_r]. destruct (_ || _); simpl; [done|]. by eauto. }
  intros [] [[Hl1 Hl2] Hp]. eapply yields_bind; [by apply checked_address_yields|intros address (-> & Hne & Ha)].
  pose proof (read_decode_yields (lv_raw_value pointer + mt_offset m) (mt_byte_size m)
    (fun raw => scalar (lv_module_path pointer) (lv_name pointer +:+ "->" +:+ member_name) raw (mt_byte_size m)
                  (mt_is_signed m) (mt_kind m)) Ha ltac:(unfold in_u64, u64_max; lia) ltac:(done)) as Hy.
  destruct (read_snapshot_memory _ _ _ _) as [r|e|w|]; try done. simpl in Hy |- *.
  destruct (decode_scalar r _) as [raw|e|w|]; try done. simpl in Hy |- *.
  assert (Hv : forall v, decoded_from (lv_raw_value pointer + mt_offset m) (mt_byte_size m) v ->
     exists structure' member, Some structure = Some structure' /\ member ∈ vt_members structure' /\ mt_name member = member_name /\
       lv_raw_value pointer <> 0 /\ mt_offset member + mt_byte_size member <= vt_byte_size structure' /\
       decoded_from (lv_raw_value pointer + mt_offset member) (mt_byte_size member) v)
    by (intros v Hv; by exists structure, m).
  destruct (decide (mt_kind m = KPointer)) as [E|E].
  - rewrite bool_decide_true by done. destruct (Hp E) as [pointee ->]. by apply Hv, decoded_set_pointee.
  - rewrite bool_decide_false by done. by apply Hv.
Qed.
End Pointers.
