(* ===== verification/Session.v ===== *)
(** * The inspection session of a core ([src/snapshot/session.hpp])

    [CoreInspectionSession]: the selected thread with its trace, the selected frame and
    the selected inline context.  The members are the state of [M CoreInspectionSession];
    the [const] methods are functions of it.  A method that throws leaves the members
    as they are. *)

From S2P Require Import Prelude Machine ByteReader ElfFormat Unwind.
From S2P Require Import ModulePath Elf Core CoreExtras Inspection SnapshotMemory LocalValue InlineMember.

(* src/snapshot/session.hpp:335-343 CoreInspectionSession *)
Record CoreInspectionSession := mkSession {
  cs_snapshot : SnapshotObject;
  cs_module_paths : SnapshotModulePathResolver;
  cs_startup_info : option CoreStartupInfo;
  cs_max_frames : Z;
  cs_selected_thread_tid : Z;
  cs_trace : SnapshotInspectionTrace;
  cs_selected_frame : Z;
  cs_selected_inline_context : option InlineCallsiteContext;
  cs_selected_inline_context_index : option Z
}.

Definition set_inline (context : option InlineCallsiteContext) (index : option Z) (s : CoreInspectionSession)
    : CoreInspectionSession :=
  mkSession (cs_snapshot s) (cs_module_paths s) (cs_startup_info s) (cs_max_frames s) (cs_selected_thread_tid s)
    (cs_trace s) (cs_selected_frame s) context index.
Definition set_frame (index : Z) (s : CoreInspectionSession) : CoreInspectionSession :=
  mkSession (cs_snapshot s) (cs_module_paths s) (cs_startup_info s) (cs_max_frames s) (cs_selected_thread_tid s)
    (cs_trace s) index (cs_selected_inline_context s) (cs_selected_inline_context_index s).
Definition set_thread (tid : Z) (trace : SnapshotInspectionTrace) (s : CoreInspectionSession) : CoreInspectionSession :=
  mkSession (cs_snapshot s) (cs_module_paths s) (cs_startup_info s) (cs_max_frames s) tid trace (cs_selected_frame s)
    (cs_selected_inline_context s) (cs_selected_inline_context_index s).

(** ** Checks *)

(* src/snapshot/session.hpp:314-320 CoreInspectionSession::validate_selected_frame *)
Definition validate_selected_frame (s : CoreInspectionSession) (frame : SnapshotInspectionFrameContext) : res unit :=
  _ ← validate_snapshot_inspection_frame (cs_snapshot s) frame;
  _ ← validate_snapshot_frame_lookup_pc frame;
  throw_if (negb (sf_thread_tid frame =? cs_selected_thread_tid s))
    (Exn LogicError "selected core frame belongs to a different thread").

Fixpoint validate_frames (snapshot : SnapshotObject) (frames : list SnapshotInspectionFrameContext) : res unit :=
  match frames with
  | [] => Ok tt
  | frame :: frames =>
    _ ← validate_snapshot_inspection_frame snapshot frame;
    _ ← validate_snapshot_frame_lookup_pc frame;
    validate_frames snapshot frames
  end.

(* src/snapshot/session.hpp:322-333 CoreInspectionSession::validate_trace *)
Definition validate_trace (s : CoreInspectionSession) : res unit :=
  match trace_frames (cs_trace s) with
  | [] => runtime_error "core inspection produced no snapshot frames"
  | front :: _ =>
    _ ← validate_frames (cs_snapshot s) (trace_frames (cs_trace s));
    throw_if (negb (sf_thread_tid front =? cs_selected_thread_tid s))
      (Exn LogicError "core inspection trace belongs to a different thread")
  end.

(* src/snapshot/session.hpp:63-65 CoreInspectionSession::selected_frame *)
Definition selected_frame (s : CoreInspectionSession) : res SnapshotInspectionFrameContext :=
  match trace_frames (cs_trace s) !! Z.to_nat (cs_selected_frame s) with
  | None => out_of_range "vector::_M_range_check"
  | Some frame => Ok frame
  end.

Section Session.
Context `{H : Host} `{F : FileAccess} `{L : LocalInspection}.

(** [address] is where the snapshot inside the new session lives. *)
(* src/snapshot/session.hpp:28-36 CoreInspectionSession::CoreInspectionSession *)
Definition open_session (address : Z) (core_path : string) (module_paths : SnapshotModulePathResolver) (max_frames : Z)
    : res CoreInspectionSession :=
  core ← open_core core_path;
  let snapshot := mkObject address core in
  startup_info ← read_core_startup_info core;
  thread ← snapshot_crashed_thread snapshot;
  trace ← build_snapshot_inspection_frames snapshot thread max_frames module_paths;
  let s := mkSession snapshot module_paths startup_info max_frames (crashed_tid core) trace 0 None None in
  _ ← validate_trace s;
  Ok s.

(** ** Selection *)

(* src/snapshot/session.hpp:94-98 CoreInspectionSession::inline_contexts *)
Definition inline_contexts (s : CoreInspectionSession) : res (list InlineCallsiteContext) :=
  frame ← selected_frame s;
  _ ← validate_selected_frame s frame;
  discover_inline_call_chain (cs_snapshot s) frame (cs_module_paths s).

(* src/snapshot/session.hpp:109-112 CoreInspectionSession::clear_inline_context *)
Definition clear_inline_context : M CoreInspectionSession unit := modify (set_inline None None).

(* src/snapshot/session.hpp:100-107 CoreInspectionSession::select_inline_context *)
Definition select_inline_context (index : Z) : M CoreInspectionSession unit :=
  s ← mget;
  contexts ← lift (inline_contexts s);
  _ ← mthrow_if (size_of contexts <=? index) OutOfRange "core inline-context index is out of range";
  match contexts !! Z.to_nat index with
  | None => mundef "vector index out of range"
  | Some context => modify (set_inline (Some context) (Some index))
  end.

(* src/snapshot/session.hpp:114-127 CoreInspectionSession::select_thread *)
Definition select_thread (tid : Z) : M CoreInspectionSession unit :=
  s ← mget;
  thread ← lift (snapshot_thread (cs_snapshot s) tid);
  next_trace ← lift (build_snapshot_inspection_frames (cs_snapshot s) thread (cs_max_frames s) (cs_module_paths s));
  match trace_frames next_trace with
  | [] => mthrow RuntimeError "core thread inspection produced no snapshot frames"
  | front :: _ =>
    _ ← lift (validate_snapshot_inspection_frame (cs_snapshot s) front);
    _ ← lift (validate_snapshot_frame_lookup_pc front);
    _ ← modify (set_thread tid next_trace);
    _ ← modify (set_frame 0);
    clear_inline_context
  end.

(* src/snapshot/session.hpp:129-140 CoreInspectionSession::select_frame *)
Definition select_frame (index : Z) : M CoreInspectionSession unit :=
  s ← mget;
  _ ← mthrow_if (size_of (trace_frames (cs_trace s)) <=? index) OutOfRange "core frame index is out of range";
  match trace_frames (cs_trace s) !! Z.to_nat index with
  | None => mundef "vector index out of range"
  | Some frame =>
    _ ← lift (validate_snapshot_inspection_frame (cs_snapshot s) frame);
    _ ← lift (validate_snapshot_frame_lookup_pc frame);
    _ ← mthrow_if (negb (sf_thread_tid frame =? cs_selected_thread_tid s)) LogicError
          "core frame belongs to a different selected thread";
    _ ← modify (set_frame index);
    clear_inline_context
  end.

(** ** Queries *)

(* src/snapshot/session.hpp:67-70 CoreInspectionSession::find_symbol *)
Definition find_symbol (s : CoreInspectionSession) (runtime_pc : Z) : res (option SnapshotResolvedSymbol) :=
  find_snapshot_symbol_by_runtime_address (so_core (cs_snapshot s)) runtime_pc (cs_module_paths s).

(* src/snapshot/session.hpp:72-75 CoreInspectionSession::find_source *)
Definition find_source (s : CoreInspectionSession) (runtime_pc : Z) : res (option SnapshotResolvedSource) :=
  find_snapshot_source_by_runtime_address (so_core (cs_snapshot s)) runtime_pc (cs_module_paths s).

(* src/snapshot/session.hpp:77-81 CoreInspectionSession::find_frame_symbol *)
Definition find_frame_symbol (s : CoreInspectionSession) (frame : SnapshotInspectionFrameContext)
    : res (option SnapshotResolvedSymbol) :=
  _ ← validate_selected_frame s frame;
  pc ← snapshot_frame_lookup_pc frame;
  find_symbol s pc.

(* src/snapshot/session.hpp:83-87 CoreInspectionSession::find_frame_source *)
Definition find_frame_source (s : CoreInspectionSession) (frame : SnapshotInspectionFrameContext)
    : res (option SnapshotResolvedSource) :=
  _ ← validate_selected_frame s frame;
  pc ← snapshot_frame_lookup_pc frame;
  find_source s pc.

(* src/snapshot/session.hpp:89-92 CoreInspectionSession::read_memory *)
Definition session_read_memory (s : CoreInspectionSession) (address length : Z) : res SnapshotMemoryRead :=
  read_snapshot_memory (so_core (cs_snapshot s)) (cs_module_paths s) address length.

(** The frame selected, and the function of its inline context or of the frame itself.
    Every query below starts with these lines. *)
(* src/snapshot/session.hpp:143-154 CoreInspectionSession::locals *)
Definition in_selected_scope {A} (s : CoreInspectionSession)
    (inline_query : SnapshotInspectionFrameContext -> Z -> res A)
    (frame_query : SnapshotInspectionFrameContext -> res A) : res A :=
  frame ← selected_frame s;
  _ ← validate_selected_frame s frame;
  match cs_selected_inline_context s with
  | Some context =>
    _ ← throw_if (negb (String.eqb (ic_module_path context) (sf_module_path frame)))
          (Exn LogicError "selected inline context belongs to a different module");
    inline_query frame (ic_die_offset context)
  | None => frame_query frame
  end.

(* src/snapshot/session.hpp:142-154 CoreInspectionSession::locals *)
Definition locals (s : CoreInspectionSession) : res (list LocalDiscoveryEntry) :=
  in_selected_scope s
    (fun frame die => discover_inline_local_values (cs_snapshot s) frame die (cs_module_paths s))
    (fun frame => discover_local_values (cs_snapshot s) frame (cs_module_paths s)).

(* src/snapshot/session.hpp:156-168 CoreInspectionSession::inspect_value *)
Definition inspect_value (s : CoreInspectionSession) (name : string) : res LocalScalarValue :=
  in_selected_scope s
    (fun frame die => inspect_inline_local_value (cs_snapshot s) frame die name (cs_module_paths s))
    (fun frame => inspect_local_value (cs_snapshot s) frame name (cs_module_paths s)).

(* src/snapshot/session.hpp:170-181 CoreInspectionSession::dereference_value *)
Definition dereference_value (s : CoreInspectionSession) (name : string) : res LocalScalarValue :=
  in_selected_scope s
    (fun frame die => dereference_inline_local_pointer (cs_snapshot s) frame die name (cs_module_paths s))
    (fun frame => dereference_local_pointer (cs_snapshot s) frame name (cs_module_paths s)).

(* src/snapshot/session.hpp:183-197 CoreInspectionSession::inspect_pointer_member *)
Definition inspect_pointer_member (s : CoreInspectionSession) (name member_name : string) : res LocalScalarValue :=
  in_selected_scope s
    (fun frame die =>
       inspect_inline_local_pointer_member (cs_snapshot s) frame die name member_name (cs_module_paths s))
    (fun frame => inspect_local_pointer_member (cs_snapshot s) frame name member_name (cs_module_paths s)).

(* src/snapshot/session.hpp:199-213 CoreInspectionSession::dereference_pointer_member *)
Definition dereference_pointer_member (s : CoreInspectionSession) (name member_name : string) : res LocalScalarValue :=
  in_selected_scope s
    (fun frame die =>
       dereference_inline_local_pointer_member (cs_snapshot s) frame die name member_name (cs_module_paths s))
    (fun frame => dereference_local_pointer_member (cs_snapshot s) frame name member_name (cs_module_paths s)).

(* src/snapshot/session.hpp:215-232 CoreInspectionSession::inspect_aggregate_member *)
Definition inspect_aggregate_member (s : CoreInspectionSession) (name member_name : string) : res LocalScalarValue :=
  aggregate ← inspect_value s name;
  inspect_local_aggregate_member aggregate member_name.

(* src/snapshot/session.hpp:234-253 CoreInspectionSession::inspect_nested_aggregate_member *)
Definition inspect_nested_aggregate_member (s : CoreInspectionSession)
    (name aggregate_member_name terminal_member_name : string) : res LocalScalarValue :=
  aggregate ← inspect_value s name;
  inspect_local_nested_aggregate_member aggregate aggregate_member_name terminal_member_name.

(* src/snapshot/session.hpp:255-272 CoreInspectionSession::inspect_union_member *)
Definition inspect_union_member (s : CoreInspectionSession) (name member_name : string) : res LocalScalarValue :=
  value ← inspect_value s name;
  inspect_local_union_member value member_name.

(* src/snapshot/session.hpp:274-291 CoreInspectionSession::inspect_array_element *)
Definition inspect_array_element (s : CoreInspectionSession) (name : string) (index : Z) : res LocalScalarValue :=
  array ← inspect_value s name;
  inspect_local_array_element array index.

(* src/snapshot/session.hpp:293-311 CoreInspectionSession::dereference_aggregate_member *)
Definition dereference_aggregate_member (s : CoreInspectionSession) (name member_name : string) : res LocalScalarValue :=
  aggregate ← inspect_value s name;
  dereference_local_aggregate_member (so_core (cs_snapshot s)) aggregate member_name (cs_module_paths s).

(** What a user of the session does with it. *)
Inductive session_op :=
  | SelectThread (tid : Z)
  | SelectFrame (index : Z)
  | SelectInlineContext (index : Z)
  | ClearInlineContext.

Definition run_session_op (op : session_op) : M CoreInspectionSession unit :=
  match op with
  | SelectThread tid => select_thread tid
  | SelectFrame index => select_frame index
  | SelectInlineContext index => select_inline_context index
  | ClearInlineContext => clear_inline_context
  end.
End Session.
