(* ===== verification/SessionProofs.v ===== *)
(** * The session's selection stays valid

    Whatever is selected, and whatever fails, the session has a trace of the selected
    thread whose frames all pass its checks, and the selected frame is one of them. *)

From S2P Require Import Prelude Machine ByteReader Paths ElfFormat EhFrame Unwind CfaProgram EhFrameSignalProofs.
From S2P Require Import ModulePath Elf Core CoreExtras ElfProofs CoreProofs Inspection InspectionProofs SnapshotMemory LocalValue.
From S2P Require Import InlineMember Session.

(** The contexts of an inline chain name the module of the frame they are in. *)
Class InlineLaws (L : LocalInspection) : Prop :=
  inline_module : forall o frame paths contexts, discover_inline_call_chain o frame paths = Ok contexts ->
    Forall (fun context => ic_module_path context = sf_module_path frame) contexts.

Section Session.
Context `{H : Host} `{F : FileAccess} `{L : LocalInspection}.
Context (files_sized : forall path bytes, h_file path = FileBytes bytes -> file_sized bytes).

(** The thread the session has selected. *)
Definition selected_thread (s : CoreInspectionSession) (thread : ThreadRef) : Prop :=
  snapshot_thread (cs_snapshot s) (cs_selected_thread_tid s) = Ok thread.

(** The invariant: a trace of the selected thread with valid frames, a selected frame
    among them, and an inline context exactly when it has an index. *)
Definition session_ok (s : CoreInspectionSession) : Prop :=
  (exists file, wf_core file (so_core (cs_snapshot s))) /\ 0 < cs_max_frames s /\
  (exists thread, selected_thread s thread /\
     trace_of (cs_snapshot s) (cs_module_paths s) thread (cs_max_frames s) (cs_trace s) /\
     Forall (frame_valid (cs_snapshot s) thread) (trace_frames (cs_trace s))) /\
  0 <= cs_selected_frame s < size_of (trace_frames (cs_trace s)) /\
  (is_Some (cs_selected_inline_context s) <-> is_Some (cs_selected_inline_context_index s)).

(** ** Traces the builder returns *)

Lemma owned_thread_wf file o thread : wf_core file (so_core o) -> owns o thread -> wf_thread (tr_thread thread).
Proof.
  intros ((_ & _ & _ & (_ & Hall & _) & _) & _) Ho. unfold owns, snapshot_thread in Ho.
  destruct (list_find _ _) as [[i t]|] eqn:E; [|done]. injection Ho as Ho.
  apply list_find_Some in E as (E & _ & _). rewrite Forall_lookup in Hall. apply Hall in E. by rewrite <- Ho.
Qed.

Section Builder.
Context (file : list byte) (o : SnapshotObject) (Hwf : wf_core file (so_core o)).
Context (paths : SnapshotModulePathResolver) (thread : ThreadRef) (Hown : owns o thread) (max_frames : Z).

Lemma built_trace t :
  0 <= max_frames -> build_snapshot_inspection_frames o thread max_frames paths = Ok t ->
  0 < max_frames /\ trace_of o paths thread max_frames t.
Proof.
  intros Hmax Hb. destruct (owned_thread_wf _ _ _ Hwf Hown) as (_ & _ & Hrsp).
  pose proof Hb as Hb'. unfold build_snapshot_inspection_frames in Hb'.
  apply bind_Ok in Hb' as ([] & Hz%throw_if_Ok%Z.eqb_neq & Hb').
  apply bind_Ok in Hb' as (owned & _ & Hb'). apply bind_Ok in Hb' as ([] & _ & Hb').
  cbv zeta in Hb'. apply bind_Ok in Hb' as (first & Hfirst & _). split; [lia|].
  unfold make_snapshot_inspection_frame in Hfirst. cbv zeta in Hfirst.
  apply bind_Ok in Hfirst as (? & _ & Hfirst). apply bind_Ok in Hfirst as (? & _ & Hfirst).
  apply bind_Ok in Hfirst as (path & Hpath & _). unfold in_u64 in Hrsp.
  destruct (build_frames_trace o paths files_sized thread Hown max_frames path) as (t' & Hb' & Ht'); [lia..|exact Hpath|].
  rewrite Hb in Hb'. by injection Hb' as ->.
Qed.

(** The first frame is the thread's, so its checks are about the thread's registers. *)
Lemma front_checked t front rest :
  trace_of o paths thread max_frames t -> trace_frames t = front :: rest ->
  validate_snapshot_inspection_frame o front = Ok tt ->
  rip (thread_registers (tr_thread thread)) <> 0 /\ 0 < rsp (thread_registers (tr_thread thread)).
Proof.
  intros (callers & Hf & _) Ht Hv. destruct (owned_thread_wf _ _ _ Hwf Hown) as (_ & _ & Hrsp). unfold in_u64 in Hrsp.
  rewrite Ht in Hf. inversion Hf as [|? ? ? ? ? Hmake _]; subst. unfold make_snapshot_inspection_frame in Hmake.
  cbv zeta in Hmake. apply bind_Ok in Hmake as (? & _ & Hmake). apply bind_Ok in Hmake as (? & _ & Hmake).
  apply bind_Ok in Hmake as (path & _ & Hmake). injection Hmake as <-.
  unfold validate_snapshot_inspection_frame in Hv. cbv zeta in Hv.
  apply bind_Ok in Hv as (? & _ & Hv). apply bind_Ok in Hv as (? & _ & Hv). apply bind_Ok in Hv as (? & _ & Hv).
  apply bind_Ok in Hv as ([] & Hc%throw_if_Ok & _). cbn [sf_runtime_pc sf_stack_pointer sf_module_path] in Hc.
  apply orb_false_iff in Hc as [Hc _]. apply orb_false_iff in Hc as [Hip%Z.eqb_neq Hsp%Z.eqb_neq].
  split; [exact Hip|]. simpl in Hsp. lia.
Qed.

Lemma checked_trace t front rest :
  0 <= max_frames -> build_snapshot_inspection_frames o thread max_frames paths = Ok t ->
  trace_frames t = front :: rest -> validate_snapshot_inspection_frame o front = Ok tt ->
  0 < max_frames /\ trace_of o paths thread max_frames t /\ Forall (frame_valid o thread) (trace_frames t).
Proof.
  intros Hmax Hb Ht Hv. destruct (built_trace t Hmax Hb) as [Hpos Htr]. split; [done|]. split; [done|].
  destruct (front_checked t front rest Htr Ht Hv) as [Hip Hsp].
  by apply (trace_valid o paths thread Hown max_frames t Htr Hip Hsp).
Qed.
End Builder.

(** ** The constructor and the selections *)

Lemma crashed_thread_selected file o thread :
  wf_core file (so_core o) -> snapshot_crashed_thread o = Ok thread ->
  snapshot_thread o (crashed_tid (so_core o)) = Ok thread /\ owns o thread.
Proof.
  intros Hwf Hc. destruct (crashed_thread_owned file o Hwf) as (thread' & Hc' & Hown). rewrite Hc in Hc'. injection Hc' as <-.
  split; [|done]. destruct Hwf as ((_ & _ & _ & (_ & _ & Ht) & _) & _ & _). unfold snapshot_crashed_thread in Hc.
  unfold owns in Hown. destruct (core_threads (so_core o)) as [|t l] eqn:E; [done|]. injection Hc as <-. simpl in Hown.
  destruct Ht as (_ & _ & Htid & _). by rewrite <- Htid.
Qed.

Lemma validate_frames_front o front rest :
  validate_frames o (front :: rest) = Ok tt -> validate_snapshot_inspection_frame o front = Ok tt.
Proof. simpl. intros ([] & Hv & _)%bind_Ok. exact Hv. Qed.

Lemma open_session_ok address path paths max_frames s :
  0 <= max_frames -> open_session address path paths max_frames = Ok s -> session_ok s.
Proof.
  intros Hmax. unfold open_session. intros (core & Hcore & Hs)%bind_Ok. cbv zeta in Hs.
  apply bind_Ok in Hs as (startup & _ & Hs). apply bind_Ok in Hs as (thread & Hth & Hs).
  apply bind_Ok in Hs as (t & Hb & Hs). apply bind_Ok in Hs as ([] & Hv & [= <-]).
  unfold open_core in Hcore. apply bind_Ok in Hcore as (bytes & _ & Hcore).
  pose proof (yields_Ok _ _ _ (parse_core_yields path bytes) Hcore) as Hwf.
  set (o := mkObject address core) in *.
  destruct (crashed_thread_selected bytes o thread Hwf Hth) as [Hsel Hown].
  unfold validate_trace in Hv. cbn [cs_trace cs_snapshot] in Hv.
  destruct (trace_frames t) as [|front rest] eqn:Et; [done|]. apply bind_Ok in Hv as ([] & Hv & _).
  apply validate_frames_front in Hv.
  destruct (checked_trace bytes o Hwf paths thread Hown max_frames t front rest Hmax Hb Et Hv) as (Hpos & Htr & Hall).
  split; [by exists bytes|]. split; [done|]. split; [by exists thread|]. cbn [cs_selected_frame cs_trace]. rewrite Et.
  split; [unfold size_of; simpl; lia|]. split; intros [? [=]].
Qed.

Lemma set_inline_ok context index s : (is_Some context <-> is_Some index) -> session_ok s -> session_ok (set_inline context index s).
Proof. intros Hc (H1 & H2 & H3 & H4 & _). by split. Qed.

Lemma set_frame_ok index s :
  0 <= index < size_of (trace_frames (cs_trace s)) -> session_ok s -> session_ok (set_frame index s).
Proof. intros Hi (H1 & H2 & H3 & _ & H5). by split. Qed.

(** Changes a session with the invariant may undergo. *)
Lemma session_ok_frame s i : session_ok s ->
  0 <= i < size_of (trace_frames (cs_trace s)) ->
  exists frame, trace_frames (cs_trace s) !! Z.to_nat i = Some frame /\
    validate_snapshot_inspection_frame (cs_snapshot s) frame = Ok tt /\
    validate_snapshot_frame_lookup_pc frame = Ok tt /\ sf_thread_tid frame = cs_selected_thread_tid s.
Proof.
  intros (_ & _ & (thread & Hsel & _ & Hall) & _) Hi.
  destruct (lookup_lt_is_Some_2 (trace_frames (cs_trace s)) (Z.to_nat i)) as [frame Hf]; [unfold size_of in Hi; lia|].
  exists frame. split; [done|]. rewrite Forall_lookup in Hall. destruct (Hall _ _ Hf) as (H1 & H2 & H3).
  split; [done|]. split; [done|]. apply snapshot_thread_Ok in Hsel as (_ & Ht & _). congruence.
Qed.

(** Selecting a frame succeeds exactly for an index in the trace, selects that frame and no
    inline context; otherwise nothing changes. *)
Lemma select_frame_run s i : session_ok s -> 0 <= i ->
  select_frame i s =
    if i <? size_of (trace_frames (cs_trace s)) then (Ok tt, set_inline None None (set_frame i s))
    else (Throw (Exn OutOfRange "core frame index is out of range"), s).
Proof.
  intros Hok Hi. unfold select_frame. mrun. destruct (Z.leb_spec (size_of (trace_frames (cs_trace s))) i) as [Hle|Hlt];
    (destruct (Z.ltb_spec i (size_of (trace_frames (cs_trace s)))); [|done || lia]); [lia|].
  destruct (session_ok_frame s i Hok ltac:(lia)) as (frame & Hf & Hv & Hl & Ht). rewrite Hf, Hv, Hl. mrun.
  rewrite Ht, Z.eqb_refl. done.
Qed.

Lemma select_frame_preserves i : 0 <= i -> preserves session_ok (select_frame i).
Proof.
  intros Hi s Hok. rewrite select_frame_run by done. destruct (Z.ltb_spec i (size_of (trace_frames (cs_trace s)))); [|done].
  apply set_inline_ok; [done|]. by apply set_frame_ok.
Qed.

Lemma select_thread_preserves tid : preserves session_ok (select_thread tid).
Proof.
  intros s Hok. pose proof Hok as ((file & Hwf) & Hpos & _). unfold select_thread. mrun.
  destruct (snapshot_thread (cs_snapshot s) tid) as [thread|e|w|] eqn:Eth; try exact Hok. mrun.
  destruct (build_snapshot_inspection_frames _ _ _ _) as [t|e|w|] eqn:Eb; try exact Hok. mrun.
  destruct (trace_frames t) as [|front rest] eqn:Et; [exact Hok|].
  destruct (validate_snapshot_inspection_frame (cs_snapshot s) front) as [[]|e|w|] eqn:Ev; try exact Hok. mrun.
  destruct (validate_snapshot_frame_lookup_pc front) as [[]|e|w|]; try exact Hok. mrun. cbn [clear_inline_context snd modify].
  pose proof Eth as (_ & _ & Hown)%snapshot_thread_Ok.
  destruct (checked_trace file (cs_snapshot s) Hwf (cs_module_paths s) thread Hown (cs_max_frames s) t front rest) as (_ & Htr & Hall);
    [lia|done..|].
  apply set_inline_ok; [done|]. split; [by exists file|]. split; [done|]. split; [by exists thread|].
  cbn [set_frame set_thread cs_selected_frame cs_trace cs_selected_inline_context cs_selected_inline_context_index].
  rewrite Et. split; [unfold size_of; simpl; lia|]. apply Hok.
Qed.

Lemma select_inline_context_preserves index : preserves session_ok (select_inline_context index).
Proof.
  intros s Hok. unfold select_inline_context. mrun. destruct (inline_contexts s) as [contexts|e|w|]; try exact Hok. mrun.
  destruct (_ <=? index); [exact Hok|]. destruct (contexts !! _) as [context|]; [|exact Hok].
  apply set_inline_ok; [split; by eexists|done].
Qed.

(** ** Sessions *)

(** The indices are values of [std::size_t]. *)
Definition op_ok (op : session_op) : Prop :=
  match op with SelectFrame index | SelectInlineContext index => 0 <= index | _ => True end.

Lemma run_session_op_preserves op : op_ok op -> preserves session_ok (run_session_op op).
Proof.
  destruct op; simpl; intros Hop.
  - apply select_thread_preserves.
  - by apply select_frame_preserves.
  - apply select_inline_context_preserves.
  - intros s Hok. by apply set_inline_ok.
Qed.

(** The sessions a program can have: opened, then changed by selections that succeed or throw. *)
Inductive session_reachable : CoreInspectionSession -> Prop :=
  | session_opened address path paths max_frames s :
      0 <= max_frames -> open_session address path paths max_frames = Ok s -> session_reachable s
  | session_selected op s :
      session_reachable s -> op_ok op -> session_reachable (snd (run_session_op op s)).

Lemma reachable_session_ok s : session_reachable s -> session_ok s.
Proof.
  induction 1 as [address path paths max_frames s Hmax Ho|op s _ IH Hop];
    [by eapply open_session_ok|by apply run_session_op_preserves].
Qed.

(** ** The selected inline context *)

(** The selected inline context is the one with the selected index in the chain of the
    selected frame. *)
Definition inline_ok (s : CoreInspectionSession) : Prop :=
  forall context, cs_selected_inline_context s = Some context ->
    exists index frame contexts, cs_selected_inline_context_index s = Some index /\ selected_frame s = Ok frame /\
      discover_inline_call_chain (cs_snapshot s) frame (cs_module_paths s) = Ok contexts /\
      contexts !! Z.to_nat index = Some context.

Lemma inline_ok_none s : cs_selected_inline_context s = None -> inline_ok s.
Proof. intros Hn context Hc. congruence. Qed.

Lemma select_inline_context_inline index : preserves inline_ok (select_inline_context index).
Proof.
  intros s Hok. unfold select_inline_context. mrun. destruct (inline_contexts s) as [contexts|e|w|] eqn:E; try exact Hok. mrun.
  destruct (_ <=? index); [exact Hok|]. destruct (contexts !! Z.to_nat index) as [context|] eqn:Hc; [|exact Hok].
  unfold inline_contexts in E. apply bind_Ok in E as (frame & Hf & E). apply bind_Ok in E as ([] & _ & E).
  intros context' [= <-]. by exists index, frame, contexts.
Qed.

Lemma select_thread_inline tid : preserves inline_ok (select_thread tid).
Proof.
  intros s Hok. unfold select_thread. mrun.
  destruct (snapshot_thread (cs_snapshot s) tid) as [thread|e|w|]; try exact Hok. mrun.
  destruct (build_snapshot_inspection_frames _ _ _ _) as [t|e|w|]; try exact Hok. mrun.
  destruct (trace_frames t) as [|front rest]; [exact Hok|].
  destruct (validate_snapshot_inspection_frame (cs_snapshot s) front) as [[]|e|w|]; try exact Hok. mrun.
  destruct (validate_snapshot_frame_lookup_pc front) as [[]|e|w|]; try exact Hok. mrun.
  by apply inline_ok_none.
Qed.

Lemma select_frame_inline index : preserves inline_ok (select_frame index).
Proof.
  intros s Hok. unfold select_frame. mrun. destruct (_ <=? index); [exact Hok|].
  destruct (_ !! _) as [frame|]; [|exact Hok].
  destruct (validate_snapshot_inspection_frame (cs_snapshot s) frame) as [[]|e|w|]; try exact Hok. mrun.
  destruct (validate_snapshot_frame_lookup_pc frame) as [[]|e|w|]; try exact Hok. mrun.
  destruct (negb _); [exact Hok|]. by apply inline_ok_none.
Qed.

Lemma reachable_inline_ok s : session_reachable s -> inline_ok s.
Proof.
  induction 1 as [address path paths max_frames s _ Ho|op s _ IH _].
  - apply inline_ok_none. unfold open_session in Ho. apply bind_Ok in Ho as (? & _ & Ho). cbv zeta in Ho.
    do 3 (apply bind_Ok in Ho as (? & _ & Ho)). by apply bind_Ok in Ho as (? & _ & [= <-]).
  - destruct op; simpl; [by apply select_thread_inline|by apply select_frame_inline|by apply select_inline_context_inline|].
    by apply inline_ok_none.
Qed.

(** The scope a query is about: the inline call that is selected, else the frame. *)
Definition scope_query {A} (s : CoreInspectionSession) (frame : SnapshotInspectionFrameContext)
    (inline_query : Z -> res A) (frame_query : res A) : res A :=
  match cs_selected_inline_context s with
  | Some context => inline_query (ic_die_offset context)
  | None => frame_query
  end.

Context `{IL : !InlineLaws L}.

Lemma in_selected_scope_run {A} s frame inline_query (frame_query : SnapshotInspectionFrameContext -> res A) :
  inline_ok s -> selected_frame s = Ok frame -> validate_selected_frame s frame = Ok tt ->
  in_selected_scope s inline_query frame_query = scope_query s frame (inline_query frame) (frame_query frame).
Proof.
  intros Hi Hf Hv. unfold in_selected_scope, scope_query. rewrite Hf. cbn [mbind res_bind]. rewrite Hv. cbn [mbind res_bind].
  destruct (cs_selected_inline_context s) as [context|] eqn:Hc; [|done].
  destruct (Hi context Hc) as (index & frame' & contexts & _ & Hf' & Hchain & Hin). rewrite Hf in Hf'. injection Hf' as <-.
  pose proof (inline_module _ _ _ _ Hchain) as Hall. rewrite Forall_lookup in Hall. rewrite (Hall _ _ Hin), String.eqb_refl.
  done.
Qed.

(** C24: Whatever selections were made of a session, and whichever of them threw: the trace is one of
    the selected thread, the selected frame exists and passes the session's checks, and a
    selected inline context is the one with the selected index in the inline chain of that
    frame.  No query fails before it reaches the debug information: the symbol and the source
    of the frame are those of its lookup address, the inline contexts are its chain, and the
    locals and the four readings that look a variable up, which the others start from, are what
    the debug information says in the selected inline call of that frame, or in the frame when
    none is selected. *)
Theorem session_selection_valid s :
  session_reachable s ->
  session_ok s /\
  exists frame, selected_frame s = Ok frame /\ validate_selected_frame s frame = Ok tt /\
    let o := cs_snapshot s in
    let paths := cs_module_paths s in
    inline_contexts s = discover_inline_call_chain o frame paths /\
    (forall context, cs_selected_inline_context s = Some context ->
       exists index contexts, cs_selected_inline_context_index s = Some index /\
         discover_inline_call_chain o frame paths = Ok contexts /\ contexts !! Z.to_nat index = Some context) /\
    find_frame_symbol s frame = (pc ← snapshot_frame_lookup_pc frame; find_symbol s pc) /\
    find_frame_source s frame = (pc ← snapshot_frame_lookup_pc frame; find_source s pc) /\
    locals s = scope_query s frame (fun die => discover_inline_local_values o frame die paths)
                 (discover_local_values o frame paths) /\
    forall name member,
      inspect_value s name = scope_query s frame (fun die => inspect_inline_local_value o frame die name paths)
                               (inspect_local_value o frame name paths) /\
      dereference_value s name = scope_query s frame (fun die => dereference_inline_local_pointer o frame die name paths)
                                   (dereference_local_pointer o frame name paths) /\
      inspect_pointer_member s name member =
        scope_query s frame (fun die => inspect_inline_local_pointer_member o frame die name member paths)
          (inspect_local_pointer_member o frame name member paths) /\
      dereference_pointer_member s name member =
        scope_query s frame (fun die => dereference_inline_local_pointer_member o frame die name member paths)
          (dereference_local_pointer_member o frame name member paths).
Proof.
  intros Hr. pose proof (reachable_session_ok s Hr) as Hok. pose proof (reachable_inline_ok s Hr) as Hin. split; [exact Hok|].
  pose proof Hok as (_ & _ & _ & Hi & _).
  destruct (session_ok_frame s (cs_selected_frame s) Hok Hi) as (frame & Hf & Hv & Hl & Ht). exists frame.
  assert (Hs : selected_frame s = Ok frame) by (unfold selected_frame; by rewrite Hf).
  assert (Hval : validate_selected_frame s frame = Ok tt).
  { unfold validate_selected_frame. rewrite Hv, Hl. cbn [mbind res_bind]. by rewrite Ht, Z.eqb_refl. }
  split; [done|]. split; [done|]. cbv zeta. split; [unfold inline_contexts; rewrite Hs; cbn [mbind res_bind]; by rewrite Hval|].
  split. { intros context Hc. destruct (Hin context Hc) as (i & f & cs & H1 & H2 & H3 & H4). rewrite Hs in H2. injection H2 as <-. eauto. }
  split; [unfold find_frame_symbol; by rewrite Hval|]. split; [unfold find_frame_source; by rewrite Hval|].
  unfold locals, inspect_value, dereference_value, inspect_pointer_member, dereference_pointer_member.
  split; [by rewrite (in_selected_scope_run s frame) by done|]. intros name member.
  split; [|split; [|split]]; by rewrite (in_selected_scope_run s frame) by done.
Qed.
End Session.

(** ** A session on the core with a signal frame *)

Definition DemoSessionHost : Host := {|
  h_file path := if String.eqb path "core" then FileBytes demo_signal_core_file else h_file (Host := DemoSignalHost) path;
  h_canonical _ := None; h_regular _ := true; h_page_size := 4096
|}.

Definition callee_in (module_path : string) : InlineCallsiteContext :=
  mkInlineContext 0x40 1 module_path "callee" (LineTable.mkLocation "/src/a.c" 3 1).
Definition demo_inline_context : InlineCallsiteContext := callee_in "/a".

(** Every frame has one inline context and one integer variable. *)
Definition DemoLocals : LocalInspection := {|
  discover_inline_call_chain _ frame _ := Ok [callee_in (sf_module_path frame)];
  discover_local_values _ _ _ := Ok [mkDiscovery "x" DVariable];
  discover_inline_local_values _ _ _ _ := Ok [mkDiscovery "y" DFormalParameter];
  inspect_local_value _ _ name _ := Ok (scalar "/a" name 7 4 true KInteger);
  inspect_inline_local_value _ _ _ name _ := Ok (scalar "/a" name 9 4 true KInteger);
  dereference_local_pointer _ _ _ _ := runtime_error "not a pointer";
  dereference_inline_local_pointer _ _ _ _ _ := runtime_error "not a pointer";
  inspect_local_pointer_member _ _ _ _ _ := runtime_error "not a pointer";
  dereference_local_pointer_member _ _ _ _ _ := runtime_error "not a pointer"
|}.

#[export] Instance demo_locals_laws : InlineLaws DemoLocals.
Proof. intros o frame paths contexts [= <-]. by repeat constructor. Qed.

Definition demo_opened : res CoreInspectionSession :=
  open_session (H := DemoSessionHost) 1 "core" no_module_paths 8.
Definition empty_session : CoreInspectionSession :=
  mkSession (mkObject 0 (empty_core EmptyString [])) no_module_paths None 0 0 (mkTrace [] FrameLimit) 0 None None.
Definition demo_session : CoreInspectionSession := Eval vm_compute in
  match demo_opened with Ok s => s | _ => empty_session end.

Lemma demo_session_opens : open_session (H := DemoSessionHost) 1 "core" no_module_paths 8 = Ok demo_session.
Proof. vm_cast_no_check (@eq_refl (res CoreInspectionSession) (Ok demo_session)). Qed.

(** Frame 2 and its inline context are selected; a frame that is not there is refused. *)
Definition three_selections `{Host} `{LocalInspection} (s : CoreInspectionSession) : CoreInspectionSession :=
  snd (run_session_op (SelectFrame 9) (snd (run_session_op (SelectInlineContext 0) (snd (run_session_op (SelectFrame 2) s))))).

Lemma three_selections_reachable `{Host} `{LocalInspection} s :
  session_reachable s -> session_reachable (three_selections s).
Proof.
  intros Hs. apply session_selected; [|simpl; lia]. apply session_selected; [|simpl; lia].
  apply session_selected; [done|simpl; lia].
Qed.

Notation demo_selected := (three_selections (H := DemoSessionHost) (H0 := DemoLocals) demo_session).

Example demo_selection :
  cs_selected_frame demo_selected = 2 /\ cs_selected_inline_context demo_selected = Some demo_inline_context /\
  inspect_value (L := DemoLocals) demo_selected "v" = Ok (scalar "/a" "v" 9 4 true KInteger) /\
  fst (run_session_op (H := DemoSessionHost) (L := DemoLocals) (SelectFrame 9) demo_selected) =
    out_of_range "core frame index is out of range".
Proof. vm_compute. repeat split. Qed.

Lemma demo_session_files_sized path bytes : h_file (Host := DemoSessionHost) path = FileBytes bytes -> file_sized bytes.
Proof.
  unfold h_file, DemoSessionHost. destruct (String.eqb path "core"); [intros [= <-]; vm_compute; congruence|].
  apply demo_files_sized.
Qed.

Lemma demo_selected_reachable : session_reachable (H := DemoSessionHost) (L := DemoLocals) demo_selected.
Proof.
  apply (three_selections_reachable (H := DemoSessionHost) (H0 := DemoLocals)).
  assert (Hmax : 0 <= 8) by lia. exact (session_opened 1 "core" no_module_paths 8 demo_session Hmax demo_session_opens).
Qed.

(** No file can be read piece by piece. *)
Definition SessionFiles : FileAccess := {| f_stream _ := None; f_size _ := None; f_read_at _ _ _ := None |}.

Lemma session_selection_valid_witness :
  exists frame, selected_frame demo_selected = Ok frame /\ validate_selected_frame demo_selected frame = Ok tt /\
    inspect_value (L := DemoLocals) demo_selected "v" =
      inspect_inline_local_value (LocalInspection := DemoLocals) (cs_snapshot demo_selected) frame 0x40 "v" (cs_module_paths demo_selected).
Proof.
  destruct (session_selection_valid (H := DemoSessionHost) (F := SessionFiles) (L := DemoLocals) demo_session_files_sized demo_selected
    demo_selected_reachable) as (_ & frame & Hf & Hv & _ & _ & _ & _ & _ & Hq).
  exists frame. split; [exact Hf|]. split; [exact Hv|]. exact (proj1 (Hq "v" "")).
Defined.
