(* ===== verification/LoaderProofs.v ===== *)
(** * The invariant of deferred breakpoints

    What every call keeps of the object, whatever the debugger, the kernel and the files do:
    the table of requests, and the two internal breakpoints with the rendezvous address. *)

From S2P Require Import Prelude Machine Ptrace Process DebuggerState Debugger DebuggerWait ByteReader ElfFormat ModuleMap Loader.
From S2P Require Elf.

Definition valid_target (t : DeferredBreakpointTarget) : Prop :=
  tg_name t <> EmptyString /\ (tg_kind t = TargetSymbol <-> tg_line t = 0).

(** The requests are keyed by their identifiers, one per target; a request with a breakpoint
    knows the address of it. *)
Record wf_requests (next : Z) (m : gmap Z DeferredBreakpoint) : Prop := {
  wfr_id : forall k r, m !! k = Some r -> df_request_id r = k /\ 1 <= k < next;
  wfr_distinct : forall k k' r r', m !! k = Some r -> m !! k' = Some r' -> df_target r = df_target r' -> k = k';
  wfr_valid : forall k r, m !! k = Some r -> valid_target (df_target r);
  wfr_resolved : forall k r, m !! k = Some r -> is_Some (df_breakpoint_id r) -> is_Some (df_address r)
}.

(** An internal breakpoint has an address, one on the loader a rendezvous, and there is at
    most one of them. *)
Record wf_monitor (o : DeferredBreakpoints) : Prop := {
  wfm_address : forall i, is_Some (internal_id i o) -> is_Some (internal_address i o);
  wfm_rendezvous : is_Some (loader_breakpoint_id_ o) -> is_Some (r_debug_address_ o);
  wfm_one : loader_breakpoint_id_ o = None \/ bootstrap_breakpoint_id_ o = None
}.

Record wf_deferred (next : Z) (o : DeferredBreakpoints) : Prop := {
  wfd_next : 1 <= next_request_id_ o <= next;
  wfd_requests : wf_requests (next_request_id_ o) (requests_ o);
  wfd_monitor : wf_monitor o
}.

(** The part of the object the monitoring does not touch, and the part the requests do not. *)
Definition same_requests (o o' : DeferredBreakpoints) : Prop :=
  requests_ o' = requests_ o /\ next_request_id_ o' = next_request_id_ o.
Definition same_monitor (o o' : DeferredBreakpoints) : Prop :=
  next_request_id_ o' = next_request_id_ o /\ r_debug_address_ o' = r_debug_address_ o /\
  forall i, internal_id i o' = internal_id i o /\ internal_address i o' = internal_address i o.

(** What is asked for. *)
Definition targets (o : DeferredBreakpoints) : gmap Z DeferredBreakpointTarget := df_target <$> requests_ o.

Lemma wf_deferred_monitor n o o' : wf_deferred n o -> same_requests o o' -> wf_monitor o' -> wf_deferred n o'.
Proof. intros [H1 H2 H3] [Hr Hn] Hm. split; [by rewrite Hn|by rewrite Hr, Hn|done]. Qed.

Lemma same_requests_targets o o' : same_requests o o' -> targets o' = targets o.
Proof. intros [Hr _]. unfold targets. by rewrite Hr. Qed.

Lemma same_monitor_wf o o' : wf_monitor o -> same_monitor o o' -> wf_monitor o'.
Proof.
  intros [H1 H2 H3] (_ & Hr & Hi). destruct (Hi LoaderBreak) as [Hl _], (Hi Bootstrap) as [Hb _]. simpl in Hl, Hb.
  split; [intros i; destruct (Hi i) as [-> ->]; apply H1|by rewrite Hl, Hr|by rewrite Hl, Hb].
Qed.

Lemma same_monitor_trans a b c : same_monitor a b -> same_monitor b c -> same_monitor a c.
Proof.
  intros (H1 & H2 & H3) (H4 & H5 & H6). split; [congruence|]. split; [congruence|].
  intros i. destruct (H3 i), (H6 i). split; congruence.
Qed.

Lemma same_target_spec l r : same_target l r = true <-> l = r.
Proof.
  unfold same_target. rewrite !andb_true_iff, bool_decide_eq_true, String.eqb_eq, Z.eqb_eq.
  destruct l, r; simpl. split; [by intros [[-> ->] ->]|by intros [= -> -> ->]].
Qed.

(** ** Requests *)

Lemma wf_requests_mono n n' m : n <= n' -> wf_requests n m -> wf_requests n' m.
Proof. intros Hn [H1 H2 H3 H4]. split; try done. intros k r Hk. destruct (H1 k r Hk). lia. Qed.

Lemma wf_requests_empty n : wf_requests n ∅.
Proof. by split; intros *; rewrite lookup_empty. Qed.

Lemma wf_requests_delete n m k : wf_requests n m -> wf_requests n (delete k m).
Proof.
  intros [H1 H2 H3 H4]. split; intros *; rewrite !lookup_delete_Some.
  - intros [_ Hk]. by apply H1.
  - intros [_ Hk] [_ Hk']. by apply H2.
  - intros [_ Hk]. by apply (H3 k0).
  - intros [_ Hk]. by apply (H4 k0).
Qed.

(** A change of the breakpoint of a request, as long as it keeps the address. *)
Lemma wf_requests_alter n m k (f : DeferredBreakpoint -> DeferredBreakpoint) :
  (forall r, df_request_id (f r) = df_request_id r /\ df_target (f r) = df_target r) ->
  (forall r, m !! k = Some r -> is_Some (df_breakpoint_id (f r)) -> is_Some (df_address (f r))) ->
  wf_requests n m -> wf_requests n (alter f k m).
Proof.
  intros Hf Hb [H1 H2 H3 H4].
  assert (Ha : forall j r, alter f k m !! j = Some r -> exists r0, m !! j = Some r0 /\
    df_request_id r = df_request_id r0 /\ df_target r = df_target r0 /\ (r = r0 \/ (j = k /\ r = f r0))).
  { intros j r. destruct (decide (j = k)) as [->|Hj].
    - rewrite lookup_alter_Some. intros [(_ & r0 & Hk & ->)|[? _]]; [|done]. exists r0. destruct (Hf r0). eauto 6.
    - rewrite lookup_alter_ne by done. intros Hk. exists r. eauto 6. }
  split.
  - intros j r (r0 & Hj & -> & _)%Ha. by apply H1.
  - intros j j' r r' (r0 & Hj & _ & -> & _)%Ha (r1 & Hj' & _ & -> & _)%Ha. by apply H2.
  - intros j r (r0 & Hj & _ & -> & _)%Ha. by apply (H3 j).
  - intros j r (r0 & Hj & _ & _ & [->|[-> ->]])%Ha; [by apply (H4 j)|by apply Hb].
Qed.

Lemma wf_requests_emplace n m r :
  wf_requests n m -> 1 <= n -> df_request_id r = n -> valid_target (df_target r) ->
  (is_Some (df_breakpoint_id r) -> is_Some (df_address r)) ->
  (forall k r0, m !! k = Some r0 -> df_target r0 <> df_target r) ->
  wf_requests (n + 1) (emplace n r m).
Proof.
  intros [H1 H2 H3 H4] Hn Hid Hv Hb Hnew. unfold emplace.
  destruct (m !! n) as [r0|] eqn:Hm; [destruct (H1 n r0 Hm); lia|]. split.
  - intros k r0 [[<- <-]|[_ Hk]]%lookup_insert_Some; [lia|]. destruct (H1 k r0 Hk). lia.
  - intros k k' r0 r1 [[<- <-]|[_ Hk]]%lookup_insert_Some [[<- <-]|[_ Hk']]%lookup_insert_Some Ht; try done.
    + by destruct (Hnew k' r1 Hk').
    + by destruct (Hnew k r0 Hk).
    + by apply (H2 k k' r0 r1).
  - intros k r0 [[<- <-]|[_ Hk]]%lookup_insert_Some; [done|by apply (H3 k)].
  - intros k r0 [[<- <-]|[_ Hk]]%lookup_insert_Some; [done|by apply (H4 k)].
Qed.

Lemma targets_alter (m : gmap Z DeferredBreakpoint) k f :
  (forall r, df_target (f r) = df_target r) -> df_target <$> alter f k m = df_target <$> m.
Proof.
  intros Hf. apply map_eq. intros j. rewrite !lookup_fmap. destruct (decide (j = k)) as [->|Hj].
  - rewrite lookup_alter_eq. destruct (m !! k); simpl; [by rewrite Hf|done].
  - by rewrite lookup_alter_ne.
Qed.

(** ** Setting the monitor *)

Lemma internal_id_set i j id a o : internal_id i (set_internal j id a o) = if decide (i = j) then id else internal_id i o.
Proof. by destruct i, j. Qed.
Lemma internal_address_set i j id a o :
  internal_address i (set_internal j id a o) = if decide (i = j) then a else internal_address i o.
Proof. by destruct i, j. Qed.
Lemma same_requests_set j id a o : same_requests o (set_internal j id a o).
Proof. by destruct j. Qed.

Lemma wf_monitor_clear j o : wf_monitor o -> wf_monitor (set_internal j None None o).
Proof.
  intros [H1 H2 H3]. split; [|destruct j; simpl; try done; by intros []|destruct j; simpl; tauto].
  intros i. rewrite internal_id_set, internal_address_set. destruct (decide _); [by intros []|apply H1].
Qed.

(** The address of an internal breakpoint is entered: the object is well formed before and after
    its identifier is. *)
Lemma wf_monitor_address j a o : wf_monitor o -> wf_monitor (set_internal j (internal_id j o) (Some a) o).
Proof.
  intros [H1 H2 H3]. split; [|by destruct j|by destruct j].
  intros i. rewrite internal_id_set, internal_address_set. destruct (decide _) as [->|]; [by eexists|apply H1].
Qed.

Definition other (i : internal) : internal := match i with Bootstrap => LoaderBreak | LoaderBreak => Bootstrap end.

Lemma wf_monitor_install j id a o :
  wf_monitor o -> internal_id (other j) o = None -> (j = LoaderBreak -> is_Some (r_debug_address_ o)) ->
  wf_monitor (set_internal j (Some id) (Some a) o).
Proof.
  intros [H1 H2 H3] Ho Hj. split.
  - intros i. rewrite internal_id_set, internal_address_set. destruct (decide _); [by eexists|apply H1].
  - destruct j; simpl; [done|]. intros _. by apply Hj.
  - destruct j; simpl in *; auto.
Qed.

Lemma set_internal_twice j id id' a a' o :
  set_internal j id' a' (set_internal j id a o) = set_internal j id' a' o.
Proof. by destruct j. Qed.

(** ** Removing a breakpoint ends in a result or an exception *)

Section Settles.
Context `{K : Kernel}.

Definition msettles {S A} (m : M S A) : Prop := forall s, settles (fst (m s)).

Lemma msettles_bind {S A B} (m : M S A) (f : A -> M S B) :
  msettles m -> (forall a, msettles (f a)) -> msettles (m ≫= f).
Proof. intros Hm Hf s. unfold mbind, M_bind. specialize (Hm s). destruct (m s) as [[] s']; try done. apply Hf. Qed.

Lemma msettles_sys {A} op (k : world -> (Z + A) * world) : msettles (Ptrace.sys op k).
Proof. intros w. unfold Ptrace.sys. by destruct (k w) as [[] w']. Qed.

Lemma msettles_throw_if {S} b c msg : msettles (mthrow_if b c msg : M S unit).
Proof. by destruct b. Qed.

Lemma msettles_zoom {S T A} (get : S -> T) put (m : M T A) : msettles m -> msettles (zoom get put m).
Proof. intros Hm s. unfold zoom. specialize (Hm (get s)). by destruct (m (get s)). Qed.

Lemma msettles_remove_breakpoint id : msettles (remove_breakpoint id).
Proof.
  apply msettles_bind; [done|intros d]. destruct (breakpoint_ids_ d !! id) as [address|]; [|done].
  apply msettles_bind; [|intros _].
  2:{ apply msettles_bind; [|done]. apply msettles_bind; [done|intros d']. apply msettles_bind; [|done].
      by destruct (match pending_breakpoint_step_ d' with Some _ => _ | None => _ end). }
  destruct (breakpoints_by_address_ d !! address) as [bp|]; [|done].
  unfold mwhen. destruct (_ && _); [|done]. apply msettles_bind.
  - apply msettles_bind; [done|intros d'].
    do 2 (apply msettles_bind; [apply msettles_throw_if|intros _]). done.
  - intros tid. apply msettles_zoom, msettles_bind; [apply msettles_sys|intros w; apply msettles_sys].
Qed.
End Settles.

(** ** The operations *)

Section Operations.
Context `{H : Host} `{FI : FileIdentity} `{K : Kernel} `{PM : !ProcMaps K}.
Variable fuel : nat.

Notation opost := (post ls_object).

Lemma opost_get {B} o (f : DeferredBreakpoints -> M lst B) Q : opost o (f o) Q -> opost o (get_object ≫= f) Q.
Proof. intros Hf. apply post_bind. by intros s <-. Qed.
Lemma opost_upd {B} o g (f : unit -> M lst B) Q : opost (g o) (f tt) Q -> opost o (upd_object g ≫= f) Q.
Proof. intros Hf. apply post_bind. by intros s <-. Qed.
Lemma opost_upd_last o g (Q : res unit -> DeferredBreakpoints -> Prop) : Q (Ok tt) (g o) -> opost o (upd_object g) Q.
Proof. by intros Hq s <-. Qed.

(** The debugger does not know the object. *)
Lemma opost_debugger {A} o (m : M dst A) (Q : res A -> DeferredBreakpoints -> Prop) :
  (forall r, Q r o) -> opost o (on_debugger m) Q.
Proof. intros Hq. apply post_same; [|done]. intros s. unfold on_debugger, zoom. by destruct (m (ls_dst s)). Qed.

Lemma opost_debugger_bind {A B} o (m : M dst A) (f : A -> M lst B) (Q : res B -> DeferredBreakpoints -> Prop) :
  (forall r : res B, is_ok r = false -> Q r o) -> (forall a, opost o (f a) Q) -> opost o (on_debugger m ≫= f) Q.
Proof. intros Hq Hf. apply post_bind, opost_debugger. intros []; simpl; auto. Qed.

Lemma opost_settles {A} o (m : M dst A) (Q : res A -> DeferredBreakpoints -> Prop) :
  msettles m -> (forall r, settles r -> Q r o) -> opost o (on_debugger m) Q.
Proof.
  intros Hm Hq s <-. specialize (Hm (ls_dst s)). unfold on_debugger, zoom.
  destruct (m (ls_dst s)) as [r d]. by apply Hq.
Qed.

Lemma install_internal_post i a o :
  opost o (install_internal i a) (fun r o' =>
    match r with
    | Ok _ => exists id, o' = set_internal i (Some id) (Some a) o
    | _ => o' = set_internal i (internal_id i o) (Some a) o
    end).
Proof.
  unfold install_internal. apply opost_upd, opost_debugger_bind; [by intros []|].
  intros id. apply opost_upd_last. exists id. rewrite set_internal_twice. f_equal. by destruct i.
Qed.

(** A breakpoint at the loader's function; when there is no rendezvous yet, nothing. *)
Lemma try_install_post o : wf_monitor o -> bootstrap_breakpoint_id_ o = None ->
  opost o try_install_loader_breakpoint (fun r o' => same_requests o o' /\ wf_monitor o' /\ (r = Ok false -> o' = o)).
Proof.
  intros Hw Hb. unfold try_install_loader_breakpoint.
  apply opost_get, opost_debugger_bind; [by intros|]. intros [address|]; [|by apply post_mret].
  assert (Hr : wf_monitor (set_r_debug_address (Some address) o)).
  { destruct Hw as [H1 H2 H3]. split; simpl; [intros []; [apply (H1 Bootstrap)|apply (H1 LoaderBreak)]|by eexists|done]. }
  apply opost_upd, opost_get, opost_debugger_bind; [by intros []|]. intros b.
  eapply post_step; [apply install_internal_post|].
  intros [[]|e|w|] o'; cbn [on_ok]; [intros [id ->]; apply post_mret|intros ->..]; (split; [done|]); (split; [|done]);
    try by apply (wf_monitor_address LoaderBreak).
  apply (wf_monitor_install LoaderBreak); [done|by simpl|by eexists].
Qed.

Lemma install_bootstrap_post o : wf_monitor o -> loader_breakpoint_id_ o = None ->
  opost o install_bootstrap_breakpoint (fun _ o' => same_requests o o' /\ wf_monitor o').
Proof.
  intros Hw Hl. unfold install_bootstrap_breakpoint. apply opost_get, opost_debugger_bind; [by intros|].
  intros entry. eapply post_weaken; [apply install_internal_post|].
  intros [[]|e|w|] o'; [intros [id ->]|intros ->..]; (split; [done|]);
    try by apply (wf_monitor_address Bootstrap).
  by apply (wf_monitor_install Bootstrap).
Qed.

Lemma ensure_post o : wf_monitor o -> opost o ensure_monitoring (fun _ o' => same_requests o o' /\ wf_monitor o').
Proof.
  intros Hw. unfold ensure_monitoring. apply opost_get.
  destruct (bool_decide (requests_ o = ∅)); [by apply post_mskip|].
  destruct (loader_breakpoint_id_ o) eqn:Hl; [by apply post_mskip|].
  destruct (bootstrap_breakpoint_id_ o) eqn:Hb; [by apply post_mskip|]. cbn [orb bool_decide].
  eapply post_step; [by apply try_install_post|].
  intros [[]|e|w|] o' (H1 & H2 & H3); cbn [on_ok]; try done; [by apply post_mskip|].
  rewrite H3 by done. by apply install_bootstrap_post.
Qed.

(** An internal breakpoint is forgotten whatever the debugger answers. *)
Lemma remove_internal_post i o :
  opost o (remove_internal_breakpoint i) (fun r o' => r = Ok tt /\ o' = set_internal i None None o).
Proof.
  unfold remove_internal_breakpoint. apply opost_get. destruct (internal_id i o) as [id|]; [|by apply opost_upd_last].
  apply post_bind, post_catch. eapply opost_settles.
  - apply msettles_bind; [done|]. intros st. unfold mwhen. case_bool_decide; [|done].
    apply msettles_bind; [apply msettles_remove_breakpoint|done].
  - intros [] Hr; try done; [by apply opost_upd_last|apply post_mskip; by apply opost_upd_last].
Qed.

Definition no_internal (o : DeferredBreakpoints) : DeferredBreakpoints :=
  set_internal Bootstrap None None (set_internal LoaderBreak None None o).

Lemma suspend_post o : opost o suspend_monitoring (fun r o' => r = Ok tt /\ o' = no_internal o).
Proof.
  eapply post_step; [apply remove_internal_post|]. intros r o' [-> ->]. apply remove_internal_post.
Qed.

Lemma wf_monitor_none o : wf_monitor o -> wf_monitor (no_internal o).
Proof. intros. by do 2 apply wf_monitor_clear. Qed.

(** What a method of the debugger returns. *)
Definition gives {S A} (P : A -> Prop) (m : M S A) : Prop := forall s, match fst (m s) with Ok a => P a | _ => True end.

Lemma gives_bind {S A B} P (m : M S A) (f : A -> M S B) : (forall a, gives P (f a)) -> gives P (m ≫= f).
Proof. intros Hf s. unfold mbind, M_bind. destruct (m s) as [[] s']; try done. apply Hf. Qed.

Lemma opost_gives_bind {A B} (P : A -> Prop) o (m : M dst A) (f : A -> M lst B)
    (Q : res B -> DeferredBreakpoints -> Prop) :
  gives P m -> (forall r : res B, is_ok r = false -> Q r o) -> (forall a, P a -> opost o (f a) Q) ->
  opost o (on_debugger m ≫= f) Q.
Proof.
  intros Hm Hq Hf. apply post_bind. intros s <-. specialize (Hm (ls_dst s)). unfold on_debugger, zoom.
  destruct (m (ls_dst s)) as [[] d]; simpl; auto.
Qed.

Lemma new_request_gives o id t :
  gives (fun r => df_request_id r = id /\ df_target r = t /\ (is_Some (df_breakpoint_id r) -> is_Some (df_address r)))
    (new_request o id t).
Proof.
  apply gives_bind. intros [address|]; [|by intros s; simpl]. apply gives_bind. intros bid s. simpl. by eauto.
Qed.

Lemma withdraw_post id o :
  opost o (withdraw_request id) (fun _ o' => o' = o \/ o' = set_requests (delete id (requests_ o)) o).
Proof.
  unfold withdraw_request. apply opost_get. apply post_step with (fun _ o' => o' = o).
  - destruct (_ ≫= _) as [bid|]; [|by apply post_mskip]. apply opost_debugger_bind; [by intros|]. intros b.
    by apply post_mskip.
  - intros [[]|e|w|] o' ->; cbn [on_ok]; [apply opost_upd_last|..]; auto.
Qed.

Lemma wf_deferred_withdraw n o id : wf_deferred n o -> wf_deferred n (set_requests (delete id (requests_ o)) o).
Proof.
  intros [H1 H2 [H3 H4 H5]]. split; [done|by apply wf_requests_delete|split; [|done..]].
  intros []; [apply (H3 Bootstrap)|apply (H3 LoaderBreak)].
Qed.

Lemma wf_deferred_mono n n' o : n <= n' -> wf_deferred n o -> wf_deferred n' o.
Proof. intros Hn [H1 H2 H3]. split; [lia|done..]. Qed.

Lemma wf_deferred_enter n o r :
  wf_deferred n o -> df_request_id r = next_request_id_ o -> valid_target (df_target r) ->
  (is_Some (df_breakpoint_id r) -> is_Some (df_address r)) ->
  (forall k r0, requests_ o !! k = Some r0 -> df_target r0 <> df_target r) ->
  let o1 := set_next_request_id (next_request_id_ o + 1) o in
  wf_deferred (n + 1) (set_requests (emplace (next_request_id_ o) r (requests_ o1)) o1).
Proof.
  intros [H1 H2 [H3 H4 H5]] Hid Hv Hb Hnew o1. split; simpl; [lia|by apply wf_requests_emplace; try lia|].
  split; [|done..]. intros []; [apply (H3 Bootstrap)|apply (H3 LoaderBreak)].
Qed.

Lemma wf_deferred_next n o : wf_deferred n o -> wf_deferred (n + 1) (set_next_request_id (next_request_id_ o + 1) o).
Proof.
  intros [H1 H2 [H3 H4 H5]]. split; simpl; [lia|by apply (wf_requests_mono (next_request_id_ o)); [lia|]|].
  split; [|done..]. intros []; [apply (H3 Bootstrap)|apply (H3 LoaderBreak)].
Qed.

(** What adding a request does to the requests: a new one, or none that was there before is lost. *)
Definition added (n : Z) (target : DeferredBreakpointTarget) (o : DeferredBreakpoints) (r : res Z)
    (o' : DeferredBreakpoints) : Prop :=
  wf_deferred (n + 1) o' /\ targets o ⊆ targets o' /\
  forall id, r = Ok id -> targets o !! id = None /\ targets o' !! id = Some target.

Lemma added_not n target o r o' :
  is_ok r = false -> wf_deferred (n + 1) o' -> targets o ⊆ targets o' -> added n target o r o'.
Proof. intros Hr Hw Ht. split; [done|]. split; [done|]. intros id E. by rewrite E in Hr. Qed.

Lemma fresh_id n o : wf_deferred n o -> requests_ o !! next_request_id_ o = None.
Proof.
  intros [_ [H1 _ _ _] _]. destruct (requests_ o !! next_request_id_ o) as [r|] eqn:E; [|done].
  destruct (H1 _ _ E). lia.
Qed.

Lemma targets_delete id o : targets (set_requests (delete id (requests_ o)) o) = delete id (targets o).
Proof. unfold targets. simpl. apply fmap_delete. Qed.

Lemma add_target_post n target o : wf_deferred n o -> n < u64_max -> valid_target target ->
  opost o (add_target target) (added n target o).
Proof.
  intros Hw Hn Hv. assert (Hw1 : wf_deferred (n + 1) o) by (by apply (wf_deferred_mono n); [lia|]).
  unfold add_target. apply opost_debugger_bind; [by intros r Hr; apply added_not|]. intros st.
  apply post_guard; [by intros; apply added_not|intros _].
  apply opost_get, post_guard; [by intros; apply added_not|]. intros Hnew.
  rewrite u64_small by (destruct Hw; unfold in_u64; lia).
  apply opost_upd. pose proof (wf_deferred_next n o Hw) as Hw2. cbv zeta.
  eapply opost_gives_bind; [apply new_request_gives|by intros r Hr; apply added_not|]. intros r (Hid & Ht & Hb).
  apply opost_upd. rewrite <- Ht in Hv.
  pose proof (wf_deferred_enter n o r Hw Hid Hv Hb) as He. cbv zeta in He.
  pose proof (fresh_id n o Hw) as Hfresh.
  lapply He; [clear He; intros He|].
  - assert (Hte : forall o', same_requests (set_requests (emplace (next_request_id_ o) r (requests_ o))
        (set_next_request_id (next_request_id_ o + 1) o)) o' -> targets o' = <[next_request_id_ o := target]> (targets o)).
    { intros o' ->%same_requests_targets. unfold targets. simpl. unfold emplace. rewrite Hfresh.
      by rewrite fmap_insert, Ht. }
    assert (Hf : targets o !! next_request_id_ o = None) by (unfold targets; by rewrite lookup_fmap, Hfresh).
    eapply post_step with (fun r' o' => wf_deferred (n + 1) o' /\ targets o ⊆ targets o' /\
      (is_ok r' = true -> targets o' = <[next_request_id_ o := target]> (targets o))).
    + apply post_catch. eapply post_weaken; [by apply ensure_post; destruct He|].
      intros r' o' [H1 H2]. pose proof (wf_deferred_monitor _ _ _ He H1 H2) as H3.
      assert (Hsub : targets o ⊆ targets o') by (rewrite (Hte o' H1); by apply insert_subseteq).
      destruct r' as [|e| |]; [by split; [|split; [|intros _; apply Hte]]| |by split; [|split]..].
      eapply post_step; [apply withdraw_post|].
      assert (Hd : forall o2, o2 = o' \/ o2 = set_requests (delete (next_request_id_ o) (requests_ o')) o' ->
        wf_deferred (n + 1) o2 /\ targets o ⊆ targets o2).
      { intros o2 [->| ->]; [done|]. split; [by apply wf_deferred_withdraw|].
        rewrite targets_delete, (Hte o' H1), delete_insert_id by done. done. }
      intros [] o2 Ho2; cbn [on_ok]; [apply post_lift|..]; by destruct (Hd _ Ho2).
    + intros [] o' (H1 & H2 & H3); cbn [on_ok]; [|by apply added_not..]. apply post_mret.
      split; [done|]. split; [done|]. intros id [= <-]. rewrite H3 by done. by rewrite lookup_insert_eq.
  - intros k r0 Hk Htr. apply not_true_iff_false in Hnew. apply Hnew. rewrite existsb_exists.
    exists (k, r0). split; [by apply list_elem_of_In, elem_of_map_in_order|]. apply same_target_spec. congruence.
Qed.

(** What removing a request does to the requests. *)
Definition removed (n id : Z) (o : DeferredBreakpoints) (r : res bool) (o' : DeferredBreakpoints) : Prop :=
  wf_deferred n o' /\ (r = Ok true -> targets o' = delete id (targets o)) /\ (r <> Ok true -> targets o' = targets o) /\
  (r = Ok false -> targets o !! id = None).

Lemma stop_if_idle_post n o : wf_deferred n o ->
  opost o stop_monitoring_if_idle (fun r o' => r = Ok tt /\ wf_deferred n o' /\ targets o' = targets o).
Proof.
  intros Hd. unfold stop_monitoring_if_idle. apply opost_get. destruct (negb _); [by apply post_mskip|].
  eapply post_step; [apply suspend_post|]. intros r' o' [-> ->]. apply opost_upd_last. split; [done|]. split; [|done].
  destruct Hd as [H1 H2 H3]. split; [done|done|]. split; [by intros []|done|by left].
Qed.

Lemma remove_post n id o : wf_deferred n o -> opost o (remove id) (removed n id o).
Proof.
  intros Hw. unfold remove. apply opost_get.
  assert (Hsame : forall r, is_ok r = false -> removed n id o r o) by (intros [] Hr; by split).
  destruct (requests_ o !! id) as [r|] eqn:Hid.
  2:{ apply post_mret. split; [done|]. split; [done|]. split; [done|]. unfold targets. by rewrite lookup_fmap, Hid. }
  apply post_step with (fun _ o' => o' = o).
  { destruct (df_breakpoint_id r) as [bid|]; [|by apply post_mskip]. apply opost_debugger_bind; [done|].
    intros b. unfold mthrow_if. by destruct (negb b); [apply post_mthrow|apply post_mskip]. }
  intros [[]|e|w|] o' ->; cbn [on_ok]; [|by apply Hsame..].
  apply opost_upd. eapply post_step; [by apply stop_if_idle_post, wf_deferred_withdraw|].
  intros r' o' (-> & H1 & H2). apply post_mret. split; [done|]. split; [|done]. by rewrite H2, targets_delete.
Qed.

(** ** Reconciling *)

(** What a visit of the requests keeps. *)
Definition kept (o : DeferredBreakpoints) (o' : DeferredBreakpoints) : Prop :=
  same_monitor o o' /\ wf_requests (next_request_id_ o) (requests_ o') /\ targets o' = targets o.

Lemma kept_alter o o' id f :
  (forall r, df_request_id (f r) = df_request_id r /\ df_target (f r) = df_target r) ->
  (forall r, requests_ o' !! id = Some r -> is_Some (df_breakpoint_id (f r)) -> is_Some (df_address (f r))) ->
  kept o o' -> kept o (set_requests (alter f id (requests_ o')) o').
Proof.
  intros Hf Hb ((H1 & H2 & H3) & H4 & H5). split; [|split; [by apply wf_requests_alter|]].
  2:{ rewrite <- H5. apply targets_alter. intros r. apply Hf. }
  split; [done|]. split; [done|]. intros []; [apply (H3 Bootstrap)|apply (H3 LoaderBreak)].
Qed.

Lemma keep_or_discard_post o o' id r resolved :
  kept o o' -> opost o' (keep_or_discard id r resolved) (fun _ => kept o).
Proof.
  intros Hk. unfold keep_or_discard. destruct (df_breakpoint_id r) as [bid|]; [|by apply post_mret].
  destruct (df_address r) as [a|]; [|by apply post_mthrow]. case_bool_decide; [by apply post_mret|].
  apply opost_debugger_bind; [done|]. intros b. apply post_guard; [done|intros _].
  apply opost_upd, post_mret. apply kept_alter; [done| |done]. by intros r' _ [].
Qed.

Lemma reconcile_request_post o o' id : kept o o' -> opost o' (reconcile_request id) (fun _ => kept o).
Proof.
  intros Hk. unfold reconcile_request. apply opost_get. destruct (requests_ o' !! id) as [r|]; [|by apply post_mskip].
  apply opost_debugger_bind; [done|]. intros resolved.
  eapply post_step; [by apply keep_or_discard_post|]. intros [[]|e|w|] o1 Hk1; cbn [on_ok]; [by apply post_mskip| |done..].
  destruct resolved as [a|]; [|by apply post_mskip].
  assert (Hk2 : kept o (set_requests (alter (set_df_address (Some a)) id (requests_ o1)) o1))
    by (apply kept_alter; [done| |done]; by eexists).
  apply opost_upd, opost_debugger_bind; [done|]. intros bid. apply opost_upd_last, kept_alter; [done| |done].
  intros r'. cbn [requests_ set_requests]. intros [(_ & r0 & _ & ->)|[]]%lookup_alter_Some _; [by eexists|done].
Qed.

Lemma reconcile_post o : wf_requests (next_request_id_ o) (requests_ o) -> opost o reconcile_requests (fun _ => kept o).
Proof.
  intros Hw. unfold reconcile_requests. apply opost_get, post_mfor; [|by split; [|split]].
  intros id o' Hk. by apply reconcile_request_post.
Qed.

(** The object after its requests were tried again. *)
Definition updated (n : Z) (o o' : DeferredBreakpoints) : Prop := wf_deferred n o' /\ targets o' = targets o.

Lemma reconcile_if_post n o : wf_deferred n o -> opost o reconcile_if_consistent (fun _ => updated n o).
Proof.
  intros Hw. unfold reconcile_if_consistent. apply opost_get, opost_debugger_bind; [done|].
  intros []; [|by apply post_mskip]. destruct Hw as [H1 H2 H3]. cbn [mwhen].
  eapply post_weaken; [by apply reconcile_post|]. intros r o' (Hm & Hr & Ht). pose proof Hm as (Hn & _).
  split; [|done]. split; [by rewrite Hn|by rewrite Hn|by apply (same_monitor_wf o)].
Qed.

Lemma handle_post n stop o : wf_deferred n o -> opost o (handle_internal_stop stop) (fun _ => updated n o).
Proof.
  intros Hw. unfold handle_internal_stop. apply opost_get. destruct (_ && _).
  - eapply post_step; [apply remove_internal_post|]. intros r o' [-> ->]. cbn [on_ok].
    assert (Hw1 : wf_deferred n (set_internal Bootstrap None None o)).
    { destruct Hw as [H1 H2 H3]. split; [done|done|by apply wf_monitor_clear]. }
    eapply post_step; [by apply try_install_post; [destruct Hw1|]|]. intros r o' (H1 & H2 & _).
    pose proof (wf_deferred_monitor _ _ _ Hw1 H1 H2) as Hw2. pose proof (same_requests_targets _ _ H1) as Ht.
    destruct r; cbn [on_ok]; try by split. apply post_guard; [by split|intros _].
    eapply post_weaken; [by apply reconcile_if_post|]. intros r o2 [H3 H4]. split; [done|by rewrite H4].
  - destruct (_ && _); [by apply reconcile_if_post|by apply post_mthrow].
Qed.

(** A stop that is returned is not one of the monitor's, and the monitor is taken down. *)
Definition returned (n : Z) (o0 : DeferredBreakpoints) (r : res StopInfo) (o' : DeferredBreakpoints) : Prop :=
  updated n o0 o' /\
  forall stop, r = Ok stop -> exists o, is_internal_stop o stop = false /\ o' = no_internal o.

Lemma continue_loop_post n k policy o0 o : updated n o0 o -> opost o (continue_loop fuel k policy) (returned n o0).
Proof.
  revert policy o. induction k as [|k IH]; intros policy o Hw; [by apply post_out_of_fuel|]. cbn [continue_loop].
  apply opost_debugger_bind; [by intros []|]. intros stop. apply opost_get. destruct Hw as [Hw Ht].
  destruct (is_internal_stop o stop) eqn:Hs; cbn [negb].
  - eapply post_step; [by apply handle_post|]. intros r o' [Hw' Ht']. rewrite Ht in Ht'.
    destruct r; cbn [on_ok]; [by apply IH|by split..].
  - eapply post_step; [apply suspend_post|]. intros r o' [-> ->]. apply post_mret. split.
    + split; [|done]. destruct Hw as [H1 H2 H3]. split; [done|done|by apply wf_monitor_none].
    + intros stop' [= <-]. by exists o.
Qed.

Lemma continue_post n policy o : wf_deferred n o -> opost o (continue_execution fuel policy) (returned n o).
Proof.
  intros Hw. unfold continue_execution. eapply post_step; [by apply ensure_post; destruct Hw|].
  intros r o' [H1 H2]. pose proof (wf_deferred_monitor _ _ _ Hw H1 H2) as Hw'.
  assert (Hu : updated n o o') by (split; [done|by apply same_requests_targets]).
  destruct r; cbn [on_ok]; [by apply continue_loop_post|by split..].
Qed.
End Operations.

(** ** Reachable objects *)

(** One call of the public interface. *)
Inductive loader_op :=
  | LoaderAddSymbol (symbol : string)
  | LoaderAddSource (file : string) (line : Z)
  | LoaderRemove (request_id : Z)
  | LoaderContinue (policy : SignalPolicy).

Section Controls.
Context `{F : FileAccess} `{H : Host} `{FI : FileIdentity} `{K : Kernel} `{PM : !ProcMaps K}.

Definition run_loader_op (fuel : nat) (op : loader_op) : M lst unit :=
  match op with
  | LoaderAddSymbol symbol => _ ← add_symbol symbol; mskip
  | LoaderAddSource file line => _ ← add_source file line; mskip
  | LoaderRemove request_id => _ ← remove request_id; mskip
  | LoaderContinue policy => _ ← continue_execution fuel policy; mskip
  end.

(** The objects that [n] calls lead to, whatever each returns or throws; between them the debugger
    is used freely. *)
Inductive controls : nat -> DeferredBreakpoints -> Prop :=
  | controls_new executable o : new_deferred_breakpoints executable = Ok o -> controls 0 o
  | controls_op n o fuel op d : controls n o -> controls (S n) (ls_object (snd (run_loader_op fuel op (mkLst o d)))).

Lemma post_ignore {A} o (m : M lst A) (I : DeferredBreakpoints -> Prop) :
  post ls_object o m (fun _ => I) -> post ls_object o (_ ← m; mskip) (fun _ => I).
Proof. intros Hm. eapply post_step; [exact Hm|]. intros [] o' Ho'; cbn [on_ok]; [by apply post_mskip|done..]. Qed.

Lemma run_loader_op_post n fuel op o : wf_deferred n o -> n < u64_max ->
  post ls_object o (run_loader_op fuel op) (fun _ => wf_deferred (n + 1)).
Proof.
  intros Hw Hn. assert (Hw1 : wf_deferred (n + 1) o) by (by apply (wf_deferred_mono n); [lia|]).
  destruct op as [symbol|file line|id|policy]; apply post_ignore.
  - unfold add_symbol. apply post_guard; [done|]. intros Hs%String.eqb_neq.
    eapply post_weaken; [by apply (add_target_post n)|]. by intros r o' [Hw' _].
  - unfold add_source. apply post_guard; [done|]. intros Hs%String.eqb_neq. apply post_guard; [done|].
    intros Hl%Z.eqb_neq. eapply post_weaken; [by apply (add_target_post n)|]. by intros r o' [Hw' _].
  - eapply post_weaken; [by apply (remove_post n)|]. intros r o' [Hw' _]. by apply (wf_deferred_mono n); [lia|].
  - eapply post_weaken; [by apply continue_post|]. by intros r o' [[Hw' _] _].
Qed.

Lemma wf_new_deferred n executable o : new_deferred_breakpoints executable = Ok o -> 1 <= n -> wf_deferred n o.
Proof.
  unfold new_deferred_breakpoints. intros (metadata & _ & [= <-])%bind_Ok Hn.
  split; simpl; [lia|apply wf_requests_empty|]. split; [by intros [] []|by intros []|by left].
Qed.

(** C12: every reachable controller of deferred breakpoints is well formed: the requests are keyed
    by their identifiers, all below the next one, no two ask for the same target, every target is a
    named symbol or a line of a named file, a request with a breakpoint knows its address; at most one
    internal breakpoint is installed, its address is known, and one on the loader's function comes
    with the rendezvous address.  It holds whatever the debugger, the kernel and the files did in the
    calls, exceptions included. *)
Theorem controls_wf n o : controls n o -> 1 + Z.of_nat n <= u64_max -> wf_deferred (1 + Z.of_nat n) o.
Proof.
  induction 1 as [executable o Hnew|n o fuel op d _ IH]; intros Hn.
  - by apply (wf_new_deferred _ executable).
  - replace (1 + Z.of_nat (S n)) with (1 + Z.of_nat n + 1) by lia.
    apply (run_loader_op_post (1 + Z.of_nat n) fuel op o); [apply IH; lia|lia|done].
Qed.
End Controls.

(** A breakpoint that cannot be installed leaves its address behind: the controller then takes every
    stop at that address, though the breakpoint there is not its own. *)
Lemma failed_install_claims_address `{K : Kernel} i address s e d stop :
  add_breakpoint address (ls_dst s) = (Throw e, d) ->
  si_reason stop = BreakpointStop -> si_breakpoint_address stop = Some address ->
  exists o, install_internal i address s = (Throw e, mkLst o d) /\
    internal_id i o = internal_id i (ls_object s) /\ is_internal_stop o stop = true.
Proof.
  intros Ha Hr Hs. exists (set_internal i (internal_id i (ls_object s)) (Some address) (ls_object s)).
  split; [|split; [by destruct i|]].
  - unfold install_internal, upd_object. mrun. apply run_Throw. unfold on_debugger, zoom. simpl. by rewrite Ha.
  - unfold is_internal_stop. rewrite Hr, Hs. rewrite !bool_decide_eq_false_2 by (by intros ?). simpl.
    destruct i; simpl; rewrite (bool_decide_eq_true_2 (Some address = Some address)) by done; [done|by rewrite orb_true_r].
Qed.
