(* ===== verification/LineTableProofs.v ===== *)
(** * Properties of the line table

    Parsing is total up to the overflow of the line register, the table it builds is
    well formed, and the lookups by address are exact. *)

From S2P Require Import Prelude Machine ByteReader ElfFormat LineTable.

(** ** Lookups on a sorted table *)

#[export] Instance range_le_total : Total range_le.
Proof.
  intros a b. unfold range_le, range_less.
  destruct (Z.eqb_spec (range_begin a) (range_begin b)), (Z.eqb_spec (range_begin b) (range_begin a)); simpl;
    rewrite !Z.ltb_ge; lia.
Qed.
#[export] Instance range_le_trans : Transitive range_le.
Proof.
  intros a b c. unfold range_le, range_less.
  destruct (Z.eqb_spec (range_begin b) (range_begin a)), (Z.eqb_spec (range_begin c) (range_begin b)),
    (Z.eqb_spec (range_begin c) (range_begin a)); simpl; rewrite !Z.ltb_ge; lia.
Qed.
Lemma range_le_begin a b : range_le a b -> range_begin a <= range_begin b.
Proof.
  unfold range_le, range_less. destruct (Z.eqb_spec (range_begin b) (range_begin a)); simpl; rewrite Z.ltb_ge; lia.
Qed.

Definition in_range (r : Range) (a : Z) : Prop := range_begin r <= a < range_end r.

(** A range: not empty, with a source line. *)
Definition wf_range (tables : nat) (r : Range) : Prop :=
  0 <= range_begin r < range_end r /\ range_end r <= u64_max /\ 0 < loc_line (range_location r) <= i64_max /\
  (range_file_table r < tables)%nat.

Definition wf_table (t : DwarfLineTable) : Prop :=
  StronglySorted range_le (ranges t) /\ Forall (wf_range (length (file_tables t))) (ranges t).

Lemma last_not_after_spec address found l :
  StronglySorted range_le l ->
  match last_not_after address found l with
  | Some r => (r ∈ l /\ range_begin r <= address /\
               forall r', r' ∈ l -> range_begin r' <= address -> range_begin r' <= range_begin r) \/
              (found = Some r /\ forall r', r' ∈ l -> address < range_begin r')
  | None => found = None /\ forall r', r' ∈ l -> address < range_begin r'
  end.
Proof.
  intros Hs. revert found. induction Hs as [|x l Hs IH Hall]; intros found; simpl.
  - destruct found; [right|]; (split; [done|by intros ? ?%elem_of_nil]).
  - rewrite Forall_forall in Hall. destruct (Z.ltb_spec address (range_begin x)) as [Hlt|Hle].
    + assert (H : forall r', r' ∈ x :: l -> address < range_begin r').
      { intros r' [->|Hr]%elem_of_cons; [done|]. apply Hall, range_le_begin in Hr. lia. }
      destruct found; [right|]; by split.
    + specialize (IH (Some x)). destruct (last_not_after address (Some x) l) as [r|]; [|by destruct IH].
      destruct IH as [(H1 & H2 & H3)|[[= <-] H2]]; left.
      * split; [by right|]. split; [done|]. intros r' [->|Hr]%elem_of_cons Hr'; [|by apply H3].
        apply range_le_begin. by apply Hall.
      * split; [left|]. split; [done|]. intros r' [->|Hr]%elem_of_cons Hr'; [lia|]. apply H2 in Hr. lia.
Qed.

(** on a well-formed table the lookup of an address is sound: the location it returns is
    the one of a range that holds the address; and when no two ranges overlap it is
    complete: it returns the location of every range that holds the address, and
    nothing only when no range does. *)
Theorem find_virtual_address_spec t address :
  wf_table t ->
  (forall loc, find_virtual_address t address = Some loc ->
     exists r, r ∈ ranges t /\ in_range r address /\ range_location r = loc) /\
  ((forall r r' a, r ∈ ranges t -> r' ∈ ranges t -> in_range r a -> in_range r' a -> r = r') ->
   forall r, r ∈ ranges t -> in_range r address -> find_virtual_address t address = Some (range_location r)).
Proof.
  intros [Hs Hwf]. unfold find_virtual_address, in_range.
  pose proof (last_not_after_spec address None _ Hs) as H. rewrite Forall_forall in Hwf.
  destruct (last_not_after address None (ranges t)) as [r|]; simpl.
  - destruct H as [(H1 & H2 & H3)|[? _]]; [|done].
    destruct (Z.ltb_spec address (range_begin r)) as [|_]; [lia|]. simpl.
    destruct (Z.leb_spec (range_end r) address).
    + split; [done|]. intros Hdis r' Hr' Ha. exfalso. specialize (H3 r' Hr' ltac:(lia)).
      destruct (Hwf r H1) as ([? ?] & _). assert (r' = r) as ->; [|lia].
      apply (Hdis r' r (range_begin r)); [done..|lia|lia].
    + split; [intros loc [= <-]; exists r; split; [done|]; split; [lia|done]|].
      intros Hdis r' Hr' Ha. by rewrite (Hdis r' r address) by (done || lia).
  - destruct H as [_ H]. split; [done|]. intros _ r Hr Ha. specialize (H r Hr). lia.
Qed.

Lemma range_owner_spec address owner l :
  match range_owner address owner l with
  | Ok None => owner = None /\ forall r, r ∈ l -> ~ in_range r address
  | Ok (Some o) =>
      (owner = Some o \/ (owner = None /\ exists r, r ∈ l /\ in_range r address)) /\
      forall r, r ∈ l -> in_range r address -> range_file_table r = o
  | Throw _ => exists r, r ∈ l /\ in_range r address /\
      ((exists o, owner = Some o /\ o <> range_file_table r) \/
       exists r', r' ∈ l /\ in_range r' address /\ range_file_table r' <> range_file_table r)
  | _ => False
  end.
Proof.
  unfold in_range. revert owner. induction l as [|x l IH]; intros owner; simpl.
  { destruct owner; [split; [by left|by intros ? ?%elem_of_nil]|split; [done|by intros ? ?%elem_of_nil]]. }
  destruct (Z.ltb_spec address (range_begin x)) as [|H1]; [|destruct (Z.leb_spec (range_end x) address)]; cbn [orb].
  1,2: specialize (IH owner); destruct (range_owner address owner l) as [[o|]|e|w|]; try done;
    [destruct IH as [IH1 IH2]; split;
       [destruct IH1 as [?|(? & r & ? & ?)]; [by left|right; split; [done|exists r; split; [by right|done]]]|
        intros r [->|Hr]%elem_of_cons Ha; [lia|by apply IH2]]
    |destruct IH as [IH1 IH2]; split; [done|intros r [->|Hr]%elem_of_cons; [lia|by apply IH2]]
    |destruct IH as (r & Hr & Ha & [Ho|(r' & ? & ? & ?)]); exists r; (split; [by right|split; [done|]]);
       [by left|right; exists r'; split; [by right|done]]].
  destruct owner as [o|].
  - destruct (Nat.eqb_spec o (range_file_table x)) as [->|Hne]; simpl.
    2: { exists x. split; [left|]. split; [lia|]. left. eauto. }
    specialize (IH (Some (range_file_table x))). destruct (range_owner _ _ l) as [[o|]|e|w|]; try done.
    + destruct IH as [[[= <-]|[? _]] IH2]; [|done]. split; [by left|].
      intros r [->|Hr]%elem_of_cons Ha; [done|by apply IH2].
    + by destruct IH.
    + destruct IH as (r & Hr & Ha & [Ho|(r' & ? & ? & ?)]); exists r; (split; [by right|split; [done|]]);
        [by left|right; exists r'; split; [by right|done]].
  - specialize (IH (Some (range_file_table x))). destruct (range_owner _ _ l) as [[o|]|e|w|]; try done.
    + destruct IH as [[[= <-]|[? _]] IH2]; [|done].
      split; [right; split; [done|]; exists x; split; [left|lia]|].
      intros r [->|Hr]%elem_of_cons Ha; [done|by apply IH2].
    + by destruct IH.
    + destruct IH as (r & Hr & Ha & [(o & [= <-] & Ho)|(r' & ? & ? & ?)]); exists r;
        (split; [by right|split; [done|right]]); [exists x; split; [left|split; [lia|done]]|exists r'; split; [by right|done]].
Qed.

(** on a well-formed table, the file of an address and a file index is found in the file
    table of the one unit whose ranges hold the address; it is an error exactly when
    two ranges of different units hold the address; the lookup never loses the table
    of a range. *)
Theorem find_virtual_file_spec t address index :
  wf_table t ->
  match find_virtual_file t address index with
  | Ok (Some path) => exists o table offset, file_tables t !! o = Some table /\
      (exists r, r ∈ ranges t /\ in_range r address) /\
      (forall r, r ∈ ranges t -> in_range r address -> range_file_table r = o) /\
      file_entry_offset index (length (ft_files table)) (ft_dwarf5 table) = Some offset /\
      ft_files table !! offset = Some path
  | Ok None => forall r table, r ∈ ranges t -> in_range r address -> file_tables t !! range_file_table r = Some table ->
      file_entry_offset index (length (ft_files table)) (ft_dwarf5 table) ≫= (fun i => ft_files table !! i) = None
  | Throw e => exn_cls e = RuntimeError /\ exists r r', r ∈ ranges t /\ r' ∈ ranges t /\
      in_range r address /\ in_range r' address /\ range_file_table r <> range_file_table r'
  | _ => False
  end.
Proof.
  intros [_ Hwf]. rewrite Forall_forall in Hwf. unfold find_virtual_file.
  pose proof (range_owner_spec address None (ranges t)) as H.
  destruct (range_owner address None (ranges t)) as [[o|]|e|w|] eqn:Eo; try done; simpl.
  - destruct H as [[?|[_ (r & Hr & Ha)]] Hall]; [done|]. pose proof (Hall r Hr Ha) as Ho.
    destruct (Hwf r Hr) as (_ & _ & _ & Hlt). rewrite Ho in Hlt.
    destruct (lookup_lt_is_Some_2 _ _ Hlt) as [table Ht]. rewrite Ht.
    destruct (file_entry_offset _ _ _) as [offset|] eqn:Ef; simpl; [destruct (ft_files table !! offset) as [path|] eqn:Ep|].
    + exists o, table, offset. eauto 10.
    + intros r' table' Hr' Ha'. rewrite (Hall r' Hr' Ha'), Ht. intros [= <-]. by rewrite Ef.
    + intros r' table' Hr' Ha'. rewrite (Hall r' Hr' Ha'), Ht. intros [= <-]. by rewrite Ef.
  - destruct H as [_ H]. intros r table Hr Ha. by destruct (H r Hr).
  - split; [|destruct H as (r & Hr & Ha & [(o & ? & _)|(r' & ? & ? & ?)]); [done|exists r', r; eauto 10]].
    revert Eo. clear. generalize (None : option nat). induction (ranges t) as [|x l IH]; intros o; [done|]. simpl.
    destruct (_ || _); [apply IH|]. destruct o; [|apply IH]. destruct (negb _); [by intros [= <-]|apply IH].
Qed.

(** ** Parsing a line table

    On every file [parse_line_table] returns a well-formed table or throws; the only
    undefined behaviour is the overflow of the line register, and every loop ends. *)

Definition overflow : string := "signed integer overflow".

(** [yields_at], up to the overflow of the line register. *)
Definition bounded {A} (c : Z) (Q : A -> Z -> Prop) (m : M Z A) : Prop :=
  match m c with
  | (Ok a, c') => Q a c'
  | (Throw _, _) => True
  | (Undef w, _) => w = overflow
  | (OutOfFuel, _) => False
  end.

Lemma bounded_yields {A} c (Q : A -> Z -> Prop) (m : M Z A) : yields_at c Q m -> bounded c Q m.
Proof. unfold yields_at, bounded. by destruct (m c) as [[]]. Qed.
Lemma bounded_bind {A B} c (P : A -> Z -> Prop) (Q : B -> Z -> Prop) (m : M Z A) (f : A -> M Z B) :
  bounded c P m -> (forall a c', P a c' -> bounded c' Q (f a)) -> bounded c Q (m ≫= f).
Proof.
  unfold bounded, mbind, M_bind. intros Hm Hf. destruct (m c) as [[a|e|w|] c']; [by apply Hf|done..].
Qed.
Lemma bounded_weaken {A} c (P Q : A -> Z -> Prop) (m : M Z A) :
  (forall a c', P a c' -> Q a c') -> bounded c P m -> bounded c Q m.
Proof. unfold bounded. intros H Hm. destruct (m c) as [[a|e|w|] c']; [by apply H|done..]. Qed.
Lemma bounded_read {A B} c limit u (Q : B -> Z -> Prop) (m : M Z A) (f : A -> M Z B) :
  reads limit u m -> 0 <= c ->
  (forall a c', c + u <= c' -> c' <= limit \/ c' = c -> bounded c' Q (f a)) -> bounded c Q (m ≫= f).
Proof.
  intros H Hc Hf. eapply bounded_bind; [by apply bounded_yields, yields_at_reads|]. intros a c' [H1 H2]. by apply Hf.
Qed.
Lemma bounded_ret {A} c (Q : A -> Z -> Prop) a : Q a c -> bounded c Q (mret a).
Proof. done. Qed.

Section Readers.
Context (bytes : list byte) (limit : Z) (Hlim : limit_in bytes limit).

Lemma reads_line_scalar what n : 0 < n -> reads limit n (read_scalar what bytes limit n).
Proof. intros Hn. destruct Hlim. apply reads_scalar; [done|]. unfold i64_max, u64_max in *. lia. Qed.
Lemma reads_line_uleb : reads limit 1 (read_uleb bytes limit).
Proof. by apply reads_uleb, reads_line_scalar. Qed.
Lemma reads_line_sleb : reads limit 1 (read_sleb bytes limit).
Proof. by apply reads_sleb, reads_line_scalar. Qed.
Lemma reads_line_c_string what : reads limit 1 (read_c_string bytes limit what).
Proof. destruct Hlim. by apply reads_c_string. Qed.

Lemma reads_drop_value {A} u (m : M Z A) : 0 <= u -> reads limit u m -> reads limit 0 (drop_value m).
Proof. intros Hu H. apply reads_bind_l; [lia|by apply (reads_weaken _ u)|intros; apply reads_ret]. Qed.
Lemma reads_repeat {A} n (m : M Z A) : reads limit 0 m -> reads limit 0 (repeat_m n m).
Proof.
  intros Hm. induction n as [|n IH]; [apply reads_ret|]. apply reads_bind_l; [lia|done|intros x].
  apply reads_bind_l; [lia|done|intros; apply reads_ret].
Qed.

Lemma reads_v4_file_entry : reads limit 1 (read_v4_file_entry bytes limit).
Proof.
  assert (Hu : reads limit 0 (read_uleb bytes limit)) by (apply (reads_weaken _ 1); [lia|apply reads_line_uleb]).
  apply reads_bind_l; [lia|apply reads_line_c_string|intros name].
  apply reads_bind_l; [lia|done|intros i]. do 2 (apply reads_bind_l; [lia|done|intros _]). apply reads_ret.
Qed.

Lemma reads_v5_entry_formats what : reads limit 0 (read_v5_entry_formats bytes limit what).
Proof.
  assert (Hu : reads limit 0 (read_uleb bytes limit)) by (apply (reads_weaken _ 1); [lia|apply reads_line_uleb]).
  apply reads_bind_l; [lia|apply (reads_weaken _ 1); [lia|by apply reads_line_scalar]|intros n].
  apply reads_repeat. do 2 (apply reads_bind_l; [lia|done|intros ?]). apply reads_ret.
Qed.

Lemma reads_v5_unsigned_form f : reads limit 0 (read_v5_unsigned_form bytes limit f).
Proof.
  assert (Hs : forall what n, 0 < n -> reads limit 0 (read_scalar what bytes limit n)).
  { intros. apply (reads_weaken _ n); [lia|]. by apply reads_line_scalar. }
  unfold read_v5_unsigned_form. destruct (_ =? _); [apply (reads_weaken _ 1); [lia|apply reads_line_uleb]|].
  repeat (destruct (_ =? _); [by apply Hs|]). apply reads_throw.
Qed.

Lemma section_string_yields section offset what :
  match section with
  | Some s => 0 <= sec_offset s /\ sec_offset s + sec_size s <= size_of bytes
  | None => True
  end -> 0 <= offset -> settles (read_section_string bytes section offset what).
Proof.
  intros Hs Ho. unfold read_section_string. destruct section as [s|]; [|done].
  apply settles_bind; [auto with msettle|intros _ _]. unfold run_from.
  pose proof (reads_c_string ("unterminated " +:+ what) bytes (sec_offset s + sec_size s) ltac:(lia)
    (sec_offset s + offset) ltac:(lia)) as H.
  unfold read_c_string. by destruct (read_c_string_with _ _ _ _) as [[]].
Qed.

Context (strings : option SectionRange)
  (Hstrings : match strings with
              | Some s => 0 <= sec_offset s /\ sec_offset s + sec_size s <= size_of bytes
              | None => True
              end).

Lemma reads_v5_path_form f : reads limit 0 (read_v5_path_form bytes limit f strings).
Proof.
  unfold read_v5_path_form. destruct (_ =? _); [apply (reads_weaken _ 1); [lia|apply reads_line_c_string]|].
  destruct (_ =? _); [|apply reads_throw]. intros c Hc.
  pose proof (reads_line_scalar "DWARF5 line_strp offset" 4 ltac:(lia) c Hc) as H. unfold mbind, M_bind.
  destruct (read_scalar _ _ _ _ c) as [[o|e|w|] c'] eqn:E; [|intuition lia|done..].
  assert (Ho : 0 <= o).
  { revert E. unfold read_scalar, read_scalar_with. mrun. destruct (_ || _); [done|].
    unfold read_at_with, throw_if. destruct (out_of_bounds _ _ _); [done|].
    cbn. intros [= <- _]. apply (le_at_u32 bytes c). }
  pose proof (section_string_yields strings o "DWARF5 line string" Hstrings Ho) as Hy. unfold lift.
  destruct (read_section_string _ _ _ _); simpl in *; done || lia.
Qed.

Lemma reads_skip_v5_form f : reads limit 0 (skip_v5_form bytes limit f).
Proof.
  assert (Hs : forall what n, 0 < n -> reads limit 0 (drop_value (read_scalar what bytes limit n))).
  { intros. apply (reads_drop_value n); [lia|]. by apply reads_line_scalar. }
  unfold skip_v5_form. destruct (_ =? _); [apply (reads_drop_value 1); [lia|apply reads_line_c_string]|].
  destruct (_ =? _); [by apply Hs|]. destruct (_ =? _); [apply (reads_drop_value 1); [lia|apply reads_line_uleb]|].
  destruct (_ =? _); [apply (reads_drop_value 1); [lia|apply reads_line_sleb]|].
  do 4 (destruct (_ =? _); [by apply Hs|]). destruct (_ =? _); [|apply reads_throw].
  intros c Hc. mrun. destruct (Z.ltb_spec limit c); cbn [orb]; [lia|]. destruct (Z.ltb_spec (limit - c) 16); [lia|].
  simpl. lia.
Qed.

Lemma reads_v5_columns formats path index : reads limit 0 (read_v5_columns bytes limit formats strings path index).
Proof.
  revert path index. induction formats as [|f formats IH]; intros path index; [apply reads_ret|]. simpl.
  destruct (_ =? _); [|destruct (_ =? _)].
  - apply reads_bind_l; [lia|apply reads_throw_if|intros _]. apply reads_bind_l; [lia|apply reads_v5_path_form|intros; apply IH].
  - apply reads_bind_l; [lia|apply reads_v5_unsigned_form|intros; apply IH].
  - apply reads_bind_l; [lia|apply reads_skip_v5_form|intros; apply IH].
Qed.

Lemma reads_v5_entry formats : reads limit 0 (read_v5_entry bytes limit formats strings).
Proof.
  apply reads_bind_l; [lia|apply reads_v5_columns|intros [[path|] index]]; [apply reads_ret|apply reads_throw].
Qed.

Lemma reads_v5_count msg : reads limit 0 (read_v5_count bytes limit msg).
Proof.
  apply reads_bind_l; [lia|apply (reads_weaken _ 1); [lia|apply reads_line_uleb]|intros n].
  apply reads_bind_l; [lia|apply reads_mget|intros c]. apply reads_bind_l; [lia|apply reads_throw_if|intros; apply reads_ret].
Qed.

Lemma reads_v5_tables : reads limit 0 (read_v5_directory_and_file_tables bytes limit strings).
Proof.
  unfold read_v5_directory_and_file_tables.
  do 2 (apply reads_bind_l; [lia|apply reads_v5_entry_formats|intros ?];
        apply reads_bind_l; [lia|apply reads_v5_count|intros ?];
        apply reads_bind_l; [lia|apply reads_repeat, reads_v5_entry|intros ?]).
  apply reads_ret.
Qed.

Lemma v4_directories_yields fuel c :
  0 <= c -> limit - c <= Z.of_nat fuel -> yields_at c (fun _ c' => c <= c') (v4_directories fuel bytes limit).
Proof.
  revert c. induction fuel as [|fuel IH]; intros c Hc Hf; simpl; apply yields_at_mget;
    (destruct (Z.ltb_spec c limit); [|unfold yields_at; simpl; lia]); [lia|].
  eapply yields_at_read; [apply reads_line_c_string|done|intros [|x s] c' H1 H2]; [unfold yields_at; simpl; lia|].
  eapply yields_at_bind; [apply IH; lia|intros rest c'' H3]. unfold yields_at. simpl in *. lia.
Qed.

Lemma v4_files_yields fuel c :
  0 <= c -> limit - c <= Z.of_nat fuel -> yields_at c (fun _ c' => c <= c') (v4_files fuel bytes limit).
Proof.
  revert c. induction fuel as [|fuel IH]; intros c Hc Hf; simpl; apply yields_at_mget;
    (destruct (Z.ltb_spec c limit); [|unfold yields_at; simpl; lia]); [lia|].
  eapply yields_at_read; [apply reads_line_c_string|done|intros [|x s] c' H1 H2]; [unfold yields_at; simpl; lia|].
  apply yields_at_bind with (fun _ c'' => c'' = c); [done|intros _ c'' ->].
  eapply yields_at_read; [apply reads_v4_file_entry|done|intros f c1 H3 H4].
  eapply yields_at_bind; [apply IH; lia|intros rest c2 H5]. unfold yields_at. simpl in *. lia.
Qed.
End Readers.

(** *** Headers *)

(** The bounds of a unit whose header starts after [c]. *)
Definition header_in (c section_end : Z) (h : unit_header) (c' : Z) : Prop :=
  c < c' /\ c < header_end h <= unit_end h /\ unit_end h <= section_end /\
  0 < line_range h < 256 /\ 0 < opcode_base h /\
  Z.of_nat (length (standard_opcode_lengths h)) = opcode_base h - 1.

Lemma scalar_value what bytes limit n c v c' :
  0 <= n -> read_scalar what bytes limit n c = (Ok v, c') -> 0 <= v < 256 ^ n.
Proof.
  intros Hn. unfold read_scalar, read_scalar_with. mrun. destruct (_ || _); [done|].
  unfold read_at_with, throw_if. destruct (out_of_bounds _ _ _); [done|]. cbn. intros [= <- _]. by apply le_at_range.
Qed.

Lemma repeat_m_length {A} n (m : M Z A) c l c' : repeat_m n m c = (Ok l, c') -> length l = n.
Proof.
  revert c l c'. induction n as [|n IH]; intros c l c'; simpl; [by intros [= <- _]|].
  unfold mbind, M_bind. destruct (m c) as [[x|e|w|] c1]; try done.
  destruct (repeat_m n m c1) as [[l'|e|w|] c2] eqn:E; try done. intros [= <- _]. simpl. f_equal. by eapply IH.
Qed.

Lemma read_version_yields bytes unit_end c :
  limit_in bytes unit_end -> 0 <= c -> yields_at c (fun _ c' => c <= c') (read_version bytes unit_end).
Proof.
  intros Hl Hc. unfold read_version.
  eapply yields_at_read; [by apply reads_line_scalar|lia|intros v c1 H1 H1']. apply yields_at_guard; intros _.
  destruct (v =? 5); [|unfold yields_at; simpl; lia].
  eapply yields_at_read; [by apply reads_line_scalar|lia|intros a c2 H2 H2'].
  eapply yields_at_read; [by apply reads_line_scalar|lia|intros s c3 H3 H3'].
  do 2 (apply yields_at_guard; intros _). unfold yields_at. simpl. lia.
Qed.

Lemma read_unit_header_yields bytes section_end c :
  limit_in bytes section_end -> 0 <= c ->
  yields_at c (header_in c section_end) (read_unit_header bytes section_end).
Proof.
  intros Hl Hc. unfold read_unit_header.
  eapply yields_at_read; [by apply reads_line_scalar|lia|intros len c1 H1 H1'].
  do 2 (apply yields_at_guard; intros _). apply yields_at_mget, yields_at_guard; intros Hu%Z.ltb_ge.
  assert (Hl1 : limit_in bytes (c1 + len)) by (destruct Hl; split; [lia|done]).
  eapply yields_at_bind; [by apply read_version_yields; [|lia]|intros v c2 H2; simpl in H2].
  eapply yields_at_read_val; [by apply reads_line_scalar|lia|intros ? ?; apply scalar_value; lia|intros hl c3 Hhl H3 H3'].
  apply yields_at_mget, yields_at_guard; intros Hh%Z.ltb_ge.
  assert (Hl2 : limit_in bytes (c3 + hl)) by (destruct Hl; split; [lia|done]).
  do 2 (eapply yields_at_read; [by apply reads_line_scalar|lia|intros ? ? ? ?]). apply yields_at_guard; intros _.
  do 2 (eapply yields_at_read; [by apply reads_line_scalar|lia|intros ? ? ? ?]).
  eapply yields_at_read_val; [by apply reads_line_scalar|lia|intros ? ?; apply scalar_value; lia|intros lr c4 Hlr L4 L4'].
  eapply yields_at_read_val; [by apply reads_line_scalar|lia|intros ? ?; apply scalar_value; lia|intros ob c5 Hob L5 L5'].
  apply yields_at_guard; intros [Hz1%Z.eqb_neq Hz2%Z.eqb_neq]%orb_false_iff.
  eapply yields_at_read_val; [apply reads_repeat; apply (reads_weaken _ 1); [lia|by apply (reads_line_scalar _ _ Hl2)]|lia|
    intros ? ?; apply repeat_m_length|intros l c6 Hlen L6 L6'].
  unfold yields_at, header_in. simpl in *. rewrite Hlen. change (256 ^ 1) with 256 in *. lia.
Qed.

Definition strings_in (bytes : list byte) (strings : option SectionRange) : Prop :=
  match strings with
  | Some s => 0 <= sec_offset s /\ sec_offset s + sec_size s <= size_of bytes
  | None => True
  end.

Lemma read_unit_tables_yields bytes strings h c :
  limit_in bytes (header_end h) -> strings_in bytes strings -> 0 <= c ->
  yields_at c (fun _ c' => c' = header_end h) (read_unit_tables bytes strings h).
Proof.
  intros Hl Hs Hc. unfold read_unit_tables.
  apply yields_at_bind with (fun _ _ => True); [|intros t c' _; by unfold yields_at].
  destruct (dwarf5 h).
  - eapply yields_at_read; [by apply reads_v5_tables|done|intros t c1 _ _].
    apply yields_at_mget, yields_at_guard; by intros _.
  - apply yields_at_mget. eapply yields_at_bind; [by apply v4_directories_yields; [|lia|lia]|intros d c1 H1].
    apply yields_at_mget. simpl in H1. by eapply yields_at_bind; [by apply v4_files_yields; [|lia|lia]|].
Qed.

(** *** The program *)

Definition location_ok (l : SourceLocation) : Prop := 0 < loc_line l <= i64_max.

Definition wf_program (n : nat) (p : program) : Prop :=
  in_u64 (ln_address (pg_state p)) /\ i64_min <= ln_line (pg_state p) <= i64_max /\
  (forall r, pg_previous p = Some r ->
     in_u64 (row_address r) /\ forall l, row_location r = Some l -> location_ok l) /\
  Forall (wf_range (S n)) (pg_ranges p).

Lemma source_location_ok s ds fs d5 l :
  ln_line s <= i64_max -> source_location s ds fs d5 = Some l -> location_ok l.
Proof.
  intros Hmax. unfold source_location, location_ok. destruct (Z.leb_spec (ln_line s) 0); [done|].
  destruct (file_entry_offset _ _ _); simpl; [|done]. destruct (fs !! _); simpl; [|done]. intros [= <-]. simpl. lia.
Qed.

Lemma emit_wf h ds n b p : wf_program n p -> wf_program n (emit h ds n b p).
Proof.
  intros (Ha & Hl & Hp & Hr). split; [done|]. split; [done|]. split.
  - intros r. simpl. destruct b; [done|]. intros [= <-]. split; [done|]. intros l.
    apply source_location_ok. simpl. lia.
  - simpl. apply Forall_app. split; [done|]. destruct (pg_previous p) as [[a [l|]]|]; try done.
    destruct (Z.ltb_spec a (ln_address (pg_state p))); [|done]. apply Forall_singleton.
    destruct (Hp _ eq_refl) as [Hra Hloc]. specialize (Hloc _ eq_refl). unfold wf_range, in_u64, location_ok in *. simpl in *.
    split; [lia|]. split; [lia|]. split; [lia|lia].
Qed.

Lemma set_state_wf n s p :
  in_u64 (ln_address s) -> i64_min <= ln_line s <= i64_max -> wf_program n p -> wf_program n (set_state s p).
Proof. intros Ha Hl (_ & _ & Hp & Hr). do 2 (split; [done|]). by split. Qed.
Lemma advance_address_wf n d p : wf_program n p -> wf_program n (advance_address d p).
Proof. intros Hwf. apply set_state_wf; [apply u64_range|apply Hwf|done]. Qed.
Lemma advance_line_spec n d p :
  wf_program n p ->
  match advance_line d p with Ok p' => wf_program n p' | Throw _ => True | Undef w => w = overflow | OutOfFuel => False end.
Proof.
  intros Hwf. unfold advance_line. cbv zeta. destruct (_ && _) eqn:E; [|done].
  apply andb_true_iff in E as [?%Z.leb_le ?%Z.leb_le]. apply set_state_wf; [apply Hwf|simpl; lia|done].
Qed.
Lemma initial_state_ok : in_u64 (ln_address initial_state) /\ i64_min <= ln_line initial_state <= i64_max.
Proof. unfold in_u64, u64_max, i64_min, i64_max. simpl. lia. Qed.

Section Run.
Context (bytes : list byte) (h : unit_header) (ds : list string) (n : nat).
Context (Hlim : limit_in bytes (unit_end h))
  (Hlen : Z.of_nat (length (standard_opcode_lengths h)) = opcode_base h - 1).

Lemma execute_extended_opcode_bounded p c :
  0 <= c -> wf_program n p ->
  bounded c (fun p' c' => wf_program n p' /\ c < c') (execute_extended_opcode bytes h ds n p).
Proof.
  intros Hc Hwf. unfold execute_extended_opcode. apply bounded_yields.
  eapply yields_at_read_val; [by apply reads_line_uleb|done|apply read_uleb_with_value|intros len c1 [Hlen0 _] H1 H1'].
  apply yields_at_mget, yields_at_guard; intros [Hz%Z.eqb_neq Hle%Z.ltb_ge]%orb_false_iff. destruct Hlim as [Hl Hs].
  rewrite u64_small in Hle by (unfold in_u64, u64_max, i64_max in *; lia).
  assert (Hl2 : limit_in bytes (c1 + len)) by (split; [lia|done]).
  eapply yields_at_read; [by apply reads_line_scalar|lia|intros op c2 H2 H2'].
  apply yields_at_bind with (fun p' _ => wf_program n p').
  2: { intros p' c' Hp'. unfold yields_at. simpl. split; [done|lia]. }
  destruct initial_state_ok as [Hi1 Hi2].
  destruct (op =? _); [by apply set_state_wf; [..|apply emit_wf]|]. destruct (op =? _).
  { apply yields_at_mget, yields_at_guard; intros _.
    eapply yields_at_read_val; [by apply reads_line_scalar|lia|intros ? ?; apply scalar_value; lia|intros a c3 Ha _ _].
    apply set_state_wf; [|apply Hwf|done]. cbn beta in Ha. unfold in_u64, u64_max. simpl. change (256 ^ 8) with 18446744073709551616 in Ha. lia. }
  destruct (op =? _).
  { apply yields_at_guard; intros _. by eapply yields_at_read; [by apply reads_v4_file_entry|lia|]. }
  destruct (op =? _); [|done]. by eapply yields_at_read; [by apply reads_line_uleb|lia|].
Qed.

Lemma execute_standard_opcode_bounded op p c :
  0 <= c -> 0 < op < opcode_base h -> wf_program n p ->
  bounded c (fun p' c' => wf_program n p' /\ c <= c') (execute_standard_opcode bytes h ds n op p).
Proof.
  intros Hc Hop Hwf. pose proof Hwf as (Ha & Hl & _). unfold execute_standard_opcode. cbv zeta.
  destruct (op =? _); [split; [by apply emit_wf|lia]|].
  destruct (op =? _); [eapply bounded_read; [by apply reads_line_uleb|done|]; intros v c' ? ?; split; [by apply advance_address_wf|lia]|].
  destruct (op =? _).
  { eapply bounded_read; [by apply reads_line_sleb|done|]. intros v c' ? ?.
    pose proof (advance_line_spec n v p Hwf) as H1. unfold bounded, lift. destruct (advance_line v p); [split; [done|lia]|done..]. }
  do 2 (destruct (op =? _); [eapply bounded_read; [by apply reads_line_uleb|done|]; intros v c' ? ?; split;
          [by apply set_state_wf|lia]|]).
  destruct (_ || _); [split; [done|lia]|].
  destruct (op =? _); [split; [by apply advance_address_wf|lia]|].
  destruct (op =? _); [eapply bounded_read; [by apply reads_line_scalar|done|]; intros v c' ? ?; split; [by apply advance_address_wf|lia]|].
  destruct (op =? _); [eapply bounded_read; [by apply reads_line_uleb|done|]; intros v c' ? ?; split; [done|lia]|].
  destruct (lookup_lt_is_Some_2 (standard_opcode_lengths h) (Z.to_nat (op - 1)) ltac:(lia)) as [count ->].
  eapply bounded_read; [apply reads_repeat; apply (reads_weaken _ 1); [lia|by apply (reads_line_uleb _ _ Hlim)]|done|].
  intros v c' ? ?. split; [done|lia].
Qed.

Lemma execute_opcode_bounded p c :
  0 <= c -> wf_program n p -> bounded c (fun p' c' => wf_program n p' /\ c < c') (execute_opcode bytes h ds n p).
Proof.
  intros Hc Hwf. unfold execute_opcode.
  eapply bounded_bind with (fun op c' => 0 <= op /\ c + 1 <= c').
  { apply bounded_yields. unfold yields_at. pose proof (reads_line_scalar _ _ Hlim "DWARF line opcode" 1 ltac:(lia) c Hc) as H.
    destruct (read_scalar _ _ _ _ c) as [[op|e|w|] c'] eqn:E; try done. apply scalar_value in E; [|lia]. lia. }
  intros op c' [Hop Hc']. destruct (Z.eqb_spec op 0) as [_|Hne]; [|destruct (Z.ltb_spec op (opcode_base h))].
  - apply (bounded_weaken _ (fun p' c2 => wf_program n p' /\ c' < c2)).
    + intros p' c2 [? ?]. split; [done|lia].
    + apply execute_extended_opcode_bounded; [lia|done].
  - apply (bounded_weaken _ (fun p' c2 => wf_program n p' /\ c' <= c2)).
    + intros p' c2 [? ?]. split; [done|lia].
    + apply execute_standard_opcode_bounded; [lia|lia|done].
  - unfold execute_special_opcode. pose proof (advance_line_spec n (line_base h + (op - opcode_base h) mod line_range h)
      _ (advance_address_wf n (operation_advance h (op - opcode_base h)) p Hwf)) as H1.
    unfold bounded, lift. cbv zeta. destruct (advance_line _ _); simpl; [|done..]. split; [by apply emit_wf|lia].
Qed.

Lemma run_program_bounded fuel p c :
  0 <= c -> unit_end h - c <= Z.of_nat fuel -> wf_program n p ->
  bounded c (fun p' c' => wf_program n p' /\ unit_end h <= c') (run_program bytes h ds n fuel p).
Proof.
  revert p c. induction fuel as [|fuel IH]; intros p c Hc Hf Hwf; simpl;
    unfold bounded; mrun; (destruct (Z.ltb_spec c (unit_end h)); [|simpl; split; [done|lia]]); [lia|].
  apply (bounded_bind c (fun p' c' => wf_program n p' /\ c < c')); [by apply execute_opcode_bounded|].
  intros p' c' [Hp' Hc']. apply IH; [lia..|done].
Qed.
End Run.

(** *** The section *)

Definition wf_partial (t : list FileTable * list Range) : Prop := Forall (wf_range (length t.1)) t.2.

Lemma wf_range_mono a b r : (a <= b)%nat -> wf_range a r -> wf_range b r.
Proof. intros Hab (H1 & H2 & H3 & H4). do 3 (split; [done|]). lia. Qed.

Lemma parse_unit_bounded bytes strings section_end t c :
  limit_in bytes section_end -> strings_in bytes strings -> 0 <= c -> wf_partial t ->
  bounded c (fun t' c' => wf_partial t' /\ c < c') (parse_unit bytes strings section_end t).
Proof.
  intros Hl Hs Hc Hwf. destruct t as [tables ranges]. unfold parse_unit. destruct Hl as [Hl Hsz].
  eapply bounded_bind; [by apply bounded_yields, read_unit_header_yields|]. intros h c1 (H1 & H2 & H3 & H4 & H5 & H6).
  eapply bounded_bind; [apply bounded_yields, read_unit_tables_yields; [split; [lia|done]|done|lia]|].
  intros [ds fs] c2 ->. unfold bounded; mrun; fold (bounded (A := list FileTable * list Range)).
  apply (bounded_bind (header_end h) (fun p c' => wf_program (length tables) p /\ unit_end h <= c')).
  - destruct initial_state_ok. apply run_program_bounded; [split; [lia|done]|done|lia|lia|].
    split; [done|]. split; [done|]. split; [done|]. simpl. eapply Forall_impl; [exact Hwf|].
    intros r. apply wf_range_mono. simpl. lia.
  - intros p c' [Hp Hc']. split; [|lia]. unfold wf_partial. simpl. rewrite length_app. simpl.
    eapply Forall_impl; [apply Hp|]. intros r. apply wf_range_mono. lia.
Qed.

Lemma parse_units_bounded fuel bytes strings section_end t c :
  limit_in bytes section_end -> strings_in bytes strings -> 0 <= c -> section_end - c <= Z.of_nat fuel ->
  wf_partial t -> bounded c (fun t' _ => wf_partial t') (parse_units fuel bytes strings section_end t).
Proof.
  intros Hl Hs. revert t c. induction fuel as [|fuel IH]; intros t c Hc Hf Hwf; simpl;
    unfold bounded; mrun; (destruct (Z.ltb_spec c section_end); [|done]); [lia|].
  apply (bounded_bind c (fun t' c' => wf_partial t' /\ c < c')); [by apply parse_unit_bounded|].
  intros t' c' [Ht Hc']. apply IH; [lia..|done].
Qed.

Lemma named_section_yields bytes name size begin_ end_ sections :
  size_of bytes <= i64_max -> 0 <= begin_ -> end_ <= size_of bytes ->
  Forall (fun s => exists o, s = shdr_at bytes o) sections ->
  yields (strings_in bytes) (named_section bytes name size begin_ end_ sections).
Proof.
  intros Hsz Hb He. induction 1 as [|s sections [o ->] _ IH]; [done|]. simpl.
  pose proof (le_at_u64 bytes (o + 24)) as [Ho _]. pose proof (le_at_u32 bytes o) as [Hn _].
  destruct (_ <=? _); [done|]. eapply yields_bind.
  { apply settles_yields. unfold run_from.
    pose proof (reads_c_string "unterminated ELF section name" bytes end_ He (begin_ + le_at bytes o 4) ltac:(lia)) as H.
    unfold read_c_string. change ("unterminated " +:+ "ELF section name") with "unterminated ELF section name".
    by destruct (read_c_string_with _ _ _ _) as [[]]. }
  intros nm _. destruct (negb _); [done|]. apply yields_guard; intros _. unfold require_range.
  apply yields_guard; intros Hr. unfold out_of_bounds in Hr. apply orb_false_iff in Hr as [?%Z.ltb_ge ?%Z.ltb_ge].
  simpl in *. lia.
Qed.

Lemma find_debug_section_yields bytes name :
  size_of bytes <= i64_max -> yields (strings_in bytes) (find_debug_section bytes name).
Proof.
  intros Hsz. unfold find_debug_section.
  apply yields_bind with (fun header => 0 <= e_shstrndx header).
  { unfold read_struct_at. apply yields_guard; intros _. apply (le_at_u16 bytes (0 + 62)). }
  intros header H0. do 3 (apply yields_guard; intros _). destruct (_ =? 0); [done|]. do 2 (apply yields_guard; intros _).
  destruct (_ || _) eqn:Hidx; [done|]. apply orb_false_iff in Hidx as [_ Hidx%Z.leb_gt].
  eapply yields_bind.
  { apply (yields_mapM_length (fun s => exists o, s = shdr_at bytes o)). intros x _. unfold read_struct_at.
    apply yields_guard; intros _. by eexists. }
  intros sections [Hs Hlen]. rewrite length_seq in Hlen.
  destruct (lookup_lt_is_Some_2 sections (Z.to_nat (e_shstrndx header)) ltac:(lia)) as [names Hn]. rewrite Hn.
  rewrite Forall_lookup in Hs. destruct (Hs _ _ Hn) as [o ->]. unfold require_range at 1.
  pose proof (le_at_u64 bytes (o + 24)) as [Ho _].
  apply yields_guard; intros Hr. unfold out_of_bounds in Hr. apply orb_false_iff in Hr as [?%Z.ltb_ge ?%Z.ltb_ge].
  simpl in *. apply named_section_yields; [done|done|lia|]. by apply Forall_lookup.
Qed.

(** What parsing ends in. *)
Definition table_outcome (r : res DwarfLineTable) : Prop :=
  match r with
  | Ok t => wf_table t
  | Throw _ => True
  | Undef what => what = overflow
  | OutOfFuel => False
  end.

Lemma parse_line_table_outcome path bytes : size_of bytes <= i64_max -> table_outcome (parse_line_table path bytes).
Proof.
  intros Hsz. unfold parse_line_table. pose proof (find_debug_section_yields bytes ".debug_line" Hsz) as H1.
  destruct (find_debug_section bytes ".debug_line") as [[section|]|e|w|]; try done; simpl; [|by split; constructor].
  pose proof (find_debug_section_yields bytes ".debug_line_str" Hsz) as H2.
  destruct (find_debug_section bytes ".debug_line_str") as [strings|e|w|]; try done; simpl in *.
  pose proof (parse_units_bounded (Z.to_nat (sec_size section)) bytes strings (sec_offset section + sec_size section)
    ([], []) (sec_offset section) ltac:(split; lia) H2 ltac:(lia) ltac:(lia) ltac:(constructor)) as H.
  unfold bounded, run_from in *.
  destruct (parse_units _ _ _ _ _ _) as [[[tables ranges]|e|w|] c]; simpl; try done.
  split; simpl; [apply (StronglySorted_merge_sort range_le)|by rewrite merge_sort_Permutation].
Qed.

(** C39: on every file, parsing the line table either throws or returns a well-formed
    table: ranges that are not empty, sorted by address, with positive lines and with a
    file table.  No access is outside the file and every loop ends; the only undefined
    behaviour is the overflow of the signed line register. *)
Theorem parse_line_table_wf path bytes :
  size_of bytes <= i64_max ->
  match parse_line_table path bytes with
  | Ok t => wf_table t
  | Throw _ => True
  | Undef what => what = overflow
  | OutOfFuel => False
  end.
Proof. exact (parse_line_table_outcome path bytes). Qed.

(** *** A file with one unit: [/src/a.c], line 1 at 0x1000 and line 2 at 0x1004 *)

Definition chars (s : string) : list byte :=
  map (fun c => byte_of_Z (Z.of_N (N_of_ascii c))) (String.list_ascii_of_string s) ++ [Byte.x00].

Definition demo_header : list byte :=
  le_split 1 1 ++ le_split 1 1 ++ le_split 1 1 ++ le_split 1 0xfb ++ le_split 1 14 ++ le_split 1 13 ++
  le_split 12 0x10000010000000101010100 ++ chars "/src" ++ [Byte.x00] ++ chars "a.c" ++ [Byte.x01; Byte.x00; Byte.x00; Byte.x00].

Definition demo_line_program : list byte :=
  [Byte.x00; Byte.x09; Byte.x02] ++ le_split 8 0x1000 ++ [Byte.x01; byte_of_Z 75; Byte.x02; Byte.x08] ++
  [Byte.x00; Byte.x01; Byte.x01].

(** A file whose [.debug_line] section has one unit of version 4 with this program. *)
Definition line_file (program : list byte) : list byte :=
  let content := le_split 2 4 ++ le_split 4 (size_of demo_header) ++ demo_header ++ program in
  let unit_bytes := le_split 4 (size_of content) ++ content in
  let names := [Byte.x00] ++ chars ".debug_line" in
  le_split 16 0x010102464c457f ++ le_split 2 2 ++ le_split 2 62 ++ le_split 4 1 ++ le_split 16 0 ++ le_split 8 64 ++
  le_split 4 0 ++ le_split 6 0 ++ le_split 2 64 ++ le_split 2 2 ++ le_split 2 1 ++
  le_split 4 1 ++ le_split 20 0 ++ le_split 8 (192 + size_of names) ++ le_split 8 (size_of unit_bytes) ++ le_split 24 0 ++
  le_split 4 0 ++ le_split 20 0 ++ le_split 8 192 ++ le_split 8 (size_of names) ++ le_split 24 0 ++
  names ++ unit_bytes.

Definition demo_table : DwarfLineTable :=
  mkLineTable "demo" [mkFileTable false ["/src/a.c"]]
    [mkRange 0x1000 0x1004 (mkLocation "/src/a.c" 1 0) 0; mkRange 0x1004 0x100c (mkLocation "/src/a.c" 2 0) 0].

Example demo_table_parses : parse_line_table "demo" (line_file demo_line_program) = Ok demo_table.
Proof. vm_cast_no_check (@eq_refl (res DwarfLineTable) (Ok demo_table)). Qed.

Lemma parse_line_table_wf_witness : wf_table demo_table.
Proof.
  assert (Hs : size_of (line_file demo_line_program) <= i64_max) by (vm_compute; congruence).
  pose proof (parse_line_table_wf "demo" (line_file demo_line_program) Hs) as H.
  replace (parse_line_table "demo" (line_file demo_line_program)) with (Ok demo_table : res DwarfLineTable) in H
    by (symmetry; exact demo_table_parses).
  exact H.
Defined.

Lemma demo_table_wf : wf_table demo_table.
Proof.
  split; [repeat constructor|].
  repeat (constructor; [unfold wf_range; simpl; unfold u64_max, i64_max; lia|]). constructor.
Qed.

Lemma find_virtual_address_spec_witness :
  exists r, r ∈ ranges demo_table /\ in_range r 0x1007 /\ range_location r = mkLocation "/src/a.c" 2 0.
Proof.
  apply (proj1 (find_virtual_address_spec demo_table 0x1007 demo_table_wf)). reflexivity.
Defined.

Lemma find_virtual_file_spec_witness :
  exists o table offset, file_tables demo_table !! o = Some table /\
    file_entry_offset 1 (length (ft_files table)) (ft_dwarf5 table) = Some offset /\
    ft_files table !! offset = Some "/src/a.c".
Proof.
  pose proof (find_virtual_file_spec demo_table 0x1000 1 demo_table_wf) as H.
  change (find_virtual_file demo_table 0x1000 1) with (Ok (Some "/src/a.c") : res (option string)) in H.
  destruct H as (o & table & offset & H1 & _ & _ & H2 & H3). exists o, table, offset. split; [exact H1|]. split; assumption.
Defined.

(** The overflow is real: one [DW_LNS_advance_line] by the greatest signed operand. *)
Lemma advance_line_overflows :
  parse_line_table "overflow" (line_file (Byte.x03 :: encode_sleb 10 i64_max)) = Undef overflow.
Proof. vm_cast_no_check (@eq_refl (res DwarfLineTable) (Undef overflow)). Qed.
