(* ===== verification/LoaderReturns.v ===== *)
(** * Continuing with deferred breakpoints comes back to the user

    The loop that handles the stops of the dynamic loader is bounded by the events of the
    kernel, as the loops of the debugger are ([Termination]); the searches in the modules
    end because every parser does. *)

From S2P Require Import Prelude Machine SimKernel Process DebuggerState Debugger DebuggerWait Breakpoints Termination ByteReader ElfFormat ModuleMap Unwind UnwindProofs Loader LoaderProofs.
From S2P Require Ptrace Elf ElfProofs LineTable SourceLines LineTableProofs.

(** ** One turn of the event loop uses an event *)

Section Consumes.
Context `{K : Kernel} `{F : !FiniteEvents K} `{U : Allowed}.

Lemma consumes_bind_r {S A B} (wd : S -> world) n u (m : M S A) (f : A -> M S B) :
  returns wd n m -> (forall a, consumes wd n u (f a)) -> consumes wd n u (m ≫= f).
Proof.
  intros Hm Hf s Hs. specialize (Hm s Hs). unfold mbind, M_bind.
  destruct (m s) as [[a|e|w|] s1]; try done.
  specialize (Hf a s1 ltac:(lia)). destruct (f a s1) as [[]]; lia || done.
Qed.

(** What comes after a step that uses an event has one less. *)
Lemma consumes_bind_step {S A B} (wd : S -> world) n (m : M S A) (f : A -> M S B) :
  consumes wd (Datatypes.S n) 1 m -> (forall a, returns wd n (f a)) -> consumes wd (Datatypes.S n) 1 (m ≫= f).
Proof.
  intros Hm Hf s Hs. specialize (Hm s Hs). unfold mbind, M_bind.
  destruct (m s) as [[a|e|w|] s1]; try done.
  specialize (Hf a s1 ltac:(lia)). destruct (f a s1) as [[]]; lia || done.
Qed.

Lemma consumes_throw {S A} (wd : S -> world) n u c msg : consumes wd n u (mthrow c msg : M S A).
Proof. intros s Hs. simpl. lia. Qed.

Lemma wait_and_classify_consumes n k b : (k <= n)%nat -> consumes st_world k 1 (wait_and_classify n k b).
Proof.
  destruct k as [|k]; intros Hk; [intros s Hs; lia|]. cbn [wait_and_classify].
  apply consumes_bind_step; [apply (consumes_le _ n); [done|apply wait_active_consumes]|].
  intros event. apply returns_bind.
  - apply (consumes_le _ n); [lia|]. apply returns_classify.
  - intros [info|]; [auto with mret|]. apply (loop_returns n). lia.
Qed.

Variable n : nat.
Hint Resolve returns_kernel returns_get_debugger returns_upd returns_mark returns_stopped_tid returns_cont
  returns_singlestep returns_write_byte : mret.

Lemma resume_consumes request expected policy :
  (forall p s, returns (fun w : world => w) n (request p s)) -> consumes st_world n 1 (resume n request expected policy).
Proof.
  intros Hr. unfold resume. do 5 (apply consumes_bind_r; [auto with mret|intro]).
  by apply wait_and_classify_consumes.
Qed.

Lemma displaced_consumes b pending : consumes st_world n 1 (displaced_step n b pending).
Proof.
  unfold displaced_step. do 2 (apply consumes_bind_r; [auto with mret|intro]).
  apply consumes_bind_l; [by apply wait_and_classify_consumes|]. intros info.
  unfold reinsert_breakpoint, mark_installed. returns_auto.
Qed.

(** The optional that is dereferenced is not empty: the owner is checked in the same state. *)
Lemma owner_then_step pending b s :
  pending_breakpoint_step_ (st_debugger s) = Some pending ->
  (_ ← check_pending_owner pending; step_over_pending_breakpoint n b) s =
  (_ ← check_pending_owner pending; displaced_step n b pending) s.
Proof.
  intros Hp. unfold check_pending_owner, stopped_tid. mrun. rewrite !run_get. mrun.
  repeat (case_match; try done). mrun. unfold step_over_pending_breakpoint. by rewrite run_get, Hp.
Qed.

(** A call that, unless a displaced step is pending, goes on as [other]. *)
Lemma pending_consumes {A} b msg (after : StopInfo -> M dst A) (other : M dst A) :
  (forall info, returns st_world n (after info)) -> consumes st_world n 1 other ->
  consumes st_world n 1
    (d ← get_debugger;
     _ ← mthrow_if (bool_decide (state_ (process_ d) <> Stopped)) LogicError msg;
     match pending_breakpoint_step_ d with
     | Some pending => info ← (_ ← check_pending_owner pending; step_over_pending_breakpoint n b); after info
     | None => other
     end).
Proof.
  intros Ha Ho s Hs. rewrite run_get, run_throw_if. destruct (bool_decide _); [simpl; lia|].
  destruct (pending_breakpoint_step_ (st_debugger s)) as [pending|] eqn:Hp; [|by apply Ho].
  unfold mbind at 1, M_bind at 1. rewrite (owner_then_step pending b s Hp).
  change (match ((_ ← check_pending_owner pending; displaced_step n b pending) ≫= after) s with
    | (Ok _, s') => (budget (st_world s') + 1 <= budget (st_world s))%nat
    | (Throw _, s') => (budget (st_world s') <= budget (st_world s))%nat
    | (Undef what, _) => allowed what | (OutOfFuel, _) => False end).
  refine (consumes_bind_l st_world n 1 _ after _ Ha s Hs).
  apply consumes_bind_r; [unfold check_pending_owner; returns_auto|intro]. apply displaced_consumes.
Qed.

(** The debugger's [continue_execution] reports an event of the kernel. *)
Lemma continue_consumes policy : consumes st_world n 1 (DebuggerWait.continue_execution n policy).
Proof.
  assert (Hr : consumes st_world n 1 (resume n Ptrace.continue_process false policy))
    by (apply resume_consumes; auto with mret).
  assert (Ha : forall internal, returns st_world n
    (if bool_decide (si_reason internal <> SingleStep) then mret internal else resume n Ptrace.continue_process false policy))
    by (intros; case_bool_decide; [auto with mret|by apply (consumes_returns _ _ 1)]).
  intros s Hs. pose proof (pending_consumes false "continue requires a stopped tracee" _ _ Ha Hr s Hs) as H.
  revert H. unfold DebuggerWait.continue_execution. rewrite !run_get, !run_throw_if.
  destruct (bool_decide _); [done|]. destruct (pending_breakpoint_step_ _); [|done]. by rewrite run_assoc.
Qed.
End Consumes.

(** ** The searches in the modules return *)

(** The one undefined behaviour of the searches: the line register of a crafted line table. *)
Definition line_overflow : Allowed := fun what => what = LineTableProofs.overflow.

Section Searches.
Context `{H : Host} `{FI : FileIdentity} `{K : Kernel} `{F : !FiniteEvents K} `{PM : !ProcMaps K}.
#[local] Existing Instance line_overflow.
Hypothesis files_sized : forall path bytes, h_file path = FileBytes bytes -> ElfProofs.file_sized bytes.
Variable n : nat.

Notation wreturns := (returns (fun w : world => w) n).

Lemma settles_returns {A} (r : res A) : settles r -> wreturns (lift r).
Proof. intros Hr. by apply returns_lift, settles_admissible. Qed.

Lemma returns_load_bias elf pid : wreturns (Elf.load_bias elf pid).
Proof.
  apply returns_same; intros w; destruct (load_bias_same elf pid w) as (r & -> & Hr); [done|by destruct r].
Qed.

Lemma returns_module_paths pid : wreturns (mapped_module_paths pid).
Proof. apply returns_same; intros w; unfold mapped_module_paths; by destruct (k_maps pid w). Qed.

Lemma module_elf_settles path elf : settles (module_elf path elf).
Proof.
  unfold module_elf. destruct (negb _); [|done]. pose proof (open_elf_settles files_sized path) as Ho.
  by destruct (Elf.open_elf path).
Qed.

Lemma returns_module_lines elf : wreturns (lift (module_lines elf)).
Proof.
  apply returns_lift. unfold module_lines, LineTable.open_line_table, LineTable.read_file.
  destruct (h_file _) as [| | |bytes] eqn:E; try done. cbn [mbind res_bind].
  assert (Hs : size_of bytes <= i64_max) by (by eapply files_sized).
  pose proof (LineTableProofs.parse_line_table_outcome (Elf.elf_path elf) bytes Hs) as Ho.
  by destruct (LineTable.parse_line_table _ _).
Qed.

Lemma returns_find_virtual_source t file line : wreturns (lift (SourceLines.find_virtual_source t file line)).
Proof.
  apply settles_returns. unfold SourceLines.find_virtual_source. destruct (_ || _); [done|].
  apply settles_bind; [|done]. generalize (SourceLines.mkQuery None None).
  induction (LineTable.ranges t) as [|range l IH]; intros q; [done|]. cbn [Elf.res_fold].
  apply settles_bind; [|intros q' _; apply IH]. unfold SourceLines.source_step. cbv zeta.
  destruct (negb _); [done|]. destruct (negb _); [done|].
  apply settles_bind; [|intros matched _; done]. destruct (SourceLines.qualified_query file); [done|].
  by apply settles_bind; [apply settles_throw_if|].
Qed.

Hint Resolve returns_load_bias returns_module_paths returns_module_lines returns_find_virtual_source : mret.

Lemma returns_module_elf path elf : wreturns (lift (module_elf path elf)).
Proof. apply settles_returns, module_elf_settles. Qed.
Hint Resolve returns_module_elf : mret.

Lemma returns_unique_candidate {A} (candidate : string -> M world (option A)) message result paths :
  (forall path, wreturns (candidate path)) -> wreturns (unique_candidate candidate message result paths).
Proof.
  intros Hc. revert result. induction paths as [|path paths IH]; intros result; cbn [unique_candidate]; [auto with mret|].
  apply returns_bind; [done|]. intros [found|]; [|done]. apply returns_bind; [auto with mret|done].
Qed.

Lemma returns_find_symbol pid name elf : wreturns (find_module_symbol_by_name pid name elf).
Proof.
  unfold find_module_symbol_by_name. destruct (String.eqb _ _); [auto with mret|].
  apply returns_bind; [auto with mret|]. intros paths. apply returns_unique_candidate. intros path.
  unfold symbol_address_in_module, Elf.runtime_address. returns_auto.
Qed.

Lemma returns_find_source pid file line elf : wreturns (find_module_source_by_file_line pid file line elf).
Proof.
  unfold find_module_source_by_file_line. destruct (_ || _); [auto with mret|].
  apply returns_bind; [auto with mret|]. intros paths. apply returns_unique_candidate. intros path.
  unfold source_address_in_module, SourceLines.find_runtime_source, LineTable.find_runtime_address. returns_auto.
Qed.

Lemma returns_read_memory_loop fuel pid a len off : len - off <= 8 * Z.of_nat fuel ->
  wreturns (Ptrace.read_memory_loop fuel pid a len off).
Proof.
  revert off. induction fuel as [|fuel IH]; intros off Hf; cbn [Ptrace.read_memory_loop];
    (destruct (Z.ltb_spec off len); [|auto with mret]); [lia|].
  apply returns_bind; [apply returns_peek|]. intros w. apply returns_bind; [apply IH; lia|auto with mret].
Qed.

Lemma returns_read_memory a len : 0 <= len -> returns st_world n (read_memory a len).
Proof.
  intros Hl. unfold read_memory. apply returns_bind; [apply returns_stopped_tid|]. intros tid.
  apply returns_kernel, returns_read_memory_loop. lia.
Qed.

(** ** The methods of the controller *)

Notation lreturns := (returns (fun s : lst => st_world (ls_dst s)) n).

Lemma consumes_on_debugger {A} k u (m : M dst A) :
  consumes st_world k u m -> consumes (fun s : lst => st_world (ls_dst s)) k u (on_debugger m).
Proof.
  intros Hm s Hs. specialize (Hm (ls_dst s) Hs). unfold on_debugger, zoom. by destruct (m (ls_dst s)) as [[] d].
Qed.

Lemma returns_on_debugger {A} (m : M dst A) : returns st_world n m -> lreturns (on_debugger m).
Proof. apply consumes_on_debugger. Qed.
Lemma returns_object : lreturns get_object.
Proof. by apply returns_same. Qed.
Lemma returns_upd_object f : lreturns (upd_object f).
Proof. by apply returns_same. Qed.
Hint Resolve returns_on_debugger returns_object returns_upd_object returns_kernel returns_get_debugger returns_upd
  returns_upd_debugger returns_stopped_tid returns_write_byte returns_find_symbol returns_find_source : mret.
Hint Extern 4 (returns st_world _ (read_memory _ _)) => (apply returns_read_memory; done) : mret.

Lemma returns_read_byte pid a : wreturns (Ptrace.read_byte pid a).
Proof. unfold Ptrace.read_byte. apply returns_bind; [apply returns_peek|auto with mret]. Qed.
Hint Resolve returns_read_byte : mret.

Lemma returns_add_breakpoint a : returns st_world n (add_breakpoint a).
Proof. unfold add_breakpoint. returns_auto. Qed.
Lemma returns_remove_breakpoint id : returns st_world n (remove_breakpoint id).
Proof. unfold remove_breakpoint, forget_breakpoint. returns_auto. Qed.
Lemma returns_discard_breakpoint id : returns st_world n (discard_breakpoint id).
Proof. unfold discard_breakpoint, forget_breakpoint. returns_auto. Qed.
Hint Resolve returns_add_breakpoint returns_remove_breakpoint returns_discard_breakpoint : mret.

Lemma returns_runtime_address o va : returns st_world n (runtime_address o va).
Proof. unfold runtime_address, load_bias, debugger_pid. returns_auto. Qed.
Lemma returns_resolve_target o t : returns st_world n (resolve_target o t).
Proof. unfold resolve_target, debugger_pid. returns_auto. Qed.
Hint Resolve returns_runtime_address returns_resolve_target : mret.
Lemma returns_r_debug_address o : returns st_world n (current_r_debug_address o).
Proof. unfold current_r_debug_address, read_u64. returns_auto. Qed.
Lemma returns_loader_break o : returns st_world n (current_loader_break_address o).
Proof. unfold current_loader_break_address. returns_auto. Qed.
Lemma returns_consistent o : returns st_world n (loader_state_is_consistent o).
Proof. unfold loader_state_is_consistent. returns_auto. Qed.
Hint Resolve returns_r_debug_address returns_loader_break returns_consistent : mret.

Lemma returns_try_install : lreturns try_install_loader_breakpoint.
Proof. unfold try_install_loader_breakpoint, install_internal. returns_auto. Qed.
Hint Resolve returns_try_install : mret.
Lemma returns_ensure : lreturns ensure_monitoring.
Proof. unfold ensure_monitoring, install_bootstrap_breakpoint, install_internal. returns_auto. Qed.
Lemma returns_remove_internal i : lreturns (remove_internal_breakpoint i).
Proof.
  unfold remove_internal_breakpoint. apply returns_bind; [auto with mret|]. intros o.
  destruct (internal_id i o); [|auto with mret]. apply returns_bind; [|auto with mret].
  apply returns_catch; [|auto with mret]. apply returns_on_debugger. unfold debugger_state. returns_auto.
Qed.
Hint Resolve returns_remove_internal : mret.
Lemma returns_suspend : lreturns suspend_monitoring.
Proof. unfold suspend_monitoring. returns_auto. Qed.
Lemma returns_reconcile : lreturns reconcile_requests.
Proof. unfold reconcile_requests, reconcile_request, keep_or_discard, upd_request. returns_auto. Qed.
Hint Resolve returns_suspend returns_reconcile : mret.
Lemma returns_handle stop : lreturns (handle_internal_stop stop).
Proof. unfold handle_internal_stop, reconcile_if_consistent. returns_auto. Qed.
End Searches.

(** ** The loop *)

Section Loop.
Context `{H : Host} `{FI : FileIdentity} `{K : Kernel} `{F : !FiniteEvents K} `{PM : !ProcMaps K}.
#[local] Existing Instance line_overflow.
Hypothesis files_sized : forall path bytes, h_file path = FileBytes bytes -> ElfProofs.file_sized bytes.
Variable n : nat.

Lemma returns_continue_loop k policy : (k <= n)%nat ->
  returns (fun s : lst => st_world (ls_dst s)) k (continue_loop n k policy).
Proof.
  revert policy. induction k as [|k IH]; intros policy Hk; [intros s Hs; lia|]. cbn [continue_loop].
  apply returns_bind_step.
  - apply consumes_on_debugger, (consumes_le _ n); [done|apply continue_consumes].
  - intros stop. apply returns_bind; [apply returns_object|]. intros o. destruct (negb _).
    + apply returns_bind; [apply (consumes_le _ n); [lia|apply returns_suspend]|auto with mret].
    + apply returns_bind; [apply (consumes_le _ n); [lia|by apply returns_handle]|]. intros _. apply IH. lia.
Qed.

(** A stop at one of the controller's own breakpoints. *)
Definition own_stop (o : DeferredBreakpoints) (stop : StopInfo) : Prop :=
  si_reason stop = BreakpointStop /\ exists address, si_breakpoint_address stop = Some address /\
    (bootstrap_breakpoint_address_ o = Some address \/ loader_breakpoint_address_ o = Some address).

Lemma is_internal_stop_spec o stop : is_internal_stop o stop = true <-> own_stop o stop.
Proof.
  unfold is_internal_stop, own_stop. destruct (decide (si_reason stop = BreakpointStop)) as [Hr|Hr].
  2: { rewrite bool_decide_true by done. split; [done|]. by intros [? _]. }
  rewrite (bool_decide_false (si_reason stop <> _)) by auto. destruct (si_breakpoint_address stop) as [a|]; simpl.
  2: { split; [done|]. by intros (_ & ? & [=] & _). }
  rewrite orb_true_iff, !andb_true_iff, !bool_decide_eq_true. split.
  - intros [[_ H1]|[_ H1]]; (split; [done|]; exists a; auto).
  - intros (_ & a' & [= <-] & [->| ->]); [left|right]; (split; [by eexists|done]).
Qed.

(** The process runs to a stop of the controller's, which handles it; and so on.  The first
    time a signal is passed on by the user's policy, then none is. *)
Inductive handled : SignalPolicy -> lst -> SignalPolicy -> lst -> Prop :=
  | handled_none policy s : handled policy s policy s
  | handled_stop policy s stop s1 s2 policy' s' :
      on_debugger (DebuggerWait.continue_execution n policy) s = (Ok stop, s1) -> own_stop (ls_object s1) stop ->
      handle_internal_stop stop s1 = (Ok tt, s2) -> handled Suppress s2 policy' s' -> handled policy s policy' s'.

(** The process ran to a stop that is not the controller's; its breakpoints are then removed. *)
Definition last_run (policy : SignalPolicy) (s : lst) (stop : StopInfo) (s' : lst) : Prop :=
  exists s1, on_debugger (DebuggerWait.continue_execution n policy) s = (Ok stop, s1) /\ ~ own_stop (ls_object s1) stop /\
    suspend_monitoring s1 = (Ok tt, s') /\ ls_object s' = no_internal (ls_object s1).

Lemma continue_loop_handled k policy s stop s' :
  continue_loop n k policy s = (Ok stop, s') ->
  exists policy' s1, handled policy s policy' s1 /\ last_run policy' s1 stop s'.
Proof.
  revert policy s. induction k as [|k IH]; intros policy s; [done|]. cbn [continue_loop].
  intros (stop1 & s1 & E1 & E)%bind_M_Ok. unfold get_object in E. rewrite run_gets in E.
  destruct (is_internal_stop (ls_object s1) stop1) eqn:Hi; cbn [negb] in E.
  - apply bind_M_Ok in E as ([] & s2 & E2 & E). apply IH in E as (policy' & s3 & Hh & Hl). exists policy', s3.
    split; [|done]. by apply (handled_stop policy s stop1 s1 s2); [|apply is_internal_stop_spec|..].
  - apply bind_M_Ok in E as ([] & s2 & E2 & E). injection E as <- <-. exists policy, s. split; [constructor|].
    exists s1. split; [done|]. split; [by rewrite <- is_internal_stop_spec, Hi|]. split; [done|].
    pose proof (suspend_post (ls_object s1) s1 eq_refl) as [_ Ho]. by rewrite E2 in Ho.
Qed.

(** C13: on a kernel that reports finitely many events, with files smaller than the address space,
    continuing with deferred breakpoints comes back in a stop, an exception or the overflow of a
    crafted line table.  A stop comes after the monitoring was set up and any number of runs to
    the controller's own breakpoints, each handled; the last run ended at the stop that is
    returned, which is at none of the addresses the controller has its breakpoints at then, and
    these are removed.  The controller is well formed in every case and asks for the same targets. *)
Theorem continue_execution_comes_back bound policy s :
  (budget (st_world (ls_dst s)) < n)%nat -> wf_deferred bound (ls_object s) ->
  let '(r, s') := continue_execution n policy s in
  wf_deferred bound (ls_object s') /\ targets (ls_object s') = targets (ls_object s) /\
  match r with
  | Ok stop => exists s0 policy' s1, ensure_monitoring s = (Ok tt, s0) /\ handled policy s0 policy' s1 /\
      last_run policy' s1 stop s'
  | Throw _ => True
  | Undef what => what = LineTableProofs.overflow
  | OutOfFuel => False
  end.
Proof.
  intros Hn Hw.
  assert (Hr : returns (fun s : lst => st_world (ls_dst s)) n (continue_execution n policy)).
  { apply returns_bind; [by apply returns_ensure|]. intros _. by apply returns_continue_loop. }
  pose proof (continue_post n bound policy (ls_object s) Hw s eq_refl) as [[H1 H3] _]. specialize (Hr s Hn).
  destruct (continue_execution n policy s) as [r s'] eqn:E. split; [done|]. split; [done|].
  destruct r as [stop|e|w|]; try done. apply bind_M_Ok in E as ([] & s0 & E0 & E).
  apply continue_loop_handled in E as (policy' & s1 & Hh & Hl). by exists s0, policy', s1.
Qed.
End Loop.

(** ** A program that loads a library: one pending symbol, one stop of the loader, then the end *)

Definition demo_loader_file : list byte :=
  le_split 8 0x00010102464c457f ++ le_split 8 0 ++ le_split 2 ET_EXEC ++ le_split 2 EM_X86_64 ++ le_split 4 1 ++
  le_split 8 0x1000 ++ le_split 8 64 ++ le_split 8 0 ++ le_split 4 0 ++ le_split 2 64 ++ le_split 2 56 ++ le_split 2 1 ++
  le_split 2 0 ++ le_split 2 0 ++ le_split 2 0 ++
  (* the dynamic segment, and its entries *)
  le_split 4 PT_DYNAMIC ++ le_split 4 6 ++ le_split 8 120 ++ le_split 8 0x2000 ++ le_split 8 0x2000 ++ le_split 8 32 ++
  le_split 8 32 ++ le_split 8 8 ++
  le_split 8 DT_DEBUG ++ le_split 8 0 ++ le_split 8 DT_NULL ++ le_split 8 0.

Definition DemoLoaderFiles : FileAccess := {|
  f_stream _ := None;
  f_size _ := Some (Some (size_of demo_loader_file));
  f_read_at _ o n := if o + n <=? size_of demo_loader_file then Some (bytes_at demo_loader_file o n) else None
|}.

Definition demo_controller : DeferredBreakpoints :=
  mkDeferredBreakpoints demo_tracee_elf (mkLoaderMetadata 0x1000 0x2008) ∅ 1 None None None None None.

Lemma demo_controller_new : new_deferred_breakpoints (F := DemoLoaderFiles) demo_tracee_elf = Ok demo_controller.
Proof. vm_compute. reflexivity. Qed.

(** The rendezvous at 0x2100 names the function at 0x1008 of the loader. *)
Definition demo_loader_dst : dst (K := SimKernel) :=
  mkSt (new_debugger demo_tracee demo_stop "/bin/tracee")
    (sim_init (sim_store (sim_store (sim_mapped 0x1000 (repeat Byte.x90 32)) 0x2000 (le_split 8 DT_DEBUG ++ le_split 8 0x2100))
       0x2100 (le_split 8 1 ++ le_split 8 0 ++ le_split 8 0x1008 ++ le_split 8 RT_CONSISTENT ++ le_split 8 0))
      [mkEvent 100 (stop_status SIGTRAP 0) (Some (set_rip zero_regs 0x1009));
       mkEvent 100 (stop_status SIGTRAP 0) (Some (set_rip zero_regs 0x1009)); mkEvent 100 (exit_status 3) None]) 1.

Definition demo_add : res unit * lst (K := SimKernel) :=
  run_loader_op (H := DemoHost) (FI := DemoIdentity) (PM := DemoMaps) 9 (LoaderAddSymbol "late") (mkLst demo_controller demo_loader_dst).

Definition demo_continue : res StopInfo * lst (K := SimKernel) :=
  continue_execution (H := DemoHost) (FI := DemoIdentity) (PM := DemoMaps) 9 Suppress (snd demo_add).

Example demo_added : fst demo_add = Ok tt /\ loader_breakpoint_address_ (ls_object (snd demo_add)) = Some 0x1008.
Proof. vm_compute. done. Qed.
Example demo_continued :
  match fst demo_continue with Ok stop => si_reason stop = ExitedStop /\ si_value stop = 3 | _ => False end.
Proof. vm_compute. done. Qed.

Lemma controls_wf_witness :
  (requests_ (ls_object (snd demo_add)) !! 1) = Some (mkDeferred 1 (mkTarget TargetSymbol "late" 0) None None) /\
  wf_deferred 2 (ls_object (snd demo_add)).
Proof.
  split; [vm_compute; reflexivity|].
  apply (controls_wf (F := DemoLoaderFiles) (H := DemoHost) (FI := DemoIdentity) (PM := DemoMaps) 1).
  - apply (controls_op (F := DemoLoaderFiles) 0 demo_controller 9 (LoaderAddSymbol "late") demo_loader_dst).
    apply (controls_new demo_tracee_elf), demo_controller_new.
  - vm_compute. discriminate.
Defined.

Lemma demo_add_wf : wf_deferred 2 (ls_object (snd demo_add)).
Proof.
  apply (run_loader_op_post (H := DemoHost) (FI := DemoIdentity) (PM := DemoMaps) 1 9 (LoaderAddSymbol "late") demo_controller);
    [|done|done].
  split; [simpl; lia|apply wf_requests_empty|]. split; [by intros [] []|by intros []|by left].
Qed.

Lemma continue_execution_comes_back_witness :
  let '(r, s') := demo_continue in
  wf_deferred 2 (ls_object s') /\ targets (ls_object s') = targets (ls_object (snd demo_add)) /\
  match r with
  | Ok stop => exists s0 policy s1,
      ensure_monitoring (H := DemoHost) (PM := DemoMaps) (snd demo_add) = (Ok tt, s0) /\
      handled (H := DemoHost) (FI := DemoIdentity) (PM := DemoMaps) 9 Suppress s0 policy s1 /\
      last_run (K := SimKernel) 9 policy s1 stop s'
  | Throw _ => True
  | Undef what => what = LineTableProofs.overflow
  | OutOfFuel => False
  end.
Proof.
  unfold demo_continue.
  apply (continue_execution_comes_back (H := DemoHost) (FI := DemoIdentity) (PM := DemoMaps) (F := SimFiniteEvents)).
  - intros path bytes Hb. discriminate Hb.
  - vm_compute. lia.
  - exact demo_add_wf.
Defined.
