(* ===== verification/SourceStep.v ===== *)
(** * Stepping by source line ([src/source/source_step.cpp], [src/source/source_finish.cpp])

    [step_source] and [next_source]: instructions are stepped until the line changes; [next_source]
    runs over the near calls it recognises with a temporary breakpoint at the return address;
    [finish_frame] runs to the end of the function. *)

From S2P Require Import Prelude Machine CallDecoder Process DebuggerState Debugger DebuggerWait ByteReader ElfFormat LineTable ModuleMap EhFrame Unwind.
From S2P Require Elf.

(* src/source/source_step.hpp:13-13 SourceStepStopReason *)
Inductive SourceStepStopReason := LineChanged | Interrupted | InstructionLimit.
#[export] Instance SourceStepStopReason_eq_dec : EqDecision SourceStepStopReason.
Proof. solve_decision. Defined.

(* src/source/source_step.hpp:15-21 SourceStepResult *)
Record SourceStepResult := mkStepResult {
  ss_reason : SourceStepStopReason;
  ss_stop : StopInfo;
  ss_source : option SourceLocation;
  ss_instructions : Z;
  ss_source_module_path : option string
}.

(* src/source/source_step.cpp:13-16 ModuleSourcePosition *)
Record ModuleSourcePosition := mkPosition { mp_module_path : string; mp_source : SourceLocation }.

(* src/source/source_step.cpp:18-20 same_source_line *)
Definition same_location_line (left right : SourceLocation) : bool :=
  String.eqb (loc_file left) (loc_file right) && (loc_line left =? loc_line right).

(* src/source/source_step.cpp:22-26 same_source_line *)
Definition same_source_line (left right : ModuleSourcePosition) : bool :=
  String.eqb (mp_module_path left) (mp_module_path right) && same_location_line (mp_source left) (mp_source right).

(** The line is known and is not the one the step began on. *)
(* src/source/source_step.cpp:118-118 step_source *)
Definition line_changed (start : ModuleSourcePosition) (source : option ModuleSourcePosition) : bool :=
  match source with
  | Some source => negb (same_source_line source start)
  | None => false
  end.

(* src/source/source_step.cpp:119-120 step_source *)
Definition step_result (reason : SourceStepStopReason) (stop : StopInfo) (source : option ModuleSourcePosition)
    (instructions : Z) : SourceStepResult :=
  mkStepResult reason stop (mp_source <$> source) instructions (mp_module_path <$> source).

(* src/source/source_step.cpp:73-78 has_breakpoint_at *)
Definition has_breakpoint_at (d : debugger) (address : Z) : bool :=
  existsb (fun breakpoint => bp_address breakpoint =? address) (breakpoints d).

Section Motion.
Context `{H : Host} `{FI : FileIdentity} `{K : Kernel} `{PM : !ProcMaps K}.
Variable fuel : nat.

(* src/source/source_step.cpp:28-38 current_module_source *)
Definition current_module_source (elf : Elf.ElfFile) : M dst (option ModuleSourcePosition) :=
  d ← get_debugger;
  if bool_decide (state_ (process_ d) <> Stopped) then mret None
  else
    regs ← registers;
    resolved ← kernel (find_module_source_by_runtime_address (pid_ (process_ d)) (rip regs) elf);
    mret ((fun resolved => mkPosition (mo_module_path resolved)
             (mkLocation (mo_file resolved) (mo_line resolved) (mo_column resolved))) <$> resolved).

(** The byte at an offset from the instruction pointer. *)
(* src/source/source_step.cpp:56-64 supported_call_return_address *)
Definition instruction_byte (rip : Z) : ByteReader (M := M dst) := fun offset =>
  if u64_max - rip <? offset then mret None
  else
    bytes ← read_memory (u64 (rip + offset)) 1;
    mret (byte_val <$> head bytes).

(* src/source/source_step.cpp:52-71 supported_call_return_address *)
Definition supported_call_return_address : M dst (option Z) :=
  regs ← registers;
  instruction_length ← decode_supported_near_call_length (instruction_byte (rip regs));
  match instruction_length with
  | None => mret None
  | Some length =>
    _ ← mthrow_if (u64_max - length <? rip regs) RuntimeError "call return address overflows address space";
    mret (Some (rip regs + length))
  end.

(* src/source/source_step.cpp:80-86 remove_temporary_breakpoint *)
Definition remove_temporary_breakpoint (what : string) (id : option Z) : M dst unit :=
  match id with
  | None => mskip
  | Some id =>
    removed ← remove_breakpoint id;
    mthrow_if (negb removed) LogicError what
  end.

(* src/source/source_step.cpp:88-97 validate_source_motion *)
Definition validate_source_motion (instruction_limit : Z) (operation : string) : M dst unit :=
  _ ← mthrow_if (instruction_limit =? 0) InvalidArgument (operation +:+ " instruction limit must be positive");
  d ← get_debugger;
  mthrow_if (bool_decide (state_ (process_ d) <> Stopped)) LogicError (operation +:+ " requires a stopped tracee").

(* src/source/source_step.cpp:147-150 next_source *)
Definition set_temporary_breakpoint (user_breakpoint : bool) (address : Z) : M dst (option Z) :=
  if user_breakpoint then mret None
  else
    id ← add_breakpoint address;
    mret (Some id).

(** The run; the temporary breakpoint goes when it fails. *)
(* src/source/source_step.cpp:152-163 next_source *)
Definition continue_with_temporary (what : string) (temporary_breakpoint : option Z) : M dst StopInfo :=
  mon_throw (continue_execution fuel Suppress)
    (d ← get_debugger;
     mwhen (bool_decide (is_Some temporary_breakpoint) && bool_decide (state_ (process_ d) <> Running))
       (mtry (remove_temporary_breakpoint what temporary_breakpoint))).

(** A temporary breakpoint at [address], unless the user has one there; a run to the next stop; and
    the breakpoint is taken away.  Returns the stop, whether it is at [address] and whether the
    breakpoint there is the user's. *)
(* src/source/source_step.cpp:146-169 next_source *)
Definition run_to (what : string) (address : Z) : M dst (StopInfo * bool * bool) :=
  d ← get_debugger;
  let user_breakpoint := has_breakpoint_at d address in
  temporary_breakpoint ← set_temporary_breakpoint user_breakpoint address;
  stop ← continue_with_temporary what temporary_breakpoint;
  let returned := bool_decide (si_reason stop = BreakpointStop) &&
                  bool_decide (si_breakpoint_address stop = Some address) in
  _ ← remove_temporary_breakpoint what temporary_breakpoint;
  mret (stop, returned, user_breakpoint).

(** The position the motion begins at. *)
(* src/source/source_step.cpp:105-108 step_source *)
Definition start_position (elf : Elf.ElfFile) : M dst ModuleSourcePosition :=
  start ← current_module_source elf;
  match start with
  | None => mthrow InvalidArgument "current instruction has no source location"
  | Some start => mret start
  end.

(** [debugger.single_step()] and what comes of it; [None]: the loop goes on. *)
(* src/source/source_step.cpp:111-121 step_source *)
Definition step_instruction (elf : Elf.ElfFile) (start : ModuleSourcePosition) (instructions : Z)
    : M dst (option SourceStepResult) :=
  stop ← single_step fuel Suppress;
  source ← current_module_source elf;
  if bool_decide (si_reason stop <> SingleStep) then mret (Some (step_result Interrupted stop source instructions))
  else if line_changed start source then mret (Some (step_result LineChanged stop source instructions))
  else mret None.

(** The result when the limit is reached. *)
(* src/source/source_step.cpp:124-126 step_source *)
Definition limit_result (elf : Elf.ElfFile) (instruction_limit : Z) : M dst SourceStepResult :=
  source ← current_module_source elf;
  d ← get_debugger;
  mret (step_result InstructionLimit (stop_info_ d) source instruction_limit).

(** The loop of both motions: [n] turns are left, [instruction_limit - n] done. *)
(* src/source/source_step.cpp:110-127 step_source *)
Fixpoint motion_loop (turn : Z -> M dst (option SourceStepResult)) (n : nat) (elf : Elf.ElfFile)
    (instruction_limit : Z) : M dst SourceStepResult :=
  match n with
  | O => limit_result elf instruction_limit
  | S n' =>
    result ← turn (instruction_limit - Z.of_nat n');
    match result with
    | Some result => mret result
    | None => motion_loop turn n' elf instruction_limit
    end
  end.

(* src/source/source_step.cpp:101-127 step_source *)
Definition step_source (elf : Elf.ElfFile) (instruction_limit : Z) : M dst SourceStepResult :=
  _ ← validate_source_motion instruction_limit "source step";
  start ← start_position elf;
  motion_loop (step_instruction elf start) (Z.to_nat instruction_limit) elf instruction_limit.

(** One turn of [next_source]. *)
(* src/source/source_step.cpp:145-192 next_source *)
Definition next_instruction (elf : Elf.ElfFile) (start : ModuleSourcePosition) (instructions : Z)
    : M dst (option SourceStepResult) :=
  return_address ← supported_call_return_address;
  match return_address with
  | Some return_address =>
    '(stop, returned, user_breakpoint) ← run_to "temporary next breakpoint disappeared" return_address;
    source ← current_module_source elf;
    if negb returned || user_breakpoint then mret (Some (step_result Interrupted stop source instructions))
    else if line_changed start source then mret (Some (step_result LineChanged stop source instructions))
    else mret None
  | None => step_instruction elf start instructions
  end.

(* src/source/source_step.cpp:135-198 next_source *)
Definition next_source (elf : Elf.ElfFile) (instruction_limit : Z) : M dst SourceStepResult :=
  _ ← validate_source_motion instruction_limit "source next";
  start ← start_position elf;
  motion_loop (next_instruction elf start) (Z.to_nat instruction_limit) elf instruction_limit.
End Motion.

(** ** Running to the end of a function ([src/source/source_finish.cpp])

    The return address comes from the call-frame information of the module, else from the
    frame-pointer record; the run to it is the one of [next_source]. *)

(* src/source/source_finish.hpp:9-9 FinishStopReason *)
Inductive FinishStopReason := Returned | FinishInterrupted.
#[export] Instance FinishStopReason_eq_dec : EqDecision FinishStopReason.
Proof. solve_decision. Defined.

(* src/source/source_finish.hpp:11-15 FinishResult *)
Record FinishResult := mkFinishResult { fr_reason : FinishStopReason; fr_stop : StopInfo; fr_return_address : Z }.

(* src/source/source_finish.cpp:21-21 kMaxFrameSpan *)
Definition kMaxFrameSpan : Z := 16 * 1024 * 1024.

Section Finish.
Context `{H : Host} `{FI : FileIdentity} `{K : Kernel} `{PM : !ProcMaps K}.
Variable fuel : nat.

(* src/source/source_finish.cpp:32-39 process_executable *)
Definition tracee_executable (pid : Z) : M world string := fun w =>
  match k_exe pid w with
  | Some path => (Ok path, w)
  | None => (runtime_error "failed to resolve tracee executable for finish", w)
  end.

(** The record at the frame pointer; only errors of [ptrace] are caught. *)
(* src/source/source_finish.cpp:60-65 frame_pointer_return_address *)
Definition read_frame_record (frame_pointer : Z) : M dst (list byte) :=
  mcatch (read_memory frame_pointer 16)
    (fun e => if is_ptrace_error e then mthrow InvalidArgument "finish frame record is unreadable" else lift (Throw e)).

(* src/source/source_finish.cpp:72-77 frame_pointer_return_address *)
Definition bad_previous_frame (frame_pointer previous_frame : Z) : bool :=
  negb (previous_frame =? 0) &&
  (negb (previous_frame mod 8 =? 0) || (previous_frame <=? frame_pointer) ||
   (kMaxFrameSpan <? previous_frame - frame_pointer)).

(* src/source/source_finish.cpp:41-79 frame_pointer_return_address *)
Definition frame_pointer_return_address : M dst Z :=
  d ← get_debugger;
  _ ← mthrow_if (bool_decide (state_ (process_ d) <> Stopped)) LogicError "finish requires a stopped tracee";
  regs ← registers;
  let frame_pointer := rbp regs in
  _ ← mthrow_if (frame_pointer =? 0) InvalidArgument "finish requires a non-zero frame pointer";
  _ ← mthrow_if (negb (frame_pointer mod 8 =? 0)) InvalidArgument "finish requires an aligned frame pointer";
  _ ← mthrow_if (u64_max - 16 <? frame_pointer) InvalidArgument "finish frame record overflows address space";
  frame_data ← read_frame_record frame_pointer;
  let previous_frame := le_at frame_data 0 8 in
  let return_address := le_at frame_data 8 8 in
  _ ← mthrow_if (return_address =? 0) InvalidArgument "finish frame has no return address";
  _ ← mthrow_if (bad_previous_frame frame_pointer previous_frame) InvalidArgument
        "finish encountered an invalid frame-pointer chain";
  mret return_address.

(* src/source/source_finish.cpp:81-93 automatic_return_address *)
Definition automatic_return_address : M dst Z :=
  d ← get_debugger;
  _ ← mthrow_if (bool_decide (state_ (process_ d) <> Stopped)) LogicError "finish requires a stopped tracee";
  executable ← kernel (tracee_executable (pid_ (process_ d)));
  elf ← lift (Elf.open_elf executable);
  cfi ← lift (open_eh_frame executable);
  found ← module_caller_return_address elf cfi;
  match found with
  | Some return_address => mret return_address
  | None => frame_pointer_return_address
  end.

(* src/source/source_finish.cpp:110-138 run_to_return_address *)
Definition run_to_return_address (return_address : Z) : M dst FinishResult :=
  '(stop, returned, user_breakpoint) ← run_to fuel "temporary finish breakpoint disappeared" return_address;
  mret (mkFinishResult (if returned && negb user_breakpoint then Returned else FinishInterrupted) stop return_address).

(* src/source/source_finish.cpp:142-144 finish_frame *)
Definition finish_frame : M dst FinishResult :=
  return_address ← automatic_return_address;
  run_to_return_address return_address.

(* src/source/source_finish.cpp:146-148 finish_frame_pointer *)
Definition finish_frame_pointer : M dst FinishResult :=
  return_address ← frame_pointer_return_address;
  run_to_return_address return_address.
End Finish.
