(* ===== verification/SourceMotionProofs.v ===== *)
(** * Source motion

    Stepping comes back with the reason it says; a run to a return address leaves no temporary
    breakpoint behind. *)

From S2P Require Import Prelude Machine SimKernel CallDecoder Process DebuggerState Debugger DebuggerWait DebuggerInvariants DebuggerReach Breakpoints Termination ByteReader ElfFormat LineTable EhFrame ModuleMap Unwind UnwindProofs Loader LoaderReturns SourceStep.
From S2P Require Ptrace Elf ElfProofs LineTableProofs.

(** ** Stepping comes back *)

Section Returns.
Context `{H : Host} `{FI : FileIdentity} `{K : Kernel} `{F : !FiniteEvents K} `{PM : !ProcMaps K}.
#[local] Existing Instance line_overflow.
Hypothesis files_sized : forall path bytes, h_file path = FileBytes bytes -> ElfProofs.file_sized bytes.
Variable n : nat.

Notation wreturns := (returns (fun w : world => w)).
Notation dreturns := (returns st_world).

Lemma returns_line_table k path : wreturns k (lift (LineTable.open_line_table path)).
Proof.
  apply returns_lift. unfold LineTable.open_line_table, LineTable.read_file.
  destruct (h_file path) as [| | |bytes] eqn:E; try done. cbn [mbind res_bind].
  assert (Hs : size_of bytes <= i64_max) by (by eapply files_sized).
  pose proof (LineTableProofs.parse_line_table_outcome path bytes Hs) as Ho.
  by destruct (LineTable.parse_line_table _ _).
Qed.

Lemma returns_find_module_source k pid address elf : wreturns k (find_module_source_by_runtime_address pid address elf).
Proof.
  assert (Hl : forall e, wreturns k (Elf.load_bias e pid)) by (intros e; apply returns_load_bias).
  pose proof returns_line_table as Ht.
  unfold find_module_source_by_runtime_address, LineTable.find_runtime_address. apply returns_bind.
  { apply returns_same; intros w; unfold mapped_module_path; by destruct (k_maps pid w). }
  intros [path|]; [|auto with mret]. apply returns_catch; [|auto with mret]. apply returns_bind.
  - apply returns_lift. destruct (same_file _ _); [done|]. pose proof (open_elf_settles files_sized path) as Ho.
    by destruct (Elf.open_elf path).
  - intros e. returns_auto.
Qed.

Lemma returns_registers k : dreturns k registers.
Proof.
  unfold registers. apply returns_bind; [apply returns_stopped_tid|]. intros tid. apply returns_kernel, returns_getregs.
Qed.

Lemma returns_current_source k elf : dreturns k (current_module_source elf).
Proof.
  unfold current_module_source. apply returns_bind; [auto using returns_get_debugger|]. intros d.
  case_bool_decide; [auto with mret|]. apply returns_bind; [apply returns_registers|]. intros regs.
  apply returns_bind; [apply returns_kernel, returns_find_module_source|auto with mret].
Qed.

Lemma single_step_consumes policy : consumes st_world n 1 (single_step n policy).
Proof.
  assert (Hr : consumes st_world n 1 (resume n Ptrace.single_step true policy))
    by (apply resume_consumes; intros p s; apply returns_singlestep).
  intros s Hs. pose proof (pending_consumes n true "single-step requires a stopped tracee" mret _ (returns_ret _ n) Hr s Hs) as Hp.
  revert Hp. unfold single_step. rewrite !run_get, !run_throw_if.
  destruct (bool_decide _); [done|]. destruct (pending_breakpoint_step_ _); [|done].
  unfold mbind at 1, M_bind at 1. by destruct ((_ ← check_pending_owner _; _) s) as [[]].
Qed.

Lemma returns_start elf k : dreturns k (start_position elf).
Proof. unfold start_position. apply returns_bind; [apply returns_current_source|]. intros []; auto with mret. Qed.

Lemma returns_limit elf limit k : dreturns k (limit_result elf limit).
Proof.
  unfold limit_result. apply returns_bind; [apply returns_current_source|]. intros source.
  apply returns_bind; [apply returns_get_debugger|auto with mret].
Qed.

Lemma returns_step_instruction elf start i : dreturns n (step_instruction n elf start i).
Proof.
  unfold step_instruction. apply returns_bind; [apply (consumes_returns _ _ 1), single_step_consumes|]. intros stop.
  apply returns_bind; [apply returns_current_source|]. intros source.
  case_bool_decide; [auto with mret|]. destruct (line_changed _ _); auto with mret.
Qed.

Lemma returns_motion_loop turn elf limit k :
  (forall i, dreturns n (turn i)) -> dreturns n (motion_loop turn k elf limit).
Proof.
  intros Ht. induction k as [|k IH]; cbn [motion_loop]; [apply returns_limit|].
  apply returns_bind; [apply Ht|]. intros []; auto with mret.
Qed.

Lemma returns_validate k limit operation : dreturns k (validate_source_motion limit operation).
Proof.
  unfold validate_source_motion. apply returns_bind; [auto with mret|]. intros _.
  apply returns_bind; [apply returns_get_debugger|auto with mret].
Qed.

Lemma returns_step_source elf limit : dreturns n (step_source n elf limit).
Proof.
  unfold step_source. apply returns_bind; [apply returns_validate|]. intros _.
  apply returns_bind; [apply returns_start|]. intros start. apply returns_motion_loop, returns_step_instruction.
Qed.

(** *** Over calls *)

Hint Resolve returns_get_debugger returns_registers returns_current_source returns_upd returns_upd_debugger
  returns_add_breakpoint returns_remove_breakpoint returns_motion_loop returns_validate returns_start : mret.

Lemma returns_read k a len : 0 <= len -> dreturns k (read_memory a len).
Proof. apply returns_read_memory. Qed.

Lemma returns_decode k reader : (forall o, dreturns k (reader o)) -> dreturns k (decode_supported_near_call_length reader).
Proof. intros Hr. unfold decode_supported_near_call_length. returns_auto. Qed.

Lemma returns_call_address k : dreturns k supported_call_return_address.
Proof.
  unfold supported_call_return_address. apply returns_bind; [auto with mret|]. intros regs. apply returns_bind.
  - apply returns_decode. intros o. unfold instruction_byte. destruct (_ <? _); [auto with mret|].
    apply returns_bind; [by apply returns_read|auto with mret].
  - intros [length|]; [|auto with mret]. apply returns_bind; auto with mret.
Qed.

Lemma returns_remove_temporary k what id : dreturns k (remove_temporary_breakpoint what id).
Proof. unfold remove_temporary_breakpoint. returns_auto. Qed.
Hint Resolve returns_call_address returns_remove_temporary : mret.

Lemma returns_run_to what address : dreturns n (run_to n what address).
Proof.
  assert (Hc : dreturns n (DebuggerWait.continue_execution n Suppress)) by (apply (consumes_returns _ _ 1), continue_consumes).
  unfold run_to, set_temporary_breakpoint, continue_with_temporary. returns_auto.
Qed.

Lemma returns_next_instruction elf start i : dreturns n (next_instruction n elf start i).
Proof.
  unfold next_instruction. apply returns_bind; [auto with mret|]. intros [address|]; [|apply returns_step_instruction].
  apply returns_bind; [apply returns_run_to|]. intros [[stop returned] user].
  apply returns_bind; [auto with mret|]. intros source. destruct (_ || _); [auto with mret|].
  destruct (line_changed _ _); auto with mret.
Qed.

Lemma returns_next_source elf limit : dreturns n (next_source n elf limit).
Proof.
  unfold next_source. apply returns_bind; [apply returns_validate|]. intros _.
  apply returns_bind; [apply returns_start|]. intros start. apply returns_motion_loop, returns_next_instruction.
Qed.
End Returns.

(** ** What a motion reports *)

Section Report.
Context `{H : Host} `{FI : FileIdentity} `{K : Kernel} `{PM : !ProcMaps K}.
Variable n : nat.

(** [i] turns of the loop went on. *)
Inductive turns (turn : Z -> M dst (option SourceStepResult)) : Z -> dst -> dst -> Prop :=
  | turns_0 s : turns turn 0 s s
  | turns_S i s s1 s2 : turns turn i s s1 -> turn (i + 1) s1 = (Ok None, s2) -> turns turn (i + 1) s s2.

Lemma motion_loop_turns turn elf limit k s0 s res s' :
  0 <= limit - Z.of_nat k -> turns turn (limit - Z.of_nat k) s0 s ->
  motion_loop turn k elf limit s = (Ok res, s') ->
  (exists i s1, 0 <= i < limit /\ turns turn i s0 s1 /\ turn (i + 1) s1 = (Ok (Some res), s')) \/
  (exists s1, turns turn limit s0 s1 /\ limit_result elf limit s1 = (Ok res, s')).
Proof.
  revert s. induction k as [|k IH]; intros s Hk Ht; cbn [motion_loop].
  - intros Hr. right. exists s. replace (limit - Z.of_nat 0) with limit in Ht by lia. done.
  - unfold mbind at 1, M_bind at 1.
    assert (Hi : limit - Z.of_nat k = limit - Z.of_nat (S k) + 1) by lia. rewrite Hi.
    destruct (turn (limit - Z.of_nat (S k) + 1) s) as [[[r|]|e|w|] s1] eqn:E; try done.
    + intros [= <- <-]. left. exists (limit - Z.of_nat (S k)), s. split; [lia|done].
    + apply IH; [lia|]. rewrite Hi. by apply (turns_S _ _ _ s).
Qed.

(** A motion that gives a result: its start, and how the loop ended. *)
Lemma motion_run operation elf turn limit s res s' :
  0 <= limit ->
  (_ ← validate_source_motion limit operation;
   start ← start_position elf;
   motion_loop (turn start) (Z.to_nat limit) elf limit) s = (Ok res, s') ->
  exists start s0, start_position elf s = (Ok start, s0) /\
    ((exists i s1, 0 <= i < limit /\ turns (turn start) i s0 s1 /\ turn start (i + 1) s1 = (Ok (Some res), s')) \/
     (exists s1, turns (turn start) limit s0 s1 /\ limit_result elf limit s1 = (Ok res, s'))).
Proof.
  intros Hl. unfold validate_source_motion. rewrite run_assoc, run_throw_if.
  destruct (limit =? 0); [done|]. rewrite run_assoc, run_get, run_throw_if.
  destruct (bool_decide _); [done|]. unfold mbind at 1, M_bind at 1.
  destruct (start_position elf s) as [[start|e|w|] s0] eqn:Est; try done. intros Es. exists start, s0. split; [done|].
  apply (motion_loop_turns _ _ _ (Z.to_nat limit) s0 s0); [lia| |done].
  replace (limit - Z.of_nat (Z.to_nat limit)) with 0 by lia. constructor.
Qed.

Lemma limit_result_reason elf limit s res s' :
  limit_result elf limit s = (Ok res, s') -> ss_reason res = InstructionLimit /\ ss_instructions res = limit.
Proof.
  unfold limit_result, mbind at 1, M_bind at 1. destruct (current_module_source elf s) as [[source|e|w|] s2]; try done.
  rewrite run_get. by intros [= <- <-].
Qed.

(** Two positions on one line: of one module, one file and one line number. *)
Definition on_one_line (left right : ModuleSourcePosition) : Prop :=
  mp_module_path left = mp_module_path right /\ loc_file (mp_source left) = loc_file (mp_source right) /\
  loc_line (mp_source left) = loc_line (mp_source right).

Lemma same_source_line_spec left right : same_source_line left right = true <-> on_one_line left right.
Proof.
  unfold same_source_line, same_location_line. by rewrite !andb_true_iff, !String.eqb_eq, Z.eqb_eq.
Qed.

(** A place a motion runs past: on the starting line, or where no line is known. *)
Definition run_past (start : ModuleSourcePosition) (source : option ModuleSourcePosition) : Prop :=
  forall position, source = Some position -> on_one_line position start.

Lemma line_changed_past start source : line_changed start source = false -> run_past start source.
Proof.
  intros Hc position ->. simpl in Hc. by apply same_source_line_spec, negb_false_iff.
Qed.
Lemma line_changed_left start source :
  line_changed start source = true -> exists position, source = Some position /\ ~ on_one_line position start.
Proof.
  destruct source as [position|]; [|done]. simpl. rewrite negb_true_iff. intros Hc. exists position. split; [done|].
  by rewrite <- same_source_line_spec, Hc.
Qed.

(** A turn of [step_source] that goes on: one instruction was stepped, to a place to run past. *)
Definition same_line_step (elf : Elf.ElfFile) (start : ModuleSourcePosition) (s s' : dst) : Prop :=
  exists stop s1 source, single_step n Suppress s = (Ok stop, s1) /\ si_reason stop = SingleStep /\
    current_module_source elf s1 = (Ok source, s') /\ run_past start source.

Inductive same_line_steps (elf : Elf.ElfFile) (start : ModuleSourcePosition) : Z -> dst -> dst -> Prop :=
  | same_line_0 s : same_line_steps elf start 0 s s
  | same_line_S i s s1 s2 :
      same_line_steps elf start i s s1 -> same_line_step elf start s1 s2 -> same_line_steps elf start (i + 1) s s2.

Lemma step_instruction_result elf start i s r s' :
  step_instruction n elf start i s = (Ok r, s') ->
  exists stop s1 source, single_step n Suppress s = (Ok stop, s1) /\ current_module_source elf s1 = (Ok source, s') /\
    r = if bool_decide (si_reason stop <> SingleStep) then Some (step_result Interrupted stop source i)
        else if line_changed start source then Some (step_result LineChanged stop source i) else None.
Proof.
  unfold step_instruction. unfold mbind at 1, M_bind at 1.
  destruct (single_step n Suppress s) as [[stop|e|w|] s1]; try done.
  unfold mbind at 1, M_bind at 1. destruct (current_module_source elf s1) as [[source|e|w|] s2] eqn:Es; try done.
  intros Hr. exists stop, s1, source. split; [done|].
  destruct (bool_decide _); [|destruct (line_changed start source)]; by injection Hr as <- <-.
Qed.

Lemma turns_same_line elf start i s s' :
  turns (step_instruction n elf start) i s s' -> same_line_steps elf start i s s'.
Proof.
  induction 1 as [s|i s s1 s2 _ IH Ht]; [constructor|]. apply (same_line_S _ _ _ _ s1); [done|].
  apply step_instruction_result in Ht as (stop & s3 & source & H1 & H2 & Hr). exists stop, s3, source.
  case_bool_decide as Hs; [done|]. destruct (line_changed start source) eqn:Hl; [done|].
  split; [done|]. split; [done|]. split; [done|]. by apply line_changed_past.
Qed.
End Report.

Section Theorems.
Context `{H : Host} `{FI : FileIdentity} `{K : Kernel} `{F : !FiniteEvents K} `{PM : !ProcMaps K}.
Hypothesis files_sized : forall path bytes, h_file path = FileBytes bytes -> ElfProofs.file_sized bytes.
Variable n : nat.

(** C14: on a kernel that reports finitely many events, with files smaller than the address space, a
    source step comes back, in a result, an exception or the overflow of a crafted line table.  A result says where the step ended: every
    instruction before the last was a single step, to a place on the starting line or one whose line
    is not known; the last one is the first to reach a known line that is another one, or the first
    whose stop is not a single step, or the limit of instructions was reached before. *)
Theorem step_source_first_change elf limit s :
  (budget (st_world s) < n)%nat -> 0 <= limit ->
  match step_source n elf limit s with
  | (Ok res, s') =>
    exists start s0 i s1, start_position elf s = (Ok start, s0) /\
      same_line_steps n elf start i s0 s1 /\
      match ss_reason res with
      | InstructionLimit => i = limit /\ ss_instructions res = limit
      | Interrupted => ss_instructions res = i + 1 /\ i < limit /\ si_reason (ss_stop res) <> SingleStep /\
          exists s2, single_step n Suppress s1 = (Ok (ss_stop res), s2)
      | LineChanged => ss_instructions res = i + 1 /\ i < limit /\ si_reason (ss_stop res) = SingleStep /\
          exists s2 position, single_step n Suppress s1 = (Ok (ss_stop res), s2) /\
            current_module_source elf s2 = (Ok (Some position), s') /\ ~ on_one_line position start /\
            ss_source res = Some (mp_source position) /\ ss_source_module_path res = Some (mp_module_path position)
      end
  | (Throw _, _) => True
  | (Undef what, _) => what = LineTableProofs.overflow
  | (OutOfFuel, _) => False
  end.
Proof.
  intros Hb Hl. pose proof (returns_step_source files_sized n elf limit s Hb) as Hr.
  destruct (step_source n elf limit s) as [[res|e|w|] s'] eqn:Es; try done. clear Hr.
  apply (motion_run _ _ _ _ _ _ _ Hl) in Es as (start & s0 & Est & Es).
  exists start, s0. destruct Es as [(i & s1 & Hi & Ht & Hlast)|(s1 & Ht & Hlast)]; apply turns_same_line in Ht.
  - apply step_instruction_result in Hlast as (stop & s2 & source & H1 & H2 & Hres). exists i, s1.
    split; [done|]. split; [done|]. case_bool_decide as Hs.
    + injection Hres as ->. simpl. split; [done|]. split; [lia|]. split; [done|]. by exists s2.
    + destruct (line_changed start source) eqn:Hline; [|done]. apply line_changed_left in Hline as (position & -> & Hline).
      injection Hres as ->. simpl. split; [done|]. split; [lia|].
      split; [done|]. by exists s2, position.
  - exists limit, s1. split; [done|]. split; [done|]. by apply limit_result_reason in Hlast as [-> ->].
Qed.
End Theorems.

(** ** The temporary breakpoint *)

Section Temporary.
Context `{H : Host} `{FI : FileIdentity} `{K : Kernel} `{PM : !ProcMaps K}.
Variable n : nat.

(** Every breakpoint of the active process has an identifier below [m]. *)
Definition ids_below (m : Z) (d : debugger) : Prop :=
  forall id address, breakpoint_ids_ d !! id = Some address -> id < m.

Lemma wf_ids_below bound d : wf_debugger bound d -> ids_below (next_breakpoint_id_ d) d.
Proof.
  intros [_ [_ H2 H3 _ _] _ _] id address Hid. destruct (H2 id address Hid) as (b & Hb & <-).
  destruct (H3 address b Hb) as (_ & _ & Hr). lia.
Qed.

Lemma wf_tight bound d : wf_debugger bound d -> wf_debugger (next_breakpoint_id_ d) d.
Proof. intros [H1 H2 H3 H4]. split; [lia|done..]. Qed.

Lemma continue_ids_below bound policy s : wf_debugger bound (st_debugger s) ->
  wf_debugger bound (st_debugger (snd (DebuggerWait.continue_execution n policy s))) /\
  ids_below bound (st_debugger (snd (DebuggerWait.continue_execution n policy s))).
Proof.
  intros Hw. assert (Hw' : wf_debugger bound (st_debugger (snd (DebuggerWait.continue_execution n policy s))))
    by exact (keeps_continue n bound policy s Hw).
  split; [done|]. intros id address Hid. pose proof (wf_ids_below _ _ Hw' id address Hid). destruct Hw' as [Hn _ _ _]. lia.
Qed.

Lemma set_temporary_wf bound user address s temp s1 :
  wf_debugger bound (st_debugger s) -> bound < u64_max ->
  set_temporary_breakpoint user address s = (Ok temp, s1) ->
  let next := next_breakpoint_id_ (st_debugger s) in
  match temp with
  | None => user = true /\ wf_debugger next (st_debugger s1)
  | Some id => user = false /\ id = next /\ wf_debugger (next + 1) (st_debugger s1)
  end.
Proof.
  intros Hw Hb. unfold set_temporary_breakpoint. destruct user; [intros [= <- <-]; split; [done|by apply (wf_tight bound)]|].
  unfold mbind, M_bind. destruct (add_breakpoint address s) as [[id|e|w|] s2] eqn:Ea; try done.
  intros [= <- <-]. cbv zeta. split; [done|]. split; [by destruct (add_breakpoint_adds _ _ _ _ Ea)|].
  pose proof (add_breakpoint_wf (next_breakpoint_id_ (st_debugger s) + 1) address s) as Hwf. rewrite Ea in Hwf. apply Hwf.
  - unfold wf_dst. replace (_ + 1 - 1) with (next_breakpoint_id_ (st_debugger s)) by lia. by apply (wf_tight bound).
  - destruct Hw as [Hn _ _ _]. lia.
Qed.

Lemma continue_with_temporary_ids bound what temp s stop s' :
  wf_debugger bound (st_debugger s) -> continue_with_temporary n what temp s = (Ok stop, s') ->
  ids_below bound (st_debugger s').
Proof.
  intros Hw. unfold continue_with_temporary, mon_throw, mcatch.
  destruct (continue_ids_below bound Suppress s Hw) as [_ Hc].
  destruct (DebuggerWait.continue_execution n Suppress s) as [[stop1|e|w|] s2]; try done; [by intros [= <- <-]|].
  unfold mbind, M_bind. lazymatch goal with |- match ?m with _ => _ end = _ -> _ => by destruct m as [[] ?] end.
Qed.

Lemma remove_temporary_ids m what temp s s' :
  ids_below (match temp with Some _ => m + 1 | None => m end) (st_debugger s) ->
  (forall id, temp = Some id -> id = m) ->
  remove_temporary_breakpoint what temp s = (Ok tt, s') -> ids_below m (st_debugger s').
Proof.
  intros Hi Hid. unfold remove_temporary_breakpoint. destruct temp as [id|]; [|by intros [= <-]].
  rewrite (Hid id eq_refl). clear Hid id. unfold mbind, M_bind.
  destruct (breakpoint_ids_ (st_debugger s) !! m) as [address|] eqn:E.
  - destruct (remove_breakpoint m s) as [[b|e|w|] s1] eqn:Er; try done.
    destruct (remove_breakpoint_removes _ _ _ _ _ Er E) as (-> & _ & _ & Hids). intros [= <-].
    intros id a. rewrite Hids, lookup_delete_Some. intros [Hne Hl]. specialize (Hi id a Hl). simpl in Hi. lia.
  - by rewrite (remove_breakpoint_unknown m s E).
Qed.

(** What the result of a run to an address says. *)
Lemma run_to_labels what address s stop returned user s' :
  run_to n what address s = (Ok (stop, returned, user), s') ->
  user = has_breakpoint_at (st_debugger s) address /\
  (returned = true <-> si_reason stop = BreakpointStop /\ si_breakpoint_address stop = Some address).
Proof.
  unfold run_to. rewrite run_get. cbv zeta. intros (temp & s1 & _ & E)%bind_M_Ok.
  apply bind_M_Ok in E as (stop1 & s2 & _ & E). apply bind_M_Ok in E as ([] & s3 & _ & E).
  injection E as <- <- <- _. split; [done|]. by rewrite andb_true_iff, !bool_decide_eq_true.
Qed.

(** What a run to an address leaves. *)
Lemma run_to_spec bound what address s stop returned user s' :
  wf_debugger bound (st_debugger s) -> bound < u64_max ->
  run_to n what address s = (Ok (stop, returned, user), s') ->
  ids_below (next_breakpoint_id_ (st_debugger s)) (st_debugger s').
Proof.
  intros Hw Hb. unfold run_to. rewrite run_get. cbv zeta. unfold mbind at 1, M_bind at 1.
  destruct (set_temporary_breakpoint _ _ s) as [[temp|e|w|] s1] eqn:Et; try done.
  pose proof (set_temporary_wf _ _ _ _ _ _ Hw Hb Et) as Ht. cbv zeta in Ht. unfold mbind at 1, M_bind at 1.
  destruct (continue_with_temporary n what temp s1) as [[stop1|e|w|] s2] eqn:Ec; try done.
  unfold mbind at 1, M_bind at 1.
  destruct (remove_temporary_breakpoint what temp s2) as [[[]|e|w|] s3] eqn:Er; try done.
  intros [= <- <- <- <-].
  apply (remove_temporary_ids _ what temp s2); [|by intros id ->; destruct Ht as (_ & -> & _)|done].
  eapply (continue_with_temporary_ids _ what temp s1); [|done]. destruct temp; [by destruct Ht as (_ & _ & Ht)|by destruct Ht].
Qed.

(** C16: finishing a function: when a result comes back the active process has no breakpoint it did not
    have before, the temporary one included; the result says the function returned exactly when the
    stop is at the return address and no breakpoint of the user was there. *)
Theorem run_to_return_address_cleans bound address s res s' :
  wf_debugger bound (st_debugger s) -> bound < u64_max ->
  run_to_return_address n address s = (Ok res, s') ->
  fr_return_address res = address /\
  ids_below (next_breakpoint_id_ (st_debugger s)) (st_debugger s') /\
  (fr_reason res = Returned <->
    si_reason (fr_stop res) = BreakpointStop /\ si_breakpoint_address (fr_stop res) = Some address /\
    has_breakpoint_at (st_debugger s) address = false).
Proof.
  intros Hw Hb. unfold run_to_return_address, mbind, M_bind.
  destruct (run_to n _ address s) as [[[[stop returned] user]|e|w|] s1] eqn:Er; try done.
  destruct (run_to_labels _ _ _ _ _ _ _ Er) as [Hu Hr]. pose proof (run_to_spec _ _ _ _ _ _ _ _ Hw Hb Er) as Hi. intros [= <- <-]. simpl.
  split; [done|]. split; [done|]. rewrite <- Hu. destruct returned; simpl.
  - destruct (proj1 Hr eq_refl) as [H1 H2]. destruct user; simpl; [|done]. by split; [|intros (_ & _ & ?)].
  - split; [done|]. intros (H1 & H2 & _). by specialize (proj2 Hr (conj H1 H2)).
Qed.
End Temporary.

(** ** Over calls *)

Section Next.
Context `{H : Host} `{FI : FileIdentity} `{K : Kernel} `{F : !FiniteEvents K} `{PM : !ProcMaps K}.
Hypothesis files_sized : forall path bytes, h_file path = FileBytes bytes -> ElfProofs.file_sized bytes.
Variable n : nat.

(** What a turn of [next_source] does before it looks at the line: an instruction, or a call run over
    to its return address.  It went as planned ([arrived]) when the stop is a single step, or a
    breakpoint stop at the return address where the user had no breakpoint. *)
Inductive moves (s s' : dst) (stop : StopInfo) (arrived : bool) : Prop :=
  | moves_step s1 : supported_call_return_address s = (Ok None, s1) -> single_step n Suppress s1 = (Ok stop, s') ->
      (arrived = true <-> si_reason stop = SingleStep) -> moves s s' stop arrived
  | moves_call address s1 returned user : supported_call_return_address s = (Ok (Some address), s1) ->
      run_to n "temporary next breakpoint disappeared" address s1 = (Ok (stop, returned, user), s') ->
      (arrived = true <-> si_reason stop = BreakpointStop /\ si_breakpoint_address stop = Some address /\
         has_breakpoint_at (st_debugger s1) address = false) ->
      moves s s' stop arrived.

Lemma next_instruction_result elf start i s r s' :
  next_instruction n elf start i s = (Ok r, s') ->
  exists stop s1 source arrived, moves s s1 stop arrived /\ current_module_source elf s1 = (Ok source, s') /\
    r = if negb arrived then Some (step_result Interrupted stop source i)
        else if line_changed start source then Some (step_result LineChanged stop source i) else None.
Proof.
  unfold next_instruction. unfold mbind at 1, M_bind at 1.
  destruct (supported_call_return_address s) as [[[address|]|e|w|] s1] eqn:Ea; try done.
  - unfold mbind at 1, M_bind at 1. destruct (run_to _ _ _ _) as [[[[stop returned] user]|e|w|] s2] eqn:Er; try done.
    unfold mbind at 1, M_bind at 1. destruct (current_module_source elf s2) as [[source|e|w|] s3] eqn:Es; try done.
    intros Hr. exists stop, s2, source, (returned && negb user). split.
    { destruct (run_to_labels _ _ _ _ _ _ _ _ Er) as [-> Hret]. apply (moves_call _ _ _ _ address s1 returned _ Ea Er).
      rewrite andb_true_iff, Hret, negb_true_iff. tauto. }
    rewrite negb_andb, negb_involutive. destruct (_ || _); [|destruct (line_changed start source)]; by injection Hr as <- <-.
  - intros (stop & s2 & source & H1 & H2 & ->)%step_instruction_result.
    exists stop, s2, source, (bool_decide (si_reason stop = SingleStep)).
    split; [apply (moves_step _ _ _ _ s1); [done|done|apply bool_decide_eq_true]|].
    split; [done|]. by destruct (decide (si_reason stop = SingleStep)) as [->|Hne];
      [|rewrite (bool_decide_eq_true_2 _ Hne), (bool_decide_eq_false_2 _ Hne)].
Qed.

(** A turn that goes on. *)
Definition same_line_move (elf : Elf.ElfFile) (start : ModuleSourcePosition) (s s' : dst) : Prop :=
  exists stop s1 source, moves s s1 stop true /\ current_module_source elf s1 = (Ok source, s') /\
    run_past start source.

Inductive same_line_moves (elf : Elf.ElfFile) (start : ModuleSourcePosition) : Z -> dst -> dst -> Prop :=
  | same_move_0 s : same_line_moves elf start 0 s s
  | same_move_S i s s1 s2 :
      same_line_moves elf start i s s1 -> same_line_move elf start s1 s2 -> same_line_moves elf start (i + 1) s s2.

Lemma turns_same_move elf start i s s' :
  turns (next_instruction n elf start) i s s' -> same_line_moves elf start i s s'.
Proof.
  induction 1 as [s|i s s1 s2 _ IH Ht]; [constructor|]. apply (same_move_S _ _ _ _ s1); [done|].
  apply next_instruction_result in Ht as (stop & s3 & source & arrived & H1 & H2 & Hr). exists stop, s3, source.
  destruct arrived; [|done]. simpl in Hr. destruct (line_changed start source) eqn:Hl; [done|].
  split; [done|]. split; [done|]. by apply line_changed_past.
Qed.

(** C15: on a kernel that reports finitely many events, with files smaller than the address space,
    stepping over calls comes back, in a result, an exception or the overflow of a crafted line table.  Every turn before the last was a single step,
    or ran over a call to a breakpoint stop at its return address where the user had no breakpoint, and
    came to a place on the starting line or one whose line is not known; the last turn is the first to
    reach a known line that is another one, or the first that did not go as planned, or the limit was
    reached before. *)
Theorem next_source_first_change elf limit s :
  (budget (st_world s) < n)%nat -> 0 <= limit ->
  match next_source n elf limit s with
  | (Ok res, s') =>
    exists start s0 i s1, start_position elf s = (Ok start, s0) /\
      same_line_moves elf start i s0 s1 /\
      match ss_reason res with
      | InstructionLimit => i = limit /\ ss_instructions res = limit
      | Interrupted => ss_instructions res = i + 1 /\ i < limit /\ exists s2, moves s1 s2 (ss_stop res) false
      | LineChanged => ss_instructions res = i + 1 /\ i < limit /\
          exists s2 position, moves s1 s2 (ss_stop res) true /\
            current_module_source elf s2 = (Ok (Some position), s') /\ ~ on_one_line position start /\
            ss_source res = Some (mp_source position) /\ ss_source_module_path res = Some (mp_module_path position)
      end
  | (Throw _, _) => True
  | (Undef what, _) => what = LineTableProofs.overflow
  | (OutOfFuel, _) => False
  end.
Proof.
  intros Hb Hl. pose proof (returns_next_source files_sized n elf limit s Hb) as Hr.
  destruct (next_source n elf limit s) as [[res|e|w|] s'] eqn:Es; try done. clear Hr.
  apply (motion_run _ _ _ _ _ _ _ Hl) in Es as (start & s0 & Est & Hend).
  exists start, s0. destruct Hend as [(i & s1 & Hi & Ht & Hlast)|(s1 & Ht & Hlast)]; apply turns_same_move in Ht.
  - apply next_instruction_result in Hlast as (stop & s2 & source & arrived & H1 & H2 & Hres). exists i, s1.
    split; [done|]. split; [done|]. destruct arrived; simpl in Hres.
    + destruct (line_changed start source) eqn:Hline; [|done]. apply line_changed_left in Hline as (position & -> & Hline).
      injection Hres as ->. simpl. split; [done|]. split; [lia|]. by exists s2, position.
    + injection Hres as ->. simpl. split; [done|]. split; [lia|]. by exists s2.
  - exists limit, s1. split; [done|]. split; [done|]. by apply limit_result_reason in Hlast as [-> ->].
Qed.
End Next.

Definition demo_exec_dst : dst (K := SimKernel) :=
  mkSt (new_debugger demo_tracee demo_stop "/bin/tracee")
    (sim_init (sim_mapped 0x1000 (repeat Byte.x90 32)) [mkEvent 100 (stop_status SIGTRAP PTRACE_EVENT_EXEC) None]) 1.

Lemma finish_over_exec :
  fst (run_to_return_address (K := SimKernel) 9 0x1008 demo_exec_dst) =
  logic_error "temporary finish breakpoint disappeared".
Proof. vm_compute. reflexivity. Qed.

(** ** Witnesses: line 1 of [/src/a.c] at 0x1000, line 2 at 0x1004 *)

Definition DemoLines : Host := {|
  h_file _ := FileBytes (LineTableProofs.line_file LineTableProofs.demo_line_program);
  h_canonical _ := None; h_regular _ := true; h_page_size := 4096
|}.

Definition demo_at (rip : Z) : option user_regs_struct := Some (set_rip zero_regs rip).

Definition demo_line_dst (code : list byte) (events : list sim_event) : dst (K := SimKernel) :=
  mkSt (new_debugger demo_tracee demo_stop "/bin/tracee")
    (mkSim (sim_mapped 0x1000 code) {[100 := set_rip zero_regs 0x1000]} ∅ events 0 ["100"] ∅) 1.

(** Two instructions, the second on line 2. *)
Definition demo_step_dst : dst (K := SimKernel) :=
  demo_line_dst (repeat Byte.x90 16)
    [mkEvent 100 (stop_status SIGTRAP 0) (demo_at 0x1002); mkEvent 100 (stop_status SIGTRAP 0) (demo_at 0x1004)].

Definition demo_stepped : res SourceStepResult * dst (K := SimKernel) :=
  step_source (H := DemoLines) (FI := DemoIdentity) (PM := DemoMaps) 9 demo_tracee_elf 100 demo_step_dst.

Example demo_stepped_result :
  match fst demo_stepped with
  | Ok res => ss_reason res = LineChanged /\ ss_instructions res = 2 /\ option_map loc_line (ss_source res) = Some 2
  | _ => False
  end.
Proof. vm_compute. done. Qed.

(** A call at 0x1000 that returns to 0x1005. *)
Definition demo_call_dst : dst (K := SimKernel) :=
  demo_line_dst (Byte.xe8 :: repeat Byte.x90 15) [mkEvent 100 (stop_status SIGTRAP 0) (demo_at 0x1006)].

Definition demo_nexted : res SourceStepResult * dst (K := SimKernel) :=
  next_source (H := DemoLines) (FI := DemoIdentity) (PM := DemoMaps) 9 demo_tracee_elf 100 demo_call_dst.

Example demo_nexted_result :
  match fst demo_nexted with
  | Ok res => ss_reason res = LineChanged /\ ss_instructions res = 1 /\ option_map loc_line (ss_source res) = Some 2
  | _ => False
  end.
Proof. vm_compute. done. Qed.

Lemma demo_lines_sized path bytes : h_file (Host := DemoLines) path = FileBytes bytes -> ElfProofs.file_sized bytes.
Proof. intros [= <-]. vm_compute. discriminate. Qed.

Lemma step_source_first_change_witness :
  exists start s0 s1, start_position (H := DemoLines) (FI := DemoIdentity) (PM := DemoMaps) demo_tracee_elf demo_step_dst = (Ok start, s0) /\
    same_line_steps (H := DemoLines) (FI := DemoIdentity) (PM := DemoMaps) 9 demo_tracee_elf start 1 s0 s1.
Proof.
  pose proof (step_source_first_change (H := DemoLines) (FI := DemoIdentity) (PM := DemoMaps) (F := SimFiniteEvents)
    demo_lines_sized 9 demo_tracee_elf 100 demo_step_dst ltac:(simpl; lia) ltac:(lia)) as H.
  change (step_source _ _ _ _) with demo_stepped in H. pose proof demo_stepped_result as Hr.
  destruct demo_stepped as [[res|e|w|] s']; try contradiction.
  destruct Hr as (Hr1 & Hr2 & _). destruct H as (start & s0 & i & s1 & H1 & H2 & H3). rewrite Hr1 in H3.
  destruct H3 as (H3 & _). exists start, s0, s1. split; [exact H1|].
  replace 1 with i by lia. exact H2.
Defined.

Lemma next_source_first_change_witness :
  exists start s0 s2 stop, start_position (H := DemoLines) (FI := DemoIdentity) (PM := DemoMaps) demo_tracee_elf demo_call_dst = (Ok start, s0) /\
    exists s1, moves (K := SimKernel) 9 s1 s2 stop true.
Proof.
  pose proof (next_source_first_change (H := DemoLines) (FI := DemoIdentity) (PM := DemoMaps) (F := SimFiniteEvents)
    demo_lines_sized 9 demo_tracee_elf 100 demo_call_dst ltac:(simpl; lia) ltac:(lia)) as H.
  change (next_source _ _ _ _) with demo_nexted in H. pose proof demo_nexted_result as Hr.
  destruct demo_nexted as [[res|e|w|] s']; try contradiction.
  destruct Hr as (Hr1 & _). destruct H as (start & s0 & i & s1 & H1 & _ & H3). rewrite Hr1 in H3.
  destruct H3 as (_ & _ & s2 & position & H3 & _). exists start, s0, s2, (ss_stop res). split; [exact H1|].
  exists s1. exact H3.
Defined.

(** Finishing at 0x1005. *)
Definition demo_finished : res FinishResult * dst (K := SimKernel) := run_to_return_address (K := SimKernel) 9 0x1005 demo_call_dst.
Definition demo_finish_result : FinishResult :=
  mkFinishResult Returned (mkStopInfo BreakpointStop SIGTRAP (Some 0x1005) None None 100 None None NoEvent None None false 2) 0x1005.

Lemma demo_finished_ok : fst demo_finished = Ok demo_finish_result.
Proof. vm_compute. reflexivity. Qed.

Lemma run_to_return_address_cleans_witness :
  ids_below 1 (st_debugger (snd demo_finished)) /\ fr_reason demo_finish_result = Returned.
Proof.
  assert (Hw : wf_debugger 1 (st_debugger demo_call_dst)) by (apply wf_new_debugger, wf_single_stopped_task).
  assert (Hr : run_to_return_address (K := SimKernel) 9 0x1005 demo_call_dst = (Ok demo_finish_result, snd demo_finished))
    by (fold demo_finished; rewrite <- demo_finished_ok; apply surjective_pairing).
  destruct (run_to_return_address_cleans 9 1 0x1005 demo_call_dst demo_finish_result (snd demo_finished) Hw eq_refl Hr)
    as (_ & H & _).
  split; [exact H|reflexivity].
Defined.
