(* ===== verification/Registry.v ===== *)
(** * The user's breakpoints ([src/breakpoints/user_breakpoint_registry.hpp])

    One table of numbered breakpoints per process: each is a breakpoint of the debugger, or a
    request of the process's controller of deferred breakpoints.  The methods run on [rst]: the
    registry and the debugger. *)

From S2P Require Import Prelude Machine Process DebuggerState Debugger DebuggerWait ByteReader ElfFormat ModuleMap Loader.
From S2P Require Elf.

(* src/breakpoints/user_breakpoint_registry.hpp:20-20 UserBreakpointState *)
Inductive UserBreakpointState := Pending | Enabled | TemporarilyRestored.
#[export] Instance UserBreakpointState_eq_dec : EqDecision UserBreakpointState.
Proof. solve_decision. Defined.

(* src/breakpoints/user_breakpoint_registry.hpp:22-27 UserBreakpoint *)
Record UserBreakpoint := mkUserBreakpoint {
  ub_id : Z; ub_expression : string; ub_address : option Z; ub_state : UserBreakpointState
}.

(* src/breakpoints/user_breakpoint_registry.hpp:31-31 UserBreakpointRegistry::BackendKind *)
Inductive BackendKind := Managed | Deferred.
#[export] Instance BackendKind_eq_dec : EqDecision BackendKind.
Proof. solve_decision. Defined.

(* src/breakpoints/user_breakpoint_registry.hpp:33-37 UserBreakpointRegistry::Entry *)
Record Entry := mkEntry { en_expression : string; en_kind : BackendKind; en_backend_id : Z }.

(* src/breakpoints/user_breakpoint_registry.hpp:39-42 UserBreakpointRegistry::DomainState *)
Record DomainState := mkDomainState { ds_deferred : option DeferredBreakpoints; ds_entries : gmap Z Entry }.
Definition set_deferred v d := mkDomainState v (ds_entries d).
Definition set_entries v d := mkDomainState (ds_deferred d) v.
Definition no_domain : DomainState := mkDomainState None ∅.

(* src/breakpoints/user_breakpoint_registry.hpp:215-218 UserBreakpointRegistry *)
Record UserBreakpointRegistry := mkRegistry {
  rg_executable : Elf.ElfFile;
  domains_ : gmap Z DomainState;
  next_id_ : Z
}.
Definition set_domains v r := mkRegistry (rg_executable r) v (next_id_ r).
Definition set_next_id v r := mkRegistry (rg_executable r) (domains_ r) v.

(** The registry and its controllers hold references to the executable; this is their view
    of an assignment to the object. *)
(* src/breakpoints/user_breakpoint_registry.hpp:216-216 UserBreakpointRegistry::executable_ *)
Definition refer_executable (executable : Elf.ElfFile) (r : UserBreakpointRegistry) : UserBreakpointRegistry :=
  mkRegistry executable
    ((fun dom => set_deferred (set_executable executable <$> ds_deferred dom) dom) <$> domains_ r) (next_id_ r).

(* src/breakpoints/user_breakpoint_registry.hpp:45-46 UserBreakpointRegistry::UserBreakpointRegistry *)
Definition new_registry (executable : Elf.ElfFile) : UserBreakpointRegistry := mkRegistry executable ∅ 1.

(* src/breakpoints/user_breakpoint_registry.hpp:221-231 user_breakpoint_state_name *)
Definition user_breakpoint_state_name (state : UserBreakpointState) : string :=
  match state with
  | Pending => "pending"
  | Enabled => "enabled"
  | TemporarilyRestored => "temporarily-restored"
  end.

(** ** What the user is shown *)

Definition installed_state (bp : Breakpoint) : UserBreakpointState :=
  if bp_installed bp then Enabled else TemporarilyRestored.

Definition find_breakpoint (id : Z) (d : debugger) : option Breakpoint :=
  List.find (fun bp => bp_id bp =? id) (breakpoints d).

(* src/breakpoints/user_breakpoint_registry.hpp:171-213 UserBreakpointRegistry::snapshot *)
Definition snapshot (id : Z) (entry : Entry) (dom : DomainState) (d : debugger) : res UserBreakpoint :=
  match en_kind entry with
  | Managed =>
    match find_breakpoint (en_backend_id entry) d with
    | None => logic_error "managed breakpoint disappeared from user registry ownership"
    | Some bp => Ok (mkUserBreakpoint id (en_expression entry) (Some (bp_address bp)) (installed_state bp))
    end
  | Deferred =>
    match ds_deferred dom with
    | None => logic_error "deferred user breakpoint has no loader controller"
    | Some o =>
      match List.find (fun request => df_request_id request =? en_backend_id entry) (deferred_breakpoints o) with
      | None => logic_error "deferred breakpoint disappeared from user registry ownership"
      | Some request =>
        match df_breakpoint_id request, df_address request with
        | Some breakpoint_id, Some address =>
          match find_breakpoint breakpoint_id d with
          | None => logic_error "resolved deferred breakpoint disappeared from debugger ownership"
          | Some bp => Ok (mkUserBreakpoint id (en_expression entry) (Some address) (installed_state bp))
          end
        | _, _ => Ok (mkUserBreakpoint id (en_expression entry) None Pending)
        end
      end
    end
  end.

(** [debugger_.pid()] *)
Definition active_pid (d : debugger) : Z := pid_ (process_ d).

(* src/breakpoints/user_breakpoint_registry.hpp:162-165 UserBreakpointRegistry::active_domain_if_present *)
Definition active_domain_if_present (r : UserBreakpointRegistry) (d : debugger) : option DomainState :=
  domains_ r !! active_pid d.

(* src/breakpoints/user_breakpoint_registry.hpp:117-123 UserBreakpointRegistry::breakpoint *)
Definition breakpoint (r : UserBreakpointRegistry) (d : debugger) (id : Z) : res (option UserBreakpoint) :=
  match active_domain_if_present r d with
  | None => Ok None
  | Some dom =>
    match ds_entries dom !! id with
    | None => Ok None
    | Some entry => b ← snapshot id entry dom d; Ok (Some b)
    end
  end.

(* src/breakpoints/user_breakpoint_registry.hpp:125-135 UserBreakpointRegistry::breakpoints *)
Definition user_breakpoints (r : UserBreakpointRegistry) (d : debugger) : res (list UserBreakpoint) :=
  match active_domain_if_present r d with
  | None => Ok []
  | Some dom => mapM (fun '(id, entry) => snapshot id entry dom d) (map_in_order (ds_entries dom))
  end.

(* src/breakpoints/user_breakpoint_registry.hpp:140-142 UserBreakpointRegistry::has_pending *)
Fixpoint any_pending (dom : DomainState) (d : debugger) (entries : list (Z * Entry)) : res bool :=
  match entries with
  | [] => Ok false
  | (id, entry) :: entries =>
    b ← snapshot id entry dom d;
    if bool_decide (ub_state b = Pending) then Ok true else any_pending dom d entries
  end.

(* src/breakpoints/user_breakpoint_registry.hpp:137-144 UserBreakpointRegistry::has_pending *)
Definition has_pending (r : UserBreakpointRegistry) (d : debugger) : res bool :=
  match active_domain_if_present r d with
  | None => Ok false
  | Some dom => any_pending dom d (map_in_order (ds_entries dom))
  end.

(** ** The methods *)

Section Registry.
Context `{FA : FileAccess} `{H : Host} `{FI : FileIdentity} `{K : Kernel} `{PM : !ProcMaps K}.
Variable fuel : nat.

Record rst := mkRst { rs_registry : UserBreakpointRegistry; rs_dst : dst }.
Definition get_registry : M rst UserBreakpointRegistry := gets rs_registry.
Definition upd_registry (f : UserBreakpointRegistry -> UserBreakpointRegistry) : M rst unit :=
  modify (fun s => mkRst (f (rs_registry s)) (rs_dst s)).
Definition with_debugger {A} (m : M dst A) : M rst A := zoom rs_dst (fun d s => mkRst (rs_registry s) d) m.
Definition get_pid : M rst Z := d ← with_debugger get_debugger; mret (active_pid d).

(** Assigns to the domain of a process, which [operator[]] creates. *)
(* src/breakpoints/user_breakpoint_registry.hpp:155-155 UserBreakpointRegistry::active_domain *)
Definition upd_domain (pid : Z) (f : DomainState -> DomainState) : M rst unit :=
  upd_registry (fun r => set_domains (<[pid := f (default no_domain (domains_ r !! pid))]> (domains_ r)) r).

(** Runs a method of the controller of a process. *)
Definition with_controller {A} (pid : Z) (m : M lst A) : M rst A := fun s =>
  match domains_ (rs_registry s) !! pid ≫= ds_deferred with
  | None => (Undef "dereference of an empty optional", s)
  | Some o =>
    let '(r, s') := m (mkLst o (rs_dst s)) in
    (r, mkRst (set_domains (alter (set_deferred (Some (ls_object s'))) pid (domains_ (rs_registry s))) (rs_registry s))
          (ls_dst s'))
  end.

(* src/breakpoints/user_breakpoint_registry.hpp:167-169 UserBreakpointRegistry::ensure_deferred *)
Definition ensure_deferred (pid : Z) : M rst unit :=
  r ← get_registry;
  match domains_ r !! pid ≫= ds_deferred with
  | Some _ => mskip
  | None =>
    o ← lift (new_deferred_breakpoints (rg_executable r));
    upd_domain pid (set_deferred (Some o))
  end.

(** [next_id_++], and the entry under it. *)
Definition enter (pid : Z) (entry : Entry) : M rst Z :=
  r ← get_registry;
  let id := next_id_ r in
  _ ← upd_registry (set_next_id (u64 (id + 1)));
  _ ← upd_domain pid (fun dom => set_entries (emplace id entry (ds_entries dom)) dom);
  mret id.

(* src/breakpoints/user_breakpoint_registry.hpp:48-54 UserBreakpointRegistry::add_address *)
Definition add_address (address : Z) (expression : string) : M rst Z :=
  backend_id ← with_debugger (add_breakpoint address);
  pid ← get_pid;
  enter pid (mkEntry expression Managed backend_id).

(** The part [add_symbol] and [add_source] share: a request of the controller. *)
(* src/breakpoints/user_breakpoint_registry.hpp:63-68 UserBreakpointRegistry::add_symbol *)
Definition add_deferred (expression : string) (request : M lst Z) : M rst Z :=
  pid ← get_pid;
  _ ← upd_domain pid id;
  _ ← ensure_deferred pid;
  backend_id ← with_controller pid request;
  enter pid (mkEntry expression Deferred backend_id).

(* src/breakpoints/user_breakpoint_registry.hpp:56-69 UserBreakpointRegistry::add_symbol *)
Definition add_user_symbol (symbol : string) : M rst Z :=
  _ ← mthrow_if (String.eqb symbol EmptyString) InvalidArgument "breakpoint symbol must not be empty";
  pid ← get_pid;
  r ← get_registry;
  resolved ← with_debugger (kernel (find_module_symbol_by_name pid symbol (rg_executable r)));
  match resolved with
  | Some resolved => add_address (msa_address resolved) symbol
  | None => add_deferred symbol (Loader.add_symbol symbol)
  end.

(* src/breakpoints/user_breakpoint_registry.hpp:71-86 UserBreakpointRegistry::add_source *)
Definition add_user_source (file : string) (line : Z) (expression : string) : M rst Z :=
  _ ← mthrow_if (String.eqb file EmptyString) InvalidArgument "breakpoint source file must not be empty";
  _ ← mthrow_if (line =? 0) InvalidArgument "breakpoint source line must be non-zero";
  pid ← get_pid;
  r ← get_registry;
  resolved ← with_debugger (kernel (find_module_source_by_file_line pid file line (rg_executable r)));
  match resolved with
  | Some resolved => add_address (moa_address resolved) expression
  | None => add_deferred expression (Loader.add_source file line)
  end.

(* src/breakpoints/user_breakpoint_registry.hpp:94-102 UserBreakpointRegistry::remove *)
Definition remove_backend (pid : Z) (dom : DomainState) (entry : Entry) : M rst bool :=
  match en_kind entry with
  | Managed => with_debugger (remove_breakpoint (en_backend_id entry))
  | Deferred =>
    _ ← mthrow_if (bool_decide (ds_deferred dom = None)) LogicError "deferred user breakpoint has no loader controller";
    with_controller pid (Loader.remove (en_backend_id entry))
  end.

(* src/breakpoints/user_breakpoint_registry.hpp:88-108 UserBreakpointRegistry::remove *)
Definition remove_user (id : Z) : M rst bool :=
  pid ← get_pid;
  r ← get_registry;
  match domains_ r !! pid with
  | None => mret false
  | Some dom =>
    match ds_entries dom !! id with
    | None => mret false
    | Some entry =>
      removed ← remove_backend pid dom entry;
      _ ← mthrow_if (negb removed) LogicError "user breakpoint backend disappeared from registry ownership";
      _ ← upd_domain pid (fun dom => set_entries (delete id (ds_entries dom)) dom);
      mret true
    end
  end.

(** The controller's destructor, then the entries go. *)
(* src/breakpoints/user_breakpoint_registry.hpp:110-115 UserBreakpointRegistry::on_image_replaced *)
Definition on_image_replaced : M rst unit :=
  pid ← get_pid;
  r ← get_registry;
  match domains_ r !! pid with
  | None => mskip
  | Some dom =>
    _ ← mwhen (bool_decide (is_Some (ds_deferred dom))) (with_controller pid destroy_deferred);
    upd_domain pid (fun _ => no_domain)
  end.

(** The domain is the one of the process that is active before the call. *)
(* src/breakpoints/user_breakpoint_registry.hpp:146-152 UserBreakpointRegistry::continue_execution *)
Definition continue_user (policy : SignalPolicy) : M rst StopInfo :=
  pid ← get_pid;
  r ← get_registry;
  if bool_decide (is_Some (domains_ r !! pid ≫= ds_deferred))
  then with_controller pid (Loader.continue_execution fuel policy)
  else with_debugger (DebuggerWait.continue_execution fuel policy).
End Registry.
