(* ===== verification/RegistryProofs.v ===== *)
(** * The invariant of the user's breakpoints

    Every entry of the registry that stands for a deferred request has a controller with that
    request, whatever the calls before it did or threw. *)

From S2P Require Import Prelude Machine SimKernel Process DebuggerState Debugger DebuggerWait DebuggerInvariants DebuggerReach Breakpoints ByteReader ElfFormat ModuleMap Unwind UnwindProofs Loader LoaderProofs LoaderReturns Registry.
From S2P Require Elf.

Record wf_entries (bound next : Z) (dom : DomainState) : Prop := {
  we_id : forall k e, ds_entries dom !! k = Some e -> 1 <= k < next;
  we_controller : forall o, ds_deferred dom = Some o -> wf_deferred bound o;
  we_backed : forall k e, ds_entries dom !! k = Some e -> en_kind e = Deferred ->
    exists o, ds_deferred dom = Some o /\ is_Some (targets o !! en_backend_id e);
  we_unique : forall k k' e e', ds_entries dom !! k = Some e -> ds_entries dom !! k' = Some e' ->
    en_kind e = Deferred -> en_kind e' = Deferred -> en_backend_id e = en_backend_id e' -> k = k'
}.

(** [bound] bounds the identifiers of the controllers' requests, [limit] those of the registry. *)
Record wf_registry (bound limit : Z) (r : UserBreakpointRegistry) : Prop := {
  wr_next : 1 <= next_id_ r <= limit;
  wr_domains : forall pid dom, domains_ r !! pid = Some dom -> wf_entries bound (next_id_ r) dom
}.

Lemma wf_entries_mono b b' n n' dom : b <= b' -> n <= n' -> wf_entries b n dom -> wf_entries b' n' dom.
Proof.
  intros Hb Hn [H1 H2 H3 H4]. split; try done.
  - intros k e Hk. specialize (H1 k e Hk). lia.
  - intros o Ho. by apply (wf_deferred_mono b), H2.
Qed.

Lemma wf_no_domain b n : wf_entries b n no_domain.
Proof. split; [intros k e|done|intros k e|intros k k' e e']; simpl; rewrite lookup_empty; done. Qed.

Lemma wf_registry_mono b b' l l' r : b <= b' -> l <= l' -> wf_registry b l r -> wf_registry b' l' r.
Proof. intros Hb Hl [H1 H2]. split; [lia|]. intros pid dom Hd. by apply (wf_entries_mono b _ (next_id_ r)), (H2 pid). Qed.

Lemma wf_registry_insert b l r pid dom :
  wf_registry b l r -> wf_entries b (next_id_ r) dom -> wf_registry b l (set_domains (<[pid := dom]> (domains_ r)) r).
Proof.
  intros [H1 H2] Hd. split; [done|]. simpl.
  intros pid' dom' [[_ <-]|[_ Hl]]%lookup_insert_Some; [done|by apply (H2 pid')].
Qed.

Lemma wf_registry_alter b l r pid f :
  wf_registry b l r -> (forall dom, domains_ r !! pid = Some dom -> wf_entries b (next_id_ r) (f dom)) ->
  wf_registry b l (set_domains (alter f pid (domains_ r)) r).
Proof.
  intros [H1 H2] Hd. split; [done|]. simpl.
  intros pid' dom' [(<- & dom & Hl & ->)|[_ Hl]]%lookup_alter_Some; [by apply Hd|by apply (H2 pid')].
Qed.

(** A controller that still has the requests of the old one. *)
Lemma wf_entries_controller b n dom o' :
  wf_entries b n dom -> wf_deferred b o' ->
  (forall o, ds_deferred dom = Some o -> targets o ⊆ targets o') -> wf_entries b n (set_deferred (Some o') dom).
Proof.
  intros [H1 H2 H3 H4] Hw Ho. split; simpl; [done|by intros o [= <-]| |done].
  intros k e Hk He. destruct (H3 k e Hk He) as (o & Hd & [t Ht]). exists o'. split; [done|]. exists t.
  by apply (lookup_weaken (targets o)), Ho.
Qed.

Lemma wf_entries_enter b n dom e :
  wf_entries b n dom -> 1 <= n ->
  (en_kind e = Deferred -> exists o, ds_deferred dom = Some o /\ is_Some (targets o !! en_backend_id e)) ->
  (en_kind e = Deferred -> forall k e', ds_entries dom !! k = Some e' -> en_kind e' = Deferred ->
    en_backend_id e' <> en_backend_id e) ->
  wf_entries b (n + 1) (set_entries (emplace n e (ds_entries dom)) dom).
Proof.
  intros [H1 H2 H3 H4] Hn Hb Hu. unfold emplace.
  destruct (ds_entries dom !! n) as [e0|] eqn:E; [specialize (H1 n e0 E); lia|]. split; simpl; [|done| |].
  - intros k e0 [[<- <-]|[_ Hk]]%lookup_insert_Some; [lia|]. specialize (H1 k e0 Hk). lia.
  - intros k e0 [[<- <-]|[_ Hk]]%lookup_insert_Some; [done|by apply (H3 k)].
  - intros k k' e0 e1 [[<- <-]|[_ Hk]]%lookup_insert_Some [[<- <-]|[_ Hk']]%lookup_insert_Some He He' Heq; try done.
    + by destruct (Hu He k' e1 Hk' He').
    + by destruct (Hu He' k e0 Hk He).
    + by apply (H4 k k' e0 e1).
Qed.

Lemma wf_entries_delete b n dom id : wf_entries b n dom -> wf_entries b n (set_entries (delete id (ds_entries dom)) dom).
Proof.
  intros [H1 H2 H3 H4]. split; simpl; [|done| |].
  - intros k e [_ Hk]%lookup_delete_Some. by apply (H1 k e).
  - intros k e [_ Hk]%lookup_delete_Some. by apply (H3 k).
  - intros k k' e e' [_ Hk]%lookup_delete_Some [_ Hk']%lookup_delete_Some. by apply H4.
Qed.

(** The entry goes with its request. *)
Lemma wf_entries_withdraw b n dom id e o o' :
  wf_entries b n dom -> ds_entries dom !! id = Some e -> en_kind e = Deferred -> ds_deferred dom = Some o ->
  wf_deferred b o' -> targets o' = delete (en_backend_id e) (targets o) ->
  wf_entries b n (set_entries (delete id (ds_entries dom)) (set_deferred (Some o') dom)).
Proof.
  intros [H1 H2 H3 H4] Hid He Ho Hw Ht. split; simpl; [|by intros o2 [= <-]| |].
  - intros k e0 [_ Hk]%lookup_delete_Some. by apply (H1 k e0).
  - intros k e0 [Hne Hk]%lookup_delete_Some He0. destruct (H3 k e0 Hk He0) as (o0 & Ho0 & [t Hs]).
    rewrite Ho in Ho0. injection Ho0 as <-. exists o'. split; [done|]. exists t. rewrite Ht, lookup_delete_ne; [done|].
    intros Heq. apply Hne. by apply (H4 id k e e0).
  - intros k k' e0 e1 [_ Hk]%lookup_delete_Some [_ Hk']%lookup_delete_Some. by apply H4.
Qed.

(** ** The operations *)

Section Operations.
Context `{FA : FileAccess} `{H : Host} `{FI : FileIdentity} `{K : Kernel} `{PM : !ProcMaps K}.
Variable fuel : nat.

Notation rpost := (post rs_registry).

Lemma rpost_get {B} r (f : UserBreakpointRegistry -> M rst B) Q : rpost r (f r) Q -> rpost r (get_registry ≫= f) Q.
Proof. intros Hf. apply post_bind. by intros s <-. Qed.
Lemma rpost_pid {B} r (f : Z -> M rst B) Q : (forall pid, rpost r (f pid) Q) -> rpost r (get_pid ≫= f) Q.
Proof. intros Hf. apply post_bind. intros s <-. simpl. apply Hf. Qed.
Lemma rpost_upd {B} r g (f : unit -> M rst B) Q : rpost (g r) (f tt) Q -> rpost r (upd_registry g ≫= f) Q.
Proof. intros Hf. apply post_bind. by intros s <-. Qed.

Lemma rpost_debugger {A} r (m : M dst A) (Q : res A -> UserBreakpointRegistry -> Prop) :
  (forall a, Q a r) -> rpost r (with_debugger m) Q.
Proof. intros Hq. apply post_same; [|done]. intros s. unfold with_debugger, zoom. by destruct (m (rs_dst s)). Qed.

Lemma rpost_debugger_bind {A B} r (m : M dst A) (f : A -> M rst B) (Q : res B -> UserBreakpointRegistry -> Prop) :
  (forall a : res B, is_ok a = false -> Q a r) -> (forall a, rpost r (f a) Q) -> rpost r (with_debugger m ≫= f) Q.
Proof. intros Hq Hf. apply post_bind, rpost_debugger. intros []; simpl; auto. Qed.

(** A method of the controller of [pid], by what it does to the controller. *)
Lemma with_controller_post {A} r pid dom o (m : M lst A) (Q : res A -> DeferredBreakpoints -> Prop) :
  domains_ r !! pid = Some dom -> ds_deferred dom = Some o -> post ls_object o m Q ->
  rpost r (with_controller pid m) (fun a r' => exists o', Q a o' /\
    r' = set_domains (<[pid := set_deferred (Some o') dom]> (domains_ r)) r).
Proof.
  intros Hd Ho Hm s <-. unfold with_controller. rewrite Hd. simpl. rewrite Ho.
  specialize (Hm (mkLst o (rs_dst s)) eq_refl). destruct (m _) as [a s']. simpl in *. exists (ls_object s').
  split; [done|]. f_equal. apply map_eq. intros i. destruct (decide (i = pid)) as [->|Hi].
  - by rewrite lookup_alter_eq, lookup_insert_eq, Hd.
  - by rewrite lookup_alter_ne, lookup_insert_ne.
Qed.

Lemma enter_post b l pid e r :
  wf_registry b l r -> l < u64_max ->
  (en_kind e = Deferred -> exists dom o, domains_ r !! pid = Some dom /\ ds_deferred dom = Some o /\
     is_Some (targets o !! en_backend_id e) /\
     forall k e', ds_entries dom !! k = Some e' -> en_kind e' = Deferred -> en_backend_id e' <> en_backend_id e) ->
  rpost r (enter pid e) (fun _ => wf_registry b (l + 1)).
Proof.
  intros Hw Hl He. unfold enter. apply rpost_get, rpost_upd, rpost_upd, post_mret.
  pose proof Hw as [H1 H2]. rewrite u64_small by (unfold in_u64; lia).
  split; simpl; [lia|]. intros pid' dom' [[<- <-]|[_ Hd]]%lookup_insert_Some.
  2:{ by apply (wf_entries_mono b _ (next_id_ r)); [lia|lia|apply (H2 pid')]. }
  apply wf_entries_enter; [|lia| |].
  - destruct (domains_ r !! pid) as [dom|] eqn:Hd; [by apply (H2 pid)|apply wf_no_domain].
  - intros Hk. destruct (He Hk) as (dom & o & -> & Ho & Hs & _). simpl. eauto.
  - intros Hk. destruct (He Hk) as (dom & o & -> & _ & _ & Hu). exact Hu.
Qed.

Lemma add_address_post b address expression r :
  wf_registry b b r -> b < u64_max -> rpost r (add_address address expression) (fun _ => wf_registry (b + 1) (b + 1)).
Proof.
  intros Hw Hb. pose proof (wf_registry_mono b (b + 1) b (b + 1) r ltac:(lia) ltac:(lia) Hw) as Hw1.
  unfold add_address. apply rpost_debugger_bind; [done|]. intros bid. apply rpost_pid. intros pid.
  apply enter_post; [by apply (wf_registry_mono b _ b); [lia|lia|]|done|done].
Qed.

Lemma ensure_deferred_post b l pid r :
  wf_registry b l r -> 1 <= b -> rpost r (ensure_deferred pid) (fun a r' => wf_registry b l r' /\
    (a = Ok tt -> exists dom o, domains_ r' !! pid = Some dom /\ ds_deferred dom = Some o)).
Proof.
  intros Hw Hb. unfold ensure_deferred. apply rpost_get.
  destruct (domains_ r !! pid ≫= ds_deferred) as [o|] eqn:E.
  - apply post_mskip. split; [done|]. intros _. apply bind_Some in E as (dom & Hd & Ho). eauto.
  - destruct (new_deferred_breakpoints (rg_executable r)) as [o|e|w|] eqn:Hnew; try by intros s <-.
    apply post_bind, post_lift. cbn [on_ok]. unfold upd_domain, upd_registry. intros s <-. simpl. split.
    + apply wf_registry_insert; [done|]. destruct Hw as [H1 H2]. apply wf_entries_controller.
      * destruct (domains_ _ !! pid) as [dom|] eqn:Hd; [by apply (H2 pid)|apply wf_no_domain].
      * by apply (wf_new_deferred _ _ _ Hnew).
      * intros o' Ho'. destruct (domains_ _ !! pid) as [dom|]; simpl in E, Ho'; congruence.
    + intros _. rewrite lookup_insert_eq. eauto.
Qed.

(** A request of a controller: a new one, or nothing is lost. *)
Definition asks (request : M lst Z) : Prop := forall b o, wf_deferred b o -> b < u64_max ->
  post ls_object o request (fun a o' => wf_deferred (b + 1) o' /\ targets o ⊆ targets o' /\
    forall id, a = Ok id -> targets o !! id = None /\ is_Some (targets o' !! id)).

Lemma asks_symbol symbol : asks (Loader.add_symbol symbol).
Proof.
  intros b o Hw Hb. unfold Loader.add_symbol. apply post_guard.
  { intros _. split; [by apply (wf_deferred_mono b); [lia|]|]. by split. }
  intros Hs%String.eqb_neq. eapply post_weaken; [by apply (add_target_post b)|].
  intros a o' (H1 & H2 & H3). split; [done|]. split; [done|]. intros id Ha. destruct (H3 id Ha). eauto.
Qed.

Lemma asks_source file line : asks (Loader.add_source file line).
Proof.
  intros b o Hw Hb. assert (Hno : wf_deferred (b + 1) o) by (by apply (wf_deferred_mono b); [lia|]).
  unfold Loader.add_source. apply post_guard; [by intros _; split; [|split]|]. intros Hs%String.eqb_neq.
  apply post_guard; [by intros _; split; [|split]|]. intros Hl%Z.eqb_neq.
  eapply post_weaken; [by apply (add_target_post b)|].
  intros a o' (H1 & H2 & H3). split; [done|]. split; [done|]. intros id Ha. destruct (H3 id Ha). eauto.
Qed.

Lemma add_deferred_post b expression request r :
  asks request -> wf_registry b b r -> b < u64_max ->
  rpost r (add_deferred expression request) (fun _ => wf_registry (b + 1) (b + 1)).
Proof.
  intros Hreq Hw Hb. pose proof Hw as [Hn _]. unfold add_deferred. apply rpost_pid. intros pid.
  unfold upd_domain. apply rpost_upd. set (r1 := set_domains _ r).
  assert (Hw1 : wf_registry b b r1).
  { apply wf_registry_insert; [done|]. destruct (domains_ r !! pid) as [dom|] eqn:Hd; [|apply wf_no_domain].
    destruct Hw as [_ H2]. by apply (H2 pid). }
  eapply post_step; [apply (ensure_deferred_post b b pid r1 Hw1); lia|]. intros a r2 [Hw2 Hd].
  destruct a as [[]|e|w|]; cbn [on_ok]; try by apply (wf_registry_mono b _ b); [lia|lia|].
  destruct (Hd eq_refl) as (dom & o & Hdom & Ho). clear Hd. pose proof Hw2 as [Hn2 H2]. specialize (H2 pid dom Hdom).
  pose proof (Hreq b o (we_controller _ _ _ H2 o Ho) Hb) as Hcall.
  eapply post_step; [exact (with_controller_post r2 pid dom o _ _ Hdom Ho Hcall)|].
  intros a r' (o' & (H3 & H4 & H5) & ->).
  assert (Hw3 : wf_registry (b + 1) b (set_domains (<[pid:=set_deferred (Some o') dom]> (domains_ r2)) r2)).
  { apply wf_registry_insert; [by apply (wf_registry_mono b _ b); [lia|lia|]|].
    apply wf_entries_controller; [by apply (wf_entries_mono b _ (next_id_ r2)); [lia|lia|]|done|].
    intros o0 Ho0. rewrite Ho in Ho0. by injection Ho0 as <-. }
  destruct a as [bid|e|w|]; cbn [on_ok]; try by apply (wf_registry_mono (b + 1) _ b); [lia|lia|].
  destruct (H5 bid eq_refl) as [Hfree Hsome].
  apply enter_post; [done|done|]. intros _. simpl. rewrite lookup_insert_eq. exists (set_deferred (Some o') dom), o'.
  split; [done|]. split; [done|]. split; [done|]. intros k e' Hk He' Heq.
  destruct (we_backed _ _ _ H2 k e' Hk He') as (o0 & Ho0 & [t Ht]). rewrite Ho in Ho0. injection Ho0 as <-.
  rewrite Heq, Hfree in Ht. done.
Qed.

Lemma add_user_symbol_post b symbol r : wf_registry b b r -> b < u64_max ->
  rpost r (add_user_symbol symbol) (fun _ => wf_registry (b + 1) (b + 1)).
Proof.
  intros Hw Hb. pose proof (wf_registry_mono b (b + 1) b (b + 1) r ltac:(lia) ltac:(lia) Hw) as Hw1.
  unfold add_user_symbol. apply post_guard; [done|intros _]. apply rpost_pid. intros pid. apply rpost_get, rpost_debugger_bind; [done|].
  intros [resolved|]; [by apply add_address_post|]. apply add_deferred_post; [apply asks_symbol|done|done].
Qed.

Lemma add_user_source_post b file line expression r : wf_registry b b r -> b < u64_max ->
  rpost r (add_user_source file line expression) (fun _ => wf_registry (b + 1) (b + 1)).
Proof.
  intros Hw Hb. pose proof (wf_registry_mono b (b + 1) b (b + 1) r ltac:(lia) ltac:(lia) Hw) as Hw1.
  unfold add_user_source. do 2 (apply post_guard; [done|intros _]). apply rpost_pid. intros pid.
  apply rpost_get, rpost_debugger_bind; [done|].
  intros [resolved|]; [by apply add_address_post|]. apply add_deferred_post; [apply asks_source|done|done].
Qed.

Lemma remove_user_post b l id r : wf_registry b l r -> rpost r (remove_user id) (fun _ => wf_registry b l).
Proof.
  intros Hw. unfold remove_user. apply rpost_pid. intros pid. apply rpost_get.
  destruct (domains_ r !! pid) as [dom|] eqn:Hd; [|by apply post_mret].
  destruct (ds_entries dom !! id) as [entry|] eqn:He; [|by apply post_mret].
  pose proof (wr_domains _ _ _ Hw pid dom Hd) as Hdom. unfold remove_backend, upd_domain.
  destruct (en_kind entry) eqn:Hk.
  - apply rpost_debugger_bind; [done|]. intros removed. apply post_guard; [done|intros _]. apply rpost_upd, post_mret.
    apply wf_registry_insert; [done|]. rewrite Hd. by apply wf_entries_delete.
  - destruct (we_backed _ _ _ Hdom id entry He Hk) as (o & Ho & Hs). rewrite Ho. cbn [mthrow_if bool_decide].
    pose proof (remove_post b (en_backend_id entry) o (we_controller _ _ _ Hdom o Ho)) as Hcall.
    apply post_step with (fun a r' => exists o', removed b (en_backend_id entry) o a o' /\
      r' = set_domains (<[pid := set_deferred (Some o') dom]> (domains_ r)) r).
    { intros s Hs'. exact (with_controller_post r pid dom o _ _ Hd Ho Hcall s Hs'). }
    intros a r' (o' & (H1 & H2 & H3 & H4) & ->).
    assert (Hkeep : a <> Ok true -> wf_registry b l (set_domains (<[pid := set_deferred (Some o') dom]> (domains_ r)) r)).
    { intros Ha. apply wf_registry_insert; [done|]. apply wf_entries_controller; [done|done|].
      intros o0 Ho0. rewrite Ho in Ho0. injection Ho0 as <-. by rewrite H3. }
    destruct a as [[]|e|w|]; cbn [on_ok]; try by apply Hkeep.
    + apply post_guard; [done|intros _]. apply rpost_upd, post_mret. simpl. rewrite lookup_insert_eq. simpl. rewrite insert_insert_eq.
      apply (wf_registry_insert b l r); [done|]. apply (wf_entries_withdraw b (next_id_ r) dom id entry o o'); try done. by apply H2.
    + apply post_guard; [intros _; by apply Hkeep|done].
Qed.

Lemma on_image_replaced_post b l r : wf_registry b l r -> rpost r on_image_replaced (fun _ => wf_registry b l).
Proof.
  intros Hw. unfold on_image_replaced. apply rpost_pid. intros pid. apply rpost_get.
  destruct (domains_ r !! pid) as [dom|] eqn:Hd; [|by apply post_mskip].
  pose proof (wr_domains _ _ _ Hw pid dom Hd) as Hdom.
  assert (Hend : forall r', wf_registry b l r' -> rpost r' (upd_domain pid (fun _ => no_domain)) (fun _ => wf_registry b l)).
  { intros r' Hw' s <-. simpl. apply wf_registry_insert; [done|apply wf_no_domain]. }
  destruct (ds_deferred dom) as [o|] eqn:Ho; [|by apply Hend].
  eapply post_step; [exact (with_controller_post r pid dom o _ _ Hd Ho (suspend_post o))|].
  intros a r' (o' & (-> & ->) & ->). apply Hend, wf_registry_insert; [done|].
  destruct (we_controller _ _ _ Hdom o Ho) as [H1 H2 H3].
  apply wf_entries_controller; [done|split; [done|done|by apply wf_monitor_none]|].
  intros o0 Ho0. rewrite Ho in Ho0. by injection Ho0 as <-.
Qed.

Lemma continue_user_post b l policy r : wf_registry b l r -> rpost r (continue_user fuel policy) (fun _ => wf_registry b l).
Proof.
  intros Hw. unfold continue_user. apply rpost_pid. intros pid. apply rpost_get.
  destruct (domains_ r !! pid) as [dom|] eqn:Hd; [|by apply rpost_debugger]. simpl.
  destruct (ds_deferred dom) as [o|] eqn:Ho; [|by apply rpost_debugger].
  pose proof (wr_domains _ _ _ Hw pid dom Hd) as Hdom.
  pose proof (continue_post fuel b policy o (we_controller _ _ _ Hdom o Ho)) as Hcall.
  eapply post_weaken; [exact (with_controller_post r pid dom o _ _ Hd Ho Hcall)|].
  intros a r' (o' & [[H1 H2] _] & ->). apply wf_registry_insert; [done|]. apply wf_entries_controller; [done|done|].
  intros o0 Ho0. rewrite Ho in Ho0. injection Ho0 as <-. by rewrite H2.
Qed.
End Operations.

Lemma refer_executable_wf b l executable r : wf_registry b l r -> wf_registry b l (refer_executable executable r).
Proof.
  intros [H1 H2]. split; [done|]. simpl. intros pid dom. rewrite lookup_fmap, fmap_Some.
  intros (dom0 & Hd & ->). destruct (H2 pid dom0 Hd) as [Hi Hc Hb Hu]. split; simpl; [done| | |done].
  - intros o. rewrite fmap_Some. intros (o0 & Ho & ->). destruct (Hc o0 Ho) as [Hn Hr Hm]. apply (wf_deferred_monitor b o0); [by split|done|].
    destruct Hm. by split.
  - intros k e Hk He. destruct (Hb k e Hk He) as (o & -> & Ht). by exists (set_executable executable o).
Qed.

(** ** Reachable registries *)

(** One call of the public interface, or an assignment to the executable it refers to. *)
Inductive registry_op :=
  | RegistryAddAddress (address : Z) (expression : string)
  | RegistryAddSymbol (symbol : string)
  | RegistryAddSource (file : string) (line : Z) (expression : string)
  | RegistryRemove (id : Z)
  | RegistryImageReplaced
  | RegistryContinue (policy : SignalPolicy)
  | RegistryReferExecutable (executable : Elf.ElfFile).

(** The element that alone satisfies a test is the one that is found. *)
Lemma find_unique {A} (P : A -> bool) l x :
  x ∈ l -> P x = true -> (forall y, y ∈ l -> P y = true -> y = x) -> List.find P l = Some x.
Proof.
  intros Hx Hp Hu. destruct (List.find P l) as [y|] eqn:E.
  - apply find_some in E as [Hy Hpy]. f_equal. by apply Hu; [apply list_elem_of_In|].
  - apply find_none with (x := x) in E; [congruence|by apply list_elem_of_In].
Qed.

Lemma elem_of_values {A} (m : gmap Z A) v : v ∈ (map_in_order m).*2 <-> exists k, m !! k = Some v.
Proof.
  rewrite list_elem_of_fmap. split.
  - intros ([k w] & -> & Hk%elem_of_map_in_order). by exists k.
  - intros [k Hk%elem_of_map_in_order]. by exists (k, v).
Qed.

Section Reachable.
Context `{FA : FileAccess} `{H : Host} `{FI : FileIdentity} `{K : Kernel} `{PM : !ProcMaps K}.

Definition run_registry_op (fuel : nat) (op : registry_op) : M rst unit :=
  match op with
  | RegistryAddAddress address expression => _ ← add_address address expression; mskip
  | RegistryAddSymbol symbol => _ ← add_user_symbol symbol; mskip
  | RegistryAddSource file line expression => _ ← add_user_source file line expression; mskip
  | RegistryRemove id => _ ← remove_user id; mskip
  | RegistryImageReplaced => on_image_replaced
  | RegistryContinue policy => _ ← continue_user fuel policy; mskip
  | RegistryReferExecutable executable => upd_registry (refer_executable executable)
  end.

(** The registries that [n] calls lead to, with the debugger free to change between them, the
    active process included. *)
Inductive registries : nat -> UserBreakpointRegistry -> Prop :=
  | registries_new executable : registries 0 (new_registry executable)
  | registries_op n r fuel op d :
      registries n r -> registries (S n) (rs_registry (snd (run_registry_op fuel op (mkRst r d)))).

Lemma run_registry_op_post b fuel op r : wf_registry b b r -> b < u64_max ->
  post rs_registry r (run_registry_op fuel op) (fun _ => wf_registry (b + 1) (b + 1)).
Proof.
  intros Hw Hb.
  assert (Hig : forall A (m : M rst A), post rs_registry r m (fun _ => wf_registry (b + 1) (b + 1)) ->
    post rs_registry r (_ ← m; mskip) (fun _ => wf_registry (b + 1) (b + 1))).
  { intros A m Hm. eapply post_step; [exact Hm|]. intros [] r' Hr'; cbn [on_ok]; [by apply post_mskip|done..]. }
  assert (Hup : forall r', wf_registry b b r' -> wf_registry (b + 1) (b + 1) r')
    by (intros r' Hr'; by apply (wf_registry_mono b _ b); [lia|lia|]).
  destruct op as [address expression|symbol|file line expression|id| |policy|executable]; cbn [run_registry_op]; try apply Hig.
  - by apply add_address_post.
  - by apply add_user_symbol_post.
  - by apply add_user_source_post.
  - eapply post_weaken; [by apply remove_user_post|]. auto.
  - eapply post_weaken; [by apply on_image_replaced_post|]. auto.
  - eapply post_weaken; [by apply continue_user_post|]. auto.
  - intros s <-. by apply refer_executable_wf, Hup.
Qed.

(** What every reachable registry keeps. *)
Lemma registries_wf n r : registries n r -> 1 + Z.of_nat n <= u64_max -> wf_registry (1 + Z.of_nat n) (1 + Z.of_nat n) r.
Proof.
  induction 1 as [executable|n r fuel op d _ IH]; intros Hn.
  - split; simpl; [lia|]. intros pid dom. by rewrite lookup_empty.
  - replace (1 + Z.of_nat (S n)) with (1 + Z.of_nat n + 1) by lia.
    apply (run_registry_op_post (1 + Z.of_nat n) fuel op r); [apply IH; lia|lia|done].
Qed.

(** The request an entry stands for. *)
Lemma find_request b o id : wf_deferred b o ->
  List.find (fun request => df_request_id request =? id) (deferred_breakpoints o) = requests_ o !! id.
Proof.
  intros [_ [H1 _ _ _] _]. unfold deferred_breakpoints. destruct (requests_ o !! id) as [request|] eqn:E.
  - apply find_unique; [apply elem_of_values; by exists id|by rewrite (proj1 (H1 id request E)), Z.eqb_refl|].
    intros y [k Hk]%elem_of_values Hy%Z.eqb_eq. rewrite (proj1 (H1 k y Hk)) in Hy. subst. congruence.
  - destruct (List.find _ _) as [y|] eqn:Ey; [|done]. apply find_some in Ey as [[k Hk]%list_elem_of_In%elem_of_values Hy%Z.eqb_eq].
    rewrite (proj1 (H1 k y Hk)) in Hy. subst. congruence.
Qed.

(** C17: in every reachable registry a breakpoint that stands for a deferred request is backed by a
    request of its process's controller, and is shown by it: pending while the request has no
    breakpoint, else with its address and whether it is in place.  That the debugger has forgotten
    a resolved breakpoint is the only error left of the three the code checks for. *)
Theorem deferred_breakpoint_backed n r d id dom entry :
  registries n r -> 1 + Z.of_nat n <= u64_max ->
  active_domain_if_present r d = Some dom -> ds_entries dom !! id = Some entry -> en_kind entry = Deferred ->
  exists o request, ds_deferred dom = Some o /\ requests_ o !! en_backend_id entry = Some request /\
    breakpoint r d id =
      match df_breakpoint_id request, df_address request with
      | Some breakpoint_id, Some address =>
        match find_breakpoint breakpoint_id d with
        | Some bp => Ok (Some (mkUserBreakpoint id (en_expression entry) (Some address) (installed_state bp)))
        | None => logic_error "resolved deferred breakpoint disappeared from debugger ownership"
        end
      | _, _ => Ok (Some (mkUserBreakpoint id (en_expression entry) None Pending))
      end.
Proof.
  intros Hr Hn Hd He Hk. pose proof (wr_domains _ _ _ (registries_wf n r Hr Hn) _ _ Hd) as Hdom.
  destruct (we_backed _ _ _ Hdom id entry He Hk) as (o & Ho & [t Ht]).
  unfold targets in Ht. rewrite lookup_fmap, fmap_Some in Ht. destruct Ht as (request & Hreq & _).
  exists o, request. split; [done|]. split; [done|].
  unfold breakpoint, snapshot. rewrite Hd, He, Hk, Ho, (find_request _ o _ (we_controller _ _ _ Hdom o Ho)), Hreq.
  destruct (df_breakpoint_id request), (df_address request); try done. by destruct (find_breakpoint _ _).
Qed.
End Reachable.

(** ** A breakpoint at an address: what is added is what is shown, until it is removed *)

Section RoundTrip.
Context `{FA : FileAccess} `{H : Host} `{FI : FileIdentity} `{K : Kernel} `{PM : !ProcMaps K}.

(** The breakpoint of an identifier. *)
Lemma find_breakpoint_at bound d address bp :
  wf_debugger bound d -> breakpoints_by_address_ d !! address = Some bp -> find_breakpoint (bp_id bp) d = Some bp.
Proof.
  intros [_ [_ _ H3 _ _] _ _] Hb. unfold find_breakpoint, breakpoints.
  apply find_unique; [apply elem_of_values; by exists address|apply Z.eqb_refl|].
  intros y [k Hk]%elem_of_values Hy%Z.eqb_eq. destruct (H3 _ _ Hb) as (_ & Hid & _), (H3 _ _ Hk) as (_ & Hid' & _).
  unfold breakpoints_by_address_ in *. congruence.
Qed.

Lemma add_address_run address expression s id s' :
  add_address address expression s = (Ok id, s') ->
  exists bid d', add_breakpoint address (rs_dst s) = (Ok bid, d') /\ id = next_id_ (rs_registry s) /\ rs_dst s' = d' /\
    rs_registry s' = let pid := active_pid (st_debugger d') in
      let r := set_next_id (u64 (id + 1)) (rs_registry s) in
      set_domains (<[pid := let dom := default no_domain (domains_ r !! pid) in
        set_entries (emplace id (mkEntry expression Managed bid) (ds_entries dom)) dom]> (domains_ r)) r.
Proof.
  unfold add_address. unfold mbind at 1, M_bind at 1, with_debugger, zoom at 1.
  destruct (add_breakpoint address (rs_dst s)) as [[bid|e|w|] d']; try done. cbn.
  intros [= <- <-]. by exists bid, d'.
Qed.

Lemma run_pid {B} (f : Z -> M rst B) s : (get_pid ≫= f) s = f (active_pid (st_debugger (rs_dst s))) s.
Proof. by destruct s. Qed.

(** The entry of an identifier, and what removing it runs. *)
Lemma remove_user_managed id s dom entry b s' :
  domains_ (rs_registry s) !! active_pid (st_debugger (rs_dst s)) = Some dom -> ds_entries dom !! id = Some entry ->
  en_kind entry = Managed -> remove_user id s = (Ok b, s') ->
  b = true /\ remove_breakpoint (en_backend_id entry) (rs_dst s) = (Ok true, rs_dst s') /\
    domains_ (rs_registry s') = <[active_pid (st_debugger (rs_dst s)) := set_entries (delete id (ds_entries dom)) dom]>
      (domains_ (rs_registry s)).
Proof.
  intros Hd He Hk. unfold remove_user. rewrite run_pid. unfold get_registry. rewrite run_gets, Hd, He.
  unfold remove_backend. rewrite Hk. unfold mbind at 1, M_bind at 1, with_debugger, zoom.
  destruct (remove_breakpoint (en_backend_id entry) (rs_dst s)) as [[[]|e|w|] d']; try done.
  rewrite run_throw_if. cbn [negb]. unfold upd_domain, upd_registry. rewrite run_modify. intros [= <- <-].
  split; [done|]. split; [done|]. cbn [domains_ set_domains rs_registry rs_dst]. by rewrite Hd.
Qed.

(** What removing the entry of an address runs. *)
Lemma remove_user_run id s dom entry d' :
  domains_ (rs_registry s) !! active_pid (st_debugger (rs_dst s)) = Some dom -> ds_entries dom !! id = Some entry ->
  en_kind entry = Managed -> remove_breakpoint (en_backend_id entry) (rs_dst s) = (Ok true, d') ->
  exists s', remove_user id s = (Ok true, s') /\ rs_dst s' = d'.
Proof.
  intros Hd He Hk E. unfold remove_user. rewrite run_pid. unfold get_registry. rewrite run_gets, Hd, He.
  unfold remove_backend. rewrite Hk. unfold mbind at 1, M_bind at 1, with_debugger, zoom. rewrite E. cbn. eexists. by split.
Qed.

(** The entry [id] of the process the debugger is at stands for the breakpoint at [address]. *)
Definition entered_at (s : rst) (id address : Z) (dom : DomainState) (entry : Entry) : Prop :=
  domains_ (rs_registry s) !! active_pid (st_debugger (rs_dst s)) = Some dom /\ ds_entries dom !! id = Some entry /\
  en_kind entry = Managed /\ breakpoint_ids_ (st_debugger (rs_dst s)) !! en_backend_id entry = Some address.

Lemma add_address_shown bound b l s address expression bid d' :
  wf_registry b l (rs_registry s) -> wf_debugger bound (st_debugger (rs_dst s)) -> bound < u64_max ->
  add_breakpoint address (rs_dst s) = (Ok bid, d') ->
  exists s' dom entry, add_address address expression s = (Ok (next_id_ (rs_registry s)), s') /\ rs_dst s' = d' /\
    breakpoint (rs_registry s') (st_debugger d') (next_id_ (rs_registry s)) =
      Ok (Some (mkUserBreakpoint (next_id_ (rs_registry s)) expression (Some address) Enabled)) /\
    entered_at s' (next_id_ (rs_registry s)) address dom entry /\ en_backend_id entry = bid.
Proof.
  intros Hr Hd Hb Hadd. destruct (add_breakpoint_adds _ _ _ _ Hadd) as (Hbid & _ & Hproc & original & Hbp).
  assert (Hwd : wf_debugger (bound + 1) (st_debugger d')).
  { pose proof (add_breakpoint_wf (bound + 1) address (rs_dst s)) as Hw. rewrite Hadd in Hw. apply Hw; [|lia].
    unfold wf_dst. by replace (bound + 1 - 1) with bound by lia. }
  set (n := next_id_ (rs_registry s)). set (pid := active_pid (st_debugger d')).
  set (dom0 := default no_domain (domains_ (rs_registry s) !! pid)). set (entry := mkEntry expression Managed bid).
  assert (Hfresh : ds_entries dom0 !! n = None).
  { apply eq_None_not_Some. intros [e He]. unfold dom0 in He. destruct (domains_ _ !! pid) as [dom|] eqn:E; [|done].
    pose proof (we_id _ _ _ (wr_domains _ _ _ Hr _ _ E) n e He). lia. }
  assert (Hrun : exists s', add_address address expression s = (Ok n, s') /\ rs_dst s' = d' /\
    domains_ (rs_registry s') = <[pid := set_entries (emplace n entry (ds_entries dom0)) dom0]> (domains_ (rs_registry s))).
  { assert (Hw : with_debugger (add_breakpoint address) s = (Ok bid, mkRst (rs_registry s) d'))
      by (unfold with_debugger, zoom; by rewrite Hadd).
    unfold add_address. rewrite (run_Ok _ _ _ _ _ Hw), run_pid. unfold enter, get_registry. rewrite run_gets.
    unfold upd_domain, upd_registry. rewrite !run_modify. eexists. split; [reflexivity|]. by split. }
  destruct Hrun as (s' & E & Hdst & Hreg).
  assert (Hat : entered_at s' n address (set_entries (emplace n entry (ds_entries dom0)) dom0) entry).
  { unfold entered_at. rewrite Hreg, Hdst. fold pid. rewrite lookup_insert_eq. split; [done|].
    split; [simpl; unfold emplace; rewrite Hfresh; apply lookup_insert_eq|]. split; [done|].
    by destruct (wd_bps _ _ (wg_active _ _ Hwd) _ _ Hbp) as (_ & ? & _). }
  eexists s', _, entry. split; [done|]. split; [done|]. split; [|by split].
  destruct Hat as (Hdom & Hent & _). unfold breakpoint, active_domain_if_present, snapshot. rewrite Hdst in Hdom.
  rewrite Hdom, Hent. simpl. pose proof (find_breakpoint_at _ _ _ _ Hwd Hbp) as Hf. simpl in Hf. by rewrite Hf.
Qed.

Lemma remove_address_forgets id address s dom entry removed s' :
  entered_at s id address dom entry -> remove_user id s = (Ok removed, s') ->
  removed = true /\ breakpoint (rs_registry s') (st_debugger (rs_dst s')) id = Ok None /\
  breakpoints_by_address_ (st_debugger (rs_dst s')) = delete address (breakpoints_by_address_ (st_debugger (rs_dst s))).
Proof.
  intros (Hdom & Hent & Hk & Hid) Hrem.
  destruct (remove_user_managed _ _ _ _ _ _ Hdom Hent Hk Hrem) as (-> & Hrb & Hdoms).
  destruct (remove_breakpoint_removes _ _ _ _ _ Hrb Hid) as (_ & Hproc & Hbps & _). split; [done|]. split; [|done].
  unfold breakpoint, active_domain_if_present, active_pid in *.
  rewrite Hdoms, Hproc, lookup_insert_eq. simpl. by rewrite lookup_delete_eq.
Qed.

(** C18: a breakpoint the user sets at an address is then shown at that address under the number that
    was returned, with the user's text and enabled; when it is removed the number is unknown and the
    debugger has no breakpoint there. *)
Theorem add_address_round_trip bound b l s address expression id s' :
  wf_registry b l (rs_registry s) -> wf_debugger bound (st_debugger (rs_dst s)) -> bound < u64_max ->
  add_address address expression s = (Ok id, s') ->
  breakpoint (rs_registry s') (st_debugger (rs_dst s')) id =
    Ok (Some (mkUserBreakpoint id expression (Some address) Enabled)) /\
  forall removed s'', remove_user id s' = (Ok removed, s'') ->
    removed = true /\ breakpoint (rs_registry s'') (st_debugger (rs_dst s'')) id = Ok None /\
    breakpoints_by_address_ (st_debugger (rs_dst s'')) !! address = None.
Proof.
  intros Hr Hd Hb E. destruct (add_address_run _ _ _ _ _ E) as (bid & d' & Hadd & -> & _).
  destruct (add_address_shown bound b l s address expression bid d' Hr Hd Hb Hadd) as (s1 & dom & entry & E1 & Hdst & Hshown & Hat & _).
  rewrite E in E1. injection E1 as <-. rewrite Hdst. split; [done|]. intros removed s'' Hrem.
  destruct (remove_address_forgets _ _ _ _ _ _ _ Hat Hrem) as (-> & Hnone & Hbps). rewrite Hbps, lookup_delete_eq. done.
Qed.
End RoundTrip.

(** ** Witnesses: a pending symbol, and a breakpoint at an address *)

Definition demo_registry : rst (K := SimKernel) :=
  snd (run_registry_op (FA := DemoLoaderFiles) (H := DemoHost) (FI := DemoIdentity) (PM := DemoMaps) 9
    (RegistryAddSymbol "late") (mkRst (new_registry demo_tracee_elf) demo_loader_dst)).

Definition demo_registry_domain : DomainState :=
  default no_domain (active_domain_if_present (rs_registry demo_registry) (st_debugger (rs_dst demo_registry))).

Lemma deferred_breakpoint_backed_witness :
  breakpoint (rs_registry demo_registry) (st_debugger (rs_dst demo_registry)) 1 =
    Ok (Some (mkUserBreakpoint 1 "late" None Pending)) /\
  exists o request, ds_deferred demo_registry_domain = Some o /\ requests_ o !! 1 = Some request.
Proof.
  split; [vm_compute; reflexivity|].
  destruct (deferred_breakpoint_backed (FA := DemoLoaderFiles) (H := DemoHost) (FI := DemoIdentity) (PM := DemoMaps)
    1 (rs_registry demo_registry) (st_debugger (rs_dst demo_registry)) 1 demo_registry_domain (mkEntry "late" Deferred 1))
    as (o & request & Ho & Hreq & _).
  - apply (registries_op (FA := DemoLoaderFiles) 0 (new_registry demo_tracee_elf) 9 (RegistryAddSymbol "late") demo_loader_dst).
    apply registries_new.
  - vm_compute. discriminate.
  - vm_compute. reflexivity.
  - vm_compute. reflexivity.
  - reflexivity.
  - exists o, request. exact (conj Ho Hreq).
Defined.

Definition demo_address_added : res Z * rst (K := SimKernel) :=
  add_address 0x1001 "*0x1001" (mkRst (new_registry demo_tracee_elf) demo_loader_dst).

Lemma demo_loader_debugger_wf : wf_debugger 1 (st_debugger demo_loader_dst).
Proof. apply wf_new_debugger, wf_single_stopped_task. Qed.

Lemma demo_address_ok : fst demo_address_added = Ok 1.
Proof. vm_compute. reflexivity. Qed.

Lemma add_address_round_trip_witness :
  breakpoint (rs_registry (snd demo_address_added)) (st_debugger (rs_dst (snd demo_address_added))) 1 =
    Ok (Some (mkUserBreakpoint 1 "*0x1001" (Some 0x1001) Enabled)).
Proof.
  apply (add_address_round_trip 1 1 1 (mkRst (new_registry demo_tracee_elf) demo_loader_dst) 0x1001 "*0x1001" 1 (snd demo_address_added)).
  - split; simpl; [lia|]. intros pid dom. rewrite lookup_empty. discriminate.
  - exact demo_loader_debugger_wf.
  - reflexivity.
  - fold demo_address_added. rewrite <- demo_address_ok. apply surjective_pairing.
Defined.
