(* ===== verification/DebugInfo.v ===== *)
(** * Debugging information entries ([src/dwarf/source_lookup_impl.inc])

    The first half of the DWARF source lookup: the debug sections of a file, the
    abbreviations, the entries (DIEs) of a compilation unit of version 4 or 5 with their
    attributes, and the indexes version 5 puts into them.  The entries of a unit are a
    vector in the order of the section, an entry's parent an index into it. *)

From S2P Require Import Prelude Machine ByteReader ElfFormat.
From S2P Require LineTable.

(* src/dwarf/source_lookup_impl.inc:33-33 kDwTagLexicalBlock *)
Definition kDwTagLexicalBlock : Z := 0x0b.
(* src/dwarf/source_lookup_impl.inc:31-31 kDwTagFormalParameter *)
Definition kDwTagFormalParameter : Z := 0x05.
(* src/dwarf/source_lookup_impl.inc:38-38 kDwTagInlinedSubroutine *)
Definition kDwTagInlinedSubroutine : Z := 0x1d.
(* src/dwarf/source_lookup_impl.inc:43-43 kDwTagSubprogram *)
Definition kDwTagSubprogram : Z := 0x2e.
(* src/dwarf/source_lookup_impl.inc:44-44 kDwTagVariable *)
Definition kDwTagVariable : Z := 0x34.
(* src/dwarf/source_lookup_impl.inc:47-47 kDwAtName *)
Definition kDwAtName : Z := 0x03.
(* src/dwarf/source_lookup_impl.inc:52-52 kDwAtLowPc *)
Definition kDwAtLowPc : Z := 0x11.
(* src/dwarf/source_lookup_impl.inc:53-53 kDwAtHighPc *)
Definition kDwAtHighPc : Z := 0x12.
(* src/dwarf/source_lookup_impl.inc:56-56 kDwAtAbstractOrigin *)
Definition kDwAtAbstractOrigin : Z := 0x31.
(* src/dwarf/source_lookup_impl.inc:63-63 kDwAtStrOffsetsBase *)
Definition kDwAtStrOffsetsBase : Z := 0x72.
(* src/dwarf/source_lookup_impl.inc:64-64 kDwAtAddrBase *)
Definition kDwAtAddrBase : Z := 0x73.
(* src/dwarf/source_lookup_impl.inc:65-65 kDwAtLoclistsBase *)
Definition kDwAtLoclistsBase : Z := 0x8c.
(* src/dwarf/source_lookup_impl.inc:67-67 kDwFormAddr *)
Definition kDwFormAddr : Z := 0x01.
(* src/dwarf/source_lookup_impl.inc:68-68 kDwFormData2 *)
Definition kDwFormData2 : Z := 0x05.
(* src/dwarf/source_lookup_impl.inc:69-69 kDwFormData4 *)
Definition kDwFormData4 : Z := 0x06.
(* src/dwarf/source_lookup_impl.inc:70-70 kDwFormData8 *)
Definition kDwFormData8 : Z := 0x07.
(* src/dwarf/source_lookup_impl.inc:71-71 kDwFormString *)
Definition kDwFormString : Z := 0x08.
(* src/dwarf/source_lookup_impl.inc:72-72 kDwFormData1 *)
Definition kDwFormData1 : Z := 0x0b.
(* src/dwarf/source_lookup_impl.inc:73-73 kDwFormSdata *)
Definition kDwFormSdata : Z := 0x0d.
(* src/dwarf/source_lookup_impl.inc:74-74 kDwFormStrp *)
Definition kDwFormStrp : Z := 0x0e.
(* src/dwarf/source_lookup_impl.inc:75-75 kDwFormUdata *)
Definition kDwFormUdata : Z := 0x0f.
(* src/dwarf/source_lookup_impl.inc:76-76 kDwFormRef4 *)
Definition kDwFormRef4 : Z := 0x13.
(* src/dwarf/source_lookup_impl.inc:77-77 kDwFormSecOffset *)
Definition kDwFormSecOffset : Z := 0x17.
(* src/dwarf/source_lookup_impl.inc:78-78 kDwFormExprloc *)
Definition kDwFormExprloc : Z := 0x18.
(* src/dwarf/source_lookup_impl.inc:79-79 kDwFormFlagPresent *)
Definition kDwFormFlagPresent : Z := 0x19.
(* src/dwarf/source_lookup_impl.inc:80-80 kDwFormAddrx *)
Definition kDwFormAddrx : Z := 0x1b.
(* src/dwarf/source_lookup_impl.inc:81-81 kDwFormLineStrp *)
Definition kDwFormLineStrp : Z := 0x1f.
(* src/dwarf/source_lookup_impl.inc:82-82 kDwFormImplicitConst *)
Definition kDwFormImplicitConst : Z := 0x21.
(* src/dwarf/source_lookup_impl.inc:83-83 kDwFormLoclistx *)
Definition kDwFormLoclistx : Z := 0x22.
(* src/dwarf/source_lookup_impl.inc:84-84 kDwFormStrx1 *)
Definition kDwFormStrx1 : Z := 0x25.
(* src/dwarf/source_lookup_impl.inc:86-86 kDwUtCompile *)
Definition kDwUtCompile : Z := 0x01.
(* src/dwarf/source_lookup_impl.inc:127-127 kMaxAbstractOriginDepth *)
Definition kMaxAbstractOriginDepth : nat := 8.

(* src/dwarf/source_lookup_impl.inc:129-138 DebugSections *)
Record DebugSections := mkSections {
  info : list byte; abbrev : list byte; strings : list byte; line_strings : list byte; locations : list byte;
  location_lists : list byte; addresses : list byte; string_offsets : list byte
}.
(* src/dwarf/source_lookup_impl.inc:140-144 AttributeSpec *)
Record AttributeSpec := mkSpec { as_name : Z; as_form : Z; implicit_constant : Z }.
(* src/dwarf/source_lookup_impl.inc:146-150 Abbreviation *)
Record Abbreviation := mkAbbreviation { ab_tag : Z; has_children : bool; ab_attributes : list AttributeSpec }.
(* src/dwarf/source_lookup_impl.inc:152-158 AttributeValue *)
Record AttributeValue := mkAttribute {
  av_name : Z; av_form : Z; av_number : Z; av_text : string; av_expression : list byte
}.
(* src/dwarf/source_lookup_impl.inc:160-165 Die *)
Record Die := mkDie {
  die_offset : Z; die_tag : Z; die_parent : option nat; die_attributes : list AttributeValue
}.
(* src/dwarf/source_lookup_impl.inc:172-177 LoclistsContribution *)
Record LoclistsContribution := mkContribution {
  lc_start : Z; offsets_base : Z; lc_end : Z; offset_count : Z
}.

(** ** Readers *)

(* src/dwarf/source_lookup_impl.inc:183-191 read_at *)
Definition read_at (what : string) (bytes : list byte) (offset n : Z) : res Z :=
  read_at_with (what +:+ " extends past end of data") bytes offset n.
(* src/dwarf/source_lookup_impl.inc:183-191 read_at *)
Definition read_struct_at {T} (what : string) (sizeof : Z) (at_ : list byte -> Z -> T) (bytes : list byte)
    (offset : Z) : res T :=
  _ ← throw_if (out_of_bounds bytes offset sizeof) (Exn RuntimeError (what +:+ " extends past end of data"));
  Ok (at_ bytes offset).
(* src/dwarf/source_lookup_impl.inc:193-202 read_scalar *)
Definition read_scalar (what : string) (bytes : list byte) (limit n : Z) : M Z Z :=
  read_scalar_with (what +:+ " extends past DWARF boundary") (what +:+ " extends past end of data") bytes limit n.
(* src/dwarf/source_lookup_impl.inc:204-219 read_uleb *)
Definition read_uleb (what : string) (bytes : list byte) (limit : Z) : M Z Z :=
  read_uleb_with (read_scalar what bytes limit 1) (what +:+ " overflows 64 bits") (what +:+ " is too long").
(* src/dwarf/source_lookup_impl.inc:221-236 read_sleb *)
Definition read_sleb (what : string) (bytes : list byte) (limit : Z) : M Z Z :=
  read_sleb_with (read_scalar what bytes limit 1) None (what +:+ " is too long").
(* src/dwarf/source_lookup_impl.inc:238-247 read_c_string *)
Definition read_c_string (what : string) (bytes : list byte) (limit : Z) : M Z string :=
  read_c_string_with ("unterminated " +:+ what) bytes limit.

(** [begin() + first] to [begin() + last]. *)
Definition byte_range (bytes : list byte) (first last : Z) : res (list byte) :=
  if (0 <=? first) && (first <=? last) && (last <=? size_of bytes)
  then Ok (take (Z.to_nat (last - first)) (drop (Z.to_nat first) bytes))
  else Undef "iterator past the end of a vector".

(** A reader with a cursor of its own. *)
Definition string_at (what : string) (bytes : list byte) (cursor : Z) : res string :=
  fst (read_c_string what bytes (size_of bytes) cursor).

(** ** The sections of a file *)

(** The sections of the wanted names; the first of a name stays. *)
(* src/dwarf/source_lookup_impl.inc:293-309 read_named_sections *)
Fixpoint collect_sections (bytes : list byte) (wanted : list string) (names_size names_begin names_end : Z)
    (result : gmap string (list byte)) (sections : list Elf64_Shdr) : res (gmap string (list byte)) :=
  match sections with
  | [] => Ok result
  | section :: sections =>
    if names_size <=? sh_name section
    then collect_sections bytes wanted names_size names_begin names_end result sections
    else
      name ← fst (read_c_string "ELF section name" bytes names_end (names_begin + sh_name section));
      if negb (bool_decide (name ∈ wanted))
      then collect_sections bytes wanted names_size names_begin names_end result sections
      else
        _ ← throw_if (negb (Z.land (sh_flags section) SHF_COMPRESSED =? 0))
              (Exn RuntimeError ("compressed " +:+ name +:+ " is unsupported"));
        _ ← throw_if (out_of_bounds bytes (sh_offset section) (sh_size section))
              (Exn RuntimeError (name +:+ " extends past end of file"));
        content ← byte_range bytes (sh_offset section) (sh_offset section + sh_size section);
        collect_sections bytes wanted names_size names_begin names_end
          (match result !! name with Some _ => result | None => <[name := content]> result end) sections
  end.

(* src/dwarf/source_lookup_impl.inc:266-310 read_named_sections *)
Definition named_sections (bytes : list byte) (wanted : list string) : res (gmap string (list byte)) :=
  header ← read_struct_at "ELF header" sizeof_Ehdr ehdr_at bytes 0;
  _ ← throw_if (negb (has_elf_magic header) || negb (ident header EI_CLASS =? ELFCLASS64) ||
                negb (ident header EI_DATA =? ELFDATA2LSB) || negb (e_machine header =? EM_X86_64))
        (Exn RuntimeError "local-value inspection requires little-endian x86-64 ELF64");
  _ ← throw_if ((e_shnum header =? 0) || (e_shstrndx header =? SHN_UNDEF) ||
                negb (e_shentsize header =? sizeof_Shdr) || (e_shstrndx header =? SHN_XINDEX) ||
                (e_shnum header <=? e_shstrndx header))
        (Exn RuntimeError "unsupported ELF section layout for local-value inspection");
  sections ← mapM (fun index => read_struct_at "ELF section header" sizeof_Shdr shdr_at bytes
                      (u64 (e_shoff header + Z.of_nat index * sizeof_Shdr)))
               (seq 0 (Z.to_nat (e_shnum header)));
  match sections !! Z.to_nat (e_shstrndx header) with
  | None => Undef "vector index out of range"
  | Some names =>
    _ ← throw_if (out_of_bounds bytes (sh_offset names) (sh_size names))
          (Exn RuntimeError "ELF section-name table extends past end of file");
    collect_sections bytes wanted (sh_size names) (sh_offset names) (sh_offset names + sh_size names) ∅ sections
  end.

Section Files.
Context `{H : Host}.

(* src/dwarf/source_lookup_impl.inc:249-262 read_file *)
Definition read_file (path : string) : res (list byte) :=
  match h_file path with
  | FileOpenFailed => runtime_error ("failed to open ELF file: " +:+ path)
  | FileSizeFailed => runtime_error "failed to determine ELF file size"
  | FileReadFailed => runtime_error "failed to read ELF file"
  | FileBytes bytes => Ok bytes
  end.

(* src/dwarf/source_lookup_impl.inc:264-310 read_named_sections *)
Definition read_named_sections (path : string) (wanted : list string) : res (gmap string (list byte)) :=
  bytes ← read_file path;
  named_sections bytes wanted.

(* src/dwarf/source_lookup_impl.inc:312-335 read_debug_sections *)
Definition read_debug_sections (path : string) : res DebugSections :=
  sections ← read_named_sections path
    [".debug_info"; ".debug_abbrev"; ".debug_str"; ".debug_line_str"; ".debug_loc"; ".debug_loclists";
     ".debug_addr"; ".debug_str_offsets"];
  let section_or_empty name := default [] (sections !! name) in
  match sections !! ".debug_info", sections !! ".debug_abbrev", sections !! ".debug_str" with
  | Some info, Some abbrev, Some strings =>
    Ok (mkSections info abbrev strings (section_or_empty ".debug_line_str") (section_or_empty ".debug_loc")
          (section_or_empty ".debug_loclists") (section_or_empty ".debug_addr")
          (section_or_empty ".debug_str_offsets"))
  | _, _, _ =>
    runtime_error "local-value inspection requires .debug_info, .debug_abbrev, and .debug_str"
  end.
End Files.

(** ** Abbreviations *)

(** The attribute specifications of one abbreviation, up to the pair of zeros. *)
(* src/dwarf/source_lookup_impl.inc:350-363 parse_abbreviations *)
Fixpoint abbreviation_attributes (fuel : nat) (bytes : list byte) : M Z (list AttributeSpec) :=
  match fuel with
  | O => mout_of_fuel
  | S fuel =>
    name ← read_uleb "abbreviation attribute" bytes (size_of bytes);
    form ← read_uleb "abbreviation form" bytes (size_of bytes);
    if (name =? 0) && (form =? 0) then mret []
    else
      _ ← mthrow_if ((name =? 0) || (form =? 0)) RuntimeError
            "malformed DWARF abbreviation attribute/form pair";
      implicit_constant ← (if form =? kDwFormImplicitConst
                           then read_sleb "DW_FORM_implicit_const value" bytes (size_of bytes) else mret 0);
      rest ← abbreviation_attributes fuel bytes;
      mret (mkSpec name form implicit_constant :: rest)
  end.

(** Every turn reads two bytes at least. *)
(* src/dwarf/source_lookup_impl.inc:342-367 parse_abbreviations *)
Fixpoint abbreviations_loop (fuel : nat) (bytes : list byte) (result : gmap Z Abbreviation)
    : M Z (gmap Z Abbreviation) :=
  cursor ← mget;
  if cursor <? size_of bytes then
    match fuel with
    | O => mout_of_fuel
    | S fuel =>
      code ← read_uleb "abbreviation code" bytes (size_of bytes);
      if code =? 0 then mret result
      else
        tag ← read_uleb "abbreviation tag" bytes (size_of bytes);
        children ← read_scalar "abbreviation children flag" bytes (size_of bytes) 1;
        _ ← mthrow_if (1 <? children) RuntimeError "invalid DWARF abbreviation children flag";
        attributes ← abbreviation_attributes (S (length bytes)) bytes;
        _ ← mthrow_if (bool_decide (is_Some (result !! code))) RuntimeError
              "duplicate DWARF abbreviation code";
        abbreviations_loop fuel bytes (<[code := mkAbbreviation tag (negb (children =? 0)) attributes]> result)
    end
  else mret result.

(* src/dwarf/source_lookup_impl.inc:337-369 parse_abbreviations *)
Definition parse_abbreviations (bytes : list byte) (offset : Z) : res (gmap Z Abbreviation) :=
  _ ← throw_if (size_of bytes <? offset) (Exn RuntimeError "DWARF abbreviation offset is out of range");
  fst (abbreviations_loop (length bytes) bytes ∅ offset).

(** ** Attributes *)

Definition number (spec : AttributeSpec) (n : Z) : AttributeValue :=
  mkAttribute (as_name spec) (as_form spec) n EmptyString [].
Definition text (spec : AttributeSpec) (s : string) : AttributeValue :=
  mkAttribute (as_name spec) (as_form spec) 0 s [].

(* src/dwarf/source_lookup_impl.inc:371-468 read_attribute *)
Definition read_attribute (spec : AttributeSpec) (sections : DebugSections) (unit_end unit_start address_size : Z)
    : M Z AttributeValue :=
  let form := as_form spec in
  let scalar what n := value ← read_scalar what (info sections) unit_end n; mret (number spec value) in
  if form =? kDwFormAddr then
    _ ← mthrow_if (negb (address_size =? 8)) RuntimeError "only 8-byte DWARF addresses are supported";
    scalar "DW_FORM_addr" 8
  else if form =? kDwFormData1 then scalar "DW_FORM_data1" 1
  else if form =? kDwFormData2 then scalar "DW_FORM_data2" 2
  else if form =? kDwFormData4 then scalar "DW_FORM_data4" 4
  else if form =? kDwFormData8 then scalar "DW_FORM_data8" 8
  else if form =? kDwFormSdata then
    value ← read_sleb "DW_FORM_sdata" (info sections) unit_end; mret (number spec (u64 value))
  else if form =? kDwFormUdata then
    value ← read_uleb "DW_FORM_udata" (info sections) unit_end; mret (number spec value)
  else if form =? kDwFormString then
    value ← read_c_string "DW_FORM_string" (info sections) unit_end; mret (text spec value)
  else if form =? kDwFormStrp then
    offset ← read_scalar "DW_FORM_strp" (info sections) unit_end 4;
    _ ← mthrow_if (size_of (strings sections) <=? offset) RuntimeError "DW_FORM_strp offset is out of range";
    value ← lift (string_at "DW_FORM_strp string" (strings sections) offset);
    mret (text spec value)
  else if form =? kDwFormLineStrp then
    offset ← read_scalar "DW_FORM_line_strp" (info sections) unit_end 4;
    _ ← mthrow_if ((size_of (line_strings sections) =? 0) || (size_of (line_strings sections) <=? offset))
          RuntimeError "DW_FORM_line_strp offset is out of range";
    value ← lift (string_at "DW_FORM_line_strp string" (line_strings sections) offset);
    mret (text spec value)
  else if form =? kDwFormRef4 then
    offset ← read_scalar "DW_FORM_ref4" (info sections) unit_end 4;
    _ ← mthrow_if (u64_max - unit_start <? offset) RuntimeError "DW_FORM_ref4 overflows debug-info offset";
    mret (number spec (unit_start + offset))
  else if form =? kDwFormSecOffset then scalar "DW_FORM_sec_offset" 4
  else if form =? kDwFormExprloc then
    length ← read_uleb "DW_FORM_exprloc length" (info sections) unit_end;
    cursor ← mget;
    _ ← mthrow_if (u64 (unit_end - cursor) <? length) RuntimeError "DW_FORM_exprloc extends past unit";
    expression ← lift (byte_range (info sections) cursor (cursor + length));
    _ ← modify (fun _ => cursor + length);
    mret (mkAttribute (as_name spec) form 0 EmptyString expression)
  else if form =? kDwFormFlagPresent then mret (number spec 1)
  else if (form =? kDwFormAddrx) || (form =? kDwFormLoclistx) then
    value ← read_uleb (if form =? kDwFormAddrx then "DW_FORM_addrx" else "DW_FORM_loclistx")
              (info sections) unit_end;
    mret (number spec value)
  else if form =? kDwFormStrx1 then scalar "DW_FORM_strx1" 1
  else if form =? kDwFormImplicitConst then mret (number spec (u64 (implicit_constant spec)))
  else mthrow RuntimeError
         ("unsupported DWARF form in local-value inspection: " +:+ LineTable.to_string form).

(** A null pointer is [None]. *)
(* src/dwarf/source_lookup_impl.inc:470-476 attribute *)
Definition attribute (die : Die) (name : Z) : option AttributeValue :=
  List.find (fun value => av_name value =? name) (die_attributes die).

(** [dies[index]]; indexing past the end is undefined. *)
Definition die_at (dies : list Die) (index : nat) : res Die :=
  match dies !! index with Some die => Ok die | None => Undef "vector index out of range" end.

(* src/dwarf/source_lookup_impl.inc:478-484 die_index_by_offset *)
Definition die_index_by_offset (dies : list Die) (offset : Z) : option nat :=
  fst <$> list_find (fun die => die_offset die = offset) dies.

(** [depth] turns of the loop are left. *)
(* src/dwarf/source_lookup_impl.inc:489-506 attribute_with_abstract_origin *)
Fixpoint follow_abstract_origin (depth : nat) (dies : list Die) (die_index : nat) (name : Z)
    : res (option AttributeValue) :=
  match depth with
  | O => runtime_error "inlined local abstract-origin chain is too deep"
  | S depth =>
    die ← die_at dies die_index;
    match attribute die name with
    | Some direct => Ok (Some direct)
    | None =>
      match attribute die kDwAtAbstractOrigin with
      | None => Ok None
      | Some origin =>
        _ ← throw_if (negb (av_form origin =? kDwFormRef4))
              (Exn RuntimeError "inlined local abstract origin does not use supported DW_FORM_ref4");
        match die_index_by_offset dies (av_number origin) with
        | None => runtime_error "inlined local abstract origin references an unknown DIE"
        | Some next =>
          _ ← throw_if (Nat.eqb next die_index)
                (Exn RuntimeError "inlined local abstract origin is self-referential");
          follow_abstract_origin depth dies next name
        end
      end
    end
  end.

(* src/dwarf/source_lookup_impl.inc:486-507 attribute_with_abstract_origin *)
Definition attribute_with_abstract_origin (dies : list Die) (die_index : nat) (name : Z)
    : res (option AttributeValue) :=
  follow_abstract_origin kMaxAbstractOriginDepth dies die_index name.

(** A loop over the parents; they come before their children in a parsed unit, so as
    many turns as entries are enough. *)
(* src/dwarf/source_lookup_impl.inc:511-516 is_descendant_of *)
Fixpoint descends (fuel : nat) (dies : list Die) (parent : option nat) (ancestor : nat) : res bool :=
  match parent with
  | None => Ok false
  | Some parent =>
    match fuel with
    | O => OutOfFuel
    | S fuel =>
      if Nat.eqb parent ancestor then Ok true
      else die ← die_at dies parent; descends fuel dies (die_parent die) ancestor
    end
  end.

(* src/dwarf/source_lookup_impl.inc:509-517 is_descendant_of *)
Definition is_descendant_of (dies : list Die) (child ancestor : nat) : res bool :=
  die ← die_at dies child;
  descends (length dies) dies (die_parent die) ancestor.

(* src/dwarf/source_lookup_impl.inc:519-525 add_unsigned *)
Definition add_unsigned (base offset : Z) (what : string) : res Z :=
  _ ← throw_if (u64_max - base <? offset) (Exn RuntimeError (what +:+ " overflows address space"));
  Ok (base + offset).

(* src/dwarf/source_lookup_impl.inc:527-534 add_signed *)
Definition add_signed (base offset : Z) (what : string) : res Z :=
  if 0 <=? offset then add_unsigned base offset what
  else
    let magnitude := u64 (- (offset + 1)) + 1 in
    _ ← throw_if (base <? magnitude) (Exn RuntimeError (what +:+ " underflows address space"));
    Ok (base - magnitude).

(** ** The index tables of version 5 *)

(** The end of a contribution that starts 8 bytes before [base], once its header is checked. *)
(* src/dwarf/source_lookup_impl.inc:541-556 indexed_string *)
Definition string_offsets_end (section : list byte) (base : Z) : res Z :=
  _ ← throw_if ((base <? 8) || (size_of section <? base))
        (Exn RuntimeError "DW_AT_str_offsets_base is out of range");
  let contribution_start := base - 8 in
  length ← read_at ".debug_str_offsets length" section contribution_start 4;
  _ ← throw_if ((length =? 0xffffffff) || (length <? 4) ||
                (u64 (size_of section - contribution_start - 4) <? length))
        (Exn RuntimeError "unsupported .debug_str_offsets contribution");
  version ← read_at ".debug_str_offsets version" section (contribution_start + 4) 2;
  bad ← (if negb (version =? 5) then Ok true
         else padding ← read_at ".debug_str_offsets padding" section (contribution_start + 6) 2;
              Ok (negb (padding =? 0)));
  _ ← throw_if bad (Exn RuntimeError "unsupported .debug_str_offsets header");
  Ok (contribution_start + 4 + length).

(* src/dwarf/source_lookup_impl.inc:536-573 indexed_string *)
Definition indexed_string (sections : DebugSections) (base index : Z) : res string :=
  let section := string_offsets sections in
  _ ← throw_if (size_of section =? 0) (Exn RuntimeError "DW_FORM_strx1 requires .debug_str_offsets");
  contribution_end ← string_offsets_end section base;
  _ ← throw_if ((u64_max - base) / 4 <? index) (Exn RuntimeError "DW_FORM_strx1 index overflows offset table");
  let entry := base + index * 4 in
  _ ← throw_if ((contribution_end <? entry) || (contribution_end - entry <? 4))
        (Exn RuntimeError "DW_FORM_strx1 index is out of range");
  string_offset ← read_at "DW_FORM_strx1 offset" section entry 4;
  _ ← throw_if (size_of (strings sections) <=? string_offset)
        (Exn RuntimeError "DW_FORM_strx1 string offset is out of range");
  string_at "DW_FORM_strx1 string" (strings sections) string_offset.

(** The bytes 6 and 7 of a header, the width of an address and of a segment selector. *)
(* src/dwarf/source_lookup_impl.inc:589-596 indexed_address *)
Definition address_header (what : string) (section : list byte) (start : Z) : res bool :=
  version ← read_at (what +:+ " version") section (start + 4) 2;
  if negb (version =? 5) then Ok false
  else
    address_size ← read_at (what +:+ " address size") section (start + 6) 1;
    if negb (address_size =? 8) then Ok false
    else
      segment_size ← read_at (what +:+ " segment size") section (start + 7) 1;
      Ok (segment_size =? 0).

(* src/dwarf/source_lookup_impl.inc:575-605 indexed_address *)
Definition indexed_address (sections : DebugSections) (base index : Z) : res Z :=
  let section := addresses sections in
  _ ← throw_if (size_of section =? 0) (Exn RuntimeError "DW_FORM_addrx requires .debug_addr");
  _ ← throw_if ((base <? 8) || (size_of section <? base)) (Exn RuntimeError "DW_AT_addr_base is out of range");
  let contribution_start := base - 8 in
  length ← read_at ".debug_addr length" section contribution_start 4;
  _ ← throw_if ((length =? 0xffffffff) || (length <? 4) ||
                (u64 (size_of section - contribution_start - 4) <? length))
        (Exn RuntimeError "unsupported .debug_addr contribution");
  let contribution_end := contribution_start + 4 + length in
  good ← address_header ".debug_addr" section contribution_start;
  _ ← throw_if (negb good) (Exn RuntimeError "unsupported .debug_addr header");
  _ ← throw_if ((u64_max - base) / 8 <? index) (Exn RuntimeError "DW_FORM_addrx index overflows address table");
  let entry := base + index * 8 in
  _ ← throw_if ((contribution_end <? entry) || (contribution_end - entry <? 8))
        (Exn RuntimeError "DW_FORM_addrx index is out of range");
  read_at "DW_FORM_addrx address" section entry 8.

(* src/dwarf/source_lookup_impl.inc:607-638 loclists_contribution_at *)
Definition loclists_contribution_at (sections : DebugSections) (start : Z) : res LoclistsContribution :=
  let section := location_lists sections in
  _ ← throw_if (size_of section =? 0)
        (Exn RuntimeError "DWARF5 local value location list requires .debug_loclists");
  _ ← throw_if ((size_of section <? start) || (size_of section - start <? 12))
        (Exn RuntimeError ".debug_loclists header is truncated");
  length ← read_at ".debug_loclists length" section start 4;
  _ ← throw_if ((length =? 0xffffffff) || (length <? 8) || (size_of section - start - 4 <? length))
        (Exn RuntimeError "unsupported .debug_loclists contribution");
  let end_ := start + 4 + length in
  good ← address_header ".debug_loclists" section start;
  _ ← throw_if (negb good) (Exn RuntimeError "unsupported .debug_loclists header");
  offset_count ← read_at ".debug_loclists offset count" section (start + 8) 4;
  let offsets_base := start + 12 in
  _ ← throw_if ((end_ - offsets_base) / 4 <? offset_count)
        (Exn RuntimeError ".debug_loclists offset table extends past contribution");
  Ok (mkContribution start offsets_base end_ offset_count).

(** A contribution ends after its start, so that as many turns as bytes are enough. *)
(* src/dwarf/source_lookup_impl.inc:646-657 loclists_contribution_for_offset *)
Fixpoint find_contribution (fuel : nat) (sections : DebugSections) (wanted start : Z) : res LoclistsContribution :=
  if start <? size_of (location_lists sections) then
    match fuel with
    | O => OutOfFuel
    | S fuel =>
      contribution ← loclists_contribution_at sections start;
      if (offsets_base contribution <=? wanted) && (wanted <? lc_end contribution) then Ok contribution
      else
        _ ← throw_if (lc_end contribution <=? start) (Exn RuntimeError ".debug_loclists parser did not advance");
        find_contribution fuel sections wanted (lc_end contribution)
    end
  else runtime_error "DWARF5 location-list offset is outside all contributions".

(* src/dwarf/source_lookup_impl.inc:640-658 loclists_contribution_for_offset *)
Definition loclists_contribution_for_offset (sections : DebugSections) (offset : Z) : res LoclistsContribution :=
  find_contribution (length (location_lists sections)) sections offset 0.

(* src/dwarf/source_lookup_impl.inc:660-681 indexed_loclist_offset *)
Definition indexed_loclist_offset (sections : DebugSections) (base index : Z) : res Z :=
  _ ← throw_if (base <? 12) (Exn RuntimeError "DW_AT_loclists_base is out of range");
  contribution ← loclists_contribution_at sections (base - 12);
  _ ← throw_if (negb (offsets_base contribution =? base))
        (Exn RuntimeError "DW_AT_loclists_base does not point at the offset table");
  _ ← throw_if (offset_count contribution <=? index) (Exn RuntimeError "DW_FORM_loclistx index is out of range");
  let entry := offsets_base contribution + index * 4 in
  relative ← read_at "DW_FORM_loclistx offset" (location_lists sections) entry 4;
  absolute ← add_unsigned base relative "DW_FORM_loclistx offset";
  _ ← throw_if (lc_end contribution <=? absolute)
        (Exn RuntimeError "DW_FORM_loclistx resolves outside its contribution");
  Ok absolute.

(** The base an index needs: an attribute of the first entry in [DW_FORM_sec_offset]. *)
Definition section_base (base : option AttributeValue) (msg : string) : res Z :=
  match base with
  | Some base => _ ← throw_if (negb (av_form base =? kDwFormSecOffset)) (Exn RuntimeError msg); Ok (av_number base)
  | None => runtime_error msg
  end.

(** The loop changes the attributes of the first entry, which the bases point into, only
    when they are not in [DW_FORM_sec_offset]: a base in that form is what it was. *)
(* src/dwarf/source_lookup_impl.inc:694-710 resolve_dwarf5_indexes *)
Definition resolve_index (sections : DebugSections) (str_base addr_base loclists_base : option AttributeValue)
    (value : AttributeValue) : res AttributeValue :=
  if av_form value =? kDwFormStrx1 then
    base ← section_base str_base "DW_FORM_strx1 requires DW_AT_str_offsets_base";
    s ← indexed_string sections base (av_number value);
    Ok (mkAttribute (av_name value) (av_form value) (av_number value) s (av_expression value))
  else if av_form value =? kDwFormAddrx then
    base ← section_base addr_base "DW_FORM_addrx requires DW_AT_addr_base";
    n ← indexed_address sections base (av_number value);
    Ok (mkAttribute (av_name value) kDwFormAddr n (av_text value) (av_expression value))
  else if av_form value =? kDwFormLoclistx then
    base ← section_base loclists_base "DW_FORM_loclistx requires DW_AT_loclists_base";
    n ← indexed_loclist_offset sections base (av_number value);
    Ok (mkAttribute (av_name value) (av_form value) n (av_text value) (av_expression value))
  else Ok value.

(* src/dwarf/source_lookup_impl.inc:683-712 resolve_dwarf5_indexes *)
Definition resolve_dwarf5_indexes (sections : DebugSections) (dies : list Die) : res (list Die) :=
  match dies with
  | mkDie _ _ None _ as front :: _ =>
    let str_base := attribute front kDwAtStrOffsetsBase in
    let addr_base := attribute front kDwAtAddrBase in
    let loclists_base := attribute front kDwAtLoclistsBase in
    mapM (fun die =>
            attributes ← mapM (resolve_index sections str_base addr_base loclists_base) (die_attributes die);
            Ok (mkDie (die_offset die) (die_tag die) (die_parent die) attributes)) dies
  | _ => runtime_error "DWARF5 unit has no root DIE"
  end.

(** ** Units *)

(** The end, the version, the offset of the abbreviations and the width of an address. *)
Record unit_header := mkHeader { unit_end : Z; unit_version : Z; abbrev_offset : Z; address_size : Z }.

(* src/dwarf/source_lookup_impl.inc:717-750 parse_unit_dies *)
Definition read_unit_header (bytes : list byte) : M Z unit_header :=
  unit_length ← read_scalar "DWARF unit length" bytes (size_of bytes) 4;
  _ ← mthrow_if (unit_length =? 0xffffffff) RuntimeError "DWARF64 debug info is unsupported";
  cursor ← mget;
  _ ← mthrow_if (size_of bytes - cursor <? unit_length) RuntimeError
        "DWARF compilation unit extends past .debug_info";
  let unit_end := cursor + unit_length in
  version ← read_scalar "DWARF unit version" bytes unit_end 2;
  '(abbrev_offset, address_size) ←
    (if version =? 4 then
       abbrev_offset ← read_scalar "DWARF abbreviation offset" bytes unit_end 4;
       address_size ← read_scalar "DWARF address size" bytes unit_end 1;
       mret (abbrev_offset, address_size)
     else if version =? 5 then
       unit_type ← read_scalar "DWARF5 unit type" bytes unit_end 1;
       _ ← mthrow_if (negb (unit_type =? kDwUtCompile)) RuntimeError
             "only DWARF5 compile units are supported for local values";
       address_size ← read_scalar "DWARF5 address size" bytes unit_end 1;
       abbrev_offset ← read_scalar "DWARF5 abbreviation offset" bytes unit_end 4;
       mret (abbrev_offset, address_size)
     else mthrow RuntimeError "only DWARF4/5 local-value units are supported");
  _ ← mthrow_if (negb (address_size =? 8)) RuntimeError
        "only 8-byte DWARF local-value addresses are supported";
  mret (mkHeader unit_end version abbrev_offset address_size).

(** The attributes of one entry, in the order of its abbreviation. *)
(* src/dwarf/source_lookup_impl.inc:769-772 parse_unit_dies *)
Fixpoint read_attributes (sections : DebugSections) (unit_end unit_start address_size : Z)
    (specs : list AttributeSpec) : M Z (list AttributeValue) :=
  match specs with
  | [] => mret []
  | spec :: specs =>
    value ← read_attribute spec sections unit_end unit_start address_size;
    rest ← read_attributes sections unit_end unit_start address_size specs;
    mret (value :: rest)
  end.

(** The open parents, innermost first, and the entries so far. *)
(* src/dwarf/source_lookup_impl.inc:754-775 parse_unit_dies *)
Fixpoint dies_loop (fuel : nat) (sections : DebugSections) (abbreviations : gmap Z Abbreviation)
    (unit_end unit_start address_size : Z) (parents : list nat) (dies : list Die) : M Z (list Die) :=
  die_offset ← mget;
  if die_offset <? unit_end then
    match fuel with
    | O => mout_of_fuel
    | S fuel =>
      code ← read_uleb "DIE abbreviation code" (info sections) unit_end;
      if code =? 0 then
        match parents with
        | [] => mret dies
        | _ :: parents =>
          dies_loop fuel sections abbreviations unit_end unit_start address_size parents dies
        end
      else
        match abbreviations !! code with
        | None => mthrow RuntimeError "DIE references an unknown abbreviation code"
        | Some abbreviation =>
          attributes ← read_attributes sections unit_end unit_start address_size (ab_attributes abbreviation);
          let die := mkDie die_offset (ab_tag abbreviation) (head parents) attributes in
          dies_loop fuel sections abbreviations unit_end unit_start address_size
            (if has_children abbreviation then length dies :: parents else parents) (dies ++ [die])
        end
    end
  else mret dies.

(** The entries of a unit, the start of the next one and the version. *)
Record parsed_unit := mkParsed { unit_dies : list Die; next_unit : Z; parsed_version : Z }.

(* src/dwarf/source_lookup_impl.inc:714-782 parse_unit_dies *)
Definition parse_unit_dies (sections : DebugSections) (unit_start : Z) : res parsed_unit :=
  fst ((header ← read_unit_header (info sections);
        abbreviations ← lift (parse_abbreviations (abbrev sections) (abbrev_offset header));
        dies ← dies_loop (length (info sections)) sections abbreviations (unit_end header) unit_start
                 (address_size header) [] [];
        cursor ← mget;
        _ ← mthrow_if (negb (cursor =? unit_end header)) RuntimeError
              "unexpected trailing data in DWARF compilation unit";
        dies ← (if unit_version header =? 5 then lift (resolve_dwarf5_indexes sections dies) else mret dies);
        mret (mkParsed dies (unit_end header) (unit_version header))) unit_start).

(** ** Scopes *)

(* src/dwarf/source_lookup_impl.inc:784-792 die_contains_pc *)
Definition die_contains_pc (die : Die) (pc : Z) : res bool :=
  match attribute die kDwAtLowPc, attribute die kDwAtHighPc with
  | Some low, Some high =>
    if negb (av_form low =? kDwFormAddr) then Ok false
    else
      high_pc ← (if av_form high =? kDwFormAddr then Ok (av_number high)
                 else add_unsigned (av_number low) (av_number high) "DWARF high_pc");
      Ok ((av_number low <=? pc) && (pc <? high_pc))
  | _, _ => Ok false
  end.

(* src/dwarf/source_lookup_impl.inc:801-817 active_scope_depth *)
Fixpoint scope_depth_loop (fuel : nat) (dies : list Die) (subprogram : nat) (pc : Z) (parent : nat) (depth : Z)
    : res (option Z) :=
  if Nat.eqb parent subprogram then Ok (Some depth)
  else
    match fuel with
    | O => OutOfFuel
    | S fuel =>
      scope ← die_at dies parent;
      if negb (die_tag scope =? kDwTagLexicalBlock) && negb (die_tag scope =? kDwTagInlinedSubroutine)
      then Ok None
      else
        let supported :=
          match attribute scope kDwAtLowPc, attribute scope kDwAtHighPc with
          | Some low, Some _ => av_form low =? kDwFormAddr
          | _, _ => false
          end in
        _ ← throw_if (negb supported)
              (Exn RuntimeError "local scope does not use the supported DW_AT_low_pc/DW_AT_high_pc range");
        inside ← die_contains_pc scope pc;
        if negb inside then Ok None
        else
          match die_parent scope with
          | None => Ok None
          | Some parent => scope_depth_loop fuel dies subprogram pc parent (depth + 1)
          end
    end.

(* src/dwarf/source_lookup_impl.inc:794-818 active_scope_depth *)
Definition active_scope_depth (dies : list Die) (value_index subprogram : nat) (pc : Z) : res (option Z) :=
  value ← die_at dies value_index;
  match die_parent value with
  | None => Ok None
  | Some parent => scope_depth_loop (length dies) dies subprogram pc parent 0
  end.
