(* ===== verification/DebugInfoProofs.v ===== *)
(** * Parsing debugging information entries

    Every unit parses to a well-formed vector of entries or throws: offsets grow, and a
    parent comes before its children.  The walks over parents end because of that. *)

From S2P Require Import Prelude Machine ByteReader ElfFormat DebugInfo.

(** ** Sections that fit in the address space *)

Definition sized (bytes : list byte) : Prop := size_of bytes <= i64_max.

Record sections_sized (s : DebugSections) : Prop := {
  info_sized : sized (info s);
  abbrev_sized : sized (abbrev s);
  strings_sized : sized (strings s);
  line_strings_sized : sized (line_strings s);
  locations_sized : sized (locations s);
  location_lists_sized : sized (location_lists s)
}.

(** ** Readers *)

Section Readers.
Context (bytes : list byte) (limit : Z) (Hlim : limit_in bytes limit).

Lemma reads_die_scalar what n : 0 < n -> reads limit n (read_scalar what bytes limit n).
Proof. intros Hn. destruct Hlim. apply reads_scalar; [done|]. unfold i64_max, u64_max in *. lia. Qed.
Lemma reads_die_uleb what : reads limit 1 (read_uleb what bytes limit).
Proof. by apply reads_uleb, reads_die_scalar. Qed.
Lemma reads_die_sleb what : reads limit 1 (read_sleb what bytes limit).
Proof. by apply reads_sleb, reads_die_scalar. Qed.
Lemma reads_die_c_string what : reads limit 1 (read_c_string what bytes limit).
Proof. destruct Hlim. by apply reads_c_string. Qed.
End Readers.

Lemma limit_whole bytes : sized bytes -> limit_in bytes (size_of bytes).
Proof. by split. Qed.

Lemma read_at_yields what bytes o n : 0 <= n -> yields (fun v => 0 <= v < 256 ^ n) (read_at what bytes o n).
Proof. intros Hn. unfold read_at, read_at_with. apply yields_guard; intros _. by apply le_at_range. Qed.
Lemma read_at_settles what bytes o n : settles (read_at what bytes o n).
Proof. unfold read_at, read_at_with. settles_auto. Qed.
Lemma die_read_struct_settles {T} what n (f : list byte -> Z -> T) bytes o :
  settles (read_struct_at what n f bytes o).
Proof. unfold read_struct_at. settles_auto. Qed.
#[export] Hint Resolve read_at_settles die_read_struct_settles : msettle.

Lemma string_at_settles what bytes c : sized bytes -> 0 <= c -> settles (string_at what bytes c).
Proof.
  intros Hs Hc. unfold string_at.
  pose proof (reads_die_c_string bytes (size_of bytes) (limit_whole _ Hs) what c Hc) as H.
  by destruct (read_c_string _ _ _ _) as [[]].
Qed.

Lemma scalar_in_range what bytes limit n c v c' :
  0 <= n -> read_scalar what bytes limit n c = (Ok v, c') -> 0 <= v < 256 ^ n.
Proof.
  intros Hn. unfold read_scalar, read_scalar_with. mrun. destruct (_ || _); [done|].
  unfold read_at_with, throw_if. destruct (out_of_bounds _ _ _); [done|]. cbn. intros [= <- _]. by apply le_at_range.
Qed.

(** A scalar and the value it has. *)
Lemma scalar_yields what bytes limit n c :
  limit_in bytes limit -> 0 < n -> 0 <= c ->
  yields_at c (fun v c' => 0 <= v < 256 ^ n /\ c' = c + n /\ c' <= limit) (read_scalar what bytes limit n).
Proof.
  intros [H1 H2] Hn Hc. unfold yields_at. pose proof (scalar_in_range what bytes limit n c) as Hv. revert Hv.
  unfold read_scalar, read_scalar_with. mrun. destruct (Z.ltb_spec limit c); [done|].
  destruct (Z.ltb_spec (limit - c) n); [done|]. cbn [orb]. mrun.
  destruct (read_at_with _ _ _ _) as [v|e|w|] eqn:E; [|done|..].
  - mrun. cbn. intros Hv. rewrite u64_small by (unfold in_u64, i64_max, u64_max in *; lia).
    split; [|lia]. eapply Hv; [lia|done].
  - revert E. unfold read_at_with, throw_if. by destruct (out_of_bounds _ _ _).
  - revert E. unfold read_at_with, throw_if. by destruct (out_of_bounds _ _ _).
Qed.

Lemma uleb_yields what bytes limit c :
  limit_in bytes limit -> 0 <= c ->
  yields_at c (fun v c' => in_u64 v /\ c < c' <= limit) (read_uleb what bytes limit).
Proof.
  intros Hl Hc. pose proof (reads_die_uleb bytes limit Hl what c Hc) as H. unfold yields_at.
  destruct (read_uleb what bytes limit c) as [[v|e|w|] c'] eqn:E; try done.
  apply read_uleb_with_value in E. split; [done|lia].
Qed.

Lemma sleb_yields what bytes limit c :
  limit_in bytes limit -> 0 <= c -> yields_at c (fun _ c' => c < c' <= limit) (read_sleb what bytes limit).
Proof.
  intros Hl Hc. pose proof (reads_die_sleb bytes limit Hl what c Hc) as H. unfold yields_at.
  destruct (read_sleb what bytes limit c) as [[v|e|w|] c'] eqn:E; try done. lia.
Qed.

(** ** Abbreviations *)

Lemma abbreviation_attributes_yields fuel bytes c :
  sized bytes -> 0 <= c -> c <= size_of bytes -> size_of bytes - c < Z.of_nat fuel ->
  yields_at c (fun _ c' => c <= c' <= size_of bytes) (abbreviation_attributes fuel bytes).
Proof.
  intros Hs. revert c. induction fuel as [|fuel IH]; intros c Hc Hle Hf; [lia|]. simpl.
  pose proof (limit_whole _ Hs) as Hl.
  eapply yields_at_bind; [by apply uleb_yields|intros name c1 [_ H1]].
  eapply yields_at_bind; [apply uleb_yields; [done|lia]|intros form c2 [_ H2]].
  destruct (_ && _); [unfold yields_at; simpl; lia|]. apply yields_at_guard; intros _.
  apply yields_at_bind with (fun _ c' => c2 <= c' <= size_of bytes).
  { destruct (_ =? _); [|unfold yields_at; simpl; lia].
    eapply yields_at_weaken; [|apply sleb_yields; [done|lia]]. intros. simpl in *. lia. }
  intros k c3 [H3 H3']. eapply yields_at_bind; [apply IH; lia|intros rest c4 [H4 H4']]. unfold yields_at. simpl. lia.
Qed.

Lemma abbreviations_loop_yields fuel bytes result c :
  sized bytes -> 0 <= c -> size_of bytes - c <= Z.of_nat fuel ->
  yields_at c (fun _ _ => True) (abbreviations_loop fuel bytes result).
Proof.
  intros Hs. revert result c. induction fuel as [|fuel IH]; intros result c Hc Hf; cbn [abbreviations_loop];
    apply yields_at_mget;
    (destruct (Z.ltb_spec c (size_of bytes)); [|done]); [lia|].
  pose proof (limit_whole _ Hs) as Hl.
  eapply yields_at_bind; [by apply uleb_yields|intros code c1 [_ H1]]. destruct (_ =? 0); [done|].
  eapply yields_at_bind; [apply uleb_yields; [done|lia]|intros tag c2 [_ H2]].
  eapply yields_at_bind; [apply scalar_yields; [done|lia..]|intros ch c3 (_ & -> & H3)].
  apply yields_at_guard; intros _.
  eapply yields_at_bind; [apply abbreviation_attributes_yields; [done|unfold size_of in *; lia..]|intros attrs c4 [H4 H4']].
  apply yields_at_guard; intros _. apply IH; lia.
Qed.

Lemma parse_abbreviations_settles bytes o : sized bytes -> 0 <= o -> settles (parse_abbreviations bytes o).
Proof.
  intros Hs Ho. unfold parse_abbreviations. apply settles_bind; [auto with msettle|intros _ _].
  pose proof (abbreviations_loop_yields (length bytes) bytes ∅ o Hs Ho ltac:(unfold size_of; lia)) as H.
  unfold yields_at in H. by destruct (abbreviations_loop _ _ _ _) as [[]].
Qed.

(** ** Attributes *)

Lemma byte_range_yields bytes a b :
  0 <= a -> a <= b -> b <= size_of bytes -> yields (fun l => size_of l = b - a) (byte_range bytes a b).
Proof.
  intros Ha Hb Hs. unfold byte_range.
  destruct (Z.leb_spec 0 a); [|lia]. destruct (Z.leb_spec a b); [|lia]. destruct (Z.leb_spec b (size_of bytes)); [|lia].
  cbn [andb]. unfold yields, size_of in *. rewrite length_take, length_drop. lia.
Qed.

(** The number of a value fits in 64 bits, its expression in the address space. *)
Definition sized_value (v : AttributeValue) : Prop := in_u64 (av_number v) /\ sized (av_expression v).

Lemma number_sized spec n : in_u64 n -> sized_value (number spec n).
Proof. intros Hn. by split. Qed.
Lemma text_sized spec t : sized_value (text spec t).
Proof. by split. Qed.
#[local] Hint Resolve number_sized text_sized : core.

Section Attributes.
Context (s : DebugSections) (Hs : sections_sized s) (unit_end : Z) (Hend : limit_in (info s) unit_end).

Definition moves (c : Z) {A} (_ : A) (c' : Z) : Prop := c <= c' /\ (c' <= unit_end \/ c' = c).

Definition attribute_read (c : Z) (v : AttributeValue) (c' : Z) : Prop := moves c v c' /\ sized_value v.

Lemma attribute_read_intro c v c' : moves c v c' -> sized_value v -> yields_at c' (attribute_read c) (mret v).
Proof. by split. Qed.

Lemma scalar_attribute_yields spec what n c :
  0 < n <= 8 -> 0 <= c ->
  yields_at c (attribute_read c) (value ← read_scalar what (info s) unit_end n; mret (number spec value)).
Proof.
  intros Hn Hc. eapply yields_at_bind; [apply scalar_yields; [done|lia..]|]. intros v c' (Hv & -> & H).
  apply attribute_read_intro; [unfold moves; lia|]. apply number_sized. pose proof (Z.pow_le_mono_r 256 n 8 ltac:(lia) ltac:(lia)).
  unfold in_u64, u64_max. simpl in *. lia.
Qed.

Lemma string_attribute_yields spec section what msg what' (b : Z -> bool) c :
  sized section -> 0 <= c ->
  yields_at c (attribute_read c)
    (offset ← read_scalar what (info s) unit_end 4;
     _ ← mthrow_if (b offset) RuntimeError msg;
     value ← lift (string_at what' section offset);
     mret (text spec value)).
Proof.
  intros Hsec Hc. eapply yields_at_bind; [apply scalar_yields; [done|lia..]|]. intros o c' (Ho & -> & H).
  apply yields_at_guard; intros _. eapply yields_at_bind.
  { apply (yields_at_lift _ (fun _ => True)). pose proof (string_at_settles what' section o Hsec ltac:(lia)) as H'.
    by destruct (string_at _ _ _). }
  intros v c'' [_ ->]. apply attribute_read_intro; [unfold moves; lia|done].
Qed.

Lemma expression_yields spec c :
  0 <= c ->
  yields_at c (attribute_read c)
    (length ← read_uleb "DW_FORM_exprloc length" (info s) unit_end;
     cursor ← mget;
     _ ← mthrow_if (u64 (unit_end - cursor) <? length) RuntimeError "DW_FORM_exprloc extends past unit";
     expression ← lift (byte_range (info s) cursor (cursor + length));
     _ ← modify (fun _ => cursor + length);
     mret (mkAttribute (as_name spec) (as_form spec) 0 EmptyString expression)).
Proof.
  intros Hc. eapply yields_at_bind; [by apply uleb_yields|intros l c1 [Hl H1]]. apply yields_at_mget.
  apply yields_at_guard; intros Hlen%Z.ltb_ge. destruct Hend as [He1 He2].
  unfold in_u64 in Hl. rewrite u64_small in Hlen by (unfold in_u64, i64_max, u64_max in *; lia).
  eapply yields_at_bind.
  { apply yields_at_lift, byte_range_yields; lia. }
  intros e c2 [He ->]. unfold yields_at. split; [unfold moves; lia|]. split; [done|]. unfold sized. simpl. lia.
Qed.

Lemma read_attribute_yields spec unit_start address_size c :
  0 <= unit_start -> 0 <= c ->
  yields_at c (attribute_read c) (read_attribute spec s unit_end unit_start address_size).
Proof.
  intros Hst Hc. unfold read_attribute.
  assert (Hret : forall n, in_u64 n -> yields_at c (attribute_read c) (mret (number spec n))).
  { intros n Hn. apply attribute_read_intro; [unfold moves; lia|auto]. }
  destruct (_ =? kDwFormAddr); [apply yields_at_guard; intros _; apply scalar_attribute_yields; lia|].
  do 4 (destruct (_ =? _); [apply scalar_attribute_yields; lia|]).
  destruct (_ =? kDwFormSdata).
  { eapply yields_at_bind; [by apply sleb_yields|intros v c' H]. simpl in H.
    apply attribute_read_intro; [unfold moves; lia|apply number_sized, u64_range]. }
  destruct (_ =? kDwFormUdata).
  { eapply yields_at_bind; [by apply uleb_yields|intros v c' [Hv H]]. apply attribute_read_intro; [unfold moves; lia|auto]. }
  destruct (_ =? kDwFormString).
  { eapply yields_at_read; [by apply reads_die_c_string|done|intros]. apply attribute_read_intro; [unfold moves; lia|done]. }
  destruct (_ =? kDwFormStrp); [apply string_attribute_yields; [apply Hs|done]|].
  destruct (_ =? kDwFormLineStrp); [apply string_attribute_yields; [apply Hs|done]|].
  destruct (_ =? kDwFormRef4).
  { eapply yields_at_bind; [apply scalar_yields; [done|lia..]|intros v c' (Hv & -> & H)].
    apply yields_at_guard; intros Hg%Z.ltb_ge. apply attribute_read_intro; [unfold moves; lia|]. apply number_sized.
    unfold in_u64. simpl in *. lia. }
  destruct (_ =? kDwFormSecOffset); [apply scalar_attribute_yields; lia|].
  destruct (_ =? kDwFormExprloc); [by apply expression_yields|].
  destruct (_ =? kDwFormFlagPresent); [by apply Hret|].
  destruct (_ || _).
  { eapply yields_at_bind; [by apply uleb_yields|intros v c' [Hv H]]. apply attribute_read_intro; [unfold moves; lia|auto]. }
  destruct (_ =? kDwFormStrx1); [apply scalar_attribute_yields; lia|].
  destruct (_ =? kDwFormImplicitConst); [apply Hret, u64_range|done].
Qed.

Lemma read_attributes_yields unit_start address_size specs c :
  0 <= unit_start -> 0 <= c ->
  yields_at c (fun vs c' => moves c vs c' /\ Forall sized_value vs)
    (read_attributes s unit_end unit_start address_size specs).
Proof.
  intros Hst. revert c. induction specs as [|spec specs IH]; intros c Hc; simpl.
  { unfold yields_at, moves. simpl. split; [lia|constructor]. }
  eapply yields_at_bind; [by apply read_attribute_yields|intros v c1 [H1 Hv]].
  eapply yields_at_bind; [apply IH; unfold moves in H1; lia|intros vs c2 [H2 Hvs]].
  unfold yields_at, moves in *. simpl. split; [lia|by constructor].
Qed.
End Attributes.

(** ** Index tables *)

Lemma address_header_settles what section start : settles (address_header what section start).
Proof.
  unfold address_header. apply settles_bind; [auto with msettle|intros v _]. destruct (negb _); [done|].
  apply settles_bind; [auto with msettle|intros a _]. destruct (negb _); [done|].
  apply settles_bind; [auto with msettle|done].
Qed.
Lemma string_offsets_end_settles section base : settles (string_offsets_end section base).
Proof.
  unfold string_offsets_end. do 4 (apply settles_bind; [auto with msettle|intros ? _]).
  apply settles_bind; [|intros bad _; settles_auto]. destruct (negb _); [done|]. settles_auto.
Qed.
#[export] Hint Resolve address_header_settles string_offsets_end_settles : msettle.

Lemma indexed_string_settles s base index : sized (strings s) -> settles (indexed_string s base index).
Proof.
  intros Hs. unfold indexed_string. do 4 (apply settles_bind; [auto with msettle|intros ? _]).
  pose proof (read_at_yields "DW_FORM_strx1 offset" (string_offsets s) (base + index * 4) 4 ltac:(lia)) as Hy.
  destruct (read_at _ _ _ _) as [o|e|w|]; try done. simpl in *. apply settles_bind; [auto with msettle|intros _ _].
  apply string_at_settles; [done|lia].
Qed.
Lemma indexed_address_yields s base index : yields in_u64 (indexed_address s base index).
Proof.
  unfold indexed_address. do 8 (eapply yields_bind; [apply settles_yields; solve [auto with msettle]|intros ? _]).
  eapply yields_weaken; [|apply (read_at_yields _ _ _ 8); lia]. intros v Hv. unfold in_u64, u64_max. simpl in *. lia.
Qed.

(** A contribution is inside the section, with its table before its end. *)
Definition wf_contribution (s : DebugSections) (start : Z) (c : LoclistsContribution) : Prop :=
  lc_start c = start /\ offsets_base c = start + 12 /\ 0 <= offset_count c /\
  offsets_base c + offset_count c * 4 <= lc_end c <= size_of (location_lists s).

Lemma loclists_contribution_at_yields s start :
  yields (wf_contribution s start) (loclists_contribution_at s start).
Proof.
  unfold loclists_contribution_at. do 2 (apply yields_guard; intros _).
  eapply yields_bind; [apply (read_at_yields _ _ _ 4); lia|intros l Hl].
  apply yields_guard; intros [[_ H1%Z.ltb_ge]%orb_false_iff H2%Z.ltb_ge]%orb_false_iff.
  eapply yields_bind; [apply settles_yields; auto with msettle|intros good _]. apply yields_guard; intros _.
  eapply yields_bind; [apply (read_at_yields _ _ _ 4); lia|intros n Hn].
  apply yields_guard; intros Hc%Z.ltb_ge. unfold wf_contribution, yields. simpl in *.
  pose proof (Z.mul_div_le (start + 4 + l - (start + 12)) 4 ltac:(lia)). lia.
Qed.
Lemma loclists_contribution_at_settles s start : settles (loclists_contribution_at s start).
Proof. eapply yields_settles, loclists_contribution_at_yields. Qed.
#[export] Hint Resolve loclists_contribution_at_settles : msettle.

Lemma find_contribution_yields fuel s wanted start :
  size_of (location_lists s) - start <= Z.of_nat fuel ->
  yields (fun c => offsets_base c <= wanted < lc_end c /\ lc_end c <= size_of (location_lists s))
    (find_contribution fuel s wanted start).
Proof.
  revert start. induction fuel as [|fuel IH]; intros start Hf; cbn [find_contribution];
    (destruct (Z.ltb_spec start (size_of (location_lists s))); [|done]); [lia|].
  eapply yields_bind; [apply loclists_contribution_at_yields|]. intros c (_ & Hb & Hn & He).
  destruct ((offsets_base c <=? wanted) && (wanted <? lc_end c)) eqn:E.
  - apply andb_true_iff in E as [?%Z.leb_le ?%Z.ltb_lt]. simpl. lia.
  - apply yields_guard; intros _. apply IH. lia.
Qed.

Lemma indexed_loclist_offset_yields s base index : in_u64 base -> yields in_u64 (indexed_loclist_offset s base index).
Proof.
  intros Hb. unfold indexed_loclist_offset, add_unsigned. apply yields_guard; intros _.
  eapply yields_bind; [apply loclists_contribution_at_yields|intros contribution _]. do 2 (apply yields_guard; intros _).
  eapply yields_bind; [apply (read_at_yields _ _ _ 4); lia|intros relative Hr].
  eapply yields_bind with (P := in_u64); [|intros; by apply yields_guard].
  apply yields_guard; intros Hg%Z.ltb_ge. unfold in_u64 in *. simpl. lia.
Qed.

Definition sized_numbers (d : Die) : Prop := Forall sized_value (die_attributes d).

Lemma attribute_sized d name v : sized_numbers d -> attribute d name = Some v -> sized_value v.
Proof.
  intros Hd Hv. unfold attribute in Hv. apply find_some in Hv as [Hin _]. rewrite <- list_elem_of_In in Hin.
  by eapply Forall_forall in Hd.
Qed.
Lemma attribute_number d name v : sized_numbers d -> attribute d name = Some v -> in_u64 (av_number v).
Proof. intros Hd Hv. by eapply attribute_sized. Qed.

(** Resolving the indexes changes attributes only. *)
Definition same_entry (d d' : Die) : Prop :=
  die_offset d = die_offset d' /\ die_tag d = die_tag d' /\ die_parent d = die_parent d' /\
  (sized_numbers d -> sized_numbers d').

Definition sized_base (base : option AttributeValue) : Prop := forall v, base = Some v -> in_u64 (av_number v).

Lemma section_base_yields base msg : yields (fun n => sized_base base -> in_u64 n) (section_base base msg).
Proof. destruct base; [|done]. unfold section_base. apply yields_guard; intros _ H. by apply H. Qed.

Lemma resolve_index_yields s a b c value :
  sized (strings s) -> sized_base c -> sized_value value -> yields sized_value (resolve_index s a b c value).
Proof.
  intros Hs Hc Hv. unfold resolve_index. destruct (_ =? _).
  { eapply yields_bind; [apply section_base_yields|intros x _].
    eapply yields_bind; [by apply settles_yields, indexed_string_settles|intros]. by split; apply Hv. }
  destruct (_ =? _).
  { eapply yields_bind; [apply section_base_yields|intros x _].
    eapply yields_bind; [apply indexed_address_yields|intros n Hn]. by split; [|apply Hv]. }
  destruct (_ =? _); [|done]. eapply yields_bind; [apply section_base_yields|intros x Hx].
  eapply yields_bind; [by apply indexed_loclist_offset_yields, Hx|intros n Hn]. by split; [|apply Hv].
Qed.

Lemma resolve_dwarf5_indexes_yields s dies :
  sized (strings s) -> Forall sized_numbers dies -> yields (Forall2 same_entry dies) (resolve_dwarf5_indexes s dies).
Proof.
  intros Hs Hd. unfold resolve_dwarf5_indexes. destruct dies as [|front dies]; [done|]. destruct front as [o t [p|] a]; [done|].
  assert (Hbase : forall name, sized_base (attribute (mkDie o t None a) name)).
  { intros name v. apply attribute_number. by apply Forall_cons in Hd as [Hd _]. }
  apply yields_mapM_Forall2. intros d Hin. rewrite Forall_forall in Hd. specialize (Hd d Hin).
  eapply yields_bind.
  { apply yields_mapM with (P := sized_value). intros v Hv. apply resolve_index_yields; [done|done|].
    by eapply Forall_forall in Hd. }
  intros attributes Ha. by repeat split.
Qed.

(** ** The entries of a unit *)

(** Offsets grow from [start] and stay before [end_]; parents come before their children. *)
Record wf_dies (start end_ : Z) (dies : list Die) : Prop := {
  die_offsets : forall i d, dies !! i = Some d -> start < die_offset d < end_;
  die_order : forall i j d d', (i < j)%nat -> dies !! i = Some d -> dies !! j = Some d' -> die_offset d < die_offset d';
  die_parents : forall i d p, dies !! i = Some d -> die_parent d = Some p -> (p < i)%nat;
  die_numbers : Forall sized_numbers dies
}.

Lemma wf_dies_nil start end_ : wf_dies start end_ [].
Proof. split; [..|constructor]; intros; rewrite lookup_nil in *; discriminate. Qed.

Lemma wf_dies_snoc start c end_ dies d :
  wf_dies start c dies -> start < c -> die_offset d = c -> c < end_ ->
  (forall p, die_parent d = Some p -> (p < length dies)%nat) -> sized_numbers d -> wf_dies start end_ (dies ++ [d]).
Proof.
  intros [Ho Hord Hp Hnum] Hs Hd Hc Hpar Hsized. split.
  - intros i x [Hi|[Hge Hi]]%lookup_app_Some; [specialize (Ho _ _ Hi); lia|].
    apply list_lookup_singleton_Some in Hi as [_ <-]. lia.
  - intros i j x y Hij [Hi|[Hge Hi]]%lookup_app_Some [Hj|[Hgej Hj]]%lookup_app_Some.
    + by eapply Hord.
    + apply list_lookup_singleton_Some in Hj as [_ <-]. specialize (Ho _ _ Hi). lia.
    + apply lookup_lt_Some in Hj. lia.
    + apply list_lookup_singleton_Some in Hi as [? _], Hj as [? _]. lia.
  - intros i x p [Hi|[Hge Hi]]%lookup_app_Some; [by eapply Hp|].
    apply list_lookup_singleton_Some in Hi as [Ei <-]. intros H. specialize (Hpar _ H). lia.
  - apply Forall_app. split; [done|by constructor].
Qed.

Lemma wf_dies_weaken start c end_ dies : wf_dies start c dies -> c <= end_ -> wf_dies start end_ dies.
Proof. intros [Ho Hord Hp Hnum] Hc. split; [|done..]. intros i d Hi. specialize (Ho i d Hi). lia. Qed.

Lemma wf_dies_same start end_ dies dies' :
  Forall2 same_entry dies dies' -> wf_dies start end_ dies -> wf_dies start end_ dies'.
Proof.
  intros Hsame [Ho Hord Hp Hnum].
  assert (Hl : forall i d', dies' !! i = Some d' -> exists d, dies !! i = Some d /\ same_entry d d').
  { intros i d' Hd'. by eapply Forall2_lookup_r in Hsame. }
  split.
  - intros i d' (d & Hi & E & _)%Hl. rewrite <- E. by eapply Ho.
  - intros i j x' y' Hij (x & Hi & E1 & _)%Hl (y & Hj & E2 & _)%Hl. rewrite <- E1, <- E2. by eapply Hord.
  - intros i d' p (d & Hi & _ & _ & E & _)%Hl. rewrite <- E. by eapply Hp.
  - apply Forall_lookup. intros i d' (d & Hi & _ & _ & _ & E)%Hl. apply E. by eapply Forall_lookup in Hnum.
Qed.

(** Looking up the offset of an entry finds the entry. *)
Lemma die_index_by_offset_Some start end_ dies i d :
  wf_dies start end_ dies -> dies !! i = Some d -> die_index_by_offset dies (die_offset d) = Some i.
Proof.
  intros [_ Hord _ _] Hi. unfold die_index_by_offset.
  assert (E : list_find (fun x => die_offset x = die_offset d) dies = Some (i, d)).
  { apply list_find_Some. split; [done|]. split; [done|]. intros j y Hj Hlt. pose proof (Hord _ _ _ _ Hlt Hj Hi). lia. }
  by rewrite E.
Qed.

Section Dies.
Context (s : DebugSections) (Hs : sections_sized s) (unit_end : Z) (Hend : limit_in (info s) unit_end)
  (start unit_start address_size : Z) (Hunit : 0 <= unit_start) (abbreviations : gmap Z Abbreviation).

Lemma dies_loop_yields fuel parents dies c :
  0 <= start < c -> unit_end - c <= Z.of_nat fuel -> Forall (fun p => p < length dies)%nat parents ->
  wf_dies start c dies -> c <= unit_end ->
  yields_at c (fun dies' c' => c' <= unit_end /\ wf_dies start unit_end dies')
    (dies_loop fuel s abbreviations unit_end unit_start address_size parents dies).
Proof.
  revert parents dies c. induction fuel as [|fuel IH]; intros parents dies c Hc Hf Hp Hwf Hle; cbn [dies_loop];
    apply yields_at_mget; (destruct (Z.ltb_spec c unit_end); [|split; [lia|by eapply wf_dies_weaken]]); [lia|].
  eapply yields_at_bind; [apply uleb_yields; [done|lia]|intros code c1 [_ H1]].
  destruct (code =? 0).
  { destruct parents as [|p parents]; [split; [lia|by apply (wf_dies_weaken _ c)]|]. apply Forall_cons in Hp as [_ Hp].
    apply IH; [lia|lia|done|eapply wf_dies_weaken; [done|lia]|lia]. }
  destruct (abbreviations !! code) as [a|]; [|done].
  eapply yields_at_bind; [by apply read_attributes_yields; [..|lia|lia]|intros attrs c2 [[H2 H3] Hnum]].
  assert (Hwf' : wf_dies start c2 (dies ++ [mkDie c (ab_tag a) (head parents) attrs])).
  { eapply wf_dies_snoc; [done|simpl; lia..| |done]. intros p Hhd. simpl in Hhd. destruct parents as [|q parents]; [done|].
    injection Hhd as ->. by apply Forall_cons in Hp as [Hp _]. }
  assert (Hp' : Forall (fun p => p < length (dies ++ [mkDie c (ab_tag a) (head parents) attrs]))%nat parents).
  { eapply Forall_impl; [done|]. intros p Hlt. cbn beta in Hlt. rewrite length_app. simpl. lia. }
  apply IH; [lia|lia| |done|lia].
  destruct (has_children a); [|done]. constructor; [|done]. rewrite length_app. simpl. lia.
Qed.
End Dies.

Lemma die_unit_header_yields bytes c :
  sized bytes -> 0 <= c ->
  yields_at c (fun h c' => c < c' <= unit_end h /\ unit_end h <= size_of bytes /\ 0 <= abbrev_offset h /\
                           (unit_version h = 4 \/ unit_version h = 5)) (read_unit_header bytes).
Proof.
  intros Hs Hc. unfold read_unit_header.
  eapply yields_at_bind; [apply scalar_yields; [by apply limit_whole|lia..]|intros len c1 (Hlen & -> & H1)].
  apply yields_at_guard; intros _. apply yields_at_mget. apply yields_at_guard; intros Hend%Z.ltb_ge.
  assert (Hl : limit_in bytes (c + 4 + len)) by (split; [lia|done]).
  eapply yields_at_bind; [apply scalar_yields; [done|lia..]|intros v c2 (_ & -> & H2)].
  apply yields_at_bind with (fun (p : Z * Z) c' => 0 <= p.1 /\ c < c' <= c + 4 + len /\ (v = 4 \/ v = 5)).
  { destruct (Z.eqb_spec v 4); [|destruct (Z.eqb_spec v 5); [|done]].
    - eapply yields_at_bind; [apply scalar_yields; [done|lia..]|intros o c3 (Ho & -> & H3)].
      eapply yields_at_bind; [apply scalar_yields; [done|lia..]|intros z c4 (_ & -> & H4)].
      unfold yields_at. simpl in *. lia.
    - eapply yields_at_bind; [apply scalar_yields; [done|lia..]|intros t c3 (_ & -> & H3)].
      apply yields_at_guard; intros _.
      eapply yields_at_bind; [apply scalar_yields; [done|lia..]|intros z c4 (_ & -> & H4)].
      eapply yields_at_bind; [apply scalar_yields; [done|lia..]|intros o c5 (Ho & -> & H5)].
      unfold yields_at. simpl in *. lia. }
  intros [o z] c3 (Ho & H3 & Hv). apply yields_at_guard; intros _. unfold yields_at. simpl in *. lia.
Qed.

(** Every unit parses to well-formed entries inside it, or throws. *)
Lemma parse_unit_dies_yields s start :
  sections_sized s -> 0 <= start ->
  yields (fun u => start < next_unit u <= size_of (info s) /\ (parsed_version u = 4 \/ parsed_version u = 5) /\
                   wf_dies start (next_unit u) (unit_dies u)) (parse_unit_dies s start).
Proof.
  intros Hs Hc. unfold parse_unit_dies.
  apply (yields_run start (fun u _ => start < next_unit u <= size_of (info s) /\
      (parsed_version u = 4 \/ parsed_version u = 5) /\ wf_dies start (next_unit u) (unit_dies u))); [done|].
  eapply yields_at_bind; [apply die_unit_header_yields; [apply Hs|done]|intros h c1 (H1 & H2 & Ho & Hv)].
  eapply yields_at_bind.
  { apply yields_at_lift, settles_yields, parse_abbreviations_settles; [apply Hs|done]. }
  intros abbreviations c2 [_ ->]. pose proof (info_sized _ Hs) as Hi.
  eapply yields_at_bind.
  { apply (dies_loop_yields s Hs (unit_end h) ltac:(by split) start); [lia|lia| |constructor|apply wf_dies_nil|lia].
    unfold size_of in *. lia. }
  intros dies c3 [H3 Hwf]. apply yields_at_mget. apply yields_at_guard; intros _.
  apply yields_at_bind with (fun (dies : list Die) (_ : Z) => wf_dies start (unit_end h) dies).
  { destruct (_ =? 5); [|done].
    pose proof (resolve_dwarf5_indexes_yields s dies (strings_sized _ Hs) (die_numbers _ _ _ Hwf)) as Hr. unfold yields_at, lift.
    destruct (resolve_dwarf5_indexes s dies) as [dies'|e|w|]; try done. simpl in *. by eapply wf_dies_same. }
  intros dies' c4 Hwf'. unfold yields_at. simpl. split; [lia|done].
Qed.
