(* ===== verification/DebugTree.v ===== *)
(** * The tree of a unit

    DWARF writes the entries of a unit as a forest in preorder: an entry whose
    abbreviation has children is followed by them and a null entry.  [parse_unit_dies]
    recovers that forest, and the walks over parents decide its ancestor relation. *)

From S2P Require Import Prelude Machine ByteReader ElfFormat DebugInfo DebugInfoProofs.

(** ** Forests *)

Inductive die_tree := Node (offset tag : Z) (attributes : list AttributeValue) (children : list die_tree).

(** The vector of a forest: preorder, with the index of the parent; the first tree is at
    [index]. *)
Fixpoint tree_entries (parent : option nat) (index : nat) (t : die_tree) : list Die :=
  match t with
  | Node offset tag attributes children =>
    mkDie offset tag parent attributes ::
    (fix go (index' : nat) (ts : list die_tree) : list Die :=
       match ts with
       | [] => []
       | t :: ts => let l := tree_entries (Some index) index' t in l ++ go (index' + length l)%nat ts
       end) (S index) children
  end.

Fixpoint forest_entries (parent : option nat) (index : nat) (ts : list die_tree) : list Die :=
  match ts with
  | [] => []
  | t :: ts =>
    let l := tree_entries parent index t in l ++ forest_entries parent (index + length l)%nat ts
  end.

Lemma tree_entries_node parent index offset tag attributes children :
  tree_entries parent index (Node offset tag attributes children) =
  mkDie offset tag parent attributes :: forest_entries (Some index) (S index) children.
Proof.
  cbn [tree_entries]. f_equal. generalize (S index). induction children as [|t ts IH]; intros n; [done|].
  cbn [forest_entries]. f_equal. apply IH.
Qed.

Section Layout.
Context (s : DebugSections) (Hs : sections_sized s) (unit_end : Z) (Hend : limit_in (info s) unit_end)
  (unit_start address_size : Z) (Hunit : 0 <= unit_start) (abbreviations : gmap Z Abbreviation).

Notation code_at := (read_uleb "DIE abbreviation code" (info s) unit_end).
Notation attributes_at a := (read_attributes s unit_end unit_start address_size (ab_attributes a)).

(** A tree, or a forest, laid out from one position to another. *)
Inductive tree_at : Z -> die_tree -> Z -> Prop :=
  | leaf_at c code c1 a attributes c2 :
    c < unit_end -> code_at c = (Ok code, c1) -> code <> 0 -> abbreviations !! code = Some a ->
    attributes_at a c1 = (Ok attributes, c2) -> has_children a = false ->
    tree_at c (Node c (ab_tag a) attributes []) c2
  | node_at c code c1 a attributes c2 children c3 c4 :
    c < unit_end -> code_at c = (Ok code, c1) -> code <> 0 -> abbreviations !! code = Some a ->
    attributes_at a c1 = (Ok attributes, c2) -> has_children a = true ->
    forest_at c2 children c3 -> c3 < unit_end -> code_at c3 = (Ok 0, c4) ->
    tree_at c (Node c (ab_tag a) attributes children) c4
with forest_at : Z -> list die_tree -> Z -> Prop :=
  | nil_at c : forest_at c [] c
  | cons_at c t c1 ts c2 : tree_at c t c1 -> forest_at c1 ts c2 -> forest_at c (t :: ts) c2.

Scheme tree_at_ind' := Minimality for tree_at Sort Prop
  with forest_at_ind' := Minimality for forest_at Sort Prop.
Combined Scheme layout_ind from tree_at_ind', forest_at_ind'.

(** The loop, from a position on, is the loop from a later one with more entries. *)
Definition parses_to (c : Z) (entries : option nat -> nat -> list Die) (c' : Z) : Prop :=
  0 <= c -> c <= c' /\ forall fuel parents dies, c' - c <= Z.of_nat fuel ->
  exists fuel', Z.of_nat fuel - (c' - c) <= Z.of_nat fuel' /\
    dies_loop fuel s abbreviations unit_end unit_start address_size parents dies c =
    dies_loop fuel' s abbreviations unit_end unit_start address_size parents
      (dies ++ entries (head parents) (length dies)) c'.

Lemma code_moves c code c1 : 0 <= c -> code_at c = (Ok code, c1) -> c < c1.
Proof.
  intros Hc H. pose proof (uleb_yields "DIE abbreviation code" (info s) unit_end c Hend Hc) as Hy.
  unfold yields_at in Hy. rewrite H in Hy. lia.
Qed.
Lemma attributes_move specs c l c1 :
  0 <= c -> read_attributes s unit_end unit_start address_size specs c = (Ok l, c1) -> c <= c1.
Proof.
  intros Hc H. pose proof (read_attributes_yields s Hs unit_end Hend unit_start address_size specs c Hunit Hc) as Hy.
  unfold yields_at, moves in Hy. rewrite H in Hy. lia.
Qed.

(** One entry. *)
Lemma dies_loop_entry c code c1 a attributes c2 fuel parents dies :
  c < unit_end -> code_at c = (Ok code, c1) -> code <> 0 -> abbreviations !! code = Some a ->
  attributes_at a c1 = (Ok attributes, c2) ->
  dies_loop (S fuel) s abbreviations unit_end unit_start address_size parents dies c =
  dies_loop fuel s abbreviations unit_end unit_start address_size
    (if has_children a then length dies :: parents else parents)
    (dies ++ [mkDie c (ab_tag a) (head parents) attributes]) c2.
Proof.
  intros Hc Hcode Hnz Ha Hattr. cbn [dies_loop]. mrun. destruct (Z.ltb_spec c unit_end); [|lia].
  rewrite (run_Ok _ _ _ _ _ Hcode). destruct (Z.eqb_spec code 0); [done|]. rewrite Ha.
  by rewrite (run_Ok _ _ _ _ _ Hattr).
Qed.

(** A null entry closes the innermost parent. *)
Lemma dies_loop_null c c1 fuel p parents dies :
  c < unit_end -> code_at c = (Ok 0, c1) ->
  dies_loop (S fuel) s abbreviations unit_end unit_start address_size (p :: parents) dies c =
  dies_loop fuel s abbreviations unit_end unit_start address_size parents dies c1.
Proof.
  intros Hc Hcode. cbn [dies_loop]. mrun. destruct (Z.ltb_spec c unit_end); [|lia].
  by rewrite (run_Ok _ _ _ _ _ Hcode).
Qed.

Lemma layout_parses :
  (forall c t c', tree_at c t c' -> parses_to c (fun parent index => tree_entries parent index t) c') /\
  (forall c ts c', forest_at c ts c' -> parses_to c (fun parent index => forest_entries parent index ts) c').
Proof.
  apply layout_ind.
  - intros c code c1 a attributes c2 Hc Hcode Hnz Ha Hattr Hch H0.
    pose proof (code_moves _ _ _ H0 Hcode). pose proof (attributes_move _ c1 _ _ ltac:(lia) Hattr).
    split; [lia|]. intros [|fuel] parents dies Hf; [lia|]. exists fuel. split; [lia|].
    by rewrite (dies_loop_entry c code c1 a attributes c2), Hch.
  - intros c code c1 a attributes c2 children c3 c4 Hc Hcode Hnz Ha Hattr Hch _ IH Hc3 Hnull H0.
    pose proof (code_moves _ _ _ H0 Hcode). pose proof (attributes_move _ c1 _ _ ltac:(lia) Hattr).
    destruct (IH ltac:(lia)) as [Hle Hrun]. pose proof (code_moves c3 0 c4 ltac:(lia) Hnull).
    split; [lia|]. intros [|fuel] parents dies Hf; [lia|].
    rewrite (dies_loop_entry c code c1 a attributes c2), Hch by done.
    destruct (Hrun fuel (length dies :: parents) (dies ++ [mkDie c (ab_tag a) (head parents) attributes])) as
      ([|fuel'] & Hf' & E); [lia|lia|].
    exists fuel'. split; [lia|]. rewrite E, (dies_loop_null c3 c4) by done. f_equal.
    rewrite tree_entries_node, <- app_assoc, length_app. cbn. by rewrite Nat.add_1_r.
  - intros c Hc. split; [lia|]. intros fuel parents dies _. exists fuel. split; [lia|]. simpl. by rewrite app_nil_r.
  - intros c t c1 ts c2 _ IH1 _ IH2 H0. destruct (IH1 H0) as [H1 R1]. destruct (IH2 ltac:(lia)) as [H2 R2].
    split; [lia|]. intros fuel parents dies Hf.
    destruct (R1 fuel parents dies) as (f1 & Hf1 & E1); [lia|].
    destruct (R2 f1 parents (dies ++ tree_entries (head parents) (length dies) t)) as (f2 & Hf2 & E2); [lia|].
    exists f2. split; [lia|]. rewrite E1, E2. f_equal. cbn [forest_entries]. by rewrite length_app, <- app_assoc.
Qed.

(** The loop recovers the forest that fills the unit. *)
Lemma dies_loop_forest c ts :
  0 <= c -> forest_at c ts unit_end ->
  dies_loop (length (info s)) s abbreviations unit_end unit_start address_size [] [] c =
  (Ok (forest_entries None 0 ts), unit_end).
Proof.
  intros Hc Hts. destruct (proj2 layout_parses _ _ _ Hts Hc) as [_ H].
  destruct (H (length (info s)) [] []) as (fuel & _ & E).
  { destruct Hend as [He _]. unfold size_of in He. lia. }
  rewrite E. destruct fuel; cbn [dies_loop]; mrun; (destruct (Z.ltb_spec unit_end unit_end); [lia|done]).
Qed.
End Layout.

(** ** Ancestors *)

Inductive ancestor (dies : list Die) : nat -> nat -> Prop :=
  | parent_ancestor i d p : dies !! i = Some d -> die_parent d = Some p -> ancestor dies p i
  | further_ancestor i d p a : dies !! i = Some d -> die_parent d = Some p -> ancestor dies a p -> ancestor dies a i.

Section Ancestors.
Context (start end_ : Z) (dies : list Die) (Hwf : wf_dies start end_ dies).

Lemma ancestor_before a i : ancestor dies a i -> (a < i)%nat.
Proof. induction 1 as [i d p Hi Hp|i d p a Hi Hp _ IH]; pose proof (die_parents _ _ _ Hwf _ _ _ Hi Hp); lia. Qed.

Lemma ancestor_trans a b c : ancestor dies a b -> ancestor dies b c -> ancestor dies a c.
Proof. intros Hab. induction 1 as [i d p Hi Hp|i d p b Hi Hp _ IH]; eapply further_ancestor; eauto. Qed.

Lemma die_at_Some i : (i < length dies)%nat -> exists d, dies !! i = Some d /\ die_at dies i = Ok d.
Proof. intros [d Hd]%lookup_lt_is_Some_2. exists d. unfold die_at. by rewrite Hd. Qed.

(** A parent of an entry is an entry, and has fewer entries before it. *)
Lemma parent_bound i d p : dies !! i = Some d -> die_parent d = Some p -> (p < i)%nat /\ (p < length dies)%nat.
Proof. intros Hi Hp. pose proof (die_parents _ _ _ Hwf _ _ _ Hi Hp). apply lookup_lt_Some in Hi. lia. Qed.

(** What a walk over parents can rely on. *)
Definition walkable (fuel : nat) (parent : option nat) : Prop :=
  forall p, parent = Some p -> (p < fuel)%nat /\ (p < length dies)%nat.

Lemma walkable_parent i d : dies !! i = Some d -> walkable (length dies) (die_parent d).
Proof. intros Hi p Hp. destruct (parent_bound _ _ _ Hi Hp). lia. Qed.
Lemma walkable_step fuel p d : walkable (S fuel) (Some p) -> dies !! p = Some d -> walkable fuel (die_parent d).
Proof. intros Hw Hp q Hq. destruct (Hw p eq_refl). destruct (parent_bound _ _ _ Hp Hq). lia. Qed.
Lemma walkable_0 p : ~ walkable 0 (Some p).
Proof. intros H. destruct (H p eq_refl). lia. Qed.

Lemma descends_decides fuel parent a :
  walkable fuel parent ->
  exists b, descends fuel dies parent a = Ok b /\
            (b = true <-> exists p, parent = Some p /\ (p = a \/ ancestor dies a p)).
Proof.
  revert parent. induction fuel as [|fuel IH]; intros [p|] Hw; cbn [descends];
    try (exists false; split; [done|split; [done|by intros (? & ? & _)]]); [by apply walkable_0 in Hw|].
  destruct (Nat.eqb_spec p a) as [->|Hne]; [exists true; split; [done|split; eauto]|].
  destruct (Hw p eq_refl) as [_ Hp]. destruct (die_at_Some _ Hp) as (d & Hd & ->). cbn [mbind res_bind].
  destruct (IH (die_parent d)) as (b & E & Hb); [by eapply walkable_step|]. exists b. split; [done|]. rewrite Hb. split.
  - intros (q & Hq & [->|Ha]); exists p; (split; [done|right]); [by eapply parent_ancestor|by eapply further_ancestor].
  - intros (q & [= <-] & [?|Ha]); [done|]. inversion Ha as [i x y Hi Hy|i x y z Hi Hy Hz]; simplify_eq; eauto.
Qed.

(** [is_descendant_of] decides the ancestor relation. *)
Lemma is_descendant_of_decides child a :
  (child < length dies)%nat -> exists b, is_descendant_of dies child a = Ok b /\ (b = true <-> ancestor dies a child).
Proof.
  intros Hc. destruct (die_at_Some _ Hc) as (d & Hd & E). unfold is_descendant_of. rewrite E. cbn [mbind res_bind].
  destruct (descends_decides (length dies) (die_parent d) a (walkable_parent _ _ Hd)) as (b & Eb & H).
  exists b. split; [done|]. rewrite H. split.
  - intros (p & Hp & [->|Ha]); [by eapply parent_ancestor|by eapply further_ancestor].
  - intros Ha. inversion Ha as [i x y Hi Hy|i x y z Hi Hy Hz]; simplify_eq; eauto.
Qed.
End Ancestors.

(** ** Units *)

(** C29: a unit whose bytes after the header are a forest of entries in preorder parses to
    exactly the entries of that forest, each with the index of its parent; in version 5
    their indexes are then resolved. *)
Theorem parse_unit_dies_forest s start h c abbreviations ts :
  sections_sized s -> 0 <= start ->
  read_unit_header (info s) start = (Ok h, c) ->
  parse_abbreviations (abbrev s) (abbrev_offset h) = Ok abbreviations ->
  forest_at s (unit_end h) start (address_size h) abbreviations c ts (unit_end h) ->
  parse_unit_dies s start =
  (dies ← (if unit_version h =? 5 then resolve_dwarf5_indexes s (forest_entries None 0 ts)
           else Ok (forest_entries None 0 ts));
   Ok (mkParsed dies (unit_end h) (unit_version h))).
Proof.
  intros Hs Hstart Hh Ha Hts. pose proof (die_unit_header_yields (info s) start (info_sized _ Hs) Hstart) as Hy.
  unfold yields_at in Hy. rewrite Hh in Hy. destruct Hy as (H1 & H2 & _).
  unfold parse_unit_dies. rewrite (run_Ok _ _ _ _ _ Hh), Ha, run_lift_Ok.
  erewrite run_Ok by (apply dies_loop_forest; [done|split; [done|by apply info_sized]|lia|lia|done]).
  rewrite run_mget, run_throw_if, Z.eqb_refl. cbn [negb].
  destruct (unit_version h =? 5); [|done]. unfold mbind, M_bind, lift.
  by destruct (resolve_dwarf5_indexes s (forest_entries None 0 ts)).
Qed.

(** ** A unit *)

Definition cstr (s : string) : list byte := map Ascii.byte_of_ascii (String.list_ascii_of_string s) ++ [x00].

(** The abbreviations: a unit, a subprogram, a block, an inlined call, a parameter, a variable. *)
Definition demo_abbrev : list byte :=
  map byte_of_Z
    [1; 0x11; 1; 0x11; 0x01; 0; 0;
     2; 0x2e; 1; 0x03; 0x08; 0x11; 0x01; 0x12; 0x06; 0; 0;
     3; 0x0b; 1; 0x11; 0x01; 0x12; 0x06; 0; 0;
     4; 0x1d; 1; 0x03; 0x08; 0x11; 0x01; 0x12; 0x06; 0x58; 0x0b; 0x59; 0x0b; 0; 0;
     5; 0x05; 0; 0x03; 0x08; 0; 0;
     6; 0x34; 0; 0x03; 0x08; 0; 0;
     0].

(** [main] with a parameter and a variable, a block that shadows it, and [inner] inlined
    into [outer] inlined into [main]. *)
Definition demo_entries : list byte :=
  [x01] ++ le_split 8 0x1000 ++
    [x02] ++ cstr "main" ++ le_split 8 0x1000 ++ le_split 4 0x100 ++
      [x05] ++ cstr "argc" ++
      [x06] ++ cstr "total" ++
      [x03] ++ le_split 8 0x1001 ++ le_split 4 0x50 ++
        [x06] ++ cstr "total" ++ [x00] ++
      [x04] ++ cstr "outer" ++ le_split 8 0x1002 ++ le_split 4 0x20 ++ [x01; x07] ++
        [x06] ++ cstr "value" ++
        [x04] ++ cstr "inner" ++ le_split 8 0x1004 ++ le_split 4 0x08 ++ [x01; x09; x00] ++
        [x00] ++
      [x00] ++
    [x00].

Definition demo_info : list byte :=
  le_split 4 (size_of demo_entries + 7) ++ le_split 2 4 ++ le_split 4 0 ++ [x08] ++ demo_entries.

Definition demo_sections : DebugSections := mkSections demo_info demo_abbrev (cstr "") [] [] [] [] [].

Lemma demo_sections_sized : sections_sized demo_sections.
Proof. split; vm_compute; discriminate. Qed.

Definition demo_unit : list Die := Eval vm_compute in
  match parse_unit_dies demo_sections 0 with Ok u => unit_dies u | _ => [] end.

Lemma demo_unit_parses : parse_unit_dies demo_sections 0 = Ok (mkParsed demo_unit (size_of demo_info) 4).
Proof. vm_compute. reflexivity. Qed.

Example demo_parents : map die_parent demo_unit =
  [None; Some 0; Some 1; Some 1; Some 1; Some 4; Some 1; Some 6; Some 6]%nat.
Proof. reflexivity. Qed.

Definition demo_abbreviations : gmap Z Abbreviation := Eval vm_compute in
  match parse_abbreviations demo_abbrev 0 with Ok a => a | _ => ∅ end.

(** Finds the layout of a concrete forest. *)
Ltac lay_tree :=
  first
  [ eapply leaf_at; [vm_compute; reflexivity|vm_compute; reflexivity|discriminate|reflexivity
                    |vm_compute; reflexivity|reflexivity]
  | eapply node_at; [vm_compute; reflexivity|vm_compute; reflexivity|discriminate|reflexivity
                    |vm_compute; reflexivity|reflexivity|lay_forest|vm_compute; reflexivity|vm_compute; reflexivity] ]
with lay_forest := first [eapply cons_at; [lay_tree|lay_forest] | eapply nil_at].

Lemma demo_forest : exists ts,
  forest_at demo_sections (size_of demo_info) 0 8 demo_abbreviations 11 ts (size_of demo_info) /\
  forest_entries None 0 ts = demo_unit.
Proof. eexists. split; [lay_forest|reflexivity]. Qed.

Lemma parse_unit_dies_forest_witness : exists ts,
  forest_entries None 0 ts = demo_unit /\
  parse_unit_dies demo_sections 0 = Ok (mkParsed (forest_entries None 0 ts) (size_of demo_info) 4).
Proof.
  destruct demo_forest as (ts & Hts & E). exists ts. split; [exact E|].
  exact (parse_unit_dies_forest demo_sections 0 (mkHeader (size_of demo_info) 4 0 8) 11 demo_abbreviations ts
    demo_sections_sized (Z.le_refl 0) ltac:(vm_compute; reflexivity) ltac:(vm_compute; reflexivity) Hts).
Defined.
