(* ===== verification/DebugScopes.v ===== *)
(** * Scopes, inline contexts and local catalogues ([src/dwarf/source_lookup.cpp])

    The queries of the DWARF source lookup that only need the entries of a unit: the
    physical subprogram of an address, the chain of inlined calls active there, and the
    names of the locals in scope.  Each query goes through the units of the debug file
    until one owns the address. *)

From S2P Require Import Prelude Machine ByteReader ElfFormat Process DebuggerState Debugger Elf Core Unwind.
From S2P Require Import ModulePath LineTable Inspection LocalValue DebugInfo.

(* src/dwarf/source_lookup.cpp:7-7 kInlineDwAtRanges *)
Definition kInlineDwAtRanges : Z := 0x55.
(* src/dwarf/source_lookup.cpp:8-8 kInlineDwAtCallColumn *)
Definition kInlineDwAtCallColumn : Z := 0x57.
(* src/dwarf/source_lookup.cpp:9-9 kInlineDwAtCallFile *)
Definition kInlineDwAtCallFile : Z := 0x58.
(* src/dwarf/source_lookup.cpp:10-10 kInlineDwAtCallLine *)
Definition kInlineDwAtCallLine : Z := 0x59.
(* src/dwarf/source_lookup.cpp:15-15 kMaxInlineContexts *)
Definition kMaxInlineContexts : Z := 8.
(* src/dwarf/source_lookup.cpp:16-16 kMaxInlineRangeEntries *)
Definition kMaxInlineRangeEntries : nat := 64.
(* src/dwarf/source_lookup.cpp:17-17 kMaxDiscoveredLocals *)
Definition kMaxDiscoveredLocals : Z := 64.

(** ** Ranges *)

(* src/dwarf/source_lookup.cpp:25-33 compilation_unit_base *)
Definition compilation_unit_base (dies : list Die) : res Z :=
  match dies with
  | [] => Ok 0
  | front :: _ =>
    match attribute front kDwAtLowPc with
    | None => Ok 0
    | Some low =>
      _ ← throw_if (negb (av_form low =? kDwFormAddr))
            (Exn RuntimeError "compilation-unit DW_AT_low_pc is not DW_FORM_addr");
      Ok (av_number low)
    end
  end.

(** [entries] turns are left; the cursor is into [.debug_ranges]. *)
(* src/dwarf/source_lookup.cpp:54-72 bounded_range_list_contains_pc *)
Fixpoint range_list_loop (entries : nat) (ranges : list byte) (pc base : Z) : M Z bool :=
  match entries with
  | O => mthrow RuntimeError "DWARF4 inline range list exceeds the bounded 64-entry limit"
  | S entries =>
    begin_ ← read_scalar "DWARF4 range begin" ranges (size_of ranges) 8;
    end_ ← read_scalar "DWARF4 range end" ranges (size_of ranges) 8;
    if (begin_ =? 0) && (end_ =? 0) then mret false
    else if begin_ =? u64_max then range_list_loop entries ranges pc end_
    else
      _ ← mthrow_if (end_ <? begin_) RuntimeError "DWARF4 inline range has descending endpoints";
      absolute_begin ← lift (add_unsigned base begin_ "DWARF4 range begin");
      absolute_end ← lift (add_unsigned base end_ "DWARF4 range end");
      if (absolute_begin <=? pc) && (pc <? absolute_end) then mret true
      else range_list_loop entries ranges pc base
  end.

(* src/dwarf/source_lookup.cpp:35-73 bounded_range_list_contains_pc *)
Definition bounded_range_list_contains_pc (die : Die) (pc : Z) (ranges : list byte) (initial_base version : Z)
    : res bool :=
  match attribute die kInlineDwAtRanges with
  | None => Ok false
  | Some range =>
    _ ← throw_if (negb (version =? 4))
          (Exn RuntimeError "inline DW_AT_ranges is currently bounded to DWARF4 .debug_ranges");
    _ ← throw_if (negb (av_form range =? kDwFormSecOffset) && negb (av_form range =? kDwFormData4))
          (Exn RuntimeError "inline DW_AT_ranges does not use a supported section-offset form");
    _ ← throw_if ((size_of ranges =? 0) || (size_of ranges <? av_number range))
          (Exn RuntimeError "inline DW_AT_ranges references unavailable .debug_ranges data");
    fst (range_list_loop kMaxInlineRangeEntries ranges pc initial_base (av_number range))
  end.

Section Unit.
Context (dies : list Die) (pc : Z) (ranges : list byte) (unit_base version : Z).

(* src/dwarf/source_lookup.cpp:75-88 inline_scope_contains_pc *)
Definition inline_scope_contains_pc (die : Die) : res bool :=
  match attribute die kDwAtLowPc, attribute die kDwAtHighPc with
  | None, None => bounded_range_list_contains_pc die pc ranges unit_base version
  | Some low, Some _ =>
    _ ← throw_if (negb (av_form low =? kDwFormAddr))
          (Exn RuntimeError "inline scope has an incomplete DW_AT_low_pc/DW_AT_high_pc range");
    die_contains_pc die pc
  | _, _ => runtime_error "inline scope has an incomplete DW_AT_low_pc/DW_AT_high_pc range"
  end.

(** The entries from [index] on. *)
(* src/dwarf/source_lookup.cpp:94-106 find_physical_subprogram *)
Fixpoint physical_subprogram_from (index : nat) (rest : list Die) (result : option nat) : res (option nat) :=
  match rest with
  | [] => Ok result
  | die :: rest =>
    owned ← (if negb (die_tag die =? kDwTagSubprogram) then Ok false else inline_scope_contains_pc die);
    if negb owned then physical_subprogram_from (S index) rest result
    else
      _ ← throw_if (bool_decide (is_Some result))
            (Exn RuntimeError "snapshot inline discovery PC matches multiple physical DWARF subprograms");
      physical_subprogram_from (S index) rest (Some index)
  end.

(* src/dwarf/source_lookup.cpp:90-107 find_physical_subprogram *)
Definition find_physical_subprogram : res (option nat) := physical_subprogram_from 0 dies None.

(** ** Nesting *)

(* src/dwarf/source_lookup.cpp:111-116 crosses_inline_scope *)
Fixpoint crosses_from (fuel : nat) (parent : option nat) (subprogram : nat) : res bool :=
  match parent with
  | None => Ok false
  | Some parent =>
    if Nat.eqb parent subprogram then Ok false
    else
      match fuel with
      | O => OutOfFuel
      | S fuel =>
        scope ← die_at dies parent;
        if die_tag scope =? kDwTagInlinedSubroutine then Ok true
        else crosses_from fuel (die_parent scope) subprogram
      end
  end.

(* src/dwarf/source_lookup.cpp:109-117 crosses_inline_scope *)
Definition crosses_inline_scope (value_index subprogram : nat) : res bool :=
  value ← die_at dies value_index;
  crosses_from (length dies) (die_parent value) subprogram.

(* src/dwarf/source_lookup.cpp:122-129 inline_depth_from_physical *)
Fixpoint depth_from (fuel : nat) (parent : option nat) (subprogram : nat) (depth : Z) : res (option Z) :=
  match parent with
  | None => Ok None
  | Some parent =>
    match fuel with
    | O => OutOfFuel
    | S fuel =>
      if Nat.eqb parent subprogram then Ok (Some depth)
      else
        scope ← die_at dies parent;
        depth_from fuel (die_parent scope) subprogram
          (if die_tag scope =? kDwTagInlinedSubroutine then depth + 1 else depth)
    end
  end.

(* src/dwarf/source_lookup.cpp:119-130 inline_depth_from_physical *)
Definition inline_depth_from_physical (inline_index subprogram : nat) : res (option Z) :=
  inlined ← die_at dies inline_index;
  depth_from (length dies) (die_parent inlined) subprogram 1.

(* src/dwarf/source_lookup.cpp:137-149 inline_local_scope_depth *)
Fixpoint local_depth_from (fuel : nat) (parent : option nat) (inline_index : nat) (depth : Z) : res (option Z) :=
  match parent with
  | None => Ok None
  | Some parent =>
    match fuel with
    | O => OutOfFuel
    | S fuel =>
      if Nat.eqb parent inline_index then Ok (Some depth)
      else
        scope ← die_at dies parent;
        if die_tag scope =? kDwTagInlinedSubroutine then Ok None
        else if negb (die_tag scope =? kDwTagLexicalBlock) then Ok None
        else
          inside ← inline_scope_contains_pc scope;
          if negb inside then Ok None
          else local_depth_from fuel (die_parent scope) inline_index (depth + 1)
    end
  end.

(* src/dwarf/source_lookup.cpp:132-150 inline_local_scope_depth *)
Definition inline_local_scope_depth (value_index inline_index : nat) : res (option Z) :=
  value ← die_at dies value_index;
  local_depth_from (length dies) (die_parent value) inline_index 0.

(** ** The chain of inlined calls *)

(* src/dwarf/source_lookup.cpp:164-167 discover_inline_unit *)
Record InlineCandidate := mkInlineCandidate { inl_index : nat; inl_depth : Z }.

(** The inlined subroutines of the subprogram that own the address, from [index] on. *)
(* src/dwarf/source_lookup.cpp:169-184 discover_inline_unit *)
Fixpoint inline_candidates (subprogram index : nat) (rest : list Die) : res (list InlineCandidate) :=
  match rest with
  | [] => Ok []
  | die :: rest =>
    nested ← (if negb (die_tag die =? kDwTagInlinedSubroutine) then Ok false
              else is_descendant_of dies index subprogram);
    active ← (if negb nested then Ok false else inline_scope_contains_pc die);
    if negb active then inline_candidates subprogram (S index) rest
    else
      depth ← inline_depth_from_physical index subprogram;
      match depth with
      | None => logic_error "inline context lost physical-subprogram ownership"
      | Some depth =>
        _ ← throw_if (kMaxInlineContexts <? depth)
              (Exn RuntimeError "inline call chain exceeds the bounded 8-context limit");
        candidates ← inline_candidates subprogram (S index) rest;
        Ok (mkInlineCandidate index depth :: candidates)
      end
  end.
End Unit.

Definition shallower (left right : InlineCandidate) : Prop := inl_depth left <= inl_depth right.
#[export] Instance shallower_dec : RelDecision shallower.
Proof. intros x y. unfold shallower. apply _. Defined.

(** Candidate [index] is one call deeper than the previous one, and inside it. *)
(* src/dwarf/source_lookup.cpp:193-202 discover_inline_unit *)
Fixpoint contiguous_chain (dies : list Die) (index : Z) (previous : option nat) (candidates : list InlineCandidate)
    : res unit :=
  match candidates with
  | [] => Ok tt
  | candidate :: candidates =>
    _ ← throw_if (negb (inl_depth candidate =? index + 1))
          (Exn RuntimeError "active inline contexts do not form one contiguous chain");
    nested ← (match previous with
              | None => Ok true
              | Some previous => is_descendant_of dies (inl_index candidate) previous
              end);
    _ ← throw_if (negb nested) (Exn RuntimeError "active inline contexts are ambiguous sibling scopes");
    contiguous_chain dies (index + 1) (Some (inl_index candidate)) candidates
  end.

(** The name and the call site of one candidate. *)
(* src/dwarf/source_lookup.cpp:212-231 discover_inline_unit *)
Definition inline_context (dies : list Die) (line_table : DwarfLineTable) (virtual_pc : Z) (module_path : string)
    (candidate : InlineCandidate) : res InlineCallsiteContext :=
  name ← attribute_with_abstract_origin dies (inl_index candidate) kDwAtName;
  die ← die_at dies (inl_index candidate);
  match name, attribute die kInlineDwAtCallFile, attribute die kInlineDwAtCallLine with
  | Some name, Some call_file, Some call_line =>
    _ ← throw_if (String.eqb (av_text name) EmptyString || (av_number call_file =? 0) || (av_number call_line =? 0))
          (Exn RuntimeError "active inline context lacks bounded name/call-site metadata");
    path ← find_virtual_file line_table virtual_pc (av_number call_file);
    match path with
    | None =>
      runtime_error "active inline context call-site file index is unavailable in the owning line table"
    | Some path =>
      Ok (mkInlineContext (die_offset die) (inl_depth candidate - 1) module_path (av_text name)
            (mkLocation path (av_number call_line) (default 0 (av_number <$> attribute die kInlineDwAtCallColumn))))
    end
  | _, _, _ => runtime_error "active inline context lacks bounded name/call-site metadata"
  end.

Section Discovery.
Context `{H : Host}.

(** [std::sort] leaves the order of equal depths open: two of them are not a contiguous
    chain in any order. *)
(* src/dwarf/source_lookup.cpp:152-234 discover_inline_unit *)
Definition discover_inline_unit (sections : DebugSections) (ranges : list byte) (virtual_pc : Z)
    (module_path debug_path : string) (unit_start : Z) : res (option (list InlineCallsiteContext) * Z) :=
  unit ← parse_unit_dies sections unit_start;
  let dies := unit_dies unit in
  unit_base ← compilation_unit_base dies;
  subprogram ← find_physical_subprogram dies virtual_pc ranges unit_base (parsed_version unit);
  match subprogram with
  | None => Ok (None, next_unit unit)
  | Some subprogram =>
    candidates ← inline_candidates dies virtual_pc ranges unit_base (parsed_version unit) subprogram 0 dies;
    match candidates with
    | [] => Ok (Some [], next_unit unit)
    | _ =>
      _ ← throw_if (kMaxInlineContexts <? size_of candidates)
            (Exn RuntimeError "inline call chain exceeds the bounded 8-context limit");
      let candidates := merge_sort shallower candidates in
      _ ← contiguous_chain dies 0 None candidates;
      line_table ← open_line_table debug_path;
      _ ← throw_if (bool_decide (find_virtual_address line_table virtual_pc = None))
            (Exn RuntimeError "inline context has no supported source file ownership");
      result ← mapM (inline_context dies line_table virtual_pc module_path) candidates;
      Ok (Some result, next_unit unit)
    end
  end.

(** ** The catalogue of locals *)

(* src/dwarf/source_lookup.cpp:246-249 discover_scoped_local_catalogue_unit *)
Record LocalCandidate := mkLocalCandidate { lcd_depth : Z; lcd_kind : LocalDiscoveryKind }.

(** [variable] or [parameter]; [None]: neither. *)
(* src/dwarf/source_lookup.cpp:253-264 discover_scoped_local_catalogue_unit *)
Definition local_kind (die : Die) : option LocalDiscoveryKind :=
  if die_tag die =? kDwTagFormalParameter then Some DFormalParameter
  else if die_tag die =? kDwTagVariable then Some DVariable else None.

(** The deeper of two locals of a name is selected; two at the same depth are an error. *)
(* src/dwarf/source_lookup.cpp:265-281 discover_scoped_local_catalogue_unit *)
Definition select_local (limit ambiguous name : string) (candidate : LocalCandidate)
    (selected : gmap string LocalCandidate) : res (gmap string LocalCandidate) :=
  match selected !! name with
  | None =>
    _ ← throw_if (kMaxDiscoveredLocals <=? Z.of_nat (size selected)) (Exn RuntimeError limit);
    Ok (<[name := candidate]> selected)
  | Some existing =>
    if lcd_depth existing <? lcd_depth candidate then Ok (<[name := candidate]> selected)
    else
      _ ← throw_if (lcd_depth candidate =? lcd_depth existing) (Exn RuntimeError (ambiguous +:+ name));
      Ok selected
  end.

(** The name and the depth of a local that is in scope. *)
(* src/dwarf/source_lookup.cpp:256-261 discover_scoped_local_catalogue_unit *)
Definition scoped_local (dies : list Die) (virtual_pc : Z) (subprogram index : nat) : res (option (string * Z)) :=
  inlined ← crosses_inline_scope dies index subprogram;
  if (inlined : bool) then Ok None
  else
    name ← attribute_with_abstract_origin dies index kDwAtName;
    match name with
    | None => Ok None
    | Some name =>
      if String.eqb (av_text name) EmptyString then Ok None
      else
        depth ← active_scope_depth dies index subprogram virtual_pc;
        Ok (depth ← depth; Some (av_text name, depth))
    end.

(* src/dwarf/source_lookup.cpp:323-327 discover_inline_locals_unit *)
Definition inlined_local (dies : list Die) (virtual_pc : Z) (ranges : list byte) (unit_base version : Z)
    (inline_index index : nat) : res (option (string * Z)) :=
  depth ← inline_local_scope_depth dies virtual_pc ranges unit_base version index inline_index;
  match depth with
  | None => Ok None
  | Some depth =>
    name ← attribute_with_abstract_origin dies index kDwAtName;
    match name with
    | None => Ok None
    | Some name => if String.eqb (av_text name) EmptyString then Ok None else Ok (Some (av_text name, depth))
    end
  end.

(** Every entry from [index] on, whose scope [local] gives. *)
(* src/dwarf/source_lookup.cpp:252-282 discover_scoped_local_catalogue_unit *)
Fixpoint select_locals (limit ambiguous : string) (local : nat -> res (option (string * Z))) (index : nat)
    (rest : list Die) (selected : gmap string LocalCandidate) : res (gmap string LocalCandidate) :=
  match rest with
  | [] => Ok selected
  | die :: rest =>
    match local_kind die with
    | None => select_locals limit ambiguous local (S index) rest selected
    | Some kind =>
      found ← local index;
      match found with
      | None => select_locals limit ambiguous local (S index) rest selected
      | Some (name, depth) =>
        selected ← select_local limit ambiguous name (mkLocalCandidate depth kind) selected;
        select_locals limit ambiguous local (S index) rest selected
      end
    end
  end.

Definition name_le (a b : string * LocalCandidate) : Prop := string_lt b.1 a.1 = false.
#[export] Instance name_le_dec : RelDecision name_le.
Proof. intros a b. unfold name_le. apply _. Defined.

(** A [std::map] is visited in the order of its names. *)
(* src/dwarf/source_lookup.cpp:284-289 discover_scoped_local_catalogue_unit *)
Definition catalogue (selected : gmap string LocalCandidate) : list LocalDiscoveryEntry :=
  map (fun entry => mkDiscovery entry.1 (lcd_kind entry.2)) (merge_sort name_le (map_to_list selected)).

(* src/dwarf/source_lookup.cpp:236-290 discover_scoped_local_catalogue_unit *)
Definition discover_scoped_local_catalogue_unit (sections : DebugSections) (ranges : list byte) (virtual_pc : Z)
    (unit_start : Z) : res (option (list LocalDiscoveryEntry) * Z) :=
  unit ← parse_unit_dies sections unit_start;
  let dies := unit_dies unit in
  unit_base ← compilation_unit_base dies;
  subprogram ← find_physical_subprogram dies virtual_pc ranges unit_base (parsed_version unit);
  match subprogram with
  | None => Ok (None, next_unit unit)
  | Some subprogram =>
    selected ← select_locals "active scoped-local catalogue exceeds the bounded 64-name limit"
      "ambiguous active local name at equal lexical depth: " (scoped_local dies virtual_pc subprogram) 0 dies ∅;
    Ok (Some (catalogue selected), next_unit unit)
  end.

(** The inline entry with its subprogram, once its tag, its range and its subprogram are
    checked, and the base address of the unit. *)
(* src/dwarf/source_lookup.cpp:298-312 discover_inline_locals_unit *)
Definition selected_inline (dies : list Die) (virtual_pc : Z) (ranges : list byte) (version : Z)
    (inline_die_offset : Z) : res (option (nat * nat * Z)) :=
  match die_index_by_offset dies inline_die_offset with
  | None => Ok None
  | Some inlined =>
    die ← die_at dies inlined;
    _ ← throw_if (negb (die_tag die =? kDwTagInlinedSubroutine))
          (Exn RuntimeError "selected inline context does not reference an inline DIE");
    unit_base ← compilation_unit_base dies;
    owned ← inline_scope_contains_pc virtual_pc ranges unit_base version die;
    _ ← throw_if (negb owned)
          (Exn RuntimeError "selected inline context no longer owns the physical frame PC");
    subprogram ← find_physical_subprogram dies virtual_pc ranges unit_base version;
    let lost := "selected inline context lost physical-frame ownership" in
    match subprogram with
    | None => runtime_error lost
    | Some subprogram =>
      nested ← is_descendant_of dies inlined subprogram;
      _ ← throw_if (negb nested) (Exn RuntimeError lost);
      Ok (Some (inlined, subprogram, unit_base))
    end
  end.

(* src/dwarf/source_lookup.cpp:292-357 discover_inline_locals_unit *)
Definition discover_inline_locals_unit (sections : DebugSections) (ranges : list byte) (virtual_pc : Z)
    (inline_die_offset unit_start : Z) : res (option (list LocalDiscoveryEntry) * Z) :=
  unit ← parse_unit_dies sections unit_start;
  let dies := unit_dies unit in
  found ← selected_inline dies virtual_pc ranges (parsed_version unit) inline_die_offset;
  match found with
  | None => Ok (None, next_unit unit)
  | Some (inlined, _, unit_base) =>
    selected ← select_locals "inline scoped-local catalogue exceeds the bounded 64-name limit"
      "ambiguous inline local name at equal lexical depth: "
      (inlined_local dies virtual_pc ranges unit_base (parsed_version unit) inlined) 0 dies ∅;
    Ok (Some (catalogue selected), next_unit unit)
  end.

(** ** The units of a debug file *)

(** The first answer of a unit, or [None] when no unit has one.  A unit ends after it
    starts, so as many turns as bytes are enough. *)
(* src/dwarf/source_lookup.cpp:732-742 discover_inline_call_chain *)
Fixpoint first_unit {A} (fuel : nat) (not_advanced : string) (query : Z -> res (option A * Z)) (limit unit : Z)
    : res (option A) :=
  if unit <? limit then
    match fuel with
    | O => OutOfFuel
    | S fuel =>
      '(result, next) ← query unit;
      match result with
      | Some result => Ok (Some result)
      | None =>
        _ ← throw_if (next <=? unit) (Exn RuntimeError not_advanced);
        first_unit fuel not_advanced query limit next
      end
    end
  else Ok None.

(* src/dwarf/source_lookup.cpp:732-743 discover_inline_call_chain *)
Definition search_units {A} (not_advanced : string) (sections : DebugSections) (query : Z -> res (option A * Z))
    : res (option A) :=
  first_unit (length (info sections)) not_advanced query (size_of (info sections)) 0.

(* src/dwarf/source_lookup.cpp:19-23 read_debug_ranges *)
Definition read_debug_ranges (path : string) : res (list byte) :=
  sections ← read_named_sections path [".debug_ranges"];
  Ok (default [] (sections !! ".debug_ranges")).

Context `{F : FileAccess}.

(** What the queries of a core share: the module and the debug file of the frame. *)
(* src/dwarf/source_lookup.cpp:720-730 discover_inline_call_chain *)
Definition frame_debug_file (changed : string) (snapshot : SnapshotObject) (frame : SnapshotInspectionFrameContext)
    (module_paths : SnapshotModulePathResolver)
    : res (SnapshotModuleAddress * string * DebugSections * list byte) :=
  _ ← validate_snapshot_inspection_frame snapshot frame;
  _ ← validate_snapshot_frame_lookup_pc frame;
  lookup_runtime_pc ← snapshot_frame_lookup_pc frame;
  owner ← resolve_snapshot_module_address (so_core snapshot) lookup_runtime_pc module_paths;
  _ ← throw_if (negb (String.eqb (ma_module_path owner) (sf_module_path frame))) (Exn LogicError changed);
  debug_path ← resolve_debug_file (ma_module_path owner) module_paths;
  sections ← read_debug_sections debug_path;
  ranges ← read_debug_ranges debug_path;
  Ok (owner, debug_path, sections, ranges).

(* src/dwarf/source_lookup.cpp:717-744 discover_inline_call_chain *)
Definition discover_inline_call_chain (snapshot : SnapshotObject) (frame : SnapshotInspectionFrameContext)
    (module_paths : SnapshotModulePathResolver) : res (list InlineCallsiteContext) :=
  '(owner, debug_path, sections, ranges) ←
    frame_debug_file "snapshot inline discovery module ownership changed" snapshot frame module_paths;
  result ← search_units "DWARF inline parser did not advance to the next unit" sections
    (discover_inline_unit sections ranges (ma_virtual_address owner) (ma_module_path owner) debug_path);
  Ok (default [] result).

(* src/dwarf/source_lookup.cpp:780-809 discover_local_values *)
Definition discover_local_values (snapshot : SnapshotObject) (frame : SnapshotInspectionFrameContext)
    (module_paths : SnapshotModulePathResolver) : res (list LocalDiscoveryEntry) :=
  '(owner, _, sections, ranges) ←
    frame_debug_file "snapshot local discovery module ownership changed" snapshot frame module_paths;
  result ← search_units "DWARF parser did not advance to the next unit" sections
    (discover_scoped_local_catalogue_unit sections ranges (ma_virtual_address owner));
  match result with
  | Some result => Ok result
  | None =>
    runtime_error "snapshot local discovery PC is not covered by a supported DWARF4/5 subprogram"
  end.

(* src/dwarf/source_lookup.cpp:811-838 discover_inline_local_values *)
Definition discover_inline_local_values (snapshot : SnapshotObject) (frame : SnapshotInspectionFrameContext)
    (inline_die_offset : Z) (module_paths : SnapshotModulePathResolver) : res (list LocalDiscoveryEntry) :=
  '(owner, _, sections, ranges) ←
    frame_debug_file "snapshot inline local discovery module ownership changed" snapshot frame module_paths;
  result ← search_units "DWARF inline-local parser did not advance to the next unit" sections
    (discover_inline_locals_unit sections ranges (ma_virtual_address owner) inline_die_offset);
  match result with
  | Some result => Ok result
  | None => runtime_error "selected inline DIE is unavailable in the owning debug file"
  end.

(** ** A live process *)

Context `{K : Kernel} `{PM : !ProcMaps K}.

(* src/dwarf/source_lookup_impl.inc:2939-2963 validate_inspection_frame *)
Definition validate_inspection_frame (frame : InspectionFrameContext) : M dst unit :=
  d ← get_debugger;
  _ ← mthrow_if (bool_decide (state_ (process_ d) <> Stopped)) LogicError
        "inspection-frame local-value lookup requires a stopped tracee";
  _ ← mthrow_if (negb (if_process_pid frame =? pid_ (process_ d)) || negb (if_tid frame =? current_tid_ (process_ d)))
        LogicError "inspection frame belongs to a different process/TID domain";
  _ ← mthrow_if (negb (if_origin_stop_sequence frame =? si_sequence (stop_info_ d))) LogicError
        "inspection frame is stale after debugger stop changed";
  live ← registers;
  _ ← mthrow_if (negb (rip live =? if_origin_runtime_pc frame) || negb (rsp live =? if_origin_stack_pointer frame) ||
                 match if_origin_frame_pointer frame with Some bp => negb (rbp live =? bp) | None => false end)
        LogicError "inspection frame is stale after execution state changed";
  mthrow_if ((if_runtime_pc frame =? 0) || (if_stack_pointer frame =? 0) ||
             String.eqb (if_module_path frame) EmptyString)
    InvalidArgument "inspection frame is incomplete".

(* src/dwarf/source_lookup.cpp:746-778 discover_local_values *)
Definition discover_live_local_values (preferred_elf : ElfFile) (frame : InspectionFrameContext)
    : M dst (list LocalDiscoveryEntry) :=
  _ ← validate_inspection_frame frame;
  let module_path :=
    if String.eqb (if_module_path frame) EmptyString then elf_path preferred_elf else if_module_path frame in
  module ← lift (open_elf module_path);
  bias ← kernel (load_bias module (if_process_pid frame));
  _ ← mthrow_if (if_runtime_pc frame <? bias) RuntimeError
        "inspection-frame local discovery PC is below module load bias";
  let virtual_pc := if_runtime_pc frame - bias in
  sections ← lift (read_debug_sections (elf_path module));
  ranges ← lift (read_debug_ranges (elf_path module));
  result ← lift (search_units "DWARF local-discovery parser did not advance to the next unit" sections
                   (discover_scoped_local_catalogue_unit sections ranges virtual_pc));
  match result with
  | Some result => mret result
  | None =>
    mthrow RuntimeError
      "inspection-frame local discovery PC is not covered by a supported DWARF4/5 subprogram"
  end.
End Discovery.
