(* ===== verification/DebugScopesProofs.v ===== *)
(** * What the scope queries answer

    The physical subprogram of an address is the only one that owns it; the inlined calls
    active there are one nested chain; of the locals of a name the innermost is listed. *)

From S2P Require Import Prelude Machine ByteReader ElfFormat ModulePath LineTable LineTableProofs Inspection LocalValue.
From S2P Require LineTableProofs.
From S2P Require Import DebugInfo DebugInfoProofs DebugTree DebugScopes.

(** ** Ranges *)

Lemma add_unsigned_settles a b what : settles (add_unsigned a b what).
Proof. unfold add_unsigned. settles_auto. Qed.
#[export] Hint Resolve add_unsigned_settles : msettle.

Lemma die_contains_pc_settles d pc : settles (die_contains_pc d pc).
Proof.
  unfold die_contains_pc. destruct (attribute d kDwAtLowPc) as [low|], (attribute d kDwAtHighPc) as [high|]; try done.
  destruct (negb _); [done|]. apply settles_bind; [|done]. destruct (_ =? _); [done|]. auto with msettle.
Qed.

Lemma scalar_total what bytes limit n c : yields_at c (fun _ _ => True) (read_scalar what bytes limit n).
Proof.
  unfold yields_at, read_scalar, read_scalar_with. mrun. destruct (_ || _); [done|].
  unfold read_at_with, throw_if. by destruct (out_of_bounds _ _ _).
Qed.

Lemma range_list_loop_total n ranges pc base c :
  yields_at c (fun _ _ => True) (range_list_loop n ranges pc base).
Proof.
  revert base c. induction n as [|n IH]; intros base c; [done|]. cbn [range_list_loop].
  eapply yields_at_bind; [apply scalar_total|intros b c1 _]. eapply yields_at_bind; [apply scalar_total|intros e c2 _].
  destruct (_ && _); [done|]. destruct (_ =? _); [apply IH|]. apply yields_at_guard; intros _.
  do 2 (eapply yields_at_bind; [apply yields_at_lift, settles_yields; auto with msettle|intros ? ? _]).
  destruct (_ && _); [done|apply IH].
Qed.

Section Unit.
Context (pc : Z) (ranges : list byte) (unit_base version : Z).
Notation contains := (inline_scope_contains_pc pc ranges unit_base version).

Lemma inline_scope_contains_pc_settles d : settles (contains d).
Proof.
  unfold inline_scope_contains_pc.
  destruct (attribute d kDwAtLowPc) as [low|], (attribute d kDwAtHighPc) as [high|]; try done.
  - apply settles_bind; [auto with msettle|intros _ _]. apply die_contains_pc_settles.
  - unfold bounded_range_list_contains_pc. destruct (attribute d kInlineDwAtRanges) as [r|]; [|done].
    do 3 (apply settles_bind; [auto with msettle|intros _ _]).
    eapply (yields_settles (fun _ => True)), (yields_run _ (fun _ _ => True)); [done|]. apply range_list_loop_total.
Qed.

(** ** The physical subprogram *)

(** A subprogram that owns the address. *)
Definition owns (d : Die) : Prop := die_tag d = kDwTagSubprogram /\ contains d = Ok true.

Lemma physical_subprogram_from_spec index rest result :
  (forall i, result = Some i -> (i < index)%nat) ->
  yields (fun r => (forall i, r = Some i -> result = Some i \/
                                            exists k d, i = (index + k)%nat /\ rest !! k = Some d /\ owns d) /\
                   (forall k d, rest !! k = Some d -> owns d -> r = Some (index + k)%nat) /\
                   (is_Some result -> r = result))
    (physical_subprogram_from pc ranges unit_base version index rest result).
Proof.
  revert index result. induction rest as [|d rest IH]; intros index result Hr; cbn [physical_subprogram_from].
  { simpl. split; [by auto|]. split; [done|done]. }
  eapply yields_bind with (fun b : bool => b = true <-> owns d).
  { unfold owns. destruct (Z.eqb_spec (die_tag d) kDwTagSubprogram) as [E|E]; cbn [negb].
    - pose proof (inline_scope_contains_pc_settles d) as H. destruct (contains d) as [b|e|w|]; try done.
      simpl. split; [by intros ->|by intros [_ [= ->]]].
    - simpl. split; [done|tauto]. }
  intros b Hb. destruct b; cbn [negb].
  - apply yields_guard; intros Hnone%bool_decide_eq_false. destruct result as [r|]; [by destruct Hnone; eauto|].
    eapply yields_weaken; [|apply IH; intros i [= ->]; lia]. intros r (_ & H2 & H3). specialize (H3 ltac:(eauto)).
    split; [|split; [|by intros []%is_Some_None]].
    + intros i ->. right. exists O, d. rewrite Nat.add_0_r. split; [congruence|]. split; [done|by apply Hb].
    + intros [|k] x Hk Hx; [rewrite Nat.add_0_r; done|]. specialize (H2 _ _ Hk Hx). rewrite H2 in H3.
      injection H3 as H3. lia.
  - eapply yields_weaken; [|apply (IH (S index) result); intros i Hi; specialize (Hr i Hi); lia].
    intros r (H1 & H2 & H3). split; [|split; [|done]].
    + intros i Hi. destruct (H1 i Hi) as [?|(k & x & -> & Hk & Hx)]; [by left|].
      right. exists (S k), x. split; [lia|done].
    + intros [|k] x Hk Hx; [injection Hk as ->; by apply Hb in Hx|]. rewrite (H2 k x Hk Hx). f_equal. lia.
Qed.

Lemma find_physical_subprogram_spec dies :
  yields (fun r => (forall i, r = Some i -> exists d, dies !! i = Some d /\ owns d) /\
                   (forall i d, dies !! i = Some d -> owns d -> r = Some i))
    (find_physical_subprogram dies pc ranges unit_base version).
Proof.
  unfold find_physical_subprogram. eapply yields_weaken; [|by apply physical_subprogram_from_spec].
  intros r (H1 & H2 & _). split; [|exact H2]. intros i ->.
  destruct (H1 i eq_refl) as [[=]|(k & x & -> & Hk & Hx)]. eauto.
Qed.
End Unit.

(** ** Scopes *)

(** From [p] up to [top], [n] entries of the kind [through] are left. *)
Inductive path (dies : list Die) (through : Die -> Prop) (top : nat) : nat -> nat -> Prop :=
  | path_top : path dies through top top 0
  | path_up p d q n :
    p <> top -> dies !! p = Some d -> through d -> die_parent d = Some q -> path dies through top q n ->
    path dies through top p (S n).

Lemma path_impl dies (P Q : Die -> Prop) top p n :
  (forall d, P d -> Q d) -> path dies P top p n -> path dies Q top p n.
Proof. intros H. induction 1; econstructor; eauto. Qed.

(** From the parent of an entry. *)
Definition enclosed (dies : list Die) (through : Die -> Prop) (top value n : nat) : Prop :=
  exists d p, dies !! value = Some d /\ die_parent d = Some p /\ path dies through top p n.

Definition inlined (d : Die) : Prop := die_tag d = kDwTagInlinedSubroutine.
Definition block (d : Die) : Prop := die_tag d = kDwTagLexicalBlock.

Section Walks.
Context (start end_ : Z) (dies : list Die) (Hwf : wf_dies start end_ dies).

Lemma path_inv through top p n :
  path dies through top p n ->
  (p = top /\ n = O) \/
  exists d q m, p <> top /\ dies !! p = Some d /\ through d /\ die_parent d = Some q /\ n = S m /\
                path dies through top q m.
Proof. inversion 1; [by left|right; eauto 10]. Qed.

Ltac next_die p := match goal with Hw : walkable _ _ (Some p) |- _ =>
  let Hp := fresh "Hp" in let d := fresh "d" in let Hd := fresh "Hd" in
  destruct (Hw p eq_refl) as [_ Hp]; destruct (die_at_Some dies p Hp) as (d & Hd & ->); cbn [mbind res_bind] end.

(** [crosses_inline_scope] tells whether an inlined call is on the way. *)
Lemma crosses_from_spec fuel parent top :
  walkable dies fuel parent ->
  yields (fun b : bool => forall p through n, parent = Some p -> path dies through top p n ->
    if b then ~ path dies (fun d => ~ inlined d) top p n else path dies (fun d => through d /\ ~ inlined d) top p n)
    (crosses_from dies fuel parent top).
Proof.
  revert parent. induction fuel as [|fuel IH]; intros [p|] Hw; cbn [crosses_from]; try (intros ? ? ? [=]);
    [by apply walkable_0 in Hw|].
  destruct (Nat.eqb_spec p top) as [->|Hne].
  { intros q T n [= <-] [[_ ->]|(? & ? & ? & ? & _)]%path_inv; [constructor|done]. }
  next_die p. destruct (Z.eqb_spec (die_tag d) kDwTagInlinedSubroutine) as [E|E].
  - intros q T n [= <-] _ [[? _]|(x & y & m & _ & Hx & Hi & _)]%path_inv; [done|]. by simplify_eq.
  - eapply yields_weaken; [|apply IH; by eapply walkable_step]. intros b Hb q T n [= <-] Hpath.
    apply path_inv in Hpath as [[? _]|(x & y & m & _ & Hx & HT & Hy & -> & Hm)]; [done|]. simplify_eq.
    specialize (Hb _ _ _ Hy Hm). destruct b.
    + intros [[? _]|(x' & y' & m' & _ & Hx' & _ & Hy' & [= <-] & Hm')]%path_inv; [done|]. by simplify_eq.
    + econstructor; eauto.
Qed.

Lemma crosses_inline_scope_spec value top :
  (value < length dies)%nat ->
  yields (fun b : bool => forall through n, enclosed dies through top value n ->
    if b then ~ enclosed dies (fun d => ~ inlined d) top value n
    else enclosed dies (fun d => through d /\ ~ inlined d) top value n) (crosses_inline_scope dies value top).
Proof.
  intros Hv. destruct (die_at_Some _ _ Hv) as (d & Hd & E). unfold crosses_inline_scope. rewrite E. cbn [mbind res_bind].
  eapply yields_weaken; [|apply crosses_from_spec; by eapply walkable_parent]. intros b Hb T n (x & p & Hx & Hp & Hpath).
  simplify_eq. specialize (Hb _ _ _ Hp Hpath). destruct b.
  - intros (x & q & Hx' & Hq & Hpath'). by simplify_eq.
  - exists d, p. done.
Qed.

(** [active_scope_depth] counts the scopes on the way, all of them active. *)
Definition active_scope (pc : Z) (d : Die) : Prop := (block d \/ inlined d) /\ die_contains_pc d pc = Ok true.

Lemma scope_depth_loop_spec fuel p top pc depth :
  walkable dies fuel (Some p) ->
  yields (fun r => forall k, r = Some k <-> exists n, path dies (active_scope pc) top p n /\ k = depth + Z.of_nat n)
    (scope_depth_loop fuel dies top pc p depth).
Proof.
  revert p depth. induction fuel as [|fuel IH]; intros p depth Hw; cbn [scope_depth_loop];
    (destruct (Nat.eqb_spec p top) as [->|Hne];
     [intros k; split; [intros [= <-]; exists O; split; [constructor|lia]
                       |intros (n & [[_ ->]|(? & ? & ? & ? & _)]%path_inv & ->); [f_equal; lia|done]]|]);
    [by apply walkable_0 in Hw|].
  next_die p.
  assert (Hno : ~ active_scope pc d ->
    forall k, @None Z = Some k <-> exists n, path dies (active_scope pc) top p n /\ k = depth + Z.of_nat n).
  { intros Hn k. split; [done|]. intros (n & Hpath & ->).
    apply path_inv in Hpath as [[? _]|(x & y & m & _ & Hx & Ha & _)]; [done|]. by simplify_eq. }
  destruct (negb _ && negb _) eqn:Etag.
  { refine (Hno _). apply andb_true_iff in Etag as [E1%negb_true_iff%Z.eqb_neq E2%negb_true_iff%Z.eqb_neq].
    by intros [[?|?] _]. }
  apply yields_guard; intros Hsup. pose proof (die_contains_pc_settles d pc) as Hin.
  destruct (die_contains_pc d pc) as [b|e|w|] eqn:Eb; try done. cbn [mbind res_bind]. destruct b; cbn [negb].
  2: { refine (Hno _). intros [_ H]. rewrite Eb in H. discriminate. }
  assert (Hd' : active_scope pc d).
  { split; [|done]. apply andb_false_iff in Etag as [E%negb_false_iff%Z.eqb_eq|E%negb_false_iff%Z.eqb_eq]; [by left|by right]. }
  destruct (die_parent d) as [q|] eqn:Eq.
  - eapply yields_weaken; [|apply (IH q); rewrite <- Eq; by eapply walkable_step]. intros r Hr k. cbn beta in Hr.
    rewrite Hr. split.
    + intros (n & Hpath & ->). exists (S n). split; [by econstructor|lia].
    + intros (n & [[? _]|(x & y & m & _ & Hx & _ & Hy & -> & Hm)]%path_inv & ->); [done|]. simplify_eq.
      exists m. split; [done|lia].
  - intros k. split; [done|]. intros (n & [[? _]|(x & y & m & _ & Hx & _ & Hy & _)]%path_inv & ->); [done|]. by simplify_eq.
Qed.

Lemma active_scope_depth_spec value top pc :
  (value < length dies)%nat ->
  yields (fun r => forall k, r = Some k <-> exists n, enclosed dies (active_scope pc) top value n /\ k = Z.of_nat n)
    (active_scope_depth dies value top pc).
Proof.
  intros Hv. destruct (die_at_Some _ _ Hv) as (d & Hd & E). unfold active_scope_depth. rewrite E. cbn [mbind res_bind].
  destruct (die_parent d) as [p|] eqn:Ep.
  - eapply yields_weaken; [|apply (scope_depth_loop_spec _ p); rewrite <- Ep; by eapply walkable_parent].
    intros r Hr k. cbn beta in Hr. rewrite Hr. split.
    + intros (n & Hpath & ->). exists n. split; [by exists d, p|lia].
    + intros (n & (x & q & Hx & Hq & Hpath) & ->). simplify_eq. exists n. split; [done|lia].
  - intros k. split; [done|]. intros (n & (x & q & Hx & Hq & _) & _). by simplify_eq.
Qed.

(** [inline_local_scope_depth] counts the blocks on the way to the inlined call. *)
Section Inline.
Context (pc : Z) (ranges : list byte) (unit_base version : Z).

Definition active_block (d : Die) : Prop :=
  block d /\ inline_scope_contains_pc pc ranges unit_base version d = Ok true.

Lemma local_depth_from_spec fuel parent top depth :
  walkable dies fuel parent ->
  yields (fun r => forall k, r = Some k <->
            exists p n, parent = Some p /\ path dies active_block top p n /\ k = depth + Z.of_nat n)
    (local_depth_from dies pc ranges unit_base version fuel parent top depth).
Proof.
  revert parent depth. induction fuel as [|fuel IH]; intros [p|] depth Hw; cbn [local_depth_from];
    try (intros k; split; [done|by intros (? & ? & ? & _)]); [by apply walkable_0 in Hw|].
  destruct (Nat.eqb_spec p top) as [->|Hne].
  { intros k. split.
    - intros [= <-]. exists top, O. split; [done|]. split; [constructor|lia].
    - intros (q & n & [= <-] & [[_ ->]|(? & ? & ? & ? & _)]%path_inv & ->); [f_equal; lia|done]. }
  next_die p.
  assert (Hno : ~ active_block d -> forall k, @None Z = Some k <->
    exists q n, Some p = Some q /\ path dies active_block top q n /\ k = depth + Z.of_nat n).
  { intros Hn k. split; [done|]. intros (q & n & [= <-] & Hpath & ->).
    apply path_inv in Hpath as [[? _]|(x & y & m & _ & Hx & Ha & _)]; [done|]. by simplify_eq. }
  destruct (Z.eqb_spec (die_tag d) kDwTagInlinedSubroutine) as [E|_].
  { refine (Hno _). intros [H _]. unfold block in H. by rewrite E in H. }
  destruct (Z.eqb_spec (die_tag d) kDwTagLexicalBlock) as [Eb|Eb]; cbn [negb]; [|refine (Hno _); by intros [? _]].
  pose proof (inline_scope_contains_pc_settles pc ranges unit_base version d) as Hin.
  destruct (inline_scope_contains_pc _ _ _ _ d) as [b|e|w|] eqn:Ec; try done. cbn [mbind res_bind].
  destruct b; cbn [negb]; [|refine (Hno _); intros [_ H]; rewrite Ec in H; discriminate].
  eapply yields_weaken; [|apply IH; by eapply walkable_step]. intros r Hr k. cbn beta in Hr. rewrite Hr. split.
  - intros (q & n & Hq & Hpath & ->). exists p, (S n). split; [done|]. split; [by econstructor|lia].
  - intros (q & n & [= <-] & [[? _]|(x & y & m & _ & Hx & _ & Hy & -> & Hm)]%path_inv & ->); [done|]. simplify_eq.
    exists y, m. split; [done|]. split; [done|lia].
Qed.

Lemma inline_local_scope_depth_spec value top :
  (value < length dies)%nat ->
  yields (fun r => forall k, r = Some k <-> exists n, enclosed dies active_block top value n /\ k = Z.of_nat n)
    (inline_local_scope_depth dies pc ranges unit_base version value top).
Proof.
  intros Hv. destruct (die_at_Some _ _ Hv) as (d & Hd & E). unfold inline_local_scope_depth. rewrite E.
  cbn [mbind res_bind]. eapply yields_weaken; [|apply local_depth_from_spec; by eapply walkable_parent].
  intros r Hr k. cbn beta in Hr. rewrite Hr. split.
  - intros (p & n & Hp & Hpath & ->). exists n. split; [by exists d, p|lia].
  - intros (n & (x & p & Hx & Hp & Hpath) & ->). simplify_eq. exists p, n. done.
Qed.
End Inline.

(** A descendant of the subprogram has an inline depth. *)
Lemma depth_from_spec fuel parent top depth :
  walkable dies fuel parent ->
  yields (fun r => (exists p, parent = Some p /\ (p = top \/ ancestor dies top p)) ->
                   exists k, r = Some k /\ depth <= k) (depth_from dies fuel parent top depth).
Proof.
  revert parent depth. induction fuel as [|fuel IH]; intros [p|] depth Hw; cbn [depth_from];
    try (by intros (? & ? & _)); [by apply walkable_0 in Hw|].
  destruct (Nat.eqb_spec p top) as [->|Hne]; [intros _; exists depth; split; [done|lia]|].
  next_die p. eapply yields_weaken; [|apply IH; by eapply walkable_step].
  intros r Hr (q & [= <-] & [?|Ha]); [done|]. destruct Hr as (k & -> & Hk).
  { inversion Ha as [i x y Hi Hy|i x y z Hi Hy Hz]; simplify_eq; eauto. }
  exists k. split; [done|]. destruct (_ =? _); lia.
Qed.

Lemma inline_depth_from_physical_spec i top :
  (i < length dies)%nat ->
  yields (fun r => ancestor dies top i -> exists k, r = Some k /\ 1 <= k) (inline_depth_from_physical dies i top).
Proof.
  intros Hv. destruct (die_at_Some _ _ Hv) as (d & Hd & E). unfold inline_depth_from_physical. rewrite E.
  cbn [mbind res_bind]. eapply yields_weaken; [|apply depth_from_spec; by eapply walkable_parent].
  intros r Hr Ha. apply Hr. inversion Ha as [j x y Hi Hy|j x y z Hi Hy Hz]; simplify_eq; eauto.
Qed.

Lemma is_descendant_of_spec i top :
  (i < length dies)%nat -> yields (fun b => b = true <-> ancestor dies top i) (is_descendant_of dies i top).
Proof. intros Hi. by destruct (is_descendant_of_decides _ _ _ Hwf i top Hi) as (b & -> & Hb). Qed.
End Walks.

(** ** Names *)

Lemma die_index_by_offset_lt dies o i : die_index_by_offset dies o = Some i -> (i < length dies)%nat.
Proof.
  unfold die_index_by_offset. destruct (list_find _ dies) as [[j d]|] eqn:E; [|done]. intros [= <-].
  apply list_find_Some in E as (E & _). by apply lookup_lt_Some in E.
Qed.

Lemma follow_abstract_origin_settles depth dies i name :
  (i < length dies)%nat -> settles (follow_abstract_origin depth dies i name).
Proof.
  revert i. induction depth as [|depth IH]; intros i Hi; [done|]. cbn [follow_abstract_origin].
  destruct (die_at_Some dies i Hi) as (d & _ & ->). cbn [mbind res_bind].
  destruct (attribute d name) as [v|]; [done|]. destruct (attribute d kDwAtAbstractOrigin) as [o|]; [|done].
  apply settles_bind; [auto with msettle|intros _ _]. destruct (die_index_by_offset dies _) as [j|] eqn:E; [|done].
  apply settles_bind; [auto with msettle|intros _ _]. by eapply IH, die_index_by_offset_lt.
Qed.
Lemma attribute_with_abstract_origin_settles dies i name :
  (i < length dies)%nat -> settles (attribute_with_abstract_origin dies i name).
Proof. apply follow_abstract_origin_settles. Qed.

(** ** The chain of inlined calls *)

Section Chain.
Context (start end_ : Z) (dies : list Die) (Hwf : wf_dies start end_ dies).
Context (pc : Z) (ranges : list byte) (unit_base version : Z) (top : nat).

(** An inlined call in the subprogram that owns the address. *)
Definition active_call (i : nat) : Prop :=
  exists d, dies !! i = Some d /\ inlined d /\ ancestor dies top i /\
            inline_scope_contains_pc pc ranges unit_base version d = Ok true.

Lemma inline_candidates_spec index rest :
  rest = drop index dies ->
  yields (fun l => Forall (fun c => active_call (inl_index c) /\ 1 <= inl_depth c) l /\
                   (forall i, (index <= i)%nat -> active_call i -> i ∈ map inl_index l))
    (inline_candidates dies pc ranges unit_base version top index rest).
Proof.
  revert index. induction rest as [|d rest IH]; intros index E; cbn [inline_candidates].
  { simpl. split; [constructor|]. intros i Hi (d & Hd & _). apply lookup_lt_Some in Hd.
    apply (f_equal length) in E. rewrite length_drop in E. simpl in E. lia. }
  assert (Hd : dies !! index = Some d) by (rewrite <- (Nat.add_0_r index), <- lookup_drop, <- E; done).
  assert (E' : rest = drop (S index) dies) by (rewrite <- Nat.add_1_r, <- drop_drop, <- E; done).
  pose proof (lookup_lt_Some _ _ _ Hd) as Hlt. specialize (IH _ E').
  assert (Hskip : forall l, ~ active_call index -> (forall i, (S index <= i)%nat -> active_call i -> i ∈ map inl_index l) ->
    forall i, (index <= i)%nat -> active_call i -> i ∈ map inl_index l).
  { intros l Hn Hl i Hi Hact. destruct (decide (i = index)) as [->|]; [done|]. apply Hl; [lia|done]. }
  eapply yields_bind with (fun b : bool => b = true <-> inlined d /\ ancestor dies top index).
  { unfold inlined. destruct (Z.eqb_spec (die_tag d) kDwTagInlinedSubroutine); cbn [negb]; [|by simpl; split; [|intros []]].
    eapply yields_weaken; [|by eapply is_descendant_of_spec]. intros b Hb. cbn beta in *. by rewrite Hb; intuition. }
  intros nested Hn. eapply yields_bind with (fun b : bool => b = true <-> active_call index).
  { destruct nested; cbn [negb].
    - pose proof (inline_scope_contains_pc_settles pc ranges unit_base version d) as Hin.
      destruct (inline_scope_contains_pc _ _ _ _ d) as [b|e|w|] eqn:Ec; try done. simpl. split.
      + intros ->. exists d. destruct Hn as [Hn _]. destruct (Hn eq_refl). done.
      + intros (x & Hx & _ & _ & Ha). simplify_eq. rewrite Ec in Ha. by injection Ha.
    - simpl. split; [done|]. intros (x & Hx & Hi & Ha & _). simplify_eq. by destruct Hn as [_ Hn]; rewrite Hn. }
  intros active Hact. destruct active; cbn [negb].
  - destruct Hact as [Hact _]. specialize (Hact eq_refl).
    eapply yields_bind; [by eapply inline_depth_from_physical_spec|intros r Hr].
    destruct Hact as (x & Hx & Hi & Ha & Hc). destruct (Hr Ha) as (k & -> & Hk). simplify_eq.
    apply yields_guard; intros _. eapply yields_bind; [exact IH|intros l [Hl1 Hl2]]. simpl. split.
    + constructor; [|done]. simpl. split; [by exists d|done].
    + intros i Hi' Hact. simpl. destruct (decide (i = index)) as [->|]; [left|right]. apply Hl2; [lia|done].
  - eapply yields_weaken; [|exact IH]. intros l [Hl1 Hl2]. split; [done|]. apply Hskip; [|done].
    intros Ha. apply Hact in Ha. discriminate.
Qed.

(** Candidate [k] has depth [index + k + 1] and is inside candidate [k - 1]. *)
Definition chained (index : Z) (l : list InlineCandidate) : Prop :=
  (forall k c, l !! k = Some c -> inl_depth c = index + Z.of_nat k + 1) /\
  (forall k c c', l !! k = Some c -> l !! S k = Some c' -> ancestor dies (inl_index c) (inl_index c')).

Lemma contiguous_chain_spec index previous l :
  Forall (fun c => (inl_index c < length dies)%nat) l ->
  yields (fun _ => chained index l /\
                   forall p c, previous = Some p -> head l = Some c -> ancestor dies p (inl_index c))
    (contiguous_chain dies index previous l).
Proof.
  revert index previous. induction l as [|c l IH]; intros index previous Hl; cbn [contiguous_chain].
  { simpl. split; [split; intros; rewrite lookup_nil in *; discriminate|done]. }
  apply Forall_cons in Hl as [Hc Hl]. apply yields_guard; intros Hd%negb_false_iff%Z.eqb_eq.
  eapply yields_bind with (fun b : bool => b = true -> forall p, previous = Some p -> ancestor dies p (inl_index c)).
  { destruct previous as [p|]; [|done]. eapply yields_weaken; [|by eapply is_descendant_of_spec].
    intros b Hb Hb' q [= <-]. by apply Hb. }
  intros b Hb. apply yields_guard; intros ->%negb_false_iff.
  eapply yields_weaken; [|by apply IH]. intros [] [[H1 H2] H3]. split; [split|].
  - intros [|k] x Hx; [injection Hx as <-; lia|]. specialize (H1 k x Hx). lia.
  - intros [|k] x y Hx Hy; [|by eapply H2]. injection Hx as <-. apply (H3 _ _ eq_refl). by destruct l; simplify_eq/=.
  - intros p x Hp [= <-]. by apply Hb.
Qed.
End Chain.

(** ** Outcomes up to the overflow of the line register *)

Definition outcome {A} (P : A -> Prop) (r : res A) : Prop :=
  match r with Ok a => P a | Throw _ => True | Undef what => what = LineTableProofs.overflow | OutOfFuel => False end.

Lemma outcome_yields {A} (P : A -> Prop) r : yields P r -> outcome P r.
Proof. by destruct r. Qed.
Lemma outcome_bind {A B} (P : A -> Prop) (Q : B -> Prop) (m : res A) (f : A -> res B) :
  outcome P m -> (forall a, P a -> outcome Q (f a)) -> outcome Q (m ≫= f).
Proof. destruct m; simpl; auto. Qed.
Lemma outcome_weaken {A} (P Q : A -> Prop) r : (forall a, P a -> Q a) -> outcome P r -> outcome Q r.
Proof. destruct r; simpl; auto. Qed.
Lemma outcome_guard {B} (Q : B -> Prop) b e (f : unit -> res B) :
  (b = false -> outcome Q (f tt)) -> outcome Q (throw_if b e ≫= f).
Proof. destruct b; simpl; auto. Qed.

Lemma range_owner_settles a o l : settles (range_owner a o l).
Proof.
  revert o. induction l as [|r l IH]; intros o; [done|]. simpl. destruct (_ || _); [apply IH|].
  destruct o as [o|]; [|apply IH]. destruct (negb _); [done|apply IH].
Qed.
Lemma find_virtual_file_settles t a i : settles (find_virtual_file t a i).
Proof.
  unfold find_virtual_file. apply settles_bind; [apply range_owner_settles|intros [o|] _]; [|done].
  by destruct (file_tables t !! o).
Qed.

Section Units.
Context `{H : Host}.
Context (files_sized : forall path bytes, h_file path = FileBytes bytes -> sized bytes).

Lemma open_line_table_outcome path : outcome (fun _ => True) (open_line_table path).
Proof.
  unfold open_line_table, LineTable.read_file. destruct (h_file path) as [| | |bytes] eqn:E; try done. cbn [mbind res_bind].
  pose proof (LineTableProofs.parse_line_table_outcome path bytes (files_sized _ _ E)) as Ho.
  unfold outcome. by destruct (parse_line_table path bytes).
Qed.

Lemma inline_context_spec dies table pc module c :
  (inl_index c < length dies)%nat ->
  yields (fun x => exists d, dies !! inl_index c = Some d /\ ic_die_offset x = die_offset d /\
                             ic_depth x = inl_depth c - 1 /\ ic_name x <> EmptyString)
    (inline_context dies table pc module c).
Proof.
  intros Hi. unfold inline_context.
  eapply yields_bind; [by apply settles_yields, attribute_with_abstract_origin_settles|intros name _].
  destruct (die_at_Some dies _ Hi) as (d & Hd & ->). cbn [mbind res_bind].
  destruct name as [name|]; [|done]. destruct (attribute d kInlineDwAtCallFile) as [file|]; [|done].
  destruct (attribute d kInlineDwAtCallLine) as [line|]; [|done].
  apply yields_guard; intros [[Hn%String.eqb_neq _]%orb_false_iff _]%orb_false_iff.
  eapply yields_bind; [apply settles_yields, find_virtual_file_settles|intros [path'|] _]; [|done].
  simpl. by exists d.
Qed.

(** The contexts of a unit: one nested chain of all the inlined calls that own the address. *)
Definition inline_chain (dies : list Die) (active : nat -> Prop) (contexts : list InlineCallsiteContext) : Prop :=
  exists calls : list nat,
    length calls = length contexts /\ (length calls <= 8)%nat /\
    (forall i, active i <-> i ∈ calls) /\
    (forall k i x, calls !! k = Some i -> contexts !! k = Some x ->
       ic_depth x = Z.of_nat k /\ ic_name x <> EmptyString /\
       exists d, dies !! i = Some d /\ ic_die_offset x = die_offset d) /\
    (forall k i j, calls !! k = Some i -> calls !! S k = Some j -> ancestor dies i j).

Lemma inline_chain_contexts start end_ dies pc ranges base version top module table l :
  wf_dies start end_ dies ->
  Forall (fun c => active_call dies pc ranges base version top (inl_index c) /\ 1 <= inl_depth c) l ->
  (forall i, active_call dies pc ranges base version top i -> i ∈ map inl_index l) ->
  size_of l <= kMaxInlineContexts -> chained dies 0 l ->
  yields (inline_chain dies (active_call dies pc ranges base version top))
    (mapM (inline_context dies table pc module) l).
Proof.
  intros Hwf Hl Hall Hsize [Hdepth Hnest].
  assert (Hlt : forall c, c ∈ l -> (inl_index c < length dies)%nat).
  { intros c Hc. rewrite Forall_forall in Hl. destruct (Hl c Hc) as [(d & Hd & _) _]. by apply lookup_lt_Some in Hd. }
  eapply yields_weaken; [|apply (yields_mapM_Forall2 _ _ _ (fun c Hc => inline_context_spec dies table pc module c (Hlt c Hc)))].
  intros contexts Hf. exists (map inl_index l). rewrite length_map. split; [by eapply Forall2_length|].
  unfold size_of, kMaxInlineContexts in Hsize. split; [lia|]. split; [|split].
  - intros i. split; [apply Hall|]. intros (c & -> & Hc)%list_elem_of_fmap. rewrite Forall_forall in Hl. by apply Hl.
  - intros k i x Hk Hx. rewrite list_lookup_fmap in Hk. destruct (l !! k) as [c|] eqn:Ec; [|done].
    injection Hk as <-. destruct (Forall2_lookup_lr _ _ _ _ _ _ Hf Ec Hx) as (d & Hd & Ho & Hdp & Hn).
    split; [rewrite Hdp, (Hdepth k c Ec); lia|]. split; [done|]. by exists d.
  - intros k i j Hk Hk'. rewrite list_lookup_fmap in Hk, Hk'. destruct (l !! k) as [c|] eqn:Ec; [|done].
    destruct (l !! S k) as [c'|] eqn:Ec'; [|done]. injection Hk as <-. injection Hk' as <-. by eapply Hnest.
Qed.

(** C30: of a unit that parses, the query for inlined calls answers that no subprogram owns
    the address, or gives the inlined calls of the owning subprogram that are active there:
    all of them, at most eight, outermost first, each numbered by its depth and nested in
    the one before.  Anything else is an exception, up to the overflow of the line register. *)
Theorem discover_inline_unit_chain s ranges pc module debug start u base :
  sections_sized s -> 0 <= start -> parse_unit_dies s start = Ok u ->
  compilation_unit_base (unit_dies u) = Ok base ->
  outcome (fun '(answer, next) =>
      start < next /\ next = next_unit u /\
      match answer with
      | None => forall i d, unit_dies u !! i = Some d -> ~ owns pc ranges base (parsed_version u) d
      | Some contexts =>
        exists top d, unit_dies u !! top = Some d /\ owns pc ranges base (parsed_version u) d /\
          inline_chain (unit_dies u) (active_call (unit_dies u) pc ranges base (parsed_version u) top) contexts
      end)
    (discover_inline_unit s ranges pc module debug start).
Proof.
  intros Hs Hst Hu Hb. pose proof (parse_unit_dies_yields s start Hs Hst) as Hy. rewrite Hu in Hy.
  destruct Hy as (Hnext & _ & Hwf). unfold discover_inline_unit. rewrite Hu. cbn [mbind res_bind]. rewrite Hb.
  cbn [mbind res_bind].
  eapply outcome_bind; [apply outcome_yields, find_physical_subprogram_spec|intros [top|] [Hp1 Hp2]].
  2: { simpl. split; [lia|]. split; [done|]. intros i d Hi Ho. by specialize (Hp2 _ _ Hi Ho). }
  destruct (Hp1 top eq_refl) as (d & Hd & Ho).
  eapply outcome_bind; [by eapply outcome_yields, (inline_candidates_spec _ _ _ Hwf); rewrite drop_0|intros l [Hl Hall]].
  destruct l as [|c l].
  { simpl. split; [lia|]. split; [done|]. exists top, d. split; [done|]. split; [done|]. exists [].
    split; [done|]. split; [simpl; lia|]. split; [|by split; intros k i; rewrite lookup_nil].
    intros i. split; [|by intros ?%elem_of_nil]. intros Ha. by apply (Hall i ltac:(lia)). }
  remember (c :: l) as cs. clear Heqcs. apply outcome_guard; intros Hsize%Z.ltb_ge.
  assert (Hperm : merge_sort shallower cs ≡ₚ cs) by apply merge_sort_Permutation.
  assert (Hl' := Hl). rewrite <- Hperm in Hl'.
  eapply outcome_bind.
  { eapply outcome_yields, (contiguous_chain_spec _ _ _ Hwf 0 None). eapply Forall_impl; [exact Hl'|].
    intros x [(y & Hy & _) _]. by apply lookup_lt_Some in Hy. }
  intros [] [Hch _]. eapply outcome_bind; [apply open_line_table_outcome|intros table _].
  apply outcome_guard; intros _. eapply outcome_bind.
  { eapply outcome_yields, inline_chain_contexts; [exact Hwf|exact Hl'| | |exact Hch].
    - intros i Ha. rewrite Hperm. apply (Hall i ltac:(lia) Ha).
    - unfold size_of in *. rewrite Hperm. done. }
  intros contexts Hctx. simpl. split; [lia|]. split; [done|]. by exists top, d.
Qed.
End Units.

(** ** The catalogue of locals *)

Section Catalogue.
Context (dies : list Die) (local : nat -> res (option (string * Z))).
Context (Hlocal : forall i, (i < length dies)%nat -> settles (local i)).

(** Entry [i] is a local in scope. *)
Definition in_scope (i : nat) (name : string) (depth : Z) (kind : LocalDiscoveryKind) : Prop :=
  exists d, dies !! i = Some d /\ local_kind d = Some kind /\ local i = Ok (Some (name, depth)).

(** The selection after the entries before [index]: of every name in scope, the only
    local at the greatest depth, and nothing else. *)
Definition innermost (index : nat) (selected : gmap string LocalCandidate) : Prop :=
  (forall name c, selected !! name = Some c -> exists i, (i < index)%nat /\ in_scope i name (lcd_depth c) (lcd_kind c) /\
     forall j depth kind, (j < index)%nat -> j <> i -> in_scope j name depth kind -> depth < lcd_depth c) /\
  (forall i name depth kind, (i < index)%nat -> in_scope i name depth kind -> is_Some (selected !! name)).

Lemma innermost_skip index selected :
  innermost index selected -> (forall name depth kind, ~ in_scope index name depth kind) -> innermost (S index) selected.
Proof.
  intros [H1 H2] Hn. split.
  - intros name c Hc. destruct (H1 name c Hc) as (i & Hi & Hin & Hmax). exists i. split; [lia|]. split; [done|].
    intros j depth kind Hj Hne Hs. destruct (decide (j = index)) as [->|]; [by destruct (Hn _ _ _ Hs)|].
    eapply (Hmax j); [lia|done|done].
  - intros i name depth kind Hi Hs. destruct (decide (i = index)) as [->|]; [by destruct (Hn _ _ _ Hs)|].
    eapply H2; [|done]. lia.
Qed.

Lemma select_local_innermost limit ambiguous index name depth kind selected :
  innermost index selected -> in_scope index name depth kind -> Z.of_nat (size selected) <= kMaxDiscoveredLocals ->
  yields (fun s => innermost (S index) s /\ Z.of_nat (size s) <= kMaxDiscoveredLocals)
    (select_local limit ambiguous name (mkLocalCandidate depth kind) selected).
Proof.
  intros [H1 H2] Hin Hsize. unfold select_local. cbn [lcd_depth].
  assert (Hdet : forall name' depth' kind', in_scope index name' depth' kind' -> name' = name /\ depth' = depth /\ kind' = kind).
  { intros n' d' k' (x & Hx & Hk & Hl). destruct Hin as (y & Hy & Hk' & Hl'). simplify_eq. rewrite Hl in Hl'.
    by simplify_eq. }
  assert (Hnew : (forall j depth' kind', (j < index)%nat -> in_scope j name depth' kind' -> depth' < depth) ->
    innermost (S index) (<[name := mkLocalCandidate depth kind]> selected)).
  { intros Hmax. split.
    - intros n c [[<- <-]|[Hne Hc]]%lookup_insert_Some.
      + exists index. split; [lia|]. split; [done|]. intros j d' k' Hj Hj' Hs. cbn [lcd_depth].
        eapply Hmax; [|done]. lia.
      + destruct (H1 n c Hc) as (i & Hi & Hs & Hm). exists i. split; [lia|]. split; [done|].
        intros j d' k' Hj Hj' Hs'. destruct (decide (j = index)) as [->|]; [by destruct (Hdet _ _ _ Hs') as [-> _]|].
        eapply (Hm j); [lia|done|done].
    - intros i n d' k' Hi Hs. destruct (decide (n = name)) as [->|]; [rewrite lookup_insert_eq; eauto|].
      rewrite lookup_insert_ne by done. destruct (decide (i = index)) as [->|]; [by destruct (Hdet _ _ _ Hs) as [-> _]|].
      eapply H2; [|done]. lia. }
  destruct (selected !! name) as [c|] eqn:Ec.
  - destruct (H1 name c Ec) as (i & Hi & Hs & Hm).
    destruct (Z.ltb_spec (lcd_depth c) depth) as [Hlt|Hge].
    + simpl. split.
      * apply Hnew. intros j d' k' Hj Hs'. destruct (decide (j = i)) as [->|Hne].
        -- destruct Hs as (x & Hx & Hk & Hl), Hs' as (y & Hy & Hk' & Hl'). simplify_eq. rewrite Hl in Hl'. by simplify_eq.
        -- specialize (Hm j d' k' Hj Hne Hs'). lia.
      * rewrite map_size_insert_Some; [done|eauto].
    + apply yields_guard; intros Hne%Z.eqb_neq. simpl. split; [|done]. split.
      * intros n c' Hc'. destruct (H1 n c' Hc') as (i' & Hi' & Hs' & Hm'). exists i'. split; [lia|]. split; [done|].
        intros j d' k' Hj Hj' Hs''. destruct (decide (j = index)) as [->|]; [|eapply (Hm' j); [lia|done|done]].
        destruct (Hdet _ _ _ Hs'') as (-> & -> & ->). simplify_eq. lia.
      * intros i' n d' k' Hi' Hs'. destruct (decide (i' = index)) as [->|]; [|eapply H2; [|done]; lia].
        destruct (Hdet _ _ _ Hs') as (-> & _). eauto.
  - apply yields_guard; intros Hfull%Z.leb_gt. simpl. split.
    + apply Hnew. intros j d' k' Hj Hs. destruct (H2 _ _ _ _ Hj Hs) as [c Hc]. congruence.
    + rewrite map_size_insert_None by done. unfold kMaxDiscoveredLocals in *. lia.
Qed.

Lemma select_locals_innermost limit ambiguous index rest selected :
  rest = drop index dies -> innermost index selected -> Z.of_nat (size selected) <= kMaxDiscoveredLocals ->
  yields (fun s => innermost (length dies) s /\ Z.of_nat (size s) <= kMaxDiscoveredLocals)
    (select_locals limit ambiguous local index rest selected).
Proof.
  revert index selected. induction rest as [|d rest IH]; intros index selected E Hin Hsize; cbn [select_locals].
  { assert (Hge : (length dies <= index)%nat).
    { apply (f_equal length) in E. rewrite length_drop in E. simpl in E. lia. }
    split; [|done]. destruct Hin as [H1 H2]. split.
    - intros n c Hc. destruct (H1 n c Hc) as (i & Hi & Hs & Hm). exists i. split; [|split; [done|]].
      + destruct Hs as (x & Hx & _). by apply lookup_lt_Some in Hx.
      + intros j d k Hj. apply Hm. lia.
    - intros i n d k Hi. apply H2. lia. }
  assert (Hd : dies !! index = Some d) by (rewrite <- (Nat.add_0_r index), <- lookup_drop, <- E; done).
  assert (E' : rest = drop (S index) dies) by (rewrite <- Nat.add_1_r, <- drop_drop, <- E; done).
  destruct (local_kind d) as [kind|] eqn:Ek.
  - pose proof (Hlocal index (lookup_lt_Some _ _ _ Hd)) as Hset.
    destruct (local index) as [[[name depth]|]|e|w|] eqn:El; try done; cbn [mbind res_bind].
    + eapply yields_bind; [eapply (select_local_innermost _ _ index); [done|by exists d|done]|].
      intros s [Hs1 Hs2]. by apply IH.
    + apply IH; [done| |done]. apply innermost_skip; [done|]. intros n dp k (x & Hx & _ & Hl). congruence.
  - apply IH; [done| |done]. apply innermost_skip; [done|]. intros n dp k (x & Hx & Hk & _). simplify_eq.
Qed.

(** Every local was looked at. *)
Lemma select_locals_evaluates limit ambiguous index rest selected s :
  rest = drop index dies -> select_locals limit ambiguous local index rest selected = Ok s ->
  forall i d, (index <= i)%nat -> dies !! i = Some d -> is_Some (local_kind d) -> exists r, local i = Ok r.
Proof.
  revert index selected. induction rest as [|d rest IH]; intros index selected E H i x Hi Hx Hk.
  { apply (f_equal length) in E. rewrite length_drop in E. simpl in E. apply lookup_lt_Some in Hx. lia. }
  assert (Hd : dies !! index = Some d) by (rewrite <- (Nat.add_0_r index), <- lookup_drop, <- E; done).
  assert (E' : rest = drop (S index) dies) by (rewrite <- Nat.add_1_r, <- drop_drop, <- E; done).
  cbn [select_locals] in H. destruct (decide (i = index)) as [->|Hne].
  - simplify_eq. destruct Hk as [k Hk]. rewrite Hk in H. destruct (local index); try done. eauto.
  - assert (Hi' : (S index <= i)%nat) by lia.
    destruct (local_kind d); [|exact (IH _ _ E' H i x Hi' Hx Hk)].
    destruct (local index) as [[[name depth]|]|e|w|]; try done; [|exact (IH _ _ E' H i x Hi' Hx Hk)].
    apply bind_Ok in H as (? & [= <-] & H). apply bind_Ok in H as (s' & _ & H). exact (IH _ _ E' H i x Hi' Hx Hk).
Qed.

(** The entries list every selected name once. *)
Lemma elem_of_catalogue selected name kind :
  mkDiscovery name kind ∈ catalogue selected <-> exists depth, selected !! name = Some (mkLocalCandidate depth kind).
Proof.
  unfold catalogue. rewrite list_elem_of_fmap. split.
  - intros ([n [dp k]] & [= -> ->] & Hin). rewrite merge_sort_Permutation in Hin. exists dp. by apply elem_of_map_to_list.
  - intros [dp Hd]. exists (name, mkLocalCandidate dp kind). split; [done|]. rewrite merge_sort_Permutation.
    by apply elem_of_map_to_list.
Qed.

Lemma catalogue_names selected : NoDup (map ld_name (catalogue selected)) /\ length (catalogue selected) = size selected.
Proof.
  unfold catalogue. rewrite map_map, length_map. cbn [ld_name].
  split; [|rewrite merge_sort_Permutation; by apply length_map_to_list].
  change (NoDup (merge_sort name_le (map_to_list selected)).*1). rewrite merge_sort_Permutation.
  apply NoDup_fst_map_to_list.
Qed.
End Catalogue.

(** ** Locals in scope *)

Section Visible.
Context (start end_ : Z) (dies : list Die) (Hwf : wf_dies start end_ dies).

(** A named entry with only scopes of the kind [through] between it and [top], [n] of them. *)
Definition visible (through : Die -> Prop) (top i : nat) (name : string) (n : nat) : Prop :=
  enclosed dies through top i n /\ name <> EmptyString /\
  exists a, attribute_with_abstract_origin dies i kDwAtName = Ok (Some a) /\ av_text a = name.

(** The scopes of a subprogram: lexical blocks that own the address. *)
Definition plain_scope (pc : Z) (d : Die) : Prop := block d /\ die_contains_pc d pc = Ok true.

Lemma enclosed_impl (P Q : Die -> Prop) top i n :
  (forall d, P d -> Q d) -> enclosed dies P top i n -> enclosed dies Q top i n.
Proof. intros H (d & p & Hd & Hp & Hpath). exists d, p. split; [done|]. split; [done|]. by eapply path_impl. Qed.

Lemma plain_not_inlined pc d : plain_scope pc d -> ~ inlined d.
Proof. unfold plain_scope, block, inlined. intros [-> _]. done. Qed.

Lemma scoped_local_spec pc top i :
  (i < length dies)%nat ->
  yields (fun r => forall name k, r = Some (name, k) <-> exists n, visible (plain_scope pc) top i name n /\ k = Z.of_nat n)
    (scoped_local dies pc top i).
Proof.
  intros Hi. unfold scoped_local. eapply yields_bind; [by eapply crosses_inline_scope_spec|]. intros crossed Hcr.
  destruct crossed.
  { intros name k. split; [done|]. intros (n & (Hen & _) & _). exfalso.
    apply (Hcr (plain_scope pc) n Hen). eapply enclosed_impl; [|exact Hen]. apply plain_not_inlined. }
  pose proof (attribute_with_abstract_origin_settles dies i kDwAtName Hi) as Hset.
  destruct (attribute_with_abstract_origin dies i kDwAtName) as [[a|]|e|w|] eqn:Ea; try done; cbn [mbind res_bind].
  2: { intros name k. split; [done|]. intros (n & (_ & _ & a & Ha & _) & _). rewrite Ea in Ha. discriminate. }
  destruct (String.eqb_spec (av_text a) EmptyString) as [E|E].
  { intros name k. split; [done|]. intros (n & (_ & Hne & b & Hb & <-) & _). rewrite Ea in Hb. by simplify_eq. }
  eapply yields_bind; [by eapply active_scope_depth_spec|]. intros r Hr name k. unfold mbind, option_bind.
  assert (Hiff : forall n, enclosed dies (active_scope pc) top i n <-> enclosed dies (plain_scope pc) top i n).
  { intros n. split.
    - intros Hen. eapply enclosed_impl; [|exact (Hcr _ _ Hen)]. intros d [[[Hb|Hb] Hc] Hn]; [by split|done].
    - apply enclosed_impl. intros d [Hb Hc]. split; [by left|done]. }
  split.
  - destruct r as [k'|]; [|done]. intros [= <- <-]. destruct (proj1 (Hr k') eq_refl) as (n & Hen & ->).
    exists n. split; [|done]. split; [by apply Hiff|]. split; [done|]. by exists a.
  - intros (n & (Hen & _ & b & Hb & <-) & ->). rewrite Ea in Hb. injection Hb as <-.
    rewrite (proj2 (Hr (Z.of_nat n))); [done|]. exists n. split; [by apply Hiff|done].
Qed.

Lemma inlined_local_spec pc ranges base version top i :
  (i < length dies)%nat ->
  yields (fun r => forall name k, r = Some (name, k) <->
                   exists n, visible (active_block pc ranges base version) top i name n /\ k = Z.of_nat n)
    (inlined_local dies pc ranges base version top i).
Proof.
  intros Hi. unfold inlined_local. eapply yields_bind; [by eapply inline_local_scope_depth_spec|]. intros r Hr.
  destruct r as [k0|].
  2: { intros name k. split; [done|]. intros (n & (Hen & _) & _).
       pose proof (proj2 (Hr (Z.of_nat n)) (ex_intro _ n (conj Hen eq_refl))). discriminate. }
  destruct (proj1 (Hr k0) eq_refl) as (n0 & Hen0 & ->).
  assert (Hdet : forall n, enclosed dies (active_block pc ranges base version) top i n -> n = n0).
  { intros n Hen. assert (E : Some (Z.of_nat n0) = Some (Z.of_nat n)) by (apply Hr; by exists n). injection E. lia. }
  pose proof (attribute_with_abstract_origin_settles dies i kDwAtName Hi) as Hset.
  destruct (attribute_with_abstract_origin dies i kDwAtName) as [[a|]|e|w|] eqn:Ea; try done; cbn [mbind res_bind].
  2: { intros name k. split; [done|]. intros (n & (_ & _ & a & Ha & _) & _). rewrite Ea in Ha. discriminate. }
  destruct (String.eqb_spec (av_text a) EmptyString) as [E|E]; intros name k.
  { split; [done|]. intros (n & (_ & Hne & b & Hb & <-) & _). rewrite Ea in Hb. by simplify_eq. }
  split.
  - intros [= <- <-]. exists n0. split; [|done]. split; [done|]. split; [done|]. by exists a.
  - intros (n & (Hen & _ & b & Hb & <-) & ->). rewrite Ea in Hb. injection Hb as <-. by rewrite (Hdet n Hen).
Qed.

(** A variable or parameter that hides every other of its name. *)
Definition innermost_local (through : Die -> Prop) (top : nat) (name : string) (kind : LocalDiscoveryKind) : Prop :=
  exists i d n, dies !! i = Some d /\ local_kind d = Some kind /\ visible through top i name n /\
    forall j d' n', j <> i -> dies !! j = Some d' -> is_Some (local_kind d') -> visible through top j name n' -> (n' < n)%nat.

(** What a catalogue of the locals visible from [top] is. *)
Definition catalogue_of (through : Die -> Prop) (top : nat) (entries : list LocalDiscoveryEntry) : Prop :=
  NoDup (map ld_name entries) /\ (length entries <= 64)%nat /\
  forall name kind, mkDiscovery name kind ∈ entries <-> innermost_local through top name kind.

Lemma select_locals_catalogue limit ambiguous through top local :
  (forall i, (i < length dies)%nat -> yields (fun r => forall name k, r = Some (name, k) <->
     exists n, visible through top i name n /\ k = Z.of_nat n) (local i)) ->
  yields (fun s => catalogue_of through top (catalogue s)) (select_locals limit ambiguous local 0 dies ∅).
Proof.
  intros Hspec. assert (Hset : forall i, (i < length dies)%nat -> settles (local i)).
  { intros i Hi. eapply yields_settles. by apply Hspec. }
  assert (H0 : innermost dies local 0 ∅) by (split; [intros ? ?; by rewrite lookup_empty|intros; lia]).
  pose proof (select_locals_innermost dies local Hset limit ambiguous 0 dies ∅ eq_refl H0 ltac:(by rewrite map_size_empty)) as Hy.
  destruct (select_locals limit ambiguous local 0 dies ∅) as [s|e|w|] eqn:Es; try done.
  destruct Hy as [[H1 H2] Hsize].
  assert (Hin : forall i name k kind, in_scope dies local i name k kind <-> exists d n, dies !! i = Some d /\
    local_kind d = Some kind /\ visible through top i name n /\ k = Z.of_nat n).
  { intros i name k kind. split.
    - intros (d & Hd & Hk & Hl). pose proof (Hspec i (lookup_lt_Some _ _ _ Hd)) as Hs. rewrite Hl in Hs.
      destruct (proj1 (Hs name k) eq_refl) as (n & Hv & ->). by exists d, n.
    - intros (d & n & Hd & Hk & Hv & ->). exists d. split; [done|]. split; [done|].
      destruct (select_locals_evaluates dies local _ _ 0 dies ∅ s eq_refl Es i d) as [r Hr]; [lia|done|eauto|].
      pose proof (Hspec i (lookup_lt_Some _ _ _ Hd)) as Hs. rewrite Hr in *. f_equal. apply Hs. by exists n. }
  destruct (catalogue_names s) as [Hnd Hlen]. unfold kMaxDiscoveredLocals in Hsize.
  split; [done|]. split; [lia|]. intros name kind. rewrite elem_of_catalogue. split.
  - intros [k Hk]. destruct (H1 name _ Hk) as (i & Hi & Hs & Hm). cbn [lcd_depth lcd_kind] in *.
    destruct (proj1 (Hin _ _ _ _) Hs) as (d & n & Hd & Hkind & Hv & ->). exists i, d, n.
    split; [done|]. split; [done|]. split; [done|]. intros j d' n' Hne Hd' [kind' Hk'] Hv'.
    specialize (Hm j (Z.of_nat n') kind' (lookup_lt_Some _ _ _ Hd') Hne). apply Nat2Z.inj_lt, Hm, Hin. by exists d', n'.
  - intros (i & d & n & Hd & Hkind & Hv & Hm).
    assert (Hs : in_scope dies local i name (Z.of_nat n) kind) by (apply Hin; by exists d, n).
    pose proof (lookup_lt_Some _ _ _ Hd) as Hi. destruct (H2 _ _ _ _ Hi Hs) as [[k kind'] Hc].
    destruct (H1 name _ Hc) as (i' & Hi' & Hs' & Hm'). cbn [lcd_depth lcd_kind] in *.
    destruct (proj1 (Hin _ _ _ _) Hs') as (d' & n' & Hd' & Hkind' & Hv' & ->).
    destruct (decide (i = i')) as [<-|Hne]; [simplify_eq; eauto|].
    specialize (Hm i' d' n' ltac:(done) Hd' ltac:(eauto) Hv'). specialize (Hm' i _ _ Hi Hne Hs). lia.
Qed.
End Visible.

(** C31: of a unit that parses, the query for locals answers that no subprogram owns the
    address, or lists, once per name and at most 64, the variables and parameters visible
    there that hide every other of their name: only lexical blocks that own the address
    lie between them and the subprogram, and fewer of them for every other. *)
Theorem discover_scoped_local_catalogue_unit_innermost s ranges pc start u base :
  sections_sized s -> 0 <= start -> parse_unit_dies s start = Ok u ->
  compilation_unit_base (unit_dies u) = Ok base ->
  yields (fun '(answer, next) =>
      start < next /\ next = next_unit u /\
      match answer with
      | None => forall i d, unit_dies u !! i = Some d -> ~ owns pc ranges base (parsed_version u) d
      | Some entries =>
        exists top d, unit_dies u !! top = Some d /\ owns pc ranges base (parsed_version u) d /\
          catalogue_of (unit_dies u) (plain_scope pc) top entries
      end)
    (discover_scoped_local_catalogue_unit s ranges pc start).
Proof.
  intros Hs Hst Hu Hb. pose proof (parse_unit_dies_yields s start Hs Hst) as Hy. rewrite Hu in Hy.
  destruct Hy as (Hnext & _ & Hwf). unfold discover_scoped_local_catalogue_unit. rewrite Hu. cbn [mbind res_bind].
  rewrite Hb. cbn [mbind res_bind].
  eapply yields_bind; [apply find_physical_subprogram_spec|intros [top|] [Hp1 Hp2]].
  2: { simpl. split; [lia|]. split; [done|]. intros i d Hi Ho. by specialize (Hp2 _ _ Hi Ho). }
  destruct (Hp1 top eq_refl) as (d & Hd & Ho). eapply yields_bind.
  { apply (select_locals_catalogue _ _ _ (plain_scope pc) top). intros i Hi. by eapply scoped_local_spec. }
  intros selected Hc. simpl. split; [lia|]. split; [done|]. by exists top, d.
Qed.

(** ** The demonstration unit at 0x1004, with the line table of [/src/a.c] *)

Definition DemoLineHost : Host := {|
  h_file _ := FileBytes (LineTableProofs.line_file LineTableProofs.demo_line_program);
  h_canonical _ := None; h_regular _ := true; h_page_size := 4096
|}.

Lemma demo_line_files_sized path bytes : h_file (Host := DemoLineHost) path = FileBytes bytes -> sized bytes.
Proof. intros [= <-]. vm_compute. discriminate. Qed.

Notation demo_parsed := (mkParsed demo_unit (size_of demo_info) 4).

(** [inner], inlined into [outer], inlined into the subprogram. *)
Lemma discover_inline_unit_chain_witness : exists x y,
  discover_inline_unit (H := DemoLineHost) demo_sections [] 0x1004 "/m" "/d" 0 = Ok (Some [x; y], size_of demo_info) /\
  ic_name x = "outer" /\ ic_name y = "inner" /\
  exists top d, demo_unit !! top = Some d /\ owns 0x1004 [] 0x1000 4 d /\
    inline_chain demo_unit (active_call demo_unit 0x1004 [] 0x1000 4 top) [x; y].
Proof.
  pose proof (discover_inline_unit_chain (H := DemoLineHost) demo_line_files_sized demo_sections [] 0x1004 "/m" "/d" 0
    demo_parsed 0x1000 demo_sections_sized (Z.le_refl 0) demo_unit_parses eq_refl) as H.
  remember (discover_inline_unit (H := DemoLineHost) demo_sections [] 0x1004 "/m" "/d" 0) as r eqn:E.
  vm_compute in E. subst r. destruct H as (_ & _ & Hc).
  eexists _, _. split; [reflexivity|]. split; [reflexivity|]. split; [reflexivity|]. exact Hc.
Defined.

(** The inner [total] hides the outer one. *)
Lemma discover_scoped_local_catalogue_unit_innermost_witness : exists entries,
  discover_scoped_local_catalogue_unit demo_sections [] 0x1004 0 = Ok (Some entries, size_of demo_info) /\
  map ld_name entries = ["argc"; "total"] /\
  exists top d, demo_unit !! top = Some d /\ owns 0x1004 [] 0x1000 4 d /\
    catalogue_of demo_unit (plain_scope 0x1004) top entries.
Proof.
  pose proof (discover_scoped_local_catalogue_unit_innermost demo_sections [] 0x1004 0
    demo_parsed 0x1000 demo_sections_sized (Z.le_refl 0) demo_unit_parses eq_refl) as H.
  remember (discover_scoped_local_catalogue_unit demo_sections [] 0x1004 0) as r eqn:E.
  vm_compute in E. subst r. destruct H as (_ & _ & Hc).
  eexists. split; [reflexivity|]. split; [reflexivity|]. exact Hc.
Defined.
