(* ===== verification/CliText.v ===== *)
(** * Text streams and number texts of the command lines ([src/cli])

    What [src/cli/core_main.cpp] and [src/cli/main.cpp] use of the standard streams and of
    [std::stoull] and [std::stoll]: a stream keeps the text written so far and its format
    flags, and a manipulator changes the flags for the pieces that follow it.  The number
    texts are those of the C standard's [strtoull] and [strtoll]. *)

From S2P Require Import Prelude Process Elf.

(** ** Number texts *)

Definition digit_char (d : Z) : ascii := ascii_of_N (Z.to_N (if d <? 10 then 48 + d else 87 + d)).

(** The digits of [z], the last one first placed before [acc]. *)
Fixpoint radix_digits (fuel : nat) (base z : Z) (acc : string) : string :=
  let acc := String (digit_char (z mod base)) acc in
  match fuel with
  | O => acc
  | S fuel => if z / base =? 0 then acc else radix_digits fuel base (z / base) acc
  end.

(** An unsigned value in base ten or sixteen, as the streams print it. *)
Definition radix (base z : Z) : string := radix_digits (Z.to_nat (Z.log2 z)) base z EmptyString.

(** The value of the leading digits of [s], whether there is any, and the rest. *)
Fixpoint scan_digits (base acc : Z) (any : bool) (s : string) : Z * bool * string :=
  match s with
  | EmptyString => (acc, any, EmptyString)
  | String c t =>
    match hex_value c with
    | Some d => if d <? base then scan_digits base (acc * base + d) true t else (acc, any, s)
    | None => (acc, any, s)
    end
  end.

(** An optional sign. *)
Definition scan_sign (s : string) : bool * string :=
  match s with
  | String c t => if Ascii.eqb c "-" then (true, t) else if Ascii.eqb c "+" then (false, t) else (false, s)
  | EmptyString => (false, s)
  end.

(** The base a text announces, and the text after the announcement, for base 0. *)
Definition scan_base (base : Z) (s : string) : Z * string :=
  if base =? 0 then
    match s with
    | String c t =>
      if Ascii.eqb c "0" then
        if String.eqb (skip_hex_prefix s) s then (8, s) else (16, skip_hex_prefix s)
      else (10, s)
    | EmptyString => (10, s)
    end
  else (base, s).

(** Sign, magnitude and number of characters read; [None]: no digit. *)
Definition scan_integer (text : string) (base : Z) : option (bool * Z * nat) :=
  let '(negative, s) := scan_sign (trim_left text) in
  let '(base, s) := scan_base base s in
  let '(magnitude, any, rest) := scan_digits base 0 false s in
  if any then Some (negative, magnitude, String.length text - String.length rest)%nat else None.

(** [std::stoull(text, &consumed, base)]: the value and [consumed]. *)
Definition std_stoull (text : string) (base : Z) : res (Z * nat) :=
  match scan_integer text base with
  | None => invalid_argument "stoull"
  | Some (negative, magnitude, consumed) =>
    if u64_max <? magnitude then out_of_range "stoull"
    else Ok (if negative : bool then u64 (- magnitude) else magnitude, consumed)
  end.

(** [std::stoll(text, &consumed, base)]. *)
Definition std_stoll (text : string) (base : Z) : res (Z * nat) :=
  match scan_integer text base with
  | None => invalid_argument "stoll"
  | Some (negative, magnitude, consumed) =>
    let value := if negative : bool then - magnitude else magnitude in
    if (value <? i64_min) || (i64_max <? value) then out_of_range "stoll" else Ok (value, consumed)
  end.

(** ** Floating-point texts

    A finite IEEE value is [mantissa * 2 ^ exponent]; the streams print it as [%.*g]. *)

Inductive float_class :=
  | FNan (negative : bool)
  | FInfinity (negative : bool)
  | FFinite (negative : bool) (mantissa exponent : Z).

(** The value of the bits of a format with [fraction] fraction bits and [width] exponent bits. *)
Definition decode_float (width fraction bits : Z) : float_class :=
  let negative := Z.testbit bits (width + fraction) in
  let biased := Z.land (Z.shiftr bits fraction) (Z.ones width) in
  let significand := Z.land bits (Z.ones fraction) in
  let bias := 2 ^ (width - 1) - 1 in
  if biased =? Z.ones width then (if significand =? 0 then FInfinity negative else FNan negative)
  else if biased =? 0 then FFinite negative significand (1 - bias - fraction)
  else FFinite negative (significand + 2 ^ fraction) (biased - bias - fraction).

Definition decode_single : Z -> float_class := decode_float 8 23.
Definition decode_double : Z -> float_class := decode_float 11 52.

(** [num / den] brought between 1 and 10 by powers of ten, and the power.  The exponents of
    doubles stay within 400 powers of ten. *)
Fixpoint scale_up (fuel : nat) (num den power : Z) : Z * Z * Z :=
  match fuel with
  | O => (num, den, power)
  | S fuel => if num <? den then scale_up fuel (num * 10) den (power - 1) else (num, den, power)
  end.
Fixpoint scale_down (fuel : nat) (num den power : Z) : Z * Z * Z :=
  match fuel with
  | O => (num, den, power)
  | S fuel => if num <? 10 * den then (num, den, power) else scale_down fuel num (den * 10) (power + 1)
  end.

(** The integer nearest to [num / den], the even one of two. *)
Definition round_half_even (num den : Z) : Z :=
  let q := num / den in
  let r := num mod den in
  if 2 * r <? den then q
  else if den <? 2 * r then q + 1
  else if Z.even q then q else q + 1.

(** [precision] significant digits as an integer, and the decimal exponent. *)
Definition decimal_digits (precision mantissa exponent : Z) : Z * Z :=
  let num := if exponent <? 0 then mantissa else mantissa * 2 ^ exponent in
  let den := if exponent <? 0 then 2 ^ (- exponent) else 1 in
  let '(num, den, power) := scale_up 400 num den 0 in
  let '(num, den, power) := scale_down 400 num den power in
  let q := round_half_even (num * 10 ^ (precision - 1)) den in
  if q =? 10 ^ precision then (10 ^ (precision - 1), power + 1) else (q, power).

Fixpoint drop_trailing_zeros (digits : list ascii) : list ascii :=
  match digits with
  | [] => []
  | c :: t =>
    match drop_trailing_zeros t with
    | [] => if Ascii.eqb c "0" then [] else [c]
    | t => c :: t
    end
  end.

(** Digits after a point that is dropped together with trailing zeros. *)
Definition fraction_text (digits : list ascii) : string :=
  match drop_trailing_zeros digits with
  | [] => EmptyString
  | t => "." +:+ String.string_of_list_ascii t
  end.

(** The [e] notation writes at least two exponent digits. *)
Definition exponent_text (power : Z) : string :=
  "e" +:+ (if power <? 0 then "-" else "+") +:+ (if Z.abs power <? 10 then "0" else EmptyString) +:+
  radix 10 (Z.abs power).

(** [%.*g] of a nonzero finite value without its sign. *)
Definition general_text (precision mantissa exponent : Z) : string :=
  let '(q, power) := decimal_digits precision mantissa exponent in
  let digits := String.list_ascii_of_string (radix 10 q) in
  if (power <? -4) || (precision <=? power) then
    match digits with
    | [] => EmptyString
    | first :: digits => String first (fraction_text digits) +:+ exponent_text power
    end
  else if power <? 0 then
    "0" +:+ fraction_text (replicate (Z.to_nat (- power - 1)) "0"%char ++ digits)
  else
    String.string_of_list_ascii (take (Z.to_nat (power + 1)) digits) +:+
    fraction_text (drop (Z.to_nat (power + 1)) digits).

Definition float_text (precision : Z) (value : float_class) : string :=
  match value with
  | FNan negative => if negative then "-nan" else "nan"
  | FInfinity negative => if negative then "-inf" else "inf"
  | FFinite negative mantissa exponent =>
    (if negative then "-" else EmptyString) +:+
    (if mantissa =? 0 then "0" else general_text precision mantissa exponent)
  end.

(** ** Output streams *)

(** The flags a manipulator sets: the base, the fill character, the width of the next
    piece and the precision of floating values. *)
Record format := mkFormat { f_hex : bool; f_fill : ascii; f_width : Z; f_precision : Z }.
Definition plain_format : format := mkFormat false " " 0 6.

Record ostream := mkStream { os_text : string; os_format : format }.
Definition empty_stream : ostream := mkStream EmptyString plain_format.

(** What is inserted with [<<]. *)
Inductive piece :=
  | Str (s : string)
  | Num (z : Z)                  (** an unsigned value *)
  | Int (z : Z)                  (** an [int] *)
  | Long (z : Z)                 (** a [std::int64_t] *)
  | Real (value : float_class)
  | Hex | Dec
  | Setw (width : Z)
  | Setfill (fill : ascii)
  | Setprecision (precision : Z).

Definition padded (f : format) (s : string) : string :=
  String.string_of_list_ascii (replicate (Z.to_nat (f_width f) - String.length s) (f_fill f)) +:+ s.

Definition signed_text (w : Z) (f : format) (z : Z) : string :=
  if f_hex f then radix 16 (z mod 2 ^ w)
  else if z <? 0 then "-" +:+ radix 10 (- z) else radix 10 z.

(** The text of a piece. *)
Definition piece_text (f : format) (p : piece) : string :=
  match p with
  | Str s => padded f s
  | Num z => padded f (radix (if f_hex f then 16 else 10) z)
  | Int z => padded f (signed_text 32 f z)
  | Long z => padded f (signed_text 64 f z)
  | Real value => padded f (float_text (f_precision f) value)
  | Hex | Dec | Setw _ | Setfill _ | Setprecision _ => EmptyString
  end.

(** The flags after it: the width counts for one piece. *)
Definition piece_format (f : format) (p : piece) : format :=
  match p with
  | Str _ | Num _ | Int _ | Long _ | Real _ => mkFormat (f_hex f) (f_fill f) 0 (f_precision f)
  | Hex => mkFormat true (f_fill f) (f_width f) (f_precision f)
  | Dec => mkFormat false (f_fill f) (f_width f) (f_precision f)
  | Setw width => mkFormat (f_hex f) (f_fill f) width (f_precision f)
  | Setfill fill => mkFormat (f_hex f) fill (f_width f) (f_precision f)
  | Setprecision precision => mkFormat (f_hex f) (f_fill f) (f_width f) precision
  end.

Fixpoint pieces_text (f : format) (l : list piece) : string :=
  match l with
  | [] => EmptyString
  | p :: l => piece_text f p +:+ pieces_text (piece_format f p) l
  end.
Definition pieces_format : format -> list piece -> format := foldl piece_format.

(** [stream << piece << piece ...] *)
Definition write (l : list piece) : M ostream unit :=
  modify (fun o => mkStream (os_text o +:+ pieces_text (os_format o) l) (pieces_format (os_format o) l)).

(** ** Input streams of a line

    Extraction from a [std::istringstream] that has not failed: [input >> word] succeeds
    exactly when a word is left. *)

(** The words a line is read as. *)
Fixpoint words_fuel (fuel : nat) (input : string) : list string :=
  match fuel with
  | O => []
  | S fuel =>
    match next_token input with
    | None => []
    | Some (word, rest) => word :: words_fuel fuel rest
    end
  end.
Definition words (input : string) : list string := words_fuel (S (String.length input)) input.

(** The lines [std::getline] reads from a text: one without a final line break is a line too. *)
Fixpoint lines_from (line : string) (text : string) : list string :=
  match text with
  | EmptyString => match line with EmptyString => [] | _ => [line] end
  | String c text =>
    if Ascii.eqb c "010" then line :: lines_from EmptyString text
    else lines_from (line +:+ String c EmptyString) text
  end.
Definition lines_of (text : string) : list string := lines_from EmptyString text.
