(* ===== verification/CliTextProofs.v ===== *)
(** * Number texts read back what the streams print

    [std::stoull] and [std::stoll] accept every number a stream prints, with the base it was
    printed in; what a sequence of insertions does to a stream. *)

From S2P Require Import Prelude Process Elf Paths CliText.

(** ** Digits *)

Ltac sixteen d := assert (d = 0 \/ d = 1 \/ d = 2 \/ d = 3 \/ d = 4 \/ d = 5 \/ d = 6 \/ d = 7 \/ d = 8 \/ d = 9 \/
  d = 10 \/ d = 11 \/ d = 12 \/ d = 13 \/ d = 14 \/ d = 15) by lia; destruct_or!; subst; reflexivity.

Lemma hex_value_digit d : 0 <= d < 16 -> hex_value (digit_char d) = Some d.
Proof. intros Hd. sixteen d. Qed.
Lemma digit_not_space d : 0 <= d < 16 -> is_space (digit_char d) = false.
Proof. intros Hd. sixteen d. Qed.
Lemma digit_not_minus d : 0 <= d < 16 -> Ascii.eqb (digit_char d) "-" = false.
Proof. intros Hd. sixteen d. Qed.
Lemma digit_not_plus d : 0 <= d < 16 -> Ascii.eqb (digit_char d) "+" = false.
Proof. intros Hd. sixteen d. Qed.

Section Radix.
Context (base : Z) (Hbase : 2 <= base <= 16).

Lemma digit_range z : 0 <= z mod base < 16.
Proof. pose proof (Z.mod_pos_bound z base). lia. Qed.

(** Reading a digit appends it to the value. *)
Lemma scan_digit a any d s :
  0 <= d < base -> scan_digits base a any (String (digit_char d) s) = scan_digits base (a * base + d) true s.
Proof.
  intros Hd. cbn [scan_digits]. rewrite hex_value_digit by lia. by rewrite (proj2 (Z.ltb_lt d base)) by lia.
Qed.

(** Reading the digits of [z] appends all of them. *)
Lemma scan_radix_digits fuel z acc a any :
  0 <= z < base ^ Z.of_nat (S fuel) ->
  exists k, scan_digits base a any (radix_digits fuel base z acc) = scan_digits base (a * base ^ k + z) true acc.
Proof.
  revert z acc. induction fuel as [|fuel IH]; intros z acc Hz; cbn [radix_digits].
  - rewrite Z.mod_small by lia. exists 1. rewrite scan_digit, Z.pow_1_r by lia. done.
  - pose proof (Z.mod_pos_bound z base ltac:(lia)) as Hm. pose proof (Z.div_mod z base ltac:(lia)) as Hd.
    destruct (Z.eqb_spec (z / base) 0) as [E|E].
    + exists 1. rewrite scan_digit, Z.pow_1_r by lia. f_equal; lia.
    + destruct (IH (z / base) (String (digit_char (z mod base)) acc)) as [k Hk].
      { split; [apply Z.div_pos; lia|]. apply Z.div_lt_upper_bound; [lia|].
        rewrite (Nat2Z.inj_succ (S fuel)), Z.pow_succ_r in Hz by lia. lia. }
      rewrite Hk, scan_digit by lia. destruct (Z.neg_nonneg_cases k) as [Hneg|Hpos].
      * exists k. rewrite Z.pow_neg_r by lia. f_equal; lia.
      * exists (Z.succ k). rewrite Z.pow_succ_r by lia. f_equal; lia.
Qed.

Lemma radix_digits_head fuel z acc : exists d t, radix_digits fuel base z acc = String (digit_char d) t /\ 0 <= d < base.
Proof.
  revert z acc. induction fuel as [|fuel IH]; intros z acc; cbn [radix_digits].
  - exists (z mod base), acc. split; [done|]. apply Z.mod_pos_bound. lia.
  - destruct (z / base =? 0); [|apply IH]. exists (z mod base), acc. split; [done|]. apply Z.mod_pos_bound. lia.
Qed.

Lemma radix_fuel z : 0 <= z -> z < base ^ Z.of_nat (S (Z.to_nat (Z.log2 z))).
Proof.
  intros Hz. pose proof (Z.log2_nonneg z) as Hl. rewrite Nat2Z.inj_succ, Z2Nat.id by done.
  apply Z.lt_le_trans with (2 ^ Z.succ (Z.log2 z)).
  - destruct (Z.eq_dec z 0) as [->|]; [done|]. apply Z.log2_spec. lia.
  - apply Z.pow_le_mono_l. lia.
Qed.

Lemma scan_radix z : 0 <= z -> scan_digits base 0 false (radix base z) = (z, true, EmptyString).
Proof.
  intros Hz. unfold radix. pose proof (radix_fuel z Hz) as Hf.
  destruct (scan_radix_digits (Z.to_nat (Z.log2 z)) z EmptyString 0 false) as [k ->]; [lia|]. done.
Qed.

Lemma radix_head z : exists d t, radix base z = String (digit_char d) t /\ 0 <= d < base.
Proof. apply radix_digits_head. Qed.
End Radix.

(** ** Texts *)

Lemma trim_digit d t : 0 <= d < 16 -> trim_left (String (digit_char d) t) = String (digit_char d) t.
Proof. intros Hd. cbn [trim_left]. by rewrite digit_not_space. Qed.

Lemma sign_digit d t : 0 <= d < 16 -> scan_sign (String (digit_char d) t) = (false, String (digit_char d) t).
Proof. intros Hd. cbn [scan_sign]. by rewrite digit_not_minus, digit_not_plus. Qed.

Lemma scan_decimal z : 0 <= z -> scan_integer (radix 10 z) 10 = Some (false, z, String.length (radix 10 z)).
Proof.
  intros Hz. unfold scan_integer. pose proof (scan_radix 10 ltac:(lia) z Hz) as Hs.
  destruct (radix_head 10 ltac:(lia) z) as (d & t & E & Hd). rewrite E in *.
  rewrite trim_digit, sign_digit by lia. cbn [scan_base Z.eqb Pos.eqb]. rewrite Hs. cbn [String.length]. by rewrite Nat.sub_0_r.
Qed.

(** A text with [0x] is read in base sixteen when the caller leaves the base open. *)
Lemma scan_hexadecimal z : 0 <= z ->
  scan_integer ("0x" +:+ radix 16 z) 0 = Some (false, z, String.length ("0x" +:+ radix 16 z)).
Proof.
  intros Hz. unfold scan_integer. pose proof (scan_radix 16 ltac:(lia) z Hz) as Hs.
  destruct (radix_head 16 ltac:(lia) z) as (d & t & E & Hd). rewrite E in *.
  change ("0x" +:+ String (digit_char d) t) with (String "0" (String "x" (String (digit_char d) t))).
  change (trim_left (String "0" ?s)) with (String "0" s). change (scan_sign (String "0" ?s)) with (false, String "0" s).
  unfold scan_base. cbn [Z.eqb Ascii.eqb Bool.eqb].
  assert (Hp : skip_hex_prefix (String "0" (String "x" (String (digit_char d) t))) = String (digit_char d) t).
  { unfold skip_hex_prefix. cbn [Ascii.eqb Bool.eqb orb andb]. rewrite bool_decide_true; [done|].
    rewrite hex_value_digit by lia. by eexists. }
  rewrite Hp. destruct (String.eqb_spec (String (digit_char d) t) (String "0" (String "x" (String (digit_char d) t)))) as [Ht|_].
  { apply (f_equal String.length) in Ht. simpl in Ht. lia. }
  rewrite Hs. cbn [String.length]. by rewrite Nat.sub_0_r.
Qed.

Lemma stoull_decimal z : in_u64 z -> std_stoull (radix 10 z) 10 = Ok (z, String.length (radix 10 z)).
Proof.
  unfold in_u64. intros Hz. unfold std_stoull. rewrite scan_decimal by lia.
  by destruct (Z.ltb_spec u64_max z); [lia|].
Qed.

Lemma stoull_hexadecimal z : in_u64 z ->
  std_stoull ("0x" +:+ radix 16 z) 0 = Ok (z, String.length ("0x" +:+ radix 16 z)).
Proof.
  unfold in_u64. intros Hz. unfold std_stoull. rewrite scan_hexadecimal by lia.
  by destruct (Z.ltb_spec u64_max z); [lia|].
Qed.

Lemma stoll_decimal z : 0 <= z <= i64_max -> std_stoll (radix 10 z) 10 = Ok (z, String.length (radix 10 z)).
Proof.
  intros Hz. unfold std_stoll. rewrite scan_decimal by lia. cbv zeta.
  destruct (Z.ltb_spec z i64_min); [unfold i64_min in *; lia|]. by destruct (Z.ltb_spec i64_max z); [lia|].
Qed.

Lemma hex_value_nonneg c d : hex_value c = Some d -> 0 <= d.
Proof.
  unfold hex_value. cbv zeta. set (n := Z.of_N (N_of_ascii c)).
  destruct (Z.leb_spec 48 n), (Z.leb_spec n 57), (Z.leb_spec 97 n), (Z.leb_spec n 102), (Z.leb_spec 65 n), (Z.leb_spec n 70);
    simpl; intros E; try discriminate E; injection E as <-; lia.
Qed.

(** A value read is one of [unsigned long long]. *)
Lemma scan_digits_nonneg base acc any s : 0 <= base -> 0 <= acc -> 0 <= (scan_digits base acc any s).1.1.
Proof.
  intros Hb. revert acc any. induction s as [|c s IH]; intros acc any Ha; [done|]. cbn [scan_digits].
  destruct (hex_value c) as [d|] eqn:E; [|done]. destruct (d <? base); [|done]. apply IH.
  pose proof (hex_value_nonneg _ _ E). lia.
Qed.

Lemma std_stoull_range text base : 0 <= base -> yields (fun r => in_u64 r.1) (std_stoull text base).
Proof.
  intros Hb. unfold std_stoull, scan_integer. destruct (scan_sign _) as [negative s].
  destruct (scan_base base s) as [base' s'] eqn:Es.
  assert (Hb' : 0 <= base').
  { unfold scan_base in Es. destruct (base =? 0); [|congruence]. destruct s as [|c t]; [injection Es as <-; lia|].
    destruct (Ascii.eqb c "0"); [|injection Es as <-; lia]. destruct (String.eqb _ _); injection Es as <-; lia. }
  pose proof (scan_digits_nonneg base' 0 false s' Hb' ltac:(lia)) as Hn.
  destruct (scan_digits base' 0 false s') as [[magnitude any] rest]. destruct any; [|done]. simpl in Hn.
  destruct (Z.ltb_spec u64_max magnitude) as [|Hle]; [done|]. simpl. destruct negative; [apply u64_range|]. unfold in_u64. lia.
Qed.

(** ** Sequences of insertions *)

Lemma pieces_text_app f l l' : pieces_text f (l ++ l') = pieces_text f l +:+ pieces_text (pieces_format f l) l'.
Proof.
  revert f. induction l as [|p l IH]; intros f; [done|]. cbn [app pieces_text]. rewrite IH.
  cbn [pieces_format foldl]. by rewrite append_assoc.
Qed.

(** The stream after the pieces. *)
Definition written (l : list piece) (o : ostream) : ostream :=
  mkStream (os_text o +:+ pieces_text (os_format o) l) (pieces_format (os_format o) l).

Lemma write_run l o : write l o = (Ok tt, written l o).
Proof. done. Qed.

Lemma written_app l l' o : written l' (written l o) = written (l ++ l') o.
Proof.
  unfold written. cbn [os_text os_format]. rewrite pieces_text_app, append_assoc. unfold pieces_format. by rewrite foldl_app.
Qed.

Lemma written_nil o : written [] o = o.
Proof. destruct o. unfold written. simpl. by rewrite append_nil_r. Qed.

(** Printing the elements of a list one after the other. *)
Lemma mfor_write {A} (f : A -> list piece) (l : list A) o :
  mfor l (fun x => write (f x)) o = (Ok tt, written (concat (map f l)) o).
Proof.
  revert o. induction l as [|x l IH]; intros o; [by rewrite written_nil|]. cbn [mfor map concat].
  rewrite (run_Ok _ _ _ tt (written (f x) o)) by done. by rewrite IH, written_app.
Qed.

(** ** The format between commands

    Decimal, filled with blanks and without a width; the precision is set before every
    floating value. *)
Definition neutral (f : format) : Prop := f_hex f = false /\ f_fill f = " "%char /\ f_width f = 0.

(** The stream only grew from [text], and its format is the one between commands. *)
Definition grown (text : string) (o : ostream) : Prop :=
  neutral (os_format o) /\ exists more, os_text o = text +:+ more.

Lemma grown_refl text f : neutral f -> grown text (mkStream text f).
Proof. intros Hf. split; [done|]. exists EmptyString. by rewrite append_nil_r. Qed.

(** Pieces that restore the format they start with. *)
Definition restoring (l : list piece) : Prop := forall f, neutral f -> neutral (pieces_format f l).

Lemma restoring_app l l' : restoring l -> restoring l' -> restoring (l ++ l').
Proof. intros H1 H2 f Hf. unfold pieces_format. rewrite foldl_app. by apply H2, H1. Qed.
Lemma restoring_cons_str s l : restoring l -> restoring (Str s :: l).
Proof. intros H f (H1 & H2 & H3). apply H. by repeat split. Qed.
Lemma restoring_nil : restoring [].
Proof. by intros f Hf. Qed.

Lemma preserves_write text l : restoring l -> preserves (grown text) (write l).
Proof.
  intros Hl o [Hf [more Ht]]. split; [by apply Hl|]. exists (more +:+ pieces_text (os_format o) l). simpl.
  by rewrite Ht, append_assoc.
Qed.
