(* ===== verification/CoreCli.v ===== *)
(** * The core inspection command line ([src/cli/core_main.cpp])

    [mdbg-core] opens a session on a core and runs one command per input line.  The state of
    the loop is the session and the standard output; a command that throws leaves what it has
    done so far, and the loop prints the exception and reads the next line. *)

From S2P Require Import Prelude Machine ByteReader ElfFormat Elf SourcePath Unwind.
From S2P Require Import ModulePath Core CoreExtras Inspection SnapshotMemory LineTable LocalValue InlineMember Session CliText.

(** The lines [std::getline] reads from an open text file; [None]: it cannot be opened. *)
Class TextFiles := { f_lines : string -> option (list string) }.

Definition nl : string := String "010" EmptyString.

(* src/cli/core_main.cpp:17-17 kSourceContextRadius *)
Definition kSourceContextRadius : Z := 4.

(** [0x] and the value, and back to decimal. *)
Definition hex_pieces (z : Z) : list piece := [Str "0x"; Hex; Num z; Dec].

(** [file:line] and the column when it is known. *)
Definition position_pieces (file : string) (line column : Z) : list piece :=
  [Str file; Str ":"; Num line] ++ (if column =? 0 then [] else [Str ":"; Num column]).

(** [for (index = 0; ...; ++index) { if (index != 0) std::cout << ", "; f(l[index]); }] *)
Definition print_separated {A} (f : A -> M ostream unit) (l : list A) : M ostream unit :=
  mfor (imap pair l) (fun '(index, x) => _ ← mwhen (negb (index =? 0)%nat) (write [Str ", "]); f x).

Section CoreCli.
Context `{H : Host} `{F : FileAccess} `{T : TextFiles} `{L : LocalInspection}.

(** ** What is printed of a session *)

(* src/cli/core_main.cpp:20-42 print_frame *)
Definition print_frame (session : CoreInspectionSession) (frame : SnapshotInspectionFrameContext) : M ostream unit :=
  _ ← write ([Str (if sf_index frame =? cs_selected_frame session then "* " else "  "); Str "#"; Num (sf_index frame);
              Str " "] ++ hex_pieces (sf_runtime_pc frame) ++ [Str " "; Str (sf_module_path frame)]);
  _ ← mtry
        (symbol ← lift (find_frame_symbol session frame);
         match symbol with
         | Some symbol =>
           _ ← write [Str "!"; Str (ss_name symbol)];
           mwhen (negb (ss_offset symbol =? 0)) (write (Str "+" :: hex_pieces (ss_offset symbol)))
         | None => mskip
         end);
  _ ← mtry
        (source ← lift (find_frame_source session frame);
         match source with
         | Some source =>
           write ([Str " "; Str (so_module_path source); Str "!"] ++
                  position_pieces (so_file source) (so_line source) (so_column source))
         | None => mskip
         end);
  write [Str nl].

(* src/cli/core_main.cpp:44-50 print_backtrace *)
Definition print_backtrace (session : CoreInspectionSession) : M ostream unit :=
  _ ← mfor (trace_frames (cs_trace session)) (print_frame session);
  mwhen (bool_decide (trace_stop_reason (cs_trace session) <> EndOfChain))
    (write [Str "backtrace stopped: "; Str (cfi_unwind_stop_reason_name (trace_stop_reason (cs_trace session))); Str nl]).

(* src/cli/core_main.cpp:52-60 print_threads *)
Definition print_threads (session : CoreInspectionSession) : M ostream unit :=
  mfor (core_threads (so_core (cs_snapshot session))) (fun thread =>
    _ ← write [Str (if thread_tid thread =? cs_selected_thread_tid session then "* " else "  ");
               Str "tid "; Int (thread_tid thread)];
    _ ← mwhen (thread_is_crashed thread) (write [Str " crash"]);
    write ([Str " signal "; Int (thread_signal_number thread); Str " rip "] ++
           hex_pieces (rip (thread_registers thread)) ++ [Str nl])).

(* src/cli/core_main.cpp:62-73 print_crash *)
Definition print_crash (session : CoreInspectionSession) : M ostream unit :=
  match crash_info (so_core (cs_snapshot session)) with
  | None => write [Str "crash metadata unavailable"; Str nl]
  | Some crash =>
    _ ← write [Str "crash signal "; Int (crash_signal_number crash); Str " code "; Int (crash_signal_code crash)];
    _ ← match crash_fault_address crash with
        | Some address => write (Str " address " :: hex_pieces address)
        | None => mskip
        end;
    write [Str nl]
  end.

(* src/cli/core_main.cpp:75-84 print_process *)
Definition print_process (session : CoreInspectionSession) : M ostream unit :=
  match process_info (so_core (cs_snapshot session)) with
  | None => write [Str "process metadata unavailable"; Str nl]
  | Some process =>
    write [Str "process pid "; Int (core_pid process); Str " parent "; Int (core_parent_pid process);
           Str " pgrp "; Int (core_process_group_id process); Str " sid "; Int (core_session_id process);
           Str " file "; Str (core_file_name process); Str " command "; Str (core_command process); Str nl]
  end.

(** A member of the startup information that is there. *)
Definition print_present (label : string) (hex : bool) (value : option Z) : M ostream unit :=
  match value with
  | Some value => write (Str label :: if hex then hex_pieces value else [Num value])
  | None => mskip
  end.

(* src/cli/core_main.cpp:86-109 print_startup *)
Definition print_startup (session : CoreInspectionSession) : M ostream unit :=
  match cs_startup_info session with
  | None => write [Str "startup metadata unavailable"; Str nl]
  | Some startup =>
    _ ← write [Str "startup"];
    _ ← print_present " entry " true (entry_point startup);
    _ ← print_present " phdr " true (program_headers startup);
    _ ← print_present " phnum " false (program_header_count startup);
    _ ← print_present " pagesz " false (page_size startup);
    _ ← print_present " base " true (interpreter_base startup);
    write [Str nl]
  end.

(** ** Source excerpts *)

(** The loop over the lines of the file, from the state [current] and [found_current]. *)
(* src/cli/core_main.cpp:132-141 print_source_excerpt *)
Fixpoint excerpt_lines (first last line current : Z) (found_current : bool) (lines : list string) : M ostream bool :=
  match lines with
  | [] => mret found_current
  | text :: lines =>
    if current <? last then
      let current := current + 1 in
      if current <? first then excerpt_lines first last line current found_current lines
      else
        let active := current =? line in
        _ ← write [Str (if active then "=> " else "   "); Setw 5; Num current; Str " | "; Str text; Str nl];
        excerpt_lines first last line current (found_current || active) lines
    else mret found_current
  end.

(* src/cli/core_main.cpp:126-130 print_source_excerpt *)
Definition excerpt_first (line : Z) : Z := if kSourceContextRadius <? line then line - kSourceContextRadius else 1.
Definition excerpt_last (line : Z) : Z :=
  if u64_max - kSourceContextRadius <? line then u64_max else line + kSourceContextRadius.

(* src/cli/core_main.cpp:111-147 print_source_excerpt *)
Definition print_source_excerpt (source_paths : SourcePathResolver) (file : string) (line : Z) (module_path : string)
    : M ostream unit :=
  match resolve file module_path source_paths with
  | None => write [Str "source unavailable: "; Str file; Str nl]
  | Some path =>
    match f_lines path with
    | None => write [Str "source unavailable: "; Str path; Str nl]
    | Some lines =>
      found_current ← excerpt_lines (excerpt_first line) (excerpt_last line) line 0 false lines;
      mwhen (negb found_current)
        (write [Str "source unavailable: "; Str path; Str ":"; Num line; Str " is outside the file"; Str nl])
    end
  end.

(* src/cli/core_main.cpp:149-164 print_selected_source_context *)
Definition print_selected_source_context (session : CoreInspectionSession) (source_paths : SourcePathResolver)
    : M ostream unit :=
  frame ← lift (selected_frame session);
  mcatch
    (source ← lift (find_frame_source session frame);
     match source with
     | Some source =>
       _ ← write ([Str (so_module_path source); Str "!"] ++
                  position_pieces (so_file source) (so_line source) (so_column source) ++ [Str nl]);
       print_source_excerpt source_paths (so_file source) (so_line source) (so_module_path source)
     | None => write [Str "no source location for selected frame"; Str nl]
     end)
    (fun error => write [Str "source unavailable: "; Str (exn_what error); Str nl]).

(** ** Locals, inline contexts and values *)

Definition discovery_label (kind : LocalDiscoveryKind) : string :=
  match kind with DFormalParameter => "parameter " | DVariable => "variable " end.

(* src/cli/core_main.cpp:166-172 print_locals *)
Definition print_locals (session : CoreInspectionSession) : M ostream unit :=
  entries ← lift (locals session);
  mfor entries (fun entry => write [Str (discovery_label (ld_kind entry)); Str (ld_name entry); Str nl]).

(* src/cli/core_main.cpp:174-189 print_inline_contexts *)
Definition print_inline_contexts (session : CoreInspectionSession) : M ostream unit :=
  contexts ← lift (inline_contexts session);
  match contexts with
  | [] => write [Str "no inline contexts for selected physical frame"; Str nl]
  | _ =>
    mfor (imap pair contexts) (fun '(index, context) =>
      let selected := bool_decide (cs_selected_inline_context_index session = Some (Z.of_nat index)) in
      write ([Str (if selected then "* " else "  "); Str "inline "; Num (Z.of_nat index); Str " ";
              Str (ic_module_path context); Str "!"; Str (ic_name context); Str " called at "] ++
             position_pieces (loc_file (ic_call_site context)) (loc_line (ic_call_site context))
               (loc_column (ic_call_site context)) ++ [Str nl]))
  end.

(* src/cli/core_main.cpp:191-207 print_floating_value *)
Definition print_floating_value (value : LocalScalarValue) : M ostream unit :=
  if lv_byte_size value =? 4 then
    write [Setprecision 9; Real (decode_single (lv_raw_value value mod 2 ^ 32))]
  else if lv_byte_size value =? 8 then
    write [Setprecision 17; Real (decode_double (lv_raw_value value))]
  else mthrow LogicError "floating local value has an unsupported scalar width".

(** An enumerator's name with its value, or the value alone. *)
(* src/cli/core_main.cpp:215-220 print_value *)
Definition enum_pieces (type_name : string) (symbol : option string) (raw_value : Z) : list piece :=
  match symbol with
  | Some symbol => [Str type_name; Str "::"; Str symbol; Str " ("] ++ hex_pieces raw_value ++ [Str ")"]
  | None => hex_pieces raw_value
  end.

(* src/cli/core_main.cpp:230-247 print_value *)
Definition print_member (member : LocalStructMember) : M ostream unit :=
  _ ← write [Str (sm_name member); Str "="];
  if bool_decide (sm_kind member = KEnumeration) then
    match sm_enum_type member with
    | None => mthrow LogicError "bounded enum-valued structure member lost its type metadata"
    | Some enum_type => write (enum_pieces (et_name enum_type) (member_enum_symbol member) (sm_raw_value member))
    end
  else write (hex_pieces (sm_raw_value member)).

(* src/cli/core_main.cpp:211-264 print_value *)
Definition print_content (value : LocalScalarValue) : M ostream unit :=
  match lv_kind value with
  | KEnumeration =>
    match lv_enum_type value with
    | None => mthrow LogicError "bounded enum value lost its type metadata"
    | Some enum_type => write (enum_pieces (et_name enum_type) (value_enum_symbol value) (lv_raw_value value))
    end
  | KUnion =>
    _ ← write [Str "union{"];
    _ ← print_separated (fun member => write [Str (sm_name member)]) (lv_members value);
    write [Str "}"]
  | KStructure =>
    _ ← write [Str "{ "];
    _ ← print_separated print_member (lv_members value);
    write [Str " }"]
  | KArray =>
    match lv_array_type value with
    | Some array_type =>
      if negb (size_of (lv_elements value) =? at_element_count array_type) then
        mthrow LogicError "bounded fixed-array value lost its element metadata"
      else
        _ ← write [Str "["];
        _ ← print_separated (fun element => write (hex_pieces (ae_raw_value element))) (lv_elements value);
        write [Str "]"]
    | None => mthrow LogicError "bounded fixed-array value lost its element metadata"
    end
  | KFloating => print_floating_value value
  | KInteger | KPointer => write (hex_pieces (lv_raw_value value))
  end.

Definition signedness (is_signed : bool) : string := if is_signed then "signed" else "unsigned".

(* src/cli/core_main.cpp:266-284 print_value *)
Definition print_type (value : LocalScalarValue) : M ostream unit :=
  match lv_kind value with
  | KFloating => write [Str "floating"]
  | KEnumeration =>
    match lv_enum_type value with
    | None => mthrow LogicError "bounded enum value lost its type metadata"
    | Some enum_type => write [Str "enum "; Str (signedness (et_is_signed enum_type))]
    end
  | KUnion => write [Str "union"]
  | KArray =>
    match lv_array_type value with
    | None => mthrow LogicError "bounded fixed-array value lost its type metadata"
    | Some array_type =>
      write [Str "array "; Num (at_element_count array_type); Str " x "; Num (at_element_byte_size array_type);
             Str "-byte "; Str (signedness (at_element_is_signed array_type))]
    end
  | KStructure | KInteger | KPointer => write [Str (signedness (lv_is_signed value))]
  end.

(* src/cli/core_main.cpp:209-293 print_value *)
Definition print_value (value : LocalScalarValue) : M ostream unit :=
  _ ← write [Str (lv_module_path value); Str "!"; Str (lv_name value); Str " = "];
  _ ← print_content value;
  _ ← write [Str " ["; Num (lv_byte_size value); Str "-byte "];
  _ ← print_type value;
  _ ← write [Str "]"];
  _ ← match lv_storage value with
      | SnapshotCoreMemory => write [Str " [value-core]"]
      | SnapshotRuntimeArtifact =>
        write ([Str " [value-artifact:"; Str (lv_storage_module_path value); Str " file+"] ++
               hex_pieces (lv_storage_file_offset value) ++ [Str "]"])
      | Computed | SnapshotCoreRegister => mskip
      end;
  write [Str nl].

(* src/cli/core_main.cpp:295-309 print_memory *)
Definition print_memory (address : Z) (memory : SnapshotMemoryRead) : M ostream unit :=
  _ ← write [Str "0x"; Hex; Num address; Str ":"];
  _ ← mfor (mr_bytes memory) (fun byte => write [Str " "; Setw 2; Setfill "0"; Num (byte_val byte)]);
  _ ← write [Setfill " "; Dec; Str " ["];
  _ ← match mr_provenance memory with
      | FromCore => write [Str "core"]
      | FromRuntimeArtifact =>
        write ([Str "artifact:"; Str (mr_module_path memory); Str " file+"] ++ hex_pieces (mr_artifact_file_offset memory))
      end;
  write [Str "]"; Str nl].

(** ** Numbers of commands *)

Definition pid_max : Z := 2147483647.

(* src/cli/core_main.cpp:311-316 parse_frame_index *)
Definition parse_frame_index (text : string) : res Z :=
  '(value, consumed) ← std_stoull text 10;
  _ ← throw_if (negb (consumed =? String.length text)%nat) (Exn InvalidArgument ("invalid core frame index: " +:+ text));
  Ok value.

(* src/cli/core_main.cpp:318-326 parse_thread_tid *)
Definition parse_thread_tid (text : string) : res Z :=
  '(value, consumed) ← std_stoll text 10;
  _ ← throw_if (negb (consumed =? String.length text)%nat || (value <=? 0) || (pid_max <? value))
        (Exn InvalidArgument ("invalid core thread TID: " +:+ text));
  Ok value.

(* src/cli/core_main.cpp:328-335 parse_memory_address *)
Definition parse_memory_address (text : string) : res Z :=
  '(value, consumed) ← std_stoull text 0;
  _ ← throw_if (negb (consumed =? String.length text)%nat || (u64_max <? value))
        (Exn InvalidArgument ("invalid core memory address: " +:+ text));
  Ok value.

(* src/cli/core_main.cpp:337-344 parse_memory_length *)
Definition parse_memory_length (text : string) : res Z :=
  '(value, consumed) ← std_stoull text 0;
  _ ← throw_if (negb (consumed =? String.length text)%nat || (value =? 0) || (u64_max <? value))
        (Exn InvalidArgument ("invalid core memory length: " +:+ text));
  Ok value.

(** ** Commands *)

(** The objects of [run_session] a command uses. *)
Record core_cli := mkCoreCli { cc_session : CoreInspectionSession; cc_out : ostream }.

Definition on_session {A} : M CoreInspectionSession A -> M core_cli A :=
  zoom cc_session (fun session s => mkCoreCli session (cc_out s)).
Definition on_out {A} : M ostream A -> M core_cli A := zoom cc_out (fun out s => mkCoreCli (cc_session s) out).

(** [if (input >> extra) throw std::invalid_argument(usage);] *)
Definition no_words {S} (usage input : string) : M S unit :=
  match words input with [] => mskip | _ => mthrow InvalidArgument usage end.
(** [if (!(input >> word) || (input >> extra)) throw std::invalid_argument(usage);] *)
Definition one_word {S} (usage input : string) : M S string :=
  match words input with [word] => mret word | _ => mthrow InvalidArgument usage end.
Definition two_words {S} (usage input : string) : M S (string * string) :=
  match words input with [first; second] => mret (first, second) | _ => mthrow InvalidArgument usage end.
Definition three_words {S} (usage input : string) : M S (string * string * string) :=
  match words input with
  | [first; second; third] => mret (first, second, third)
  | _ => mthrow InvalidArgument usage
  end.

(* src/cli/core_main.cpp:346-372 print_help *)
Definition print_help : M ostream unit :=
  mfor [
    "read-only core commands:";
    "  crash                show kernel-recorded crash metadata";
    "  process              show kernel-recorded process identity";
    "  startup              show kernel-recorded process startup metadata";
    "  threads              show immutable core thread contexts";
    "  thread <tid>         select an immutable core thread";
    "  bt | backtrace       show immutable snapshot frames";
    "  frame <index>        select an immutable snapshot frame";
    "  inline               show inline source contexts for the physical frame";
    "  inline <index>       select one inline source context";
    "  inline physical      return local scope to the physical frame";
    "  list | l             show source context for the selected frame";
    "  locals               list active parameter/local names without reading values";
    "  print <name> | p <name>  inspect a source value in the selected frame";
    "  deref <name>         dereference one bounded pointer value";
    "  member <name> <member>  inspect one bounded pointer-valued direct member";
    "  deref-member <name> <member>  dereference that member once";
    "  aggregate-member <name> <member>  select one by-value aggregate member";
    "  nested-aggregate-member <name> <aggregate-member> <terminal-member>  select one bounded nested member";
    "  union-member <name> <member>  explicitly select one overlapping union member";
    "  deref-aggregate-member <name> <member>  dereference that member once";
    "  array-element <name> <index>  select one bounded fixed-array element";
    "  x <address> <length> inspect immutable snapshot memory";
    "  help                 show this help";
    "  quit | q             exit the core session"
  ] (fun line => write [Str (line +:+ nl)]).

(** A command that prints something of the session and takes no words. *)
Definition print_command (usage input : string) (print : CoreInspectionSession -> M ostream unit) : M core_cli unit :=
  _ ← no_words usage input;
  session ← gets cc_session;
  on_out (print session).

(** Prints the selected frame. *)
Definition print_selected_frame : M core_cli unit :=
  session ← gets cc_session;
  frame ← lift (selected_frame session);
  on_out (print_frame session frame).

(* src/cli/core_main.cpp:421-432 run_session *)
Definition thread_command (input : string) : M core_cli unit :=
  tid_text ← one_word "usage: thread <tid>" input;
  tid ← lift (parse_thread_tid tid_text);
  _ ← on_session (select_thread tid);
  _ ← on_out (write [Str "selected thread "; Int tid; Str nl]);
  print_selected_frame.

(* src/cli/core_main.cpp:439-450 run_session *)
Definition frame_command (input : string) : M core_cli unit :=
  index_text ← one_word "usage: frame <index>" input;
  index ← lift (parse_frame_index index_text);
  _ ← on_session (select_frame index);
  _ ← on_out (write [Str "selected frame "; Num index; Str nl]);
  print_selected_frame.

(* src/cli/core_main.cpp:451-471 run_session *)
Definition inline_command (input : string) : M core_cli unit :=
  match words input with
  | [] => session ← gets cc_session; on_out (print_inline_contexts session)
  | [selection] =>
    if String.eqb selection "physical" then
      _ ← on_session clear_inline_context;
      session ← gets cc_session;
      on_out (write [Str "selected physical frame "; Num (cs_selected_frame session); Str nl])
    else
      index ← lift (parse_frame_index selection);
      _ ← on_session (select_inline_context index);
      _ ← on_out (write [Str "selected inline "; Num index; Str nl]);
      session ← gets cc_session;
      on_out (print_inline_contexts session)
  | _ => mthrow InvalidArgument "usage: inline [<index>|physical]"
  end.

(** [print_value(query(session))]. *)
Definition value_command (query : CoreInspectionSession -> res LocalScalarValue) : M core_cli unit :=
  session ← gets cc_session;
  value ← lift (query session);
  on_out (print_value value).

(** A command that prints the value of a name, or of a name and a member. *)
(* src/cli/core_main.cpp:484-501 run_session *)
Definition name_command (usage input : string) (query : CoreInspectionSession -> string -> res LocalScalarValue)
    : M core_cli unit :=
  name ← one_word usage input;
  value_command (fun session => query session name).
(* src/cli/core_main.cpp:502-531 run_session *)
Definition member_command (usage input : string)
    (query : CoreInspectionSession -> string -> string -> res LocalScalarValue) : M core_cli unit :=
  '(name, member) ← two_words usage input;
  value_command (fun session => query session name member).

(* src/cli/core_main.cpp:532-544 run_session *)
Definition nested_member_command (input : string) : M core_cli unit :=
  '(name, aggregate_member, terminal_member) ←
    three_words "usage: nested-aggregate-member <name> <aggregate-member> <terminal-member>" input;
  value_command (fun session => inspect_nested_aggregate_member session name aggregate_member terminal_member).

(* src/cli/core_main.cpp:566-575 run_session *)
Definition array_element_command (input : string) : M core_cli unit :=
  '(name, index_text) ← two_words "usage: array-element <name> <index>" input;
  index ← lift (parse_frame_index index_text);
  value_command (fun session => inspect_array_element session name index).

(* src/cli/core_main.cpp:576-587 run_session *)
Definition memory_command (input : string) : M core_cli unit :=
  '(address_text, length_text) ← two_words "usage: x <address> <length>" input;
  address ← lift (parse_memory_address address_text);
  length ← lift (parse_memory_length length_text);
  session ← gets cc_session;
  memory ← lift (session_read_memory session address length);
  on_out (print_memory address memory).

(** The body of the [try] statement; the result tells whether the command leaves the loop. *)
(* src/cli/core_main.cpp:391-589 run_session *)
Definition run_command (source_paths : SourcePathResolver) (command input : string) : M core_cli bool :=
  let named := String.eqb command in
  if named "q" || named "quit" then mret true
  else
    _ ← (if named "help" then on_out print_help
         else if named "crash" then print_command "usage: crash" input print_crash
         else if named "process" then print_command "usage: process" input print_process
         else if named "startup" then print_command "usage: startup" input print_startup
         else if named "threads" then print_command "usage: threads" input print_threads
         else if named "thread" then thread_command input
         else if named "bt" || named "backtrace" then print_command "usage: bt" input print_backtrace
         else if named "frame" then frame_command input
         else if named "inline" then inline_command input
         else if named "list" || named "l" then
           print_command "usage: list" input (fun session => print_selected_source_context session source_paths)
         else if named "locals" then print_command "usage: locals" input print_locals
         else if named "print" || named "p" then name_command "usage: print <name>" input inspect_value
         else if named "deref" then name_command "usage: deref <name>" input dereference_value
         else if named "member" then member_command "usage: member <name> <member>" input inspect_pointer_member
         else if named "deref-member" then
           member_command "usage: deref-member <name> <member>" input dereference_pointer_member
         else if named "aggregate-member" then
           member_command "usage: aggregate-member <name> <member>" input inspect_aggregate_member
         else if named "nested-aggregate-member" then nested_member_command input
         else if named "union-member" then
           member_command "usage: union-member <name> <member>" input inspect_union_member
         else if named "deref-aggregate-member" then
           member_command "usage: deref-aggregate-member <name> <member>" input dereference_aggregate_member
         else if named "array-element" then array_element_command input
         else if named "x" then memory_command input
         else on_out (write [Str "unsupported in core session: "; Str command; Str nl]));
    mret false.

(** One input line: what the body of the loop does after reading it. *)
(* src/cli/core_main.cpp:386-592 run_session *)
Definition run_line (source_paths : SourcePathResolver) (line : string) : M core_cli bool :=
  match next_token line with
  | None => mret false
  | Some (command, input) =>
    mcatch (run_command source_paths command input)
      (fun error => _ ← on_out (write [Str "error: "; Str (exn_what error); Str nl]); mret false)
  end.

(** The loop over the lines of the standard input. *)
(* src/cli/core_main.cpp:382-593 run_session *)
Fixpoint command_loop (source_paths : SourcePathResolver) (lines : list string) : M core_cli unit :=
  _ ← on_out (write [Str "core> "]);
  match lines with
  | [] => mskip
  | line :: lines =>
    leave ← run_line source_paths line;
    if leave : bool then mskip else command_loop source_paths lines
  end.

(** The loop with the session and the output it starts with. *)
Definition run_loop (source_paths : SourcePathResolver) (lines : list string) (session : CoreInspectionSession)
    : M ostream unit := fun out =>
  let '(r, s) := command_loop source_paths lines (mkCoreCli session out) in (r, cc_out s).

(** The value returned is the exit status; [address] is where the snapshot lives. *)
(* src/cli/core_main.cpp:374-595 run_session *)
Definition run_session (address : Z) (core_path : string) (module_paths : SnapshotModulePathResolver)
    (source_paths : SourcePathResolver) (lines : list string) : M ostream Z :=
  session ← lift (open_session address core_path module_paths 64);
  _ ← write [Str "core signal "; Int (signal_number (so_core (cs_snapshot session)));
             Str " tid "; Int (crashed_tid (so_core (cs_snapshot session)));
             Str " frames "; Num (size_of (trace_frames (cs_trace session))); Str nl];
  frame ← lift (selected_frame session);
  _ ← print_frame session frame;
  _ ← run_loop source_paths lines session;
  mret 0.

(** ** The program *)

(** The standard output and the standard error stream. *)
Record console := mkConsole { con_out : ostream; con_err : ostream }.
Definition on_stdout {A} : M ostream A -> M console A := zoom con_out (fun out c => mkConsole out (con_err c)).
Definition on_stderr {A} : M ostream A -> M console A := zoom con_err (fun err c => mkConsole (con_out c) err).

(* src/cli/core_main.cpp:597-602 print_usage *)
Definition print_usage : M console unit :=
  on_stderr (write [Str ("usage: mdbg-core [--substitute-module-path <recorded-prefix> <local-prefix>]... " +:+
    "[--debug-file <recorded-module> <local-debug-file>]... " +:+
    "[--substitute-source-path <recorded-prefix> <local-prefix>]... <core-file>" +:+ nl)]).

(** What the loop over the options leaves: the resolvers and the arguments left, or nothing
    when an option lacks its two values. *)
(* src/cli/core_main.cpp:611-640 main *)
Fixpoint core_options (arguments : list string) (module_paths : SnapshotModulePathResolver)
    (source_paths : SourcePathResolver) : res (option (SnapshotModulePathResolver * SourcePathResolver * list string)) :=
  match arguments with
  | option :: from :: values =>
    let named := String.eqb option in
    if named "--substitute-module-path" || named "--debug-file" || named "--substitute-source-path" then
      match values with
      | [] => Ok None
      | to :: rest =>
        if named "--substitute-module-path" then
          module_paths ← add_module_substitution from to module_paths;
          core_options rest module_paths source_paths
        else if named "--debug-file" then
          module_paths ← add_debug_file from to module_paths;
          core_options rest module_paths source_paths
        else
          source_paths ← add_substitution from to source_paths;
          core_options rest module_paths source_paths
      end
    else Ok (Some (module_paths, source_paths, arguments))
  | _ => Ok (Some (module_paths, source_paths, arguments))
  end.

(** [arguments] are those after the program's name; the result is the exit status. *)
(* src/cli/core_main.cpp:606-651 main *)
Definition core_main (address : Z) (arguments lines : list string) : M console Z :=
  mcatch
    (parsed ← lift (core_options arguments no_module_paths []);
     match parsed with
     | Some (module_paths, source_paths, [core_path]) =>
       on_stdout (run_session address core_path module_paths source_paths lines)
     | _ => _ ← print_usage; mret 2
     end)
    (fun error => _ ← on_stderr (write [Str "mdbg-core: "; Str (exn_what error); Str nl]); mret 1).
End CoreCli.
