(* ===== verification/CoreCliProofs.v ===== *)
(** * The core command line

    The command loop survives every command: an exception is printed and the next line is
    read, the session stays one that selections can reach and never changes its core, and
    the format of the output is restored.  What an excerpt prints, and that every number
    the program prints is one its commands accept. *)

From S2P Require Import Prelude Machine ByteReader Paths ElfFormat Elf SourcePath Unwind EhFrameSignalProofs.
From S2P Require Import ModulePath ModulePathProofs Core CoreExtras ElfProofs CoreProofs Inspection InspectionProofs SnapshotMemory.
From S2P Require Import LineTable LocalValue InlineMember Session SessionProofs CliText CliTextProofs CoreCli.

(** Pieces of a known shape restore the format. *)
Ltac restoring :=
  intros [? ? ? ?] (? & ? & ?); simpl in *; subst;
  unfold pieces_format, hex_pieces, position_pieces, enum_pieces; repeat case_match; by repeat split.

#[export] Hint Extern 1 (preserves (grown _) (write _)) => apply preserves_write; restoring : mdbg.

(** ** What is printed only makes the output grow *)

Section Printing.
Context `{H : Host} `{F : FileAccess} `{T : TextFiles} `{L : LocalInspection}.
Context (text : string).

Lemma print_frame_grows session frame : preserves (grown text) (print_frame session frame).
Proof. unfold print_frame. preserves_auto. Qed.
Hint Resolve print_frame_grows : mdbg.

Lemma print_backtrace_grows session : preserves (grown text) (print_backtrace session).
Proof. unfold print_backtrace. preserves_auto. Qed.
Lemma print_threads_grows session : preserves (grown text) (print_threads session).
Proof. unfold print_threads. preserves_auto. Qed.
Lemma print_crash_grows session : preserves (grown text) (print_crash session).
Proof. unfold print_crash. preserves_auto. Qed.
Lemma print_process_grows session : preserves (grown text) (print_process session).
Proof. unfold print_process. preserves_auto. Qed.
Lemma print_startup_grows session : preserves (grown text) (print_startup session).
Proof. unfold print_startup, print_present. preserves_auto. Qed.

Lemma excerpt_lines_grows first last line current found lines :
  preserves (grown text) (excerpt_lines first last line current found lines).
Proof. revert current found. induction lines; intros; cbn [excerpt_lines]; preserves_auto. Qed.
Hint Resolve excerpt_lines_grows : mdbg.

Lemma print_source_excerpt_grows paths file line module : preserves (grown text) (print_source_excerpt paths file line module).
Proof. unfold print_source_excerpt. preserves_auto. Qed.
Hint Resolve print_source_excerpt_grows : mdbg.
Lemma print_source_context_grows session paths : preserves (grown text) (print_selected_source_context session paths).
Proof. unfold print_selected_source_context. preserves_auto. Qed.

Lemma print_locals_grows session : preserves (grown text) (print_locals session).
Proof. unfold print_locals. preserves_auto. Qed.
Lemma print_inline_contexts_grows session : preserves (grown text) (print_inline_contexts session).
Proof. unfold print_inline_contexts. preserves_auto. Qed.

Lemma print_separated_grows {A} (f : A -> M ostream unit) l :
  (forall x, preserves (grown text) (f x)) -> preserves (grown text) (print_separated f l).
Proof. intros Hf. unfold print_separated. preserves_auto; eauto. Qed.

Lemma print_member_grows member : preserves (grown text) (print_member member).
Proof. unfold print_member. preserves_auto. Qed.
Hint Resolve print_member_grows print_separated_grows : mdbg.
Lemma print_content_grows value : preserves (grown text) (print_content value).
Proof.
  unfold print_content, print_floating_value. preserves_auto; apply print_separated_grows; intros; preserves_auto.
Qed.
Lemma print_type_grows value : preserves (grown text) (print_type value).
Proof. unfold print_type. preserves_auto. Qed.
Hint Resolve print_content_grows print_type_grows : mdbg.
Lemma print_value_grows value : preserves (grown text) (print_value value).
Proof. unfold print_value. preserves_auto. Qed.

(** *** The memory dump *)

Definition provenance_pieces (memory : SnapshotMemoryRead) : list piece :=
  match mr_provenance memory with
  | FromCore => [Str "core"]
  | FromRuntimeArtifact =>
    [Str "artifact:"; Str (mr_module_path memory); Str " file+"] ++ hex_pieces (mr_artifact_file_offset memory)
  end.
Definition byte_pieces (b : byte) : list piece := [Str " "; Setw 2; Setfill "0"; Num (byte_val b)].

Lemma print_memory_run address memory o :
  print_memory address memory o =
    (Ok tt, written ([Str "0x"; Hex; Num address; Str ":"] ++ concat (map byte_pieces (mr_bytes memory)) ++
                     [Setfill " "; Dec; Str " ["] ++ provenance_pieces memory ++ [Str "]"; Str nl]) o).
Proof.
  unfold print_memory. rewrite (run_Ok _ _ _ tt _ (write_run _ _)).
  rewrite (run_Ok _ _ _ tt _ (mfor_write byte_pieces _ _)), (run_Ok _ _ _ tt _ (write_run _ _)).
  transitivity (write (provenance_pieces memory ++ [Str "]"; Str nl])
    (written [Setfill " "; Dec; Str " ["] (written (concat (map byte_pieces (mr_bytes memory)))
      (written [Str "0x"; Hex; Num address; Str ":"] o)))).
  - rewrite write_run, <- written_app. unfold provenance_pieces. by destruct (mr_provenance memory).
  - by rewrite write_run, !written_app.
Qed.

(** Both digits of a byte. *)
Definition byte_text (b : byte) : string :=
  String (digit_char (byte_val b / 16)) (String (digit_char (byte_val b mod 16)) EmptyString).

Lemma byte_piece_text f b : f_hex f = true -> f_width f = 0 ->
  pieces_text f (byte_pieces b) = " " +:+ byte_text b /\
  pieces_format f (byte_pieces b) = mkFormat true "0" 0 (f_precision f).
Proof. destruct f as [h c w p]. simpl. intros -> ->. by destruct b. Qed.

Fixpoint texts (l : list string) : string :=
  match l with [] => EmptyString | s :: l => s +:+ texts l end.

Lemma bytes_text l f : f_hex f = true -> f_width f = 0 ->
  pieces_text f (concat (map byte_pieces l)) = texts (map (fun b => " " +:+ byte_text b) l) /\
  f_hex (pieces_format f (concat (map byte_pieces l))) = true /\
  f_width (pieces_format f (concat (map byte_pieces l))) = 0.
Proof.
  revert f. induction l as [|b l IH]; intros f Hh Hw; [done|]. cbn [map concat texts].
  destruct (byte_piece_text f b Hh Hw) as [Ht Hf]. unfold pieces_format. rewrite foldl_app, pieces_text_app, Ht.
  unfold pieces_format in Hf. rewrite Hf. unfold pieces_format. rewrite Hf.
  destruct (IH (mkFormat true "0" 0 (f_precision f)) eq_refl eq_refl) as (H1 & H2). by rewrite H1.
Qed.

Lemma print_memory_grows address memory : preserves (grown text) (print_memory address memory).
Proof.
  intros o [Hn [more Ht]]. rewrite print_memory_run. cbn [snd].
  split; [|exists (more +:+ pieces_text (os_format o) ([Str "0x"; Hex; Num address; Str ":"] ++
    concat (map byte_pieces (mr_bytes memory)) ++ [Setfill " "; Dec; Str " ["] ++ provenance_pieces memory ++
    [Str "]"; Str nl])); unfold written; cbn [os_text]; by rewrite Ht, append_assoc].
  unfold written. cbn [os_format]. destruct o as [t [h c w p]]. destruct Hn as (Hh & Hc & Hw). simpl in Hh, Hc, Hw. subst.
  cbn [os_format app pieces_format foldl piece_format f_hex f_fill f_width f_precision].
  fold (pieces_format (mkFormat true " " 0 p)). unfold pieces_format. rewrite !foldl_app.
  destruct (bytes_text (mr_bytes memory) (mkFormat true " " 0 p) eq_refl eq_refl) as (_ & _ & Hw).
  unfold pieces_format in Hw. destruct (foldl piece_format _ (concat _)) as [h' c' w' p']. simpl in Hw. subst.
  unfold provenance_pieces. by destruct (mr_provenance memory).
Qed.
End Printing.

(** ** The command loop *)

Lemma preserves_zoom {S U A} (I : S -> Prop) (J : U -> Prop) (get : S -> U) put (m : M U A) :
  (forall s, I s -> J (get s)) -> (forall s u, I s -> J u -> I (put u s)) -> preserves J m -> preserves I (zoom get put m).
Proof.
  intros Hg Hp Hm s Hs. unfold zoom. pose proof (Hm (get s) (Hg s Hs)) as Hj. destruct (m (get s)) as [r u]. by apply Hp.
Qed.

(** What selections never change of a session. *)
Definition same_core (s s' : CoreInspectionSession) : Prop :=
  cs_snapshot s' = cs_snapshot s /\ cs_module_paths s' = cs_module_paths s /\
  cs_startup_info s' = cs_startup_info s /\ cs_max_frames s' = cs_max_frames s.

Section Loop.
Context `{H : Host} `{F : FileAccess} `{T : TextFiles} `{L : LocalInspection}.

Lemma session_op_same_core s op : preserves (same_core s) (run_session_op op).
Proof.
  destruct op; unfold run_session_op, select_thread, select_frame, select_inline_context, clear_inline_context;
    preserves_auto; (intros s' Hs'; exact Hs').
Qed.

(** The sessions and outputs a loop passes through from a session and an output. *)
Definition cli_ok (s : CoreInspectionSession) (text : string) (c : core_cli) : Prop :=
  session_reachable (cc_session c) /\ same_core s (cc_session c) /\ grown text (cc_out c).

Section Invariant.
Context (s0 : CoreInspectionSession) (text : string).

Lemma preserves_on_out {A} (m : M ostream A) : preserves (grown text) m -> preserves (cli_ok s0 text) (on_out m).
Proof.
  apply preserves_zoom; [by intros c (_ & _ & Hg)|]. intros c out (H1 & H2 & _) Hg. split; [done|by split].
Qed.

Lemma preserves_on_session op : op_ok op -> preserves (cli_ok s0 text) (on_session (run_session_op op)).
Proof.
  intros Hop. apply (preserves_zoom _ (fun s => session_reachable s /\ same_core s0 s)).
  - by intros c (H1 & H2 & _).
  - intros c s (_ & _ & H3) [H1 H2]. split; [done|by split].
  - intros s [H1 H2]. split; [by apply session_selected|by apply session_op_same_core].
Qed.

Lemma preserves_select_thread tid : preserves (cli_ok s0 text) (on_session (select_thread tid)).
Proof. by apply (preserves_on_session (SelectThread tid)). Qed.
Lemma preserves_select_frame index : 0 <= index -> preserves (cli_ok s0 text) (on_session (select_frame index)).
Proof. apply (preserves_on_session (SelectFrame index)). Qed.
Lemma preserves_select_inline index : 0 <= index -> preserves (cli_ok s0 text) (on_session (select_inline_context index)).
Proof. apply (preserves_on_session (SelectInlineContext index)). Qed.
Lemma preserves_clear_inline : preserves (cli_ok s0 text) (on_session clear_inline_context).
Proof. by apply (preserves_on_session ClearInlineContext). Qed.

(** What a parsed number is known to be. *)
Lemma preserves_lift_bind {S A B} (I : S -> Prop) (P : A -> Prop) (r : res A) (f : A -> M S B) :
  yields P r -> (forall a, P a -> preserves I (f a)) -> preserves I (lift r ≫= f).
Proof. intros Hr Hf s Hs. destruct r as [a|e|w|]; simpl in *; [by apply Hf|done..]. Qed.

Lemma parse_frame_index_yields t : yields (fun index => 0 <= index) (parse_frame_index t).
Proof.
  unfold parse_frame_index. eapply yields_bind; [by apply std_stoull_range|]. intros [v n] [Hv _].
  by apply yields_guard.
Qed.

Lemma preserves_no_words usage input : preserves (cli_ok s0 text) (no_words usage input).
Proof. unfold no_words. preserves_auto. Qed.
Lemma preserves_one_word usage input : preserves (cli_ok s0 text) (one_word usage input).
Proof. unfold one_word. preserves_auto. Qed.
Lemma preserves_two_words usage input : preserves (cli_ok s0 text) (two_words usage input).
Proof. unfold two_words. preserves_auto. Qed.
Lemma preserves_three_words usage input : preserves (cli_ok s0 text) (three_words usage input).
Proof. unfold three_words. preserves_auto. Qed.
Lemma print_help_grows : preserves (grown text) print_help.
Proof. unfold print_help. preserves_auto. Qed.

Hint Resolve preserves_on_out preserves_select_thread preserves_select_frame preserves_select_inline preserves_clear_inline
  preserves_no_words preserves_one_word preserves_two_words preserves_three_words print_frame_grows print_backtrace_grows
  print_threads_grows print_crash_grows print_process_grows print_startup_grows print_source_context_grows
  print_locals_grows print_inline_contexts_grows print_value_grows print_memory_grows print_help_grows : mdbg.

Lemma print_command_ok usage input print :
  (forall s, preserves (grown text) (print s)) -> preserves (cli_ok s0 text) (print_command usage input print).
Proof. intros Hp. unfold print_command. preserves_auto. Qed.

Lemma print_selected_frame_ok : preserves (cli_ok s0 text) print_selected_frame.
Proof. unfold print_selected_frame. preserves_auto. Qed.

Lemma value_command_ok query : preserves (cli_ok s0 text) (value_command query).
Proof. unfold value_command. preserves_auto. Qed.
Hint Resolve print_command_ok print_selected_frame_ok value_command_ok : mdbg.

Lemma thread_command_ok input : preserves (cli_ok s0 text) (thread_command input).
Proof. unfold thread_command. preserves_auto. Qed.

Lemma frame_command_ok input : preserves (cli_ok s0 text) (frame_command input).
Proof.
  unfold frame_command. apply preserves_bind; [auto with mdbg|intros t].
  eapply preserves_lift_bind; [apply parse_frame_index_yields|intros index Hi]. preserves_auto.
Qed.

Lemma inline_command_ok input : preserves (cli_ok s0 text) (inline_command input).
Proof.
  unfold inline_command. destruct (words input) as [|selection [|? ?]]; [preserves_auto| |preserves_auto].
  destruct (String.eqb selection "physical"); [preserves_auto|].
  eapply preserves_lift_bind; [apply parse_frame_index_yields|intros index Hi]. preserves_auto.
Qed.

Lemma memory_command_ok input : preserves (cli_ok s0 text) (memory_command input).
Proof. unfold memory_command. preserves_auto. Qed.
Hint Resolve thread_command_ok frame_command_ok inline_command_ok memory_command_ok : mdbg.

Lemma run_command_ok paths command input : preserves (cli_ok s0 text) (run_command paths command input).
Proof.
  unfold run_command. cbv zeta. destruct (_ || _); [auto with mdbg|]. apply preserves_bind; [|auto with mdbg].
  unfold name_command, member_command, nested_member_command, array_element_command.
  repeat (destruct (String.eqb command _); [cbn [orb]; preserves_auto|cbn [orb]]). preserves_auto.
Qed.

Lemma run_line_ok paths line : preserves (cli_ok s0 text) (run_line paths line).
Proof.
  unfold run_line. destruct (next_token line) as [[command input]|]; [|auto with mdbg].
  apply preserves_mcatch; [apply run_command_ok|intros e]. preserves_auto.
Qed.

(** A line that throws is answered with the exception. *)
Lemma run_line_catches paths line c e : fst (run_line paths line c) <> Throw e.
Proof.
  unfold run_line, mcatch. destruct (next_token line) as [[command input]|]; [|done].
  destruct (run_command paths command input c) as [[]]; done.
Qed.

Lemma command_loop_ok paths lines : preserves (cli_ok s0 text) (command_loop paths lines).
Proof.
  induction lines as [|line lines IH]; cbn [command_loop]; (apply preserves_bind; [apply preserves_on_out; auto with mdbg|intros _]).
  - auto with mdbg.
  - apply preserves_bind; [apply run_line_ok|]. intros leave. destruct leave; [auto with mdbg|exact IH].
Qed.

Lemma command_loop_catches paths lines c e : fst (command_loop paths lines c) <> Throw e.
Proof.
  revert c. induction lines as [|line lines IH]; intros c; cbn [command_loop].
  - done.
  - rewrite (run_Ok _ _ _ tt (mkCoreCli (cc_session c) (written [Str "core> "] (cc_out c)))) by done.
    pose proof (run_line_catches paths line (mkCoreCli (cc_session c) (written [Str "core> "] (cc_out c)))) as Hc.
    unfold mbind, M_bind. destruct (run_line _ _ _) as [[leave|e'|w|] c']; [destruct leave; [done|apply IH]| |done..].
    exfalso. by apply (Hc e').
Qed.
End Invariant.

(** C25: Whatever lines are typed into a core session: no exception leaves the command loop, the
    session after it is one that selections reach, of the same core with the same module
    paths, and the output only grew and ends in the decimal format the next text expects. *)
Theorem command_loop_read_only paths lines session out :
  session_reachable session -> neutral (os_format out) ->
  let '(r, c) := command_loop paths lines (mkCoreCli session out) in
  (forall e, r <> Throw e) /\ session_reachable (cc_session c) /\ same_core session (cc_session c) /\
  grown (os_text out) (cc_out c).
Proof.
  intros Hs Hn. pose proof (command_loop_catches paths lines (mkCoreCli session out)) as Hc.
  pose proof (command_loop_ok session (os_text out) paths lines (mkCoreCli session out)) as Hok.
  destruct (command_loop paths lines (mkCoreCli session out)) as [r c]. split; [exact Hc|]. apply Hok.
  split; [done|]. split; [done|]. destruct out. by apply grown_refl.
Qed.
End Loop.

(** ** Source excerpts *)

(** Lines with their numbers. *)
Fixpoint number_from (n : Z) (lines : list string) : list (Z * string) :=
  match lines with [] => [] | text :: lines => (n, text) :: number_from (n + 1) lines end.

(** The printed row of a numbered line. *)
Definition row_pieces (line : Z) (row : Z * string) : list piece :=
  [Str (if row.1 =? line then "=> " else "   "); Setw 5; Num row.1; Str " | "; Str row.2; Str nl].

(** The rows from [first] to [last]. *)
Definition window (first last : Z) (rows : list (Z * string)) : list (Z * string) :=
  List.filter (fun row => (first <=? row.1) && (row.1 <=? last)) rows.

Lemma number_from_bounds n lines row : In row (number_from n lines) -> n <= row.1 < n + size_of lines.
Proof.
  revert n. induction lines as [|t lines IH]; intros n; [done|]. unfold size_of in *. simpl. intros [<-|Hin]; [simpl; lia|].
  apply IH in Hin. lia.
Qed.

Lemma window_beyond first last n lines : last < n -> window first last (number_from n lines) = [].
Proof.
  intros Hn. unfold window. assert (Hall : forall row, In row (number_from n lines) -> last < row.1)
    by (intros row ?%number_from_bounds; lia).
  induction (number_from n lines) as [|row rows IH]; [done|]. simpl.
  rewrite (proj2 (Z.leb_gt row.1 last)) by (apply Hall; by left). rewrite andb_false_r. apply IH. intros r Hr. apply Hall. by right.
Qed.

(** The loop prints the rows of the window, and finds the line when it is one of them. *)
Lemma excerpt_lines_run first last line lines current found o :
  excerpt_lines first last line current found lines o =
    (Ok (found || existsb (fun row => row.1 =? line) (window first last (number_from (current + 1) lines))),
     written (concat (map (row_pieces line) (window first last (number_from (current + 1) lines)))) o).
Proof.
  revert current found o. induction lines as [|t lines IH]; intros current found o; cbn [excerpt_lines].
  { by rewrite orb_false_r, written_nil. }
  destruct (Z.ltb_spec current last) as [Hlt|Hge].
  - cbn [number_from window List.filter fst]. rewrite (proj2 (Z.leb_le (current + 1) last)) by lia. rewrite andb_true_r.
    destruct (Z.ltb_spec (current + 1) first) as [Hf|Hf].
    + rewrite (proj2 (Z.leb_gt first (current + 1))) by lia. apply IH.
    + rewrite (proj2 (Z.leb_le first (current + 1))) by lia.
      rewrite (run_Ok _ _ _ tt (written (row_pieces line (current + 1, t)) o)) by done. rewrite IH, written_app.
      cbn [existsb map concat fst]. by rewrite orb_assoc.
  - rewrite window_beyond by lia. by rewrite orb_false_r, written_nil.
Qed.

Lemma window_finds first last line n lines :
  first <= line <= last ->
  existsb (fun row => row.1 =? line) (window first last (number_from n lines)) = (n <=? line) && (line <? n + size_of lines).
Proof.
  intros Hl. revert n. induction lines as [|t lines IH]; intros n.
  { change (false = (n <=? line) && (line <? n + 0)). destruct (Z.leb_spec n line), (Z.ltb_spec line (n + 0)); done || lia. }
  unfold size_of in *. cbn [number_from window List.filter fst List.length]. fold (window first last (number_from (n + 1) lines)).
  destruct (Z.eq_dec n line) as [->|Hne].
  - rewrite (proj2 (Z.leb_le first line)), (proj2 (Z.leb_le line last)) by lia. cbn [andb existsb fst]. rewrite Z.eqb_refl, Z.leb_refl.
    symmetry. apply Z.ltb_lt. lia.
  - transitivity (existsb (fun row => row.1 =? line) (window first last (number_from (n + 1) lines))).
    + destruct (_ && _); [|done]. cbn [existsb fst]. by rewrite (proj2 (Z.eqb_neq n line)).
    + rewrite IH. destruct (Z.leb_spec n line), (Z.leb_spec (n + 1) line); try done; try lia.
      cbn [andb]. f_equal. lia.
Qed.

Section Excerpts.
Context `{H : Host} `{T : TextFiles}.

(** the excerpt around a line of a source file that can be read is the lines at most four before and
    four after it, in order and with their numbers, the line itself marked; a line the
    file does not have is reported after them. *)
Theorem source_excerpt_window paths file line module path lines out :
  resolve file module paths = Some path -> f_lines path = Some lines -> in_u64 line -> size_of lines <= u64_max ->
  print_source_excerpt paths file line module out =
    (Ok tt, written (concat (map (row_pieces line) (window (line - 4) (line + 4) (number_from 1 lines))) ++
                     (if (1 <=? line) && (line <=? size_of lines) then []
                      else [Str "source unavailable: "; Str path; Str ":"; Num line; Str " is outside the file"; Str nl])) out).
Proof.
  unfold in_u64. intros Hr Hl Hline Hsize. unfold print_source_excerpt. rewrite Hr, Hl.
  assert (Hw : window (excerpt_first line) (excerpt_last line) (number_from 1 lines) =
               window (line - 4) (line + 4) (number_from 1 lines)).
  { unfold window. apply List.filter_ext_in. intros row Hin%number_from_bounds. unfold excerpt_first, excerpt_last, kSourceContextRadius.
    apply eq_iff_eq_true. rewrite !andb_true_iff, !Z.leb_le.
    destruct (Z.ltb_spec 4 line), (Z.ltb_spec (u64_max - 4) line); lia. }
  rewrite (run_Ok _ _ _ _ _ (excerpt_lines_run _ _ _ _ _ _ _)). change (0 + 1) with 1. rewrite Hw, window_finds by lia.
  cbn [orb]. replace (line <? 1 + size_of lines) with (line <=? size_of lines)
    by (apply eq_iff_eq_true; rewrite Z.leb_le, Z.ltb_lt; lia).
  destruct (_ && _); cbn [negb mwhen].
  - by rewrite app_nil_r.
  - by rewrite write_run, written_app.
Qed.
End Excerpts.

(** ** Numbers typed back *)

Lemma plain_padded s : padded plain_format s = s.
Proof. done. Qed.

(** The numbers the program prints are numbers its commands take: a frame or inline index in
    decimal, an address printed with [0x], and the decimal identifier of a thread. *)
Theorem printed_numbers_parse z :
  in_u64 z ->
  parse_frame_index (pieces_text plain_format [Num z]) = Ok z /\
  parse_memory_address (pieces_text plain_format (hex_pieces z)) = Ok z /\
  (0 < z <= pid_max -> parse_thread_tid (pieces_text plain_format [Int z]) = Ok z).
Proof.
  intros Hz. pose proof Hz as Hz'. unfold in_u64 in Hz'.
  assert (Hd : pieces_text plain_format [Num z] = radix 10 z) by apply append_nil_r.
  assert (Hh : pieces_text plain_format (hex_pieces z) = "0x" +:+ radix 16 z)
    by (unfold hex_pieces; cbn; by rewrite append_nil_r).
  split; [|split].
  - rewrite Hd. unfold parse_frame_index. rewrite stoull_decimal by done. cbn [mbind res_bind].
    by rewrite Nat.eqb_refl.
  - rewrite Hh. unfold parse_memory_address. rewrite stoull_hexadecimal by done. cbn [mbind res_bind].
    rewrite Nat.eqb_refl. by rewrite (proj2 (Z.ltb_ge u64_max z)) by lia.
  - unfold pid_max. intros Hp. assert (Hi : pieces_text plain_format [Int z] = radix 10 z).
    { cbn [pieces_text piece_text]. rewrite append_nil_r, plain_padded. unfold signed_text. cbn [f_hex plain_format].
      by rewrite (proj2 (Z.ltb_ge z 0)) by lia. }
    rewrite Hi. unfold parse_thread_tid. rewrite stoll_decimal by (unfold i64_max; lia). cbn [mbind res_bind].
    rewrite Nat.eqb_refl, (proj2 (Z.leb_gt z 0)), (proj2 (Z.ltb_ge pid_max z)) by (unfold pid_max; lia). done.
Qed.

(** ** The program's arguments *)

(** The options as a user gives them. *)
Inductive cli_option :=
  | SubstituteModulePath (from to : string)
  | DebugFileFor (module file : string)
  | SubstituteSourcePath (from to : string).

Definition option_words (o : cli_option) : list string :=
  match o with
  | SubstituteModulePath from to => ["--substitute-module-path"; from; to]
  | DebugFileFor module file => ["--debug-file"; module; file]
  | SubstituteSourcePath from to => ["--substitute-source-path"; from; to]
  end.

(** The resolvers with an option added. *)
Definition apply_option (r : SnapshotModulePathResolver * SourcePathResolver) (o : cli_option)
    : res (SnapshotModulePathResolver * SourcePathResolver) :=
  match o with
  | SubstituteModulePath from to => m ← add_module_substitution from to r.1; Ok (m, r.2)
  | DebugFileFor module file => m ← add_debug_file module file r.1; Ok (m, r.2)
  | SubstituteSourcePath from to => s ← add_substitution from to r.2; Ok (r.1, s)
  end.

Fixpoint apply_options (r : SnapshotModulePathResolver * SourcePathResolver) (l : list cli_option)
    : res (SnapshotModulePathResolver * SourcePathResolver) :=
  match l with [] => Ok r | o :: l => r ← apply_option r o; apply_options r l end.

(** The loop applies the options in order, whatever follows them. *)
Lemma core_options_applies options rest r :
  core_options (concat (map option_words options) ++ rest) r.1 r.2 =
    (r ← apply_options r options; core_options rest r.1 r.2).
Proof.
  revert r. induction options as [|o options IH]; intros r; [done|]. cbn [map concat apply_options].
  destruct o as [from to|module file|from to]; cbn [option_words app core_options apply_option];
    cbn [String.eqb Ascii.eqb Bool.eqb orb].
  - destruct (add_module_substitution from to r.1) as [m| | |]; try done. apply (IH (m, r.2)).
  - destruct (add_debug_file module file r.1) as [m| | |]; try done. apply (IH (m, r.2)).
  - destruct (add_substitution from to r.2) as [s| | |]; try done. apply (IH (r.1, s)).
Qed.

(** What no option begins: too few words, or another first word. *)
Definition no_option (rest : list string) : Prop := forall o more, rest <> option_words o ++ more.

Lemma core_options_stops rest r :
  no_option rest -> core_options rest r.1 r.2 = Ok None \/ core_options rest r.1 r.2 = Ok (Some (r.1, r.2, rest)).
Proof.
  intros Hn. destruct rest as [|option [|from [|to rest]]]; cbn [core_options]; [by right..|destruct (_ || _); auto|].
  destruct (String.eqb_spec option "--substitute-module-path") as [->|_]; [by destruct (Hn (SubstituteModulePath from to) rest)|].
  destruct (String.eqb_spec option "--debug-file") as [->|_]; [by destruct (Hn (DebugFileFor from to) rest)|].
  destruct (String.eqb_spec option "--substitute-source-path") as [->|_]; [by destruct (Hn (SubstituteSourcePath from to) rest)|].
  by right.
Qed.

(** An option at the front, or none. *)
Lemma option_or_not rest : (exists o more, rest = option_words o ++ more) \/ no_option rest.
Proof.
  destruct rest as [|option [|from [|to rest]]]; [by right; intros [] ?..|].
  destruct (decide (option = "--substitute-module-path")) as [->|H1]; [left; by exists (SubstituteModulePath from to), rest|].
  destruct (decide (option = "--debug-file")) as [->|H2]; [left; by exists (DebugFileFor from to), rest|].
  destruct (decide (option = "--substitute-source-path")) as [->|H3]; [left; by exists (SubstituteSourcePath from to), rest|].
  right. intros [] more [=]; congruence.
Qed.

(** The loop over the options of any arguments: all are accepted, or one is not. *)
Lemma options_split fuel arguments r :
  (length arguments <= fuel)%nat ->
  (exists options rest r', arguments = concat (map option_words options) ++ rest /\ apply_options r options = Ok r' /\ no_option rest) \/
  (exists options o rest r', arguments = concat (map option_words options) ++ option_words o ++ rest /\
     apply_options r options = Ok r' /\ forall r'', apply_option r' o <> Ok r'').
Proof.
  revert arguments r. induction fuel as [|fuel IH]; intros arguments r Hf.
  { destruct arguments; [|simpl in Hf; lia]. left. exists [], [], r. by split; [|split; [|intros []]]. }
  destruct (option_or_not arguments) as [(o & more & ->)|Hn]; [|left; by exists [], arguments, r].
  destruct (apply_option r o) as [r1|e|w|] eqn:Ea; [|right; exists [], o, more, r; split; [done|]; split; [done|]; congruence..].
  assert (Hl : (length more <= fuel)%nat) by (rewrite length_app in Hf; destruct o; simpl in Hf; lia).
  destruct (IH more r1 Hl) as [(options & rest & r' & -> & Ho & Hn)|(options & o' & rest & r' & -> & Ho & Hn)].
  - left. exists (o :: options), rest, r'. cbn [map concat apply_options]. rewrite <- app_assoc. by rewrite Ea.
  - right. exists (o :: options), o', rest, r'. cbn [map concat apply_options]. rewrite <- app_assoc. by rewrite Ea.
Qed.

Lemma core_options_option o rest r :
  core_options (option_words o ++ rest) r.1 r.2 = (r' ← apply_option r o; core_options rest r'.1 r'.2).
Proof. pose proof (core_options_applies [o] rest r) as E. cbn [map concat apply_options] in E. rewrite app_nil_r in E. rewrite E. by destruct (apply_option r o). Qed.

Section Main.
Context `{H : Host} `{F : FileAccess} `{T : TextFiles} `{L : LocalInspection}.

Definition fresh_console : console := mkConsole empty_stream empty_stream.

(** [arguments] are options with their values and the path of a core. *)
Definition well_formed (arguments : list string) (options : list cli_option) (core_path : string) : Prop :=
  arguments = concat (map option_words options) ++ [core_path].

(** A session on a core that opened: no exception ends it. *)
Lemma print_frame_catches session frame out e : fst (print_frame session frame out) <> Throw e.
Proof.
  unfold print_frame. rewrite (run_Ok _ _ _ tt _ (write_run _ _)).
  assert (Ht : forall (m : M ostream unit) (f : unit -> M ostream unit) o,
    (forall o', fst (f tt o') <> Throw e) -> fst ((_ ← mtry m; f tt) o) <> Throw e).
  { intros m f o Hf. unfold mtry, mcatch, mbind, M_bind. destruct (m o) as [[[]|e'|w|] o']; [apply Hf|apply Hf|done..]. }
  apply (Ht _ (fun _ => _ ← mtry _; write [Str nl])). intros o'. by apply (Ht _ (fun _ => write [Str nl])).
Qed.

Lemma opened_selected address core_path m max session :
  open_session address core_path m max = Ok session -> exists frame, selected_frame session = Ok frame.
Proof.
  unfold open_session. intros (? & _ & E)%bind_Ok. cbv zeta in E. do 3 (apply bind_Ok in E as (? & _ & E)).
  apply bind_Ok in E as (? & Hv & [= <-]). unfold validate_trace in Hv. unfold selected_frame.
  cbn [cs_trace cs_selected_frame] in *. destruct (trace_frames _) as [|front rest]; [done|]. by exists front.
Qed.

Lemma run_session_opened address core_path m s lines out session :
  open_session address core_path m 64 = Ok session ->
  match fst (run_session address core_path m s lines out) with
  | Ok z => z = 0
  | Throw _ => False
  | Undef _ | OutOfFuel => True
  end.
Proof.
  intros Ho. destruct (opened_selected _ _ _ _ _ Ho) as [frame Hf]. unfold run_session. rewrite Ho, run_lift_Ok.
  rewrite (run_Ok _ _ _ tt _ (write_run _ _)), Hf, run_lift_Ok. unfold mbind, M_bind.
  match goal with |- context [print_frame session frame ?o] => pose proof (print_frame_catches session frame o) as Hp end.
  destruct (print_frame session frame _) as [[[]|e|w|] out1]; [|by destruct (Hp e)|done..].
  unfold run_loop. pose proof (command_loop_catches s lines (mkCoreCli session out1)) as Hc.
  destruct (command_loop s lines _) as [[[]|e|w|] c]; simpl in *; [done|by destruct (Hc e)|done..].
Qed.

Lemma run_session_refused address core_path m s lines out e :
  open_session address core_path m 64 = Throw e -> run_session address core_path m s lines out = (Throw e, out).
Proof. intros Ho. unfold run_session. by rewrite Ho. Qed.

(** How the program ends: the status, and what is on the standard error stream. *)
Definition usage_text : list piece :=
  [Str ("usage: mdbg-core [--substitute-module-path <recorded-prefix> <local-prefix>]... " +:+
    "[--debug-file <recorded-module> <local-debug-file>]... " +:+
    "[--substitute-source-path <recorded-prefix> <local-prefix>]... <core-file>" +:+ nl)].
Definition complaint (e : exn) : list piece := [Str "mdbg-core: "; Str (exn_what e); Str nl].

Inductive core_ending (address : Z) (arguments : list string) : Z -> list piece -> Prop :=
  | ending_session options core_path r session :
      well_formed arguments options core_path -> apply_options (no_module_paths, []) options = Ok r ->
      open_session address core_path r.1 64 = Ok session ->
      core_ending address arguments 0 []
  | ending_core options core_path r e :
      well_formed arguments options core_path -> apply_options (no_module_paths, []) options = Ok r ->
      open_session address core_path r.1 64 = Throw e -> core_ending address arguments 1 (complaint e)
  | ending_option options option rest r e :
      arguments = concat (map option_words options) ++ option_words option ++ rest ->
      apply_options (no_module_paths, []) options = Ok r -> apply_option r option = Throw e ->
      core_ending address arguments 1 (complaint e)
  | ending_usage options rest r :
      arguments = concat (map option_words options) ++ rest -> no_option rest -> length rest <> 1%nat ->
      apply_options (no_module_paths, []) options = Ok r -> core_ending address arguments 2 usage_text.

Lemma core_options_run arguments options rest r :
  arguments = concat (map option_words options) ++ rest -> apply_options (no_module_paths, []) options = Ok r ->
  core_options arguments no_module_paths [] = core_options rest r.1 r.2.
Proof.
  intros -> Ha. pose proof (core_options_applies options rest (no_module_paths, [])) as E. cbn [fst snd] in E. by rewrite E, Ha.
Qed.

(** What the program does with each of them. *)
Lemma core_main_ends address arguments lines status text :
  core_ending address arguments status text ->
  let '(r, c) := core_main address arguments lines fresh_console in
  con_err c = written text empty_stream /\ (status <> 0 -> r = Ok status /\ con_out c = empty_stream) /\
  match r with Ok z => z = status | Throw _ => False | Undef _ | OutOfFuel => True end.
Proof.
  intros [options core_path r session Hw Ha Ho|options core_path r e Hw Ha Ho|options option rest r e Hw Ha Ho|options rest r Hw Hn Hl Ha];
    unfold core_main, mcatch; rewrite (core_options_run _ _ _ _ Hw Ha).
  - cbn [core_options]. rewrite run_lift_Ok. unfold on_stdout, zoom. cbn [con_out fresh_console].
    pose proof (run_session_opened address core_path r.1 r.2 lines empty_stream session Ho) as Hr.
    destruct (run_session _ _ _ _ _ _) as [[z|e|w|] out]; [|done|by split..]. by rewrite Hr.
  - cbn [core_options]. rewrite run_lift_Ok. unfold on_stdout, zoom. cbn [con_out fresh_console].
    by rewrite (run_session_refused _ _ _ _ _ _ e Ho).
  - rewrite core_options_option, Ho. done.
  - destruct (core_options_stops rest r Hn) as [-> | ->]; rewrite run_lift_Ok; [done|].
    by destruct rest as [|? [|? ?]].
Qed.

(** C28: No exception leaves the program, and what it was given decides how it ends, whatever lines
    are read.  The status is 0, with nothing on the standard error stream, exactly when the
    arguments are options that are all accepted, in their order, and the path of a core that
    opens.  It is 1 exactly when an option or the core is refused by an exception, whose text is
    on the standard error stream.  It is 2 exactly when the options are accepted but not
    followed by one path, with the usage there; unless a session was run nothing is on the
    standard output.  A session that runs into undefined behaviour has no status. *)
Theorem core_main_status address arguments lines :
  let '(r, c) := core_main address arguments lines fresh_console in
  (forall e, r <> Throw e) /\
  (forall status, r = Ok status -> exists text, core_ending address arguments status text) /\
  (forall status text, core_ending address arguments status text ->
     con_err c = written text empty_stream /\ (forall z, r = Ok z -> z = status) /\
     (status <> 0 -> r = Ok status /\ con_out c = empty_stream)).
Proof.
  pose proof (core_main_ends address arguments lines) as He.
  destruct (core_main address arguments lines fresh_console) as [r c] eqn:E.
  assert (Hsome : (exists status text, core_ending address arguments status text) \/ (forall e, r <> Throw e) /\ (forall z, r <> Ok z)).
  { destruct (options_split (length arguments) arguments (no_module_paths, []) (le_n _))
      as [(options & rest & r' & Hw & Ha & Hn)|(options & o & rest & r' & Hw & Ha & Hn)].
    - destruct (decide (length rest = 1%nat)) as [Hl|Hl]; [|left; exists 2, usage_text; by apply (ending_usage _ _ options rest r')].
      destruct rest as [|core_path [|? ?]]; try done.
      destruct (open_session address core_path r'.1 64) as [session|e|w|] eqn:Ho.
      + left. exists 0, []. by apply (ending_session _ _ options core_path r' session).
      + left. exists 1, (complaint e). by apply (ending_core _ _ options core_path r').
      + right. unfold core_main, mcatch in E. rewrite (core_options_run _ _ _ _ Hw Ha) in E. cbn [core_options] in E.
        rewrite run_lift_Ok in E. unfold on_stdout, zoom, run_session in E. rewrite Ho in E. by injection E as <- <-.
      + right. unfold core_main, mcatch in E. rewrite (core_options_run _ _ _ _ Hw Ha) in E. cbn [core_options] in E.
        rewrite run_lift_Ok in E. unfold on_stdout, zoom, run_session in E. rewrite Ho in E. by injection E as <- <-.
    - unfold core_main, mcatch in E. rewrite (core_options_run _ _ _ _ Hw Ha), core_options_option in E.
      destruct (apply_option r' o) as [r''|e|w|] eqn:Ho; [by destruct (Hn r'')| |right; by injection E as <- <-..].
      left. exists 1, (complaint e). by apply (ending_option _ _ options o rest r'). }
  split; [|split].
  - destruct Hsome as [(status & text & Hs)|[Ht _]]; [|done]. destruct (He status text Hs) as (_ & _ & Hr). by intros e ->.
  - intros status ->. destruct Hsome as [(status' & text & Hs)|[_ Ho]]; [|by destruct (Ho status)].
    destruct (He status' text Hs) as (_ & _ & ->). by exists text.
  - intros status text Hs. destruct (He status text Hs) as (H1 & H2 & H3). split; [done|]. split; [|done].
    by intros z ->.
Qed.
End Main.

(** ** On a concrete core *)

(** One source file of six lines. *)
Definition DemoText : TextFiles := {|
  f_lines path := if String.eqb path "/src/a.c" then Some ["one"; "two"; "three"; "four"; "five"; "six"] else None
|}.

(** No other file can be read piece by piece. *)
Definition NoFiles : FileAccess := {| f_stream _ := None; f_size _ := None; f_read_at _ _ _ := None |}.

Definition demo_lines : list string :=
  ["frame 2"; "inline 0"; "locals"; " p  v"; "x 0x1000 4"; "frame 9"; "frame 1x"; "bogus"; "q"; "threads"].

Definition demo_transcript : list string :=
  ["core> selected frame 2"; "* #2 0x1010 /a";
   "core> selected inline 0"; "* inline 0 /a!callee called at /src/a.c:3:1";
   "core> parameter y"; "core> /a!v = 0x9 [4-byte signed]"; "core> 0x1000: 00 00 00 00 [core]";
   "core> error: core frame index is out of range"; "core> error: invalid core frame index: 1x";
   "core> unsupported in core session: bogus"; "core> "].

Notation demo_loop :=
  (command_loop (H := DemoSessionHost) (F := NoFiles) (T := DemoText) (L := DemoLocals) [] demo_lines (mkCoreCli demo_session empty_stream)).

Example demo_loop_prints : lines_of (os_text (cc_out (snd demo_loop))) = demo_transcript.
Proof. vm_compute. reflexivity. Qed.

Lemma command_loop_read_only_witness :
  session_reachable (H := DemoSessionHost) (L := DemoLocals) (cc_session (snd demo_loop)) /\
  neutral (os_format (cc_out (snd demo_loop))).
Proof.
  assert (Hmax : 0 <= 8) by lia.
  pose proof (session_opened (H := DemoSessionHost) (L := DemoLocals) 1 "core" no_module_paths 8 demo_session Hmax demo_session_opens) as Hr.
  assert (Hn : neutral (os_format empty_stream)) by (split; [reflexivity|split; reflexivity]).
  pose proof (command_loop_read_only (H := DemoSessionHost) (F := NoFiles) (T := DemoText) (L := DemoLocals) [] demo_lines demo_session empty_stream Hr Hn) as Hl.
  destruct demo_loop as [r c]. destruct Hl as (_ & Hs & _ & Hg & _). split; [exact Hs|exact Hg].
Defined.

Lemma source_excerpt_window_witness :
  lines_of (os_text (snd (print_source_excerpt (H := DemoSessionHost) (T := DemoText) [] "/src/a.c" 6 "/a" empty_stream))) =
    ["       2 | two"; "       3 | three"; "       4 | four"; "       5 | five"; "=>     6 | six"].
Proof.
  rewrite (source_excerpt_window (H := DemoSessionHost) (T := DemoText) [] "/src/a.c" 6 "/a" "/src/a.c"
    ["one"; "two"; "three"; "four"; "five"; "six"] empty_stream);
    [vm_compute; reflexivity|vm_compute; reflexivity|reflexivity|unfold in_u64, u64_max; lia|vm_compute; congruence].
Defined.

Lemma printed_numbers_parse_witness :
  pieces_text plain_format (hex_pieces 4096) = "0x1000" /\ parse_memory_address "0x1000" = Ok 4096.
Proof.
  destruct (printed_numbers_parse 4096) as (_ & Hp & _); [unfold in_u64, u64_max; lia|].
  assert (E : pieces_text plain_format (hex_pieces 4096) = "0x1000") by (vm_compute; reflexivity).
  rewrite E in Hp. split; [exact E|exact Hp].
Defined.
