(* ===== verification/DebugTypes.v ===== *)
(** * Types of source variables ([src/dwarf/source_lookup_impl.inc])

    The types a value can be inspected with, resolved from the entries of a unit: integers,
    enumerations, bit fields, unions, fixed arrays, structures with members and one level of
    nested structures, and pointers.  Every resolver follows typedefs and [const] for at
    most 16 entries and throws on what is outside its bounds. *)

From S2P Require Import Prelude Machine ByteReader ElfFormat LocalValue DebugInfo.

(* src/dwarf/source_lookup_impl.inc:29-29 kDwTagArrayType *)
Definition kDwTagArrayType : Z := 0x01.
(* src/dwarf/source_lookup_impl.inc:30-30 kDwTagEnumerationType *)
Definition kDwTagEnumerationType : Z := 0x04.
(* src/dwarf/source_lookup_impl.inc:32-32 kDwTagMember *)
Definition kDwTagMember : Z := 0x0d.
(* src/dwarf/source_lookup_impl.inc:34-34 kDwTagPointerType *)
Definition kDwTagPointerType : Z := 0x0f.
(* src/dwarf/source_lookup_impl.inc:35-35 kDwTagStructureType *)
Definition kDwTagStructureType : Z := 0x13.
(* src/dwarf/source_lookup_impl.inc:36-36 kDwTagTypedef *)
Definition kDwTagTypedef : Z := 0x16.
(* src/dwarf/source_lookup_impl.inc:37-37 kDwTagUnionType *)
Definition kDwTagUnionType : Z := 0x17.
(* src/dwarf/source_lookup_impl.inc:39-39 kDwTagSubrangeType *)
Definition kDwTagSubrangeType : Z := 0x21.
(* src/dwarf/source_lookup_impl.inc:40-40 kDwTagBaseType *)
Definition kDwTagBaseType : Z := 0x24.
(* src/dwarf/source_lookup_impl.inc:41-41 kDwTagConstType *)
Definition kDwTagConstType : Z := 0x26.
(* src/dwarf/source_lookup_impl.inc:42-42 kDwTagEnumerator *)
Definition kDwTagEnumerator : Z := 0x28.
(* src/dwarf/source_lookup_impl.inc:48-48 kDwAtByteSize *)
Definition kDwAtByteSize : Z := 0x0b.
(* src/dwarf/source_lookup_impl.inc:49-49 kDwAtBitOffset *)
Definition kDwAtBitOffset : Z := 0x0c.
(* src/dwarf/source_lookup_impl.inc:50-50 kDwAtBitSize *)
Definition kDwAtBitSize : Z := 0x0d.
(* src/dwarf/source_lookup_impl.inc:51-51 kDwAtConstValue *)
Definition kDwAtConstValue : Z := 0x1c.
(* src/dwarf/source_lookup_impl.inc:54-54 kDwAtLowerBound *)
Definition kDwAtLowerBound : Z := 0x22.
(* src/dwarf/source_lookup_impl.inc:55-55 kDwAtUpperBound *)
Definition kDwAtUpperBound : Z := 0x2f.
(* src/dwarf/source_lookup_impl.inc:57-57 kDwAtCount *)
Definition kDwAtCount : Z := 0x37.
(* src/dwarf/source_lookup_impl.inc:58-58 kDwAtDataMemberLocation *)
Definition kDwAtDataMemberLocation : Z := 0x38.
(* src/dwarf/source_lookup_impl.inc:59-59 kDwAtEncoding *)
Definition kDwAtEncoding : Z := 0x3e.
(* src/dwarf/source_lookup_impl.inc:61-61 kDwAtType *)
Definition kDwAtType : Z := 0x49.
(* src/dwarf/source_lookup_impl.inc:62-62 kDwAtDataBitOffset *)
Definition kDwAtDataBitOffset : Z := 0x6b.
(* src/dwarf/source_lookup_impl.inc:121-121 kDwAteSigned *)
Definition kDwAteSigned : Z := 0x05.
(* src/dwarf/source_lookup_impl.inc:122-122 kDwAteUnsigned *)
Definition kDwAteUnsigned : Z := 0x07.
(* src/dwarf/source_lookup_impl.inc:123-123 kMaxLocalStructSize *)
Definition kMaxLocalStructSize : Z := 256.
(* src/dwarf/source_lookup_impl.inc:124-124 kMaxLocalStructMembers *)
Definition kMaxLocalStructMembers : Z := 32.
(* src/dwarf/source_lookup_impl.inc:125-125 kMaxLocalArrayElements *)
Definition kMaxLocalArrayElements : Z := 64.
(* src/dwarf/source_lookup_impl.inc:126-126 kMaxLocalEnumEntries *)
Definition kMaxLocalEnumEntries : Z := 64.

(* src/dwarf/source_lookup_impl.inc:167-170 IntegerType *)
Record IntegerType := mkInteger { it_byte_size : Z; it_is_signed : bool }.

(** ** Parts the resolvers share *)

(** The turns of [for (unsigned depth = 0; depth < 16; ++depth)]. *)
Definition kTypeChain : nat := 16.

(** What the type chain of a resolver says when it cannot be followed. *)
Record chain_messages := mkChain { cm_unknown : string; cm_wrapper : string; cm_deep : string }.

(** A type entry with its offset and index. *)
Record type_entry := mkTypeEntry { te_offset : Z; te_index : nat; te_die : Die }.

(** The entry behind typedefs and [const]; [depth] turns of the loop are left. *)
(* src/dwarf/source_lookup_impl.inc:821-833 resolve_integer_type *)
Fixpoint type_chain (depth : nat) (m : chain_messages) (dies : list Die) (type_offset : Z) : res type_entry :=
  match depth with
  | O => runtime_error (cm_deep m)
  | S depth =>
    match die_index_by_offset dies type_offset with
    | None => runtime_error (cm_unknown m)
    | Some index =>
      die ← die_at dies index;
      if (die_tag die =? kDwTagTypedef) || (die_tag die =? kDwTagConstType) then
        match attribute die kDwAtType with
        | None => runtime_error (cm_wrapper m)
        | Some type =>
          _ ← throw_if (negb (av_form type =? kDwFormRef4)) (Exn RuntimeError (cm_wrapper m));
          type_chain depth m dies (av_number type)
        end
      else Ok (mkTypeEntry type_offset index die)
    end
  end.

(** The entries whose parent is the one at [index], in their order. *)
(* src/dwarf/source_lookup_impl.inc:937-939 resolve_bounded_enum_type *)
Definition children_of (dies : list Die) (index : nat) : list Die :=
  List.filter (fun die => bool_decide (die_parent die = Some index)) dies.

(** [attribute(die, name)] when it is there with a text that is not empty. *)
Definition name_of (die : Die) : option string :=
  match attribute die kDwAtName with
  | Some name => if String.eqb (av_text name) EmptyString then None else Some (av_text name)
  | None => None
  end.

(** The offset of the type of an entry, when it is a [DW_FORM_ref4]. *)
Definition type_of (die : Die) : option Z :=
  match attribute die kDwAtType with
  | Some type => if av_form type =? kDwFormRef4 then Some (av_number type) else None
  | None => None
  end.

(** [if (!value) throw std::runtime_error(msg);] *)
Definition require {A} (value : option A) (msg : string) : res A :=
  match value with Some a => Ok a | None => runtime_error msg end.

(** ** Integers *)

(* src/dwarf/source_lookup_impl.inc:820-849 resolve_integer_type *)
Definition resolve_integer_type (dies : list Die) (type_offset : Z) : res IntegerType :=
  entry ← type_chain kTypeChain
            (mkChain "local variable type references an unknown DIE"
                     "local type wrapper does not use the supported DW_FORM_ref4 type link"
                     "local variable typedef/const chain is too deep") dies type_offset;
  let die := te_die entry in
  _ ← throw_if (negb (die_tag die =? kDwTagBaseType))
        (Exn RuntimeError "local variable type is not a supported typedef/const/base-type chain");
  match attribute die kDwAtByteSize, attribute die kDwAtEncoding with
  | Some size, Some encoding =>
    _ ← throw_if ((av_number size =? 0) || (8 <? av_number size))
          (Exn RuntimeError "local integer base type has an unsupported byte size");
    _ ← throw_if (negb (av_number encoding =? kDwAteSigned) && negb (av_number encoding =? kDwAteUnsigned))
          (Exn RuntimeError "local base type is not a supported signed/unsigned integer");
    Ok (mkInteger (av_number size) (av_number encoding =? kDwAteSigned))
  | _, _ => runtime_error "local integer base type has an unsupported byte size"
  end.

(** ** Enumerations *)

(* src/dwarf/source_lookup_impl.inc:851-855 bounded_enum_constant_form *)
Definition bounded_enum_constant_form (form : Z) : bool :=
  (form =? kDwFormData1) || (form =? kDwFormData2) || (form =? kDwFormData4) || (form =? kDwFormData8) ||
  (form =? kDwFormUdata) || (form =? kDwFormImplicitConst).

(* src/dwarf/source_lookup_impl.inc:857-865 bounded_enum_raw_value *)
Definition bounded_enum_raw_value (value byte_size : Z) : res Z :=
  _ ← throw_if ((byte_size =? 0) || (8 <? byte_size)) (Exn LogicError "bounded enum scalar width is out of range");
  if byte_size =? 8 then Ok value
  else Ok (Z.land value (u64 (Z.shiftl 1 (byte_size * 8)) - 1)).

(** Whether the values are signed, from the encoding of the enumeration or its underlying type. *)
(* src/dwarf/source_lookup_impl.inc:898-934 resolve_bounded_enum_type *)
Definition enum_signedness (dies : list Die) (die : Die) (byte_size : Z) : res bool :=
  match attribute die kDwAtEncoding with
  | Some encoding =>
    _ ← throw_if (negb (av_number encoding =? kDwAteSigned) && negb (av_number encoding =? kDwAteUnsigned))
          (Exn RuntimeError "bounded enum direct encoding is not signed/unsigned integer");
    let is_signed := av_number encoding =? kDwAteSigned in
    match attribute die kDwAtType with
    | None => Ok is_signed
    | Some underlying_ref =>
      _ ← throw_if (negb (av_form underlying_ref =? kDwFormRef4))
            (Exn RuntimeError "bounded enum underlying type does not use DW_FORM_ref4");
      underlying ← resolve_integer_type dies (av_number underlying_ref);
      _ ← throw_if (negb (it_byte_size underlying =? byte_size) || negb (Bool.eqb (it_is_signed underlying) is_signed))
            (Exn RuntimeError "bounded enum direct and underlying representations disagree");
      Ok is_signed
    end
  | None =>
    underlying_ref ← require (type_of die) "bounded enum has no compiler-described integer representation";
    underlying ← resolve_integer_type dies underlying_ref;
    _ ← throw_if (negb (it_byte_size underlying =? byte_size))
          (Exn RuntimeError "bounded enum byte size disagrees with its underlying type");
    Ok (it_is_signed underlying)
  end.

(** One enumerator after those before it. *)
(* src/dwarf/source_lookup_impl.inc:939-973 resolve_bounded_enum_type *)
Definition add_enumerator (byte_size : Z) (is_signed : bool) (enumerators : list LocalEnumEntry) (child : Die)
    : res (list LocalEnumEntry) :=
  _ ← throw_if (negb (die_tag child =? kDwTagEnumerator))
        (Exn RuntimeError "bounded enum has an unsupported direct child DIE");
  _ ← throw_if (kMaxLocalEnumEntries <=? size_of enumerators)
        (Exn RuntimeError "bounded enum exceeds the 64-entry table");
  entry_name ← require (name_of child) "bounded enumerator has no supported name";
  let bad := "bounded enumerator has no supported constant value" in
  constant ← require (attribute child kDwAtConstValue) bad;
  _ ← throw_if (negb (bounded_enum_constant_form (av_form constant))) (Exn RuntimeError bad);
  raw ← bounded_enum_raw_value (av_number constant) byte_size;
  _ ← throw_if (negb is_signed && negb (raw =? av_number constant))
        (Exn RuntimeError "bounded unsigned enumerator exceeds enum storage width");
  _ ← throw_if (existsb (fun existing => String.eqb (ee_name existing) entry_name) enumerators)
        (Exn RuntimeError "bounded enum has duplicate enumerator names");
  Ok (enumerators ++ [mkEnumEntry entry_name raw]).

(** A loop over the children that adds to what is there already. *)
Fixpoint add_all {A B} (add : list B -> A -> res (list B)) (l : list B) (children : list A) : res (list B) :=
  match children with
  | [] => Ok l
  | child :: children => l ← add l child; add_all add l children
  end.

(* src/dwarf/source_lookup_impl.inc:867-981 resolve_bounded_enum_type *)
Definition resolve_bounded_enum_type (dies : list Die) (type_offset : Z) : res (option LocalEnumType) :=
  entry ← type_chain kTypeChain
            (mkChain "bounded enum type references an unknown DIE" "bounded enum wrapper does not use DW_FORM_ref4"
                     "bounded enum type chain is too deep") dies type_offset;
  let die := te_die entry in
  if negb (die_tag die =? kDwTagEnumerationType) then Ok None
  else
    enum_name ← require (name_of die) "bounded enum has no supported name";
    let bad := "bounded enum has an unsupported scalar byte size" in
    size ← require (attribute die kDwAtByteSize) bad;
    _ ← throw_if ((av_number size =? 0) || (8 <? av_number size)) (Exn RuntimeError bad);
    let byte_size := av_number size in
    is_signed ← enum_signedness dies die byte_size;
    enumerators ← add_all (add_enumerator byte_size is_signed) [] (children_of dies (te_index entry));
    _ ← throw_if (bool_decide (enumerators = [])) (Exn RuntimeError "bounded enum has no direct enumerators");
    Ok (Some (mkEnumType enum_name byte_size is_signed enumerators)).

(** ** Bit fields *)

(* src/dwarf/source_lookup_impl.inc:983-986 is_constant_member_offset_form *)
Definition is_constant_member_offset_form (form : Z) : bool :=
  (form =? kDwFormData1) || (form =? kDwFormData2) || (form =? kDwFormData4) || (form =? kDwFormData8) ||
  (form =? kDwFormSdata).

(** Whether an attribute is there with a form a member offset may have. *)
Definition constant_offset (value : option AttributeValue) : option Z :=
  match value with
  | Some value => if is_constant_member_offset_form (av_form value) then Some (av_number value) else None
  | None => None
  end.

(** The place of a bit field with [DW_AT_bit_offset]: bits are counted from the most
    significant one of its storage unit. *)
(* src/dwarf/source_lookup_impl.inc:1023-1042 resolve_bounded_bit_slice *)
Definition legacy_bit_offset (member : Die) (bit_offset : AttributeValue) (bit_size : Z) (integer : IntegerType)
    (struct_size : Z) : res Z :=
  let bad := "structure legacy bit-field has unsupported storage offset" in
  byte_offset ← require (constant_offset (attribute member kDwAtDataMemberLocation)) bad;
  _ ← throw_if (negb (is_constant_member_offset_form (av_form bit_offset)) || (struct_size <? byte_offset))
        (Exn RuntimeError bad);
  let storage_bits := it_byte_size integer * 8 in
  _ ← throw_if ((storage_bits <? av_number bit_offset) || (storage_bits - av_number bit_offset <? bit_size))
        (Exn RuntimeError "structure legacy bit-field exceeds its base storage unit");
  Ok (byte_offset * 8 + (storage_bits - av_number bit_offset - bit_size)).

(* src/dwarf/source_lookup_impl.inc:1008-1042 resolve_bounded_bit_slice *)
Definition absolute_bit_offset (member : Die) (bit_size : Z) (integer : IntegerType) (struct_size : Z) : res Z :=
  let one := "structure bit-field requires exactly one compiler bit location" in
  match attribute member kDwAtBitOffset, attribute member kDwAtDataBitOffset with
  | None, None | Some _, Some _ => runtime_error one
  | None, Some data_bit_offset =>
    _ ← throw_if (bool_decide (is_Some (attribute member kDwAtDataMemberLocation)) ||
                  negb (is_constant_member_offset_form (av_form data_bit_offset)))
          (Exn RuntimeError "structure DW_AT_data_bit_offset is unsupported");
    Ok (av_number data_bit_offset)
  | Some bit_offset, None => legacy_bit_offset member bit_offset bit_size integer struct_size
  end.

(* src/dwarf/source_lookup_impl.inc:988-1051 resolve_bounded_bit_slice *)
Definition resolve_bounded_bit_slice (member : Die) (integer : IntegerType) (struct_size : Z)
    : res (option LocalBitSlice) :=
  match attribute member kDwAtBitSize with
  | None =>
    _ ← throw_if (bool_decide (is_Some (attribute member kDwAtBitOffset)) ||
                  bool_decide (is_Some (attribute member kDwAtDataBitOffset)))
          (Exn RuntimeError "structure member has compiler bit location without bit size");
    Ok None
  | Some bit_size =>
    _ ← throw_if (negb (is_constant_member_offset_form (av_form bit_size)) || (av_number bit_size =? 0) ||
                  (it_byte_size integer * 8 <? av_number bit_size))
          (Exn RuntimeError "structure bit-field has unsupported compiler width");
    let width := av_number bit_size in
    bits ← absolute_bit_offset member width integer struct_size;
    let aggregate_bits := struct_size * 8 in
    _ ← throw_if ((aggregate_bits <? bits) || (aggregate_bits - bits <? width))
          (Exn RuntimeError "structure bit-field exceeds aggregate storage");
    Ok (Some (mkBitSlice bits width))
  end.

(** A member with a name, an offset and a size; the other fields keep their initialisers. *)
(* src/dwarf/local_value.hpp:72-82 LocalStructMemberType *)
Definition member_type (name : string) (offset byte_size : Z) (is_signed : bool) (kind : LocalValueKind)
    : LocalStructMemberType := mkMemberType name offset byte_size is_signed kind None None None [].
(* src/dwarf/local_value.hpp:84-91 LocalValueType *)
Definition value_type (byte_size : Z) (is_signed : bool) (kind : LocalValueKind) (members : list LocalStructMemberType)
    : LocalValueType := mkValueType byte_size is_signed kind members None None.

(** Whether a member has one of the attributes of a bit field. *)
(* src/dwarf/source_lookup_impl.inc:1055-1059 resolve_bounded_bit_field_member_type *)
Definition is_bit_field (member : Die) : bool :=
  bool_decide (is_Some (attribute member kDwAtBitSize)) || bool_decide (is_Some (attribute member kDwAtBitOffset)) ||
  bool_decide (is_Some (attribute member kDwAtDataBitOffset)).

(* src/dwarf/source_lookup_impl.inc:1053-1080 resolve_bounded_bit_field_member_type *)
Definition resolve_bounded_bit_field_member_type (dies : list Die) (member : Die) (struct_size : Z)
    : res (option LocalStructMemberType) :=
  if negb (is_bit_field member) then Ok None
  else
    member_name ← require (name_of member) "structure bit-field has no supported name";
    type ← require (type_of member) "structure bit-field has no supported DW_FORM_ref4 type";
    integer ← resolve_integer_type dies type;
    slice ← resolve_bounded_bit_slice member integer struct_size;
    match slice with
    | None => logic_error "bit-field member lost compiler bit-slice metadata"
    | Some slice =>
      Ok (Some (mkMemberType member_name (bs_bit_offset slice / 8) (it_byte_size integer) (it_is_signed integer)
                  KInteger None (Some slice) None []))
    end.

(** ** Unions *)

Definition has_member (name : string) (members : list LocalStructMemberType) : bool :=
  existsb (fun existing => String.eqb (mt_name existing) name) members.

(* src/dwarf/source_lookup_impl.inc:1082-1133 resolve_bounded_union_member_type *)
Definition resolve_bounded_union_member_type (dies : list Die) (member : Die) (union_size : Z)
    : res LocalStructMemberType :=
  member_name ← require (name_of member) "bounded union member has no supported name";
  type ← require (type_of member) "bounded union member has no supported DW_FORM_ref4 type";
  _ ← throw_if match attribute member kDwAtDataMemberLocation with
               | Some offset => negb (is_constant_member_offset_form (av_form offset)) || negb (av_number offset =? 0)
               | None => false
               end
        (Exn RuntimeError "bounded union member does not share storage at offset zero");
  entry ← type_chain kTypeChain
            (mkChain "bounded union member type references an unknown DIE"
                     "bounded union member wrapper does not use DW_FORM_ref4"
                     "bounded union member type chain is too deep") dies type;
  _ ← throw_if (negb (die_tag (te_die entry) =? kDwTagBaseType))
        (Exn RuntimeError "bounded union member is not a bounded integer scalar");
  integer ← resolve_integer_type dies (te_offset entry);
  _ ← throw_if ((it_byte_size integer =? 0) || (8 <? it_byte_size integer) || (union_size <? it_byte_size integer))
        (Exn RuntimeError "bounded union integer member exceeds shared storage");
  Ok (member_type member_name 0 (it_byte_size integer) (it_is_signed integer) KInteger).

(* src/dwarf/source_lookup_impl.inc:1162-1180 resolve_bounded_union_type *)
Definition add_union_member (dies : list Die) (union_size : Z) (members : list LocalStructMemberType) (child : Die)
    : res (list LocalStructMemberType) :=
  _ ← throw_if (negb (die_tag child =? kDwTagMember))
        (Exn RuntimeError "bounded union has an unsupported direct child DIE");
  _ ← throw_if (kMaxLocalStructMembers <=? size_of members)
        (Exn RuntimeError "bounded union has too many direct members");
  resolved ← resolve_bounded_union_member_type dies child union_size;
  _ ← throw_if (has_member (mt_name resolved) members) (Exn RuntimeError "bounded union has duplicate member names");
  Ok (members ++ [resolved]).

(* src/dwarf/source_lookup_impl.inc:1135-1188 resolve_bounded_union_type *)
Definition resolve_bounded_union_type (dies : list Die) (type_offset : Z) : res (option LocalValueType) :=
  entry ← type_chain kTypeChain
            (mkChain "bounded union type references an unknown DIE" "bounded union wrapper does not use DW_FORM_ref4"
                     "bounded union type chain is too deep") dies type_offset;
  let die := te_die entry in
  if negb (die_tag die =? kDwTagUnionType) then Ok None
  else
    let bad := "bounded union has an unsupported byte size" in
    size ← require (attribute die kDwAtByteSize) bad;
    _ ← throw_if ((av_number size =? 0) || (kMaxLocalStructSize <? av_number size)) (Exn RuntimeError bad);
    members ← add_all (add_union_member dies (av_number size)) [] (children_of dies (te_index entry));
    _ ← throw_if match members with [] => true | _ => false end
          (Exn RuntimeError "bounded union has no supported direct members");
    Ok (Some (value_type (av_number size) false KUnion members)).

(** ** Fixed arrays *)

(* src/dwarf/source_lookup_impl.inc:1190-1194 is_bounded_array_bound_form *)
Definition is_bounded_array_bound_form (form : Z) : bool :=
  (form =? kDwFormData1) || (form =? kDwFormData2) || (form =? kDwFormData4) || (form =? kDwFormData8) ||
  (form =? kDwFormUdata) || (form =? kDwFormImplicitConst).

(** The one child of the array, a subrange. *)
(* src/dwarf/source_lookup_impl.inc:1221-1232 resolve_bounded_fixed_array_type *)
Fixpoint find_subrange (subrange : option Die) (children : list Die) : res Die :=
  match children with
  | [] => require subrange "fixed array has no direct subrange"
  | child :: children =>
    _ ← throw_if (negb (die_tag child =? kDwTagSubrangeType) || bool_decide (is_Some subrange))
          (Exn RuntimeError "fixed array requires exactly one direct subrange");
    find_subrange (Some child) children
  end.

(** A bound that is there must have one of the forms. *)
Definition bound_form_is (bound : option AttributeValue) (msg : string) : res unit :=
  throw_if match bound with Some bound => negb (is_bounded_array_bound_form (av_form bound)) | None => false end
    (Exn RuntimeError msg).

(* src/dwarf/source_lookup_impl.inc:1234-1266 resolve_bounded_fixed_array_type *)
Definition array_element_count (range : Die) : res Z :=
  let count := attribute range kDwAtCount in
  let upper := attribute range kDwAtUpperBound in
  _ ← throw_if match attribute range kDwAtLowerBound with
               | Some lower => negb (is_bounded_array_bound_form (av_form lower)) || negb (av_number lower =? 0)
               | None => false
               end
        (Exn RuntimeError "fixed array requires a zero lower bound");
  _ ← bound_form_is count "fixed-array count has an unsupported form";
  _ ← bound_form_is upper "fixed-array upper bound has an unsupported form";
  match count, upper with
  | Some count, Some upper =>
    _ ← throw_if ((av_number upper =? u64_max) || negb (av_number upper + 1 =? av_number count))
          (Exn RuntimeError "fixed-array count conflicts with upper bound");
    Ok (av_number count)
  | Some count, None => Ok (av_number count)
  | None, Some upper =>
    _ ← throw_if (av_number upper =? u64_max) (Exn RuntimeError "fixed-array upper bound overflows element count");
    Ok (av_number upper + 1)
  | None, None => runtime_error "fixed array has no bounded element count"
  end.

(* src/dwarf/source_lookup_impl.inc:1196-1293 resolve_bounded_fixed_array_type *)
Definition resolve_bounded_fixed_array_type (dies : list Die) (type_offset : Z) : res (option LocalValueType) :=
  entry ← type_chain kTypeChain
            (mkChain "fixed-array type references an unknown DIE" "fixed-array wrapper does not use DW_FORM_ref4"
                     "fixed-array type chain is too deep") dies type_offset;
  let die := te_die entry in
  if negb (die_tag die =? kDwTagArrayType) then Ok None
  else
    element_ref ← require (type_of die) "fixed array has no supported element type";
    element ← resolve_integer_type dies element_ref;
    range ← find_subrange None (children_of dies (te_index entry));
    element_count ← array_element_count range;
    _ ← throw_if ((element_count =? 0) || (kMaxLocalArrayElements <? element_count))
          (Exn RuntimeError "fixed-array count exceeds the bounded 64-element model");
    _ ← throw_if ((it_byte_size element =? 0) || (8 <? it_byte_size element) ||
                  (kMaxLocalStructSize / it_byte_size element <? element_count))
          (Exn RuntimeError "fixed-array storage exceeds the bounded scalar-array model");
    let byte_size := element_count * it_byte_size element in
    _ ← throw_if match attribute die kDwAtByteSize with
                 | Some declared_size => negb (av_number declared_size =? byte_size)
                 | None => false
                 end
          (Exn RuntimeError "fixed-array byte size conflicts with its element layout");
    Ok (Some (mkValueType byte_size false KArray []
                (Some (mkArrayType element_count (it_byte_size element) (it_is_signed element) KInteger)) None)).

(** ** Structures *)

(** A member of a nested structure, an integer. *)
(* src/dwarf/source_lookup_impl.inc:1352-1399 resolve_bounded_nested_structure_member_type *)
Definition add_terminal (dies : list Die) (nested_size : Z) (members : list LocalStructMemberType) (terminal : Die)
    : res (list LocalStructMemberType) :=
  _ ← throw_if (negb (die_tag terminal =? kDwTagMember))
        (Exn RuntimeError "nested structure has an unsupported direct child DIE");
  _ ← throw_if (kMaxLocalStructMembers <=? size_of members)
        (Exn RuntimeError "nested structure has too many direct members");
  _ ← throw_if (is_bit_field terminal) (Exn RuntimeError "nested structure terminal bit-fields are unsupported");
  terminal_name ← require (name_of terminal) "nested structure terminal has no supported name";
  terminal_type ← require (type_of terminal) "nested structure terminal has no supported DW_FORM_ref4 type";
  offset ← require (constant_offset (attribute terminal kDwAtDataMemberLocation))
             "nested structure terminal has no supported constant offset";
  integer ← resolve_integer_type dies terminal_type;
  _ ← throw_if ((nested_size <? offset) || (nested_size - offset <? it_byte_size integer))
        (Exn RuntimeError "nested structure terminal exceeds inner storage");
  _ ← throw_if (has_member terminal_name members)
        (Exn RuntimeError "nested structure has duplicate terminal member names");
  Ok (members ++ [member_type terminal_name offset (it_byte_size integer) (it_is_signed integer) KInteger]).

(** The structure behind the type of the member, or nothing when it is of another type. *)
(* src/dwarf/source_lookup_impl.inc:1295-1406 resolve_bounded_nested_structure_member_type *)
Definition resolve_bounded_nested_structure_member_type (dies : list Die) (member : Die) (outer_size : Z)
    : res (option LocalStructMemberType) :=
  match type_of member with
  | None => Ok None
  | Some type =>
    entry ← type_chain kTypeChain
              (mkChain "nested structure member type references an unknown DIE"
                       "nested structure member wrapper does not use DW_FORM_ref4"
                       "nested structure member type chain is too deep") dies type;
    let structure := te_die entry in
    if negb (die_tag structure =? kDwTagStructureType) then Ok None
    else
      member_name ← require (name_of member) "nested structure member has no supported name";
      offset ← require (constant_offset (attribute member kDwAtDataMemberLocation))
                 "nested structure member has no supported constant offset";
      let bad := "nested structure has an unsupported byte size" in
      size ← require (attribute structure kDwAtByteSize) bad;
      _ ← throw_if ((av_number size =? 0) || (kMaxLocalStructSize <? av_number size)) (Exn RuntimeError bad);
      let nested_size := av_number size in
      _ ← throw_if ((outer_size <? offset) || (outer_size - offset <? nested_size))
            (Exn RuntimeError "nested structure exceeds outer aggregate storage");
      members ← add_all (add_terminal dies nested_size) [] (children_of dies (te_index entry));
      _ ← throw_if match members with [] => true | _ => false end
            (Exn RuntimeError "nested structure has no bounded terminal scalar members");
      Ok (Some (mkMemberType member_name offset nested_size false KStructure None None None members))
  end.

(** A member of a structure behind a pointer member. *)
(* src/dwarf/source_lookup_impl.inc:1445-1477 resolve_bounded_pointer_member_pointee_type *)
Definition add_pointee_member (dies : list Die) (struct_size : Z) (members : list LocalPointerPointeeMemberType)
    (member : Die) : res (list LocalPointerPointeeMemberType) :=
  _ ← throw_if (negb (die_tag member =? kDwTagMember))
        (Exn RuntimeError "bounded pointer-member structure pointee has an unsupported direct child");
  _ ← throw_if (kMaxLocalStructMembers <=? size_of members)
        (Exn RuntimeError "bounded pointer-member structure pointee has too many members");
  let bad := "bounded pointer-member structure pointee has unsupported member metadata" in
  name ← require (name_of member) bad;
  type ← require (type_of member) bad;
  offset ← require (constant_offset (attribute member kDwAtDataMemberLocation)) bad;
  integer ← resolve_integer_type dies type;
  _ ← throw_if ((it_byte_size integer =? 0) || (8 <? it_byte_size integer) || (struct_size <? offset) ||
                (struct_size - offset <? it_byte_size integer))
        (Exn RuntimeError "bounded pointer-member structure pointee member exceeds storage");
  Ok (members ++ [mkPointeeMember name offset (it_byte_size integer) (it_is_signed integer) KInteger]).

(* src/dwarf/source_lookup_impl.inc:1408-1487 resolve_bounded_pointer_member_pointee_type *)
Definition resolve_bounded_pointer_member_pointee_type (dies : list Die) (type_offset : Z)
    : res LocalPointerPointeeType :=
  entry ← type_chain kTypeChain
            (mkChain "bounded pointer-member pointee type references an unknown DIE"
                     "bounded pointer-member pointee wrapper does not use DW_FORM_ref4"
                     "bounded pointer-member pointee type chain is too deep") dies type_offset;
  let die := te_die entry in
  if negb (die_tag die =? kDwTagStructureType) then
    integer ← resolve_integer_type dies (te_offset entry);
    Ok (mkPointee (it_byte_size integer) (it_is_signed integer) KInteger [])
  else
    let bad := "bounded pointer-member structure pointee has an unsupported byte size" in
    size ← require (attribute die kDwAtByteSize) bad;
    _ ← throw_if ((av_number size =? 0) || (kMaxLocalStructSize <? av_number size)) (Exn RuntimeError bad);
    members ← add_all (add_pointee_member dies (av_number size)) [] (children_of dies (te_index entry));
    _ ← throw_if match members with [] => true | _ => false end
          (Exn RuntimeError "bounded pointer-member structure pointee has no direct integer members");
    Ok (mkPointee (av_number size) false KStructure members).

(** The size of a pointer, 8 when it is not there. *)
(* src/dwarf/source_lookup_impl.inc:1529-1532 resolve_bounded_direct_structure_member_type *)
Definition pointer_size_of (die : Die) : Z :=
  match attribute die kDwAtByteSize with Some size => av_number size | None => 8 end.

(* src/dwarf/source_lookup_impl.inc:1528-1551 resolve_bounded_direct_structure_member_type *)
Definition direct_pointer_member (dies : list Die) (type_die : Die) (member_name : string) (offset struct_size : Z)
    : res LocalStructMemberType :=
  let pointer_size := pointer_size_of type_die in
  _ ← throw_if (negb (pointer_size =? 8))
        (Exn RuntimeError "bounded direct pointer member has an unsupported byte size");
  pointee ← require (type_of type_die) "bounded direct pointer member has no supported pointee type";
  pointee_type ← resolve_bounded_pointer_member_pointee_type dies pointee;
  _ ← throw_if ((struct_size <? offset) || (struct_size - offset <? pointer_size))
        (Exn RuntimeError "bounded direct pointer member exceeds aggregate storage");
  Ok (mkMemberType member_name offset pointer_size false KPointer (Some pointee_type) None None []).

(* src/dwarf/source_lookup_impl.inc:1489-1576 resolve_bounded_direct_structure_member_type *)
Definition resolve_bounded_direct_structure_member_type (dies : list Die) (member : Die) (struct_size : Z)
    : res LocalStructMemberType :=
  member_name ← require (name_of member) "bounded direct structure member has no supported name";
  type ← require (type_of member) "bounded direct structure member has no supported DW_FORM_ref4 type";
  offset ← require (constant_offset (attribute member kDwAtDataMemberLocation))
             "bounded direct structure member has no supported constant offset";
  entry ← type_chain kTypeChain
            (mkChain "bounded direct structure member type references an unknown DIE"
                     "bounded direct structure member wrapper does not use DW_FORM_ref4"
                     "bounded direct structure member type chain is too deep") dies type;
  if die_tag (te_die entry) =? kDwTagPointerType then
    direct_pointer_member dies (te_die entry) member_name offset struct_size
  else
    enum_type ← resolve_bounded_enum_type dies (te_offset entry);
    match enum_type with
    | Some enum_type =>
      _ ← throw_if ((struct_size <? offset) || (struct_size - offset <? et_byte_size enum_type))
            (Exn RuntimeError "bounded direct enum member exceeds aggregate storage");
      Ok (mkMemberType member_name offset (et_byte_size enum_type) (et_is_signed enum_type) KEnumeration None None
            (Some enum_type) [])
    | None =>
      integer ← resolve_integer_type dies (te_offset entry);
      _ ← throw_if ((struct_size <? offset) || (struct_size - offset <? it_byte_size integer))
            (Exn RuntimeError "bounded direct integer member exceeds aggregate storage");
      Ok (member_type member_name offset (it_byte_size integer) (it_is_signed integer) KInteger)
    end.

(** A member of a local structure: a bit field, a nested structure or another direct member. *)
(* src/dwarf/source_lookup_impl.inc:1643-1665 resolve_value_type *)
Definition add_struct_member (dies : list Die) (struct_size : Z) (members : list LocalStructMemberType) (member : Die)
    : res (list LocalStructMemberType) :=
  _ ← throw_if (negb (die_tag member =? kDwTagMember))
        (Exn RuntimeError "local struct has an unsupported direct child DIE");
  _ ← throw_if (kMaxLocalStructMembers <=? size_of members)
        (Exn RuntimeError "local struct has too many direct members");
  bit_field ← resolve_bounded_bit_field_member_type dies member struct_size;
  match bit_field with
  | Some bit_field => Ok (members ++ [bit_field])
  | None =>
    nested ← resolve_bounded_nested_structure_member_type dies member struct_size;
    match nested with
    | Some nested => Ok (members ++ [nested])
    | None =>
      direct ← resolve_bounded_direct_structure_member_type dies member struct_size;
      Ok (members ++ [direct])
    end
  end.

(* src/dwarf/source_lookup_impl.inc:1635-1671 resolve_value_type *)
Definition resolve_structure_type (dies : list Die) (entry : type_entry) : res LocalValueType :=
  let bad := "local struct has an unsupported byte size" in
  size ← require (attribute (te_die entry) kDwAtByteSize) bad;
  _ ← throw_if ((av_number size =? 0) || (kMaxLocalStructSize <? av_number size)) (Exn RuntimeError bad);
  members ← add_all (add_struct_member dies (av_number size)) [] (children_of dies (te_index entry));
  _ ← throw_if match members with [] => true | _ => false end
        (Exn RuntimeError "local struct has no supported direct members");
  Ok (value_type (av_number size) false KStructure members).

(** ** The type of a variable *)

(* src/dwarf/source_lookup_impl.inc:1578-1676 resolve_value_type *)
Definition resolve_value_type (dies : list Die) (type_offset : Z) : res LocalValueType :=
  entry ← type_chain kTypeChain
            (mkChain "local variable type references an unknown DIE"
                     "local type wrapper does not use the supported DW_FORM_ref4 type link"
                     "local variable type chain is too deep") dies type_offset;
  let die := te_die entry in
  let tag := die_tag die in
  if tag =? kDwTagEnumerationType then
    enum_type ← resolve_bounded_enum_type dies (te_offset entry);
    match enum_type with
    | None => logic_error "enumeration DIE did not resolve as a bounded enum"
    | Some enum_type =>
      Ok (mkValueType (et_byte_size enum_type) (et_is_signed enum_type) KEnumeration [] None (Some enum_type))
    end
  else if tag =? kDwTagUnionType then
    union_type ← resolve_bounded_union_type dies (te_offset entry);
    match union_type with
    | None => logic_error "union DIE did not resolve as a bounded union"
    | Some union_type => Ok union_type
    end
  else if tag =? kDwTagArrayType then
    array ← resolve_bounded_fixed_array_type dies (te_offset entry);
    match array with
    | None => logic_error "array DIE did not resolve as a bounded fixed array"
    | Some array => Ok array
    end
  else if tag =? kDwTagPointerType then
    let pointer_size := pointer_size_of die in
    _ ← throw_if (negb (pointer_size =? 8)) (Exn RuntimeError "local pointer type has an unsupported byte size");
    pointee ← require (type_of die) "local pointer type has no supported DW_FORM_ref4 pointee";
    _ ← resolve_integer_type dies pointee;
    Ok (value_type pointer_size false KPointer [])
  else if tag =? kDwTagBaseType then
    integer ← resolve_integer_type dies (te_offset entry);
    Ok (value_type (it_byte_size integer) (it_is_signed integer) KInteger [])
  else if tag =? kDwTagStructureType then resolve_structure_type dies entry
  else
    runtime_error
      "local variable type is not a supported typedef/const/base-type/pointer/structure/array/union/enumeration chain".

(** ** Root types ([src/dwarf/source_lookup_snapshot_impl.inc])

    A variable's type with the floating-point types and with what a pointer points to. *)

(* src/dwarf/source_lookup_snapshot_impl.inc:10-10 kSnapshotDwAteFloat *)
Definition kSnapshotDwAteFloat : Z := 0x04.

(* src/dwarf/source_lookup_snapshot_impl.inc:116-148 resolve_snapshot_floating_type *)
Definition resolve_snapshot_floating_type (dies : list Die) (type_offset : Z) : res (option LocalValueType) :=
  entry ← type_chain kTypeChain
            (mkChain "snapshot local value type references an unknown DIE"
                     "snapshot floating type wrapper does not use DW_FORM_ref4"
                     "snapshot floating type chain is too deep") dies type_offset;
  let die := te_die entry in
  if negb (die_tag die =? kDwTagBaseType) then Ok None
  else
    match attribute die kDwAtEncoding with
    | None => Ok None
    | Some encoding =>
      if negb (av_number encoding =? kSnapshotDwAteFloat) then Ok None
      else
        let bad := "snapshot floating base type must be a compiler-proven 4/8-byte scalar" in
        size ← require (attribute die kDwAtByteSize) bad;
        _ ← throw_if (negb (av_number size =? 4) && negb (av_number size =? 8)) (Exn RuntimeError bad);
        Ok (Some (value_type (av_number size) false KFloating []))
    end.

(* src/dwarf/source_lookup_snapshot_impl.inc:178-195 resolve_snapshot_structure_pointee_type *)
Definition add_snapshot_member (dies : list Die) (struct_size : Z) (members : list LocalStructMemberType) (child : Die)
    : res (list LocalStructMemberType) :=
  _ ← throw_if (negb (die_tag child =? kDwTagMember))
        (Exn RuntimeError "snapshot structure pointee has an unsupported direct child DIE");
  _ ← throw_if (kMaxLocalStructMembers <=? size_of members)
        (Exn RuntimeError "snapshot structure pointee has too many direct members");
  member ← resolve_bounded_direct_structure_member_type dies child struct_size;
  _ ← throw_if (has_member (mt_name member) members)
        (Exn RuntimeError "snapshot structure pointee has duplicate member names");
  Ok (members ++ [member]).

(* src/dwarf/source_lookup_snapshot_impl.inc:150-203 resolve_snapshot_structure_pointee_type *)
Definition resolve_snapshot_structure_pointee_type (dies : list Die) (type_offset : Z) : res LocalValueType :=
  entry ← type_chain kTypeChain
            (mkChain "snapshot structure pointee references an unknown DIE"
                     "snapshot structure pointee wrapper does not use DW_FORM_ref4"
                     "snapshot structure pointee type chain is too deep") dies type_offset;
  let die := te_die entry in
  _ ← throw_if (negb (die_tag die =? kDwTagStructureType))
        (Exn RuntimeError "snapshot pointer pointee is not a bounded integer or structure type");
  let bad := "snapshot structure pointee has an unsupported byte size" in
  size ← require (attribute die kDwAtByteSize) bad;
  _ ← throw_if ((av_number size =? 0) || (kMaxLocalStructSize <? av_number size)) (Exn RuntimeError bad);
  members ← add_all (add_snapshot_member dies (av_number size)) [] (children_of dies (te_index entry));
  _ ← throw_if match members with [] => true | _ => false end
        (Exn RuntimeError "snapshot structure pointee has no supported direct members");
  Ok (value_type (av_number size) false KStructure members).

(* src/dwarf/source_lookup_snapshot_impl.inc:234-261 resolve_pointer_pointee_type *)
Definition resolve_pointee (dies : list Die) (pointee_offset : Z) : res LocalValueType :=
  entry ← type_chain kTypeChain
            (mkChain "snapshot pointer pointee references an unknown DIE"
                     "snapshot pointer pointee wrapper does not use DW_FORM_ref4"
                     "snapshot pointer pointee type chain is too deep") dies pointee_offset;
  let tag := die_tag (te_die entry) in
  if tag =? kDwTagBaseType then
    integer ← resolve_integer_type dies (te_offset entry);
    Ok (value_type (it_byte_size integer) (it_is_signed integer) KInteger [])
  else if tag =? kDwTagStructureType then resolve_snapshot_structure_pointee_type dies (te_offset entry)
  else runtime_error "snapshot pointer pointee is not a bounded integer or structure type".

(* src/dwarf/source_lookup_snapshot_impl.inc:205-264 resolve_pointer_pointee_type *)
Definition resolve_pointer_pointee_type (dies : list Die) (type_offset : Z) : res (option LocalValueType) :=
  entry ← type_chain kTypeChain
            (mkChain "snapshot pointer type references an unknown DIE"
                     "snapshot pointer type wrapper does not use DW_FORM_ref4"
                     "snapshot pointer type chain is too deep") dies type_offset;
  let die := te_die entry in
  if negb (die_tag die =? kDwTagPointerType) then Ok None
  else
    _ ← throw_if (negb (pointer_size_of die =? 8))
          (Exn RuntimeError "snapshot pointer type has an unsupported byte size");
    pointee ← require (type_of die) "snapshot pointer has no supported DW_FORM_ref4 pointee";
    resolved ← resolve_pointee dies pointee;
    Ok (Some resolved).

(* src/dwarf/source_lookup_impl.inc:2394-2397 BoundedRootTypeResolution *)
Record BoundedRootTypeResolution := mkRoot { root_value_type : LocalValueType; root_pointee_type : option LocalValueType }.

(* src/dwarf/source_lookup_snapshot_impl.inc:265-282 resolve_bounded_root_value_type *)
Definition resolve_bounded_root_value_type (dies : list Die) (type_offset : Z) : res BoundedRootTypeResolution :=
  floating ← resolve_snapshot_floating_type dies type_offset;
  match floating with
  | Some floating => Ok (mkRoot floating None)
  | None =>
    pointee_type ← resolve_pointer_pointee_type dies type_offset;
    match pointee_type with
    | Some pointee_type => Ok (mkRoot (value_type 8 false KPointer []) (Some pointee_type))
    | None =>
      resolved ← resolve_value_type dies type_offset;
      Ok (mkRoot resolved None)
    end
  end.
