(* ===== verification/DebugValues.v ===== *)
(** * Locations and bytes of source variables ([src/dwarf/source_lookup_impl.inc])

    The location expression that is active at an address, the operations of the few
    expressions the inspection accepts, and the decoding of the bytes of a value of a
    resolved type. *)

From S2P Require Import Prelude Machine ByteReader ElfFormat EhFrame Elf SnapshotMemory LocalValue DebugInfo DebugTypes.
From S2P Require LineTable.

(* src/dwarf/source_lookup_impl.inc:87-87 kDwLleEndOfList *)
Definition kDwLleEndOfList : Z := 0x00.
(* src/dwarf/source_lookup_impl.inc:88-88 kDwLleOffsetPair *)
Definition kDwLleOffsetPair : Z := 0x04.
(* src/dwarf/source_lookup_impl.inc:89-89 kDwLleBaseAddress *)
Definition kDwLleBaseAddress : Z := 0x06.
(* src/dwarf/source_lookup_impl.inc:90-90 kDwOpDeref *)
Definition kDwOpDeref : Z := 0x06.
(* src/dwarf/source_lookup_impl.inc:91-91 kDwOpConst1u *)
Definition kDwOpConst1u : Z := 0x08.
(* src/dwarf/source_lookup_impl.inc:92-92 kDwOpConstu *)
Definition kDwOpConstu : Z := 0x10.
(* src/dwarf/source_lookup_impl.inc:93-93 kDwOpShl *)
Definition kDwOpShl : Z := 0x24.
(* src/dwarf/source_lookup_impl.inc:94-94 kDwOpXor *)
Definition kDwOpXor : Z := 0x27.
(* src/dwarf/source_lookup_impl.inc:95-95 kDwOpLit8 *)
Definition kDwOpLit8 : Z := 0x38.
(* src/dwarf/source_lookup_impl.inc:96-96 kDwOpLit16 *)
Definition kDwOpLit16 : Z := 0x40.
(* src/dwarf/source_lookup_impl.inc:97-97 kDwOpLit24 *)
Definition kDwOpLit24 : Z := 0x48.
(* src/dwarf/source_lookup_impl.inc:98-98 kDwOpReg0 *)
Definition kDwOpReg0 : Z := 0x50.
(* src/dwarf/source_lookup_impl.inc:99-100 kDwOpReg1 *)
Definition kDwOpReg1 : Z := kDwOpReg0 + 1.
(* src/dwarf/source_lookup_impl.inc:101-102 kDwOpReg2 *)
Definition kDwOpReg2 : Z := kDwOpReg0 + 2.
(* src/dwarf/source_lookup_impl.inc:103-104 kDwOpReg3 *)
Definition kDwOpReg3 : Z := kDwOpReg0 + 3.
(* src/dwarf/source_lookup_impl.inc:105-105 kDwOpReg4 *)
Definition kDwOpReg4 : Z := 0x54.
(* src/dwarf/source_lookup_impl.inc:106-106 kDwOpReg5 *)
Definition kDwOpReg5 : Z := 0x55.
(* src/dwarf/source_lookup_impl.inc:107-107 kDwOpReg6 *)
Definition kDwOpReg6 : Z := 0x56.
(* src/dwarf/source_lookup_impl.inc:108-108 kDwOpReg7 *)
Definition kDwOpReg7 : Z := 0x57.
(* src/dwarf/source_lookup_impl.inc:109-109 kDwOpBreg1 *)
Definition kDwOpBreg1 : Z := 0x71.
(* src/dwarf/source_lookup_impl.inc:110-110 kDwOpBreg2 *)
Definition kDwOpBreg2 : Z := 0x72.
(* src/dwarf/source_lookup_impl.inc:111-111 kDwOpBreg3 *)
Definition kDwOpBreg3 : Z := 0x73.
(* src/dwarf/source_lookup_impl.inc:112-112 kDwOpBreg4 *)
Definition kDwOpBreg4 : Z := 0x74.
(* src/dwarf/source_lookup_impl.inc:113-113 kDwOpBreg5 *)
Definition kDwOpBreg5 : Z := 0x75.
(* src/dwarf/source_lookup_impl.inc:114-114 kDwOpBreg8 *)
Definition kDwOpBreg8 : Z := 0x78.
(* src/dwarf/source_lookup_impl.inc:115-115 kDwOpBreg9 *)
Definition kDwOpBreg9 : Z := 0x79.
(* src/dwarf/source_lookup_impl.inc:116-116 kDwOpFbreg *)
Definition kDwOpFbreg : Z := 0x91.
(* src/dwarf/source_lookup_impl.inc:117-117 kDwOpPiece *)
Definition kDwOpPiece : Z := 0x93.
(* src/dwarf/source_lookup_impl.inc:118-118 kDwOpStackValue *)
Definition kDwOpStackValue : Z := 0x9f.
(* src/dwarf/source_lookup_impl.inc:119-119 kDwOpEntryValue *)
Definition kDwOpEntryValue : Z := 0xa3.
(* src/dwarf/source_lookup_impl.inc:120-120 kDwOpCallFrameCfa *)
Definition kDwOpCallFrameCfa : Z := 0x9c.

(** ** Location lists *)

Definition set_cursor (cursor : Z) : M Z unit := modify (fun _ => cursor).

(** Where an entry of a list reaches, once its bounds are added to the base. *)
(* src/dwarf/source_lookup_impl.inc:1720-1724 active_dwarf4_location_expression *)
Definition location_range (begin_what end_what reversed : string) (base_address begin_ end_ : Z) : res (Z * Z) :=
  range_begin ← add_unsigned base_address begin_ begin_what;
  range_end ← add_unsigned base_address end_ end_what;
  _ ← throw_if (range_end <? range_begin) (Exn RuntimeError reversed);
  Ok (range_begin, range_end).

(** Every turn reads 16 bytes at least. *)
(* src/dwarf/source_lookup_impl.inc:1701-1733 active_dwarf4_location_expression *)
Fixpoint dwarf4_locations (fuel : nat) (locations : list byte) (virtual_pc base_address : Z) : M Z (list byte) :=
  let none := mthrow RuntimeError "local value has no location for the current PC" in
  cursor ← mget;
  if cursor <? size_of locations then
    match fuel with
    | O => mout_of_fuel
    | S fuel =>
      begin_ ← read_scalar "DWARF4 location-list begin" locations (size_of locations) 8;
      end_ ← read_scalar "DWARF4 location-list end" locations (size_of locations) 8;
      if (begin_ =? 0) && (end_ =? 0) then none
      else if begin_ =? u64_max then dwarf4_locations fuel locations virtual_pc end_
      else
        length ← read_scalar "DWARF4 location expression length" locations (size_of locations) 2;
        cursor ← mget;
        _ ← mthrow_if (size_of locations - cursor <? length) RuntimeError
              "DWARF4 location expression extends past .debug_loc";
        let expression_end := cursor + length in
        '(range_begin, range_end) ← lift (location_range "location-list range begin" "location-list range end"
            "DWARF4 location-list range is reversed" base_address begin_ end_);
        if (range_begin <=? virtual_pc) && (virtual_pc <? range_end)
        then lift (byte_range locations cursor expression_end)
        else
          _ ← set_cursor expression_end;
          dwarf4_locations fuel locations virtual_pc base_address
    end
  else none.

(* src/dwarf/source_lookup_impl.inc:1690-1734 active_dwarf4_location_expression *)
Definition active_dwarf4_location_expression (sections : DebugSections) (offset virtual_pc initial_base : Z)
    : res (list byte) :=
  _ ← throw_if (size_of (locations sections) =? 0)
        (Exn RuntimeError "local value location list requires .debug_loc");
  _ ← throw_if (size_of (locations sections) <=? offset)
        (Exn RuntimeError "local value location-list offset is out of range");
  fst (dwarf4_locations (length (locations sections)) (locations sections) virtual_pc initial_base offset).

(** Every turn reads a byte at least. *)
(* src/dwarf/source_lookup_impl.inc:1742-1779 active_dwarf5_location_expression *)
Fixpoint dwarf5_locations (fuel : nat) (lists : list byte) (end_of : Z) (virtual_pc base_address : Z) : M Z (list byte) :=
  let none := mthrow RuntimeError "local value has no location for the current PC" in
  cursor ← mget;
  if cursor <? end_of then
    match fuel with
    | O => mout_of_fuel
    | S fuel =>
      entry ← read_scalar "DWARF5 location-list entry" lists end_of 1;
      if entry =? kDwLleEndOfList then none
      else if entry =? kDwLleBaseAddress then
        base_address ← read_scalar "DW_LLE_base_address" lists end_of 8;
        dwarf5_locations fuel lists end_of virtual_pc base_address
      else
        _ ← mthrow_if (negb (entry =? kDwLleOffsetPair)) RuntimeError
              ("unsupported DWARF5 location-list entry: " +:+ LineTable.to_string entry);
        begin_ ← read_uleb "DW_LLE_offset_pair begin" lists end_of;
        end_ ← read_uleb "DW_LLE_offset_pair end" lists end_of;
        length ← read_uleb "DWARF5 location expression length" lists end_of;
        cursor ← mget;
        _ ← mthrow_if (end_of - cursor <? length) RuntimeError
              "DWARF5 location expression extends past contribution";
        let expression_end := cursor + length in
        '(range_begin, range_end) ← lift (location_range "DWARF5 location range begin" "DWARF5 location range end"
            "DWARF5 location-list range is reversed" base_address begin_ end_);
        if (range_begin <=? virtual_pc) && (virtual_pc <? range_end)
        then lift (byte_range lists cursor expression_end)
        else
          _ ← set_cursor expression_end;
          dwarf5_locations fuel lists end_of virtual_pc base_address
    end
  else none.

(* src/dwarf/source_lookup_impl.inc:1736-1780 active_dwarf5_location_expression *)
Definition active_dwarf5_location_expression (sections : DebugSections) (offset virtual_pc initial_base : Z)
    : res (list byte) :=
  contribution ← loclists_contribution_for_offset sections offset;
  fst (dwarf5_locations (length (location_lists sections)) (location_lists sections) (lc_end contribution) virtual_pc
         initial_base offset).

(* src/dwarf/source_lookup_impl.inc:1782-1794 active_location_expression *)
Definition active_location_expression (sections : DebugSections) (offset virtual_pc initial_base unit_version : Z)
    : res (list byte) :=
  if unit_version =? 4 then active_dwarf4_location_expression sections offset virtual_pc initial_base
  else if unit_version =? 5 then active_dwarf5_location_expression sections offset virtual_pc initial_base
  else runtime_error "unsupported DWARF unit version for location list".

(** ** Operations *)

(** [std::to_integer<std::uint8_t>(expression.front())], when there is a byte. *)
Definition first_op (expression : list byte) : option Z :=
  match expression with [] => None | b :: _ => Some (byte_val b) end.
Definition starts_with (op : Z) (expression : list byte) : bool := bool_decide (first_op expression = Some op).

(** The signed operand behind the first byte, which ends the expression. *)
(* src/dwarf/source_lookup_impl.inc:1682-1687 fbreg_offset *)
Definition only_sleb (what trailing : string) (expression : list byte) : res Z :=
  fst ((offset ← read_sleb what expression (size_of expression);
        cursor ← mget;
        _ ← mthrow_if (negb (cursor =? size_of expression)) RuntimeError trailing;
        mret offset) 1).

(* src/dwarf/source_lookup_impl.inc:1678-1688 fbreg_offset *)
Definition fbreg_offset (expression : list byte) : res Z :=
  _ ← throw_if (negb (starts_with kDwOpFbreg expression))
        (Exn RuntimeError "local variable location is not the supported DW_OP_fbreg form");
  only_sleb "DW_OP_fbreg offset" "unsupported trailing operations in local variable location" expression.

(** The next byte must be [op]. *)
Definition expect_op (op : Z) (msg : string) (expression : list byte) : M Z unit :=
  cursor ← mget;
  _ ← mthrow_if (negb (starts_with op (drop (Z.to_nat cursor) expression))) RuntimeError msg;
  set_cursor (cursor + 1).

(** [DW_OP_constu], [DW_OP_xor] and [DW_OP_stack_value] up to the end; [what] names the value. *)
(* src/dwarf/source_lookup_impl.inc:2234-2258 evaluate_breg3_xor_stack_value *)
Definition xor_tail (what : string) (expression : list byte) : M Z Z :=
  _ ← expect_op kDwOpConstu (what +:+ " value requires the compiler-proven DW_OP_constu") expression;
  constant ← read_uleb "DW_OP_constu value" expression (size_of expression);
  _ ← expect_op kDwOpXor (what +:+ " value requires the compiler-proven DW_OP_xor") expression;
  _ ← expect_op kDwOpStackValue (what +:+ " value requires the compiler-proven trailing DW_OP_stack_value") expression;
  cursor ← mget;
  _ ← mthrow_if (negb (cursor =? size_of expression)) RuntimeError
        ("unsupported trailing operations after " +:+ what +:+ " value");
  mret constant.

(* src/dwarf/source_lookup_impl.inc:2225-2261 evaluate_breg3_xor_stack_value *)
Definition evaluate_breg3_xor_stack_value (expression : list byte) (rbx : Z) : res Z :=
  _ ← throw_if (negb (starts_with kDwOpBreg3 expression))
        (Exn RuntimeError "local value location is not the compiler-proven DW_OP_breg3 XOR form");
  '(offset, constant) ←
    fst ((offset ← read_sleb "DW_OP_breg3 offset" expression (size_of expression);
          constant ← xor_tail "DW_OP_breg3 XOR" expression;
          mret (offset, constant)) 1);
  base ← add_signed rbx offset "DW_OP_breg3 XOR base";
  Ok (Z.lxor base constant).

(* src/dwarf/source_lookup_impl.inc:2135-2139 truncate_integer *)
Definition truncate_integer (value byte_size : Z) : Z :=
  if byte_size =? 8 then value else Z.land value (u64 (Z.shiftl 1 (byte_size * 8)) - 1).

(** ** Bytes of a value *)

(* src/dwarf/source_lookup_impl.inc:1819-1831 decode_integer *)
Definition decode_integer (bytes : list byte) (offset byte_size : Z) : res Z :=
  _ ← throw_if ((byte_size =? 0) || (8 <? byte_size) || (size_of bytes <? offset) ||
                (size_of bytes - offset <? byte_size))
        (Exn RuntimeError "local integer decode exceeds owned storage");
  Ok (or_bytes 0 0 (take (Z.to_nat byte_size) (drop (Z.to_nat offset) bytes))).

(* src/dwarf/source_lookup_impl.inc:1833-1839 bounded_bit_mask *)
Definition bounded_bit_mask (bits : Z) : res Z :=
  _ ← throw_if ((bits =? 0) || (64 <? bits)) (Exn LogicError "bit-field width is out of range");
  Ok (if bits =? 64 then u64_max else u64 (Z.shiftl 1 bits) - 1).

(** The bits from [bit] on, [n] of them, each put where it stands in the slice. *)
(* src/dwarf/source_lookup_impl.inc:1860-1868 decode_bounded_bit_field *)
Fixpoint slice_bits (n : nat) (bytes : list byte) (bit_offset bit raw : Z) : res Z :=
  match n with
  | O => Ok raw
  | S n =>
    let absolute := bit_offset + bit in
    match bytes !! Z.to_nat (absolute / 8) with
    | None => Undef "vector index out of range"
    | Some b =>
      let set := negb (Z.land (Z.shiftr (byte_val b) (absolute mod 8)) 1 =? 0) in
      slice_bits n bytes bit_offset (bit + 1) (if set then Z.lor raw (u64 (Z.shiftl 1 bit)) else raw)
    end
  end.

(** Whether the member has metadata besides its width and its place in the bytes. *)
Definition no_member_metadata (member : LocalStructMemberType) : bool :=
  bool_decide (mt_pointee_type member = None) && bool_decide (mt_enum_type member = None) &&
  match mt_members member with [] => true | _ => false end.

(** The sign bit of the slice repeated up to the width of the storage. *)
(* src/dwarf/source_lookup_impl.inc:1871-1875 decode_bounded_bit_field *)
Definition extend_sign (bit_size storage_bits raw : Z) : res Z :=
  if negb (Z.land (Z.shiftr raw (bit_size - 1)) 1 =? 0) then
    slice_mask ← bounded_bit_mask bit_size;
    storage_mask ← bounded_bit_mask storage_bits;
    Ok (Z.land (Z.lor raw (u64 (Z.lnot slice_mask))) storage_mask)
  else Ok raw.

(* src/dwarf/source_lookup_impl.inc:1841-1876 decode_bounded_bit_field *)
Definition decode_bounded_bit_field (bytes : list byte) (member : LocalStructMemberType) : res Z :=
  match mt_bit_slice member with
  | None => logic_error "bit-field member lost bounded integer metadata"
  | Some slice =>
    _ ← throw_if (bool_decide (mt_kind member <> KInteger) || negb (no_member_metadata member) ||
                  (mt_byte_size member =? 0) || (8 <? mt_byte_size member))
          (Exn LogicError "bit-field member lost bounded integer metadata");
    let storage_bits := mt_byte_size member * 8 in
    let bit_size := bs_bit_size slice in
    _ ← throw_if ((bit_size =? 0) || (storage_bits <? bit_size) || (64 <? bit_size) ||
                  (size_of bytes * 8 <? bs_bit_offset slice) ||
                  (size_of bytes * 8 - bs_bit_offset slice <? bit_size))
          (Exn LogicError "bit-field slice exceeds immutable aggregate bytes");
    raw ← slice_bits (Z.to_nat bit_size) bytes (bs_bit_offset slice) 0 0;
    mask ← bounded_bit_mask bit_size;
    let raw := Z.land raw mask in
    if mt_is_signed member && (bit_size <? storage_bits) then extend_sign bit_size storage_bits raw else Ok raw
  end.

(** A member as it is read: the metadata of its type and the raw value. *)
(* src/dwarf/source_lookup_impl.inc:1947-1952 decode_structure *)
Definition member_value (member : LocalStructMemberType) (raw : Z) : LocalStructMember :=
  mkMember (mt_name member) raw (mt_byte_size member) (mt_is_signed member) (mt_kind member) (mt_pointee_type member)
    (mt_bit_slice member) (mt_enum_type member) [] (mt_offset member).

(** [LocalStructMember{name, raw, size, signed, Integer}] with its offset. *)
Definition integer_member (name : string) (raw byte_size : Z) (is_signed : bool) (offset : Z) : LocalStructMember :=
  mkMember name raw byte_size is_signed KInteger None None None [] offset.

(* src/dwarf/source_lookup_impl.inc:1894-1919 materialize_bounded_nested_structure_member *)
Definition nested_terminal (bytes : list byte) (outer_size : Z) (member terminal : LocalStructMemberType)
    : res LocalStructMember :=
  _ ← throw_if (bool_decide (mt_kind terminal <> KInteger) || bool_decide (is_Some (mt_bit_slice terminal)) ||
                negb (no_member_metadata terminal) || (mt_byte_size terminal =? 0) || (8 <? mt_byte_size terminal) ||
                (mt_byte_size member <? mt_offset terminal) ||
                (mt_byte_size member - mt_offset terminal <? mt_byte_size terminal))
        (Exn LogicError "nested aggregate terminal is outside the bounded scalar model");
  _ ← throw_if (u64_max - mt_offset member <? mt_offset terminal)
        (Exn OverflowError "nested aggregate terminal offset overflows");
  let absolute_offset := mt_offset member + mt_offset terminal in
  _ ← throw_if ((outer_size <? absolute_offset) || (outer_size - absolute_offset <? mt_byte_size terminal) ||
                (size_of bytes <? absolute_offset) || (size_of bytes - absolute_offset <? mt_byte_size terminal))
        (Exn LogicError "nested aggregate terminal exceeds outer storage");
  raw ← decode_integer bytes absolute_offset (mt_byte_size terminal);
  Ok (integer_member (mt_name terminal) raw (mt_byte_size terminal) (mt_is_signed terminal) (mt_offset terminal)).

(* src/dwarf/source_lookup_impl.inc:1878-1922 materialize_bounded_nested_structure_member *)
Definition materialize_bounded_nested_structure_member (bytes : list byte) (outer_size : Z)
    (member : LocalStructMemberType) : res LocalStructMember :=
  _ ← throw_if (bool_decide (mt_kind member <> KStructure) || (mt_byte_size member =? 0) ||
                (kMaxLocalStructSize <? mt_byte_size member) || (outer_size <? mt_offset member) ||
                (outer_size - mt_offset member <? mt_byte_size member) ||
                bool_decide (is_Some (mt_pointee_type member)) || bool_decide (is_Some (mt_bit_slice member)) ||
                bool_decide (is_Some (mt_enum_type member)) ||
                match mt_members member with [] => true | _ => false end ||
                (kMaxLocalStructMembers <? size_of (mt_members member)))
        (Exn LogicError "nested aggregate member violates bounded layout ownership");
  members ← mapM (nested_terminal bytes outer_size member) (mt_members member);
  Ok (mkMember (mt_name member) 0 (mt_byte_size member) false KStructure None None None members (mt_offset member)).

(** A member of a structure; [unexpected] is thrown at nested metadata out of place. *)
(* src/dwarf/source_lookup_impl.inc:1934-1953 decode_structure *)
Definition decode_member (unexpected : string) (byte_size : Z) (bytes : list byte) (member : LocalStructMemberType)
    : res LocalStructMember :=
  if bool_decide (mt_kind member = KStructure)
  then materialize_bounded_nested_structure_member bytes byte_size member
  else
    _ ← throw_if match mt_members member with [] => false | _ => true end (Exn LogicError unexpected);
    raw ← match mt_bit_slice member with
          | Some _ => decode_bounded_bit_field bytes member
          | None => decode_integer bytes (mt_offset member) (mt_byte_size member)
          end;
    Ok (member_value member raw).

(** The value of a structure, a union or an array has no raw value of its own. *)
Definition aggregate (module_path name : string) (byte_size : Z) (kind : LocalValueKind) : LocalScalarValue :=
  scalar module_path name 0 byte_size false kind.

(* src/dwarf/source_lookup_impl.inc:1924-1956 decode_structure *)
Definition decode_structure (module : ElfFile) (name : string) (type : LocalValueType) (bytes : list byte)
    : res LocalScalarValue :=
  _ ← throw_if (bool_decide (vt_kind type <> KStructure) || negb (size_of bytes =? vt_byte_size type))
        (Exn RuntimeError "local struct bytes do not match owned aggregate storage");
  members ← mapM (decode_member "non-structure member unexpectedly carries nested metadata" (vt_byte_size type) bytes)
              (vt_members type);
  Ok (set_members members (aggregate (elf_path module) name (vt_byte_size type) KStructure)).

(** [LocalArrayElement{decode_integer(...), ...}] for the elements from [index] on. *)
(* src/dwarf/source_lookup_snapshot_impl.inc:364-371 materialize_bounded_array_bytes *)
Definition array_element (array : LocalArrayType) (bytes : list byte) (index : nat) : res LocalArrayElement :=
  let size := at_element_byte_size array in
  raw ← decode_integer bytes (Z.of_nat index * size) size;
  Ok (mkElement raw size (at_element_is_signed array) KInteger).

(* src/dwarf/source_lookup_snapshot_impl.inc:340-373 materialize_bounded_array_bytes *)
Definition materialize_bounded_array_bytes (module_path name : string) (type : LocalValueType) (bytes : list byte)
    : res LocalScalarValue :=
  let bad := "bounded fixed-array bytes exceed the canonical array model" in
  array ← require (vt_array_type type) bad;
  let count := at_element_count array in
  let size := at_element_byte_size array in
  _ ← throw_if (bool_decide (vt_kind type <> KArray) || match vt_members type with [] => false | _ => true end ||
                (count =? 0) || (kMaxLocalArrayElements <? count) || (size =? 0) || (8 <? size) ||
                bool_decide (at_element_kind array <> KInteger) || negb (vt_byte_size type =? count * size) ||
                negb (size_of bytes =? vt_byte_size type))
        (Exn RuntimeError bad);
  elements ← mapM (array_element array bytes) (seq 0 (Z.to_nat count));
  let value := aggregate module_path name (vt_byte_size type) KArray in
  Ok (mkValue (lv_module_path value) (lv_name value) (lv_raw_value value) (lv_byte_size value) (lv_is_signed value)
        (lv_kind value) (lv_members value) (lv_storage value) (lv_storage_module_path value)
        (lv_storage_file_path value) (lv_storage_file_offset value) (lv_pointee_type value) elements (Some array)
        (lv_enum_type value)).

(* src/dwarf/source_lookup_snapshot_impl.inc:400-414 materialize_bounded_union_bytes *)
Definition union_member (byte_size : Z) (bytes : list byte) (member : LocalStructMemberType)
    : res LocalStructMember :=
  _ ← throw_if (negb (mt_offset member =? 0) || bool_decide (mt_kind member <> KInteger) ||
                bool_decide (is_Some (mt_bit_slice member)) || negb (no_member_metadata member) ||
                (mt_byte_size member =? 0) || (8 <? mt_byte_size member) || (byte_size <? mt_byte_size member))
        (Exn LogicError "bounded union member violates shared-storage semantics");
  raw ← decode_integer bytes 0 (mt_byte_size member);
  Ok (integer_member (mt_name member) raw (mt_byte_size member) (mt_is_signed member) 0).

(* src/dwarf/source_lookup_snapshot_impl.inc:382-417 materialize_bounded_union_bytes *)
Definition materialize_bounded_union_bytes (module_path name : string) (type : LocalValueType) (bytes : list byte)
    : res LocalScalarValue :=
  _ ← throw_if (bool_decide (vt_kind type <> KUnion) || (vt_byte_size type =? 0) ||
                (kMaxLocalStructSize <? vt_byte_size type) ||
                match vt_members type with [] => true | _ => false end ||
                (kMaxLocalStructMembers <? size_of (vt_members type)) ||
                bool_decide (is_Some (vt_array_type type)) || bool_decide (is_Some (vt_enum_type type)) ||
                negb (size_of bytes =? vt_byte_size type))
        (Exn RuntimeError "bounded union bytes exceed the canonical overlapping-storage model");
  members ← mapM (union_member (vt_byte_size type) bytes) (vt_members type);
  Ok (set_members members (aggregate module_path name (vt_byte_size type) KUnion)).

(** ** Values in pieces of registers *)

(* src/dwarf/source_lookup_impl.inc:1977-1982 evaluate_register_piece_value *)
Definition read_op (what : string) (expression : list byte) : M Z Z :=
  cursor ← mget;
  match expression !! Z.to_nat cursor with
  | None => mthrow RuntimeError ("register-piece local is missing " +:+ what)
  | Some op => _ ← set_cursor (cursor + 1); mret (byte_val op)
  end.

(* src/dwarf/source_lookup_impl.inc:1983-1995 evaluate_register_piece_value *)
Definition require_piece (expected : Z) (what : string) (expression : list byte) : M Z unit :=
  op ← read_op what expression;
  _ ← mthrow_if (negb (op =? kDwOpPiece)) RuntimeError ("register-piece local requires DW_OP_piece after " +:+ what);
  width ← read_uleb what expression (size_of expression);
  mthrow_if (negb (width =? expected)) RuntimeError
    ("register-piece local has an unsupported " +:+ what +:+ " width").

(** A register that must be one of [ops]. *)
Definition piece_register (what : string) (ops : list Z) (other : string) (expression : list byte) : M Z Z :=
  op ← read_op what expression;
  _ ← mthrow_if (negb (existsb (Z.eqb op) ops)) RuntimeError other;
  mret op.

Definition no_trailing (msg : string) (expression : list byte) : M Z unit :=
  cursor ← mget;
  mthrow_if (negb (cursor =? size_of expression)) RuntimeError msg.

(** A direct integer member of four bytes. *)
Definition int32_member (offset : Z) (member : LocalStructMemberType) : bool :=
  bool_decide (mt_kind member = KInteger) && (mt_offset member =? offset) && (mt_byte_size member =? 4) &&
  bool_decide (mt_bit_slice member = None) && no_member_metadata member.

(* src/dwarf/source_lookup_impl.inc:1998-2019 evaluate_register_piece_value *)
Definition proven_union (type : LocalValueType) : bool :=
  bool_decide (vt_kind type = KUnion) && bool_decide (vt_array_type type = None) &&
  bool_decide (vt_enum_type type = None) &&
  match vt_members type with
  | [a; b] =>
    String.eqb (mt_name a) "signed_value" && String.eqb (mt_name b) "unsigned_value" &&
    int32_member 0 a && int32_member 0 b && mt_is_signed a && negb (mt_is_signed b)
  | _ => false
  end.

(* src/dwarf/source_lookup_impl.inc:2071-2087 evaluate_register_piece_value *)
Definition proven_structure (type : LocalValueType) : bool :=
  bool_decide (vt_kind type = KStructure) &&
  match vt_members type with [a; b] => int32_member 0 a && int32_member 4 b | _ => false end.

(* src/dwarf/source_lookup_impl.inc:2088-2094 evaluate_register_piece_value *)
Definition proven_array (type : LocalValueType) : bool :=
  bool_decide (vt_kind type = KArray) && match vt_members type with [] => true | _ => false end &&
  match vt_array_type type with
  | Some array =>
    (at_element_count array =? 2) && (at_element_byte_size array =? 4) && at_element_is_signed array &&
    bool_decide (at_element_kind array = KInteger)
  | None => false
  end.

(** The registers of a union of four bytes, in the order of its bytes, each with a width. *)
(* src/dwarf/source_lookup_impl.inc:2025-2036 evaluate_register_piece_value *)
Definition union_pieces (expression : list byte) : M Z (list (Z * Z)) :=
  first ← piece_register "the union register" [kDwOpReg1; kDwOpReg2]
            "4-byte union register requires compiler-proven RDX or RCX ownership" expression;
  _ ← (if first =? kDwOpReg1 then require_piece 4 "GCC union 4-byte piece" expression else mret tt);
  _ ← no_trailing "unsupported trailing operations after 4-byte register union" expression;
  mret [(first, 4)].

(* src/dwarf/source_lookup_impl.inc:2048-2063 evaluate_register_piece_value *)
Definition wide_pieces (expression : list byte) : M Z (list (Z * Z)) :=
  first ← piece_register "the first register" [kDwOpReg5]
            "16-byte register-piece local requires compiler-proven DW_OP_reg5 first" expression;
  _ ← require_piece 8 "first 8-byte piece" expression;
  second ← piece_register "the second register" [kDwOpReg4]
             "16-byte register-piece local requires compiler-proven DW_OP_reg4 second" expression;
  _ ← require_piece 8 "second 8-byte piece" expression;
  _ ← no_trailing "unsupported trailing operations after 16-byte register-piece local" expression;
  mret [(first, 8); (second, 8)].

(* src/dwarf/source_lookup_impl.inc:2100-2116 evaluate_register_piece_value *)
Definition pair_pieces (expression : list byte) : M Z (list (Z * Z)) :=
  first ← piece_register "the first 4-byte register" [kDwOpReg1; kDwOpReg2]
            "8-byte register-piece local requires compiler-proven RDX/RCX pieces" expression;
  _ ← require_piece 4 "first 4-byte piece" expression;
  second ← piece_register "the second 4-byte register" [if first =? kDwOpReg1 then kDwOpReg2 else kDwOpReg1]
             "8-byte register-piece local requires the opposite RDX/RCX register second" expression;
  _ ← require_piece 4 "second 4-byte piece" expression;
  _ ← no_trailing "unsupported trailing operations after 8-byte register-piece local" expression;
  mret [(first, 4); (second, 4)].

(** The bytes of a register's value, lowest first. *)
(* src/dwarf/source_lookup_impl.inc:1970-1973 evaluate_register_piece_value *)
Definition piece_bytes (width value : Z) : list byte :=
  map (fun index => byte_of_Z (Z.land (Z.shiftr value (Z.of_nat index * 8)) 0xff)) (seq 0 (Z.to_nat width)).

(** The pieces one after the other; each fits into the bytes of the value, so the check of
    [store_piece] does not fail. *)
(* src/dwarf/source_lookup_impl.inc:2118-2121 evaluate_register_piece_value *)
Fixpoint store_pieces (register_value : Z -> res Z) (pieces : list (Z * Z)) : res (list byte) :=
  match pieces with
  | [] => Ok []
  | (op, width) :: pieces =>
    value ← register_value op;
    bytes ← store_pieces register_value pieces;
    Ok (piece_bytes width value ++ bytes)
  end.

(* src/dwarf/source_lookup_impl.inc:1958-2126 evaluate_register_piece_value *)
Definition evaluate_register_piece_value (expression : list byte) (register_value : Z -> res Z)
    (type : LocalValueType) : res (list byte) :=
  pieces ←
    (if vt_byte_size type =? 4 then
       _ ← throw_if (negb (proven_union type))
             (Exn RuntimeError "4-byte register value requires the compiler-proven signed/unsigned union shape");
       fst (union_pieces expression 0)
     else if vt_byte_size type =? 16 then
       _ ← throw_if (bool_decide (vt_kind type <> KStructure))
             (Exn RuntimeError "16-byte register-piece local requires the proven structure shape");
       fst (wide_pieces expression 0)
     else if vt_byte_size type =? 8 then
       _ ← throw_if (negb (proven_structure type) && negb (proven_array type))
             (Exn RuntimeError
                "8-byte register-piece local requires the compiler-proven two-int32 structure/array shape");
       fst (pair_pieces expression 0)
     else
       runtime_error
         "register-piece local is outside the proven 4-byte union, 8-byte, or 16-byte typed-value shapes");
  store_pieces register_value pieces.

(** The value of the register an operation names, among those a frame has. *)
Definition register_owner (op : Z) (registers : list (Z * Z)) (msg : string) : res Z :=
  match List.find (fun entry => fst entry =? op) registers with
  | Some (_, value) => Ok value
  | None => runtime_error msg
  end.

Definition is_integer_or_pointer (kind : LocalValueKind) : bool :=
  match kind with KInteger | KPointer => true | _ => false end.

Definition is_aggregate (kind : LocalValueKind) : bool :=
  match kind with KStructure | KArray | KUnion => true | _ => false end.

(** ** Variables of a unit ([src/dwarf/source_lookup_impl.inc])

    What the inspections of a process, of a core and of an inline call share: the
    subprogram of an address in a unit, the variable of a name that is in scope there, and
    the location and the type of the variable.  The inspections differ in the texts of the
    exceptions they throw, which are arguments here. *)

(* src/dwarf/source_lookup_impl.inc:46-46 kDwAtLocation *)
Definition kDwAtLocation : Z := 0x02.
(* src/dwarf/source_lookup_impl.inc:60-60 kDwAtFrameBase *)
Definition kDwAtFrameBase : Z := 0x40.

(** The address of the first root entry that has one. *)
(* src/dwarf/source_lookup_impl.inc:2548-2556 inspect_unit *)
Fixpoint unit_low_pc (dies : list Die) : Z :=
  match dies with
  | [] => 0
  | die :: dies =>
    match die_parent die, attribute die kDwAtLowPc with
    | None, Some low_pc => if av_form low_pc =? kDwFormAddr then av_number low_pc else unit_low_pc dies
    | _, _ => unit_low_pc dies
    end
  end.

(** The one subprogram of the entries from [index] on that contains the address. *)
(* src/dwarf/source_lookup_impl.inc:2558-2565 inspect_unit *)
Fixpoint subprogram_from (multiple : string) (virtual_pc : Z) (index : nat) (rest : list Die) (found : option nat)
    : res (option nat) :=
  match rest with
  | [] => Ok found
  | die :: rest =>
    contains ← (if die_tag die =? kDwTagSubprogram then die_contains_pc die virtual_pc else Ok false);
    if negb contains then subprogram_from multiple virtual_pc (S index) rest found
    else
      _ ← throw_if (bool_decide (is_Some found)) (Exn RuntimeError multiple);
      subprogram_from multiple virtual_pc (S index) rest (Some index)
  end.

Definition is_value_tag (die : Die) : bool := (die_tag die =? kDwTagVariable) || (die_tag die =? kDwTagFormalParameter).

(** The deepest of the variables of a name from [index] on.  [scope] gives the depth of a
    variable that is in scope; the flag is set by [note] for what the message needs when no
    variable is. *)
(* src/dwarf/source_lookup_impl.inc:2568-2593 inspect_unit *)
Fixpoint value_from (dies : list Die) (ambiguous name : string) (scope : nat -> res (option Z))
    (note : nat -> option Z -> res bool) (index : nat) (rest : list Die) (best : option (nat * Z)) (flag : bool)
    : res (option (nat * Z) * bool) :=
  match rest with
  | [] => Ok (best, flag)
  | die :: rest =>
    let continue_ := value_from dies ambiguous name scope note (S index) rest in
    if negb (is_value_tag die) then continue_ best flag
    else
      die_name ← attribute_with_abstract_origin dies index kDwAtName;
      if negb (bool_decide (av_text <$> die_name = Some name)) then continue_ best flag
      else
        depth ← scope index;
        noted ← note index depth;
        let flag := flag || noted in
        match depth, best with
        | None, _ => continue_ best flag
        | Some depth, None => continue_ (Some (index, depth)) flag
        | Some depth, Some (_, best_depth) =>
          if best_depth <? depth then continue_ (Some (index, depth)) flag
          else
            _ ← throw_if (depth =? best_depth) (Exn RuntimeError (ambiguous +:+ name));
            continue_ best flag
        end
  end.

(** The texts of an inspection: the address has several subprograms, the name has several
    variables, is out of scope, or is not in the subprogram. *)
Record lookup_messages := mkLookup { lm_multiple : string; lm_ambiguous : string; lm_outside : string; lm_absent : string }.

(** The variable of the name in the scope of the address. *)
(* src/dwarf/source_lookup_impl.inc:2568-2601 inspect_unit *)
Definition find_value (m : lookup_messages) (dies : list Die) (subprogram : nat) (virtual_pc : Z) (name : string)
    : res nat :=
  '(best, nested_name) ←
    value_from dies (lm_ambiguous m) name (fun index => active_scope_depth dies index subprogram virtual_pc)
      (fun index depth => match depth with None => is_descendant_of dies index subprogram | Some _ => Ok false end)
      0 dies None false;
  match best with
  | Some (index, _) => Ok index
  | None => runtime_error ((if nested_name : bool then lm_outside m else lm_absent m) +:+ name)
  end.

(** A variable that was found: its entry, its subprogram and what its location needs. *)
Record found_value := mkFound {
  fv_dies : list Die; fv_version : Z; fv_unit_base : Z; fv_subprogram : nat; fv_index : nat
}.

(** The variable in the unit that starts at [unit_start], if the unit has the address, and
    the start of the next unit. *)
(* src/dwarf/source_lookup_impl.inc:2546-2601 inspect_unit *)
Definition find_unit_value (m : lookup_messages) (sections : DebugSections) (virtual_pc : Z) (name : string)
    (unit_start : Z) : res (option found_value * Z) :=
  unit ← parse_unit_dies sections unit_start;
  let dies := unit_dies unit in
  subprogram ← subprogram_from (lm_multiple m) virtual_pc 0 dies None;
  match subprogram with
  | None => Ok (None, next_unit unit)
  | Some subprogram =>
    index ← find_value m dies subprogram virtual_pc name;
    Ok (Some (mkFound dies (parsed_version unit) (unit_low_pc dies) subprogram index), next_unit unit)
  end.

(** The location attribute of a variable and the offset of its type. *)
(* src/dwarf/source_lookup_impl.inc:2604-2613 inspect_unit *)
Definition value_attributes (no_location no_type : string) (dies : list Die) (index : nat)
    : res (AttributeValue * Z) :=
  die ← die_at dies index;
  type ← attribute_with_abstract_origin dies index kDwAtType;
  location ← require (attribute die kDwAtLocation) no_location;
  type ← require type no_type;
  _ ← throw_if (negb (av_form type =? kDwFormRef4)) (Exn RuntimeError no_type);
  Ok (location, av_number type).

(* src/dwarf/source_lookup_impl.inc:2616-2624 inspect_unit *)
Definition value_expression (unsupported : string) (sections : DebugSections) (location : AttributeValue)
    (virtual_pc unit_base unit_version : Z) : res (list byte) :=
  if av_form location =? kDwFormExprloc then Ok (av_expression location)
  else if (av_form location =? kDwFormSecOffset) || (av_form location =? kDwFormLoclistx)
  then active_location_expression sections (av_number location) virtual_pc unit_base unit_version
  else runtime_error unsupported.
