(* ===== verification/SnapshotValues.v ===== *)
(** * Values of locals in a core ([src/dwarf/source_lookup_snapshot_impl.inc])

    Reading a variable of a frame of a core snapshot: from the registers the frame owns,
    from the stack below its frame base, or from static storage, with the bytes taken from
    the core or from the runtime file; then following a pointer to what it points to. *)

From S2P Require Import Prelude Machine ByteReader ElfFormat EhFrame Elf Core CoreExtras ModulePath SnapshotMemory Unwind Inspection LocalValue DebugInfo DebugTypes DebugValues DebugScopes.

(* src/dwarf/source_lookup_snapshot_impl.inc:9-9 kDwOpAddr *)
Definition kDwOpAddr : Z := 0x03.
(* src/dwarf/source_lookup_snapshot_impl.inc:11-12 kSnapshotDwOpRdi *)
Definition kSnapshotDwOpRdi : Z := kDwOpReg0 + 5.
(* src/dwarf/source_lookup_snapshot_impl.inc:13-14 kSnapshotDwOpRsp *)
Definition kSnapshotDwOpRsp : Z := kDwOpReg0 + 7.
(* src/dwarf/source_lookup_snapshot_impl.inc:15-16 kSnapshotDwOpR12 *)
Definition kSnapshotDwOpR12 : Z := kDwOpReg0 + 12.
(* src/dwarf/source_lookup_snapshot_impl.inc:17-18 kSnapshotDwOpXmm0 *)
Definition kSnapshotDwOpXmm0 : Z := kDwOpReg0 + 17.

(** ** Operands and scalars *)

(* src/dwarf/source_lookup_snapshot_impl.inc:20-33 decode_snapshot_address *)
Definition decode_snapshot_address (expression : list byte) : res Z :=
  _ ← throw_if (negb (size_of expression =? 1 + 8))
        (Exn RuntimeError "snapshot DW_OP_addr requires one exact x86-64 address operand");
  Ok (or_bytes 0 0 (drop 1 expression)).

(* src/dwarf/source_lookup_snapshot_impl.inc:35-48 decode_snapshot_scalar *)
Definition decode_snapshot_scalar (memory : SnapshotMemoryRead) (byte_size : Z) : res Z :=
  _ ← throw_if ((byte_size =? 0) || (8 <? byte_size) || negb (size_of (mr_bytes memory) =? byte_size))
        (Exn RuntimeError "snapshot scalar memory width is unsupported");
  Ok (or_bytes 0 0 (mr_bytes memory)).

(* src/dwarf/source_lookup_snapshot_impl.inc:50-65 decode_snapshot_fbreg_offset *)
Definition decode_snapshot_fbreg_offset (expression : list byte) : res Z :=
  _ ← throw_if (negb (starts_with kDwOpFbreg expression))
        (Exn RuntimeError "snapshot stack local requires one compiler-proven DW_OP_fbreg expression");
  only_sleb "snapshot DW_OP_fbreg offset" "snapshot DW_OP_fbreg does not support trailing operations" expression.

(* src/dwarf/source_lookup_snapshot_impl.inc:285-296 snapshot_xmm_index *)
Definition snapshot_xmm_index (expression : list byte) : res nat :=
  _ ← throw_if (negb (size_of expression =? 1))
        (Exn RuntimeError "snapshot XMM local requires one exact compiler-proven DW_OP_reg expression");
  _ ← throw_if (negb (starts_with kSnapshotDwOpXmm0 expression))
        (Exn RuntimeError
           "snapshot XMM local currently supports only compiler-proven DW_OP_reg17 (xmm0)");
  Ok 0%nat.

Definition set_module_path (module_path : string) (v : LocalScalarValue) : LocalScalarValue :=
  mkValue module_path (lv_name v) (lv_raw_value v) (lv_byte_size v) (lv_is_signed v) (lv_kind v) (lv_members v)
    (lv_storage v) (lv_storage_module_path v) (lv_storage_file_path v) (lv_storage_file_offset v) (lv_pointee_type v)
    (lv_elements v) (lv_array_type v) (lv_enum_type v).

(** [result.storage = LocalValueStorage::SnapshotCoreRegister] and the like. *)
Definition with_storage (storage : LocalValueStorage) (v : LocalScalarValue) : LocalScalarValue :=
  set_storage storage (lv_storage_module_path v) (lv_storage_file_path v) (lv_storage_file_offset v) v.

(** ** Values from memory *)

(** What the type of an enumeration must carry to be materialised. *)
(* src/dwarf/source_lookup_snapshot_impl.inc:473-480 materialize_snapshot_memory_value *)
Definition bad_enum_type (type : LocalValueType) : bool :=
  match vt_enum_type type with
  | None => true
  | Some enum_type =>
    negb (et_byte_size enum_type =? vt_byte_size type) ||
    negb (Bool.eqb (et_is_signed enum_type) (vt_is_signed type)) ||
    match et_enumerators enum_type with [] => true | _ => false end
  end.

(* src/dwarf/source_lookup_snapshot_impl.inc:431-461 materialize_snapshot_memory_value *)
Definition snapshot_structure (module_path name : string) (type : LocalValueType) (bytes : list byte)
    : res LocalScalarValue :=
  _ ← throw_if ((vt_byte_size type =? 0) || (kMaxLocalStructSize <? vt_byte_size type) ||
                negb (size_of bytes =? vt_byte_size type))
        (Exn RuntimeError "snapshot aggregate bytes exceed the bounded structure model");
  members ← mapM (decode_member "snapshot non-structure member unexpectedly carries nested metadata"
                    (vt_byte_size type) bytes) (vt_members type);
  Ok (set_members members (aggregate module_path name (vt_byte_size type) KStructure)).

(* src/dwarf/source_lookup_snapshot_impl.inc:468-492 materialize_snapshot_memory_value *)
Definition snapshot_scalar (module_path name : string) (type : LocalValueType) (memory : SnapshotMemoryRead)
    : res LocalScalarValue :=
  _ ← throw_if (bool_decide (is_Some (vt_array_type type)))
        (Exn LogicError "non-array snapshot value unexpectedly carries array metadata");
  let enumeration := bool_decide (vt_kind type = KEnumeration) in
  _ ← throw_if (enumeration && bad_enum_type type)
        (Exn LogicError "snapshot enum value lost bounded compiler type metadata");
  _ ← throw_if (negb enumeration && bool_decide (is_Some (vt_enum_type type)))
        (Exn LogicError "non-enum snapshot value unexpectedly carries enum metadata");
  raw ← decode_snapshot_scalar memory (vt_byte_size type);
  let result := scalar module_path name raw (vt_byte_size type) (vt_is_signed type) (vt_kind type) in
  Ok (if enumeration then set_enum_type (vt_enum_type type) result else result).

(* src/dwarf/source_lookup_snapshot_impl.inc:494-505 materialize_snapshot_memory_value *)
Definition memory_storage (module_path : string) (require_owner_match : bool) (memory : SnapshotMemoryRead)
    (result : LocalScalarValue) : res LocalScalarValue :=
  match mr_provenance memory with
  | FromCore => Ok (with_storage SnapshotCoreMemory result)
  | FromRuntimeArtifact =>
    _ ← throw_if (require_owner_match && negb (String.eqb (mr_module_path memory) module_path))
          (Exn LogicError "snapshot local artifact ownership changed during value read");
    Ok (set_storage SnapshotRuntimeArtifact (mr_module_path memory) (mr_module_file_path memory)
          (mr_artifact_file_offset memory) result)
  end.

(* src/dwarf/source_lookup_snapshot_impl.inc:426-506 materialize_snapshot_memory_value *)
Definition materialize_snapshot_memory_value (module_path name : string) (type : LocalValueType)
    (memory : SnapshotMemoryRead) (require_owner_match : bool) : res LocalScalarValue :=
  result ← match vt_kind type with
           | KStructure => snapshot_structure module_path name type (mr_bytes memory)
           | KUnion => materialize_bounded_union_bytes module_path name type (mr_bytes memory)
           | KArray => materialize_bounded_array_bytes module_path name type (mr_bytes memory)
           | _ => snapshot_scalar module_path name type memory
           end;
  memory_storage module_path require_owner_match memory result.

(** ** What a pointer points to *)

(** The texts of the two functions that check a structure behind a pointer. *)
Record pointee_messages := mkPointeeMessages {
  pe_class : exn_class; pe_range : string; pe_integer : string; pe_pointer : string; pe_unsupported : string
}.

(** A member of a structure a pointer points to. *)
(* src/dwarf/source_lookup_snapshot_impl.inc:525-546 attach_pointer_metadata *)
Definition check_pointee_member (m : pointee_messages) (byte_size : Z) (member : LocalStructMemberType) : res unit :=
  _ ← throw_if ((mt_byte_size member =? 0) || (8 <? mt_byte_size member) || (byte_size <? mt_offset member) ||
                (byte_size - mt_offset member <? mt_byte_size member)) (Exn (pe_class m) (pe_range m));
  match mt_kind member with
  | KInteger => throw_if (bool_decide (is_Some (mt_pointee_type member))) (Exn (pe_class m) (pe_integer m))
  | KPointer =>
    throw_if (negb (mt_byte_size member =? 8) || mt_is_signed member ||
              match mt_pointee_type member with
              | None => true
              | Some pointee => (pt_byte_size pointee =? 0) || (8 <? pt_byte_size pointee)
              end) (Exn (pe_class m) (pe_pointer m))
  | _ => Throw (Exn (pe_class m) (pe_unsupported m))
  end.

Definition attach_messages : pointee_messages :=
  mkPointeeMessages LogicError "bounded pointer value has an out-of-range structure member"
    "bounded integer structure member unexpectedly has pointee metadata"
    "bounded pointer structure member has invalid pointee metadata"
    "bounded structure member has an unsupported direct member kind".

(** The width of an integer pointee, and that of a structure with the number of its members. *)
Definition bad_integer_pointee (pointee : LocalValueType) : bool :=
  (vt_byte_size pointee =? 0) || (8 <? vt_byte_size pointee) ||
  match vt_members pointee with [] => false | _ => true end.
Definition bad_structure_pointee (pointee : LocalValueType) : bool :=
  (vt_byte_size pointee =? 0) || (kMaxLocalStructSize <? vt_byte_size pointee) ||
  (kMaxLocalStructMembers <? size_of (vt_members pointee)).

(* src/dwarf/source_lookup_snapshot_impl.inc:508-552 attach_pointer_metadata *)
Definition attach_pointer_metadata (result : LocalScalarValue) (pointee : option LocalValueType)
    : res LocalScalarValue :=
  if bool_decide (lv_kind result <> KPointer) then Ok result
  else
    match pointee with
    | None => logic_error "bounded pointer value lost its pointee metadata"
    | Some pointee =>
      _ ← match vt_kind pointee with
          | KInteger =>
            throw_if (bad_integer_pointee pointee)
              (Exn LogicError "bounded pointer value has invalid integer pointee metadata")
          | KStructure =>
            _ ← throw_if (bad_structure_pointee pointee)
                  (Exn LogicError "bounded pointer value has invalid structure pointee metadata");
            _ ← mapM (check_pointee_member attach_messages (vt_byte_size pointee)) (vt_members pointee);
            Ok tt
          | _ => logic_error "bounded pointer value has an unsupported pointee kind"
          end;
      Ok (set_pointee (Some pointee) result)
    end.

(** ** A variable of a frame *)

Section Snapshot.
Context `{H : Host} `{F : FileAccess}.

(** The reader the CFA rules get. *)
(* src/dwarf/source_lookup_snapshot_impl.inc:102-105 snapshot_frame_base *)
Definition snapshot_reader (snapshot : SnapshotObject) (module_paths : SnapshotModulePathResolver)
    (address length : Z) : M unit (list byte) :=
  lift (memory ← read_snapshot_memory (so_core snapshot) module_paths address length; Ok (mr_bytes memory)).

(* src/dwarf/source_lookup_snapshot_impl.inc:97-113 snapshot_frame_base *)
Definition snapshot_frame_cfa (snapshot : SnapshotObject) (frame : SnapshotInspectionFrameContext)
    (module_paths : SnapshotModulePathResolver) (owner : SnapshotModuleAddress) : res Z :=
  cfi ← open_eh_frame (ma_module_file_path owner);
  _ ← throw_if (negb (eh_available cfi))
        (Exn RuntimeError "snapshot DW_OP_call_frame_cfa requires owner .eh_frame");
  caller ← fst (caller_frame_with cfi (snapshot_reader snapshot module_paths) (ma_virtual_address owner)
                  (mkCursor (sf_runtime_pc frame) (sf_stack_pointer frame) (sf_frame_pointer frame)
                     (ir_rbx (sf_registers frame))) tt);
  caller ← require caller "snapshot CFI did not cover compiler-proven DW_OP_call_frame_cfa";
  Ok (stack_pointer caller).

(* src/dwarf/source_lookup_snapshot_impl.inc:67-114 snapshot_frame_base *)
Definition snapshot_frame_base (dies : list Die) (subprogram : nat) (snapshot : SnapshotObject)
    (frame : SnapshotInspectionFrameContext) (module_paths : SnapshotModulePathResolver)
    (owner : SnapshotModuleAddress) : res Z :=
  die ← die_at dies subprogram;
  let bad := "snapshot DW_OP_fbreg requires one compiler-proven DW_AT_frame_base operation" in
  frame_base ← require (attribute die kDwAtFrameBase) bad;
  let expression := av_expression frame_base in
  _ ← throw_if (negb (av_form frame_base =? kDwFormExprloc) || negb (size_of expression =? 1))
        (Exn RuntimeError bad);
  if starts_with kSnapshotDwOpRsp expression then
    rsp ← require (ir_rsp (sf_registers frame)) "snapshot DW_OP_reg7 frame base requires immutable RSP ownership";
    _ ← throw_if (negb (rsp =? sf_stack_pointer frame))
          (Exn LogicError "snapshot inspection-frame RSP ownership does not match its stack pointer");
    Ok rsp
  else
    _ ← throw_if (negb (starts_with kDwOpCallFrameCfa expression))
          (Exn RuntimeError "snapshot DW_OP_fbreg has an unsupported DW_AT_frame_base operation");
    snapshot_frame_cfa snapshot frame module_paths owner.

(** The bytes of the register: of the thread in frame 0, of a restored signal context above. *)
(* src/dwarf/source_lookup_snapshot_impl.inc:308-326 materialize_snapshot_xmm_value *)
Definition snapshot_xmm (snapshot : SnapshotObject) (frame : SnapshotInspectionFrameContext) (index : nat)
    : res (list byte) :=
  if sf_index frame =? 0 then
    floating ← floating_point_state (so_core snapshot) (sf_thread_tid frame);
    floating ← require floating "selected core thread has no NT_FPREGSET state for XMM source recovery";
    require (fps_xmm floating !! index) "snapshot XMM register number is outside the FPREGSET model"
  else
    _ ← throw_if (negb (Nat.eqb index 0))
          (Exn RuntimeError "historical snapshot frame has no restored XMM0 ownership");
    require (ir_xmm0 (sf_registers frame)) "historical snapshot frame has no restored XMM0 ownership".

(* src/dwarf/source_lookup_snapshot_impl.inc:298-338 materialize_snapshot_xmm_value *)
Definition materialize_snapshot_xmm_value (snapshot : SnapshotObject) (frame : SnapshotInspectionFrameContext)
    (owner : SnapshotModuleAddress) (name : string) (type : LocalValueType) (expression : list byte)
    : res LocalScalarValue :=
  _ ← throw_if (bool_decide (vt_kind type <> KFloating) ||
                (negb (vt_byte_size type =? 4) && negb (vt_byte_size type =? 8)))
        (Exn RuntimeError "snapshot XMM register location requires a bounded floating scalar type");
  index ← snapshot_xmm_index expression;
  xmm ← snapshot_xmm snapshot frame index;
  let raw := or_bytes 0 0 (take (Z.to_nat (vt_byte_size type)) xmm) in
  Ok (with_storage SnapshotCoreRegister
        (scalar (ma_module_path owner) name raw (vt_byte_size type) false KFloating)).

(** *** The location forms *)

(** A structure in RDI and RSI. *)
(* src/dwarf/source_lookup_snapshot_impl.inc:653-671 inspect_snapshot_unit *)
Definition snapshot_register_pieces (frame : SnapshotInspectionFrameContext) (owner : SnapshotModuleAddress)
    (name : string) (type : LocalValueType) (expression : list byte) : res LocalScalarValue :=
  match ir_rdi (sf_registers frame), ir_rsi (sf_registers frame) with
  | Some rdi, Some rsi =>
    bytes ← evaluate_register_piece_value expression
              (fun op => register_owner op [(kDwOpReg5, rdi); (kDwOpReg4, rsi)]
                           "snapshot historical register-piece local requested an unowned register") type;
    module ← open_elf (ma_module_file_path owner);
    result ← decode_structure module name type bytes;
    Ok (with_storage SnapshotCoreRegister (set_module_path (ma_module_path owner) result))
  | _, _ =>
    runtime_error "snapshot register-piece local requires explicit restored RDI/RSI ownership"
  end.

(** A scalar in one register, RDI or R12: [op] and [register] are their names in the texts. *)
(* src/dwarf/source_lookup_snapshot_impl.inc:673-698 inspect_snapshot_unit *)
Definition snapshot_register_scalar (op register : string) (value : option Z) (owner : SnapshotModuleAddress)
    (name : string) (root : BoundedRootTypeResolution) (expression : list byte) : res LocalScalarValue :=
  let type := root_value_type root in
  _ ← throw_if (negb (size_of expression =? 1))
        (Exn RuntimeError ("snapshot " +:+ op +:+ " requires one exact compiler-proven register operation"));
  _ ← throw_if (negb (is_integer_or_pointer (vt_kind type)) || (vt_byte_size type =? 0) || (8 <? vt_byte_size type))
        (Exn RuntimeError ("snapshot " +:+ op +:+ " requires a bounded integer/pointer scalar value"));
  value ← require value ("snapshot " +:+ op +:+ " requires immutable " +:+ register +:+ " ownership");
  attach_pointer_metadata
    (with_storage SnapshotCoreRegister
       (scalar (ma_module_path owner) name (truncate_integer value (vt_byte_size type)) (vt_byte_size type)
          (vt_is_signed type) (vt_kind type)))
    (root_pointee_type root).

(** Whether the type is one that may be read from the stack. *)
(* src/dwarf/source_lookup_snapshot_impl.inc:728-776 inspect_snapshot_unit *)
Definition fbreg_type (type : LocalValueType) : res unit :=
  let bad_structure := (vt_byte_size type =? 0) || (kMaxLocalStructSize <? vt_byte_size type) ||
                       match vt_members type with [] => true | _ => false end ||
                       (kMaxLocalStructMembers <? size_of (vt_members type)) in
  match vt_kind type with
  | KInteger | KEnumeration =>
    _ ← throw_if ((vt_byte_size type =? 0) || (8 <? vt_byte_size type))
          (Exn RuntimeError "snapshot DW_OP_fbreg scalar width exceeds the bounded model");
    throw_if (bool_decide (vt_kind type = KEnumeration) && bad_enum_type type)
      (Exn RuntimeError "snapshot DW_OP_fbreg enum lost bounded compiler metadata")
  | KStructure =>
    throw_if bad_structure (Exn RuntimeError "snapshot DW_OP_fbreg structure exceeds the bounded aggregate model")
  | KArray =>
    throw_if match vt_array_type type with
             | None => true
             | Some array =>
               match vt_members type with [] => false | _ => true end || (at_element_count array =? 0) ||
               (kMaxLocalArrayElements <? at_element_count array) || (at_element_byte_size array =? 0) ||
               (8 <? at_element_byte_size array) || bool_decide (at_element_kind array <> KInteger) ||
               negb (vt_byte_size type =? at_element_count array * at_element_byte_size array)
             end
      (Exn RuntimeError "snapshot DW_OP_fbreg fixed array exceeds the bounded array model")
  | KUnion =>
    throw_if (bad_structure || bool_decide (is_Some (vt_array_type type)))
      (Exn RuntimeError "snapshot DW_OP_fbreg union exceeds the bounded overlapping-storage model")
  | _ =>
    runtime_error
      "snapshot DW_OP_fbreg requires a bounded integer, enum, structure, fixed array, or union local"
  end.

(** The value at the offset from the frame base of the subprogram. *)
(* src/dwarf/source_lookup_snapshot_impl.inc:777-789 inspect_snapshot_unit *)
Definition snapshot_stack_value (what too_wide : string) (snapshot : SnapshotObject)
    (frame : SnapshotInspectionFrameContext) (module_paths : SnapshotModulePathResolver)
    (owner : SnapshotModuleAddress) (dies : list Die) (subprogram : nat) (name : string) (type : LocalValueType)
    (expression : list byte) : res LocalScalarValue :=
  base ← snapshot_frame_base dies subprogram snapshot frame module_paths owner;
  offset ← decode_snapshot_fbreg_offset expression;
  runtime_address ← add_signed base offset what;
  _ ← throw_if (u64_max <? runtime_address) (Exn OverflowError too_wide);
  memory ← read_snapshot_memory (so_core snapshot) module_paths runtime_address (vt_byte_size type);
  materialize_snapshot_memory_value (ma_module_path owner) name type memory true.

(* src/dwarf/source_lookup_snapshot_impl.inc:791-812 inspect_snapshot_unit *)
Definition snapshot_breg3 (frame : SnapshotInspectionFrameContext) (owner : SnapshotModuleAddress) (name : string)
    (root : BoundedRootTypeResolution) (expression : list byte) : res LocalScalarValue :=
  let type := root_value_type root in
  _ ← throw_if (negb (is_integer_or_pointer (vt_kind type)))
        (Exn RuntimeError "snapshot caller DW_OP_breg3 requires an integer/pointer scalar value");
  rbx ← require (ir_rbx (sf_registers frame))
          "snapshot caller DW_OP_breg3 requires CFI-recovered historical RBX";
  value ← evaluate_breg3_xor_stack_value expression rbx;
  attach_pointer_metadata
    (scalar (ma_module_path owner) name (truncate_integer value (vt_byte_size type)) (vt_byte_size type)
       (vt_is_signed type) (vt_kind type))
    (root_pointee_type root).

(* src/dwarf/source_lookup_snapshot_impl.inc:822-841 inspect_snapshot_unit *)
Definition addr_type (type : LocalValueType) : res unit :=
  let outside what :=
    runtime_error ("snapshot DW_OP_addr " +:+ what +:+ " materialization is outside current compiler evidence") in
  match vt_kind type with
  | KArray => outside "fixed-array"
  | KEnumeration => outside "enum"
  | KUnion => outside "union"
  | KStructure =>
    throw_if ((vt_byte_size type =? 0) || (kMaxLocalStructSize <? vt_byte_size type))
      (Exn RuntimeError "snapshot DW_OP_addr aggregate width exceeds the bounded reader")
  | _ =>
    throw_if ((vt_byte_size type =? 0) || (8 <? vt_byte_size type))
      (Exn RuntimeError "snapshot DW_OP_addr scalar width exceeds the bounded reader")
  end.

(** A value in static storage: its address moves with the module. *)
(* src/dwarf/source_lookup_snapshot_impl.inc:842-861 inspect_snapshot_unit *)
Definition snapshot_static_value (snapshot : SnapshotObject) (frame : SnapshotInspectionFrameContext)
    (module_paths : SnapshotModulePathResolver) (owner : SnapshotModuleAddress) (name : string)
    (root : BoundedRootTypeResolution) (expression : list byte) : res LocalScalarValue :=
  let type := root_value_type root in
  _ ← addr_type type;
  lookup_runtime_pc ← snapshot_frame_lookup_pc frame;
  _ ← throw_if (lookup_runtime_pc <? ma_virtual_address owner)
        (Exn RuntimeError "snapshot frame lookup PC is below its module virtual address");
  let load_bias := lookup_runtime_pc - ma_virtual_address owner in
  virtual_address ← decode_snapshot_address expression;
  _ ← throw_if (u64_max - load_bias <? virtual_address)
        (Exn OverflowError "snapshot DW_OP_addr runtime address overflow");
  let runtime_address := virtual_address + load_bias in
  _ ← throw_if (u64_max <? runtime_address)
        (Exn OverflowError "snapshot DW_OP_addr exceeds runtime address width");
  memory ← read_snapshot_memory (so_core snapshot) module_paths runtime_address (vt_byte_size type);
  result ← materialize_snapshot_memory_value (ma_module_path owner) name type memory true;
  attach_pointer_metadata result (root_pointee_type root).

(** What the texts call the location forms a frame may use. *)
(* src/dwarf/source_lookup_snapshot_impl.inc:815-820 inspect_snapshot_unit *)
Definition unsupported_location (frame : SnapshotInspectionFrameContext) : string :=
  if sf_index frame =? 0
  then "snapshot frame-zero local requires compiler-proven XMM0, register-piece, DW_OP_fbreg, DW_OP_reg5, DW_OP_reg12, or DW_OP_addr ownership"
  else "snapshot caller local requires compiler-proven XMM0, register-piece, DW_OP_fbreg, DW_OP_breg3, DW_OP_reg5, DW_OP_reg12, or DW_OP_addr ownership".

(** The value of a location, by its first operation. *)
(* src/dwarf/source_lookup_snapshot_impl.inc:642-862 inspect_snapshot_unit *)
Definition snapshot_value (snapshot : SnapshotObject) (frame : SnapshotInspectionFrameContext)
    (module_paths : SnapshotModulePathResolver) (owner : SnapshotModuleAddress) (dies : list Die) (subprogram : nat)
    (name : string) (root : BoundedRootTypeResolution) (expression : list byte) : res LocalScalarValue :=
  let type := root_value_type root in
  match first_op expression with
  | None => runtime_error "snapshot local requires a compiler-proven location form"
  | Some opcode =>
    if opcode =? kSnapshotDwOpXmm0 then materialize_snapshot_xmm_value snapshot frame owner name type expression
    else if bool_decide (vt_kind type = KStructure) && (opcode =? kDwOpReg5)
    then snapshot_register_pieces frame owner name type expression
    else if opcode =? kSnapshotDwOpRdi
    then snapshot_register_scalar "DW_OP_reg5" "RDI" (ir_rdi (sf_registers frame)) owner name root expression
    else if opcode =? kSnapshotDwOpR12
    then snapshot_register_scalar "DW_OP_reg12" "R12" (ir_r12 (sf_registers frame)) owner name root expression
    else if opcode =? kDwOpFbreg then
      _ ← fbreg_type type;
      snapshot_stack_value "snapshot DW_OP_fbreg runtime address"
        "snapshot DW_OP_fbreg address exceeds runtime address width" snapshot frame module_paths owner dies subprogram
        name type expression
    else if opcode =? kDwOpBreg3 then snapshot_breg3 frame owner name root expression
    else if negb (opcode =? kDwOpAddr) then runtime_error (unsupported_location frame)
    else snapshot_static_value snapshot frame module_paths owner name root expression
  end.

(* src/dwarf/source_lookup_snapshot_impl.inc:577-619 inspect_snapshot_unit *)
Definition snapshot_lookup : lookup_messages :=
  mkLookup "snapshot inspection frame PC matches multiple DWARF subprograms"
    "ambiguous local value in snapshot inspection-frame lexical scope: "
    "local value is outside the snapshot inspection-frame lexical scope: "
    "local value is not in the snapshot inspection-frame subprogram: ".

(* src/dwarf/source_lookup_snapshot_impl.inc:560-642 inspect_snapshot_unit *)
Definition inspect_snapshot_unit (sections : DebugSections) (snapshot : SnapshotObject)
    (frame : SnapshotInspectionFrameContext) (module_paths : SnapshotModulePathResolver)
    (owner : SnapshotModuleAddress) (virtual_pc : Z) (name : string) (unit_start : Z)
    : res (option LocalScalarValue * Z) :=
  '(found, next) ← find_unit_value snapshot_lookup sections virtual_pc name unit_start;
  match found with
  | None => Ok (None, next)
  | Some found =>
    '(location, type) ← value_attributes "local value has no DW_AT_location"
      "local value has no supported DW_FORM_ref4 type" (fv_dies found) (fv_index found);
    root ← resolve_bounded_root_value_type (fv_dies found) type;
    expression ← value_expression "local value has no supported DW_AT_location form" sections location virtual_pc
                   (fv_unit_base found) (fv_version found);
    value ← snapshot_value snapshot frame module_paths owner (fv_dies found) (fv_subprogram found) name root expression;
    Ok (Some value, next)
  end.

(** ** The operations *)

(* src/dwarf/source_lookup_snapshot_impl.inc:866-896 inspect_local_value *)
Definition inspect_local_value (snapshot : SnapshotObject) (frame : SnapshotInspectionFrameContext) (name : string)
    (module_paths : SnapshotModulePathResolver) : res LocalScalarValue :=
  _ ← throw_if (String.eqb name EmptyString) (Exn InvalidArgument "local variable name must not be empty");
  _ ← validate_snapshot_inspection_frame snapshot frame;
  _ ← validate_snapshot_frame_lookup_pc frame;
  lookup_runtime_pc ← snapshot_frame_lookup_pc frame;
  owner ← resolve_snapshot_module_address (so_core snapshot) lookup_runtime_pc module_paths;
  _ ← throw_if (negb (String.eqb (ma_module_path owner) (sf_module_path frame)))
        (Exn LogicError "snapshot inspection frame module ownership changed");
  debug_path ← resolve_debug_file (ma_module_path owner) module_paths;
  sections ← read_debug_sections debug_path;
  result ← search_units "DWARF parser did not advance to the next unit" sections
             (inspect_snapshot_unit sections snapshot frame module_paths owner (ma_virtual_address owner) name);
  require result
    "snapshot inspection-frame lookup PC is not covered by a supported DWARF4/5 subprogram".

Definition dereference_messages : pointee_messages :=
  mkPointeeMessages RuntimeError "pointer structure member exceeds bounded pointee layout"
    "integer structure member retained unexpected pointee metadata"
    "pointer structure member has invalid bounded metadata" "pointer structure member kind is unsupported".

(** The type the bytes behind a pointer are read with. *)
(* src/dwarf/source_lookup_snapshot_impl.inc:921-961 dereference_local_pointer *)
Definition pointee_value_type (pointee : LocalValueType) : res LocalValueType :=
  match vt_kind pointee with
  | KInteger =>
    _ ← throw_if (bad_integer_pointee pointee)
          (Exn RuntimeError "pointer does not have a bounded integer pointee type");
    Ok (value_type (vt_byte_size pointee) (vt_is_signed pointee) KInteger [])
  | KStructure =>
    _ ← throw_if (bad_structure_pointee pointee)
          (Exn RuntimeError "pointer does not have a bounded structure pointee type");
    _ ← mapM (check_pointee_member dereference_messages (vt_byte_size pointee)) (vt_members pointee);
    Ok (value_type (vt_byte_size pointee) false KStructure (vt_members pointee))
  | _ => runtime_error "pointer pointee kind is unsupported for bounded dereference"
  end.

(* src/dwarf/source_lookup_snapshot_impl.inc:904-977 dereference_local_pointer *)
Definition dereference_local_pointer (snapshot : SnapshotObject) (frame : SnapshotInspectionFrameContext)
    (name : string) (module_paths : SnapshotModulePathResolver) : res LocalScalarValue :=
  pointer ← inspect_local_value snapshot frame name module_paths;
  _ ← throw_if (bool_decide (lv_kind pointer <> KPointer))
        (Exn RuntimeError ("local value is not a pointer: " +:+ name));
  pointee ← require (lv_pointee_type pointer) "pointer does not have bounded pointee metadata";
  _ ← throw_if (lv_raw_value pointer =? 0)
        (Exn RuntimeError ("cannot dereference a null core pointer: " +:+ name));
  _ ← throw_if (u64_max <? lv_raw_value pointer) (Exn RuntimeError "core pointer exceeds host address width");
  type ← pointee_value_type pointee;
  memory ← read_snapshot_memory (so_core snapshot) module_paths (lv_raw_value pointer) (vt_byte_size type);
  result ← materialize_snapshot_memory_value (lv_module_path pointer) ("*" +:+ lv_name pointer) type memory false;
  _ ← throw_if (bool_decide (lv_kind result = KStructure) &&
                negb (size_of (lv_members result) =? size_of (vt_members pointee)))
        (Exn LogicError "bounded structure materialization changed member count");
  Ok result.

(** The offset in the runtime file of a member of what was read from it. *)
(* src/dwarf/source_lookup_snapshot_impl.inc:1028-1039 inspect_local_pointer_member *)
Definition member_storage (object : LocalScalarValue) (offset : Z) (result : LocalScalarValue)
    : res LocalScalarValue :=
  let stored file_offset :=
    set_storage (lv_storage object) (lv_storage_module_path object) (lv_storage_file_path object) file_offset result in
  if bool_decide (lv_storage object = SnapshotRuntimeArtifact) then
    _ ← throw_if (u64_max - lv_storage_file_offset object <? offset)
          (Exn OverflowError "pointer member artifact offset overflow");
    Ok (stored (lv_storage_file_offset object + offset))
  else Ok (stored (lv_storage_file_offset object)).

(* src/dwarf/source_lookup_snapshot_impl.inc:986-1047 inspect_local_pointer_member *)
Definition inspect_local_pointer_member (snapshot : SnapshotObject) (frame : SnapshotInspectionFrameContext)
    (name member_name : string) (module_paths : SnapshotModulePathResolver) : res LocalScalarValue :=
  _ ← throw_if (String.eqb member_name EmptyString)
        (Exn InvalidArgument "pointer member name must not be empty");
  pointer ← inspect_local_value snapshot frame name module_paths;
  let not_structure := "local value is not a pointer to a bounded structure: " +:+ name in
  _ ← throw_if (bool_decide (lv_kind pointer <> KPointer)) (Exn RuntimeError not_structure);
  pointee ← require (lv_pointee_type pointer) not_structure;
  _ ← throw_if (bool_decide (vt_kind pointee <> KStructure)) (Exn RuntimeError not_structure);
  object ← dereference_local_pointer snapshot frame name module_paths;
  _ ← throw_if (bool_decide (lv_kind object <> KStructure) ||
                negb (size_of (lv_members object) =? size_of (vt_members pointee)))
        (Exn LogicError "bounded containing structure lost member ownership");
  type ← require (List.find (fun member => String.eqb (mt_name member) member_name) (vt_members pointee))
           ("bounded structure has no member named: " +:+ member_name);
  let not_pointer := "bounded structure member is not a supported pointer: " +:+ member_name in
  _ ← throw_if (bool_decide (mt_kind type <> KPointer)) (Exn RuntimeError not_pointer);
  member_pointee ← require (mt_pointee_type type) not_pointer;
  match List.find (fun member => String.eqb (sm_name member) member_name) (lv_members object) with
  | None => logic_error "bounded structure materialization lost the selected member"
  | Some value =>
    result ← member_storage object (mt_offset type)
               (scalar (lv_module_path pointer) (lv_name pointer +:+ "->" +:+ member_name) (sm_raw_value value)
                  (mt_byte_size type) false KPointer);
    attach_pointer_metadata result
      (Some (value_type (pt_byte_size member_pointee) (pt_is_signed member_pointee) KInteger []))
  end.

(* src/dwarf/source_lookup_snapshot_impl.inc:1049-1075 dereference_local_pointer_member *)
Definition dereference_local_pointer_member (snapshot : SnapshotObject) (frame : SnapshotInspectionFrameContext)
    (name member_name : string) (module_paths : SnapshotModulePathResolver) : res LocalScalarValue :=
  member ← inspect_local_pointer_member snapshot frame name member_name module_paths;
  let bad := "pointer member does not have a bounded integer pointee" in
  pointee ← require (lv_pointee_type member) bad;
  _ ← throw_if (bool_decide (vt_kind pointee <> KInteger) || (vt_byte_size pointee =? 0) ||
                (8 <? vt_byte_size pointee)) (Exn RuntimeError bad);
  _ ← throw_if (lv_raw_value member =? 0)
        (Exn RuntimeError "cannot dereference a null pointer-valued structure member");
  _ ← throw_if (u64_max <? lv_raw_value member)
        (Exn RuntimeError "pointer-valued structure member exceeds host address width");
  memory ← read_snapshot_memory (so_core snapshot) module_paths (lv_raw_value member) (vt_byte_size pointee);
  materialize_snapshot_memory_value (lv_module_path member) ("*(" +:+ lv_name member +:+ ")")
    (value_type (vt_byte_size pointee) (vt_is_signed pointee) KInteger []) memory false.

(* src/dwarf/source_lookup_snapshot_impl.inc:1077-1086 inspect_local_integer *)
Definition inspect_local_integer (snapshot : SnapshotObject) (frame : SnapshotInspectionFrameContext)
    (name : string) (module_paths : SnapshotModulePathResolver) : res LocalScalarValue :=
  value ← inspect_local_value snapshot frame name module_paths;
  _ ← throw_if (bool_decide (lv_kind value <> KInteger))
        (Exn RuntimeError ("local value is not an integer scalar: " +:+ name));
  Ok value.
End Snapshot.
