(* ===== verification/InlineValues.v ===== *)
(** * Values of locals of an inline call ([src/dwarf/source_lookup.cpp])

    Reading a variable of an inline call in a frame of a core: from the registers of the
    thread in frame 0, from the stack in the frames above it. *)

From S2P Require Import Prelude Machine ByteReader ElfFormat Elf ModulePath SnapshotMemory Inspection LocalValue DebugInfo DebugTypes DebugValues DebugScopes SnapshotValues.

(* src/dwarf/source_lookup.cpp:11-12 kInlineDwOpRdx *)
Definition kInlineDwOpRdx : Z := kDwOpReg0 + 1.
(* src/dwarf/source_lookup.cpp:13-14 kInlineDwOpRcx *)
Definition kInlineDwOpRcx : Z := kDwOpReg0 + 2.

(** ** Types *)

(** The first member without a name or with the name of a later one. *)
(* src/dwarf/source_lookup.cpp:367-380 validate_selected_inline_structure_type *)
Fixpoint distinct_names (members : list LocalStructMemberType) : res unit :=
  match members with
  | [] => Ok tt
  | member :: members =>
    _ ← throw_if (String.eqb (mt_name member) EmptyString)
          (Exn RuntimeError "selected-inline structure has an unnamed direct member");
    _ ← throw_if (has_member (mt_name member) members)
          (Exn RuntimeError "selected-inline structure has duplicate member names");
    distinct_names members
  end.

(* src/dwarf/source_lookup.cpp:357-381 validate_selected_inline_structure_type *)
Definition validate_selected_inline_structure_type (type : LocalValueType) : res unit :=
  if bool_decide (vt_kind type <> KStructure) then Ok tt
  else
    _ ← throw_if ((vt_byte_size type =? 0) || (kMaxLocalStructSize <? vt_byte_size type) ||
                  match vt_members type with [] => true | _ => false end ||
                  (kMaxLocalStructMembers <? size_of (vt_members type)))
          (Exn RuntimeError "selected-inline structure exceeds the bounded canonical model");
    distinct_names (vt_members type).

(** An integer member that is no bit field. *)
(* src/dwarf/source_lookup.cpp:464-465 frame_zero_fbreg_value_eligible *)
Definition plain_integer (member : LocalStructMemberType) : bool :=
  bool_decide (mt_kind member = KInteger) && bool_decide (mt_bit_slice member = None) && no_member_metadata member.

(* src/dwarf/source_lookup.cpp:450-456 frame_zero_fbreg_value_eligible *)
Definition bit_field_structure (members : list LocalStructMemberType) : bool :=
  forallb (fun member => bool_decide (mt_kind member = KInteger) && bool_decide (is_Some (mt_bit_slice member)) &&
                         no_member_metadata member) members.

(** A nested structure of one integer. *)
(* src/dwarf/source_lookup.cpp:469-482 frame_zero_fbreg_value_eligible *)
Definition nested_integer (member : LocalStructMemberType) : bool :=
  bool_decide (mt_kind member = KStructure) && bool_decide (mt_pointee_type member = None) &&
  bool_decide (mt_bit_slice member = None) && bool_decide (mt_enum_type member = None) &&
  match mt_members member with [terminal] => plain_integer terminal | _ => false end.

(** One direct integer and one nested structure, in either order. *)
(* src/dwarf/source_lookup.cpp:458-487 frame_zero_fbreg_value_eligible *)
Definition nested_structure (members : list LocalStructMemberType) : bool :=
  match members with
  | [a; b] => (plain_integer a && nested_integer b) || (nested_integer a && plain_integer b)
  | _ => false
  end.

(* src/dwarf/source_lookup.cpp:489-499 frame_zero_fbreg_value_eligible *)
Definition pointer_structure (members : list LocalStructMemberType) : bool :=
  match members with
  | [member] =>
    bool_decide (mt_kind member = KPointer) && (mt_offset member =? 0) && (mt_byte_size member =? 8) &&
    match mt_pointee_type member with
    | Some pointee => (pt_byte_size pointee =? 4) && pt_is_signed pointee
    | None => false
    end && bool_decide (mt_bit_slice member = None) && bool_decide (mt_enum_type member = None) &&
    match mt_members member with [] => true | _ => false end
  | _ => false
  end.

(** An enumeration of four bytes without a sign, with a name and enumerators. *)
(* src/dwarf/source_lookup.cpp:513-516 frame_zero_fbreg_value_eligible *)
Definition uint32_enum (enum_type : option LocalEnumType) : bool :=
  match enum_type with
  | Some enum_type =>
    (et_byte_size enum_type =? 4) && negb (et_is_signed enum_type) &&
    negb (String.eqb (et_name enum_type) EmptyString) &&
    match et_enumerators enum_type with [] => false | _ => true end
  | None => false
  end.

(* src/dwarf/source_lookup.cpp:501-517 frame_zero_fbreg_value_eligible *)
Definition enum_structure (members : list LocalStructMemberType) : bool :=
  match members with
  | [direct; mode] =>
    plain_integer direct && (mt_offset direct =? 0) && (mt_byte_size direct =? 4) && mt_is_signed direct &&
    bool_decide (mt_kind mode = KEnumeration) && (mt_offset mode =? 4) && (mt_byte_size mode =? 4) &&
    negb (mt_is_signed mode) && bool_decide (mt_pointee_type mode = None) && bool_decide (mt_bit_slice mode = None) &&
    uint32_enum (mt_enum_type mode) && match mt_members mode with [] => true | _ => false end
  | _ => false
  end.

(** No members, no metadata of arrays. *)
Definition no_members (type : LocalValueType) : bool := match vt_members type with [] => true | _ => false end.

(* src/dwarf/source_lookup.cpp:383-521 frame_zero_fbreg_value_eligible *)
Definition frame_zero_fbreg_value_eligible (type : LocalValueType) (pointee_type : option LocalValueType) : bool :=
  let no_array := bool_decide (vt_array_type type = None) in
  let no_enum := bool_decide (vt_enum_type type = None) in
  match vt_kind type with
  | KFloating =>
    (vt_byte_size type =? 8) && negb (vt_is_signed type) && no_members type && no_array && no_enum &&
    bool_decide (pointee_type = None)
  | KPointer =>
    (vt_byte_size type =? 8) && negb (vt_is_signed type) && no_members type && no_array && no_enum &&
    match pointee_type with
    | Some pointee =>
      bool_decide (vt_kind pointee = KInteger) && (vt_byte_size pointee =? 4) && vt_is_signed pointee &&
      no_members pointee && bool_decide (vt_array_type pointee = None) && bool_decide (vt_enum_type pointee = None)
    | None => false
    end
  | KEnumeration =>
    (vt_byte_size type =? 4) && negb (vt_is_signed type) && no_members type && no_array &&
    uint32_enum (vt_enum_type type)
  | KArray => (vt_byte_size type =? 8) && proven_array type
  | KUnion =>
    (vt_byte_size type =? 4) && no_array &&
    match vt_members type with
    | [a; b] =>
      String.eqb (mt_name a) "signed_value" && int32_member 0 a && mt_is_signed a &&
      String.eqb (mt_name b) "unsigned_value" && int32_member 0 b && negb (mt_is_signed b)
    | _ => false
    end
  | KStructure =>
    negb (no_members type) && no_array &&
    (bit_field_structure (vt_members type) || nested_structure (vt_members type) ||
     pointer_structure (vt_members type) || enum_structure (vt_members type))
  | KInteger => false
  end.

(** ** A variable of an inline call *)

Section Inline.
Context `{H : Host} `{F : FileAccess}.

(* src/dwarf/source_lookup.cpp:549-578 inspect_inline_scalar_unit *)
Definition find_inline_value (dies : list Die) (virtual_pc : Z) (ranges : list byte) (unit_base version : Z)
    (inlined : nat) (name : string) : res nat :=
  '(best, owned_name) ←
    value_from dies "ambiguous selected-inline local at equal lexical depth: " name
      (fun index => inline_local_scope_depth dies virtual_pc ranges unit_base version index inlined)
      (fun _ depth => Ok (bool_decide (is_Some depth))) 0 dies None false;
  match best with
  | Some (index, _) => Ok index
  | None =>
    runtime_error ((if owned_name : bool then "selected-inline local has no active value binding: "
                    else "local value is not owned by the selected inline context: ") +:+ name)
  end.

(** A value of the thread's registers in frame 0. *)
(* src/dwarf/source_lookup.cpp:653-676 inspect_inline_scalar_unit *)
Definition inline_register_pieces (snapshot : SnapshotObject) (frame : SnapshotInspectionFrameContext)
    (owner : SnapshotModuleAddress) (name : string) (type : LocalValueType) (expression : list byte)
    : res LocalScalarValue :=
  thread ← snapshot_thread snapshot (sf_thread_tid frame);
  let regs := Core.thread_registers (tr_thread thread) in
  bytes ← evaluate_register_piece_value expression
            (fun op => register_owner op [(kInlineDwOpRdx, rdx regs); (kInlineDwOpRcx, rcx regs)]
                         "frame-zero selected-inline typed value requested an unproven register piece") type;
  result ← match vt_kind type with
           | KStructure =>
             module ← open_elf (ma_module_file_path owner);
             result ← decode_structure module name type bytes;
             Ok (set_module_path (ma_module_path owner) result)
           | KArray => materialize_bounded_array_bytes (ma_module_path owner) name type bytes
           | _ => materialize_bounded_union_bytes (ma_module_path owner) name type bytes
           end;
  Ok (with_storage SnapshotCoreRegister result).

(* src/dwarf/source_lookup.cpp:677-712 inspect_inline_scalar_unit *)
Definition inline_register_scalar (snapshot : SnapshotObject) (frame : SnapshotInspectionFrameContext)
    (owner : SnapshotModuleAddress) (name : string) (root : BoundedRootTypeResolution) (expression : list byte)
    : res LocalScalarValue :=
  let type := root_value_type root in
  _ ← throw_if (negb (size_of expression =? 1))
        (Exn RuntimeError
           "frame-zero selected-inline value requires one exact compiler-proven register operation");
  thread ← snapshot_thread snapshot (sf_thread_tid frame);
  let regs := Core.thread_registers (tr_thread thread) in
  raw ← match first_op expression with
        | Some opcode =>
          register_owner opcode [(kInlineDwOpRdx, rdx regs); (kInlineDwOpRcx, rcx regs)]
            "frame-zero selected-inline value currently requires compiler-proven DW_OP_reg1 (rdx) or DW_OP_reg2 (rcx)"
        | None => Undef "front of an empty vector"
        end;
  let result := with_storage SnapshotCoreRegister
                  (scalar (ma_module_path owner) name (truncate_integer raw (vt_byte_size type)) (vt_byte_size type)
                     (vt_is_signed type) (vt_kind type)) in
  match vt_kind type with
  | KEnumeration =>
    _ ← throw_if (bool_decide (vt_enum_type type = None))
          (Exn LogicError "selected-inline register enum lost canonical type metadata");
    Ok (set_enum_type (vt_enum_type type) result)
  | KPointer =>
    _ ← throw_if (bool_decide (root_pointee_type root = None))
          (Exn LogicError "selected-inline register pointer lost canonical pointee metadata");
    attach_pointer_metadata result (root_pointee_type root)
  | _ => Ok result
  end.

(** The value of a location that is not empty. *)
(* src/dwarf/source_lookup.cpp:621-712 inspect_inline_scalar_unit *)
Definition inline_value (snapshot : SnapshotObject) (frame : SnapshotInspectionFrameContext)
    (module_paths : SnapshotModulePathResolver) (owner : SnapshotModuleAddress) (dies : list Die) (subprogram : nat)
    (name : string) (root : BoundedRootTypeResolution) (expression : list byte) : res LocalScalarValue :=
  let type := root_value_type root in
  let stack := starts_with kDwOpFbreg expression in
  if negb (sf_index frame =? 0) || (frame_zero_fbreg_value_eligible type (root_pointee_type root) && stack) then
    _ ← throw_if (negb stack)
          (Exn RuntimeError
             "caller-frame selected-inline value currently requires compiler-proven DW_OP_fbreg");
    result ← snapshot_stack_value "caller-frame selected-inline DW_OP_fbreg runtime address"
               "caller-frame selected-inline DW_OP_fbreg address exceeds runtime address width" snapshot frame
               module_paths owner dies subprogram name type expression;
    attach_pointer_metadata result (root_pointee_type root)
  else if is_aggregate (vt_kind type) then inline_register_pieces snapshot frame owner name type expression
  else inline_register_scalar snapshot frame owner name root expression.

(** The variable of the entry at [index], once its type is checked. *)
(* src/dwarf/source_lookup.cpp:580-712 inspect_inline_scalar_unit *)
Definition inline_variable (sections : DebugSections) (snapshot : SnapshotObject)
    (frame : SnapshotInspectionFrameContext) (module_paths : SnapshotModulePathResolver)
    (owner : SnapshotModuleAddress) (virtual_pc : Z) (unit_base version : Z) (dies : list Die) (subprogram index : nat)
    (name : string) : res LocalScalarValue :=
  '(location, type) ← value_attributes "selected-inline local has no DW_AT_location"
    "selected-inline local has no supported DW_FORM_ref4 type" dies index;
  root ← resolve_bounded_root_value_type dies type;
  let type := root_value_type root in
  _ ← validate_selected_inline_structure_type type;
  _ ← throw_if (is_integer_or_pointer (vt_kind type) && ((vt_byte_size type =? 0) || (8 <? vt_byte_size type)))
        (Exn RuntimeError "selected-inline value materialization requires a bounded scalar");
  expression ← value_expression "selected-inline value has no supported DW_AT_location form" sections location
                 virtual_pc unit_base version;
  _ ← throw_if match expression with [] => true | _ => false end
        (Exn RuntimeError "selected-inline value requires one exact compiler-proven location operation");
  inline_value snapshot frame module_paths owner dies subprogram name root expression.

(* src/dwarf/source_lookup.cpp:523-713 inspect_inline_scalar_unit *)
Definition inspect_inline_scalar_unit (sections : DebugSections) (ranges : list byte) (snapshot : SnapshotObject)
    (frame : SnapshotInspectionFrameContext) (module_paths : SnapshotModulePathResolver)
    (owner : SnapshotModuleAddress) (virtual_pc inline_die_offset : Z) (name : string) (unit_start : Z)
    : res (option LocalScalarValue * Z) :=
  unit ← parse_unit_dies sections unit_start;
  let dies := unit_dies unit in
  found ← selected_inline dies virtual_pc ranges (parsed_version unit) inline_die_offset;
  match found with
  | None => Ok (None, next_unit unit)
  | Some (inlined, subprogram, unit_base) =>
    index ← find_inline_value dies virtual_pc ranges unit_base (parsed_version unit) inlined name;
    value ← inline_variable sections snapshot frame module_paths owner virtual_pc unit_base (parsed_version unit) dies
              subprogram index name;
    Ok (Some value, next_unit unit)
  end.

(** ** The operations *)

(* src/dwarf/source_lookup.cpp:840-875 inspect_inline_local_value *)
Definition inspect_inline_local_value (snapshot : SnapshotObject) (frame : SnapshotInspectionFrameContext)
    (inline_die_offset : Z) (name : string) (module_paths : SnapshotModulePathResolver) : res LocalScalarValue :=
  _ ← throw_if (String.eqb name EmptyString)
        (Exn InvalidArgument "selected-inline local name must not be empty");
  '(owner, _, sections, ranges) ←
    frame_debug_file "selected-inline scalar module ownership changed" snapshot frame module_paths;
  result ← search_units "DWARF selected-inline scalar parser did not advance to the next unit" sections
             (inspect_inline_scalar_unit sections ranges snapshot frame module_paths owner (ma_virtual_address owner)
                inline_die_offset name);
  require result "selected inline DIE is unavailable in the owning debug file".

(* src/dwarf/source_lookup.cpp:877-912 dereference_inline_local_pointer *)
Definition dereference_inline_local_pointer (snapshot : SnapshotObject) (frame : SnapshotInspectionFrameContext)
    (inline_die_offset : Z) (name : string) (module_paths : SnapshotModulePathResolver) : res LocalScalarValue :=
  pointer ← inspect_inline_local_value snapshot frame inline_die_offset name module_paths;
  _ ← throw_if (bool_decide (lv_kind pointer <> KPointer))
        (Exn LogicError ("selected-inline local value is not a pointer: " +:+ name));
  let bad := "selected-inline pointer does not have a bounded integer pointee type" in
  pointee ← require (lv_pointee_type pointer) bad;
  _ ← throw_if (bool_decide (vt_kind pointee <> KInteger) || bad_integer_pointee pointee) (Exn RuntimeError bad);
  _ ← throw_if (lv_raw_value pointer =? 0)
        (Exn RuntimeError ("cannot dereference a null selected-inline core pointer: " +:+ name));
  _ ← throw_if (u64_max <? lv_raw_value pointer)
        (Exn RuntimeError "selected-inline core pointer exceeds host address width");
  memory ← read_snapshot_memory (so_core snapshot) module_paths (lv_raw_value pointer) (vt_byte_size pointee);
  materialize_snapshot_memory_value (lv_module_path pointer) ("*" +:+ lv_name pointer)
    (value_type (vt_byte_size pointee) (vt_is_signed pointee) KInteger []) memory false.
End Inline.

(** The source lookup is what the session asks for. *)
#[export] Instance SourceLookup `{Host} `{FileAccess} : LocalInspection := {|
  LocalValue.discover_inline_call_chain := DebugScopes.discover_inline_call_chain;
  LocalValue.discover_local_values := DebugScopes.discover_local_values;
  LocalValue.discover_inline_local_values := DebugScopes.discover_inline_local_values;
  LocalValue.inspect_local_value := SnapshotValues.inspect_local_value;
  LocalValue.inspect_inline_local_value := inspect_inline_local_value;
  LocalValue.dereference_local_pointer := SnapshotValues.dereference_local_pointer;
  LocalValue.dereference_inline_local_pointer := dereference_inline_local_pointer;
  LocalValue.inspect_local_pointer_member := SnapshotValues.inspect_local_pointer_member;
  LocalValue.dereference_local_pointer_member := SnapshotValues.dereference_local_pointer_member
|}.
