(* ===== verification/LiveValues.v ===== *)
(** * Values of locals in a live process ([src/dwarf/source_lookup_impl.inc])

    Reading a variable of the stopped thread, or of a frame above it: from its registers,
    by the few expressions compilers emit for values that live in no register, from the
    stack below the frame base; then following a pointer in the memory of the process. *)

From S2P Require Import Prelude Machine Process DebuggerState Debugger ByteReader ElfFormat EhFrame Elf ModuleMap Unwind LocalValue DebugInfo DebugTypes DebugValues DebugScopes.

(** ** Scalars *)

(** An integer of four bytes with a sign, or a structure of integers, behind a pointer member. *)
(* src/dwarf/source_lookup_impl.inc:2484-2513 materialize_live_scalar *)
Definition live_member_pointee (pointee : LocalPointerPointeeType) : res unit :=
  match pt_kind pointee with
  | KInteger =>
    throw_if (negb (pt_byte_size pointee =? 4) || negb (pt_is_signed pointee) ||
              match pt_members pointee with [] => false | _ => true end)
      (Exn LogicError
         "live pointer structure pointer member is outside the bounded signed-int32 pointee model")
  | KStructure =>
    _ ← throw_if ((pt_byte_size pointee =? 0) || (kMaxLocalStructSize <? pt_byte_size pointee) ||
                  match pt_members pointee with [] => true | _ => false end ||
                  (kMaxLocalStructMembers <? size_of (pt_members pointee)))
          (Exn LogicError
             "live pointer structure pointer member has malformed bounded structure pointee metadata");
    throw_if (existsb (fun nested =>
                bool_decide (pm_kind nested <> KInteger) || (pm_byte_size nested =? 0) || (8 <? pm_byte_size nested) ||
                (pt_byte_size pointee <? pm_offset nested) ||
                (pt_byte_size pointee - pm_offset nested <? pm_byte_size nested)) (pt_members pointee))
      (Exn LogicError
         "live pointer structure pointer member pointee exceeds the flat integer-only model")
  | _ => logic_error "live pointer structure pointer member pointee kind is unsupported"
  end.

(** A member of the structure behind a pointer; the result is whether it is a pointer. *)
(* src/dwarf/source_lookup_impl.inc:2462-2518 materialize_live_scalar *)
Definition live_pointee_member (byte_size : Z) (member : LocalStructMemberType) : res bool :=
  _ ← throw_if ((mt_byte_size member =? 0) || (8 <? mt_byte_size member) || (byte_size <? mt_offset member) ||
                (byte_size - mt_offset member <? mt_byte_size member) ||
                bool_decide (is_Some (mt_bit_slice member)) || bool_decide (is_Some (mt_enum_type member)) ||
                match mt_members member with [] => false | _ => true end)
        (Exn LogicError "live pointer structure pointee has invalid bounded direct-member metadata");
  match mt_kind member with
  | KInteger =>
    _ ← throw_if (bool_decide (is_Some (mt_pointee_type member)))
          (Exn LogicError "live pointer structure integer member unexpectedly carries pointee metadata");
    Ok false
  | KPointer =>
    let bad := Exn LogicError "live pointer structure pointer member has invalid bounded metadata" in
    _ ← throw_if (negb (mt_byte_size member =? 8) || mt_is_signed member) bad;
    match mt_pointee_type member with
    | None => Throw bad
    | Some pointee => _ ← live_member_pointee pointee; Ok true
    end
  | _ => logic_error "live pointer structure pointee has an unsupported direct-member kind"
  end.

(* src/dwarf/source_lookup_impl.inc:2442-2529 materialize_live_scalar *)
Definition live_pointee (pointee : LocalValueType) : res unit :=
  let foreign := bool_decide (is_Some (vt_array_type pointee)) || bool_decide (is_Some (vt_enum_type pointee)) in
  match vt_kind pointee with
  | KInteger =>
    throw_if ((vt_byte_size pointee =? 0) || (8 <? vt_byte_size pointee) ||
              match vt_members pointee with [] => false | _ => true end || foreign)
      (Exn LogicError "live pointer received malformed bounded integer pointee metadata")
  | KStructure =>
    _ ← throw_if ((vt_byte_size pointee =? 0) || (kMaxLocalStructSize <? vt_byte_size pointee) ||
                  match vt_members pointee with [] => true | _ => false end ||
                  (kMaxLocalStructMembers <? size_of (vt_members pointee)) || foreign)
          (Exn LogicError "live pointer received malformed bounded structure pointee metadata");
    pointers ← mapM (live_pointee_member (vt_byte_size pointee)) (vt_members pointee);
    let pointer_members := size_of (List.filter id pointers) in
    let integer_members := size_of (List.filter negb pointers) in
    throw_if (negb (pointer_members =? 0) &&
              (negb (size_of (vt_members pointee) =? 2) || negb (integer_members =? 1) || negb (pointer_members =? 1)))
      (Exn LogicError "live pointer structure pointee exceeds the one-scalar/one-pointer member model")
  | _ => logic_error "live pointer received unsupported bounded pointee metadata"
  end.

(* src/dwarf/source_lookup_impl.inc:2426-2430 materialize_live_scalar *)
Definition bad_live_enum (type : LocalValueType) : bool :=
  match vt_enum_type type with
  | None => true
  | Some enum_type =>
    negb (et_byte_size enum_type =? vt_byte_size type) ||
    negb (Bool.eqb (et_is_signed enum_type) (vt_is_signed type)) || String.eqb (et_name enum_type) EmptyString ||
    match et_enumerators enum_type with [] => true | _ => false end
  end.

(* src/dwarf/source_lookup_impl.inc:2410-2537 materialize_live_scalar *)
Definition materialize_live_scalar (module : ElfFile) (name : string) (type : LocalValueType) (raw : Z)
    (pointee_type : option LocalValueType) : res LocalScalarValue :=
  _ ← throw_if (is_aggregate (vt_kind type) || bool_decide (vt_kind type = KFloating))
        (Exn LogicError "live scalar materializer received a non-scalar bounded type");
  let enumeration := bool_decide (vt_kind type = KEnumeration) in
  _ ← throw_if (enumeration && bad_live_enum type)
        (Exn LogicError "live enum value lost canonical bounded enum metadata");
  _ ← throw_if (negb enumeration && bool_decide (is_Some (vt_enum_type type)))
        (Exn LogicError "non-enum live scalar unexpectedly carries enum metadata");
  let result := scalar (elf_path module) name raw (vt_byte_size type) (vt_is_signed type) (vt_kind type) in
  let result := if enumeration then set_enum_type (vt_enum_type type) result else result in
  match pointee_type with
  | None => Ok result
  | Some pointee =>
    _ ← throw_if (bool_decide (vt_kind type <> KPointer))
          (Exn LogicError "non-pointer live scalar unexpectedly carries pointee metadata");
    _ ← live_pointee pointee;
    Ok (set_pointee (Some pointee) result)
  end.

(** ** Expressions on a stack of values *)

(** The values are on the stack with the last one first; every turn reads an operation. *)
(* src/dwarf/source_lookup_impl.inc:2169-2222 evaluate_composite_stack_value *)
Fixpoint composite_loop (fuel : nat) (registers : list (Z * Z)) (expression : list byte) (stack : list Z) : M Z Z :=
  cursor ← mget;
  match expression !! Z.to_nat cursor, fuel with
  | None, _ => mthrow RuntimeError "composite local-value expression is missing DW_OP_stack_value"
  | Some _, O => mout_of_fuel
  | Some op, S fuel =>
    let op := byte_val op in
    let continue_ := composite_loop fuel registers expression in
    _ ← set_cursor (cursor + 1);
    if existsb (fun entry => op =? fst entry) registers then
      offset ← read_sleb "composite DW_OP_breg offset" expression (size_of expression);
      _ ← mthrow_if (negb (offset =? 0)) RuntimeError
            "composite local-value expression only supports compiler-proven zero breg offsets";
      value ← lift (register_owner op registers "unsupported register in composite local-value expression");
      continue_ (value :: stack)
    else if op =? kDwOpConst1u then
      cursor ← mget;
      match expression !! Z.to_nat cursor with
      | None => mthrow RuntimeError "truncated DW_OP_const1u in composite local-value expression"
      | Some operand => _ ← set_cursor (cursor + 1); continue_ (byte_val operand :: stack)
      end
    else if (op =? kDwOpLit8) || (op =? kDwOpLit16) || (op =? kDwOpLit24) then continue_ (op - 0x30 :: stack)
    else if (op =? kDwOpShl) || (op =? kDwOpXor) then
      match stack with
      | rhs :: lhs :: stack =>
        if op =? kDwOpShl then
          _ ← mthrow_if (64 <=? rhs) RuntimeError "composite local-value shift count is out of range";
          continue_ (u64 (Z.shiftl lhs rhs) :: stack)
        else continue_ (Z.lxor lhs rhs :: stack)
      | _ => mthrow RuntimeError "composite local-value binary operation underflows stack"
      end
    else if op =? kDwOpStackValue then
      cursor ← mget;
      match stack with
      | [value] =>
        _ ← mthrow_if (negb (cursor =? size_of expression)) RuntimeError
              "composite local-value stack_value requires one final stack result";
        mret value
      | _ => mthrow RuntimeError "composite local-value stack_value requires one final stack result"
      end
    else mthrow RuntimeError "unsupported operation in compiler-proven composite local value"
  end.

(* src/dwarf/source_lookup_impl.inc:2150-2167 evaluate_composite_stack_value *)
Definition composite_registers (regs : user_regs_struct) : list (Z * Z) :=
  [(kDwOpBreg1, rdx regs); (kDwOpBreg2, rcx regs); (kDwOpBreg4, rsi regs); (kDwOpBreg5, rdi regs);
   (kDwOpBreg8, r8 regs); (kDwOpBreg9, r9 regs)].

(** The operand of [DW_OP_entry_value], the register RDI. *)
(* src/dwarf/source_lookup_impl.inc:2355-2373 evaluate_entry_rdi *)
Definition entry_operand (expression : list byte) : M Z unit :=
  nested_length ← read_uleb "DW_OP_entry_value length" expression (size_of expression);
  let only_rdi := "DW_OP_entry_value only supports the compiler-proven nested DW_OP_reg5 form" in
  _ ← mthrow_if (negb (nested_length =? 1)) RuntimeError only_rdi;
  _ ← expect_op kDwOpReg5 only_rdi expression;
  _ ← expect_op kDwOpStackValue "DW_OP_entry_value requires the compiler-proven trailing DW_OP_stack_value" expression;
  no_trailing "unsupported trailing operations after DW_OP_entry_value" expression.

(** ** Registers and memory *)

Section Live.
Context `{H : Host} `{FI : FileIdentity} `{K : Kernel} `{PM : !ProcMaps K}.

(* src/dwarf/source_lookup_impl.inc:2128-2133 read_integer *)
Definition read_integer (address byte_size : Z) : M dst Z :=
  bytes ← read_memory address byte_size;
  _ ← mthrow_if (negb (size_of bytes =? byte_size)) RuntimeError "short local-variable memory read";
  lift (decode_integer bytes 0 byte_size).

(** The frame pointer, the stack pointer or the CFA of the current frame. *)
(* src/dwarf/source_lookup_impl.inc:1796-1817 frame_base *)
Definition frame_base (module : ElfFile) (expression : list byte) : M dst Z :=
  regs ← registers;
  _ ← mthrow_if (negb (size_of expression =? 1)) RuntimeError "unsupported compound DW_AT_frame_base expression";
  if starts_with kDwOpReg6 expression then mret (rbp regs)
  else if starts_with kDwOpReg7 expression then mret (rsp regs)
  else
    _ ← mthrow_if (negb (starts_with kDwOpCallFrameCfa expression)) RuntimeError
          "unsupported DW_AT_frame_base operation";
    cfi ← lift (open_eh_frame (elf_path module));
    _ ← mthrow_if (negb (eh_available cfi)) RuntimeError "DW_OP_call_frame_cfa requires .eh_frame";
    caller ← caller_frame cfi module (mkCursor (rip regs) (rsp regs) (Some (rbp regs)) (Some (rbx regs)));
    caller ← lift (require caller "CFI did not cover the current source frame");
    mret (stack_pointer caller).

(* src/dwarf/source_lookup_impl.inc:2141-2223 evaluate_composite_stack_value *)
Definition evaluate_composite_stack_value (expression : list byte) : M dst Z :=
  _ ← mthrow_if (negb (starts_with kDwOpBreg8 expression)) RuntimeError
        "local value location is not the compiler-proven composite stack form";
  regs ← registers;
  lift (fst (composite_loop (length expression) (composite_registers regs) expression [] 0)).

(** The words [DW_OP_deref] follows, [budget] more of them at most; the cursor behind the
    operations and their number come with the last one. *)
(* src/dwarf/source_lookup_impl.inc:2293-2303 evaluate_breg5_stack_value *)
Fixpoint dereference_chain (budget : nat) (expression : list byte) (cursor count value : Z) : M dst (Z * Z * Z) :=
  if starts_with kDwOpDeref (drop (Z.to_nat cursor) expression) then
    match budget with
    | O =>
      mthrow RuntimeError "DW_OP_breg5 dereference chain exceeds the compiler-proven two-level bound"
    | S budget =>
      value ← read_integer value 8;
      dereference_chain budget expression (cursor + 1) (count + 1) value
    end
  else mret (value, cursor, count).

(* src/dwarf/source_lookup_impl.inc:2263-2331 evaluate_breg5_stack_value *)
Definition evaluate_breg5_stack_value (expression : list byte) : M dst Z :=
  _ ← mthrow_if (negb (starts_with kDwOpBreg5 expression)) RuntimeError
        "local value location is not the compiler-proven DW_OP_breg5 form";
  '(offset, cursor) ← lift (run_at 1 (read_sleb "DW_OP_breg5 offset" expression (size_of expression)));
  match first_op (drop (Z.to_nat cursor) expression) with
  | None => mthrow RuntimeError "DW_OP_breg5 value is missing a compiler-proven operation"
  | Some next =>
    if next =? kDwOpStackValue then
      _ ← mthrow_if (negb (cursor + 1 =? size_of expression)) RuntimeError
            "unsupported trailing operations after DW_OP_breg5 value";
      regs ← registers;
      lift (add_signed (rdi regs) offset "DW_OP_breg5 value")
    else
      _ ← mthrow_if (negb (next =? kDwOpDeref) || negb (offset =? 0)) RuntimeError
            "DW_OP_breg5 value is not the compiler-proven stack/dereference form";
      regs ← registers;
      address ← lift (add_signed (rdi regs) offset "DW_OP_breg5 dereference address");
      '(value, cursor, dereference_count) ← dereference_chain 2 expression cursor 0 address;
      _ ← mthrow_if (dereference_count =? 0) RuntimeError
            "DW_OP_breg5 dereference value is missing DW_OP_deref";
      constant ← lift (fst (xor_tail "DW_OP_breg5 dereference" expression cursor));
      mret (Z.lxor value constant)
  end.

(* src/dwarf/source_lookup_impl.inc:2333-2350 evaluate_breg5_memory_address *)
Definition evaluate_breg5_memory_address (expression : list byte) : M dst Z :=
  _ ← mthrow_if (negb (starts_with kDwOpBreg5 expression)) RuntimeError
        "local memory location is not the compiler-proven DW_OP_breg5 form";
  offset ← lift (only_sleb "DW_OP_breg5 memory offset"
                   "unsupported trailing operations after DW_OP_breg5 memory location" expression);
  regs ← registers;
  lift (add_signed (rdi regs) offset "DW_OP_breg5 memory address").

(** RDI as it was when the function was entered, from the breakpoint at its entry. *)
(* src/dwarf/source_lookup_impl.inc:2352-2392 evaluate_entry_rdi *)
Definition evaluate_entry_rdi (expression : list byte) (module : ElfFile) (subprogram_die : Die) : M dst Z :=
  _ ← lift (fst (entry_operand expression 1));
  let no_low_pc := "DW_OP_entry_value requires a subprogram with supported DW_AT_low_pc" in
  low_pc ← lift (require (attribute subprogram_die kDwAtLowPc) no_low_pc);
  _ ← mthrow_if (negb (av_form low_pc =? kDwFormAddr)) RuntimeError no_low_pc;
  d ← get_debugger;
  bias ← kernel (load_bias module (pid_ (process_ d)));
  _ ← mthrow_if (u64_max - bias <? av_number low_pc) RuntimeError "subprogram entry runtime address overflows";
  let runtime_entry := av_number low_pc + bias in
  match breakpoint_register_snapshot (current_tid_ (process_ d)) runtime_entry d with
  | None =>
    mthrow RuntimeError "DW_OP_entry_value requires an observed function-entry breakpoint snapshot"
  | Some snapshot => mret (rdi snapshot)
  end.

(** ** A variable of the current frame *)

(** [debugger.read_memory(address, type.byte_size)], all of it. *)
Definition read_value_bytes (address : Z) (type : LocalValueType) (short : string) : M dst (list byte) :=
  bytes ← read_memory address (vt_byte_size type);
  _ ← mthrow_if (negb (size_of bytes =? vt_byte_size type)) RuntimeError short;
  mret bytes.

(** The value at the offset from the frame base. *)
(* src/dwarf/source_lookup_impl.inc:2720-2755 inspect_unit *)
Definition live_stack_value (module : ElfFile) (subprogram_die : Die) (name : string) (type : LocalValueType)
    (expression : list byte) : M dst LocalScalarValue :=
  let bad := "current subprogram has no supported DW_AT_frame_base expression" in
  base_expression ← lift (require (attribute subprogram_die kDwAtFrameBase) bad);
  _ ← mthrow_if (negb (av_form base_expression =? kDwFormExprloc)) RuntimeError bad;
  base ← frame_base module (av_expression base_expression);
  offset ← lift (fbreg_offset expression);
  address ← lift (add_signed base offset "local variable address");
  match vt_kind type with
  | KStructure =>
    bytes ← read_value_bytes address type "short local-struct memory read";
    lift (decode_structure module name type bytes)
  | KArray =>
    bytes ← read_value_bytes address type "short live fixed-array memory read";
    lift (materialize_bounded_array_bytes (elf_path module) name type bytes)
  | KUnion =>
    bytes ← read_value_bytes address type "short live union memory read";
    lift (materialize_bounded_union_bytes (elf_path module) name type bytes)
  | _ =>
    raw ← read_integer address (vt_byte_size type);
    lift (materialize_live_scalar module name type raw None)
  end.

(** The one register that is the whole location. *)
(* src/dwarf/source_lookup_impl.inc:2626-2639 inspect_unit *)
Definition whole_register (type : LocalValueType) (expression : list byte) : M dst (option Z) :=
  if negb (is_aggregate (vt_kind type)) && (size_of expression =? 1) then
    regs ← registers;
    mret (if starts_with kDwOpReg0 expression then Some (rax regs)
          else if starts_with kDwOpReg5 expression then Some (rdi regs) else None)
  else mret None.

(* src/dwarf/source_lookup_impl.inc:2705-2718 inspect_unit *)
Definition not_on_stack (kind : LocalValueKind) : string :=
  match kind with
  | KStructure => "local struct is not in a supported compiler-proven fbreg/register-piece form"
  | KArray => "live fixed array is not in the compiler-proven DW_OP_fbreg form"
  | KUnion => "live union is not in the compiler-proven DW_OP_fbreg form"
  | _ => "local value location is not a supported compiler-proven register/stack/fbreg form"
  end.

(** The value a location expression of a scalar computes, if it is of such a form. *)
(* src/dwarf/source_lookup_impl.inc:2641-2685 inspect_unit *)
Definition computed_scalar (module : ElfFile) (subprogram_die : Die) (type : LocalValueType) (expression : list byte)
    : M dst (option Z) :=
  let size := vt_byte_size type in
  if is_aggregate (vt_kind type) then mret None
  else if starts_with kDwOpEntryValue expression then
    value ← evaluate_entry_rdi expression module subprogram_die; mret (Some (truncate_integer value size))
  else if starts_with kDwOpBreg8 expression then
    value ← evaluate_composite_stack_value expression; mret (Some (truncate_integer value size))
  else if starts_with kDwOpBreg3 expression then
    regs ← registers;
    value ← lift (evaluate_breg3_xor_stack_value expression (rbx regs)); mret (Some (truncate_integer value size))
  else if starts_with kDwOpBreg5 expression then
    if bool_decide (byte_val <$> last expression = Some kDwOpStackValue) then
      value ← evaluate_breg5_stack_value expression; mret (Some (truncate_integer value size))
    else
      address ← evaluate_breg5_memory_address expression;
      value ← read_integer address size;
      mret (Some value)
  else mret None.

(** The value of a location. *)
(* src/dwarf/source_lookup_impl.inc:2626-2756 inspect_unit *)
Definition live_value (module : ElfFile) (subprogram_die : Die) (name : string) (type : LocalValueType)
    (expression : list byte) : M dst LocalScalarValue :=
  whole ← whole_register type expression;
  match whole with
  | Some value => lift (materialize_live_scalar module name type (truncate_integer value (vt_byte_size type)) None)
  | None =>
    computed ← computed_scalar module subprogram_die type expression;
    match computed with
    | Some raw => lift (materialize_live_scalar module name type raw None)
    | None =>
      if bool_decide (vt_kind type = KStructure) && starts_with kDwOpReg5 expression then
        regs ← registers;
        bytes ← lift (evaluate_register_piece_value expression
                        (fun op => register_owner op [(kDwOpReg5, rdi regs); (kDwOpReg4, rsi regs)]
                                     "live register-piece structure requested an unproven register") type);
        lift (decode_structure module name type bytes)
      else if negb (starts_with kDwOpFbreg expression) then mthrow RuntimeError (not_on_stack (vt_kind type))
      else live_stack_value module subprogram_die name type expression
    end
  end.

(* src/dwarf/source_lookup_impl.inc:2558-2601 inspect_unit *)
Definition current_lookup : lookup_messages :=
  mkLookup "current PC matches multiple DWARF subprograms" "ambiguous local value in current lexical scope: "
    "local value is outside the current lexical scope: " "local value is not in the current subprogram: ".

(* src/dwarf/source_lookup_impl.inc:2546-2626 inspect_unit *)
Definition inspect_unit (sections : DebugSections) (module : ElfFile) (virtual_pc : Z) (name : string)
    (unit_start : Z) : M dst (option LocalScalarValue * Z) :=
  '(found, next) ← lift (find_unit_value current_lookup sections virtual_pc name unit_start);
  match found with
  | None => mret (None, next)
  | Some found =>
    subprogram_die ← lift (die_at (fv_dies found) (fv_subprogram found));
    '(location, type) ← lift (value_attributes "local value has no DW_AT_location"
      "local value has no supported DW_FORM_ref4 type" (fv_dies found) (fv_index found));
    type ← lift (resolve_value_type (fv_dies found) type);
    expression ← lift (value_expression "local value has no supported DW_AT_location form" sections location
                         virtual_pc (fv_unit_base found) (fv_version found));
    value ← live_value module subprogram_die name type expression;
    mret (Some value, next)
  end.

(** ** A variable of a frame above *)

(* src/dwarf/source_lookup_impl.inc:2758-2785 caller_frame_base *)
Definition caller_frame_base (module : ElfFile) (frame : InspectionFrameContext) (expression : list byte) : M dst Z :=
  _ ← mthrow_if (negb (size_of expression =? 1)) RuntimeError
        "caller-frame inspection does not support compound DW_AT_frame_base";
  if starts_with kDwOpReg6 expression then
    lift (require (ir_rbp (if_registers frame)) "caller-frame DW_OP_reg6 requires recovered RBP")
  else
    _ ← mthrow_if (negb (starts_with kDwOpCallFrameCfa expression)) RuntimeError
          "unsupported caller-frame DW_AT_frame_base operation";
    cfi ← lift (open_eh_frame (elf_path module));
    _ ← mthrow_if (negb (eh_available cfi)) RuntimeError
          "caller-frame DW_OP_call_frame_cfa requires .eh_frame";
    caller ← caller_frame cfi module
               (mkCursor (if_runtime_pc frame) (if_stack_pointer frame) (if_frame_pointer frame)
                  (ir_rbx (if_registers frame)));
    caller ← lift (require caller "CFI did not recover caller-frame CFA");
    mret (stack_pointer caller).

(** RBX alone is the location of an enumeration or a pointer. *)
(* src/dwarf/source_lookup_impl.inc:2877-2888 inspect_caller_stack_unit *)
Definition historical_rbx (module : ElfFile) (frame : InspectionFrameContext) (name : string)
    (root : BoundedRootTypeResolution) : res LocalScalarValue :=
  let type := root_value_type root in
  rbx ← require (ir_rbx (if_registers frame)) "historical live DW_OP_reg3 requires CFI-recovered RBX";
  _ ← throw_if (bool_decide (vt_kind type = KPointer) && bool_decide (root_pointee_type root = None))
        (Exn LogicError "historical live pointer lost canonical bounded pointee metadata");
  materialize_live_scalar module name type (truncate_integer rbx (vt_byte_size type)) (root_pointee_type root).

(* src/dwarf/source_lookup_impl.inc:2917-2936 inspect_caller_stack_unit *)
Definition caller_stack_value (module : ElfFile) (frame : InspectionFrameContext) (subprogram_die : Die)
    (name : string) (type : LocalValueType) (expression : list byte) : M dst LocalScalarValue :=
  let bad := "caller-frame subprogram has no supported DW_AT_frame_base expression" in
  base_expression ← lift (require (attribute subprogram_die kDwAtFrameBase) bad);
  _ ← mthrow_if (negb (av_form base_expression =? kDwFormExprloc)) RuntimeError bad;
  base ← caller_frame_base module frame (av_expression base_expression);
  offset ← lift (fbreg_offset expression);
  address ← lift (add_signed base offset "caller-frame local variable address");
  if bool_decide (vt_kind type = KStructure) then
    bytes ← read_value_bytes address type "short caller-frame local-struct memory read";
    lift (decode_structure module name type bytes)
  else
    raw ← read_integer address (vt_byte_size type);
    mret (scalar (elf_path module) name raw (vt_byte_size type) (vt_is_signed type) (vt_kind type)).

(* src/dwarf/source_lookup_impl.inc:2871-2937 inspect_caller_stack_unit *)
Definition caller_value (module : ElfFile) (frame : InspectionFrameContext) (subprogram_die : Die) (name : string)
    (root : BoundedRootTypeResolution) (expression : list byte) : M dst LocalScalarValue :=
  let type := root_value_type root in
  let exact_historical_rbx := (size_of expression =? 1) && starts_with kDwOpReg3 expression in
  if exact_historical_rbx && (bool_decide (vt_kind type = KEnumeration) || bool_decide (vt_kind type = KPointer))
  then lift (historical_rbx module frame name root)
  else
    _ ← mthrow_if (bool_decide (vt_kind type = KEnumeration)) RuntimeError
          "historical live enum requires compiler-proven DW_OP_reg3 (rbx)";
    if negb (is_aggregate (vt_kind type)) && starts_with kDwOpBreg3 expression then
      rbx ← lift (require (ir_rbx (if_registers frame))
                    "caller-frame DW_OP_breg3 requires CFI-recovered historical RBX");
      value ← lift (evaluate_breg3_xor_stack_value expression rbx);
      mret (scalar (elf_path module) name (truncate_integer value (vt_byte_size type)) (vt_byte_size type)
              (vt_is_signed type) (vt_kind type))
    else
      _ ← mthrow_if (negb (starts_with kDwOpFbreg expression)) RuntimeError
            "caller-frame local requires compiler-proven DW_OP_fbreg stack storage or CFI-recovered DW_OP_breg3 historical RBX";
      caller_stack_value module frame subprogram_die name type expression.

(* src/dwarf/source_lookup_impl.inc:2803-2846 inspect_caller_stack_unit *)
Definition caller_lookup : lookup_messages :=
  mkLookup "inspection frame PC matches multiple DWARF subprograms"
    "ambiguous local value in inspection-frame lexical scope: "
    "local value is outside the inspection-frame lexical scope: "
    "local value is not in the inspection-frame subprogram: ".

(* src/dwarf/source_lookup_impl.inc:2791-2871 inspect_caller_stack_unit *)
Definition inspect_caller_stack_unit (sections : DebugSections) (module : ElfFile) (frame : InspectionFrameContext)
    (virtual_pc : Z) (name : string) (unit_start : Z) : M dst (option LocalScalarValue * Z) :=
  '(found, next) ← lift (find_unit_value caller_lookup sections virtual_pc name unit_start);
  match found with
  | None => mret (None, next)
  | Some found =>
    subprogram_die ← lift (die_at (fv_dies found) (fv_subprogram found));
    '(location, type) ← lift (value_attributes "local value has no DW_AT_location"
      "local value has no supported DW_FORM_ref4 type" (fv_dies found) (fv_index found));
    root ← lift (resolve_bounded_root_value_type (fv_dies found) type);
    expression ← lift (value_expression "local value has no supported DW_AT_location form" sections location
                         virtual_pc (fv_unit_base found) (fv_version found));
    value ← caller_value module frame subprogram_die name root expression;
    mret (Some value, next)
  end.

(** ** The operations *)

(** The units of the debug file in turn, as many as bytes at most. *)
(* src/dwarf/source_lookup_impl.inc:2984-2990 inspect_local_value *)
Fixpoint live_units (fuel : nat) (query : Z -> M dst (option LocalScalarValue * Z)) (limit unit : Z)
    : M dst (option LocalScalarValue) :=
  if unit <? limit then
    match fuel with
    | O => mout_of_fuel
    | S fuel =>
      '(result, next) ← query unit;
      match result with
      | Some result => mret (Some result)
      | None =>
        _ ← mthrow_if (next <=? unit) RuntimeError "DWARF parser did not advance to the next unit";
        live_units fuel query limit next
      end
    end
  else mret None.

Definition search_live_units (sections : DebugSections) (query : Z -> M dst (option LocalScalarValue * Z))
    : M dst (option LocalScalarValue) :=
  live_units (length (info sections)) query (size_of (info sections)) 0.

(* src/dwarf/source_lookup_impl.inc:2964-2992 inspect_local_value *)
Definition inspect_current_value (preferred_elf : ElfFile) (name : string) : M dst LocalScalarValue :=
  _ ← mthrow_if (String.eqb name EmptyString) InvalidArgument "local variable name must not be empty";
  d ← get_debugger;
  _ ← mthrow_if (bool_decide (state_ (process_ d) <> Stopped)) LogicError
        "local-value inspection requires a stopped tracee";
  regs ← registers;
  owner ← kernel (find_module_symbol_by_runtime_address (pid_ (process_ d)) (rip regs) preferred_elf);
  owner ← lift (require owner "current PC is not owned by a file-backed symbol module");
  module ← lift (open_elf (ms_module_path owner));
  bias ← kernel (load_bias module (pid_ (process_ d)));
  _ ← mthrow_if (rip regs <? bias) RuntimeError "current PC is below module load bias";
  sections ← lift (read_debug_sections (elf_path module));
  result ← search_live_units sections (inspect_unit sections module (rip regs - bias) name);
  lift (require result "current PC is not covered by a supported DWARF4/5 subprogram").

(* src/dwarf/source_lookup_impl.inc:2994-3024 inspect_local_value *)
Definition inspect_local_value (preferred_elf : ElfFile) (frame : InspectionFrameContext) (name : string)
    : M dst LocalScalarValue :=
  _ ← mthrow_if (String.eqb name EmptyString) InvalidArgument "local variable name must not be empty";
  _ ← validate_inspection_frame frame;
  if if_index frame =? 0 then inspect_current_value preferred_elf name
  else
    module ← lift (open_elf (if_module_path frame));
    bias ← kernel (load_bias module (if_process_pid frame));
    _ ← mthrow_if (if_runtime_pc frame <? bias) RuntimeError "inspection-frame PC is below module load bias";
    sections ← lift (read_debug_sections (elf_path module));
    result ← search_live_units sections
               (inspect_caller_stack_unit sections module frame (if_runtime_pc frame - bias) name);
    lift (require result "inspection-frame PC is not covered by a supported DWARF4/5 subprogram").

(* src/dwarf/source_lookup_impl.inc:3028-3076 dereference_materialized_live_pointer *)
Definition dereference_materialized_live_pointer (pointer : LocalScalarValue) (result_name : string)
    : M dst LocalScalarValue :=
  let not_pointer := "local value is not a pointer with bounded pointee metadata: " +:+ lv_name pointer in
  _ ← mthrow_if (bool_decide (lv_kind pointer <> KPointer)) RuntimeError not_pointer;
  pointee ← lift (require (lv_pointee_type pointer) not_pointer);
  _ ← mthrow_if (lv_raw_value pointer =? 0) RuntimeError "cannot dereference a null live pointer";
  _ ← mthrow_if (u64_max <? lv_raw_value pointer) OverflowError "live pointer exceeds host address width";
  _ ← mthrow_if ((vt_byte_size pointee =? 0) || (kMaxLocalStructSize <? vt_byte_size pointee) ||
                 bool_decide (is_Some (vt_array_type pointee)) || bool_decide (is_Some (vt_enum_type pointee)))
        RuntimeError "live pointer pointee is outside the bounded dereference model";
  bytes ← read_value_bytes (lv_raw_value pointer) pointee "short live pointer pointee memory read";
  match vt_kind pointee with
  | KInteger =>
    _ ← mthrow_if ((8 <? vt_byte_size pointee) || match vt_members pointee with [] => false | _ => true end)
          RuntimeError "live pointer integer pointee has invalid bounded metadata";
    raw ← lift (decode_integer bytes 0 (vt_byte_size pointee));
    mret (scalar (lv_module_path pointer) result_name raw (vt_byte_size pointee) (vt_is_signed pointee) KInteger)
  | KStructure =>
    module ← lift (open_elf (lv_module_path pointer));
    lift (decode_structure module result_name pointee bytes)
  | _ => mthrow RuntimeError "live pointer pointee kind is unsupported for bounded dereference"
  end.

(** A pointer that was read before. *)
(* src/dwarf/source_lookup_impl.inc:3080-3086 dereference_local_pointer *)
Definition dereference_read_pointer (frame : InspectionFrameContext) (pointer : LocalScalarValue)
    : M dst LocalScalarValue :=
  _ ← validate_inspection_frame frame;
  dereference_materialized_live_pointer pointer ("*(" +:+ lv_name pointer +:+ ")").

(* src/dwarf/source_lookup_impl.inc:3088-3095 dereference_local_pointer *)
Definition dereference_local_pointer (preferred_elf : ElfFile) (frame : InspectionFrameContext) (name : string)
    : M dst LocalScalarValue :=
  pointer ← inspect_local_value preferred_elf frame name;
  dereference_materialized_live_pointer pointer ("*" +:+ lv_name pointer).

(** Of the current frame when no frame is given. *)
(* src/dwarf/source_lookup_impl.inc:3097-3116 inspect_local_integer *)
Definition inspect_local_integer (preferred_elf : ElfFile) (frame : option InspectionFrameContext) (name : string)
    : M dst LocalScalarValue :=
  value ← match frame with
          | None => inspect_current_value preferred_elf name
          | Some frame => inspect_local_value preferred_elf frame name
          end;
  _ ← mthrow_if (bool_decide (lv_kind value <> KInteger)) RuntimeError
        ("local value is not an integer scalar: " +:+ name);
  mret value.
End Live.
