(* ===== verification/DebugTypesProofs.v ===== *)
(** * Resolved types are well formed

    The bounds every type the resolvers return is within: a scalar has 1 to 8 bytes, a
    structure or union 1 to 256 bytes and 1 to 32 members, an array 1 to 64 elements, an
    enumeration 1 to 64 enumerators of different names, and every member lies inside its
    owner.  On the entries of a unit the resolvers return or throw. *)

From S2P Require Import Prelude Machine ByteReader ElfFormat LocalValue DebugInfo DebugInfoProofs DebugTree DebugTypes.

(** ** Well-formed types *)

Definition integer_size (n : Z) : Prop := 1 <= n <= 8.
Definition inside (offset n size : Z) : Prop := 0 <= offset /\ offset + n <= size.

Record wf_enum (e : LocalEnumType) : Prop := {
  enum_named : et_name e <> EmptyString;
  enum_size : integer_size (et_byte_size e);
  enum_count : 1 <= size_of (et_enumerators e) <= 64;
  enum_names : NoDup (map ee_name (et_enumerators e));
  enum_values : Forall (fun x => 0 <= ee_raw_value x < 2 ^ (8 * et_byte_size e)) (et_enumerators e)
}.

Definition pointee_member_in (size : Z) (m : LocalPointerPointeeMemberType) : Prop :=
  pm_kind m = KInteger /\ integer_size (pm_byte_size m) /\ inside (pm_offset m) (pm_byte_size m) size.

(** What a pointer member points to. *)
Definition wf_member_pointee (p : LocalPointerPointeeType) : Prop :=
  match pt_kind p with
  | KInteger => integer_size (pt_byte_size p) /\ pt_members p = []
  | KStructure =>
    1 <= pt_byte_size p <= 256 /\ 1 <= size_of (pt_members p) <= 32 /\
    Forall (pointee_member_in (pt_byte_size p)) (pt_members p)
  | _ => False
  end.

(** An integer of the owner's bytes, no bit field. *)
Definition plain_scalar (size : Z) (m : LocalStructMemberType) : Prop :=
  mt_kind m = KInteger /\ mt_pointee_type m = None /\ mt_bit_slice m = None /\ mt_enum_type m = None /\
  mt_members m = [] /\ integer_size (mt_byte_size m) /\ inside (mt_offset m) (mt_byte_size m) size.

(** A slice of the bits of the owner, no wider than the integer it is a part of. *)
Definition bit_field (size : Z) (m : LocalStructMemberType) : Prop :=
  mt_kind m = KInteger /\ mt_pointee_type m = None /\ mt_enum_type m = None /\ mt_members m = [] /\
  integer_size (mt_byte_size m) /\
  exists slice, mt_bit_slice m = Some slice /\ 1 <= bs_bit_size slice <= 8 * mt_byte_size m /\
    inside (bs_bit_offset slice) (bs_bit_size slice) (8 * size) /\ mt_offset m = bs_bit_offset slice / 8.

Definition pointer_member (size : Z) (m : LocalStructMemberType) : Prop :=
  mt_kind m = KPointer /\ mt_byte_size m = 8 /\ mt_is_signed m = false /\ mt_bit_slice m = None /\
  mt_enum_type m = None /\ mt_members m = [] /\ inside (mt_offset m) 8 size /\
  exists pointee, mt_pointee_type m = Some pointee /\ wf_member_pointee pointee.

Definition enum_member (size : Z) (m : LocalStructMemberType) : Prop :=
  mt_kind m = KEnumeration /\ mt_pointee_type m = None /\ mt_bit_slice m = None /\ mt_members m = [] /\
  inside (mt_offset m) (mt_byte_size m) size /\
  exists e, mt_enum_type m = Some e /\ wf_enum e /\ et_byte_size e = mt_byte_size m /\
    et_is_signed e = mt_is_signed m.

Definition nested_member (size : Z) (m : LocalStructMemberType) : Prop :=
  mt_kind m = KStructure /\ mt_is_signed m = false /\ mt_pointee_type m = None /\ mt_bit_slice m = None /\
  mt_enum_type m = None /\ 1 <= mt_byte_size m <= 256 /\ inside (mt_offset m) (mt_byte_size m) size /\
  1 <= size_of (mt_members m) <= 32 /\ NoDup (map mt_name (mt_members m)) /\
  Forall (plain_scalar (mt_byte_size m)) (mt_members m).

Definition direct_member (size : Z) (m : LocalStructMemberType) : Prop :=
  mt_name m <> EmptyString /\ (plain_scalar size m \/ pointer_member size m \/ enum_member size m).

(** A member of a structure of [size] bytes. *)
Definition wf_member (size : Z) (m : LocalStructMemberType) : Prop :=
  direct_member size m \/ (mt_name m <> EmptyString /\ (bit_field size m \/ nested_member size m)).

(** The size, the kind and what a type of the kind carries. *)
Definition wf_type (t : LocalValueType) : Prop :=
  (vt_kind t <> KArray -> vt_array_type t = None) /\ (vt_kind t <> KEnumeration -> vt_enum_type t = None) /\
  match vt_kind t with
  | KInteger => integer_size (vt_byte_size t) /\ vt_members t = []
  | KPointer => vt_byte_size t = 8 /\ vt_is_signed t = false /\ vt_members t = []
  | KFloating => (vt_byte_size t = 4 \/ vt_byte_size t = 8) /\ vt_is_signed t = false /\ vt_members t = []
  | KEnumeration =>
    vt_members t = [] /\ exists e, vt_enum_type t = Some e /\ wf_enum e /\ et_byte_size e = vt_byte_size t /\
                                   et_is_signed e = vt_is_signed t
  | KStructure =>
    1 <= vt_byte_size t <= 256 /\ 1 <= size_of (vt_members t) <= 32 /\
    Forall (wf_member (vt_byte_size t)) (vt_members t)
  | KUnion =>
    1 <= vt_byte_size t <= 256 /\ 1 <= size_of (vt_members t) <= 32 /\ NoDup (map mt_name (vt_members t)) /\
    Forall (fun m => plain_scalar (vt_byte_size t) m /\ mt_offset m = 0) (vt_members t)
  | KArray =>
    vt_members t = [] /\ exists a, vt_array_type t = Some a /\ 1 <= at_element_count a <= 64 /\
      integer_size (at_element_byte_size a) /\ at_element_kind a = KInteger /\
      vt_byte_size t = at_element_count a * at_element_byte_size a /\ vt_byte_size t <= 256
  end.

(** What a pointer variable points to: an integer, or a structure of direct members with
    different names. *)
Definition wf_pointee (t : LocalValueType) : Prop :=
  wf_type t /\
  match vt_kind t with
  | KInteger => True
  | KStructure => Forall (direct_member (vt_byte_size t)) (vt_members t) /\ NoDup (map mt_name (vt_members t))
  | _ => False
  end.

(** A variable's type; it has a pointee exactly when it is a pointer. *)
Definition wf_root (r : BoundedRootTypeResolution) : Prop :=
  wf_type (root_value_type r) /\
  match root_pointee_type r with
  | Some pointee => vt_kind (root_value_type r) = KPointer /\ wf_pointee pointee
  | None => vt_kind (root_value_type r) <> KPointer
  end.

(** ** Steps of a resolver *)

(** What a guard that did not throw says. *)
Ltac facts :=
  repeat match goal with
  | H : _ || _ = false |- _ => apply orb_false_iff in H as [? ?]
  | H : negb _ = false |- _ => apply negb_false_iff in H
  | H : negb _ = true |- _ => apply negb_true_iff in H
  | H : (_ =? _) = true |- _ => apply Z.eqb_eq in H
  | H : (_ =? _) = false |- _ => apply Z.eqb_neq in H
  | H : (_ <? _) = false |- _ => apply Z.ltb_ge in H
  | H : (_ <=? _) = false |- _ => apply Z.leb_gt in H
  | H : bool_decide _ = false |- _ => apply bool_decide_eq_false in H
  | H : bool_decide _ = true |- _ => apply bool_decide_eq_true in H
  end.

(** The parts of a conjunction, without unfolding them. *)
Ltac conjuncts := repeat match goal with |- _ /\ _ => split end.

Lemma yields_require {A} (v : option A) msg : yields (fun a => v = Some a) (require v msg).
Proof. by destruct v. Qed.

(** The next guard or requirement of a resolver. *)
Ltac guarded := apply yields_guard; intros; facts.
Ltac required a Ha := eapply yields_bind; [apply yields_require|intros a Ha; cbn beta in Ha].

Lemma yields_add_all {A B} (P : list B -> Prop) (add : list B -> A -> res (list B)) l children :
  P l -> (forall l x, x ∈ children -> P l -> yields P (add l x)) -> yields P (add_all add l children).
Proof.
  revert l. induction children as [|x children IH]; intros l Hl Hadd; [done|]. cbn [add_all].
  eapply yields_bind; [apply Hadd; [constructor|done]|intros l' Hl'].
  apply IH; [done|]. intros l'' y Hy. apply Hadd. by constructor.
Qed.

Lemma name_of_Some d name : name_of d = Some name -> name <> EmptyString.
Proof.
  unfold name_of. destruct (attribute _ _); [|done]. destruct (String.eqb_spec (av_text a) EmptyString); [done|].
  by intros [= <-].
Qed.

Lemma constant_offset_Some v n : constant_offset v = Some n -> exists a, v = Some a /\ n = av_number a.
Proof. destruct v as [a|]; [|done]. cbn [constant_offset]. destruct (is_constant_member_offset_form _); [|done]. intros [= <-]. eauto. Qed.

(** The entry a chain ends at does not depend on what it says when it cannot be followed. *)
Lemma type_chain_same depth m m' dies o e : type_chain depth m dies o = Ok e -> type_chain depth m' dies o = Ok e.
Proof.
  revert o. induction depth as [|depth IH]; intros o; [done|]. cbn [type_chain].
  destruct (die_index_by_offset dies o) as [i|]; [|done]. destruct (die_at dies i) as [d|?|?|]; [|done..]. cbn [mbind res_bind].
  destruct (_ || _); [|done]. destruct (attribute d kDwAtType) as [t|]; [|done]. unfold throw_if.
  destruct (negb _); [done|]. apply IH.
Qed.

Lemma size_of_snoc {A} (l : list A) x : size_of (l ++ [x]) = size_of l + 1.
Proof. unfold size_of. rewrite length_app. simpl. lia. Qed.

Lemma NoDup_snoc {A} (l : list A) x : NoDup l -> x ∉ l -> NoDup (l ++ [x]).
Proof. intros Hl Hx. apply NoDup_app. split; [done|]. split; [by intros y Hy ->%list_elem_of_singleton|apply NoDup_singleton]. Qed.

Lemma has_member_false name members : has_member name members = false -> name ∉ map mt_name members.
Proof.
  intros H (m & -> & Hm)%list_elem_of_fmap. apply not_true_iff_false in H. apply H. apply existsb_exists.
  exists m. rewrite <- list_elem_of_In. split; [done|apply String.eqb_refl].
Qed.

(** A mask of [8 * n] bits. *)
Lemma land_width z n : 1 <= n <= 8 -> 0 <= Z.land z (u64 (Z.shiftl 1 (n * 8)) - 1) < 2 ^ (8 * n) \/ n = 8.
Proof.
  intros Hn. destruct (Z.eq_dec n 8) as [|Hn8]; [by right|left].
  rewrite Z.shiftl_1_l. rewrite u64_small.
  2: { unfold in_u64, u64_max. pose proof (Z.pow_le_mono_r 2 (n * 8) 56 ltac:(lia) ltac:(lia)).
       pose proof (Z.pow_pos_nonneg 2 (n * 8) ltac:(lia) ltac:(lia)). lia. }
  rewrite (land_mask z (n * 8)) by (rewrite ?Z.ones_equiv; lia). rewrite (Z.mul_comm 8 n).
  apply Z.mod_pos_bound, Z.pow_pos_nonneg; lia.
Qed.

(** ** The resolvers *)

Section Resolvers.
Context (dies : list Die) (Hnum : Forall sized_numbers dies).

Lemma die_at_yields i : (i < length dies)%nat -> yields (fun d => dies !! i = Some d) (die_at dies i).
Proof. intros Hi. unfold die_at. destruct (lookup_lt_is_Some_2 dies i Hi) as [d E]. by rewrite E. Qed.

Lemma type_chain_yields depth m o :
  yields (fun e => dies !! te_index e = Some (te_die e) /\ type_chain depth m dies o = Ok e) (type_chain depth m dies o).
Proof.
  revert o. induction depth as [|depth IH]; intros o; [done|]. cbn [type_chain].
  destruct (die_index_by_offset dies o) as [i|] eqn:Ei; [|done].
  assert (Hi : (i < length dies)%nat).
  { unfold die_index_by_offset in Ei. destruct (list_find _ dies) as [[j d]|] eqn:E; [|done].
    injection Ei as <-. apply list_find_Some in E as (E & _). by apply lookup_lt_Some in E. }
  pose proof (die_at_yields i Hi) as Hd. destruct (die_at dies i) as [d|e|w|]; [|done..]. cbn [mbind res_bind].
  destruct (_ || _); [|done]. destruct (attribute d kDwAtType) as [t|]; [|done]. unfold throw_if.
  destruct (negb _); [done|apply IH].
Qed.

Lemma entry_number i d name v : dies !! i = Some d -> attribute d name = Some v -> in_u64 (av_number v).
Proof. intros Hi. apply attribute_number. by eapply Forall_lookup in Hnum. Qed.

Lemma child_number d i name v : d ∈ children_of dies i -> attribute d name = Some v -> in_u64 (av_number v).
Proof.
  intros Hd. apply attribute_number. unfold children_of in Hd. apply list_elem_of_In, filter_In in Hd as [Hd _].
  rewrite <- list_elem_of_In in Hd. by eapply Forall_forall in Hnum.
Qed.

Lemma child_offset d i name n : d ∈ children_of dies i -> constant_offset (attribute d name) = Some n -> 0 <= n.
Proof. intros Hd (a & Ha & ->)%constant_offset_Some. by destruct (child_number _ _ _ _ Hd Ha). Qed.

Lemma resolve_integer_type_yields o : yields (fun i => integer_size (it_byte_size i)) (resolve_integer_type dies o).
Proof.
  unfold resolve_integer_type. eapply yields_bind; [apply type_chain_yields|intros e [He _]]. cbv zeta. guarded.
  destruct (attribute _ kDwAtByteSize) as [size|] eqn:Es; [|done]. destruct (attribute _ kDwAtEncoding) as [encoding|]; [|done].
  destruct (entry_number _ _ _ _ He Es). do 2 guarded. unfold integer_size. simpl. lia.
Qed.

(** *** Enumerations *)

Lemma enum_signedness_settles d n : settles (enum_signedness dies d n).
Proof.
  assert (Hi : forall o, settles (resolve_integer_type dies o)) by (intros; eapply yields_settles, resolve_integer_type_yields).
  unfold enum_signedness. destruct (attribute d kDwAtEncoding) as [encoding|].
  - apply settles_bind; [auto with msettle|intros _ _]. destruct (attribute d kDwAtType); [|done].
    apply settles_bind; [auto with msettle|intros _ _]. apply settles_bind; [apply Hi|intros u _]. settles_auto.
  - apply settles_bind; [unfold require; settles_auto|intros r _]. apply settles_bind; [apply Hi|intros u _]. settles_auto.
Qed.

Lemma bounded_enum_raw_value_yields v n :
  integer_size n -> in_u64 v -> yields (fun raw => 0 <= raw < 2 ^ (8 * n)) (bounded_enum_raw_value v n).
Proof.
  intros Hn Hv. unfold bounded_enum_raw_value. guarded. destruct (Z.eqb_spec n 8) as [->|].
  - unfold in_u64, u64_max in Hv. simpl. lia.
  - destruct (land_width v n Hn); [done|lia].
Qed.

Definition enumerators_ok (n : Z) (l : list LocalEnumEntry) : Prop :=
  size_of l <= 64 /\ NoDup (map ee_name l) /\ Forall (fun x => 0 <= ee_raw_value x < 2 ^ (8 * n)) l.

Lemma add_enumerator_yields i n s l d :
  integer_size n -> d ∈ children_of dies i -> enumerators_ok n l -> yields (enumerators_ok n) (add_enumerator n s l d).
Proof.
  intros Hn Hd (Hlen & Hnd & Hval). unfold add_enumerator, kMaxLocalEnumEntries. do 2 guarded. required name Hname. cbv zeta.
  required constant Hconstant. guarded. eapply yields_bind; [eapply bounded_enum_raw_value_yields; [done|eapply child_number; eassumption]|intros raw Hraw].
  guarded. apply yields_guard; intros Hdup. unfold yields, enumerators_ok. rewrite size_of_snoc, map_app. split; [lia|]. split.
  - apply NoDup_snoc; [done|]. intros (x & E & Hx)%list_elem_of_fmap. apply not_true_iff_false in Hdup. apply Hdup.
    apply existsb_exists. exists x. rewrite <- list_elem_of_In. split; [done|]. rewrite <- E. apply String.eqb_refl.
  - apply Forall_app. split; [done|by constructor].
Qed.

Lemma resolve_bounded_enum_type_yields o :
  yields (fun r => match r with Some e => wf_enum e | None => True end) (resolve_bounded_enum_type dies o).
Proof.
  unfold resolve_bounded_enum_type. eapply yields_bind; [apply type_chain_yields|intros e [He _]]. cbv zeta.
  destruct (negb _); [done|]. required name Hname. required len Hlen0. destruct (entry_number _ _ _ _ He Hlen0). guarded.
  assert (Hn : integer_size (av_number len)) by (unfold integer_size; lia).
  eapply yields_bind; [apply settles_yields, enum_signedness_settles|intros s _].
  eapply yields_bind.
  { eapply (yields_add_all (enumerators_ok (av_number len))); [split; [done|split; constructor]|].
    intros l x Hx Hl. by eapply add_enumerator_yields. }
  intros l (Hlen & Hnd & Hval). guarded. split; simpl; try done; [by eapply name_of_Some|].
  destruct l; [done|]. unfold size_of in *. simpl in *. lia.
Qed.

(** *** Bit fields *)

Lemma absolute_bit_offset_yields i d w n size :
  d ∈ children_of dies i -> 1 <= w <= 8 * it_byte_size n -> integer_size (it_byte_size n) ->
  yields (fun bits => 0 <= bits) (absolute_bit_offset d w n size).
Proof.
  intros Hd Hw Hn. unfold absolute_bit_offset. destruct (attribute d kDwAtBitOffset) as [b|] eqn:Eb.
  - destruct (attribute d kDwAtDataBitOffset); [done|]. unfold legacy_bit_offset. required o Ho. guarded. guarded.
    pose proof (child_offset _ _ _ _ Hd Ho). simpl. lia.
  - destruct (attribute d kDwAtDataBitOffset) as [a|] eqn:Ea; [|done]. guarded.
    by destruct (child_number _ _ _ _ Hd Ea).
Qed.

Definition slice_ok (n size : Z) (slice : LocalBitSlice) : Prop :=
  1 <= bs_bit_size slice <= 8 * n /\ inside (bs_bit_offset slice) (bs_bit_size slice) (8 * size).

Lemma resolve_bounded_bit_slice_yields i d n size :
  d ∈ children_of dies i -> integer_size (it_byte_size n) ->
  yields (fun r => match r with Some slice => slice_ok (it_byte_size n) size slice | None => True end)
    (resolve_bounded_bit_slice d n size).
Proof.
  intros Hd Hn. unfold resolve_bounded_bit_slice. destruct (attribute d kDwAtBitSize) as [w|] eqn:Ew; [|by guarded].
  destruct (child_number _ _ _ _ Hd Ew). guarded. cbv zeta.
  eapply yields_bind; [apply absolute_bit_offset_yields with (i := i); [done|lia|done]|intros bits Hbits]. cbv beta in Hbits.
  guarded. unfold yields, slice_ok, inside. simpl. lia.
Qed.

Lemma resolve_bounded_bit_field_member_type_yields i d size :
  d ∈ children_of dies i ->
  yields (fun r => match r with Some m => mt_name m <> EmptyString /\ bit_field size m | None => True end)
    (resolve_bounded_bit_field_member_type dies d size).
Proof.
  intros Hd. unfold resolve_bounded_bit_field_member_type. destruct (negb _); [done|]. required name Hname. required o Ho.
  eapply yields_bind; [apply resolve_integer_type_yields|intros n Hn].
  eapply yields_bind; [by eapply resolve_bounded_bit_slice_yields|intros [slice|] Hs]; [|done].
  split; [by eapply name_of_Some|]. unfold bit_field. simpl. conjuncts; try done. exists slice. by destruct Hs.
Qed.

(** *** Unions and arrays *)

Lemma resolve_bounded_union_member_type_yields i d size :
  d ∈ children_of dies i ->
  yields (fun m => plain_scalar size m /\ mt_offset m = 0) (resolve_bounded_union_member_type dies d size).
Proof.
  intros Hd. unfold resolve_bounded_union_member_type. required name Hname. required o Ho. guarded.
  eapply yields_bind; [apply type_chain_yields|intros e _]. guarded.
  eapply yields_bind; [apply resolve_integer_type_yields|intros n Hn]. guarded.
  unfold yields, plain_scalar, inside. simpl. conjuncts; by try lia.
Qed.

Definition union_ok (size : Z) (l : list LocalStructMemberType) : Prop :=
  size_of l <= 32 /\ NoDup (map mt_name l) /\ Forall (fun m => plain_scalar size m /\ mt_offset m = 0) l.

Lemma add_union_member_yields i size l d :
  d ∈ children_of dies i -> union_ok size l -> yields (union_ok size) (add_union_member dies size l d).
Proof.
  intros Hd (Hlen & Hnd & Hl). unfold add_union_member, kMaxLocalStructMembers. do 2 guarded.
  eapply yields_bind; [by eapply resolve_bounded_union_member_type_yields|intros m Hm].
  apply yields_guard; intros Hdup%has_member_false. unfold yields, union_ok. rewrite size_of_snoc, map_app.
  split; [lia|]. split; [by apply NoDup_snoc|apply Forall_app; split; [done|by constructor]].
Qed.

Lemma not_empty {A} (l : list A) : match l with [] => true | _ => false end = false -> 1 <= size_of l.
Proof. destruct l; [done|]. unfold size_of. simpl. lia. Qed.

Lemma resolve_bounded_union_type_yields o :
  yields (fun r => match r with Some t => wf_type t /\ vt_kind t = KUnion | None => True end)
    (resolve_bounded_union_type dies o).
Proof.
  unfold resolve_bounded_union_type, kMaxLocalStructSize. eapply yields_bind; [apply type_chain_yields|intros e [He _]].
  cbv zeta. destruct (negb _); [done|]. required len Hlen. destruct (entry_number _ _ _ _ He Hlen). guarded.
  eapply yields_bind.
  { eapply (yields_add_all (union_ok (av_number len))); [split; [done|split; constructor]|].
    intros l x Hx Hl. by eapply add_union_member_yields. }
  intros l (Hl1 & Hnd & Hl). apply yields_guard; intros Hne%not_empty. unfold yields, wf_type. simpl.
  conjuncts; by try lia.
Qed.

Lemma find_subrange_yields i found children :
  (forall d, found = Some d -> d ∈ children_of dies i) -> (forall d, d ∈ children -> d ∈ children_of dies i) ->
  yields (fun d => d ∈ children_of dies i) (find_subrange found children).
Proof.
  revert found. induction children as [|d children IH]; intros found Hf Hc; cbn [find_subrange].
  { destruct found; [by apply Hf|done]. }
  guarded. apply IH; [intros ? [= <-]; apply Hc; constructor|intros; apply Hc; by constructor].
Qed.

Lemma array_element_count_yields i d : d ∈ children_of dies i -> yields (fun n => 0 <= n) (array_element_count d).
Proof.
  intros Hd. unfold array_element_count, bound_form_is. cbv zeta. do 3 guarded.
  destruct (attribute d kDwAtCount) as [c|] eqn:Ec; destruct (attribute d kDwAtUpperBound) as [u|] eqn:Eu; [guarded|..|done].
  - by destruct (child_number _ _ _ _ Hd Ec).
  - by destruct (child_number _ _ _ _ Hd Ec).
  - guarded. destruct (child_number _ _ _ _ Hd Eu). simpl. lia.
Qed.

Lemma resolve_bounded_fixed_array_type_yields o :
  yields (fun r => match r with Some t => wf_type t /\ vt_kind t = KArray | None => True end)
    (resolve_bounded_fixed_array_type dies o).
Proof.
  unfold resolve_bounded_fixed_array_type, kMaxLocalStructSize, kMaxLocalArrayElements.
  eapply yields_bind; [apply type_chain_yields|intros e [He _]]. cbv zeta. destruct (negb _); [done|]. required r Hr.
  eapply yields_bind; [apply resolve_integer_type_yields|intros n Hn].
  eapply yields_bind; [by apply (find_subrange_yields (te_index e))|intros d Hd].
  eapply yields_bind; [eapply array_element_count_yields; exact Hd|intros count Hcount]. cbv beta in Hcount. guarded. guarded.
  guarded. unfold yields, wf_type. simpl. split; [|done]. split; [done|]. split; [done|]. split; [done|].
  eexists. split; [done|]. simpl. conjuncts; try done; try lia.
  assert (count <= 256 / it_byte_size n) by lia. unfold integer_size in Hn.
  pose proof (Z.mul_div_le 256 (it_byte_size n) ltac:(lia)). nia.
Qed.

(** *** Structures *)

Definition terminals_ok (size : Z) (l : list LocalStructMemberType) : Prop :=
  size_of l <= 32 /\ NoDup (map mt_name l) /\ Forall (plain_scalar size) l.

Lemma add_terminal_yields i size l d :
  d ∈ children_of dies i -> terminals_ok size l -> yields (terminals_ok size) (add_terminal dies size l d).
Proof.
  intros Hd (Hlen & Hnd & Hl). unfold add_terminal, kMaxLocalStructMembers. do 3 guarded. required name Hname.
  required t Ht. required o Ho. pose proof (child_offset _ _ _ _ Hd Ho).
  eapply yields_bind; [apply resolve_integer_type_yields|intros n Hn]. guarded.
  apply yields_guard; intros Hdup%has_member_false. unfold yields, terminals_ok. rewrite size_of_snoc, map_app.
  split; [lia|]. split; [by apply NoDup_snoc|]. apply Forall_app; split; [done|constructor; [|constructor]].
  unfold plain_scalar, inside. simpl. conjuncts; by try lia.
Qed.

Lemma resolve_bounded_nested_structure_member_type_yields i d size :
  d ∈ children_of dies i ->
  yields (fun r => match r with Some m => mt_name m <> EmptyString /\ nested_member size m | None => True end)
    (resolve_bounded_nested_structure_member_type dies d size).
Proof.
  intros Hd. unfold resolve_bounded_nested_structure_member_type, kMaxLocalStructSize. destruct (type_of d) as [t|]; [|done].
  eapply yields_bind; [apply type_chain_yields|intros e [He _]]. cbv zeta. destruct (negb _); [done|].
  required name Hname. required o Ho. pose proof (child_offset _ _ _ _ Hd Ho). required len Hlen.
  destruct (entry_number _ _ _ _ He Hlen). do 2 guarded. eapply yields_bind.
  { eapply (yields_add_all (terminals_ok (av_number len))); [split; [done|split; constructor]|].
    intros l x Hx Hl. by eapply add_terminal_yields. }
  intros l (Hl1 & Hnd & Hl). apply yields_guard; intros Hne%not_empty. split; [by eapply name_of_Some|].
  unfold nested_member, inside. simpl. conjuncts; by try lia.
Qed.

Definition pointee_members_ok (size : Z) (l : list LocalPointerPointeeMemberType) : Prop :=
  size_of l <= 32 /\ Forall (pointee_member_in size) l.

Lemma add_pointee_member_yields i size l d :
  d ∈ children_of dies i -> pointee_members_ok size l ->
  yields (pointee_members_ok size) (add_pointee_member dies size l d).
Proof.
  intros Hd (Hlen & Hl). unfold add_pointee_member, kMaxLocalStructMembers. do 2 guarded. cbv zeta. required name Hname.
  required t Ht. required o Ho. pose proof (child_offset _ _ _ _ Hd Ho).
  eapply yields_bind; [apply resolve_integer_type_yields|intros n Hn]. guarded.
  unfold yields, pointee_members_ok. rewrite size_of_snoc. split; [lia|].
  apply Forall_app; split; [done|constructor; [|constructor]]. unfold pointee_member_in, inside. simpl. conjuncts; by try lia.
Qed.

Lemma resolve_bounded_pointer_member_pointee_type_yields o :
  yields wf_member_pointee (resolve_bounded_pointer_member_pointee_type dies o).
Proof.
  unfold resolve_bounded_pointer_member_pointee_type, kMaxLocalStructSize.
  eapply yields_bind; [apply type_chain_yields|intros e [He _]]. cbv zeta. destruct (negb _).
  { eapply yields_bind; [apply resolve_integer_type_yields|intros n Hn]. done. }
  required len Hlen. destruct (entry_number _ _ _ _ He Hlen). guarded. eapply yields_bind.
  { eapply (yields_add_all (pointee_members_ok (av_number len))); [split; [done|constructor]|].
    intros l x Hx Hl. by eapply add_pointee_member_yields. }
  intros l (Hl1 & Hl). apply yields_guard; intros Hne%not_empty. unfold yields, wf_member_pointee. simpl.
  conjuncts; by try lia.
Qed.

Lemma resolve_bounded_direct_structure_member_type_yields i d size :
  d ∈ children_of dies i -> yields (direct_member size) (resolve_bounded_direct_structure_member_type dies d size).
Proof.
  intros Hd. unfold resolve_bounded_direct_structure_member_type. required name Hname. required t Ht. required o Ho.
  pose proof (child_offset _ _ _ _ Hd Ho). pose proof (name_of_Some _ _ Hname).
  eapply yields_bind; [apply type_chain_yields|intros e _]. destruct (_ =? kDwTagPointerType).
  { unfold direct_pointer_member. cbv zeta. guarded. required p Hp.
    eapply yields_bind; [apply resolve_bounded_pointer_member_pointee_type_yields|intros pt Hpt]. guarded.
    split; [done|]. right; left. unfold pointer_member, inside. simpl. conjuncts; try done; [lia|]. by exists pt. }
  eapply yields_bind; [apply resolve_bounded_enum_type_yields|intros [en|] Hen].
  - guarded. split; [done|]. right; right. unfold enum_member, inside. simpl. conjuncts; try done; [lia|]. by exists en.
  - eapply yields_bind; [apply resolve_integer_type_yields|intros n Hn]. guarded. split; [done|]. left.
    unfold plain_scalar, inside. simpl. conjuncts; by try lia.
Qed.

Definition members_ok (size : Z) (l : list LocalStructMemberType) : Prop :=
  size_of l <= 32 /\ Forall (wf_member size) l.

Lemma members_ok_snoc size l m : members_ok size l -> size_of l < 32 -> wf_member size m -> members_ok size (l ++ [m]).
Proof. intros [_ Hl] Hlt Hm. split; [rewrite size_of_snoc; lia|]. apply Forall_app; split; [done|by constructor]. Qed.

Lemma add_struct_member_yields i size l d :
  d ∈ children_of dies i -> members_ok size l -> yields (members_ok size) (add_struct_member dies size l d).
Proof.
  intros Hd Hl. unfold add_struct_member, kMaxLocalStructMembers. do 2 guarded.
  eapply yields_bind; [by eapply resolve_bounded_bit_field_member_type_yields|intros [m|] Hm].
  { apply members_ok_snoc; [done|done|]. right. split; [apply Hm|left; apply Hm]. }
  eapply yields_bind; [by eapply resolve_bounded_nested_structure_member_type_yields|intros [m|] Hm'].
  { apply members_ok_snoc; [done|done|]. right. split; [apply Hm'|right; apply Hm']. }
  eapply yields_bind; [by eapply resolve_bounded_direct_structure_member_type_yields|intros m Hm''].
  by apply members_ok_snoc; [..|left].
Qed.

Lemma resolve_structure_type_yields e :
  dies !! te_index e = Some (te_die e) ->
  yields (fun t => wf_type t /\ vt_kind t = KStructure) (resolve_structure_type dies e).
Proof.
  intros He. unfold resolve_structure_type, kMaxLocalStructSize. cbv zeta. required len Hlen.
  destruct (entry_number _ _ _ _ He Hlen). guarded. eapply yields_bind.
  { eapply (yields_add_all (members_ok (av_number len))); [split; [done|constructor]|].
    intros l x Hx Hl. by eapply add_struct_member_yields. }
  intros l (Hl1 & Hl). apply yields_guard; intros Hne%not_empty. unfold yields, wf_type. simpl. conjuncts; by try lia.
Qed.

(** *** Types of variables *)

Lemma resolve_value_type_yields o :
  yields (fun t => wf_type t /\
            (vt_kind t = KPointer -> forall m e, type_chain kTypeChain m dies o = Ok e -> die_tag (te_die e) = kDwTagPointerType))
    (resolve_value_type dies o).
Proof.
  unfold resolve_value_type. eapply yields_bind; [apply type_chain_yields|intros e [He Hchain]]. cbv zeta.
  destruct (_ =? kDwTagEnumerationType).
  { eapply yields_bind; [apply resolve_bounded_enum_type_yields|intros [en|] Hen]; [|done].
    unfold yields, wf_type. simpl. split; [|done]. conjuncts; try done. by exists en. }
  destruct (_ =? kDwTagUnionType).
  { eapply yields_bind; [apply resolve_bounded_union_type_yields|intros [t|] Ht]; [|done].
    destruct Ht as [Ht E]. split; [done|]. by rewrite E. }
  destruct (_ =? kDwTagArrayType).
  { eapply yields_bind; [apply resolve_bounded_fixed_array_type_yields|intros [t|] Ht]; [|done].
    destruct Ht as [Ht E]. split; [done|]. by rewrite E. }
  destruct (Z.eqb_spec (die_tag (te_die e)) kDwTagPointerType) as [Htag|_].
  { guarded. required p Hp. eapply yields_bind; [apply resolve_integer_type_yields|intros n _].
    split; [unfold wf_type; simpl; by conjuncts|]. intros _ m e' He'. by rewrite (type_chain_same _ _ m _ _ _ Hchain) in He'; injection He' as <-. }
  destruct (_ =? kDwTagBaseType).
  { eapply yields_bind; [apply resolve_integer_type_yields|intros n Hn]. unfold yields, wf_type. simpl. by split; [conjuncts|]. }
  destruct (_ =? kDwTagStructureType); [|done].
  eapply yields_weaken; [|by apply resolve_structure_type_yields]. intros t [Ht E]. split; [done|]. by rewrite E.
Qed.

Lemma resolve_snapshot_floating_type_yields o :
  yields (fun r => match r with Some t => wf_type t /\ vt_kind t = KFloating | None => True end)
    (resolve_snapshot_floating_type dies o).
Proof.
  unfold resolve_snapshot_floating_type. eapply yields_bind; [apply type_chain_yields|intros e _]. cbv zeta.
  destruct (negb _); [done|]. destruct (attribute _ kDwAtEncoding); [|done]. destruct (negb _); [done|]. required len Hlen.
  apply yields_guard; intros Hsize. unfold yields, wf_type. simpl. conjuncts; try done.
  destruct (Z.eqb_spec (av_number len) 4); [by left|]. destruct (Z.eqb_spec (av_number len) 8); [by right|done].
Qed.

Definition direct_ok (size : Z) (l : list LocalStructMemberType) : Prop :=
  size_of l <= 32 /\ NoDup (map mt_name l) /\ Forall (direct_member size) l.

Lemma add_snapshot_member_yields i size l d :
  d ∈ children_of dies i -> direct_ok size l -> yields (direct_ok size) (add_snapshot_member dies size l d).
Proof.
  intros Hd (Hlen & Hnd & Hl). unfold add_snapshot_member, kMaxLocalStructMembers. do 2 guarded.
  eapply yields_bind; [by eapply resolve_bounded_direct_structure_member_type_yields|intros m Hm].
  apply yields_guard; intros Hdup%has_member_false. unfold yields, direct_ok. rewrite size_of_snoc, map_app.
  split; [lia|]. split; [by apply NoDup_snoc|]. apply Forall_app; split; [done|by constructor].
Qed.

Lemma resolve_snapshot_structure_pointee_type_yields o :
  yields wf_pointee (resolve_snapshot_structure_pointee_type dies o).
Proof.
  unfold resolve_snapshot_structure_pointee_type, kMaxLocalStructSize.
  eapply yields_bind; [apply type_chain_yields|intros e [He _]]. cbv zeta. guarded. required len Hlen.
  destruct (entry_number _ _ _ _ He Hlen). guarded. eapply yields_bind.
  { eapply (yields_add_all (direct_ok (av_number len))); [split; [done|split; constructor]|].
    intros l x Hx Hl. by eapply add_snapshot_member_yields. }
  intros l (Hl1 & Hnd & Hl). apply yields_guard; intros Hne%not_empty. unfold yields, wf_pointee, wf_type. simpl.
  conjuncts; try done; [lia..|]. eapply Forall_impl; [done|]. intros m Hm. by left.
Qed.

Lemma resolve_pointee_yields o : yields wf_pointee (resolve_pointee dies o).
Proof.
  unfold resolve_pointee. eapply yields_bind; [apply type_chain_yields|intros e _]. cbv zeta.
  destruct (_ =? kDwTagBaseType).
  { eapply yields_bind; [apply resolve_integer_type_yields|intros n Hn]. unfold yields, wf_pointee, wf_type. simpl. by conjuncts. }
  destruct (_ =? kDwTagStructureType); [apply resolve_snapshot_structure_pointee_type_yields|done].
Qed.

Lemma resolve_pointer_pointee_type_yields o :
  yields (fun r => match r with
                   | Some t => wf_pointee t
                   | None => exists m e, type_chain kTypeChain m dies o = Ok e /\ die_tag (te_die e) <> kDwTagPointerType
                   end) (resolve_pointer_pointee_type dies o).
Proof.
  unfold resolve_pointer_pointee_type. eapply yields_bind; [apply type_chain_yields|intros e [_ Hchain]]. cbv zeta.
  destruct (Z.eqb_spec (die_tag (te_die e)) kDwTagPointerType) as [|Hne]; cbn [negb]; [|by eexists _, e].
  guarded. required p Hp. eapply yields_bind; [apply resolve_pointee_yields|intros t Ht]. done.
Qed.

Lemma resolve_bounded_root_value_type_yields o : yields wf_root (resolve_bounded_root_value_type dies o).
Proof.
  unfold resolve_bounded_root_value_type.
  eapply yields_bind; [apply resolve_snapshot_floating_type_yields|intros [t|] Ht].
  { destruct Ht as [Ht E]. split; [done|]. simpl. by rewrite E. }
  eapply yields_bind; [apply resolve_pointer_pointee_type_yields|intros [p|] Hp].
  { split; [unfold wf_type; simpl; by conjuncts|]. by split. }
  destruct Hp as (m & e & Hchain & Htag).
  eapply yields_bind; [apply resolve_value_type_yields|intros t' [Ht' Hpt]]. split; [done|]. simpl. intros E. by eapply Htag, Hpt.
Qed.
End Resolvers.

(** C32: every type the resolvers return for a variable of a parsed unit is well formed and
    bounded: a scalar has 1 to 8 bytes, a structure or union 1 to 256 bytes and 1 to 32
    members, an array 1 to 64 elements that fill it, an enumeration 1 to 64 enumerators of
    different names whose values fit; every member, bit slice and nested member lies inside
    its owner; only pointers have a pointee, an integer or a structure.  On any unit the
    resolvers return or throw. *)
Theorem resolved_types_bounded s start u o :
  sections_sized s -> 0 <= start -> parse_unit_dies s start = Ok u ->
  yields wf_root (resolve_bounded_root_value_type (unit_dies u) o) /\
  yields wf_type (resolve_value_type (unit_dies u) o).
Proof.
  intros Hs Hstart Hu. pose proof (parse_unit_dies_yields s start Hs Hstart) as Hy. rewrite Hu in Hy.
  destruct Hy as (_ & _ & Hwf). pose proof (die_numbers _ _ _ Hwf) as Hnum. split.
  - by apply resolve_bounded_root_value_type_yields.
  - eapply yields_weaken; [|by apply resolve_value_type_yields]. by intros t [Ht _].
Qed.

(** ** A structure with an integer, a bit field, a nested structure and a pointer *)

Definition pair_abbrev : list byte :=
  map byte_of_Z
    [1; 0x11; 1; 0x11; 0x01; 0; 0;
     2; 0x24; 0; 0x03; 0x08; 0x0b; 0x0b; 0x3e; 0x0b; 0; 0;
     3; 0x13; 1; 0x03; 0x08; 0x0b; 0x0b; 0; 0;
     4; 0x0d; 0; 0x03; 0x08; 0x49; 0x13; 0x38; 0x0b; 0; 0;
     5; 0x0d; 0; 0x03; 0x08; 0x49; 0x13; 0x0d; 0x0b; 0x6b; 0x0b; 0; 0;
     6; 0x0f; 0; 0x0b; 0x0b; 0x49; 0x13; 0; 0;
     0].

(** [int] at 20, [struct in] at 27, [int *] at 43, [struct pair] at 49. *)
Definition pair_entries : list byte :=
  [x01] ++ le_split 8 0x1000 ++
    [x02] ++ cstr "int" ++ [x04; x05] ++
    [x03] ++ cstr "in" ++ [x04] ++ [x04] ++ cstr "low" ++ le_split 4 20 ++ [x00] ++ [x00] ++
    [x06] ++ [x08] ++ le_split 4 20 ++
    [x03] ++ cstr "pair" ++ [x18] ++
      [x04] ++ cstr "number" ++ le_split 4 20 ++ [x00] ++
      [x05] ++ cstr "flag" ++ le_split 4 20 ++ [x05; x23] ++
      [x04] ++ cstr "inner" ++ le_split 4 27 ++ [x08] ++
      [x04] ++ cstr "next" ++ le_split 4 43 ++ [x10] ++
    [x00] ++
  [x00].

Definition pair_info : list byte :=
  le_split 4 (size_of pair_entries + 7) ++ le_split 2 4 ++ le_split 4 0 ++ [x08] ++ pair_entries.
Definition pair_sections : DebugSections := mkSections pair_info pair_abbrev (cstr "") [] [] [] [] [].

Lemma pair_sections_sized : sections_sized pair_sections.
Proof. split; vm_compute; discriminate. Qed.

Definition pair_unit : list Die := Eval vm_compute in
  match parse_unit_dies pair_sections 0 with Ok u => unit_dies u | _ => [] end.

Lemma pair_unit_parses : parse_unit_dies pair_sections 0 = Ok (mkParsed pair_unit (size_of pair_info) 4).
Proof. vm_compute. reflexivity. Qed.

Definition pair_root : BoundedRootTypeResolution := Eval vm_compute in
  match resolve_bounded_root_value_type pair_unit 49 with
  | Ok root => root
  | _ => mkRoot (mkValueType 0 false KInteger [] None None) None
  end.

Lemma pair_root_resolves : resolve_bounded_root_value_type pair_unit 49 = Ok pair_root.
Proof. vm_compute. reflexivity. Qed.

Lemma resolved_types_bounded_witness :
  sections_sized pair_sections /\ wf_root pair_root /\ size_of (vt_members (root_value_type pair_root)) = 4.
Proof.
  split; [exact pair_sections_sized|]. split; [|reflexivity].
  pose proof (proj1 (resolved_types_bounded pair_sections 0 _ 49 pair_sections_sized (Z.le_refl 0) pair_unit_parses)) as H.
  unfold unit_dies in H. rewrite pair_root_resolves in H. exact H.
Defined.
