(* ===== verification/DebugValuesProofs.v ===== *)
(** * Decoding the bytes of a value

    The value of a variable of a resolved type is a function of the little-endian number
    its bytes are: every integer, member, element and bit field is the slice of the number
    at its place, and a signed bit field keeps its sign in the width of its storage.  The
    checks the materialisers repeat never fail on a resolved type. *)

From S2P Require Import Prelude Machine ByteReader ElfFormat EhFrame Elf CfaProgram SnapshotMemory LocalValue DebugInfo DebugInfoProofs DebugTree DebugTypes DebugTypesProofs DebugValues SnapshotValues.

(** ** Slices of a number *)

(** The [n] bits from [offset] on of the number the bytes are. *)
Definition bits (bytes : list byte) (offset n : Z) : Z := (le_combine bytes / 2 ^ offset) mod 2 ^ n.

Lemma pow256 n : 0 <= n -> 256 ^ n = 2 ^ (8 * n).
Proof. intros Hn. change 256 with (2 ^ 8). by rewrite <- Z.pow_mul_r by lia. Qed.

Lemma le_combine_drop n l : le_combine (drop n l) = le_combine l / 256 ^ Z.of_nat n.
Proof.
  revert l. induction n as [|n IH]; intros l; [by rewrite Z.div_1_r|]. destruct l as [|b l]; [by rewrite Z.div_0_l by lia|].
  cbn [drop le_combine]. rewrite IH, Nat2Z.inj_succ, Z.pow_succ_r by lia.
  rewrite <- Z.div_div by lia. f_equal. pose proof (byte_val_range b). dlia.
Qed.

Lemma le_combine_take n l : le_combine (take n l) = le_combine l mod 256 ^ Z.of_nat n.
Proof.
  revert l. induction n as [|n IH]; intros l; [by rewrite Z.mod_1_r|]. destruct l as [|b l]; [by rewrite Z.mod_0_l by lia|].
  cbn [take le_combine]. rewrite IH, Nat2Z.inj_succ, Z.pow_succ_r by lia. rewrite Z.rem_mul_r by lia.
  pose proof (byte_val_range b). f_equal; [|f_equal; f_equal]; dlia.
Qed.

Lemma bits_range bytes o n : 0 <= n -> 0 <= bits bytes o n < 2 ^ n.
Proof. intros Hn. apply Z.mod_pos_bound, Z.pow_pos_nonneg; lia. Qed.

(** A whole little-endian integer. *)
Lemma or_bytes_bits bytes o n :
  0 <= o -> 1 <= n <= 8 -> o + n <= size_of bytes ->
  or_bytes 0 0 (take (Z.to_nat n) (drop (Z.to_nat o) bytes)) = bits bytes (8 * o) (8 * n).
Proof.
  intros Ho Hn Hs. assert (Hlen : size_of (take (Z.to_nat n) (drop (Z.to_nat o) bytes)) = n).
  { unfold size_of in *. rewrite length_take, length_drop. lia. }
  rewrite (or_bytes_le _ 0 0) by lia. rewrite le_combine_take, le_combine_drop, !Z2Nat.id by lia.
  unfold bits. rewrite !pow256 by lia. lia.
Qed.

Lemma decode_integer_bits bytes o n :
  integer_size n -> inside o n (size_of bytes) -> decode_integer bytes o n = Ok (bits bytes (8 * o) (8 * n)).
Proof.
  intros Hn [Ho Hin]. unfold integer_size in Hn. unfold decode_integer, throw_if.
  destruct (Z.eqb_spec n 0); [lia|]. destruct (Z.ltb_spec 8 n); [lia|]. destruct (Z.ltb_spec (size_of bytes) o); [lia|].
  destruct (Z.ltb_spec (size_of bytes - o) n); [lia|]. cbn [orb mbind res_bind]. by rewrite or_bytes_bits.
Qed.

(** A bit of the number is a bit of one of the bytes. *)
Lemma le_combine_testbit l i b :
  0 <= i -> l !! Z.to_nat (i / 8) = Some b -> Z.testbit (le_combine l) i = Z.testbit (byte_val b) (i mod 8).
Proof.
  revert i. induction l as [|c l IH]; intros i Hi Hb; [by rewrite lookup_nil in Hb|]. cbn [le_combine].
  pose proof (byte_val_range c) as Hc. destruct (Z.lt_ge_cases i 8) as [Hlt|Hge].
  - rewrite Z.div_small in Hb by lia. injection Hb as ->. rewrite (Z.mod_small i 8) by lia.
    rewrite <- (Z.mod_pow2_bits_low _ 8 i) by lia. change (2 ^ 8) with 256. f_equal. dlia.
  - assert (Hd : i / 8 = Z.succ ((i - 8) / 8)) by dlia.
    rewrite Hd, Z2Nat.inj_succ in Hb by dlia. cbn in Hb.
    replace i with (i - 8 + 8) at 1 by lia. rewrite <- (Z.div_pow2_bits _ 8) by lia. change (2 ^ 8) with 256.
    replace ((byte_val c + 256 * le_combine l) / 256) with (le_combine l) by dlia.
    rewrite IH; [|lia|done]. f_equal. dlia.
Qed.

Lemma bit_set z k : 0 <= k -> negb (Z.land (Z.shiftr z k) 1 =? 0) = Z.testbit z k.
Proof.
  intros Hk. change 1 with (Z.ones 1). rewrite Z.land_ones by lia. change (2 ^ 1) with 2.
  rewrite Z.shiftr_div_pow2 by lia. rewrite Z.testbit_eqb by lia.
  pose proof (Z.mod_pos_bound (z / 2 ^ k) 2 ltac:(lia)).
  destruct (Z.eqb_spec ((z / 2 ^ k) mod 2) 0); destruct (Z.eqb_spec ((z / 2 ^ k) mod 2) 1); lia || done.
Qed.

Lemma lor_bit raw bit : 0 <= bit -> 0 <= raw < 2 ^ bit -> Z.lor raw (2 ^ bit) = raw + 2 ^ bit.
Proof.
  intros Hb Hr. rewrite Z.lor_comm, <- (Z.mul_1_r (2 ^ bit)), Z.mul_comm, <- Z.shiftl_mul_pow2 by lia.
  rewrite lor_shiftl_add by lia. rewrite Z.shiftl_mul_pow2 by lia. lia.
Qed.

(** The loop puts the bits of the slice above those it has. *)
Lemma slice_bits_run n bytes o bit raw :
  0 <= o -> 0 <= bit -> 0 <= raw < 2 ^ bit -> bit + Z.of_nat n <= 64 -> o + bit + Z.of_nat n <= 8 * size_of bytes ->
  slice_bits n bytes o bit raw = Ok (raw + 2 ^ bit * bits bytes (o + bit) (Z.of_nat n)).
Proof.
  intros Ho. revert bit raw. induction n as [|n IH]; intros bit raw Hb Hr H64 Hs; cbn [slice_bits].
  { unfold bits. rewrite Z.mod_1_r. f_equal. lia. }
  rewrite Nat2Z.inj_succ in *.
  destruct (lookup_lt_is_Some_2 bytes (Z.to_nat ((o + bit) / 8))) as [b Eb]; [unfold size_of in *; dlia|]. rewrite Eb.
  rewrite bit_set by dlia. rewrite <- (le_combine_testbit bytes (o + bit) b) by (lia || done).
  assert (Hpow : 2 ^ (bit + 1) = 2 * 2 ^ bit) by (rewrite Z.pow_add_r by lia; lia).
  rewrite IH; [|lia| |lia|lia].
  2: { destruct (Z.testbit _ _); [|lia]. rewrite Z.shiftl_1_l, u64_small.
       - rewrite lor_bit by lia. lia.
       - unfold in_u64, u64_max. pose proof (Z.pow_le_mono_r 2 bit 63 ltac:(lia) ltac:(lia)). simpl in *. lia. }
  f_equal. unfold bits. rewrite Z.pow_succ_r by lia.
  rewrite Z.rem_mul_r by (try apply Z.pow_pos_nonneg; lia || (apply Z.pow_nonzero; lia)).
  rewrite Z.div_div by (try lia; apply Z.pow_pos_nonneg; lia). rewrite Z.testbit_eqb by lia.
  rewrite (Z.add_assoc o bit 1), (Z.pow_add_r 2 (o + bit) 1) by lia. change (2 ^ 1) with 2.
  pose proof (Z.mod_pos_bound (le_combine bytes / 2 ^ (o + bit)) 2 ltac:(lia)). rewrite Hpow.
  destruct (Z.eqb_spec ((le_combine bytes / 2 ^ (o + bit)) mod 2) 1) as [E|E].
  - rewrite Z.shiftl_1_l, u64_small.
    + rewrite lor_bit by lia. rewrite E. lia.
    + unfold in_u64, u64_max. pose proof (Z.pow_le_mono_r 2 bit 63 ltac:(lia) ltac:(lia)). simpl in *. lia.
  - assert (E0 : (le_combine bytes / 2 ^ (o + bit)) mod 2 = 0) by lia. rewrite E0. lia.
Qed.

(** *** Bit fields *)

Lemma bounded_bit_mask_ones n : 1 <= n <= 64 -> bounded_bit_mask n = Ok (Z.ones n).
Proof.
  intros Hn. unfold bounded_bit_mask, throw_if. destruct (Z.eqb_spec n 0); [lia|]. destruct (Z.ltb_spec 64 n); [lia|].
  cbn [orb mbind res_bind]. f_equal. destruct (Z.eqb_spec n 64) as [->|]; [done|]. rewrite Z.shiftl_1_l, u64_small.
  - by rewrite Z.ones_equiv, Z.sub_1_r.
  - unfold in_u64, u64_max. pose proof (Z.pow_le_mono_r 2 n 63 ltac:(lia) ltac:(lia)).
    pose proof (Z.pow_pos_nonneg 2 n ltac:(lia) ltac:(lia)). simpl in *. lia.
Qed.

(** The bits above the slice, in the width of the storage. *)
Lemma extend_sign_signed w storage raw :
  1 <= w < storage -> storage <= 64 -> 0 <= raw < 2 ^ w ->
  extend_sign w storage raw = Ok (to_signed w raw mod 2 ^ storage).
Proof.
  intros Hw Hs Hr. unfold extend_sign. rewrite bit_set by lia. rewrite !bounded_bit_mask_ones by lia. cbn [mbind res_bind].
  assert (Hhalf : 2 ^ w = 2 * 2 ^ (w - 1)) by (rewrite <- Z.pow_succ_r by lia; f_equal; lia).
  assert (Hle : 2 ^ w < 2 ^ storage) by (apply Z.pow_lt_mono_r; lia).
  assert (Hbit : Z.testbit raw (w - 1) = negb (raw <? 2 ^ (w - 1))).
  { rewrite Z.testbit_eqb by lia. destruct (Z.ltb_spec raw (2 ^ (w - 1))).
    - by rewrite Z.div_small by lia.
    - replace (raw / 2 ^ (w - 1)) with 1; [done|]. apply (Z.div_unique _ _ _ (raw - 2 ^ (w - 1))); [left; lia|lia]. }
  unfold to_signed. rewrite (Z.mod_small raw) by lia. rewrite Hbit.
  destruct (raw <? 2 ^ (w - 1)); cbn [negb]; [by rewrite Z.mod_small by lia|]. f_equal.
  rewrite Z.land_ones by lia. apply Z.bits_inj'. intros i Hi.
  destruct (Z.lt_ge_cases i storage) as [Hlt|Hge]; [|by rewrite !Z.mod_pow2_bits_high by lia].
  rewrite !Z.mod_pow2_bits_low, Z.lor_spec by lia. unfold u64. change 18446744073709551616 with (2 ^ 64).
  rewrite Z.mod_pow2_bits_low by lia. rewrite Z.lnot_spec by lia.
  assert (Hsum : raw - 2 ^ w = Z.lor raw (- 2 ^ w)).
  { rewrite Z.lor_comm. replace (- 2 ^ w) with (Z.shiftl (-1) w) by (rewrite Z.shiftl_mul_pow2 by lia; lia).
    rewrite lor_shiftl_add by lia. lia. }
  rewrite Hsum, Z.lor_spec. f_equal. replace (- 2 ^ w) with (Z.shiftl (-1) w) by (rewrite Z.shiftl_mul_pow2 by lia; lia).
  destruct (Z.lt_ge_cases i w).
  - rewrite Z.ones_spec_low by lia. by rewrite Z.shiftl_spec_low by lia.
  - rewrite Z.ones_spec_high by lia. rewrite Z.shiftl_spec by lia. by rewrite Z.bits_m1 by lia.
Qed.

(** The raw value of a member that is no structure. *)
Definition member_raw (bytes : list byte) (m : LocalStructMemberType) : Z :=
  match mt_bit_slice m with
  | None => bits bytes (8 * mt_offset m) (8 * mt_byte_size m)
  | Some slice =>
    let raw := bits bytes (bs_bit_offset slice) (bs_bit_size slice) in
    if mt_is_signed m then to_signed (bs_bit_size slice) raw mod 2 ^ (8 * mt_byte_size m) else raw
  end.

Lemma decode_bit_field bytes m :
  bit_field (size_of bytes) m -> decode_bounded_bit_field bytes m = Ok (member_raw bytes m).
Proof.
  intros (Hk & Hp & He & Hm & Hn & slice & Hslice & Hw & [Ho Hin] & _). unfold integer_size in Hn.
  unfold decode_bounded_bit_field, member_raw, no_member_metadata, throw_if. rewrite Hslice, Hk, Hp, He, Hm. cbn [bool_decide andb negb].
  rewrite bool_decide_false by auto. rewrite !bool_decide_true by done. cbn [orb andb negb].
  destruct (Z.eqb_spec (mt_byte_size m) 0); [lia|]. destruct (Z.ltb_spec 8 (mt_byte_size m)); [lia|]. cbn [orb mbind res_bind].
  cbv zeta. destruct (Z.eqb_spec (bs_bit_size slice) 0); [lia|].
  destruct (Z.ltb_spec (mt_byte_size m * 8) (bs_bit_size slice)); [lia|]. destruct (Z.ltb_spec 64 (bs_bit_size slice)); [lia|].
  destruct (Z.ltb_spec (size_of bytes * 8) (bs_bit_offset slice)); [lia|].
  destruct (Z.ltb_spec (size_of bytes * 8 - bs_bit_offset slice) (bs_bit_size slice)); [lia|]. cbn [orb].
  rewrite slice_bits_run by lia. rewrite Z2Nat.id by lia. cbn [mbind res_bind].
  rewrite Z.add_0_l, Z.mul_1_l, Z.add_0_r, bounded_bit_mask_ones by lia. cbn [mbind res_bind].
  pose proof (bits_range bytes (bs_bit_offset slice) (bs_bit_size slice) ltac:(lia)) as Hr.
  rewrite Z.land_ones, Z.mod_small by lia. destruct (mt_is_signed m); cbn [andb]; [|done].
  rewrite (Z.mul_comm 8 (mt_byte_size m)). destruct (Z.ltb_spec (bs_bit_size slice) (mt_byte_size m * 8)).
  - by rewrite extend_sign_signed by lia.
  - f_equal. assert (E : bs_bit_size slice = mt_byte_size m * 8) by lia. rewrite <- E.
    unfold to_signed. rewrite (Z.mod_small (bits _ _ _)) by lia. destruct (_ <? _); [by rewrite Z.mod_small by lia|].
    apply (Z.mod_unique_pos _ _ (-1)); lia.
Qed.

(** ** Values *)

(** A member of a structure, read from the bytes of the structure. *)
Definition member_of_bytes (bytes : list byte) (m : LocalStructMemberType) : LocalStructMember :=
  match mt_kind m with
  | KStructure =>
    mkMember (mt_name m) 0 (mt_byte_size m) false KStructure None None None
      (map (fun t => integer_member (mt_name t) (bits bytes (8 * (mt_offset m + mt_offset t)) (8 * mt_byte_size t))
                       (mt_byte_size t) (mt_is_signed t) (mt_offset t)) (mt_members m)) (mt_offset m)
  | _ => member_value m (member_raw bytes m)
  end.

Definition element_of_bytes (a : LocalArrayType) (bytes : list byte) (index : nat) : LocalArrayElement :=
  mkElement (bits bytes (8 * (Z.of_nat index * at_element_byte_size a)) (8 * at_element_byte_size a))
    (at_element_byte_size a) (at_element_is_signed a) KInteger.

(** The value of a type, as a function of its bytes. *)
Definition value_of_bytes (module_path name : string) (t : LocalValueType) (bytes : list byte) : LocalScalarValue :=
  let size := vt_byte_size t in
  match vt_kind t with
  | KStructure | KUnion =>
    set_members (map (member_of_bytes bytes) (vt_members t)) (aggregate module_path name size (vt_kind t))
  | KArray =>
    let a := default (mkArrayType 0 0 false KInteger) (vt_array_type t) in
    mkValue module_path name 0 size false KArray [] Computed EmptyString EmptyString 0 None
      (map (element_of_bytes a bytes) (seq 0 (Z.to_nat (at_element_count a)))) (Some a) None
  | KEnumeration =>
    set_enum_type (vt_enum_type t)
      (scalar module_path name (bits bytes 0 (8 * size)) size (vt_is_signed t) KEnumeration)
  | kind => scalar module_path name (bits bytes 0 (8 * size)) size (vt_is_signed t) kind
  end.

Lemma mapM_Ok {A B} (f : A -> res B) (g : A -> B) l : Forall (fun x => f x = Ok (g x)) l -> mapM f l = Ok (map g l).
Proof. induction 1 as [|x l Hx Hl IH]; [done|]. simpl. rewrite Hx. cbn [mbind res_bind]. by rewrite IH. Qed.

Lemma throw_if_false e : throw_if false e = Ok tt.
Proof. done. Qed.

(** A guard whose conditions are false by arithmetic. *)
Ltac pass :=
  repeat match goal with
  | |- context[?a =? ?b] => destruct (Z.eqb_spec a b); [lia|] || (destruct (Z.eqb_spec a b); [|lia])
  | |- context[?a <? ?b] => destruct (Z.ltb_spec a b); [lia|]
  end; cbn [orb andb negb]; rewrite ?throw_if_false; cbn [mbind res_bind].

Lemma nested_terminal_bits bytes outer m t :
  size_of bytes = outer -> 0 <= outer <= u64_max -> plain_scalar (mt_byte_size m) t -> inside (mt_offset m) (mt_byte_size m) outer ->
  nested_terminal bytes outer m t =
  Ok (integer_member (mt_name t) (bits bytes (8 * (mt_offset m + mt_offset t)) (8 * mt_byte_size t)) (mt_byte_size t)
        (mt_is_signed t) (mt_offset t)).
Proof.
  intros <- Houter (Hk & Hp & Hs & He & Hm & Hn & [Ho Hin]) [Hmo Hmin]. pose proof Hn as Hn'. unfold integer_size in Hn'.
  unfold nested_terminal, no_member_metadata. rewrite Hk, Hp, Hs, He, Hm. rewrite bool_decide_false by auto.
  rewrite (bool_decide_false (is_Some None)) by (by intros []). rewrite !bool_decide_true by done. cbn [orb andb negb].
  pass. cbv zeta. pass. rewrite decode_integer_bits; [done|done|split; lia].
Qed.

Lemma materialize_nested bytes outer m :
  size_of bytes = outer -> 0 <= outer <= u64_max -> nested_member outer m ->
  materialize_bounded_nested_structure_member bytes outer m = Ok (member_of_bytes bytes m).
Proof.
  intros Hs Houter (Hk & Hsg & Hp & Hb & He & Hn & [Ho Hin] & Hlen & _ & Hm).
  unfold materialize_bounded_nested_structure_member, member_of_bytes, kMaxLocalStructSize, kMaxLocalStructMembers.
  rewrite Hk, Hp, Hb, He. rewrite bool_decide_false by auto. rewrite !(bool_decide_false (is_Some None)) by (by intros []).
  cbn [orb]. destruct (mt_members m) as [|t l] eqn:E; [unfold size_of in Hlen; simpl in Hlen; lia|]. pass.
  rewrite <- E in *. erewrite mapM_Ok; [done|]. eapply Forall_impl; [done|]. intros x Hx. by apply nested_terminal_bits.
Qed.

Lemma decode_member_bits what bytes size m :
  size_of bytes = size -> 0 <= size <= u64_max -> wf_member size m ->
  decode_member what size bytes m = Ok (member_of_bytes bytes m).
Proof.
  intros Hs Hsize Hm. unfold decode_member.
  assert (Hint : mt_bit_slice m = None -> integer_size (mt_byte_size m) -> inside (mt_offset m) (mt_byte_size m) size ->
                 decode_integer bytes (mt_offset m) (mt_byte_size m) = Ok (member_raw bytes m)).
  { intros Hb Hn Hi. unfold member_raw. rewrite Hb. apply decode_integer_bits; [done|by rewrite Hs]. }
  destruct Hm as [(_ & [Hm|[Hm|Hm]])|(_ & [Hm|Hm])].
  - destruct Hm as (Hk & Hp & Hb & He & Hl & Hn & Hi). unfold member_of_bytes. rewrite Hk, Hl, Hb, bool_decide_false by done.
    cbn [mbind res_bind throw_if]. by rewrite Hint.
  - destruct Hm as (Hk & Hn & Hsg & Hb & He & Hl & Hi & _). unfold member_of_bytes. rewrite Hk, Hl, Hb, bool_decide_false by done.
    cbn [mbind res_bind throw_if]. rewrite Hint; [done|done|unfold integer_size; lia|by rewrite Hn].
  - destruct Hm as (Hk & Hp & Hb & Hl & Hi & e & _ & [_ Hn _ _ _] & En & _). unfold member_of_bytes.
    rewrite Hk, Hl, Hb, bool_decide_false by done. cbn [mbind res_bind throw_if]. rewrite Hint; [done|done|by rewrite <- En|done].
  - assert (Hk : mt_kind m = KInteger) by apply Hm. assert (Hl : mt_members m = []) by apply Hm.
    destruct (proj2 (proj2 (proj2 (proj2 (proj2 Hm))))) as (slice & Hb & _). unfold member_of_bytes.
    rewrite Hk, Hl, Hb, bool_decide_false by done. cbn [mbind res_bind throw_if]. by rewrite decode_bit_field by (by rewrite Hs).
  - rewrite bool_decide_true by apply Hm. by apply materialize_nested.
Qed.

(** ** Values of a resolved type *)

Section Values.
Context (module_path name : string) (t : LocalValueType) (bytes : list byte).
Hypothesis Hwf : wf_type t.
Hypothesis Hbytes : size_of bytes = vt_byte_size t.

Lemma union_member_bits m :
  0 <= vt_byte_size t -> plain_scalar (vt_byte_size t) m -> mt_offset m = 0 ->
  union_member (vt_byte_size t) bytes m = Ok (member_of_bytes bytes m).
Proof.
  intros Hs (Hk & Hp & Hb & He & Hl & Hn & Hi) Ho. pose proof Hn as Hn'. unfold integer_size in Hn'. destruct Hi as [_ Hi].
  unfold union_member, member_of_bytes, member_value, member_raw, integer_member, no_member_metadata.
  rewrite Hk, Hp, Hb, He, Hl, Ho. rewrite bool_decide_false by auto. rewrite (bool_decide_false (is_Some None)) by (by intros []).
  rewrite !bool_decide_true by done. pass. rewrite decode_integer_bits; [done|done|split; lia].
Qed.

Lemma array_element_bits a i :
  integer_size (at_element_byte_size a) -> at_element_kind a = KInteger ->
  vt_byte_size t = at_element_count a * at_element_byte_size a -> Z.of_nat i < at_element_count a ->
  array_element a bytes i = Ok (element_of_bytes a bytes i).
Proof.
  intros Hn Hk Hs Hi. unfold array_element, element_of_bytes. cbv zeta. pose proof Hn as Hn'. unfold integer_size in Hn'.
  rewrite decode_integer_bits; [done|done|]. rewrite Hbytes, Hs. split; nia.
Qed.

Lemma structure_of_bytes :
  vt_kind t = KStructure -> snapshot_structure module_path name t bytes = Ok (value_of_bytes module_path name t bytes).
Proof.
  intros Hk. destruct Hwf as (_ & _ & H). unfold value_of_bytes, snapshot_structure, kMaxLocalStructSize.
  rewrite Hk in *. destruct H as (Hs & Hc & Hm). pass. erewrite mapM_Ok; [done|].
  eapply Forall_impl; [done|]. intros m Hmem. apply decode_member_bits; [done|unfold u64_max; lia|done].
Qed.

Lemma union_of_bytes :
  vt_kind t = KUnion ->
  materialize_bounded_union_bytes module_path name t bytes = Ok (value_of_bytes module_path name t bytes).
Proof.
  intros Hk. destruct Hwf as (Ha & He & H).
  unfold value_of_bytes, materialize_bounded_union_bytes, kMaxLocalStructSize, kMaxLocalStructMembers.
  rewrite Ha, He by (by rewrite Hk). rewrite Hk in *. destruct H as (Hs & Hc & Hnd & Hm).
  rewrite bool_decide_false by auto. rewrite !(bool_decide_false (is_Some None)) by (by intros []).
  destruct (vt_members t) as [|m l] eqn:E; [unfold size_of in Hc; simpl in Hc; lia|]. cbn [orb]. pass.
  rewrite <- E in *. erewrite mapM_Ok; [done|]. eapply Forall_impl; [done|].
  intros x [Hx Hx0]. apply union_member_bits; [lia|done|done].
Qed.

Lemma array_of_bytes :
  vt_kind t = KArray ->
  materialize_bounded_array_bytes module_path name t bytes = Ok (value_of_bytes module_path name t bytes).
Proof.
  intros Hk. destruct Hwf as (_ & _ & H). unfold value_of_bytes, materialize_bounded_array_bytes, kMaxLocalArrayElements.
  rewrite Hk in *. destruct H as (Hl & a & Ha & Hc & Hn & Hek & Hs & H256). pose proof Hn as Hn'. unfold integer_size in Hn'.
  rewrite Ha, Hl. cbn [require mbind res_bind default]. change (id a) with a. rewrite Hek, !bool_decide_false by auto. cbn [orb]. pass.
  erewrite mapM_Ok; [done|]. apply Forall_forall. intros i Hi%list_elem_of_In%in_seq.
  apply array_element_bits; (done || lia).
Qed.

Lemma scalar_of_bytes (memory : SnapshotMemoryRead) :
  mr_bytes memory = bytes -> vt_kind t <> KStructure -> vt_kind t <> KUnion -> vt_kind t <> KArray ->
  snapshot_scalar module_path name t memory = Ok (value_of_bytes module_path name t bytes).
Proof.
  intros Hm Hns Hnu Hna. destruct Hwf as (Ha & He & H). unfold snapshot_scalar, decode_snapshot_scalar, bad_enum_type. rewrite Hm.
  rewrite Ha by done. rewrite (bool_decide_false (is_Some None)) by (by intros []). cbn [throw_if mbind res_bind].
  assert (Hint : integer_size (vt_byte_size t)).
  { destruct (vt_kind t); try done; unfold integer_size; try lia; try apply H.
    destruct H as (_ & e & _ & [_ Hn _ _ _] & <- & _). exact Hn. }
  unfold integer_size in Hint.
  assert (Hraw : or_bytes 0 0 bytes = bits bytes 0 (8 * vt_byte_size t)).
  { pose proof (or_bytes_bits bytes 0 (vt_byte_size t) ltac:(lia) ltac:(lia) ltac:(lia)) as E.
    rewrite drop_0, take_ge in E by (rewrite <- Hbytes; unfold size_of; lia). exact E. }
  destruct (decide (vt_kind t = KEnumeration)) as [Hk|Hne].
  - unfold value_of_bytes. rewrite Hk in *. destruct H as (_ & e & Hen & [_ Hn Hc _ _] & Es & Esg). rewrite Hen, Es, Esg.
    destruct (et_enumerators e) as [|x l]; [unfold size_of in Hc; simpl in Hc; lia|].
    rewrite bool_decide_true by done. rewrite Bool.eqb_reflx. pass. by rewrite Hraw.
  - rewrite He by done. rewrite bool_decide_false by done. rewrite (bool_decide_false (is_Some None)) by (by intros []).
    pass. rewrite Hraw. unfold value_of_bytes. by destruct (vt_kind t).
Qed.
End Values.

(** C33: the value of a variable of a type the resolvers return is a function of its bytes:
    every integer, enumeration, member, nested member, array element and bit field is the
    slice of the little-endian number the bytes are, at its place and in its width, and a
    signed bit field keeps its sign in the width of its storage.  The checks the
    materialiser repeats on the type never fail. *)
Theorem materialize_resolved_value s start u o root module_path name memory :
  sections_sized s -> 0 <= start -> parse_unit_dies s start = Ok u ->
  resolve_bounded_root_value_type (unit_dies u) o = Ok root ->
  size_of (mr_bytes memory) = vt_byte_size (root_value_type root) -> mr_provenance memory = FromCore ->
  materialize_snapshot_memory_value module_path name (root_value_type root) memory true =
  Ok (with_storage SnapshotCoreMemory (value_of_bytes module_path name (root_value_type root) (mr_bytes memory))).
Proof.
  intros Hs Hstart Hu Hroot Hsize Hprov.
  pose proof (parse_unit_dies_yields s start Hs Hstart) as Hy. rewrite Hu in Hy. destruct Hy as (_ & _ & Hdies).
  pose proof (resolve_bounded_root_value_type_yields _ (die_numbers _ _ _ Hdies) o) as Hr. rewrite Hroot in Hr.
  destruct Hr as [Hwf _]. unfold materialize_snapshot_memory_value, memory_storage. rewrite Hprov.
  destruct (vt_kind (root_value_type root)) eqn:Hk.
  all: first [rewrite (structure_of_bytes module_path name _ _ Hwf Hsize) by done
             |rewrite (union_of_bytes module_path name _ _ Hwf Hsize) by done
             |rewrite (array_of_bytes module_path name _ _ Hwf Hsize) by done
             |rewrite (scalar_of_bytes module_path name _ _ Hwf Hsize memory) by (done || by rewrite Hk)].
  all: done.
Qed.

(** [number] is -2, [flag] is 0b10110 in bits 35 to 39, [inner.low] is 7, [next] is 0x1000. *)
Definition pair_memory : SnapshotMemoryRead :=
  mkMemoryRead (le_split 4 0xfffffffe ++ le_split 4 0xb0 ++ le_split 8 7 ++ le_split 8 0x1000) FromCore
    EmptyString EmptyString 0.

Lemma materialize_resolved_value_witness :
  materialize_snapshot_memory_value "prog" "p" (root_value_type pair_root) pair_memory true =
  Ok (with_storage SnapshotCoreMemory (value_of_bytes "prog" "p" (root_value_type pair_root) (mr_bytes pair_memory))) /\
  map sm_raw_value (lv_members (value_of_bytes "prog" "p" (root_value_type pair_root) (mr_bytes pair_memory))) =
  [4294967294; 4294967286; 0; 4096].
Proof.
  split; [|vm_compute; reflexivity].
  exact (materialize_resolved_value pair_sections 0 _ 49 pair_root "prog" "p" pair_memory pair_sections_sized
    (Z.le_refl 0) pair_unit_parses pair_root_resolves ltac:(vm_compute; reflexivity) ltac:(reflexivity)).
Defined.
