(* ===== verification/DebugMemberProofs.v ===== *)
(** * Selecting the members of resolved values

    Which members of a structure the debugger materialised can be selected by name.  The
    selection checks the metadata again, more narrowly than the resolvers do: it refuses a
    bit field whose storage, counted from its first byte, reaches past the structure, and a
    pointer to a structure of more than eight bytes. *)

From S2P Require Import Prelude Machine ByteReader ElfFormat EhFrame Core ModulePath SnapshotMemory LocalValue InlineMember InlineMemberProofs DebugInfo DebugInfoProofs DebugTree DebugTypes DebugTypesProofs DebugValues DebugValuesProofs.

(** Whether the width of a member, counted from its offset, stays in the structure. *)
Definition storage_inside (size : Z) (m : LocalStructMemberType) : bool := mt_offset m + mt_byte_size m <=? size.

(** Whether the structure a pointer member points to, if it does, is small enough. *)
Definition shallow_pointee (m : LocalStructMemberType) : bool :=
  match mt_pointee_type m with
  | Some pointee => bool_decide (pt_kind pointee <> KStructure) || (pt_byte_size pointee <=? 8)
  | None => true
  end.

Definition selectable (size : Z) (m : LocalStructMemberType) : bool := storage_inside size m && shallow_pointee m.

(** The result of a selection that is refused for what the metadata say. *)
Definition refused {A} (r : res A) : Prop := exists what, r = Throw (Exn LogicError what).

Lemma member_named_map f name members :
  (forall m, sm_name (f m) = mt_name m) ->
  member_named name (map f members) = option_map f (List.find (fun m => String.eqb (mt_name m) name) members).
Proof.
  intros Hf. unfold member_named. induction members as [|m l IH]; [done|]. cbn [map List.find]. rewrite Hf.
  by destruct (String.eqb _ _).
Qed.

Lemma member_of_bytes_name bytes m : sm_name (member_of_bytes bytes m) = mt_name m.
Proof. unfold member_of_bytes. by destruct (mt_kind m). Qed.
Lemma member_of_bytes_size bytes m : sm_byte_size (member_of_bytes bytes m) = mt_byte_size m.
Proof. unfold member_of_bytes. by destruct (mt_kind m). Qed.
Lemma member_of_bytes_offset bytes m : sm_offset (member_of_bytes bytes m) = mt_offset m.
Proof. unfold member_of_bytes. by destruct (mt_kind m). Qed.
Lemma member_of_bytes_kind bytes m : sm_kind (member_of_bytes bytes m) = mt_kind m.
Proof. unfold member_of_bytes. destruct (mt_kind m) eqn:E; cbn; congruence. Qed.

Lemma find_named name members m :
  List.find (fun m => String.eqb (mt_name m) name) members = Some m -> m ∈ members /\ mt_name m = name.
Proof. intros [H E%String.eqb_eq]%find_some. by apply list_elem_of_In in H. Qed.

(** *** Terminal members *)

Lemma validate_integer bytes m context :
  mt_kind m = KInteger -> mt_pointee_type m = None -> mt_enum_type m = None -> mt_members m = [] ->
  integer_size (mt_byte_size m) -> validate_terminal_member (member_of_bytes bytes m) context = Ok tt.
Proof.
  intros Hk Hp He Hl Hn. unfold integer_size in Hn. unfold validate_terminal_member, sizeof_word, member_of_bytes.
  rewrite Hk. cbn [sm_byte_size sm_members member_value sm_kind sm_pointee_type sm_enum_type]. rewrite Hp, He.
  rewrite !(bool_decide_false (is_Some None)) by (by intros []). pass. by rewrite Hk.
Qed.

Lemma validate_enum bytes size m context :
  enum_member size m -> validate_terminal_member (member_of_bytes bytes m) context = Ok tt.
Proof.
  intros (Hk & Hp & Hb & Hl & _ & e & He & [_ Hn Hc _ _] & Es & Esg). unfold integer_size in Hn.
  unfold validate_terminal_member, sizeof_word, member_of_bytes.
  rewrite Hk. cbn [sm_byte_size sm_members member_value sm_kind sm_pointee_type sm_enum_type sm_bit_slice sm_is_signed].
  rewrite Hk, Hp, Hb, He, Es, Esg, Bool.eqb_reflx. rewrite !(bool_decide_false (is_Some None)) by (by intros []).
  destruct (et_enumerators e) as [|x l]; [unfold size_of in Hc; simpl in Hc; lia|]. by pass.
Qed.

Lemma pointee_members_good (p : LocalPointerPointeeType) :
  Forall (pointee_member_in (pt_byte_size p)) (pt_members p) -> existsb (bad_pointee_member p) (pt_members p) = false.
Proof.
  intros H. apply not_true_iff_false. intros (n & Hn & Hbad)%existsb_exists. apply list_elem_of_In in Hn.
  rewrite Forall_forall in H. destruct (H n Hn) as (Hk & Hsz & [Ho Hi]). unfold integer_size in Hsz.
  unfold bad_pointee_member, sizeof_word in Hbad. rewrite Hk, bool_decide_false in Hbad by auto.
  destruct (Z.eqb_spec (pm_byte_size n) 0); [lia|]. destruct (Z.ltb_spec 8 (pm_byte_size n)); [lia|].
  destruct (Z.ltb_spec (pt_byte_size p) (pm_offset n)); [lia|].
  destruct (Z.ltb_spec (pt_byte_size p - pm_offset n) (pm_byte_size n)); [lia|done].
Qed.

Lemma validate_pointer bytes size m context :
  pointer_member size m ->
  if shallow_pointee m then validate_terminal_member (member_of_bytes bytes m) context = Ok tt
  else refused (validate_terminal_member (member_of_bytes bytes m) context).
Proof.
  intros (Hk & Hn & Hsg & Hb & He & Hl & _ & p & Hp & Hwf).
  unfold validate_terminal_member, sizeof_word, member_of_bytes, shallow_pointee.
  rewrite Hk. cbn [sm_byte_size sm_members member_value sm_kind sm_pointee_type sm_enum_type sm_bit_slice sm_is_signed].
  rewrite Hk, Hp, Hb, He, Hn, Hsg. rewrite !(bool_decide_false (is_Some None)) by (by intros []).
  unfold wf_member_pointee in Hwf. unfold validate_pointee, sizeof_word. destruct (pt_kind p) eqn:Ek; try done.
  - destruct Hwf as [Hi Hnil]. unfold integer_size in Hi. rewrite Hnil. rewrite bool_decide_true by done. by pass.
  - destruct Hwf as (Hs & Hc & Hm). rewrite bool_decide_false by auto. rewrite (bool_decide_false (pt_members p = [])).
    2: { intros E. rewrite E in Hc. unfold size_of in Hc. simpl in Hc. lia. }
    destruct (Z.eqb_spec (pt_byte_size p) 0); [lia|]. cbn [orb negb]. rewrite throw_if_false. cbn [mbind res_bind].
    destruct (Z.leb_spec (pt_byte_size p) 8).
    + pass. by rewrite pointee_members_good.
    + destruct (Z.ltb_spec 8 (pt_byte_size p)); [|lia]. cbn. by eexists.
Qed.

(** *** Nested structures *)

Lemma validate_nested bytes m :
  Forall (plain_scalar (mt_byte_size m)) (mt_members m) ->
  validate_children (mt_byte_size m) (sm_members (member_of_bytes bytes m)) = Ok tt \/ mt_kind m <> KStructure.
Proof.
  intros Hm. destruct (decide (mt_kind m = KStructure)) as [Hk|]; [left|by right]. unfold member_of_bytes. rewrite Hk.
  cbn [sm_members]. induction Hm as [|t l (Ht & Hp & Hb & He & Hl & Hn & [Ho Hi]) _ IH]; [done|].
  cbn [map validate_children sm_offset sm_byte_size integer_member]. unfold integer_size in Hn. pass.
  unfold validate_terminal_member, sizeof_word. cbn [sm_byte_size sm_members sm_kind sm_pointee_type sm_enum_type integer_member].
  rewrite !(bool_decide_false (is_Some None)) by (by intros []). pass. exact IH.
Qed.

Lemma find_member module_path name t bytes member_name :
  vt_kind t = KStructure ->
  member_named member_name (lv_members (value_of_bytes module_path name t bytes)) =
  option_map (member_of_bytes bytes) (List.find (fun m => String.eqb (mt_name m) member_name) (vt_members t)).
Proof. intros Hk. unfold value_of_bytes. rewrite Hk. cbn [lv_members set_members]. apply member_named_map. apply member_of_bytes_name. Qed.

(** What the selection checks on a member that lies inside its owner. *)
Definition validated_member (member : LocalStructMember) : res unit :=
  if bool_decide (sm_kind member = KStructure) then
    _ ← throw_if (sm_is_signed member || bool_decide (is_Some (sm_pointee_type member)) ||
                  bool_decide (is_Some (sm_bit_slice member)) || bool_decide (is_Some (sm_enum_type member)) ||
                  match sm_members member with [] => true | _ => false end)
          (Exn LogicError "selected-inline nested structure member has invalid bounded metadata");
    validate_children (sm_byte_size member) (sm_members member)
  else validate_terminal_member member "selected-inline aggregate member".

Lemma validated_nested bytes size m : nested_member size m -> validated_member (member_of_bytes bytes m) = Ok tt.
Proof.
  intros (Hk & Hsg & Hp & Hb & He & Hn & Hi & Hc & _ & Hm). unfold validated_member. rewrite member_of_bytes_kind.
  rewrite bool_decide_true by done. rewrite member_of_bytes_size.
  destruct (validate_nested bytes m Hm) as [->|]; [|done]. unfold member_of_bytes. rewrite Hk.
  cbn [sm_is_signed sm_pointee_type sm_bit_slice sm_enum_type sm_members].
  rewrite !(bool_decide_false (is_Some None)) by (by intros []).
  destruct (mt_members m) as [|t l]; [unfold size_of in Hc; simpl in Hc; lia|done].
Qed.

Lemma validated_member_of_bytes bytes size m :
  wf_member size m ->
  if shallow_pointee m then validated_member (member_of_bytes bytes m) = Ok tt
  else refused (validated_member (member_of_bytes bytes m)).
Proof.
  intros Hm.
  assert (Hterm : mt_kind m <> KStructure ->
                  validated_member (member_of_bytes bytes m) =
                  validate_terminal_member (member_of_bytes bytes m) "selected-inline aggregate member").
  { intros Hne. unfold validated_member. by rewrite member_of_bytes_kind, bool_decide_false. }
  assert (Hnone : mt_pointee_type m = None -> shallow_pointee m = true) by (unfold shallow_pointee; by intros ->).
  destruct Hm as [(_ & [Hm|[Hm|Hm]])|(_ & [Hm|Hm])].
  - destruct Hm as (Hk & Hp & _ & He & Hl & Hn & _). rewrite Hnone, Hterm by (done || by rewrite Hk). by apply validate_integer.
  - rewrite Hterm by (by rewrite (proj1 Hm)). by eapply validate_pointer.
  - rewrite Hnone, Hterm by (apply Hm || by rewrite (proj1 Hm)). by eapply validate_enum.
  - destruct Hm as (Hk & Hp & He & Hl & Hn & _). rewrite Hnone, Hterm by (done || by rewrite Hk). by apply validate_integer.
  - rewrite Hnone by apply Hm. by eapply validated_nested.
Qed.

Lemma wf_member_place size m : wf_member size m -> mt_name m <> EmptyString /\ 0 <= mt_offset m /\ 1 <= mt_byte_size m.
Proof.
  unfold wf_member, direct_member, plain_scalar, pointer_member, enum_member, bit_field, nested_member, inside, integer_size.
  intros [(? & [Hm|[Hm|Hm]])|(? & [Hm|Hm])]; (split; [done|]); [lia|lia| | |lia].
  - destruct Hm as (_ & _ & _ & _ & ? & e & _ & [_ He _ _ _] & ? & _). unfold integer_size in He. lia.
  - destruct Hm as (_ & _ & _ & _ & ? & slice & _ & _ & ? & ->). split; [dlia|lia].
Qed.

(** The checks of a selection that finds the member. *)
Lemma aggregate_member_of_value module_path name t bytes member_name m :
  vt_kind t = KStructure -> member_name <> EmptyString ->
  List.find (fun m => String.eqb (mt_name m) member_name) (vt_members t) = Some m ->
  aggregate_member (value_of_bytes module_path name t bytes) member_name =
  (_ ← throw_if ((mt_byte_size m =? 0) || (vt_byte_size t <? mt_offset m) ||
                 (vt_byte_size t - mt_offset m <? mt_byte_size m))
         (Exn LogicError "selected-inline aggregate member exceeds bounded owner layout");
   _ ← validated_member (member_of_bytes bytes m);
   Ok (member_of_bytes bytes m)).
Proof.
  intros Hk Hne Hfind. destruct (find_named _ _ _ Hfind) as [Hin _].
  unfold aggregate_member. destruct (String.eqb_spec member_name EmptyString); [done|].
  rewrite find_member, Hfind by done. cbn [option_map].
  assert (Hlv : lv_kind (value_of_bytes module_path name t bytes) = KStructure /\
                lv_byte_size (value_of_bytes module_path name t bytes) = vt_byte_size t /\
                lv_members (value_of_bytes module_path name t bytes) = map (member_of_bytes bytes) (vt_members t)).
  { unfold value_of_bytes. by rewrite Hk. }
  destruct Hlv as (-> & -> & ->). rewrite (bool_decide_false (KStructure <> KStructure)) by auto.
  destruct (vt_members t) as [|m0 l]; [by apply elem_of_nil in Hin|]. cbn [map orb]. rewrite !throw_if_false. cbn [mbind res_bind].
  unfold validated_member. by rewrite member_of_bytes_size, member_of_bytes_offset.
Qed.

(** C37: selecting a member of a structure the debugger materialised from a resolved type
    returns the member with the bytes at its place, for every member whose storage,
    counted from its first byte, stays in the structure, unless it points to a structure
    of more than eight bytes; the other members are refused with a logic error. *)
Theorem resolved_member_selected module_path name t bytes member_name m :
  wf_type t -> vt_kind t = KStructure ->
  List.find (fun m => String.eqb (mt_name m) member_name) (vt_members t) = Some m ->
  let selected := aggregate_member (value_of_bytes module_path name t bytes) member_name in
  if selectable (vt_byte_size t) m then selected = Ok (member_of_bytes bytes m) else refused selected.
Proof.
  intros (_ & _ & Hwf) Hk Hfind. rewrite Hk in Hwf. destruct Hwf as (Hs & Hc & Hm).
  destruct (find_named _ _ _ Hfind) as [Hin Hname]. rewrite Forall_forall in Hm. specialize (Hm m Hin).
  destruct (wf_member_place _ _ Hm) as (Hne & Hmin & Hn). rewrite Hname in Hne.
  cbv zeta. rewrite (aggregate_member_of_value _ _ _ _ _ m) by done. unfold selectable, storage_inside.
  pose proof (validated_member_of_bytes bytes _ m Hm) as Hv.
  destruct (Z.leb_spec (mt_offset m + mt_byte_size m) (vt_byte_size t)); cbn [andb].
  - pass. destruct (shallow_pointee m); [by rewrite Hv|]. destruct Hv as [what ->]. by eexists.
  - destruct (Z.eqb_spec (mt_byte_size m) 0); [lia|]. cbn [orb].
    destruct (Z.ltb_spec (vt_byte_size t) (mt_offset m)); [by eexists|].
    destruct (Z.ltb_spec (vt_byte_size t - mt_offset m) (mt_byte_size m)); [by eexists|lia].
Qed.

Lemma pair_root_wf : wf_root pair_root.
Proof.
  pose proof (parse_unit_dies_yields pair_sections 0 pair_sections_sized (Z.le_refl 0)) as Hy. rewrite pair_unit_parses in Hy.
  destruct Hy as (_ & _ & Hdies).
  pose proof (resolve_bounded_root_value_type_yields _ (die_numbers _ _ _ Hdies) 49) as H.
  unfold unit_dies in H. by rewrite pair_root_resolves in H.
Qed.

Lemma resolved_member_selected_witness :
  vt_kind (root_value_type pair_root) = KStructure /\
  exists member, aggregate_member (value_of_bytes "prog" "p" (root_value_type pair_root) (mr_bytes pair_memory)) "flag" = Ok member /\
    sm_raw_value member = 4294967286.
Proof.
  split; [reflexivity|]. eexists. split.
  - exact (resolved_member_selected "prog" "p" (root_value_type pair_root) (mr_bytes pair_memory) "flag" _ (proj1 pair_root_wf)
      eq_refl eq_refl).
  - vm_compute. reflexivity.
Defined.

(** ** Bit fields that cannot be selected, and bit fields read as integers *)

Definition bits_abbrev : list byte :=
  map byte_of_Z
    [1; 0x11; 1; 0x11; 0x01; 0; 0;
     2; 0x24; 0; 0x03; 0x08; 0x0b; 0x0b; 0x3e; 0x0b; 0; 0;
     3; 0x13; 1; 0x03; 0x08; 0x0b; 0x0b; 0; 0;
     4; 0x0d; 0; 0x03; 0x08; 0x49; 0x13; 0x0d; 0x0b; 0x0c; 0x0b; 0x38; 0x0b; 0; 0;
     5; 0x0f; 0; 0x0b; 0x0b; 0x49; 0x13; 0; 0;
     0].

(** [int] at 20, [struct bits { int low : 5; int high : 6; }] at 27 with the attributes of
    DWARF 4, where [high] follows [low] at bit 8, and a pointer to it. *)
Definition bits_entries : list byte :=
  [x01] ++ le_split 8 0x1000 ++
    [x02] ++ cstr "int" ++ [x04; x05] ++
    [x03] ++ cstr "bits" ++ [x04] ++
      [x04] ++ cstr "low" ++ le_split 4 20 ++ [x05; x1b; x00] ++
      [x04] ++ cstr "high" ++ le_split 4 20 ++ [x06; x12; x00] ++
    [x00] ++
    [x05] ++ [x08] ++ le_split 4 27 ++
  [x00].

Definition bits_sections : DebugSections :=
  mkSections (le_split 4 (size_of bits_entries + 7) ++ le_split 2 4 ++ le_split 4 0 ++ [x08] ++ bits_entries)
    bits_abbrev (cstr "") [] [] [] [] [].
Definition bits_unit : list Die := Eval vm_compute in
  match parse_unit_dies bits_sections 0 with Ok u => unit_dies u | _ => [] end.

Definition resolved (dies : list Die) (o : Z) : BoundedRootTypeResolution :=
  match resolve_bounded_root_value_type dies o with
  | Ok root => root
  | _ => mkRoot (mkValueType 0 false KInteger [] None None) None
  end.

Definition place (m : LocalStructMemberType) : string * Z * Z * option LocalBitSlice :=
  (mt_name m, mt_offset m, mt_byte_size m, mt_bit_slice m).

Example bits_members : map place (vt_members (root_value_type (resolved bits_unit 27))) =
  [("low", 0, 4, Some (mkBitSlice 0 5)); ("high", 1, 4, Some (mkBitSlice 8 6))].
Proof. vm_compute. reflexivity. Qed.

(** The second bit field is displayed, and cannot be selected. *)
Lemma high_bit_field_refused :
  let t := root_value_type (resolved bits_unit 27) in
  let v := value_of_bytes "prog" "bits" t (le_split 4 0x2a05) in
  map sm_raw_value (lv_members v) = [5; 0xffffffea] /\
  aggregate_member v "high" =
  Throw (Exn LogicError "selected-inline aggregate member exceeds bounded owner layout").
Proof. vm_compute. split; reflexivity. Qed.

(** Behind a pointer the bit fields are two integers that start at the same byte. *)
Lemma pointed_bit_fields_are_integers :
  option_map (fun t => map place (vt_members t)) (root_pointee_type (resolved bits_unit 60)) =
  Some [("low", 0, 4, None); ("high", 0, 4, None)].
Proof. vm_compute. reflexivity. Qed.
