(* ===== verification/DebugLookupProofs.v ===== *)
(** * Finding a variable returns or throws

    On the sections of a file smaller than the address space, the walk over the units, the
    choice of a subprogram and of a variable, and the search of a location list end with a
    result or an exception; the expression found lies in a section. *)

From S2P Require Import Prelude Machine ByteReader ElfFormat EhFrame EhFrameProofs Elf ElfProofs ModuleMap Unwind UnwindProofs LocalValue DebugInfo DebugInfoProofs DebugTree DebugScopesProofs DebugTypes DebugTypesProofs DebugValues SnapshotValues DebugValuesProofs.

(** ** The sections of a file *)

Definition all_sized (sections : gmap string (list byte)) : Prop :=
  forall name bytes, sections !! name = Some bytes -> sized bytes.

Lemma collect_sections_yields bytes wanted names_size names_begin names_end sections result :
  sized bytes -> 0 <= names_begin -> names_end <= size_of bytes ->
  Forall (fun s => exists o, s = shdr_at bytes o) sections -> all_sized result ->
  yields all_sized (collect_sections bytes wanted names_size names_begin names_end result sections).
Proof.
  intros Hb Hn He Hs. revert result. induction Hs as [|section sections [o ->] _ IH]; intros result Hr; [done|].
  cbn [collect_sections]. destruct (_ <=? _); [by apply IH|]. destruct (shdr_at_range bytes o) as ([Ho _] & [Hsz _] & [Hname _]).
  eapply yields_bind with (P := fun _ => True).
  { apply (yields_run (names_begin + sh_name (shdr_at bytes o)) (fun _ _ => True)); [done|].
    eapply yields_at_weaken; [|eapply yields_at_reads; [apply reads_die_c_string|lia]]; [done|by split]. }
  intros name _. destruct (negb _); [by apply IH|]. apply yields_guard; intros _.
  apply yields_guard; intros [H1 H2]%out_of_bounds_false.
  eapply yields_bind; [apply byte_range_yields; lia|intros content Hc]. apply IH.
  destruct (result !! name); [done|]. intros name' bytes' [[<- <-]|[_ H]]%lookup_insert_Some; [|by eapply Hr].
  unfold sized in *. cbn beta in Hc. lia.
Qed.

Lemma named_sections_yields bytes wanted : sized bytes -> yields all_sized (named_sections bytes wanted).
Proof.
  intros Hb. unfold named_sections. apply yields_bind with (fun header => 0 <= e_shstrndx header).
  { unfold read_struct_at. apply yields_guard; intros _. apply (le_at_u16 bytes (0 + 62)). }
  intros header H0. apply yields_guard; intros _. apply yields_guard; intros [_ Hx%Z.leb_gt]%orb_false_elim.
  eapply yields_bind.
  { apply (yields_mapM_length (fun s => exists o, s = shdr_at bytes o)). intros x _. unfold read_struct_at.
    apply yields_guard; intros _. by eexists. }
  intros sections [Hs Hl]. rewrite length_seq in Hl.
  destruct (lookup_lt_is_Some_2 sections (Z.to_nat (e_shstrndx header)) ltac:(lia)) as [names Hn]. rewrite Hn.
  pose proof Hs as Hs'. rewrite Forall_lookup in Hs'. destruct (Hs' _ _ Hn) as [o ->].
  apply yields_guard; intros [H1 H2]%out_of_bounds_false.
  destruct (shdr_at_range bytes o) as ([? ?] & [? ?] & _). apply collect_sections_yields; [done|lia..|done|].
  intros name x. by rewrite lookup_empty.
Qed.

Section Files.
Context `{H : Host}.
Hypothesis files_sized : forall path bytes, h_file path = FileBytes bytes -> file_sized bytes.

Lemma read_debug_sections_yields path : yields sections_sized (read_debug_sections path).
Proof.
  unfold read_debug_sections, read_named_sections. apply yields_bind with all_sized.
  { unfold read_file. destruct (h_file path) as [| | |bytes] eqn:E; try done. cbn [mbind res_bind].
    by eapply named_sections_yields, files_sized. }
  intros sections Hs.
  assert (Hempty : forall name, sized (default [] (sections !! name))).
  { intros name. destruct (sections !! name) as [x|] eqn:E; [by eapply Hs|done]. }
  destruct (sections !! ".debug_info") as [info|] eqn:E1; [|done].
  destruct (sections !! ".debug_abbrev") as [abbrev|] eqn:E2; [|done].
  destruct (sections !! ".debug_str") as [strings|] eqn:E3; [|done].
  split; simpl; first [by eapply Hs|apply Hempty].
Qed.
End Files.

(** ** Location lists *)

Lemma location_range_settles a b c base begin_ end_ : settles (location_range a b c base begin_ end_).
Proof. unfold location_range. settles_auto. Qed.

Lemma yields_at_set_cursor {B} c c' (Q : B -> Z -> Prop) (f : unit -> M Z B) :
  yields_at c' Q (f tt) -> yields_at c Q (set_cursor c' ≫= f).
Proof. done. Qed.

(** The expression of an entry: the bytes from the cursor to its end. *)
Lemma location_bytes_yields l a b (c : Z) : sized l -> 0 <= a <= b -> b <= size_of l -> 
  yields_at c (fun e _ => sized e) (lift (byte_range l a b)).
Proof.
  intros Hl Ha Hb. eapply yields_at_weaken; [|apply yields_at_lift, byte_range_yields; lia].
  intros x c5 [Hx _]. unfold sized in *. lia.
Qed.

Lemma dwarf4_locations_yields fuel l pc base c :
  sized l -> 0 <= c -> size_of l - c <= Z.of_nat fuel ->
  yields_at c (fun e _ => sized e) (dwarf4_locations fuel l pc base).
Proof.
  intros Hl. pose proof (limit_whole _ Hl) as Hlim. revert base c.
  induction fuel as [|fuel IH]; intros base c Hc Hf; cbn [dwarf4_locations]; apply yields_at_mget;
    (destruct (Z.ltb_spec c (size_of l)); [|done]); [lia|].
  eapply yields_at_bind; [apply scalar_yields; [done|lia..]|intros b c1 (Hb & -> & H1)].
  eapply yields_at_bind; [apply scalar_yields; [done|lia..]|intros e c2 (He & -> & H2)].
  destruct (_ && _); [done|]. destruct (_ =? _); [apply IH; lia|].
  eapply yields_at_bind; [apply scalar_yields; [done|lia..]|intros n c3 (Hn & -> & H3)].
  apply yields_at_mget. apply yields_at_guard; intros Hlen%Z.ltb_ge. cbv zeta.
  eapply yields_at_bind; [apply yields_at_lift, settles_yields, location_range_settles|intros [rb re] c4 [_ ->]].
  destruct (_ && _).
  - apply location_bytes_yields; (done || lia).
  - apply yields_at_set_cursor, IH; lia.
Qed.

Lemma dwarf5_locations_yields fuel l end_ pc base c :
  sized l -> end_ <= size_of l -> 0 <= c -> end_ - c <= Z.of_nat fuel ->
  yields_at c (fun e _ => sized e) (dwarf5_locations fuel l end_ pc base).
Proof.
  intros Hl He. assert (Hlim : limit_in l end_) by (split; [done|unfold sized in Hl; lia]). revert base c.
  induction fuel as [|fuel IH]; intros base c Hc Hf; cbn [dwarf5_locations]; apply yields_at_mget;
    (destruct (Z.ltb_spec c end_); [|done]); [lia|].
  eapply yields_at_bind; [apply scalar_yields; [done|lia..]|intros entry c1 (_ & -> & H1)].
  destruct (_ =? _); [done|]. destruct (_ =? _).
  { eapply yields_at_bind; [apply scalar_yields; [done|lia..]|intros b c2 (_ & -> & H2)]. apply IH; lia. }
  apply yields_at_guard; intros _.
  eapply yields_at_bind; [apply uleb_yields; [done|lia]|intros b c2 [_ H2]].
  eapply yields_at_bind; [apply uleb_yields; [done|lia]|intros e c3 [_ H3]].
  eapply yields_at_bind; [apply uleb_yields; [done|lia]|intros n c4 [[Hn _] H4]].
  apply yields_at_mget. apply yields_at_guard; intros Hlen%Z.ltb_ge. cbv zeta.
  eapply yields_at_bind; [apply yields_at_lift, settles_yields, location_range_settles|intros [rb re] c5 [_ ->]].
  destruct (_ && _).
  - apply location_bytes_yields; (done || lia).
  - apply yields_at_set_cursor, IH; lia.
Qed.

Lemma active_location_expression_yields s o pc base version :
  sections_sized s -> 0 <= o -> yields sized (active_location_expression s o pc base version).
Proof.
  intros Hs Ho. unfold active_location_expression, active_dwarf4_location_expression, active_dwarf5_location_expression.
  destruct (_ =? _).
  { do 2 (apply yields_guard; intros _). eapply yields_run; [|apply dwarf4_locations_yields; [apply Hs|done|unfold size_of; lia]].
    by intros. }
  destruct (_ =? _); [|done]. eapply yields_bind; [apply find_contribution_yields; unfold size_of; lia|intros c [_ Hc]].
  cbn beta in Hc. eapply yields_run; [|apply dwarf5_locations_yields; [apply Hs|done|done|unfold size_of in *; lia]]. by intros.
Qed.

(** ** The variable *)

Section Unit.
Context (start end_ : Z) (dies : list Die) (Hwf : wf_dies start end_ dies).

Lemma die_at_sized i : (i < length dies)%nat -> yields sized_numbers (die_at dies i).
Proof.
  intros Hi. destruct (die_at_Some _ _ Hi) as (d & Hd & ->). simpl. pose proof (die_numbers _ _ _ Hwf) as H.
  by eapply Forall_lookup_1.
Qed.

Lemma subprogram_from_yields multiple pc index rest found :
  (forall i, found = Some i -> (i < index)%nat) ->
  yields (fun r => forall i, r = Some i -> (i < index + length rest)%nat) (subprogram_from multiple pc index rest found).
Proof.
  revert index found. induction rest as [|d rest IH]; intros index found Hf; cbn [subprogram_from].
  { intros i Hi. specialize (Hf i Hi). simpl. lia. }
  eapply yields_bind with (P := fun _ => True).
  { destruct (_ =? _); [|done]. pose proof (die_contains_pc_settles d pc) as H. by destruct (die_contains_pc d pc). }
  intros b _. destruct (negb b).
  - eapply yields_weaken; [|apply IH]; [|intros i Hi; specialize (Hf i Hi); lia]. intros r Hr i Hi. specialize (Hr i Hi). simpl. lia.
  - apply yields_guard; intros _. eapply yields_weaken; [|apply IH; intros i [= <-]; lia].
    intros r Hr i Hi. specialize (Hr i Hi). simpl. lia.
Qed.

Lemma value_from_yields ambiguous name scope note index rest best flag :
  (forall i, (i < length dies)%nat -> settles (scope i)) ->
  (forall i d, (i < length dies)%nat -> settles (note i d)) ->
  (index + length rest = length dies)%nat -> (forall i k, best = Some (i, k) -> (i < length dies)%nat) ->
  yields (fun r => forall i k, r.1 = Some (i, k) -> (i < length dies)%nat)
    (value_from dies ambiguous name scope note index rest best flag).
Proof.
  intros Hscope Hnote. revert index best flag. induction rest as [|d rest IH]; intros index best flag Hi Hb; [done|].
  cbn [value_from]. simpl in Hi.
  assert (Hnext : forall best flag, (forall i k, best = Some (i, k) -> (i < length dies)%nat) ->
    yields (fun r => forall i k, r.1 = Some (i, k) -> (i < length dies)%nat)
      (value_from dies ambiguous name scope note (S index) rest best flag)) by (intros; apply IH; [lia|done]).
  destruct (negb _); [by apply Hnext|].
  eapply yields_bind; [apply settles_yields, attribute_with_abstract_origin_settles; lia|intros v _].
  destruct (negb _); [by apply Hnext|].
  eapply yields_bind; [apply settles_yields, Hscope; lia|intros depth _].
  eapply yields_bind; [apply settles_yields, Hnote; lia|intros noted _]. cbv zeta.
  destruct depth as [k|]; [|by apply Hnext].
  assert (Hnew : forall i k', Some (index, k) = Some (i, k') -> (i < length dies)%nat) by (intros ? ? [= <- <-]; lia).
  destruct best as [[i0 k0]|]; [|by apply Hnext].
  destruct (_ <? _); [by apply Hnext|]. apply yields_guard; intros _. by apply Hnext.
Qed.

Lemma find_value_yields m subprogram pc name : yields (fun i => (i < length dies)%nat) (find_value m dies subprogram pc name).
Proof.
  unfold find_value. eapply yields_bind.
  { apply value_from_yields; [| |done|done].
    - intros i Hi. by eapply yields_settles, active_scope_depth_spec.
    - intros i [k|] Hi; [done|]. by eapply yields_settles, is_descendant_of_spec. }
  intros [[[i k]|] nested] Hr; [|done]. by eapply Hr.
Qed.

Lemma value_attributes_yields no_location no_type i :
  (i < length dies)%nat -> yields (fun r => sized_value r.1) (value_attributes no_location no_type dies i).
Proof.
  intros Hi. unfold value_attributes. eapply yields_bind; [by apply die_at_sized|intros d Hd].
  eapply yields_bind; [by apply settles_yields, attribute_with_abstract_origin_settles|intros type _].
  eapply yields_bind; [apply yields_require|intros location Hl]. cbn beta in Hl.
  eapply yields_bind; [apply yields_require|intros t _]. apply yields_guard; intros _. by eapply attribute_sized.
Qed.
End Unit.

(** What a search returns: well-formed entries, and indexes among them. *)
Record wf_found (f : found_value) : Prop := {
  found_unit : exists start end_, wf_dies start end_ (fv_dies f);
  found_subprogram : (fv_subprogram f < length (fv_dies f))%nat;
  found_index : (fv_index f < length (fv_dies f))%nat
}.

Lemma find_unit_value_yields m s pc name start :
  sections_sized s -> 0 <= start ->
  yields (fun r => start < r.2 <= size_of (info s) /\ forall f, r.1 = Some f -> wf_found f)
    (find_unit_value m s pc name start).
Proof.
  intros Hs Hstart. unfold find_unit_value.
  eapply yields_bind; [by apply parse_unit_dies_yields|intros u (Hnext & _ & Hwf)]. cbv zeta.
  eapply yields_bind; [by apply (subprogram_from_yields _ _ 0)|intros [i|] Hi]; [|by split].
  eapply yields_bind; [by eapply find_value_yields|intros j Hj]. split; [done|].
  intros f [= <-]. split; [by eauto|by apply Hi|done].
Qed.

Lemma value_expression_yields unsupported s location pc base version :
  sections_sized s -> sized_value location -> yields sized (value_expression unsupported s location pc base version).
Proof.
  intros Hs [Hn He]. unfold value_expression. destruct (_ =? _); [done|]. destruct (_ || _); [|done].
  apply active_location_expression_yields; [done|apply Hn].
Qed.

(** ** Expressions *)

Section Expression.
Context (e : list byte) (He : sized e).

Lemma expression_sleb what c : 0 <= c -> yields_at c (fun _ c' => c < c' <= size_of e) (read_sleb what e (size_of e)).
Proof. apply sleb_yields. by apply limit_whole. Qed.
Lemma expression_uleb what c : 0 <= c -> yields_at c (fun _ c' => c < c' <= size_of e) (read_uleb what e (size_of e)).
Proof. intros Hc. eapply yields_at_weaken; [|by apply uleb_yields; [apply limit_whole|]]. by intros v c' [_ H]. Qed.

Lemma only_sleb_settles what trailing : settles (only_sleb what trailing e).
Proof.
  unfold only_sleb. eapply (yields_settles (fun _ => True)), (yields_run _ (fun _ _ => True)); [done|].
  eapply yields_at_bind; [by apply expression_sleb|intros o c _]. apply yields_at_mget. by apply yields_at_guard.
Qed.

Lemma fbreg_offset_settles : settles (fbreg_offset e).
Proof. unfold fbreg_offset. apply settles_bind; [auto with msettle|intros _ _]. apply only_sleb_settles. Qed.

Lemma expect_op_yields op msg c : yields_at c (fun _ c' => c' = c + 1) (expect_op op msg e).
Proof. unfold expect_op. apply yields_at_mget. by apply yields_at_guard. Qed.

Lemma no_trailing_yields msg c : yields_at c (fun _ _ => True) (no_trailing msg e).
Proof. unfold no_trailing. apply yields_at_mget. unfold mthrow_if. by destruct (negb _). Qed.

Lemma xor_tail_yields what c : 0 <= c -> yields_at c (fun _ _ => True) (xor_tail what e).
Proof.
  intros Hc. unfold xor_tail.
  eapply yields_at_bind; [apply expect_op_yields|intros _ c1 ->].
  eapply yields_at_bind; [apply expression_uleb; lia|intros n c2 H2].
  do 2 (eapply yields_at_bind; [apply expect_op_yields|intros _ ? ->]). apply yields_at_mget. by apply yields_at_guard.
Qed.

Lemma lookup_add_signed_settles a b what : settles (add_signed a b what).
Proof. unfold add_signed. settles_auto. Qed.

Lemma evaluate_breg3_settles rbx : settles (evaluate_breg3_xor_stack_value e rbx).
Proof.
  unfold evaluate_breg3_xor_stack_value. apply settles_bind; [auto with msettle|intros _ _]. apply settles_bind.
  - eapply (yields_settles (fun _ => True)), (yields_run _ (fun _ _ => True)); [done|].
    eapply yields_at_bind; [by apply expression_sleb|intros o c H]. cbn beta in H.
    eapply yields_at_bind; [apply xor_tail_yields; lia|done].
  - intros [o x] _. apply settles_bind; [apply lookup_add_signed_settles|done].
Qed.

(** *** Pieces of registers *)

Definition piece_read (c : Z) {A} (_ : A) (c' : Z) : Prop := c < c'.

Lemma read_op_yields what c : yields_at c (piece_read c) (read_op what e).
Proof. unfold read_op. apply yields_at_mget. destruct (e !! _); [|done]. apply yields_at_set_cursor. unfold yields_at, piece_read. simpl. lia. Qed.

Lemma require_piece_yields n what c : 0 <= c -> yields_at c (piece_read c) (require_piece n what e).
Proof.
  intros Hc. unfold require_piece. eapply yields_at_bind; [apply read_op_yields|intros op c1 H1]. unfold piece_read in *. cbn beta in *.
  apply yields_at_guard; intros _. eapply yields_at_bind; [apply expression_uleb; lia|intros w c2 H2]. cbn beta in H2.
  eapply yields_at_weaken; [|apply yields_at_throw_if]. intros [] c' [_ ->]. lia.
Qed.

Lemma piece_register_yields what ops other c : yields_at c (piece_read c) (piece_register what ops other e).
Proof.
  unfold piece_register. eapply yields_at_bind; [apply read_op_yields|intros op c1 H1]. by apply yields_at_guard.
Qed.

(** The next part of a piece. *)
Ltac piece := eapply yields_at_bind;
  [first [apply piece_register_yields|apply no_trailing_yields|apply require_piece_yields; unfold piece_read in *; lia]|
   intros ? ? ?].

(** The bytes the pieces fill. *)
Definition pieces_width (pieces : list (Z * Z)) : Z := fold_right (fun p n => Z.max 0 (snd p) + n) 0 pieces.

Lemma union_pieces_yields c : 0 <= c -> yields_at c (fun p _ => pieces_width p = 4) (union_pieces e).
Proof.
  intros Hc. unfold union_pieces. piece. eapply yields_at_bind with (P := fun _ _ => True); [|intros; by piece].
  destruct (_ =? kDwOpReg1); [|done].
  eapply yields_at_weaken; [|apply require_piece_yields]; [done|]. unfold piece_read in *. lia.
Qed.
Lemma wide_pieces_yields c : 0 <= c -> yields_at c (fun p _ => pieces_width p = 16) (wide_pieces e).
Proof. intros Hc. unfold wide_pieces. by do 5 piece. Qed.
Lemma pair_pieces_yields c : 0 <= c -> yields_at c (fun p _ => pieces_width p = 8) (pair_pieces e).
Proof. intros Hc. unfold pair_pieces. by do 5 piece. Qed.

Lemma store_pieces_yields (register_value : Z -> res Z) pieces :
  (forall op, settles (register_value op)) ->
  yields (fun l => size_of l = pieces_width pieces) (store_pieces register_value pieces).
Proof.
  intros Hr. induction pieces as [|[op w] pieces IH]; [done|]. cbn [store_pieces].
  eapply yields_bind; [apply settles_yields, Hr|intros v _]. eapply yields_bind; [apply IH|intros l Hl].
  unfold yields, size_of in *. rewrite length_app. unfold piece_bytes. rewrite length_map, length_seq. simpl. cbn beta in Hl. lia.
Qed.

Lemma evaluate_register_piece_yields register_value type :
  (forall op, settles (register_value op)) ->
  yields (fun l => size_of l = vt_byte_size type) (evaluate_register_piece_value e register_value type).
Proof.
  intros Hr. unfold evaluate_register_piece_value.
  eapply yields_bind with (P := fun pieces => pieces_width pieces = vt_byte_size type); [|intros pieces <-; by apply store_pieces_yields].
  destruct (Z.eqb_spec (vt_byte_size type) 4) as [->|].
  { apply yields_guard; intros _. apply (yields_run 0 (fun p _ => pieces_width p = 4)); [done|by apply union_pieces_yields]. }
  destruct (Z.eqb_spec (vt_byte_size type) 16) as [->|].
  { apply yields_guard; intros _. apply (yields_run 0 (fun p _ => pieces_width p = 16)); [done|by apply wide_pieces_yields]. }
  destruct (Z.eqb_spec (vt_byte_size type) 8) as [->|]; [|done].
  apply yields_guard; intros _. apply (yields_run 0 (fun p _ => pieces_width p = 8)); [done|by apply pair_pieces_yields].
Qed.
End Expression.

(** ** Materialisers *)

Lemma require_settles {A} (v : option A) msg : settles (require v msg).
Proof. by destruct v. Qed.
#[export] Hint Resolve require_settles : msettle.
#[export] Hint Extern 0 (settles (logic_error _)) => exact I : msettle.

Lemma decode_integer_settles bytes o n : settles (decode_integer bytes o n).
Proof. unfold decode_integer. settles_auto. Qed.
#[export] Hint Resolve decode_integer_settles lookup_add_signed_settles : msettle.

(** Only pointers have a pointee. *)
Definition no_pointee (v : LocalScalarValue) : Prop := lv_pointee_type v = None.

Lemma decode_structure_yields module name t bytes : wf_type t -> yields no_pointee (decode_structure module name t bytes).
Proof.
  intros (_ & _ & Hwf). unfold decode_structure.
  apply yields_guard; intros [Hk Hs%negb_false_iff%Z.eqb_eq]%orb_false_iff. apply bool_decide_eq_false in Hk.
  assert (E : vt_kind t = KStructure) by (destruct (decide (vt_kind t = KStructure)); [done|by destruct Hk]). rewrite E in Hwf.
  destruct Hwf as (H1 & _ & Hm). eapply yields_bind; [|done]. apply settles_yields, settles_mapM. intros m Hin.
  rewrite Forall_forall in Hm. by rewrite (decode_member_bits _ _ _ _ Hs) by (unfold u64_max; try lia; auto).
Qed.

Lemma materialize_array_yields module_path name t bytes :
  yields no_pointee (materialize_bounded_array_bytes module_path name t bytes).
Proof.
  unfold materialize_bounded_array_bytes. eapply yields_bind; [apply yields_require|intros a _]. cbv zeta.
  apply yields_guard; intros _. eapply yields_bind; [|done]. apply settles_yields, settles_mapM. intros i _.
  unfold array_element. settles_auto.
Qed.

Lemma materialize_union_yields module_path name t bytes :
  yields no_pointee (materialize_bounded_union_bytes module_path name t bytes).
Proof.
  unfold materialize_bounded_union_bytes. apply yields_guard; intros _. eapply yields_bind; [|done].
  apply settles_yields, settles_mapM. intros m _. unfold union_member. settles_auto.
Qed.

Lemma register_owner_settles op registers msg : settles (register_owner op registers msg).
Proof. unfold register_owner. by destruct (List.find _ _) as [[]|]. Qed.
#[export] Hint Resolve register_owner_settles : msettle.
