(* ===== verification/LiveValuesProofs.v ===== *)
(** * Inspecting a variable of a process changes nothing

    Reading a variable of the stopped thread, of its current frame or of a frame above,
    and following the pointer it holds, leaves the debugger and the process as they were
    and ends with a value or an exception. *)

From S2P Require Import Prelude Machine SimKernel Ptrace Process DebuggerState Debugger Breakpoints TraceeReads ByteReader ElfFormat EhFrame EhFrameProofs Elf ElfProofs ModuleMap Unwind UnwindProofs LocalValue DebugInfo DebugInfoProofs DebugTree DebugScopes DebugScopesProofs DebugTypes DebugTypesProofs DebugValues DebugValuesProofs DebugLookupProofs LiveValues.

(** The state stays; the result satisfies [P]. *)
Definition inspects `{K : Kernel} (s : dst) {A} (P : A -> Prop) (m : M dst A) : Prop :=
  exists r, m s = (r, s) /\ yields P r.

Section Combinators.
Context `{K : Kernel} (s : dst).

Lemma inspects_bind {A B} (P : A -> Prop) (Q : B -> Prop) (m : M dst A) (f : A -> M dst B) :
  inspects s P m -> (forall a, P a -> inspects s Q (f a)) -> inspects s Q (m ≫= f).
Proof.
  intros (r & Hr & Hy) Hf. unfold inspects, mbind, M_bind. rewrite Hr.
  destruct r as [a|e|w|]; [by apply Hf|by eexists|done..].
Qed.
Lemma inspects_weaken {A} (P Q : A -> Prop) (m : M dst A) : (forall a, P a -> Q a) -> inspects s P m -> inspects s Q m.
Proof. intros H (r & Hr & Hy). exists r. split; [done|]. by eapply yields_weaken. Qed.
Lemma inspects_lift {A} (P : A -> Prop) (r : res A) : yields P r -> inspects s P (lift r).
Proof. intros Hy. by exists r. Qed.
Lemma inspects_settles {A} (r : res A) : settles r -> inspects s (fun _ => True) (lift r).
Proof. intros Hy. apply inspects_lift. by destruct r. Qed.
Lemma inspects_ret {A} (P : A -> Prop) a : P a -> inspects s P (mret a).
Proof. intros Ha. by exists (Ok a). Qed.
Lemma inspects_throw {A} (P : A -> Prop) c msg : inspects s P (mthrow c msg).
Proof. by eexists. Qed.
Lemma inspects_guard {B} (Q : B -> Prop) b c msg (f : unit -> M dst B) :
  (b = false -> inspects s Q (f tt)) -> inspects s Q (mthrow_if b c msg ≫= f).
Proof. intros H. unfold inspects. rewrite run_throw_if. destruct b; [by eexists|by apply H]. Qed.
Lemma inspects_throw_if b c msg : inspects s (fun _ => b = false) (mthrow_if b c msg).
Proof. destruct b; by eexists. Qed.
Lemma inspects_get : inspects s (fun d => d = st_debugger s) get_debugger.
Proof. by eexists. Qed.
Lemma inspects_kernel {A} (m : M world A) : (exists r, m (st_world s) = (r, st_world s) /\ settles r) -> inspects s (fun _ => True) (kernel m).
Proof. intros (r & Hr & Hs). exists r. split; [by apply kernel_same|by destruct r]. Qed.
End Combinators.

(** ** Expressions on a stack *)

Lemma composite_loop_yields fuel registers e stack c :
  sized e -> 0 <= c -> size_of e - c <= Z.of_nat fuel ->
  yields_at c (fun _ _ => True) (composite_loop fuel registers e stack).
Proof.
  intros He. revert stack c. induction fuel as [|fuel IH]; intros stack c Hc Hf; cbn [composite_loop]; apply yields_at_mget;
    (destruct (e !! Z.to_nat c) as [op|] eqn:E; [|done]); apply lookup_lt_Some in E; unfold size_of in Hf; [lia|]. cbv zeta.
  assert (Hnext : forall stack c', c + 1 <= c' -> yields_at c' (fun _ _ => True) (composite_loop fuel registers e stack)).
  { intros stack' c' Hc'. apply IH; unfold size_of; lia. }
  apply yields_at_set_cursor. destruct (existsb _ _).
  { eapply yields_at_bind; [apply expression_sleb; [done|lia]|intros o c1 H1]. cbn beta in H1. apply yields_at_guard; intros _.
    eapply yields_at_bind; [apply yields_at_lift, settles_yields, register_owner_settles|intros v c2 [_ ->]]. apply Hnext. lia. }
  destruct (_ =? kDwOpConst1u).
  { apply yields_at_mget. destruct (e !! _) as [b|]; [|done]. apply yields_at_set_cursor, Hnext. lia. }
  destruct (_ || _); [apply Hnext; lia|]. destruct (_ || _).
  { destruct stack as [|rhs [|lhs stack]]; [done..|]. destruct (_ =? _); [|apply Hnext; lia].
    apply yields_at_guard; intros _. apply Hnext. lia. }
  destruct (_ =? kDwOpStackValue); [|done]. apply yields_at_mget. destruct stack as [|v [|]]; [done| |done].
  by apply yields_at_guard.
Qed.

Lemma entry_operand_yields e c : sized e -> 0 <= c -> yields_at c (fun _ _ => True) (entry_operand e).
Proof.
  intros He Hc. unfold entry_operand. eapply yields_at_bind; [by apply expression_uleb|intros n c1 H1]. cbv zeta.
  apply yields_at_guard; intros _. do 2 (eapply yields_at_bind; [apply expect_op_yields|intros _ ? ->]).
  apply no_trailing_yields.
Qed.

Lemma yields_at_settles {S A} (c : S) (P : A -> S -> Prop) (m : M S A) : yields_at c P m -> settles (fst (m c)).
Proof. unfold yields_at. by destruct (m c) as [[] c']. Qed.

(** ** Scalars *)

Lemma live_member_pointee_settles p : settles (live_member_pointee p).
Proof. unfold live_member_pointee. settles_auto. Qed.
#[local] Hint Resolve live_member_pointee_settles : msettle.

(** The members of a structure behind a pointer are integers and pointers of whole bytes. *)
Definition flat_member (m : LocalStructMemberType) : Prop := mt_bit_slice m = None /\ mt_kind m <> KStructure.
Definition flat_pointee (v : LocalScalarValue) : Prop :=
  forall t, lv_pointee_type v = Some t -> vt_kind t = KStructure -> Forall flat_member (vt_members t).

Lemma no_pointee_flat v : no_pointee v -> flat_pointee v.
Proof. intros Hv t Ht. unfold no_pointee in Hv. congruence. Qed.

Lemma live_pointee_member_flat size m : yields (fun _ => flat_member m) (live_pointee_member size m).
Proof.
  unfold live_pointee_member. apply yields_guard; intros Hg. repeat (apply orb_false_iff in Hg as [Hg ?]).
  assert (Hb : mt_bit_slice m = None).
  { destruct (mt_bit_slice m); [|done]. match goal with H : bool_decide (is_Some (Some _)) = false |- _ => by rewrite bool_decide_true in H end. }
  destruct (mt_kind m) eqn:Hk; try done.
  - apply yields_guard; intros _. split; [done|by rewrite Hk].
  - cbv zeta. apply yields_guard; intros _. destruct (mt_pointee_type m) as [p|]; [|done].
    eapply yields_bind; [apply settles_yields, live_member_pointee_settles|intros _ _]. split; [done|by rewrite Hk].
Qed.

Lemma live_pointee_flat t : yields (fun _ : unit => vt_kind t = KStructure -> Forall flat_member (vt_members t)) (live_pointee t).
Proof.
  unfold live_pointee. cbv zeta. destruct (vt_kind t); try done.
  - unfold throw_if. by destruct (_ || _).
  - apply yields_guard; intros _. eapply yields_bind.
    { apply (yields_mapM_Forall2 (fun m _ => flat_member m)). intros m _. apply live_pointee_member_flat. }
    intros pointers Hp. eapply yields_weaken; [|apply yields_throw_if]. intros _ _ _.
    apply Forall_lookup. intros i m Hm. by destruct (Forall2_lookup_l _ _ _ _ _ Hp Hm) as (? & _ & ?).
Qed.

Lemma materialize_live_scalar_flat module name t raw pointee :
  yields flat_pointee (materialize_live_scalar module name t raw pointee).
Proof.
  unfold materialize_live_scalar. apply yields_guard; intros _. cbv zeta. do 2 (apply yields_guard; intros _).
  assert (Hnone : flat_pointee (if bool_decide (vt_kind t = KEnumeration)
    then set_enum_type (vt_enum_type t) (scalar (elf_path module) name raw (vt_byte_size t) (vt_is_signed t) (vt_kind t))
    else scalar (elf_path module) name raw (vt_byte_size t) (vt_is_signed t) (vt_kind t))).
  { apply no_pointee_flat. by destruct (bool_decide _). }
  destruct pointee as [p|]; [|done]. apply yields_guard; intros _.
  eapply yields_bind; [apply live_pointee_flat|intros u Hp]. by intros x [= <-].
Qed.

Section Inspection.
Context `{H : Host} `{FI : FileIdentity} `{K : Kernel} `{L : !KernelLaws K} `{PM : !ProcMaps K}.
Hypothesis files_sized : forall path bytes, h_file path = FileBytes bytes -> file_sized bytes.
Context (s : dst) (tid : Z) (Ht : tracee s tid).

(** ** Registers and memory *)

Lemma inspects_registers : inspects s (fun _ => True) registers.
Proof. eexists. split; [exact (registers_same s tid Ht)|done]. Qed.

Lemma inspects_read_memory a n : inspects s (fun _ => True) (read_memory a n).
Proof.
  destruct (read_memory_total s tid a n Ht) as [E Hs]. exists (tracee_memory s a n). split; [done|].
  by destruct (tracee_memory s a n).
Qed.

Lemma inspects_load_bias elf pid : inspects s (fun _ => True) (kernel (load_bias elf pid)).
Proof. apply inspects_kernel, load_bias_same. Qed.

(** The next step of an inspection that reads registers, memory or a file. *)
Ltac observe := eapply inspects_bind;
  [first [apply inspects_registers|apply inspects_read_memory|apply inspects_load_bias|apply inspects_get
         |apply inspects_settles; solve [auto with msettle]]|intros ? ?].
Ltac check := apply inspects_guard; intros ?.

Lemma read_integer_inspects a n : inspects s (fun _ => True) (read_integer a n).
Proof. unfold read_integer. observe. check. apply inspects_settles. auto with msettle. Qed.

Lemma read_value_bytes_inspects a t short : inspects s (fun l => size_of l = vt_byte_size t) (read_value_bytes a t short).
Proof.
  unfold read_value_bytes. observe. apply inspects_guard; intros E%negb_false_iff%Z.eqb_eq. by apply inspects_ret.
Qed.

Lemma live_eh_frame_yields path : yields (fun eh => size_of (eh_section eh) <= i64_max) (open_eh_frame path).
Proof.
  unfold open_eh_frame, EhFrame.read_file. destruct (h_file path) as [| | |bytes] eqn:E; try done.
  cbn [mbind res_bind]. pose proof (find_eh_frame_yields bytes (files_sized _ _ E)) as Hy.
  destruct (find_eh_frame bytes) as [[[va section]|]| | |]; try done; cbn. by eapply Hy.
Qed.

Lemma caller_frame_inspects eh elf c :
  size_of (eh_section eh) <= i64_max -> inspects s (fun _ => True) (caller_frame eh elf c).
Proof.
  intros Heh. destruct (caller_frame_same eh elf c s tid Ht Heh) as (r & Hr & Hs & _). exists r. split; [done|]. by destruct r.
Qed.

Lemma frame_base_inspects module e : inspects s (fun _ => True) (frame_base module e).
Proof.
  unfold frame_base. observe. check. destruct (starts_with _ _); [by apply inspects_ret|].
  destruct (starts_with _ _); [by apply inspects_ret|]. check.
  eapply inspects_bind; [apply inspects_lift, live_eh_frame_yields|intros eh Heh]. check.
  eapply inspects_bind; [by apply caller_frame_inspects|intros c _]. observe. by apply inspects_ret.
Qed.

Lemma caller_frame_base_inspects module frame e : inspects s (fun _ => True) (caller_frame_base module frame e).
Proof.
  unfold caller_frame_base. check. destruct (starts_with _ _); [apply inspects_settles; auto with msettle|]. check.
  eapply inspects_bind; [apply inspects_lift, live_eh_frame_yields|intros eh Heh]. check.
  eapply inspects_bind; [by apply caller_frame_inspects|intros c _]. observe. by apply inspects_ret.
Qed.

(** ** Values of expressions *)

Section Expressions.
Context (e : list byte) (He : sized e).

Lemma composite_inspects : inspects s (fun _ => True) (evaluate_composite_stack_value e).
Proof.
  unfold evaluate_composite_stack_value. check. observe. apply inspects_settles.
  eapply yields_at_settles, composite_loop_yields; [done|lia|unfold size_of; lia].
Qed.

Lemma dereference_chain_inspects budget cursor count value :
  0 <= cursor -> inspects s (fun r => 0 <= r.1.2) (dereference_chain budget e cursor count value).
Proof.
  revert cursor count value. induction budget as [|budget IH]; intros cursor count value Hc; cbn [dereference_chain];
    (destruct (starts_with _ _); [|by apply inspects_ret]); [apply inspects_throw|].
  eapply inspects_bind; [apply read_integer_inspects|intros v _]. apply IH. lia.
Qed.

Lemma breg5_value_inspects : inspects s (fun _ => True) (evaluate_breg5_stack_value e).
Proof.
  unfold evaluate_breg5_stack_value. check.
  eapply inspects_bind with (P := fun r => 0 <= r.2).
  { apply inspects_lift. unfold run_at. pose proof (expression_sleb e He "DW_OP_breg5 offset" 1 ltac:(lia)) as Hy.
    unfold yields_at in Hy. destruct (read_sleb _ _ _ _) as [[] c]; try done. simpl in *. lia. }
  intros [offset cursor] Hc. simpl in Hc. destruct (first_op _) as [next|]; [|apply inspects_throw]. destruct (_ =? _).
  { check. observe. apply inspects_settles. auto with msettle. }
  check. do 2 observe. eapply inspects_bind; [by apply dereference_chain_inspects|intros [[v c] n] Hv]. simpl in Hv. check.
  eapply inspects_bind; [by eapply inspects_settles, yields_at_settles, xor_tail_yields|intros x _]. by apply inspects_ret.
Qed.

Lemma breg5_address_inspects : inspects s (fun _ => True) (evaluate_breg5_memory_address e).
Proof.
  unfold evaluate_breg5_memory_address. check.
  eapply inspects_bind; [by apply inspects_settles, only_sleb_settles|intros o _]. observe.
  apply inspects_settles. auto with msettle.
Qed.

Lemma entry_rdi_inspects module d : inspects s (fun _ => True) (evaluate_entry_rdi e module d).
Proof.
  unfold evaluate_entry_rdi. eapply inspects_bind; [by eapply inspects_settles, yields_at_settles, entry_operand_yields|intros [] _].
  cbv zeta. observe. check. do 2 observe. check. destruct (breakpoint_register_snapshot _ _ _); [by apply inspects_ret|apply inspects_throw].
Qed.
End Expressions.

(** ** Variables *)

#[local] Hint Resolve fbreg_offset_settles evaluate_breg3_settles : msettle.

Lemma materialized_inspects module name t raw pointee :
  inspects s flat_pointee (lift (materialize_live_scalar module name t raw pointee)).
Proof. apply inspects_lift, materialize_live_scalar_flat. Qed.

Lemma decoded_inspects r : yields no_pointee r -> inspects s flat_pointee (lift r).
Proof. intros Hr. apply inspects_lift. eapply yields_weaken; [|done]. intros v. apply no_pointee_flat. Qed.


Lemma live_stack_value_inspects module d name t e :
  sized e -> wf_type t -> inspects s flat_pointee (live_stack_value module d name t e).
Proof.
  intros He Hwf. unfold live_stack_value. cbv zeta. observe. check.
  eapply inspects_bind; [apply frame_base_inspects|intros base _]. do 2 observe.
  destruct (vt_kind t); (eapply inspects_bind; [first [apply read_value_bytes_inspects|apply read_integer_inspects]|intros ? _]);
    first [apply materialized_inspects|apply decoded_inspects]; first [by apply decode_structure_yields|apply materialize_array_yields|apply materialize_union_yields].
Qed.

Lemma whole_register_inspects t e : inspects s (fun _ => True) (whole_register t e).
Proof. unfold whole_register. destruct (_ && _); [|by apply inspects_ret]. observe. by apply inspects_ret. Qed.

Lemma computed_scalar_inspects module d t e : sized e -> inspects s (fun _ => True) (computed_scalar module d t e).
Proof.
  intros He. unfold computed_scalar. cbv zeta. destruct (is_aggregate _); [by apply inspects_ret|].
  destruct (starts_with _ _); [eapply inspects_bind; [by apply entry_rdi_inspects|intros; by apply inspects_ret]|].
  destruct (starts_with _ _); [eapply inspects_bind; [by apply composite_inspects|intros; by apply inspects_ret]|].
  destruct (starts_with _ _); [do 2 observe; by apply inspects_ret|].
  destruct (starts_with _ _); [|by apply inspects_ret]. destruct (bool_decide _).
  - eapply inspects_bind; [by apply breg5_value_inspects|intros; by apply inspects_ret].
  - eapply inspects_bind; [by apply breg5_address_inspects|intros a _].
    eapply inspects_bind; [apply read_integer_inspects|intros; by apply inspects_ret].
Qed.

Lemma live_value_inspects module d name t e :
  sized e -> wf_type t -> inspects s flat_pointee (live_value module d name t e).
Proof.
  intros He Hwf. unfold live_value. eapply inspects_bind; [apply whole_register_inspects|intros [v|] _].
  { apply materialized_inspects. }
  eapply inspects_bind; [by apply computed_scalar_inspects|intros [v|] _].
  { apply materialized_inspects. }
  destruct (_ && _).
  { observe. eapply inspects_bind.
    - apply inspects_lift, evaluate_register_piece_yields; [done|]. intros op. auto with msettle.
    - intros bytes _. by apply decoded_inspects, decode_structure_yields. }
  destruct (negb _); [apply inspects_throw|]. by apply live_stack_value_inspects.
Qed.

(** What a unit answers: a value of a flat pointee, if any, and the start of a unit after it. *)
Definition unit_answer (start : Z) (r : option LocalScalarValue * Z) : Prop :=
  start < r.2 /\ forall v, r.1 = Some v -> flat_pointee v.

Lemma found_types_bounded f o : wf_found f ->
  yields wf_type (resolve_value_type (fv_dies f) o) /\ yields wf_root (resolve_bounded_root_value_type (fv_dies f) o).
Proof.
  intros [(a & b & Hwf) _ _]. pose proof (die_numbers _ _ _ Hwf). split; [|by apply resolve_bounded_root_value_type_yields].
  eapply yields_weaken; [|by apply resolve_value_type_yields]. by intros t [Hwt _].
Qed.

Lemma inspect_unit_inspects sections module pc name start :
  sections_sized sections -> 0 <= start -> inspects s (unit_answer start) (inspect_unit sections module pc name start).
Proof.
  intros Hs Hstart. unfold inspect_unit.
  eapply inspects_bind; [by apply inspects_lift, find_unit_value_yields|intros [[f|] next] [Hnext Hf]];
    [|apply inspects_ret; split; [simpl in *; lia|done]].
  simpl in Hnext. specialize (Hf f eq_refl). pose proof Hf as [(a & b & Hwf) H1 H2].
  eapply inspects_bind; [by eapply inspects_lift, die_at_sized|intros d Hd].
  eapply inspects_bind; [by eapply inspects_lift, value_attributes_yields|intros [location type] Hl].
  eapply inspects_bind; [by apply inspects_lift, (found_types_bounded f)|intros t Hwft].
  eapply inspects_bind; [by apply inspects_lift, value_expression_yields|intros e He].
  eapply inspects_bind; [by apply live_value_inspects|intros v Hv]. apply inspects_ret. split; [simpl; lia|by intros ? [= <-]].
Qed.

(** *** A frame above *)

Lemma historical_rbx_flat module frame name root : yields flat_pointee (historical_rbx module frame name root).
Proof.
  unfold historical_rbx. cbv zeta. eapply yields_bind; [apply yields_require|intros rbx _]. apply yields_guard; intros _.
  apply materialize_live_scalar_flat.
Qed.

Lemma caller_stack_value_inspects module frame d name t e :
  sized e -> wf_type t -> inspects s flat_pointee (caller_stack_value module frame d name t e).
Proof.
  intros He Hwf. unfold caller_stack_value. cbv zeta. observe. check.
  eapply inspects_bind; [apply caller_frame_base_inspects|intros base _]. do 2 observe. destruct (bool_decide _).
  - eapply inspects_bind; [apply read_value_bytes_inspects|intros bytes _]. by apply decoded_inspects, decode_structure_yields.
  - eapply inspects_bind; [apply read_integer_inspects|intros raw _]. by apply inspects_ret.
Qed.

Lemma caller_value_inspects module frame d name root e :
  sized e -> wf_root root -> inspects s flat_pointee (caller_value module frame d name root e).
Proof.
  intros He [Hwf _]. unfold caller_value. cbv zeta. destruct (_ && _); [apply inspects_lift, historical_rbx_flat|]. check.
  destruct (_ && _); [do 2 observe; by apply inspects_ret|]. check. by apply caller_stack_value_inspects.
Qed.

Lemma inspect_caller_stack_unit_inspects sections module frame pc name start :
  sections_sized sections -> 0 <= start ->
  inspects s (unit_answer start) (inspect_caller_stack_unit sections module frame pc name start).
Proof.
  intros Hs Hstart. unfold inspect_caller_stack_unit.
  eapply inspects_bind; [by apply inspects_lift, find_unit_value_yields|intros [[f|] next] [Hnext Hf]];
    [|apply inspects_ret; split; [simpl in *; lia|done]].
  simpl in Hnext. specialize (Hf f eq_refl). pose proof Hf as [(a & b & Hwf) H1 H2].
  eapply inspects_bind; [by eapply inspects_lift, die_at_sized|intros d Hd].
  eapply inspects_bind; [by eapply inspects_lift, value_attributes_yields|intros [location type] Hl].
  eapply inspects_bind; [by apply inspects_lift, (found_types_bounded f)|intros root Hroot].
  eapply inspects_bind; [by apply inspects_lift, value_expression_yields|intros e He].
  eapply inspects_bind; [by apply caller_value_inspects|intros v Hv]. apply inspects_ret. split; [simpl; lia|by intros ? [= <-]].
Qed.
(** ** Searches *)

Lemma live_units_inspects fuel query limit unit :
  (forall u, 0 <= u -> inspects s (unit_answer u) (query u)) -> 0 <= unit -> limit - unit <= Z.of_nat fuel ->
  inspects s (fun r => forall v, r = Some v -> flat_pointee v) (live_units fuel query limit unit).
Proof.
  intros Hq. revert unit. induction fuel as [|fuel IH]; intros unit Hu Hf; cbn [live_units];
    (destruct (Z.ltb_spec unit limit); [|by apply inspects_ret]); [lia|].
  eapply inspects_bind; [by apply Hq|intros [[v|] next] [Hn Hv]]; [by apply inspects_ret|]. simpl in Hn.
  check. apply IH; lia.
Qed.

Lemma search_live_units_inspects sections query :
  (forall u, 0 <= u -> inspects s (unit_answer u) (query u)) ->
  inspects s (fun r => forall v, r = Some v -> flat_pointee v) (search_live_units sections query).
Proof. intros Hq. apply live_units_inspects; [done|lia|unfold size_of; lia]. Qed.

Lemma found_value_inspects r msg :
  (forall v, r = Some v -> flat_pointee v) -> inspects s flat_pointee (lift (require r msg)).
Proof. intros Hr. apply inspects_lift. eapply yields_weaken; [|apply yields_require]. intros v Hv. by apply Hr. Qed.

Lemma module_symbol_inspects pid address elf :
  inspects s (fun _ => True) (kernel (find_module_symbol_by_runtime_address pid address elf)).
Proof.
  apply inspects_kernel. unfold find_module_symbol_by_runtime_address, mapped_module_path, mbind, M_bind.
  destruct (k_maps _ _) as [lines|]; [|by eexists]. destruct (first_mapping _ _) as [path|]; [|by eexists].
  assert (Hopen : settles (if same_file path (elf_path elf) then Ok elf else open_elf path)).
  { destruct (same_file _ _); [done|by apply open_elf_settles]. }
  unfold lift. destruct (if same_file path (elf_path elf) then Ok elf else open_elf path) as [module| | |]; [|by eexists|done..].
  unfold find_symbol_by_runtime_address, mbind, M_bind.
  destruct (load_bias_same module pid (st_world s)) as (r & -> & Hr). destruct r as [bias|e|w|]; [|by eexists|done..].
  destruct (_ <? _); [by eexists|]. unfold mret, M_ret. cbv beta. destruct (find_symbol_by_virtual_address _ _); by eexists.
Qed.

Lemma open_elf_inspects path : inspects s (fun _ => True) (lift (open_elf path)).
Proof. by apply inspects_settles, open_elf_settles. Qed.

Lemma inspect_current_value_inspects elf name : inspects s flat_pointee (inspect_current_value elf name).
Proof.
  unfold inspect_current_value. check. observe. check. observe.
  eapply inspects_bind; [apply module_symbol_inspects|intros owner _]. observe.
  eapply inspects_bind; [apply open_elf_inspects|intros module _]. observe. check.
  eapply inspects_bind; [by apply inspects_lift, read_debug_sections_yields|intros sections Hs].
  eapply inspects_bind; [by apply search_live_units_inspects; intros; apply inspect_unit_inspects|intros r Hr].
  by apply found_value_inspects.
Qed.

Lemma validate_inspects frame : inspects s (fun _ => True) (validate_inspection_frame frame).
Proof.
  unfold validate_inspection_frame. observe. do 3 check. observe. check.
  eapply inspects_weaken; [|apply inspects_throw_if]. done.
Qed.

Lemma inspect_frame_value_inspects elf frame name : inspects s flat_pointee (inspect_local_value elf frame name).
Proof.
  unfold inspect_local_value. check. eapply inspects_bind; [apply validate_inspects|intros _ _].
  destruct (_ =? _); [apply inspect_current_value_inspects|].
  eapply inspects_bind; [apply open_elf_inspects|intros module _]. observe. check.
  eapply inspects_bind; [by apply inspects_lift, read_debug_sections_yields|intros sections Hs].
  eapply inspects_bind; [by apply search_live_units_inspects; intros; apply inspect_caller_stack_unit_inspects|intros r Hr].
  by apply found_value_inspects.
Qed.

(** ** What a pointer points to *)

Lemma decode_flat_structure module name t bytes :
  Forall flat_member (vt_members t) -> settles (decode_structure module name t bytes).
Proof.
  intros Hm. unfold decode_structure. apply settles_bind; [auto with msettle|intros _ _]. apply settles_bind; [|done].
  apply settles_mapM. intros m Hin. rewrite Forall_forall in Hm. destruct (Hm m Hin) as [Hb Hk]. unfold decode_member.
  rewrite bool_decide_false by done. rewrite Hb. settles_auto.
Qed.

Lemma dereference_inspects pointer result_name :
  flat_pointee pointer -> inspects s (fun _ => True) (dereference_materialized_live_pointer pointer result_name).
Proof.
  intros Hp. unfold dereference_materialized_live_pointer. cbv zeta. check.
  eapply inspects_bind; [apply inspects_lift, yields_require|intros t Ht']. do 3 check.
  eapply inspects_bind; [apply read_value_bytes_inspects|intros bytes _].
  destruct (vt_kind t) eqn:Hk; try apply inspects_throw.
  - check. observe. by apply inspects_ret.
  - eapply inspects_bind; [apply open_elf_inspects|intros module _].
    apply inspects_settles, decode_flat_structure. by apply Hp.
Qed.
End Inspection.

(** C21: reading a variable of the stopped thread, in its current frame or in a frame above,
    and following the pointer it holds, ends with a value or an exception and leaves the
    debugger, the kernel and the process as they were, whatever the debug information says. *)
Theorem live_inspection_observes `{H : Host} `{FI : FileIdentity} `{K : Kernel} `{L : !KernelLaws K} `{PM : !ProcMaps K}
    (s : dst) tid elf frame name :
  (forall path bytes, h_file path = FileBytes bytes -> file_sized bytes) -> tracee s tid ->
  (exists r, inspect_current_value elf name s = (r, s) /\ settles r) /\
  (exists r, inspect_local_value elf frame name s = (r, s) /\ settles r) /\
  (exists r, dereference_local_pointer elf frame name s = (r, s) /\ settles r).
Proof.
  intros Hfiles Ht.
  assert (Hinspects : forall A (P : A -> Prop) m, inspects s P m -> exists r, m s = (r, s) /\ settles r).
  { intros A P m (r & Hr & Hy). exists r. split; [done|]. by eapply yields_settles. }
  split; [by eapply Hinspects, inspect_current_value_inspects|].
  split; [by eapply Hinspects, inspect_frame_value_inspects|].
  eapply (Hinspects _ (fun _ => True)). unfold dereference_local_pointer.
  eapply inspects_bind; [by eapply inspect_frame_value_inspects|intros pointer Hp]. by eapply dereference_inspects.
Qed.

(** ** A stopped process whose file describes one variable *)

Definition live_abbrev : list byte :=
  map byte_of_Z
    [1; 0x11; 1; 0x11; 0x01; 0; 0;
     2; 0x2e; 1; 0x03; 0x08; 0x11; 0x01; 0x12; 0x06; 0x40; 0x18; 0; 0;
     3; 0x34; 0; 0x03; 0x08; 0x49; 0x13; 0x02; 0x18; 0; 0;
     4; 0x24; 0; 0x03; 0x08; 0x0b; 0x0b; 0x3e; 0x0b; 0; 0;
     0].

(** [int total] of [main], [offset] bytes above the register [base] names. *)
Definition total_entries (base offset : byte) : list byte :=
  [x01] ++ le_split 8 0x1000 ++
    [x04] ++ cstr "int" ++ [x04; x05] ++
    [x02] ++ cstr "main" ++ le_split 8 0x1000 ++ le_split 4 0x100 ++ [x01; base] ++
      [x03] ++ cstr "total" ++ le_split 4 20 ++ [x02; x91; offset] ++
    [x00] ++
  [x00].

(** A module with that unit, and a symbol for [main]. *)
Definition total_contents (base offset : byte) : list (string * Z * list byte) :=
  let entries := total_entries base offset in
  [(".strtab", 3, le_split 8 0x6e69616d00);
   (".symtab", 2, le_split 4 1 ++ le_split 1 0x12 ++ le_split 1 0 ++ le_split 2 1 ++ le_split 8 0x1000 ++ le_split 8 0x100);
   (".debug_info", 1,
    le_split 4 (size_of entries + 7) ++ le_split 2 4 ++ le_split 4 0 ++ [x08] ++ entries);
   (".debug_abbrev", 1, live_abbrev);
   (".debug_str", 1, cstr "")].

(** A file of these sections, with the table of their names behind them. *)
Fixpoint section_headers (name offset : Z) (contents : list (string * Z * list byte)) : list byte :=
  match contents with
  | [] => []
  | (title, kind, content) :: contents =>
    le_split 4 name ++ le_split 4 kind ++ le_split 16 0 ++ le_split 8 offset ++ le_split 8 (size_of content) ++
    le_split 16 0 ++ le_split 8 24 ++
    section_headers (name + size_of (cstr title)) (offset + size_of content) contents
  end.

Definition elf_of (contents : list (string * Z * list byte)) : list byte :=
  let names := concat (map (fun c => cstr c.1.1) contents) ++ cstr ".shstrtab" in
  let contents := contents ++ [(".shstrtab", 3, names)] in
  let count := size_of contents in
  le_split 16 0x010102464c457f ++ le_split 2 2 ++ le_split 2 62 ++ le_split 4 1 ++ le_split 8 0x1000 ++
  le_split 8 0 ++ le_split 8 64 ++ le_split 4 0 ++ le_split 2 64 ++ le_split 2 56 ++ le_split 2 0 ++
  le_split 2 64 ++ le_split 2 count ++ le_split 2 (count - 1) ++
  section_headers 0 (64 + 64 * count) contents ++ concat (map snd contents).

Definition live_file : list byte := Eval vm_compute in elf_of (total_contents x56 x08).

Definition LiveHost : Host := {|
  h_file path := if String.eqb path "/bin/tracee" then FileBytes live_file else FileOpenFailed;
  h_canonical _ := None; h_regular _ := false; h_page_size := 4096
|}.

Definition live_preferred : ElfFile := mkElfFile "/bin/other" [] ET_EXEC 0.

Lemma live_files_sized path bytes : h_file (Host := LiveHost) path = FileBytes bytes -> file_sized bytes.
Proof. simpl. destruct (String.eqb _ _); [|done]. intros [= <-]. vm_compute. discriminate. Qed.

(** The frame above, whose frame pointer was recovered. *)
Definition live_registers : InspectionRegisterState :=
  mkInspectionRegisters None None None None None None (Some 0x8000) None None None None None None None None None None.
Definition live_frame : InspectionFrameContext :=
  mkInspectionFrame 1 100 100 1 0x1004 0x7000 None 0x1020 0x7100 (Some 0x8000) "/bin/tracee" live_registers.

Example live_total :
  fst (inspect_current_value (H := LiveHost) (FI := DemoIdentity) (PM := DemoMaps) live_preferred "total" demo_cfi_dst) =
    Ok (scalar "/bin/tracee" "total" 0x401111 4 true KInteger) /\
  fst (inspect_local_value (H := LiveHost) (FI := DemoIdentity) (PM := DemoMaps) live_preferred live_frame "total" demo_cfi_dst) =
    Ok (scalar "/bin/tracee" "total" 0x401111 4 true KInteger).
Proof. vm_compute. split; reflexivity. Qed.

Lemma live_inspection_observes_witness :
  inspect_current_value (H := LiveHost) (FI := DemoIdentity) (PM := DemoMaps) live_preferred "total" demo_cfi_dst =
    (Ok (scalar "/bin/tracee" "total" 0x401111 4 true KInteger), demo_cfi_dst) /\
  inspect_local_value (H := LiveHost) (FI := DemoIdentity) (PM := DemoMaps) live_preferred live_frame "total" demo_cfi_dst =
    (Ok (scalar "/bin/tracee" "total" 0x401111 4 true KInteger), demo_cfi_dst).
Proof.
  destruct (live_inspection_observes (H := LiveHost) (FI := DemoIdentity) (L := SimKernelLaws) (PM := DemoMaps)
    demo_cfi_dst 100 live_preferred live_frame "total" live_files_sized demo_cfi_tracee) as ((r & Hr & _) & (r' & Hr' & _) & _).
  destruct live_total as [E E']. rewrite Hr in E. rewrite Hr' in E'.
  split; [rewrite Hr, <- E|rewrite Hr', <- E']; reflexivity.
Defined.
