(* ===== verification/SnapshotValuesProofs.v ===== *)
(** * Inspecting a variable of a core returns or throws

    On a parsed core, whatever the debug information and the call-frame information of its
    modules say, every query for a variable, for what it points to and for the variables in
    scope ends with an answer or an exception: no access outside a container, and enough
    turns for every loop. *)

From S2P Require Import Prelude Machine ByteReader ElfFormat EhFrame EhFrameProofs Elf ElfProofs Core CoreExtras CoreProofs SignalContext ModulePath ModulePathProofs SnapshotMemory SnapshotMemoryProofs Unwind Inspection UnwindProofs InspectionProofs LocalValue DebugInfo DebugInfoProofs DebugTree DebugScopes DebugScopesProofs DebugTypes DebugTypesProofs DebugValues DebugValuesProofs DebugLookupProofs SnapshotValues InlineValues LiveValuesProofs Session SessionProofs.

(** ** Memory *)

Section Memory.
Context `{H : Host} `{F : FileAccess}.
Context (file : list byte) (c : CoreSnapshot) (Hwf : wf_core file c).

Lemma read_segments_length bytes segments a end_ n :
  0 <= n -> Forall (wf_segment bytes) segments ->
  yields (fun l => size_of l = n) (read_segments bytes segments a end_ n).
Proof.
  intros Hn. induction 1 as [|s l (Hv & Ho & _) _ IH]; [done|]. cbn [read_segments]. unfold checked_add, fail_if, require_range.
  eapply yields_bind; [apply settles_yields; settles_auto|intros e _]. destruct (_ || _) eqn:E; [exact IH|].
  apply orb_false_iff in E as [E%Z.ltb_ge _]. apply yields_guard; intros _.
  eapply yields_bind; [apply settles_yields; settles_auto|intros ce _]. apply yields_guard; intros _. cbv zeta.
  eapply yields_bind; [apply yields_guard; intros _; by apply (eq_refl : yields (fun o => o = _) (Ok _))|intros o ->].
  apply yields_guard; intros [H1 H2]%out_of_bounds_false. unfold yields, bytes_at, size_of in *.
  rewrite length_take, length_drop. lia.
Qed.

Lemma core_byte_settles a : settles (core_byte c a).
Proof.
  unfold core_byte. pose proof (core_read_settles c a 1) as Hs. destruct Hwf as ((<- & Hseg & _) & _).
  assert (Hy : yields (fun l => size_of l = 1) (core_read_memory c a 1)).
  { unfold core_read_memory. cbn [Z.eqb]. eapply yields_bind; [apply settles_yields; unfold checked_add; settles_auto|intros e _].
    by apply read_segments_length. }
  destruct (core_read_memory c a 1) as [[|b l]|e|w|]; try done. by destruct (is_runtime_error e).
Qed.

Lemma core_bytes_settles n a : settles (core_bytes_from n c a).
Proof.
  revert a. induction n as [|n IH]; intros a; [done|]. cbn [core_bytes_from].
  apply settles_bind; [apply core_byte_settles|intros b _]. apply settles_bind; [apply IH|by intros [[l x] y] _].
Qed.

Lemma read_artifact_settles path o n : settles (read_artifact path o n).
Proof. eapply yields_settles, read_artifact_yields. Qed.

Lemma read_memory_settles paths a n : settles (read_snapshot_memory c paths a n).
Proof.
  unfold read_snapshot_memory. do 3 (apply settles_bind; [auto with msettle|intros _ _]).
  apply settles_bind; [apply core_bytes_settles|intros [[l x] y] _]. destruct (negb y); [done|].
  apply settles_bind; [auto with msettle|intros _ _]. unfold read_omitted. destruct (mapping_for_address c a); [|done].
  do 2 (apply settles_bind; [auto with msettle|intros _ _]). cbv zeta. apply settles_bind; [auto with msettle|intros _ _].
  apply settles_bind; [apply resolve_module_settles|intros path _]. apply settles_bind; [apply read_artifact_settles|done].
Qed.
End Memory.

(** ** Values *)

(** What a value points to, if anything, is well formed. *)
Definition good_pointee (v : LocalScalarValue) : Prop := forall t, lv_pointee_type v = Some t -> wf_pointee t.

Lemma no_pointee_good v : no_pointee v -> good_pointee v.
Proof. intros Hv t Ht. unfold no_pointee in Hv. congruence. Qed.

(** [settles] as [yields], for the parts of which nothing more is needed. *)
Lemma yields_true {A} (r : res A) : settles r -> yields (fun _ => True) r.
Proof. by destruct r. Qed.

(** The next part of a query that is known to settle. *)
Ltac settled := eapply yields_bind; [apply yields_true; solve [auto with msettle]|intros ? _].
Ltac guarded_by := apply yields_guard; intros ?.

Lemma snapshot_structure_yields module_path name t bytes :
  wf_type t -> vt_kind t = KStructure -> yields no_pointee (snapshot_structure module_path name t bytes).
Proof.
  intros (_ & _ & Hwf) Hk. rewrite Hk in Hwf. destruct Hwf as (H1 & _ & Hm). unfold snapshot_structure.
  apply yields_guard; intros [_ Hs%negb_false_iff%Z.eqb_eq]%orb_false_iff.
  eapply yields_bind; [|done]. apply yields_true, settles_mapM. intros m Hin. rewrite Forall_forall in Hm.
  by rewrite (decode_member_bits _ _ _ _ Hs) by (unfold u64_max; try lia; auto).
Qed.

Lemma snapshot_scalar_yields module_path name t memory : yields no_pointee (snapshot_scalar module_path name t memory).
Proof.
  unfold snapshot_scalar, decode_snapshot_scalar. cbv zeta. do 3 guarded_by.
  eapply yields_bind; [apply yields_true; settles_auto|intros raw _].
  unfold yields, no_pointee. by destruct (bool_decide (vt_kind t = KEnumeration)).
Qed.

Lemma materialize_snapshot_yields module_path name t memory owned :
  wf_type t -> yields no_pointee (materialize_snapshot_memory_value module_path name t memory owned).
Proof.
  intros Hwf. unfold materialize_snapshot_memory_value. apply yields_bind with no_pointee.
  { destruct (vt_kind t) eqn:Hk; first [by apply snapshot_structure_yields|apply materialize_array_yields
      |apply materialize_union_yields|apply snapshot_scalar_yields]. }
  intros v Hv. unfold memory_storage. destruct (mr_provenance memory); [done|]. by guarded_by.
Qed.

Lemma attach_pointer_yields v pointee :
  no_pointee v -> (forall t, pointee = Some t -> wf_pointee t) -> yields good_pointee (attach_pointer_metadata v pointee).
Proof.
  intros Hv Hp. unfold attach_pointer_metadata. destruct (bool_decide _); [by apply no_pointee_good|].
  destruct pointee as [t|]; [|done].
  apply yields_bind with (fun _ => True); [|intros u _; unfold yields; simpl; intros t' [= <-]; by apply Hp]. apply yields_true.
  destruct (vt_kind t); try done; [auto with msettle|]. apply settles_bind; [auto with msettle|intros _ _].
  apply settles_bind; [|done]. apply settles_mapM. intros m _. unfold check_pointee_member. settles_auto.
Qed.

Lemma root_pointee_wf root : wf_root root -> forall t, root_pointee_type root = Some t -> wf_pointee t.
Proof. intros [_ Hr] t Ht. rewrite Ht in Hr. apply Hr. Qed.

Section Queries.
Context `{H : Host} `{F : FileAccess}.
Hypothesis files_sized : forall path bytes, h_file path = FileBytes bytes -> file_sized bytes.
Context (file : list byte) (o : SnapshotObject) (Hwf : wf_core file (so_core o)) (paths : SnapshotModulePathResolver).

Lemma snapshot_read_settles a n : settles (read_snapshot_memory (so_core o) paths a n).
Proof. by eapply read_memory_settles. Qed.
#[local] Hint Resolve snapshot_read_settles : msettle.

Lemma snapshot_reader_settles a n s : settles (fst (snapshot_reader o paths a n s)).
Proof. unfold snapshot_reader, lift. simpl. apply settles_bind; [apply snapshot_read_settles|done]. Qed.

Lemma open_elf_total path : settles (open_elf path).
Proof. by apply open_elf_settles. Qed.
#[local] Hint Resolve open_elf_total : msettle.

Lemma snapshot_frame_cfa_settles frame owner : settles (snapshot_frame_cfa o frame paths owner).
Proof.
  unfold snapshot_frame_cfa. eapply yields_settles with (fun _ => True).
  eapply yields_bind; [by apply open_eh_frame_yields|intros cfi (Hs & _)]. guarded_by.
  eapply yields_bind; [apply yields_true, caller_frame_with_always; [apply snapshot_reader_settles|done]|intros c _].
  by settled.
Qed.
#[local] Hint Resolve snapshot_frame_cfa_settles : msettle.

Section Unit.
Context (start end_ : Z) (dies : list Die) (Hdies : wf_dies start end_ dies).

Lemma snapshot_frame_base_settles subprogram frame owner :
  (subprogram < length dies)%nat -> settles (snapshot_frame_base dies subprogram o frame paths owner).
Proof.
  intros Hi. unfold snapshot_frame_base. destruct (die_at_Some dies _ Hi) as (d & _ & ->). cbn [mbind res_bind]. settles_auto.
Qed.

Lemma snapshot_stack_value_yields what wide frame owner subprogram name t e :
  (subprogram < length dies)%nat -> sized e -> wf_type t ->
  yields no_pointee (snapshot_stack_value what wide o frame paths owner dies subprogram name t e).
Proof.
  intros Hi He Ht. unfold snapshot_stack_value.
  eapply yields_bind; [by apply yields_true, snapshot_frame_base_settles|intros base _].
  eapply yields_bind; [apply yields_true|intros offset _].
  { unfold decode_snapshot_fbreg_offset. apply settles_bind; [auto with msettle|intros _ _]. by apply only_sleb_settles. }
  settled. guarded_by. settled. by apply materialize_snapshot_yields.
Qed.

Lemma fbreg_type_settles t : settles (fbreg_type t).
Proof. unfold fbreg_type. settles_auto. Qed.
Lemma addr_type_settles t : settles (addr_type t).
Proof. unfold addr_type. cbv beta zeta. settles_auto. Qed.
#[local] Hint Resolve fbreg_type_settles addr_type_settles : msettle.

Lemma snapshot_xmm_yields frame owner name t e :
  yields no_pointee (materialize_snapshot_xmm_value o frame owner name t e).
Proof.
  unfold materialize_snapshot_xmm_value. guarded_by.
  eapply yields_bind; [apply yields_true; unfold snapshot_xmm_index; settles_auto|intros i _].
  eapply yields_bind; [apply yields_true|done]. unfold snapshot_xmm. destruct (sf_index frame =? 0); [|settles_auto].
  apply settles_bind; [|intros fp _; settles_auto]. unfold floating_point_state, core_thread, read_core_floating_point_state.
  apply settles_bind; [by destruct (List.find _ _)|intros _ _]. apply settles_bind; [auto with msettle|intros _ _].
  apply settles_bind; [unfold read_core_bytes; by destruct (h_file _)|intros bytes _].
  unfold parse_floating_point_state, fail_if. do 4 (apply settles_bind; [settles_auto|intros ? _]).
  apply settles_bind; [|done]. apply res_fold_settles. intros. apply fp_segment_settles.
Qed.

Lemma snapshot_register_pieces_yields frame owner name t e :
  sized e -> wf_type t -> yields no_pointee (snapshot_register_pieces frame owner name t e).
Proof.
  intros He Ht. unfold snapshot_register_pieces. destruct (ir_rdi (sf_registers frame)), (ir_rsi (sf_registers frame)); try done.
  eapply yields_bind; [apply evaluate_register_piece_yields; [done|intros; auto with msettle]|intros bytes _]. settled.
  eapply yields_bind; [by apply decode_structure_yields|done].
Qed.

Lemma snapshot_register_scalar_yields op register value owner name root e :
  wf_root root -> yields good_pointee (snapshot_register_scalar op register value owner name root e).
Proof.
  intros Hr. unfold snapshot_register_scalar. cbv zeta. do 2 guarded_by. settled.
  by apply attach_pointer_yields; [|apply root_pointee_wf].
Qed.

Lemma snapshot_breg3_yields frame owner name root e :
  sized e -> wf_root root -> yields good_pointee (snapshot_breg3 frame owner name root e).
Proof.
  intros He Hr. unfold snapshot_breg3. cbv zeta. guarded_by. settled.
  eapply yields_bind; [by apply yields_true, evaluate_breg3_settles|intros v _].
  by apply attach_pointer_yields; [|apply root_pointee_wf].
Qed.

Lemma lookup_pc_settles frame : settles (snapshot_frame_lookup_pc frame).
Proof. unfold snapshot_frame_lookup_pc. settles_auto. Qed.
#[local] Hint Resolve lookup_pc_settles : msettle.

Lemma snapshot_static_yields frame owner name root e :
  wf_root root -> yields good_pointee (snapshot_static_value o frame paths owner name root e).
Proof.
  intros Hr. unfold snapshot_static_value. cbv zeta. do 2 settled. guarded_by.
  eapply yields_bind; [apply yields_true; unfold decode_snapshot_address; settles_auto|intros va _]. do 2 guarded_by. settled.
  eapply yields_bind; [by apply materialize_snapshot_yields, Hr|intros v Hv].
  by apply attach_pointer_yields; [|apply root_pointee_wf].
Qed.

Lemma snapshot_value_yields frame owner subprogram name root e :
  (subprogram < length dies)%nat -> sized e -> wf_root root ->
  yields good_pointee (snapshot_value o frame paths owner dies subprogram name root e).
Proof.
  intros Hi He Hr. pose proof (proj1 Hr) as Ht. unfold snapshot_value. cbv zeta. destruct (first_op e) as [op|]; [|done].
  assert (Hnone : forall r, yields no_pointee r -> yields good_pointee r).
  { intros r. apply yields_weaken, no_pointee_good. }
  destruct (_ =? _); [apply Hnone, snapshot_xmm_yields|].
  destruct (_ && _); [by apply Hnone, snapshot_register_pieces_yields|].
  do 2 (destruct (_ =? _); [by apply snapshot_register_scalar_yields|]).
  destruct (_ =? _); [settled; by apply Hnone, snapshot_stack_value_yields|].
  destruct (_ =? _); [by apply snapshot_breg3_yields|]. destruct (negb _); [done|]. by apply snapshot_static_yields.
Qed.
End Unit.
(** ** Searches *)

(** What a unit answers: an answer that satisfies [P], if any, and the start of a unit after it. *)
Definition unit_answers {A} (P : A -> Prop) (start : Z) (r : option A * Z) : Prop :=
  start < r.2 /\ forall v, r.1 = Some v -> P v.

Lemma first_unit_yields {A} (P : A -> Prop) fuel msg query limit unit :
  (forall u, 0 <= u -> yields (unit_answers P u) (query u)) -> 0 <= unit -> limit - unit <= Z.of_nat fuel ->
  yields (fun r => forall v, r = Some v -> P v) (first_unit fuel msg query limit unit).
Proof.
  intros Hq. revert unit. induction fuel as [|fuel IH]; intros unit Hu Hf; cbn [first_unit];
    (destruct (Z.ltb_spec unit limit); [|done]); [lia|].
  eapply yields_bind; [by apply Hq|intros [[v|] next] [Hn Hv]]; [done|]. simpl in Hn. guarded_by. apply IH; lia.
Qed.

Lemma search_units_yields {A} (P : A -> Prop) msg sections query :
  (forall u, 0 <= u -> yields (unit_answers P u) (query u)) ->
  yields (fun r => forall v, r = Some v -> P v) (search_units msg sections query).
Proof. intros Hq. apply first_unit_yields; [done|lia|unfold size_of; lia]. Qed.

Lemma found_yields {A} (P : A -> Prop) (r : option A) msg : (forall v, r = Some v -> P v) -> yields P (require r msg).
Proof. intros Hr. eapply yields_weaken; [|apply yields_require]. intros v Hv. by apply Hr. Qed.

Lemma debug_file_settles recorded : settles (resolve_debug_file recorded paths).
Proof.
  unfold resolve_debug_file. apply settles_bind; [apply resolve_module_settles|intros runtime _]. cbv zeta.
  destruct (List.find _ _) as [mapping|]; [|done]. apply settles_bind; [auto with msettle|intros _ _].
  apply settles_bind.
  { unfold read_gnu_debuglink, ModulePath.read_file. destruct (h_file runtime) as [| | |bytes] eqn:E; try done.
    cbn [mbind res_bind]. by eapply yields_settles, parse_gnu_debuglink_total, files_sized. }
  intros [link|] _; [|done]. apply settles_bind; [auto with msettle|intros _ _]. apply settles_bind; [|intros crc _; settles_auto].
  unfold gnu_debuglink_crc32. destruct (f_stream _) as [[bytes|]|]; try done. by rewrite crc32_of_fold.
Qed.
#[local] Hint Resolve debug_file_settles lookup_pc_settles : msettle.

Lemma validate_frame_settles frame : settles (validate_snapshot_inspection_frame o frame).
Proof.
  unfold validate_snapshot_inspection_frame, snapshot_thread. apply settles_bind; [auto with msettle|intros _ _].
  apply settles_bind; [by destruct (list_find _ _) as [[]|]|intros t _]. settles_auto.
Qed.
Lemma validate_pc_settles frame : settles (validate_snapshot_frame_lookup_pc frame).
Proof. unfold validate_snapshot_frame_lookup_pc. settles_auto. Qed.
Lemma resolve_owner_settles a : settles (resolve_snapshot_module_address (so_core o) a paths).
Proof. by apply resolve_address_settles. Qed.
#[local] Hint Resolve validate_frame_settles validate_pc_settles resolve_owner_settles : msettle.

(** ** A variable of a frame *)

Lemma inspect_snapshot_unit_yields sections frame owner pc name start :
  sections_sized sections -> 0 <= start ->
  yields (unit_answers good_pointee start) (inspect_snapshot_unit sections o frame paths owner pc name start).
Proof.
  intros Hs Hstart. unfold inspect_snapshot_unit.
  eapply yields_bind; [by apply find_unit_value_yields|intros [[f|] next] [Hnext Hf]]; [|split; [simpl in *; lia|done]].
  simpl in Hnext. destruct (Hf f eq_refl) as [(a & b & Hdies) H1 H2].
  eapply yields_bind; [by eapply value_attributes_yields|intros [location type] Hl].
  eapply yields_bind; [by apply resolve_bounded_root_value_type_yields, (die_numbers _ _ _ Hdies)|intros root Hr].
  eapply yields_bind; [by apply value_expression_yields|intros e He].
  eapply yields_bind; [by eapply snapshot_value_yields|intros v Hv]. split; [simpl; lia|by intros ? [= <-]].
Qed.

Lemma inspect_local_value_yields frame name :
  yields good_pointee (SnapshotValues.inspect_local_value o frame name paths).
Proof.
  unfold SnapshotValues.inspect_local_value. guarded_by. do 4 settled. guarded_by. settled.
  eapply yields_bind; [by apply read_debug_sections_yields|intros sections Hs].
  eapply yields_bind; [by apply search_units_yields; intros; apply inspect_snapshot_unit_yields|intros r Hr].
  by apply found_yields.
Qed.

(** ** What a pointer points to *)

Lemma integer_type_wf n sg : bad_integer_pointee (value_type n sg KInteger []) = false -> 0 <= n -> wf_type (value_type n sg KInteger []).
Proof.
  unfold bad_integer_pointee. intros [[H1%Z.eqb_neq H2%Z.ltb_ge]%orb_false_iff _]%orb_false_iff Hn. simpl in *.
  unfold wf_type. simpl. unfold integer_size. conjuncts; (lia || done).
Qed.

Lemma pointee_value_type_yields t : wf_pointee t -> yields wf_type (pointee_value_type t).
Proof.
  intros [(_ & _ & Ht) Hp]. unfold pointee_value_type. destruct (vt_kind t); try done.
  - guarded_by. unfold yields, wf_type. simpl. conjuncts; (done || apply Ht).
  - guarded_by. eapply yields_bind; [apply yields_true, settles_mapM|intros u _].
    { intros m _. unfold check_pointee_member. settles_auto. }
    unfold yields, wf_type. simpl. conjuncts; (done || apply Ht).
Qed.

Lemma dereference_local_yields frame name : yields no_pointee (SnapshotValues.dereference_local_pointer o frame name paths).
Proof.
  unfold SnapshotValues.dereference_local_pointer. eapply yields_bind; [apply inspect_local_value_yields|intros p Hp].
  guarded_by. eapply yields_bind; [apply yields_require|intros t Ht]. do 2 guarded_by.
  eapply yields_bind; [by apply pointee_value_type_yields, Hp|intros t' Ht']. settled.
  eapply yields_bind; [by apply materialize_snapshot_yields|intros v Hv]. by guarded_by.
Qed.

Lemma integer_pointee_wf t : wf_pointee t -> vt_kind t = KInteger -> wf_type (value_type (vt_byte_size t) (vt_is_signed t) KInteger []).
Proof. intros [(_ & _ & Ht) _] Hk. rewrite Hk in Ht. unfold wf_type. simpl. conjuncts; (done || apply Ht). Qed.

Lemma attach_integer_yields v n sg :
  no_pointee v -> 0 <= n -> yields good_pointee (attach_pointer_metadata v (Some (value_type n sg KInteger []))).
Proof.
  intros Hv Hn. unfold attach_pointer_metadata. destruct (bool_decide _); [by apply no_pointee_good|].
  cbn [vt_kind value_type]. eapply yields_bind; [apply yields_throw_if|intros u Hbad].
  unfold yields. intros t. simpl. intros [= <-]. split; [by apply integer_type_wf|done].
Qed.

Lemma pointer_member_yields frame name member_name :
  yields good_pointee (SnapshotValues.inspect_local_pointer_member o frame name member_name paths).
Proof.
  unfold SnapshotValues.inspect_local_pointer_member. guarded_by.
  eapply yields_bind; [apply inspect_local_value_yields|intros p Hp]. cbv zeta. guarded_by.
  eapply yields_bind; [apply yields_require|intros t Ht]. apply yields_guard; intros Hk%bool_decide_eq_false.
  eapply yields_bind; [apply dereference_local_yields|intros object Hob]. guarded_by.
  eapply yields_bind; [apply yields_require|intros m Hm]. apply yields_guard; intros Hkm%bool_decide_eq_false.
  eapply yields_bind; [apply yields_require|intros q Hq]. cbn beta in *. destruct (List.find _ (lv_members object)) as [x|]; [|done].
  assert (Hn : 0 <= pt_byte_size q).
  { destruct (Hp t Ht) as [_ Hpt]. destruct (vt_kind t) eqn:Ek; try done; [by destruct Hk|]. destruct Hpt as [Hpt _].
    apply find_some in Hm as [Hin _]. rewrite <- list_elem_of_In in Hin. rewrite Forall_forall in Hpt.
    destruct (Hpt m Hin) as (_ & [Hd|[Hd|Hd]]).
    - destruct Hd as (_ & Hd & _). congruence.
    - destruct Hd as (_ & _ & _ & _ & _ & _ & _ & q' & Hq' & Hw). assert (q' = q) as -> by congruence.
      unfold wf_member_pointee in Hw. destruct (pt_kind q); try done; destruct Hw as [Hw _]; unfold integer_size in Hw; lia.
    - destruct Hd as (_ & Hd & _). congruence. }
  apply yields_bind with no_pointee.
  { unfold member_storage. cbv zeta. destruct (bool_decide (lv_storage object = SnapshotRuntimeArtifact)); [|done]. by guarded_by. }
  intros v Hv. by apply attach_integer_yields.
Qed.

Lemma dereference_member_yields frame name member_name :
  yields no_pointee (SnapshotValues.dereference_local_pointer_member o frame name member_name paths).
Proof.
  unfold SnapshotValues.dereference_local_pointer_member.
  eapply yields_bind; [apply pointer_member_yields|intros p Hp]. cbv zeta.
  eapply yields_bind; [apply yields_require|intros t Ht].
  apply yields_guard; intros [[Hk%bool_decide_eq_false _]%orb_false_iff _]%orb_false_iff. do 2 guarded_by. settled.
  apply materialize_snapshot_yields, integer_pointee_wf; [by apply Hp|]. destruct (decide (vt_kind t = KInteger)); [done|by destruct Hk].
Qed.

(** ** A variable of an inline call *)

Lemma read_debug_ranges_settles path : settles (read_debug_ranges path).
Proof.
  unfold read_debug_ranges, read_named_sections. apply settles_bind; [|done].
  unfold read_file. destruct (h_file path) as [| | |bytes] eqn:E; try done. cbn [mbind res_bind].
  by eapply yields_settles, named_sections_yields, files_sized.
Qed.

Lemma frame_debug_yields changed frame :
  yields (fun r => sections_sized r.1.2) (frame_debug_file changed o frame paths).
Proof.
  unfold frame_debug_file. do 4 settled. guarded_by. settled.
  eapply yields_bind; [by apply read_debug_sections_yields|intros sections Hs].
  eapply yields_bind; [by apply yields_true, read_debug_ranges_settles|done].
Qed.

Section Inline.
Context (pc : Z) (ranges : list byte) (start end_ : Z) (dies : list Die) (Hdies : wf_dies start end_ dies).

Lemma unit_base_settles : settles (compilation_unit_base dies).
Proof. unfold compilation_unit_base. destruct dies; [done|]. destruct (attribute _ _); [|done]. settles_auto. Qed.
#[local] Hint Resolve unit_base_settles : msettle.

Lemma selected_inline_yields version offset :
  yields (fun r => forall i j b, r = Some (i, j, b) -> (i < length dies)%nat /\ (j < length dies)%nat)
    (selected_inline dies pc ranges version offset).
Proof.
  unfold selected_inline. destruct (die_index_by_offset dies offset) as [i|] eqn:E; [|done].
  apply die_index_by_offset_lt in E. destruct (die_at_Some dies _ E) as (d & _ & ->). cbn [mbind res_bind]. guarded_by.
  settled. eapply yields_bind; [apply yields_true, inline_scope_contains_pc_settles|intros owned _]. guarded_by.
  eapply yields_bind; [apply find_physical_subprogram_spec|intros [j|] [Hj _]]; [|done]. cbv zeta.
  destruct (Hj j eq_refl) as (x & Hx & _). apply lookup_lt_Some in Hx.
  eapply yields_bind; [by eapply is_descendant_of_spec|intros nested _]. guarded_by. by intros ? ? ? [= <- <- <-].
Qed.

Lemma find_inline_value_yields base version inlined name :
  yields (fun i => (i < length dies)%nat) (find_inline_value dies pc ranges base version inlined name).
Proof.
  unfold find_inline_value. eapply yields_bind.
  { eapply value_from_yields; [|done|done|done]. intros i Hi. by eapply yields_settles, inline_local_scope_depth_spec. }
  intros [[[i k]|] owned] Hr; [|done]. by eapply Hr.
Qed.

Lemma snapshot_thread_settles tid : settles (snapshot_thread o tid).
Proof. unfold snapshot_thread. by destruct (list_find _ _) as [[]|]. Qed.
#[local] Hint Resolve snapshot_thread_settles : msettle.

Lemma inline_register_pieces_yields frame owner name t e :
  sized e -> wf_type t -> yields no_pointee (inline_register_pieces o frame owner name t e).
Proof.
  intros He Ht. unfold inline_register_pieces. settled. cbv zeta.
  eapply yields_bind; [apply evaluate_register_piece_yields; [done|intros; auto with msettle]|intros bytes _].
  eapply yields_bind with no_pointee; [|done].
  destruct (vt_kind t); try apply materialize_array_yields; try apply materialize_union_yields. settled.
  eapply yields_bind; [by apply decode_structure_yields|done].
Qed.

Lemma inline_register_scalar_yields frame owner name root e :
  e <> [] -> wf_root root -> yields good_pointee (inline_register_scalar o frame owner name root e).
Proof.
  intros He Hr. unfold inline_register_scalar. cbv zeta. guarded_by. settled. destruct e as [|b e]; [done|]. cbn [first_op]. settled.
  destruct (vt_kind (root_value_type root)); try (by apply no_pointee_good).
  - guarded_by. by apply attach_pointer_yields; [|apply root_pointee_wf].
  - guarded_by. by apply no_pointee_good.
Qed.

Lemma inline_variable_yields sections frame owner va base version subprogram index name :
  sections_sized sections -> (subprogram < length dies)%nat -> (index < length dies)%nat ->
  yields good_pointee (inline_variable sections o frame paths owner va base version dies subprogram index name).
Proof.
  intros Hs Hi Hj. unfold inline_variable.
  eapply yields_bind; [by eapply value_attributes_yields|intros [location type] Hl].
  eapply yields_bind; [by apply resolve_bounded_root_value_type_yields, (die_numbers _ _ _ Hdies)|intros root Hr]. cbv zeta.
  eapply yields_bind; [apply yields_true|intros u _].
  { unfold validate_selected_inline_structure_type. destruct (bool_decide _); [done|].
    apply settles_bind; [auto with msettle|intros _ _].
    induction (vt_members (root_value_type root)) as [|m l IH]; [done|]. cbn [distinct_names].
    do 2 (apply settles_bind; [auto with msettle|intros _ _]). exact IH. }
  apply yields_guard; intros _. eapply yields_bind; [by apply value_expression_yields|intros e He].
  apply yields_guard; intros Hne. unfold inline_value. cbv zeta. destruct (_ || _).
  - guarded_by. eapply yields_bind; [by eapply snapshot_stack_value_yields, Hr|intros v Hv].
    by apply attach_pointer_yields; [|apply root_pointee_wf].
  - destruct (is_aggregate _).
    + eapply yields_weaken; [apply no_pointee_good|]. by apply inline_register_pieces_yields, Hr.
    + apply inline_register_scalar_yields; [|done]. by destruct e.
Qed.
End Inline.

Lemma inspect_inline_unit_yields sections ranges frame owner pc offset name start :
  sections_sized sections -> 0 <= start ->
  yields (unit_answers good_pointee start)
    (inspect_inline_scalar_unit sections ranges o frame paths owner pc offset name start).
Proof.
  intros Hs Hstart. unfold inspect_inline_scalar_unit.
  eapply yields_bind; [by apply parse_unit_dies_yields|intros u (Hnext & _ & Hdies)]. cbv zeta.
  eapply yields_bind; [by eapply selected_inline_yields|intros [[[i j] base]|] Hi]; [|split; [simpl; lia|done]].
  destruct (Hi i j base eq_refl) as [Hi1 Hj].
  eapply yields_bind; [by eapply find_inline_value_yields|intros index Hx].
  eapply yields_bind; [by eapply inline_variable_yields|intros v Hv]. split; [simpl; lia|by intros ? [= <-]].
Qed.

Lemma inspect_inline_yields frame offset name : yields good_pointee (InlineValues.inspect_inline_local_value o frame offset name paths).
Proof.
  unfold InlineValues.inspect_inline_local_value. guarded_by.
  eapply yields_bind; [apply frame_debug_yields|intros [[[owner debug] sections] ranges] Hs]. simpl in Hs.
  eapply yields_bind; [by apply search_units_yields; intros; apply inspect_inline_unit_yields|intros r Hr].
  by apply found_yields.
Qed.

Lemma dereference_inline_yields frame offset name :
  yields no_pointee (InlineValues.dereference_inline_local_pointer o frame offset name paths).
Proof.
  unfold InlineValues.dereference_inline_local_pointer.
  eapply yields_bind; [apply inspect_inline_yields|intros p Hp]. guarded_by. cbv zeta.
  eapply yields_bind; [apply yields_require|intros t Ht].
  apply yields_guard; intros [Hk%bool_decide_eq_false _]%orb_false_iff. do 2 guarded_by. settled.
  apply materialize_snapshot_yields, integer_pointee_wf; [by apply Hp|].
  destruct (decide (vt_kind t = KInteger)); [done|by destruct Hk].
Qed.

(** ** The variables in scope *)

Lemma catalogue_unit_yields sections ranges pc start :
  sections_sized sections -> 0 <= start ->
  yields (unit_answers (fun _ => True) start) (discover_scoped_local_catalogue_unit sections ranges pc start).
Proof.
  intros Hs Hstart. unfold discover_scoped_local_catalogue_unit.
  eapply yields_bind; [by apply parse_unit_dies_yields|intros u (Hnext & _ & Hdies)]. cbv zeta.
  eapply yields_bind; [by eapply yields_true, unit_base_settles|intros base _].
  eapply yields_bind; [apply find_physical_subprogram_spec|intros [j|] [Hj _]]; [|split; [simpl; lia|done]].
  eapply yields_bind.
  { apply (select_locals_catalogue _ _ _ (plain_scope pc) j). intros i Hi. by eapply scoped_local_spec. }
  intros selected _. split; [simpl; lia|done].
Qed.

Lemma inline_catalogue_unit_yields sections ranges pc offset start :
  sections_sized sections -> 0 <= start ->
  yields (unit_answers (fun _ => True) start) (discover_inline_locals_unit sections ranges pc offset start).
Proof.
  intros Hs Hstart. unfold discover_inline_locals_unit.
  eapply yields_bind; [by apply parse_unit_dies_yields|intros u (Hnext & _ & Hdies)]. cbv zeta.
  eapply yields_bind; [by eapply selected_inline_yields|intros [[[i j] base]|] Hi]; [|split; [simpl; lia|done]].
  eapply yields_bind.
  { apply (select_locals_catalogue _ _ _ (active_block pc ranges base (parsed_version u)) i).
    intros k Hk. by eapply inlined_local_spec. }
  intros selected _. split; [simpl; lia|done].
Qed.

Lemma discover_locals_settles frame : settles (DebugScopes.discover_local_values o frame paths).
Proof.
  eapply yields_settles with (fun _ => True). unfold DebugScopes.discover_local_values.
  eapply yields_bind; [apply frame_debug_yields|intros [[[owner debug] sections] ranges] Hs]. simpl in Hs.
  eapply yields_bind; [by apply search_units_yields; intros; apply catalogue_unit_yields|intros r _]. by destruct r.
Qed.

Lemma discover_inline_locals_settles frame offset : settles (DebugScopes.discover_inline_local_values o frame offset paths).
Proof.
  eapply yields_settles with (fun _ => True). unfold DebugScopes.discover_inline_local_values.
  eapply yields_bind; [apply frame_debug_yields|intros [[[owner debug] sections] ranges] Hs]. simpl in Hs.
  eapply yields_bind; [by apply search_units_yields; intros; apply inline_catalogue_unit_yields|intros r _]. by destruct r.
Qed.
End Queries.

(** ** What the session relies on *)

(** The promise of [LocalInspection] to its clients: on the snapshot [o] every query for
    variables and values ends with an answer or an exception. *)
Class InspectionSettles (L : LocalInspection) (o : SnapshotObject) : Prop := {
  locals_settle frame paths : settles (LocalValue.discover_local_values o frame paths);
  inline_locals_settle frame offset paths : settles (LocalValue.discover_inline_local_values o frame offset paths);
  value_settles frame name paths : settles (LocalValue.inspect_local_value o frame name paths);
  inline_value_settles frame offset name paths : settles (LocalValue.inspect_inline_local_value o frame offset name paths);
  pointer_settles frame name paths : settles (LocalValue.dereference_local_pointer o frame name paths);
  inline_pointer_settles frame offset name paths :
    settles (LocalValue.dereference_inline_local_pointer o frame offset name paths);
  member_settles frame name member paths : settles (LocalValue.inspect_local_pointer_member o frame name member paths);
  member_pointer_settles frame name member paths :
    settles (LocalValue.dereference_local_pointer_member o frame name member paths)
}.

(** C35: the source lookup keeps its promise to the inspection session: on a parsed core,
    whatever its modules' debug and call-frame information say, every query for the
    variables in scope, for a variable's value and for what a pointer points to ends with
    an answer or an exception: every index is in bounds and every loop ends. *)
Theorem source_lookup_settles `{H : Host} `{F : FileAccess} file o :
  (forall path bytes, h_file path = FileBytes bytes -> file_sized bytes) -> wf_core file (so_core o) ->
  InspectionSettles SourceLookup o.
Proof.
  intros Hfiles Hwf. split; intros; cbn.
  - by eapply discover_locals_settles.
  - by eapply discover_inline_locals_settles.
  - by eapply yields_settles, inspect_local_value_yields.
  - by eapply yields_settles, inspect_inline_yields.
  - by eapply yields_settles, dereference_local_yields.
  - by eapply yields_settles, dereference_inline_yields.
  - by eapply yields_settles, pointer_member_yields.
  - by eapply yields_settles, dereference_member_yields.
Qed.

(** ** Inline chains *)

(** The contexts of an inline chain name the module of the frame. *)
Section InlineModules.
Context `{H : Host} `{F : FileAccess}.

Lemma inline_context_module dies table pc module candidate context :
  inline_context dies table pc module candidate = Ok context -> ic_module_path context = module.
Proof.
  unfold inline_context. intros (name & _ & E)%bind_Ok. apply bind_Ok in E as (die & _ & E).
  destruct name, (attribute die kInlineDwAtCallFile), (attribute die kInlineDwAtCallLine); try done.
  apply bind_Ok in E as ([] & _ & E). apply bind_Ok in E as (path & _ & E). by destruct path; [injection E as <-|].
Qed.

Lemma inline_contexts_module dies table pc module candidates contexts :
  mapM (inline_context dies table pc module) candidates = Ok contexts ->
  Forall (fun context => ic_module_path context = module) contexts.
Proof.
  revert contexts. induction candidates as [|candidate candidates IH]; intros contexts; [by intros [= <-]|].
  cbn [mapM]. intros (context & Hc & E)%bind_Ok. apply bind_Ok in E as (rest & Hrest & [= <-]).
  constructor; [by eapply inline_context_module|by apply IH].
Qed.

Lemma inline_unit_module sections ranges pc module debug start contexts next :
  discover_inline_unit sections ranges pc module debug start = Ok (Some contexts, next) ->
  Forall (fun context => ic_module_path context = module) contexts.
Proof.
  unfold discover_inline_unit. intros (unit & _ & E)%bind_Ok. cbv zeta in E. apply bind_Ok in E as (base & _ & E).
  apply bind_Ok in E as (subprogram & _ & E). destruct subprogram; [|done]. apply bind_Ok in E as (candidates & _ & E).
  destruct candidates; [by injection E as <- _|]. do 4 (apply bind_Ok in E as (? & _ & E)).
  apply bind_Ok in E as (result & Hr & [= <- _]). by eapply inline_contexts_module.
Qed.

Lemma first_unit_answers {A} (P : A -> Prop) fuel what (query : Z -> res (option A * Z)) limit unit a :
  (forall start a next, query start = Ok (Some a, next) -> P a) ->
  first_unit fuel what query limit unit = Ok (Some a) -> P a.
Proof.
  intros Hq. revert unit. induction fuel as [|fuel IH]; intros unit; cbn [first_unit]; destruct (unit <? limit); try done.
  intros ([[b|] next] & Hu & E)%bind_Ok; [injection E as <-; by eapply Hq|]. apply bind_Ok in E as ([] & _ & E). by eapply IH.
Qed.

#[export] Instance source_lookup_laws : InlineLaws SourceLookup.
Proof.
  intros o frame paths contexts. cbn [LocalValue.discover_inline_call_chain SourceLookup].
  unfold DebugScopes.discover_inline_call_chain. intros ([[[owner debug] sections] ranges] & Hfile & E)%bind_Ok.
  apply bind_Ok in E as (result & Hr & [= <-]). unfold frame_debug_file in Hfile. do 3 (apply bind_Ok in Hfile as (? & _ & Hfile)).
  apply bind_Ok in Hfile as (owner' & _ & Hfile). apply bind_Ok in Hfile as ([] & Hsame%throw_if_Ok & Hfile).
  do 3 (apply bind_Ok in Hfile as (? & _ & Hfile)). injection Hfile as -> _ _ _. apply negb_false_iff, String.eqb_eq in Hsame.
  rewrite <- Hsame. destruct result as [contexts|]; [|constructor]. unfold search_units in Hr.
  eapply (first_unit_answers (Forall (fun context => ic_module_path context = ma_module_path owner))); [|exact Hr].
  intros start a next Ha. by eapply inline_unit_module.
Qed.
End InlineModules.

(** ** A core whose first module describes one variable of [main] *)

Definition core_module : list byte := Eval vm_compute in elf_of (total_contents x57 x10).

Definition CoreHost : Host := {|
  h_file path := if String.eqb path "/a" then FileBytes core_module else FileOpenFailed;
  h_canonical _ := None; h_regular _ := true; h_page_size := 4096
|}.

(** The frame its thread stands in. *)
Definition core_frame : SnapshotInspectionFrameContext := Eval vm_compute in
  match demo_trace with
  | Ok t => default (mkSnapshotFrame 0 0 0 0 0 0 None 0 0 None ExactInstruction "" live_registers) (head (trace_frames t))
  | _ => mkSnapshotFrame 0 0 0 0 0 0 None 0 0 None ExactInstruction "" live_registers
  end.

(** No file but the modules: the value comes from the core. *)
Definition CoreFiles : FileAccess := {| f_stream _ := None; f_size _ := None; f_read_at _ _ _ := None |}.
Definition CoreLookup : LocalInspection := @SourceLookup CoreHost CoreFiles.

Definition core_total : LocalScalarValue :=
  with_storage SnapshotCoreMemory (scalar "/a" "total" 0x10f0 4 true KInteger).

Example core_total_read :
  LocalValue.inspect_local_value (LocalInspection := CoreLookup) demo_snapshot core_frame "total" no_module_paths = Ok core_total.
Proof. vm_compute. reflexivity. Qed.

Lemma core_files_sized path bytes : h_file (Host := CoreHost) path = FileBytes bytes -> file_sized bytes.
Proof. simpl. destruct (String.eqb _ _); [|done]. intros [= <-]. vm_compute. discriminate. Qed.

Lemma demo_signal_core_wf : wf_core demo_signal_core_file demo_signal_core.
Proof.
  assert (Hp : parse_core "core" demo_signal_core_file = Ok demo_signal_core) by (vm_compute; reflexivity).
  pose proof (parse_core_yields "core" demo_signal_core_file) as H. rewrite Hp in H. exact H.
Qed.

Lemma source_lookup_settles_witness :
  settles (LocalValue.inspect_local_value (LocalInspection := CoreLookup) demo_snapshot core_frame "total" no_module_paths) /\
  settles (LocalValue.dereference_local_pointer (LocalInspection := CoreLookup) demo_snapshot core_frame "total"
    no_module_paths).
Proof.
  pose proof (source_lookup_settles (H := CoreHost) (F := CoreFiles) demo_signal_core_file demo_snapshot core_files_sized
    demo_signal_core_wf) as S.
  split; [apply (value_settles (InspectionSettles := S))|apply (pointer_settles (InspectionSettles := S))].
Defined.
