(* ===== verification/LivePrint.v ===== *)
(** * What the live command line prints ([src/cli/main.cpp])

    The objects of [main] and everything the commands print of them: stops, backtraces,
    source positions with their excerpt, user breakpoints, values.  [elf] is one object that
    the registry and its controllers refer to, so it is read from the registry. *)

From S2P Require Import FramePointer.
From S2P Require Import Prelude Machine Process DebuggerState Debugger DebuggerWait ByteReader ElfFormat EhFrame Elf ModuleMap Unwind.
From S2P Require Import SourcePath LineTable Registry LocalValue CliText CoreCli.
From S2P Require SourceStep.

(** ** The objects of [main] *)

Section State.
Context `{K : Kernel}.

(** [breakpoints] with the debugger it refers to, [selected_inspection_frame],
    [source_paths] and the standard output. *)
(* src/cli/main.cpp:450-451 main *)
Record live_cli := mkLiveCli {
  lc_rst : rst;
  lc_frame : option InspectionFrameContext;
  lc_paths : SourcePathResolver;
  lc_out : ostream
}.

Definition on_registry {A} : M rst A -> M live_cli A :=
  zoom lc_rst (fun r s => mkLiveCli r (lc_frame s) (lc_paths s) (lc_out s)).
Definition on_debugger {A} (m : M dst A) : M live_cli A := on_registry (with_debugger m).
Definition on_world {A} (m : M world A) : M live_cli A := on_debugger (kernel m).
Definition out (l : list piece) : M live_cli unit :=
  zoom lc_out (fun o s => mkLiveCli (lc_rst s) (lc_frame s) (lc_paths s) o) (write l).
Definition set_frame (frame : option InspectionFrameContext) : M live_cli unit :=
  modify (fun s => mkLiveCli (lc_rst s) frame (lc_paths s) (lc_out s)).

Definition cli_debugger (s : live_cli) : debugger := st_debugger (rs_dst (lc_rst s)).
Definition cli_elf (s : live_cli) : ElfFile := rg_executable (rs_registry (lc_rst s)).
Definition get_cli_debugger : M live_cli debugger := gets cli_debugger.
Definition get_elf : M live_cli ElfFile := gets cli_elf.
(** [debugger.pid()] *)
Definition cli_pid : M live_cli Z := gets (fun s => pid_ (process_ (cli_debugger s))).
(** [debugger.state() == mdbg::ProcessState::Stopped] *)
Definition cli_stopped : M live_cli bool := gets (fun s => bool_decide (state_ (process_ (cli_debugger s)) = Stopped)).
(** [static_cast<std::uintptr_t>(debugger.registers().rip)] *)
Definition current_pc : M live_cli Z := regs ← on_debugger registers; mret (rip regs).
End State.

(** ** Names and numbers *)

(* src/cli/main.cpp:75-89 signed_local_value *)
Definition signed_local_value (raw_value byte_size : Z) : res Z :=
  _ ← throw_if ((byte_size =? 0) || (8 <? byte_size)) (Exn InvalidArgument "invalid local integer byte width");
  if byte_size =? 8 then Ok (to_signed 64 raw_value)
  else
    let bits := byte_size * 8 in
    let mask := u64 (Z.shiftl 1 bits) - 1 in
    let raw := Z.land raw_value mask in
    let sign_bit := u64 (Z.shiftl 1 (bits - 1)) in
    Ok (to_signed 64 (if negb (Z.land raw sign_bit =? 0) then Z.lor raw (u64 (Z.lnot mask)) else raw)).

(* src/cli/main.cpp:91-100 process_state_name *)
Definition process_state_name (state : ProcessState) : string :=
  match state with
  | Stopped => "stopped"
  | Running => "running"
  | Exited => "exited"
  | Signaled => "signaled"
  | Detached => "detached"
  end.

(* src/cli/main.cpp:116-119 print_module_qualified *)
Definition module_qualified (module_path value : string) : list piece :=
  (if String.eqb module_path EmptyString then [] else [Str module_path; Str "!"]) ++ [Str value].

(** A pointer or an enumerator; a signed or an unsigned integer. *)
(* src/cli/main.cpp:678-682 main *)
Definition integer_pieces (is_signed : bool) (raw_value byte_size : Z) : res (list piece) :=
  if is_signed then value ← signed_local_value raw_value byte_size; Ok [Long value] else Ok [Num raw_value].

Section Print.
Context `{FA : FileAccess} `{H : Host} `{FI : FileIdentity} `{K : Kernel} `{PM : !ProcMaps K} `{T : TextFiles}.

(* src/cli/main.cpp:102-105 print_thread *)
Definition print_thread (thread : ThreadInfo) : M live_cli unit :=
  out [Str (if ti_active thread then "* " else "  "); Int (ti_tid thread); Str " ";
       Str (process_state_name (ti_state thread)); Str nl].

(* src/cli/main.cpp:107-110 print_process *)
Definition print_process (process : ProcessInfo) : M live_cli unit :=
  out [Str (if pi_active process then "* " else "  "); Int (pi_pid process); Str " ";
       Str (process_state_name (pi_state process)); Str nl].

(** ** Stops *)

(* src/cli/main.cpp:130-156 print_stop *)
Definition process_event_pieces (info : StopInfo) (pid : Z) : list piece :=
  let is_vfork := match si_process_event info with VforkEvent => true | _ => false end in
  let parent := default pid (si_parent_pid info) in
  let follows_child := negb is_vfork && bool_decide (si_child_pid info = Some (si_tid info)) in
  [Str "process "; Str (if is_vfork then "vfork" else "fork"); Str ": "] ++
  match si_child_pid info with
  | Some child =>
    if negb is_vfork && si_retains_child info then
      [Str "retained parent "; Int parent; Str ", retained child "; Int child; Str ", active "; Int pid; Str nl]
    else if follows_child then
      [Str "parent "; Int parent; Str " unfollowed, followed child "; Int child; Str nl]
    else
      [Str "followed parent "; Int parent; Str ", "] ++ (if is_vfork then [Str "transient "] else []) ++
      [Str "child "; Int child; Str (" unfollowed" +:+ nl)]
  | None =>
    [Str "followed parent "; Int parent; Str ", "] ++ (if is_vfork then [Str "transient "] else []) ++
    [Str "child "; Str "<unknown>"; Str (" unfollowed" +:+ nl)]
  end.

(** [if (info.tid > 0) ...] *)
Definition tid_pieces (before : string) (tid : Z) (after : string) : list piece :=
  if 0 <? tid then Str before :: Int tid :: (if String.eqb after EmptyString then [] else [Str after]) else [].

(** [name+0xoffset], without the offset when it is zero. *)
Definition symbol_pieces (symbol : ModuleResolvedSymbol) : list piece :=
  module_qualified (ms_module_path symbol) (ms_name symbol) ++
  (if ms_offset symbol =? 0 then [] else [Str "+0x"; Hex; Num (ms_offset symbol); Dec]).

(** [*info.breakpoint_address] is undefined without an address. *)
(* src/cli/main.cpp:192-207 print_stop *)
Definition print_breakpoint_stop (info : StopInfo) (elf : ElfFile) (pid : Z) : M live_cli unit :=
  match si_breakpoint_address info with
  | None => mundef "empty optional dereferenced"
  | Some address =>
    _ ← out [Str "breakpoint at 0x"; Hex; Num address; Dec];
    _ ← mtry
          (symbol ← on_world (find_module_symbol_by_runtime_address pid address elf);
           match symbol with
           | Some symbol => out ([Str " ("] ++ symbol_pieces symbol ++ [Str ")"])
           | None => mskip
           end);
    out (tid_pieces " [tid " (si_tid info) "]" ++ [Str nl])
  end.

(** A process that ended, and the one that is active now. *)
(* src/cli/main.cpp:182-191 print_stop *)
Definition process_end_pieces (how : string) (info : StopInfo) (pid : Z) : list piece :=
  [Str "process "; Int (si_tid info); Str how; Int (si_value info)] ++
  (if (0 <? pid) && negb (pid =? si_tid info) then [Str "; active process "; Int pid] else []) ++ [Str nl].

(* src/cli/main.cpp:128-239 print_stop *)
Definition print_stop (info : StopInfo) (elf : ElfFile) (pid : Z) : M live_cli unit :=
  match si_process_event info with
  | ForkEvent | VforkEvent => out (process_event_pieces info pid)
  | NoEvent =>
    match si_reason info with
    | InitialExec => out [Str ("stopped after exec" +:+ nl)]
    | AttachedStop => out [Str "attached to process "; Int pid; Str nl]
    | ExecStop =>
      out ([Str "image replaced by "; Str (elf_path elf)] ++
           match si_former_tid info with
           | Some former_tid =>
             if negb (former_tid =? si_tid info)
             then [Str " [former tid "; Int former_tid; Str ", current tid "; Int (si_tid info); Str "]"]
             else tid_pieces " [tid " (si_tid info) "]"
           | None => tid_pieces " [tid " (si_tid info) "]"
           end ++ [Str nl])
    | ThreadCreated => out [Str "thread "; Int (si_tid info); Str (" created and stopped" +:+ nl)]
    | ThreadExited =>
      out [Str "thread "; Int (si_tid info); Str " exited with code "; Int (si_value info); Str nl]
    | ThreadSignaled =>
      out [Str "thread "; Int (si_tid info); Str " terminated by signal "; Int (si_value info); Str nl]
    | ProcessExited => out (process_end_pieces " exited with code " info pid)
    | ProcessSignaled => out (process_end_pieces " terminated by signal " info pid)
    | BreakpointStop => print_breakpoint_stop info elf pid
    | WatchpointStop =>
      out ([Str "watchpoint"] ++
           match si_watchpoint_id info with Some id => [Str " "; Num id] | None => [] end ++
           match si_watchpoint_address info with
           | Some address => [Str " at 0x"; Hex; Num address; Dec]
           | None => []
           end ++ tid_pieces " [tid " (si_tid info) "]" ++ [Str nl])
    | SingleStep => out ([Str "single-step trap"] ++ tid_pieces " on thread " (si_tid info) EmptyString ++ [Str nl])
    | SignalStop =>
      out ([Str "stopped by signal "; Int (si_value info)] ++ tid_pieces " on thread " (si_tid info) EmptyString ++
           [Str nl])
    | TrapStop =>
      out ([Str "SIGTRAP (not a managed breakpoint)"] ++ tid_pieces " on thread " (si_tid info) EmptyString ++
           [Str nl])
    | ExitedStop => out [Str "process exited with code "; Int (si_value info); Str nl]
    | SignaledStop => out [Str "process terminated by signal "; Int (si_value info); Str nl]
    end
  end.

(** ** Backtraces *)

(* src/cli/main.cpp:241-266 print_symbolized_frame *)
Definition print_symbolized_frame (index address : Z) (elf : ElfFile) : M live_cli unit :=
  _ ← out [Str "#"; Num index; Str " 0x"; Hex; Num address; Dec];
  _ ← mtry
        (pid ← cli_pid;
         symbol ← on_world (find_module_symbol_by_runtime_address pid address elf);
         match symbol with Some symbol => out (Str " " :: symbol_pieces symbol) | None => mskip end);
  _ ← mtry
        (pid ← cli_pid;
         source ← on_world (find_module_source_by_runtime_address pid address elf);
         match source with
         | Some source =>
           out ([Str " "] ++ module_qualified (mo_module_path source) (mo_file source) ++
                [Str ":"; Num (mo_line source)] ++
                (if mo_column source =? 0 then [] else [Str ":"; Num (mo_column source)]))
         | None => mskip
         end);
  out [Str nl].

(** The frames of a trace in turn. *)
Definition print_addresses (addresses : list Z) (elf : ElfFile) : M live_cli unit :=
  mfor (imap pair addresses) (fun '(index, address) => print_symbolized_frame (Z.of_nat index) address elf).

(** The trace by the frame rules; whether there was any rule for the first frame. *)
(* src/cli/main.cpp:269-283 print_backtrace *)
Definition print_cfi_backtrace (elf : ElfFile) : M live_cli bool :=
  cfi ← lift (open_eh_frame (elf_path elf));
  if negb (eh_available cfi) then mret false
  else
    trace ← on_debugger (unwind_eh_frame elf cfi 64);
    if bool_decide (cb_stop_reason trace = NoFrameInfo) then mret false
    else
      _ ← print_addresses (map cf_instruction_pointer (cb_frames trace)) elf;
      _ ← mwhen (bool_decide (cb_stop_reason trace <> EndOfChain))
            (out [Str "backtrace stopped: "; Str (cfi_unwind_stop_reason_name (cb_stop_reason trace)); Str nl]);
      mret true.

(* src/cli/main.cpp:268-296 print_backtrace *)
Definition print_backtrace (elf : ElfFile) : M live_cli unit :=
  printed ← mcatch (print_cfi_backtrace elf)
              (fun error =>
                 _ ← out [Str "backtrace stopped: CFI unavailable: "; Str (exn_what error); Str nl]; mret true);
  if printed : bool then mskip
  else
    trace ← on_debugger (FramePointer.unwind_frame_pointers 64 (16 * 1024 * 1024));
    _ ← print_addresses (map FramePointer.sf_instruction_pointer (FramePointer.bt_frames trace)) elf;
    mwhen (bool_decide (FramePointer.bt_stop_reason trace <> FramePointer.EndOfChain))
      (out [Str "backtrace stopped: "; Str (FramePointer.unwind_stop_reason_name (FramePointer.bt_stop_reason trace));
            Str nl]).

(** ** Source positions *)

(** The excerpt is printed by the same code as in the core command line. *)
(* src/cli/main.cpp:298-338 print_source_excerpt *)
Definition print_source_excerpt (file : string) (line : Z) (module_path : string) : M live_cli unit := fun s =>
  zoom lc_out (fun o s => mkLiveCli (lc_rst s) (lc_frame s) (lc_paths s) o)
    (CoreCli.print_source_excerpt (lc_paths s) file line module_path) s.

(* src/cli/main.cpp:340-352 print_source_position *)
Definition print_source_position (address : Z) (source : SourceLocation) (module_path : option string)
    : M live_cli unit :=
  _ ← out ([Str "0x"; Hex; Num address; Dec; Str " "] ++
           module_qualified (default EmptyString module_path) (loc_file source) ++ [Str ":"; Num (loc_line source)] ++
           (if loc_column source =? 0 then [] else [Str ":"; Num (loc_column source)]) ++ [Str nl]);
  print_source_excerpt (loc_file source) (loc_line source) (default EmptyString module_path).

(* src/cli/main.cpp:354-358 print_source_position *)
Definition print_module_position (address : Z) (source : ModuleResolvedSource) : M live_cli unit :=
  print_source_position address (mkLocation (mo_file source) (mo_line source) (mo_column source))
    (Some (mo_module_path source)).

(* src/cli/main.cpp:385-398 print_source_location *)
Definition print_source_location (address : Z) (elf : ElfFile) : M live_cli unit :=
  mcatch
    (pid ← cli_pid;
     source ← on_world (find_module_source_by_runtime_address pid address elf);
     match source with
     | None => out [Str "no source location for 0x"; Hex; Num address; Dec; Str nl]
     | Some source => print_module_position address source
     end)
    (fun error => out [Str "line info unavailable: "; Str (exn_what error); Str nl]).

(** The position a source motion ended on, when it is known. *)
Definition print_result_position (result : SourceStep.SourceStepResult) : M live_cli unit :=
  match SourceStep.ss_source result with
  | None => mskip
  | Some source =>
    pc ← current_pc;
    print_source_position pc source (SourceStep.ss_source_module_path result)
  end.

(* src/cli/main.cpp:360-383 print_source_motion_result *)
Definition print_source_motion_result (operation : string) (result : SourceStep.SourceStepResult) : M live_cli unit :=
  match SourceStep.ss_reason result with
  | SourceStep.LineChanged =>
    pc ← current_pc;
    match SourceStep.ss_source result with
    | None => mundef "empty optional dereferenced"
    | Some source => print_source_position pc source (SourceStep.ss_source_module_path result)
    end
  | SourceStep.Interrupted =>
    elf ← get_elf;
    pid ← cli_pid;
    _ ← print_stop (SourceStep.ss_stop result) elf pid;
    if bool_decide (si_reason (SourceStep.ss_stop result) = ExecStop) then mskip
    else
      stopped ← cli_stopped;
      mwhen stopped (print_result_position result)
  | SourceStep.InstructionLimit =>
    _ ← out [Str operation; Str " stopped after "; Num (SourceStep.ss_instructions result);
             Str (" instructions: instruction limit reached" +:+ nl)];
    print_result_position result
  end.

(** ** User breakpoints *)

(* src/cli/main.cpp:400-410 print_user_breakpoint *)
Definition print_user_breakpoint (breakpoint : UserBreakpoint) : M live_cli unit :=
  _ ← out [Num (ub_id breakpoint); Str " "];
  _ ← match ub_state breakpoint with
      | Pending => out [Str "pending"]
      | Enabled | TemporarilyRestored =>
        match ub_address breakpoint with
        | None => mundef "empty optional dereferenced"
        | Some address =>
          out [Str "0x"; Hex; Num address; Dec; Str " "; Str (user_breakpoint_state_name (ub_state breakpoint))]
        end
      end;
  _ ← mwhen (negb (String.eqb (ub_expression breakpoint) EmptyString)) (out [Str " "; Str (ub_expression breakpoint)]);
  out [Str nl].

(** Whether stepping is refused. *)
(* src/cli/main.cpp:412-417 reject_motion_with_pending_breakpoints *)
Definition reject_motion_with_pending_breakpoints : M live_cli bool :=
  r ← on_registry get_registry;
  d ← get_cli_debugger;
  pending ← lift (has_pending r d);
  if negb pending then mret false
  else
    _ ← out [Str ("stepping is unavailable while deferred breakpoints are pending; " +:+
                  "use continue or delete the pending breakpoint" +:+ nl)];
    mret true.

(** ** Values *)

Definition print_integer (is_signed : bool) (raw_value byte_size : Z) : M live_cli unit :=
  pieces ← lift (integer_pieces is_signed raw_value byte_size);
  out pieces.

(* src/cli/main.cpp:629-682 main *)
Definition print_value_content (value : LocalScalarValue) : M live_cli unit :=
  match lv_kind value with
  | KStructure =>
    _ ← out [Str "{ "];
    _ ← mfor (imap pair (lv_members value)) (fun '(index, member) =>
          _ ← mwhen (negb (index =? 0)%nat) (out [Str ", "]);
          _ ← out [Str (sm_name member); Str " = "];
          print_integer (sm_is_signed member) (sm_raw_value member) (sm_byte_size member));
    out [Str " }"]
  | KUnion =>
    match lv_members value with
    | [] => mthrow LogicError "live union lost bounded overlapping member metadata"
    | members =>
      _ ← out [Str "union{"];
      _ ← mfor (imap pair members) (fun '(index, member) =>
            _ ← mwhen (negb (index =? 0)%nat) (out [Str ", "]);
            out [Str (sm_name member)]);
      out [Str "}"]
    end
  | KArray =>
    let bad := "live fixed array lost bounded element metadata" in
    match lv_array_type value with
    | None => mthrow LogicError bad
    | Some array_type =>
      _ ← mthrow_if (negb (size_of (lv_elements value) =? at_element_count array_type)) LogicError bad;
      _ ← out [Str "["];
      _ ← mfor (imap pair (lv_elements value)) (fun '(index, element) =>
            _ ← mwhen (negb (index =? 0)%nat) (out [Str ", "]);
            out (hex_pieces (ae_raw_value element)));
      out [Str "]"]
    end
  | KEnumeration =>
    match lv_enum_type value with
    | None => mthrow LogicError "live enum value lost its type metadata"
    | Some enum_type => out (enum_pieces (et_name enum_type) (value_enum_symbol value) (lv_raw_value value))
    end
  | KPointer => out (hex_pieces (lv_raw_value value))
  | KInteger | KFloating => print_integer (lv_is_signed value) (lv_raw_value value) (lv_byte_size value)
  end.

(* src/cli/main.cpp:751-775 main *)
Definition print_member_content (member : LocalScalarValue) : M live_cli unit :=
  match lv_kind member with
  | KEnumeration =>
    match lv_enum_type member with
    | None => mthrow LogicError "live enum member lost its type metadata"
    | Some enum_type => out (enum_pieces (et_name enum_type) (value_enum_symbol member) (lv_raw_value member))
    end
  | KPointer => out (hex_pieces (lv_raw_value member))
  | KInteger => print_integer (lv_is_signed member) (lv_raw_value member) (lv_byte_size member)
  | _ => mthrow RuntimeError "aggregate-member requires a bounded scalar direct member"
  end.
End Print.
