(* ===== verification/LiveCli.v ===== *)
(** * The command line of the live debugger ([src/cli/main.cpp])

    [mdbg] launches or attaches to a process and runs one command per input line.  An
    exception a command does not catch ends the program: the objects are destroyed, the
    exception is printed and the exit status is 1. *)

From S2P Require Import SourceStep.
From S2P Require Import Prelude Machine Process DebuggerState Debugger DebuggerWait ByteReader ElfFormat EhFrame Elf ModuleMap Unwind.
From S2P Require Import SourcePath LineTable Registry LocalValue InlineMember CliText CoreCli LivePrint.
From S2P Require FramePointer SourceStep DebugScopes LiveValues.

(** ** Texts of commands *)

(* src/cli/main.cpp:40-48 try_parse_address *)
Definition try_parse_address (text : string) : option Z :=
  match std_stoull text 0 with
  | Ok (value, consumed) => if (consumed =? String.length text)%nat then Some value else None
  | _ => None
  end.

(** [text.rfind(c)] *)
Fixpoint rfind (c : ascii) (text : string) : option nat :=
  match text with
  | EmptyString => None
  | String a text =>
    match rfind c text with
    | Some i => Some (S i)
    | None => if Ascii.eqb a c then Some 0%nat else None
    end
  end.

(** [text.find(word) != npos] *)
Fixpoint contains (word text : string) : bool :=
  String.prefix word text || match text with EmptyString => false | String _ text => contains word text end.

(* src/cli/main.cpp:35-38 SourceSpec *)
Record SourceSpec := mkSourceSpec { sp_file : string; sp_line : Z }.

(* src/cli/main.cpp:50-63 try_parse_source_spec *)
Definition try_parse_source_spec (text : string) : option SourceSpec :=
  match rfind ":" text with
  | None => None
  | Some separator =>
    if (separator =? 0)%nat || (String.length text <=? separator + 1)%nat then None
    else
      let number := String.substring (separator + 1) (String.length text - separator - 1) text in
      match std_stoull number 10 with
      | Ok (line, consumed) =>
        if negb (consumed =? String.length text - separator - 1)%nat || (line =? 0) then None
        else Some (mkSourceSpec (String.substring 0 separator text) line)
      | _ => None
      end
  end.

(* src/cli/main.cpp:65-73 parse_pid *)
Definition parse_pid (text : string) : res Z :=
  '(value, consumed) ← std_stoll text 10;
  _ ← throw_if (negb (consumed =? String.length text)%nat || (value <=? 0) || (pid_max <? value))
        (Exn InvalidArgument ("invalid pid: " +:+ text));
  Ok value.

(** A number that must take the whole text. *)
Definition parse_whole (text : string) (base : Z) (bad : string) : res Z :=
  '(value, consumed) ← std_stoull text base;
  _ ← throw_if (negb (consumed =? String.length text)%nat) (Exn InvalidArgument bad);
  Ok value.

(** [input >> n] for a [std::size_t n] that holds [value]: it stays when the stream is at
    its end, and is 0 without digits and the greatest value on overflow. *)
Definition extract_size (value : Z) (input : string) : Z :=
  match trim_left input with
  | EmptyString => value
  | s =>
    let '(negative, s) := scan_sign s in
    let '(magnitude, any, _) := scan_digits 10 0 false s in
    if negb any then 0
    else if u64_max <? magnitude then u64_max
    else if negative : bool then u64 (- magnitude) else magnitude
  end.

(** The characters up to the closing quote; a backslash quotes the next one.  The rest is
    [None] when the stream ended first. *)
Fixpoint quoted_rest (s : string) : string * option string :=
  match s with
  | EmptyString => (EmptyString, None)
  | String c t =>
    if Ascii.eqb c "034" then (EmptyString, Some t)
    else if Ascii.eqb c "\" then
      match t with
      | EmptyString => (EmptyString, None)
      | String e t => let '(word, rest) := quoted_rest t in (String e word, rest)
      end
    else let '(word, rest) := quoted_rest t in (String c word, rest)
  end.

(** [input >> std::quoted(word)]: a quoted text, or a plain word. *)
Definition next_quoted (input : string) : string * option string :=
  match trim_left input with
  | EmptyString => (EmptyString, None)
  | String c t =>
    if Ascii.eqb c "034" then quoted_rest t
    else match next_token input with Some (word, rest) => (word, Some rest) | None => (EmptyString, None) end
  end.

(** The words of a command; those that are missing stay empty. *)
Definition word (n : nat) (input : string) : string := default EmptyString (words input !! n).
Definition missing (text : string) : bool := String.eqb text EmptyString.

(** ** Commands *)

Section LiveCli.
Context `{FA : FileAccess} `{H : Host} `{FI : FileIdentity} `{K : Kernel} `{PM : !ProcMaps K} `{T : TextFiles}.
(** The bound on the turns of the loops that wait for the kernel. *)
Variable fuel : nat.

Definition say (text : string) : M live_cli unit := out [Str (text +:+ nl)].
(** [try { m } catch (const std::exception& error) { std::cout << prefix << error.what() << '\n'; }] *)
Definition attempt (prefix : string) (m : M live_cli unit) : M live_cli unit :=
  mcatch m (fun error => out [Str prefix; Str (exn_what error); Str nl]).

(* src/cli/main.cpp:121-126 resolve_location *)
Definition resolve_location (text : string) (elf : ElfFile) (pid : Z) : M world Z :=
  match try_parse_address text with
  | Some address => mret address
  | None =>
    match find_symbol elf text with
    | None => mthrow InvalidArgument ("unknown symbol: " +:+ text)
    | Some symbol => runtime_address elf pid symbol
    end
  end.

(* src/cli/main.cpp:453-455 main *)
Definition invalidate_inspection_frame : M live_cli unit := set_frame None.

(* src/cli/main.cpp:456-462 main *)
Definition inspect_source_value (name : string) : M live_cli LocalScalarValue :=
  elf ← get_elf;
  frame ← gets lc_frame;
  match frame with
  | Some frame => on_debugger (LiveValues.inspect_local_value elf frame name)
  | None => on_debugger (LiveValues.inspect_current_value elf name)
  end.

(* src/cli/main.cpp:463-466 main *)
Definition source_inspection_frame : M live_cli InspectionFrameContext :=
  frame ← gets lc_frame;
  match frame with
  | Some frame => mret frame
  | None => on_debugger current_inspection_frame
  end.

(** [executable = debugger.executable_path(); elf = mdbg::ElfFile(executable);] *)
(* src/cli/main.cpp:471-472 main *)
Definition reopen_image : M live_cli unit :=
  d ← get_cli_debugger;
  elf ← lift (open_elf (executable_path_ d));
  on_registry (upd_registry (refer_executable elf)).

(* src/cli/main.cpp:468-473 main *)
Definition refresh_image (info : StopInfo) : M live_cli unit :=
  if bool_decide (si_reason info <> ExecStop) then mskip
  else
    _ ← on_registry on_image_replaced;
    reopen_image.

(** [print_stop(info, elf, debugger.pid())] *)
Definition print_current_stop (info : StopInfo) : M live_cli unit :=
  elf ← get_elf;
  pid ← cli_pid;
  print_stop info elf pid.

(* src/cli/main.cpp:474-478 main *)
Definition report_stop (info : StopInfo) : M live_cli unit :=
  _ ← invalidate_inspection_frame;
  _ ← refresh_image info;
  print_current_stop info.

(** Prints the source line of the instruction pointer. *)
Definition print_current_location : M live_cli unit :=
  pc ← current_pc;
  elf ← get_elf;
  print_source_location pc elf.

(** *** Motion *)

(* src/cli/main.cpp:505-506 main *)
Definition continue_command : M live_cli unit :=
  info ← on_registry (continue_user fuel Suppress);
  report_stop info.

(* src/cli/main.cpp:507-509 main *)
Definition stepi_command : M live_cli unit :=
  rejected ← reject_motion_with_pending_breakpoints;
  if rejected : bool then mskip
  else
    info ← on_debugger (single_step fuel Suppress);
    report_stop info.

(* src/cli/main.cpp:510-525 main *)
Definition source_motion_command (next : bool) : M live_cli unit :=
  rejected ← reject_motion_with_pending_breakpoints;
  if rejected : bool then mskip
  else
    _ ← invalidate_inspection_frame;
    attempt (if next then "source next unavailable: " else "source step unavailable: ")
      (elf ← get_elf;
       result ← on_debugger (if next then SourceStep.next_source fuel elf 4096 else SourceStep.step_source fuel elf 4096);
       _ ← mwhen (bool_decide (SourceStep.ss_reason result = SourceStep.Interrupted))
             (refresh_image (SourceStep.ss_stop result));
       print_source_motion_result (if next then "source next" else "source step") result).

(* src/cli/main.cpp:526-549 main *)
Definition finish_command : M live_cli unit :=
  rejected ← reject_motion_with_pending_breakpoints;
  if rejected : bool then mskip
  else
    _ ← invalidate_inspection_frame;
    attempt "finish unavailable: "
      (result ← on_debugger (SourceStep.finish_frame fuel);
       let stop := SourceStep.fr_stop result in
       _ ← refresh_image stop;
       match SourceStep.fr_reason result with
       | SourceStep.Returned =>
         stopped ← cli_stopped;
         if stopped : bool then print_current_location else print_current_stop stop
       | SourceStep.FinishInterrupted =>
         _ ← print_current_stop stop;
         stopped ← cli_stopped;
         mwhen (bool_decide (si_reason stop <> ExecStop) && stopped) print_current_location
       end).

(** *** Inspection *)

(* src/cli/main.cpp:550-553 main *)
Definition regs_command : M live_cli unit :=
  regs ← on_debugger registers;
  mfor (general_purpose_registers regs) (fun '(name, value) =>
    out ([Setw 6; Str name; Str " 0x"; Hex; Num value; Dec; Str nl])).

(* src/cli/main.cpp:554-555 main *)
Definition bt_command : M live_cli unit :=
  elf ← get_elf;
  print_backtrace elf.

(* src/cli/main.cpp:556-587 main *)
Definition frame_command (input : string) : M live_cli unit :=
  let index_text := word 0 input in
  if missing index_text || negb (missing (word 1 input)) then say "usage: frame <index>"
  else
    attempt "frame selection failed: "
      (parsed ← lift (parse_whole index_text 10 "invalid frame index");
       elf ← get_elf;
       cfi ← lift (open_eh_frame (elf_path elf));
       _ ← mthrow_if (negb (eh_available cfi)) RuntimeError "CFI is unavailable for frame selection";
       frames ← on_debugger (build_inspection_frames elf cfi 64);
       match frames !! Z.to_nat parsed with
       | None => mthrow OutOfRange "inspection frame index is out of range"
       | Some frame =>
         _ ← set_frame (Some frame);
         out [Str "selected inspection frame "; Num parsed; Str " 0x"; Hex; Num (if_runtime_pc frame); Dec; Str nl]
       end).

(* src/cli/main.cpp:588-596 main *)
Definition line_command (input : string) : M live_cli unit :=
  let location := word 0 input in
  if missing location then say "usage: line <address|symbol>"
  else
    elf ← get_elf;
    pid ← cli_pid;
    address ← on_world (resolve_location location elf pid);
    print_source_location address elf.

(* src/cli/main.cpp:597-598 main *)
Definition list_command : M live_cli unit := print_current_location.

(* src/cli/main.cpp:599-618 main *)
Definition locals_command (input : string) : M live_cli unit :=
  if negb (missing (word 0 input)) then say "usage: locals"
  else
    attempt "locals unavailable: "
      (frame ← source_inspection_frame;
       elf ← get_elf;
       entries ← on_debugger (DebugScopes.discover_live_local_values elf frame);
       mfor entries (fun entry => out [Str (discovery_label (ld_kind entry)); Str (ld_name entry); Str nl])).

(* src/cli/main.cpp:619-686 main *)
Definition print_command (input : string) : M live_cli unit :=
  let name := word 0 input in
  if missing name then say "usage: print <name>"
  else
    attempt "print failed: "
      (value ← inspect_source_value name;
       _ ← out [Str (lv_name value); Str " = "];
       _ ← print_value_content value;
       out [Str nl]).

(** What a pointer leads to, an integer. *)
(* src/cli/main.cpp:699-709 main *)
Definition print_pointee (not_integer : string) (pointee : LocalScalarValue) : M live_cli unit :=
  _ ← mthrow_if (bool_decide (lv_kind pointee <> KInteger)) RuntimeError not_integer;
  _ ← out [Str (lv_name pointee); Str " = "];
  _ ← print_integer (lv_is_signed pointee) (lv_raw_value pointee) (lv_byte_size pointee);
  out [Str nl].

(* src/cli/main.cpp:687-712 main *)
Definition deref_command (input : string) : M live_cli unit :=
  let name := word 0 input in
  if missing name || negb (missing (word 1 input)) then say "usage: deref <name>"
  else
    attempt "deref failed: "
      (frame ← source_inspection_frame;
       elf ← get_elf;
       pointee ← on_debugger (LiveValues.dereference_local_pointer elf frame name);
       print_pointee "deref requires a bounded integer pointee" pointee).

(** A command with a name and one more word. *)
Definition two_word_command (usage failed input : string) (run : string -> string -> M live_cli unit)
    : M live_cli unit :=
  let name := word 0 input in
  let second := word 1 input in
  if missing name || missing second || negb (missing (word 2 input)) then say usage
  else attempt failed (run name second).

(** [name = 0xvalue] *)
Definition print_hex_value (value : LocalScalarValue) : M live_cli unit :=
  out ([Str (lv_name value); Str " = "] ++ hex_pieces (lv_raw_value value) ++ [Str nl]).

(* src/cli/main.cpp:713-736 main *)
Definition array_element_command (input : string) : M live_cli unit :=
  two_word_command "usage: array-element <name> <index>" "array-element failed: " input (fun name index_text =>
    parsed ← lift (parse_whole index_text 10 "invalid array index");
    array ← inspect_source_value name;
    element ← lift (inspect_local_array_element array parsed);
    print_hex_value element).

(* src/cli/main.cpp:737-779 main *)
Definition aggregate_member_command (input : string) : M live_cli unit :=
  two_word_command "usage: aggregate-member <name> <member>" "aggregate-member failed: " input
    (fun name member_name =>
       value ← inspect_source_value name;
       member ← lift (inspect_local_aggregate_member value member_name);
       _ ← out [Str (lv_name member); Str " = "];
       _ ← print_member_content member;
       out [Str nl]).

(* src/cli/main.cpp:780-811 main *)
Definition deref_aggregate_member_command (input : string) : M live_cli unit :=
  two_word_command "usage: deref-aggregate-member <name> <member>" "deref-aggregate-member failed: " input
    (fun name member_name =>
       aggregate ← inspect_source_value name;
       member ← lift (inspect_local_aggregate_member aggregate member_name);
       frame ← source_inspection_frame;
       pointee ← on_debugger (LiveValues.dereference_read_pointer frame member);
       print_pointee "deref-aggregate-member requires a bounded integer pointee" pointee).

(* src/cli/main.cpp:812-829 main *)
Definition union_member_command (input : string) : M live_cli unit :=
  two_word_command "usage: union-member <name> <member>" "union-member failed: " input (fun name member_name =>
    value ← inspect_source_value name;
    member ← lift (inspect_local_union_member value member_name);
    print_hex_value member).

(* src/cli/main.cpp:927-932 main *)
Definition reg_command (input : string) : M live_cli unit :=
  let name := word 0 input in
  regs ← on_debugger registers;
  match register_value regs name with
  | None => say "unknown register"
  | Some value => out ([Str name; Str " = "] ++ hex_pieces value ++ [Str nl])
  end.

(** The words after the first one as they stand in the input. *)
Definition after_word (input : string) : string :=
  match next_token input with Some (_, rest) => rest | None => EmptyString end.

(* src/cli/main.cpp:933-944 main *)
Definition x_command (input : string) : M live_cli unit :=
  let address_text := word 0 input in
  let length := extract_size 8 (after_word input) in
  elf ← get_elf;
  pid ← cli_pid;
  address ← on_world (resolve_location address_text elf pid);
  bytes ← on_debugger (read_memory address length);
  _ ← out [Str "0x"; Hex; Num address; Str ":"];
  _ ← mfor bytes (fun byte => out [Str " "; Setw 2; Setfill "0"; Num (byte_val byte)]);
  out [Setfill " "; Dec; Str nl].

(* src/cli/main.cpp:1025-1033 main *)
Definition symbols_command (input : string) : M live_cli unit :=
  let filter := word 0 input in
  elf ← get_elf;
  mfor (elf_symbols elf) (fun symbol =>
    if negb (sym_type symbol =? STT_FUNC) || (negb (missing filter) && negb (contains filter (sym_name symbol)))
    then mskip
    else
      pid ← cli_pid;
      _ ← out [Str "0x"; Hex];
      address ← on_world (runtime_address elf pid symbol);
      out [Num address; Dec; Str " "; Str (sym_name symbol); Str nl]).

(* src/cli/main.cpp:1011-1024 main *)
Definition info_command (input : string) : M live_cli unit :=
  let topic := word 0 input in
  d ← get_cli_debugger;
  if String.eqb topic "breakpoints" then
    r ← on_registry get_registry;
    breakpoints ← lift (user_breakpoints r d);
    mfor breakpoints print_user_breakpoint
  else if String.eqb topic "processes" then mfor (processes d) print_process
  else if String.eqb topic "threads" then mfor (threads d) print_thread
  else say "usage: info <breakpoints|processes|threads>".

(** *** Changes of the debuggee and of the breakpoints *)

(* src/cli/main.cpp:833-852 main *)
Definition set_fork_command (input : string) : M live_cli unit :=
  let mode := word 1 input in
  let choose policy :=
    _ ← on_debugger (set_fork_follow_policy policy);
    out [Str "follow-fork-mode = "; Str mode; Str nl] in
  attempt "follow-fork-mode failed: "
    (if String.eqb mode "parent" then choose FollowParent
     else if String.eqb mode "child" then choose FollowChild
     else if String.eqb mode "both" then choose FollowBoth
     else say "usage: set follow-fork-mode <parent|child|both>").

(* src/cli/main.cpp:853-874 main *)
Definition set_register_command (input : string) : M live_cli unit :=
  let name := word 1 input in
  let value_text := word 2 input in
  if missing name || missing value_text then say "usage: set register <name> <value>"
  else
    attempt "register assignment failed: "
      (value ← lift (parse_whole value_text 0 ("invalid register value: " +:+ value_text));
       _ ← on_debugger (set_register name value);
       _ ← invalidate_inspection_frame;
       out ([Str name; Str " = "] ++ hex_pieces value ++ [Str nl])).

(** The bytes the words denote; none when a word is not a byte. *)
(* src/cli/main.cpp:878-892 main *)
Fixpoint parse_bytes (texts : list string) (bytes : list byte) : list byte :=
  match texts with
  | [] => bytes
  | byte_text :: texts =>
    match std_stoull byte_text 0 with
    | Ok (value, consumed) =>
      if negb (consumed =? String.length byte_text)%nat || (0xff <? value) then []
      else parse_bytes texts (bytes ++ [byte_of_Z value])
    | _ => []
    end
  end.

(* src/cli/main.cpp:875-907 main *)
Definition set_memory_command (input : string) : M live_cli unit :=
  let location := word 1 input in
  let bytes := parse_bytes (drop 2 (words input)) [] in
  if missing location || bool_decide (bytes = []) then say "usage: set memory <address|symbol> <byte> [byte...]"
  else
    attempt "memory assignment failed: "
      (elf ← get_elf;
       pid ← cli_pid;
       address ← on_world (resolve_location location elf pid);
       _ ← on_debugger (write_memory address bytes);
       _ ← invalidate_inspection_frame;
       out [Str "wrote "; Num (size_of bytes); Str " byte"; Str (if size_of bytes =? 1 then EmptyString else "s");
            Str " at 0x"; Hex; Num address; Dec; Str nl]).

(* src/cli/main.cpp:913-926 main *)
Definition substitute_path_command (input : string) : M live_cli unit :=
  let '(recorded_prefix, rest) := next_quoted (after_word input) in
  let local_prefix := match rest with Some rest => fst (next_quoted rest) | None => EmptyString end in
  if missing recorded_prefix || missing local_prefix
  then say "usage: set substitute-path <recorded-prefix> <local-prefix>"
  else
    attempt "source path substitution failed: "
      (paths ← gets lc_paths;
       paths ← lift (add_substitution recorded_prefix local_prefix paths);
       _ ← modify (fun s => mkLiveCli (lc_rst s) (lc_frame s) paths (lc_out s));
       out [Str "source path substitution "; Str recorded_prefix; Str " -> "; Str local_prefix; Str nl]).

(* src/cli/main.cpp:830-926 main *)
Definition set_command (input : string) : M live_cli unit :=
  let topic := String.eqb (word 0 input) in
  if topic "follow-fork-mode" then set_fork_command input
  else if topic "register" then set_register_command input
  else if topic "memory" then set_memory_command input
  else if negb (topic "substitute-path") then say "usage: set <follow-fork-mode|memory|register|substitute-path> ..."
  else substitute_path_command input.

(** The breakpoint a location asks for. *)
(* src/cli/main.cpp:954-961 main *)
Definition add_location (location : string) : M rst Z :=
  match try_parse_address location with
  | Some address => add_address address location
  | None =>
    match try_parse_source_spec location with
    | Some source => add_user_source (sp_file source) (sp_line source) location
    | None => add_user_symbol location
    end
  end.

(* src/cli/main.cpp:945-974 main *)
Definition break_command (input : string) : M live_cli unit :=
  let location := word 0 input in
  if missing location then say "usage: break <address|symbol|file:line>"
  else
    attempt "breakpoint insertion failed: "
      (id ← on_registry (add_location location);
       r ← on_registry get_registry;
       d ← get_cli_debugger;
       found ← lift (breakpoint r d id);
       match found with
       | None => mthrow LogicError "new user breakpoint disappeared"
       | Some found =>
         _ ← out [Str "Breakpoint "; Num id];
         _ ← match ub_state found, ub_address found with
             | Pending, _ => out [Str " pending"]
             | _, Some address => out [Str " at 0x"; Hex; Num address; Dec]
             | _, None => mundef "empty optional dereferenced"
             end;
         out [Str " ("; Str location; Str (")" +:+ nl)]
       end).

(* src/cli/main.cpp:975-978 main *)
Definition delete_command (input : string) : M live_cli unit :=
  removed ← on_registry (remove_user (extract_size 0 input));
  mwhen (negb removed) (say "no such breakpoint").

(* src/cli/main.cpp:979-995 main *)
Definition process_command (input : string) : M live_cli unit :=
  let pid_text := word 0 input in
  if missing pid_text then say "usage: process <pid>"
  else
    attempt "process selection failed: "
      (selected ← lift (parse_pid pid_text);
       _ ← on_debugger (select_process fuel selected);
       _ ← invalidate_inspection_frame;
       _ ← reopen_image;
       out [Str "selected process "; Int selected; Str nl]).

(* src/cli/main.cpp:996-1010 main *)
Definition thread_command (input : string) : M live_cli unit :=
  let tid_text := word 0 input in
  if missing tid_text then say "usage: thread <tid>"
  else
    attempt "thread selection failed: "
      (tid ← lift (parse_pid tid_text);
       _ ← on_debugger (select_thread tid);
       _ ← invalidate_inspection_frame;
       out [Str "selected thread "; Int tid; Str nl]).

(* src/cli/main.cpp:1034-1043 main *)
Definition help_command : M live_cli unit :=
  say ("commands: continue, step, next, finish, stepi, regs, bt, frame <index>, list, locals, " +:+
       "line <addr|symbol>, print <name>, deref <name>, aggregate-member <name> <member>, " +:+
       "deref-aggregate-member <name> <member>, " +:+
       "set follow-fork-mode <parent|child|both>, " +:+
       "set register <name> <value>, set memory <addr|symbol> <byte> [byte...], " +:+
       "set substitute-path <from> <to>, reg <name>, x <addr|symbol> [len], " +:+
       "break <addr|symbol|file:line>, delete <id>, process <pid>, thread <tid>, " +:+
       "info <breakpoints|processes|threads>, symbols [filter], detach, quit").

(** ** The command loop *)

(** [debugger.detach(); std::cout << "detached\n";] *)
Definition detach_and_say : M live_cli unit :=
  _ ← on_debugger (detach Suppress);
  say "detached".

(** The result tells whether the command leaves the loop. *)
(* src/cli/main.cpp:489-1043 main *)
Definition run_command (command input : string) : M live_cli bool :=
  let named := String.eqb command in
  let stay (m : M live_cli unit) : M live_cli bool := _ ← m; mret false in
  if named "quit" || named "q" then
    d ← get_cli_debugger;
    _ ← mwhen (bool_decide (origin_ (process_ d) = Attached)) detach_and_say;
    mret true
  else if named "detach" then
    d ← get_cli_debugger;
    if bool_decide (origin_ (process_ d) <> Attached)
    then stay (say "detach is only valid for an attached process")
    else _ ← detach_and_say; mret true
  else if named "continue" || named "c" then stay continue_command
  else if named "stepi" || named "si" then stay stepi_command
  else if named "step" || named "s" then stay (source_motion_command false)
  else if named "next" || named "n" then stay (source_motion_command true)
  else if named "finish" || named "fin" then stay finish_command
  else if named "regs" then stay regs_command
  else if named "bt" then stay bt_command
  else if named "frame" then stay (frame_command input)
  else if named "line" then stay (line_command input)
  else if named "list" || named "l" then stay list_command
  else if named "locals" then stay (locals_command input)
  else if named "print" then stay (print_command input)
  else if named "deref" then stay (deref_command input)
  else if named "array-element" then stay (array_element_command input)
  else if named "aggregate-member" then stay (aggregate_member_command input)
  else if named "deref-aggregate-member" then stay (deref_aggregate_member_command input)
  else if named "union-member" then stay (union_member_command input)
  else if named "set" then stay (set_command input)
  else if named "reg" then stay (reg_command input)
  else if named "x" then stay (x_command input)
  else if named "break" || named "b" then stay (break_command input)
  else if named "delete" then stay (delete_command input)
  else if named "process" then stay (process_command input)
  else if named "thread" then stay (thread_command input)
  else if named "info" then stay (info_command input)
  else if named "symbols" then stay (symbols_command input)
  else stay help_command.

(* src/cli/main.cpp:485-489 main *)
Definition run_line (line : string) : M live_cli bool :=
  match next_token line with
  | None => mret false
  | Some (command, input) => run_command command input
  end.

(** The loop over the lines of the standard input. *)
(* src/cli/main.cpp:482-489 main *)
Fixpoint command_loop (lines : list string) : M live_cli unit :=
  stopped ← cli_stopped;
  if negb stopped then mskip
  else
    _ ← out [Str "(mdbg) "];
    match lines with
    | [] => mskip
    | line :: lines =>
      leave ← run_line line;
      if leave : bool then mskip else command_loop lines
    end.

(* src/cli/main.cpp:480-484 main *)
Definition run_session (lines : list string) : M live_cli unit :=
  d ← get_cli_debugger;
  _ ← report_stop (stop_info_ d);
  command_loop lines.

(** ** The program *)

(** What the program acts on: the kernel, the counter of stops, the two output streams. *)
Record program_state := mkProgram { pr_world : world; pr_sequence : Z; pr_console : console }.

Definition on_errors {A} (m : M ostream A) : M program_state A :=
  zoom pr_console (fun c p => mkProgram (pr_world p) (pr_sequence p) c) (on_stderr m).

(** A static function of [Debugger], which makes one. *)
Definition make_debugger (m : M (world * Z) debugger) : M program_state debugger :=
  zoom (fun p => (pr_world p, pr_sequence p)) (fun w p => mkProgram (fst w) (snd w) (pr_console p)) m.

(** A method of a [Debugger] object. *)
Definition of_debugger {A} (d : debugger) (m : M dst A) : M program_state A :=
  zoom (fun p => mkSt d (pr_world p) (pr_sequence p))
    (fun s p => mkProgram (st_world s) (st_sequence s) (pr_console p)) m.

(** The scope of [breakpoints]: the session begins with an empty registry, no selected frame
    and no substitution. *)
Definition in_scope {A} (d : debugger) (elf : ElfFile) (m : M live_cli A) : M program_state A :=
  zoom (fun p => mkLiveCli (mkRst (new_registry elf) (mkSt d (pr_world p) (pr_sequence p))) None []
                   (con_out (pr_console p)))
    (fun s p => mkProgram (st_world (rs_dst (lc_rst s))) (st_sequence (rs_dst (lc_rst s)))
                  (mkConsole (lc_out s) (con_err (pr_console p)))) m.

(** The members of the registry are destroyed: every controller stops its monitoring. *)
Definition destroy_registry : M rst unit :=
  r ← get_registry;
  mfor (map_in_order (domains_ r)) (fun '(pid, dom) =>
    mwhen (bool_decide (is_Some (ds_deferred dom))) (with_controller pid Loader.destroy_deferred)).

(** The destructor, then the processes the object owns. *)
Definition destroy_debugger : M dst unit :=
  _ ← destructor;
  d ← get_debugger;
  _ ← mfor (map_in_order (retained_processes_ d)) (fun '(_, dom) => kernel (destroy_process fuel (d_process dom)));
  kernel (destroy_process fuel (process_ d)).

(** The objects are destroyed in the reverse order of their construction. *)
Definition leave_scope : M live_cli unit :=
  _ ← on_registry destroy_registry;
  on_debugger destroy_debugger.

(** [m], then [cleanup] however [m] ended. *)
Definition finally {S} (m cleanup : M S unit) : M S unit :=
  _ ← mon_throw m cleanup;
  cleanup.

(* src/cli/main.cpp:419-422 print_usage *)
Definition print_usage : M program_state unit :=
  on_errors (write [Str ("usage: mdbg <program> [args...]" +:+ nl +:+ "       mdbg --attach <pid>" +:+ nl)]).

(* src/cli/main.cpp:112-114 process_executable *)
Definition attached_executable (pid : Z) : M (world * Z) string := on_kernel (process_executable pid).

(** The path of the executable and the debugger. *)
(* src/cli/main.cpp:433-447 main *)
Definition start (program : string) (arguments : list string) : M program_state (string * debugger) :=
  if String.eqb program "--attach" then
    pid ← lift (parse_pid (default EmptyString (arguments !! 0%nat)));
    executable ← zoom (fun p => (pr_world p, pr_sequence p)) (fun w p => mkProgram (fst w) (snd w) (pr_console p))
                   (attached_executable pid);
    d ← make_debugger (Debugger.attach fuel pid);
    mret (executable, d)
  else
    d ← make_debugger (Debugger.launch fuel program arguments);
    mret (program, d).

(* src/cli/main.cpp:433-484 main *)
Definition run_program (program : string) (arguments lines : list string) : M program_state unit :=
  '(executable, d) ← start program arguments;
  elf ← mon_throw (lift (open_elf executable)) (of_debugger d destroy_debugger);
  in_scope d elf (finally (run_session lines) leave_scope).

(** [arguments] are those after the program's name; the result is the exit status. *)
(* src/cli/main.cpp:426-433 main *)
Definition live_main (arguments lines : list string) : M program_state Z :=
  match arguments with
  | [] => _ ← print_usage; mret 2
  | first :: rest =>
    if String.eqb first "--attach" && negb (length rest =? 1)%nat then _ ← print_usage; mret 2
    else
      mcatch (_ ← run_program first rest lines; mret 0)
        (fun error => _ ← on_errors (write [Str "mdbg: "; Str (exn_what error); Str nl]); mret 1)
  end.
End LiveCli.
