(* ===== verification/LiveCliProofs.v ===== *)
(** * The live command line

    A command that only looks at the stopped thread comes back to the prompt whatever the
    program and its debug information are like, and changes nothing but the output and, for
    [frame], the selected frame. *)

From S2P Require Import Prelude Machine SimKernel Ptrace Process DebuggerState Debugger Breakpoints TraceeReads ByteReader ElfFormat EhFrame Elf ElfProofs ModuleMap Unwind UnwindProofs.
From S2P Require Import SourcePath Registry LocalValue InlineMember InlineMemberProofs DebugInfo DebugInfoProofs DebugScopes DebugLookupProofs LiveValues LiveValuesProofs SnapshotValuesProofs CliText CliTextProofs CoreCli CoreCliProofs LivePrint LiveCli.

(** ** Commands that leave the objects alone *)

Section Observing.
Context `{K : Kernel}.
Context (r0 : rst) (p0 : SourcePathResolver) (kept : option (option InspectionFrameContext)).

(** The debugger, the registry and the substitutions are those given, and so is the selected
    frame when [kept] tells one. *)
Definition at_rest (s : live_cli) : Prop :=
  lc_rst s = r0 /\ lc_paths s = p0 /\ match kept with Some f => lc_frame s = f | None => True end.

(** At rest before and after; the result satisfies [P]. *)
Definition observes {A} (P : A -> Prop) (m : M live_cli A) : Prop :=
  forall s, at_rest s -> exists r s', m s = (r, s') /\ at_rest s' /\ yields P r.
(** Comes back without an exception. *)
Definition calm (m : M live_cli unit) : Prop :=
  forall s, at_rest s -> exists s', m s = (Ok tt, s') /\ at_rest s'.

Lemma observes_bind {A B} (P : A -> Prop) (Q : B -> Prop) m (f : A -> M live_cli B) :
  observes P m -> (forall a, P a -> observes Q (f a)) -> observes Q (m ≫= f).
Proof.
  intros Hm Hf s Hs. destruct (Hm s Hs) as (r & s' & Hr & Hs' & Hy). unfold mbind, M_bind. rewrite Hr.
  destruct r as [a|e|w|]; [by apply Hf|by do 2 eexists|done..].
Qed.
Lemma observes_ret {A} (P : A -> Prop) a : P a -> observes P (mret a).
Proof. intros Ha s Hs. by exists (Ok a), s. Qed.
Lemma observes_throw {A} (P : A -> Prop) c msg : observes P (mthrow c msg).
Proof. intros s Hs. by do 2 eexists. Qed.
Lemma observes_guard {B} (Q : B -> Prop) b c msg (f : unit -> M live_cli B) :
  (b = false -> observes Q (f tt)) -> observes Q (mthrow_if b c msg ≫= f).
Proof. intros Hf s Hs. rewrite run_throw_if. destruct b; [by do 2 eexists|by apply Hf]. Qed.
Lemma observes_lift {A} (P : A -> Prop) r : yields P r -> observes P (lift r).
Proof. intros Hy s Hs. by exists r, s. Qed.
Lemma observes_gets {A} (f : live_cli -> A) : observes (fun _ => True) (gets f).
Proof. intros s Hs. by exists (Ok (f s)), s. Qed.
Lemma observes_weaken {A} (P Q : A -> Prop) m : (forall a, P a -> Q a) -> observes P m -> observes Q m.
Proof.
  intros H Hm s Hs. destruct (Hm s Hs) as (r & s' & Hr & Hs' & Hy). exists r, s'. split; [done|]. split; [done|].
  by eapply yields_weaken.
Qed.

Lemma calm_out l : calm (out l).
Proof. intros s (H1 & H2 & H3). eexists. by split. Qed.
Lemma calm_skip : calm mskip.
Proof. intros s Hs. by exists s. Qed.
Lemma calm_bind m (f : unit -> M live_cli unit) : calm m -> calm (f tt) -> calm (m ≫= f).
Proof.
  intros Hm Hf s Hs. destruct (Hm s Hs) as (s' & Hr & Hs'). unfold mbind, M_bind. rewrite Hr. by apply Hf.
Qed.
Lemma calm_mfor {A} (l : list A) f : (forall x, calm (f x)) -> calm (mfor l f).
Proof. intros Hf. induction l; [apply calm_skip|by apply calm_bind]. Qed.
Lemma calm_observes m : calm m -> observes (fun _ => True) m.
Proof. intros Hm s Hs. destruct (Hm s Hs) as (s' & Hr & Hs'). by exists (Ok tt), s'. Qed.
Lemma calm_attempt prefix m : observes (fun _ => True) m -> calm (attempt prefix m).
Proof.
  intros Hm s Hs. destruct (Hm s Hs) as (r & s' & Hr & Hs' & Hy). unfold attempt, mcatch. rewrite Hr.
  destruct r as [[]|e|w|]; [by exists s'|by apply calm_out|done..].
Qed.
Lemma observes_mfor {A} (l : list A) f :
  (forall x, observes (fun _ => True) (f x)) -> observes (fun _ => True) (mfor l f).
Proof.
  intros Hf. induction l; [by apply observes_ret|]. simpl. eapply observes_bind; [apply Hf|done].
Qed.

(** A method of the debugger that leaves it alone. *)
Lemma observes_debugger {A} (P : A -> Prop) m : inspects (rs_dst r0) P m -> observes P (on_debugger m).
Proof.
  intros (r & Hr & Hy) s (<- & <- & Hk). exists r, s. split; [|by repeat split].
  unfold on_debugger, on_registry, with_debugger, zoom. rewrite Hr. by destruct s as [[] ? ? ?].
Qed.
End Observing.

(** The next step of a command that observes. *)
Ltac peek :=
  eapply observes_bind;
  [first [apply observes_gets|apply calm_observes, calm_out|apply observes_lift; solve [eauto with msettle|apply settles_yields; auto with msettle]]|intros ? ?].

Section Inspecting.
Context `{FA : FileAccess} `{H : Host} `{FI : FileIdentity} `{K : Kernel} `{L : !KernelLaws K} `{PM : !ProcMaps K} `{T : TextFiles}.
Hypothesis files_sized : forall path bytes, h_file path = FileBytes bytes -> file_sized bytes.
Context (r0 : rst) (p0 : SourcePathResolver) (tid : Z) (Ht : tracee (rs_dst r0) tid).

Notation watches kept := (observes r0 p0 kept).

(** ** Values *)

Lemma print_integer_observes kept sg raw n : watches kept (fun _ => True) (print_integer sg raw n).
Proof.
  unfold print_integer. eapply (observes_bind _ _ _ (fun _ => True)); [|intros; apply calm_observes, calm_out].
  apply observes_lift. unfold integer_pieces, signed_local_value. destruct sg; [|done].
  eapply (yields_bind (fun _ => True)); [|done]. apply yields_guard; intros _. by destruct (_ =? _).
Qed.

Lemma separated_observes {A} kept (l : list A) f :
  (forall x, watches kept (fun _ => True) (f x)) ->
  watches kept (fun _ => True)
    (mfor (imap pair l) (fun '(index, x) => _ ← mwhen (negb (index =? 0)%nat) (out [Str ", "]); f x)).
Proof.
  intros Hf. apply observes_mfor. intros [i x]. eapply (observes_bind _ _ _ (fun _ => True)); [|intros; apply Hf].
  unfold mwhen. destruct (negb _); [apply calm_observes, calm_out|by apply observes_ret].
Qed.

Lemma print_value_content_observes kept v : watches kept (fun _ => True) (print_value_content v).
Proof.
  unfold print_value_content. pose proof print_integer_observes as Hi.
  assert (Hout : forall l, watches kept (fun _ => True) (out l)) by (intros; apply calm_observes, calm_out).
  destruct (lv_kind v); auto.
  - eapply observes_bind; [apply Hout|intros _ _]. eapply observes_bind; [|intros _ _; apply Hout].
    apply separated_observes. intros m. eapply observes_bind; [apply Hout|intros _ _; apply Hi].
  - destruct (lv_members v) as [|m l]; [apply observes_throw|].
    eapply observes_bind; [apply Hout|intros _ _]. eapply observes_bind; [|intros _ _; apply Hout].
    by apply separated_observes.
  - destruct (lv_array_type v); [|apply observes_throw]. apply observes_guard; intros _.
    eapply observes_bind; [apply Hout|intros _ _]. eapply observes_bind; [|intros _ _; apply Hout].
    by apply separated_observes.
  - destruct (lv_enum_type v); [apply Hout|apply observes_throw].
Qed.

Lemma source_value_observes kept name : watches kept flat_pointee (inspect_source_value name).
Proof.
  unfold inspect_source_value. peek. peek.
  match goal with |- context [match ?f with Some _ => _ | None => _ end] => destruct f end; apply observes_debugger.
  - by eapply inspect_frame_value_inspects.
  - by eapply inspect_current_value_inspects.
Qed.

(** ** Frames *)

Lemma mapped_path_inspects pid a : inspects (rs_dst r0) (fun _ => True) (kernel (mapped_module_path pid a)).
Proof. apply inspects_kernel. unfold mapped_module_path. by destruct (k_maps _ _); eexists. Qed.

Lemma current_frame_inspects : inspects (rs_dst r0) (fun _ => True) current_inspection_frame.
Proof.
  unfold current_inspection_frame. eapply inspects_bind; [apply inspects_get|intros d _].
  apply inspects_guard; intros _. eapply inspects_bind; [by eapply inspects_registers|intros regs _].
  eapply inspects_bind; [apply mapped_path_inspects|intros [path|] _]; [by apply inspects_ret|apply inspects_throw].
Qed.

Lemma source_frame_observes kept : watches kept (fun _ => True) source_inspection_frame.
Proof.
  unfold source_inspection_frame. peek.
  match goal with |- context [match ?f with Some _ => _ | None => _ end] => destruct f end; [by apply observes_ret|].
  apply observes_debugger, current_frame_inspects.
Qed.

Lemma inspection_loop_inspects elf cfi max fuel context c modules frames :
  size_of (eh_section cfi) <= i64_max -> Forall opened modules -> max - size_of frames <= Z.of_nat fuel ->
  inspects (rs_dst r0) (fun _ => True) (inspection_loop fuel elf cfi max context c modules frames).
Proof.
  intros Hcfi. revert c modules frames. induction fuel as [|fuel IH]; intros c modules frames Hm Hf; cbn [inspection_loop].
  - destruct (Z.ltb_spec (size_of frames) max); [lia|by apply inspects_ret].
  - destruct (Z.ltb_spec (size_of frames) max); [|by apply inspects_ret].
    destruct (try_caller_same files_sized elf cfi c modules _ tid Ht Hcfi Hm) as (x & Hx & Hok).
    eapply (inspects_bind _ (fun y => y = x)); [exists (Ok x); by split|intros y ->].
    destruct x as [[[caller|] ms]|]; [|by apply inspects_ret..].
    destruct Hok as [Hms _]. destruct (no_progress c caller); [by apply inspects_ret|].
    eapply inspects_bind; [apply inspects_get|intros d _].
    eapply inspects_bind; [apply mapped_path_inspects|intros [path|] _]; [|by apply inspects_ret].
    apply IH; [done|]. unfold size_of in *. rewrite length_app. simpl. lia.
Qed.

Lemma build_frames_inspects elf cfi :
  size_of (eh_section cfi) <= i64_max -> inspects (rs_dst r0) (fun _ => True) (build_inspection_frames elf cfi 64).
Proof.
  intros Hcfi. unfold build_inspection_frames. apply inspects_guard; intros _.
  eapply inspects_bind; [apply current_frame_inspects|intros frame _]. destruct (64 =? 1); [by apply inspects_ret|].
  apply inspection_loop_inspects; [done|constructor|]. unfold size_of. simpl. lia.
Qed.

(** ** What a pointer member leads to *)

Lemma validated_pointee_flat m context :
  validate_terminal_member m context = Ok tt -> sm_kind m = KPointer ->
  forall p, sm_pointee_type m = Some p -> pt_kind p = KStructure ->
  Forall flat_member (vt_members (selected_pointee p)).
Proof.
  unfold validate_terminal_member. intros Hv Hk p Hp Hs. inv_res. rewrite Hk, Hp in *. unfold validate_pointee in *.
  rewrite Hs in *. inv_res. unfold selected_pointee. cbn [vt_members]. rewrite bool_decide_true by done.
  apply Forall_map, Forall_forall. intros n Hn. split; [done|]. simpl.
  match goal with E : existsb _ _ = false |- _ => rewrite <- not_true_iff_false, existsb_exists in E; intros Hkind; apply E end.
  exists n. split; [by apply list_elem_of_In|]. unfold bad_pointee_member. rewrite Hkind. by rewrite bool_decide_true.
Qed.

Lemma aggregate_member_pointee aggregate name :
  yields (fun m => sm_kind m = KPointer -> exists p, sm_pointee_type m = Some p /\
            (pt_kind p = KStructure -> Forall flat_member (vt_members (selected_pointee p))))
    (aggregate_member aggregate name).
Proof.
  unfold aggregate_member. apply yields_guard; intros _. apply yields_guard; intros _.
  destruct (member_named _ _) as [m|]; [|done]. apply yields_guard; intros _.
  apply yields_bind with (fun _ => sm_kind m <> KPointer \/
    validate_terminal_member m "selected-inline aggregate member" = Ok tt).
  - destruct (decide (sm_kind m = KStructure)) as [E|E].
    + rewrite bool_decide_true by done. apply yields_guard; intros _.
      eapply yields_weaken; [|apply settles_yields, validate_children_settles]. intros _ _. left. by rewrite E.
    + rewrite bool_decide_false by done.
      eapply yields_weaken; [|apply settles_yields, validate_terminal_settles]. intros [] Hv. by right.
  - intros _ [Hn|Hv] Hk; [done|]. destruct (validate_terminal_pointer _ _ Hv Hk) as [p Hp]. exists p. split; [done|].
    by eapply validated_pointee_flat.
Qed.

Lemma selected_member_flat aggregate name : yields flat_pointee (inspect_local_aggregate_member aggregate name).
Proof.
  unfold inspect_local_aggregate_member. eapply yields_bind; [apply aggregate_member_pointee|intros m Hm].
  eapply yields_bind; [apply copy_storage_yields|intros v [_ (st & mo & f & o & ->)]].
  destruct (sm_kind m) eqn:Hk; try by apply no_pointee_flat.
  destruct (Hm Hk) as (p & -> & Hp). intros t [= <-]. simpl. apply Hp.
Qed.

Lemma array_element_settles array index : 0 <= index -> settles (inspect_local_array_element array index).
Proof. intros Hi. by eapply yields_settles, array_element_value. Qed.

Lemma union_member_settles value name : settles (inspect_local_union_member value name).
Proof.
  unfold inspect_local_union_member. apply settles_bind.
  - unfold InlineMember.union_member, runtime_error. settles_auto.
  - intros m _. by eapply yields_settles, copy_storage_yields.
Qed.

(** ** The commands *)

Lemma parse_whole_yields text base bad : 0 <= base -> yields (fun z => 0 <= z) (parse_whole text base bad).
Proof.
  intros Hb. unfold parse_whole. eapply yields_bind; [by apply std_stoull_range|intros [v n] Hv].
  apply yields_guard; intros _. by apply Hv.
Qed.

Lemma print_pointee_observes kept bad v : watches kept (fun _ => True) (print_pointee bad v).
Proof.
  unfold print_pointee. apply observes_guard; intros _. peek.
  eapply observes_bind; [apply print_integer_observes|intros; apply calm_observes, calm_out].
Qed.

Lemma registers_run kept s : at_rest r0 p0 kept s -> exists regs, on_debugger registers s = (Ok regs, s).
Proof.
  intros (<- & _). exists (k_regs (st_world (rs_dst (lc_rst s))) tid). unfold on_debugger, on_registry, with_debugger, zoom.
  rewrite (registers_same _ tid Ht). by destruct s as [[] ? ? ?].
Qed.

Lemma regs_calm kept : calm r0 p0 kept regs_command.
Proof.
  intros s Hs. unfold regs_command. destruct (registers_run kept s Hs) as [regs E]. unfold mbind, M_bind. rewrite E.
  by apply (calm_mfor r0 p0 kept); [intros [name value]; apply calm_out|].
Qed.

Lemma reg_calm kept input : calm r0 p0 kept (reg_command input).
Proof.
  intros s Hs. unfold reg_command. cbv zeta. destruct (registers_run kept s Hs) as [regs E]. unfold mbind, M_bind. rewrite E.
  destruct (register_value regs _); by apply calm_out.
Qed.

Lemma locals_inspects elf frame : inspects (rs_dst r0) (fun _ => True) (discover_live_local_values elf frame).
Proof.
  unfold discover_live_local_values. eapply inspects_bind; [by eapply validate_inspects|intros _ _]. cbv zeta.
  eapply inspects_bind; [by apply open_elf_inspects|intros module _].
  eapply inspects_bind; [apply inspects_load_bias|intros bias _]. apply inspects_guard; intros _.
  eapply inspects_bind; [by apply inspects_lift, read_debug_sections_yields|intros sections Hs].
  eapply inspects_bind; [by apply inspects_settles, read_debug_ranges_settles|intros ranges _].
  eapply inspects_bind; [apply inspects_lift, search_units_yields; intros; by apply catalogue_unit_yields|intros r _].
  destruct r; [by apply inspects_ret|apply inspects_throw].
Qed.

Lemma locals_calm kept input : calm r0 p0 kept (locals_command input).
Proof.
  unfold locals_command. destruct (negb _); [apply calm_out|]. apply calm_attempt.
  eapply observes_bind; [apply source_frame_observes|intros frame _]. peek.
  eapply observes_bind; [apply observes_debugger, locals_inspects|intros entries _].
  apply observes_mfor. intros e. apply calm_observes, calm_out.
Qed.

Lemma print_calm kept input : calm r0 p0 kept (print_command input).
Proof.
  unfold print_command. cbv zeta. destruct (missing _); [apply calm_out|]. apply calm_attempt.
  eapply observes_bind; [apply source_value_observes|intros v _]. peek.
  eapply observes_bind; [apply print_value_content_observes|intros; apply calm_observes, calm_out].
Qed.

Lemma deref_calm kept input : calm r0 p0 kept (deref_command input).
Proof.
  unfold deref_command. cbv zeta. destruct (_ || _); [apply calm_out|]. apply calm_attempt.
  eapply observes_bind; [apply source_frame_observes|intros frame _]. peek.
  eapply observes_bind; [|intros v _; apply print_pointee_observes]. apply observes_debugger.
  unfold dereference_local_pointer.
  eapply inspects_bind; [by eapply inspect_frame_value_inspects|intros p Hp]. by eapply dereference_inspects.
Qed.

Lemma two_words_calm kept usage failed input run :
  (forall a b, watches kept (fun _ => True) (run a b)) -> calm r0 p0 kept (two_word_command usage failed input run).
Proof. intros Hr. unfold two_word_command. cbv zeta. destruct (_ || _); [apply calm_out|by apply calm_attempt]. Qed.

Lemma array_element_calm kept input : calm r0 p0 kept (array_element_command input).
Proof.
  apply two_words_calm. intros name index.
  eapply observes_bind; [apply observes_lift, parse_whole_yields; lia|intros i Hi].
  eapply observes_bind; [apply source_value_observes|intros v _].
  eapply observes_bind; [apply observes_lift, settles_yields, array_element_settles, Hi|intros; apply calm_observes, calm_out].
Qed.

Lemma aggregate_member_calm kept input : calm r0 p0 kept (aggregate_member_command input).
Proof.
  apply two_words_calm. intros name member. eapply observes_bind; [apply source_value_observes|intros v _].
  eapply observes_bind; [apply observes_lift, selected_member_flat|intros m _]. peek.
  eapply (observes_bind _ _ _ (fun _ => True)); [|intros; apply calm_observes, calm_out]. unfold print_member_content.
  destruct (lv_kind m); try apply observes_throw; try apply print_integer_observes; try apply calm_observes, calm_out.
  destruct (lv_enum_type m); [apply calm_observes, calm_out|apply observes_throw].
Qed.

Lemma deref_member_calm kept input : calm r0 p0 kept (deref_aggregate_member_command input).
Proof.
  apply two_words_calm. intros name member. eapply observes_bind; [apply source_value_observes|intros v _].
  eapply observes_bind; [apply observes_lift, selected_member_flat|intros m Hm].
  eapply observes_bind; [apply source_frame_observes|intros frame _].
  eapply observes_bind; [|intros p _; apply print_pointee_observes]. apply observes_debugger. unfold dereference_read_pointer.
  eapply inspects_bind; [by eapply validate_inspects|intros _ _]. by eapply dereference_inspects.
Qed.

Lemma union_member_calm kept input : calm r0 p0 kept (union_member_command input).
Proof.
  apply two_words_calm. intros name member. eapply observes_bind; [apply source_value_observes|intros v _].
  eapply observes_bind; [apply observes_lift, settles_yields, union_member_settles|intros; apply calm_observes, calm_out].
Qed.

Lemma frame_calm input : calm r0 p0 None (frame_command input).
Proof.
  unfold frame_command. cbv zeta. destruct (_ || _); [apply calm_out|]. apply calm_attempt.
  eapply observes_bind; [apply observes_lift, parse_whole_yields; lia|intros i Hi]. peek.
  eapply observes_bind; [by apply observes_lift, live_eh_frame_yields|intros cfi Hcfi]. apply observes_guard; intros _.
  eapply observes_bind; [apply observes_debugger, build_frames_inspects, Hcfi|intros frames _].
  destruct (frames !! _) as [f|]; [|apply observes_throw].
  eapply (observes_bind _ _ _ (fun _ => True)); [|intros; apply calm_observes, calm_out].
  intros s (H1 & H2 & _). by do 2 eexists.
Qed.
End Inspecting.

(** The commands that look at the stopped thread. *)
Definition inspection_commands : list string :=
  ["regs"; "reg"; "frame"; "locals"; "print"; "deref"; "array-element"; "aggregate-member"; "deref-aggregate-member";
   "union-member"].

(** C26: an inspection command at the prompt of a stopped thread always comes back to the
    prompt: whatever the words of the line, the frame that is selected, the file of the
    program and its debug information, no exception of it reaches the loop.  The debugger,
    the kernel, the breakpoints and the path substitutions stay as they were, and so does the
    selected frame, unless the command is [frame]. *)
Theorem inspection_command_contained `{FA : FileAccess} `{H : Host} `{FI : FileIdentity} `{K : Kernel} `{L : !KernelLaws K}
    `{PM : !ProcMaps K} `{T : TextFiles} fuel (s : live_cli) tid line command input :
  (forall path bytes, h_file path = FileBytes bytes -> file_sized bytes) -> tracee (rs_dst (lc_rst s)) tid ->
  next_token line = Some (command, input) -> command ∈ inspection_commands ->
  exists s', run_line fuel line s = (Ok false, s') /\ lc_rst s' = lc_rst s /\ lc_paths s' = lc_paths s /\
    (command <> "frame" -> lc_frame s' = lc_frame s).
Proof.
  intros Hfiles Ht Htoken Hin. unfold run_line. rewrite Htoken.
  assert (Hrun : forall kept m, calm (lc_rst s) (lc_paths s) kept m -> at_rest (lc_rst s) (lc_paths s) kept s ->
    exists s', (_ ← m; mret false) s = (Ok false, s') /\ at_rest (lc_rst s) (lc_paths s) kept s').
  { intros kept m Hm Hs. destruct (Hm s Hs) as (s' & Hr & Hs'). exists s'. unfold mbind, M_bind. by rewrite Hr. }
  assert (Hkeep : forall m, calm (lc_rst s) (lc_paths s) (Some (lc_frame s)) m ->
    exists s', (_ ← m; mret false) s = (Ok false, s') /\ lc_rst s' = lc_rst s /\ lc_paths s' = lc_paths s /\
      (command <> "frame" -> lc_frame s' = lc_frame s)).
  { intros m Hm. destruct (Hrun _ m Hm) as (s' & ? & ? & ? & ?); [by repeat split|]. by exists s'. }
  unfold inspection_commands in Hin. rewrite !elem_of_cons, elem_of_nil in Hin.
  repeat destruct Hin as [->|Hin]; try done.
  - by eapply (Hkeep regs_command), regs_calm.
  - by eapply (Hkeep (reg_command input)), reg_calm.
  - destruct (Hrun None (frame_command input)) as (s' & ? & ? & ? & ?); [by eapply frame_calm|by repeat split|].
    by exists s'.
  - by eapply (Hkeep (locals_command input)), locals_calm.
  - by eapply (Hkeep (print_command input)), print_calm.
  - by eapply (Hkeep (deref_command input)), deref_calm.
  - by eapply (Hkeep (array_element_command input)), array_element_calm.
  - by eapply (Hkeep (aggregate_member_command input)), aggregate_member_calm.
  - by eapply (Hkeep (deref_aggregate_member_command input)), deref_member_calm.
  - by eapply (Hkeep (union_member_command input)), union_member_calm.
Qed.

(** ** A session with the process of [LiveValuesProofs] *)

Definition NoText : TextFiles := {| f_lines _ := None |}.
Definition demo_live : live_cli (K := SimKernel) :=
  mkLiveCli (mkRst (new_registry live_preferred) demo_cfi_dst) None [] empty_stream.

Definition run_demo (line : string) : res bool * live_cli (K := SimKernel) :=
  run_line (FA := NoFiles) (H := LiveHost) (FI := DemoIdentity) (PM := DemoMaps) (T := NoText) 10 line demo_live.

Example demo_print : (fst (run_demo "print total"), os_text (lc_out (snd (run_demo "print total")))) =
  (Ok false, "total = 4198673" +:+ nl).
Proof. vm_compute. reflexivity. Qed.

Lemma inspection_command_contained_witness :
  exists s', run_demo "print total" = (Ok false, s') /\ lc_rst s' = lc_rst demo_live /\
    lc_frame s' = None /\ os_text (lc_out s') = "total = 4198673" +:+ nl.
Proof.
  destruct (inspection_command_contained (FA := NoFiles) (H := LiveHost) (FI := DemoIdentity) (L := SimKernelLaws)
    (PM := DemoMaps) (T := NoText) 10 demo_live 100 "print total" "print" " total" live_files_sized demo_cfi_tracee)
    as (s' & Hr & H1 & _ & H2); [reflexivity|unfold inspection_commands; set_solver|].
  pose proof demo_print as E. unfold run_demo in *. rewrite Hr in E. injection E as E.
  exists s'. split; [exact Hr|]. split; [exact H1|]. split; [by apply H2|exact E].
Defined.

(** Memory that cannot be read ends the program: [x] has no handler. *)
Lemma unreadable_memory_ends_the_program :
  fst (command_loop (FA := NoFiles) (H := LiveHost) (FI := DemoIdentity) (PM := DemoMaps) (T := NoText) 10
         ["x 0x7000"; "continue"] demo_live) = Throw (Exn (PtraceError 5) "PTRACE_PEEKDATA").
Proof. vm_compute. reflexivity. Qed.
