(* ===== verification/LiveSession.v ===== *)
(** * What a live session keeps

    Every command of the live debugger acts on its objects through their public methods.  An
    invariant those methods keep is therefore one of the session, whatever lines are read and
    whatever the commands throw: the debugger and the registry stay reachable ones.  A
    breakpoint that is set and deleted at the prompt leaves memory as it was.  The frame a
    command selects belongs to the stop the session is at, for as long as it is selected. *)

From S2P Require Import SourceStep.
From S2P Require Import Prelude Machine SimKernel Ptrace Process DebuggerState Debugger DebuggerWait DebuggerInvariants DebuggerReach Breakpoints ByteReader ElfFormat EhFrame Elf ModuleMap Unwind UnwindProofs.
From S2P Require Import SourcePath Registry RegistryProofs LocalValue InlineMember DebugScopes LiveValues LiveValuesProofs CliText CliTextProofs CoreCli LivePrint LiveCli LiveCliProofs.
From S2P Require Loader FramePointer CallDecoder CoreCliProofs EhFrameSignalProofs.

(** ** Methods of the debugger that only read *)

(** [I] of the debugger. *)
Definition holds `{K : Kernel} (I : debugger -> Prop) (s : dst) : Prop := I (st_debugger s).

Section Reading.
Context `{H : Host} `{FI : FileIdentity} `{K : Kernel} `{PM : !ProcMaps K}.
Variable I : debugger -> Prop.

#[local] Abbreviation kept := (preserves (holds I)).

Lemma kept_pure {A} (m : M dst A) : pure_of m -> kept m.
Proof. intros Hm s Hs. unfold holds. by rewrite Hm. Qed.
Lemma kept_kernel {A} (m : M world A) : kept (kernel m).
Proof. apply kept_pure, pure_kernel. Qed.
Lemma kept_get : kept get_debugger.
Proof. by apply kept_pure. Qed.
#[local] Hint Resolve kept_kernel kept_get : mdbg.

Lemma kept_stopped_tid : kept stopped_tid.
Proof. apply kept_pure, pure_stopped_tid. Qed.
#[local] Hint Resolve kept_stopped_tid : mdbg.
Lemma kept_registers : kept registers.
Proof. unfold registers. preserves_auto. Qed.
Lemma kept_read_memory a n : kept (read_memory a n).
Proof. unfold read_memory. preserves_auto. Qed.
#[local] Hint Resolve kept_registers kept_read_memory : mdbg.

(** *** Frames *)

Lemma kept_resolve_frame section cursor end_ cie start target register :
  kept (resolve_frame read_memory section cursor end_ cie start target register).
Proof. unfold resolve_frame, read_cfi_slot. preserves_auto. Qed.
#[local] Hint Resolve kept_resolve_frame : mdbg.
Lemma kept_evaluate_loop n section address target register cies entry :
  kept (evaluate_loop read_memory n section address target register cies entry).
Proof. revert cies entry. induction n; intros; cbn [evaluate_loop]; preserves_auto. Qed.
#[local] Hint Resolve kept_evaluate_loop : mdbg.
Lemma kept_caller_frame cfi elf current : kept (caller_frame cfi elf current).
Proof.
  unfold caller_frame, caller_frame_with, evaluate_frame, recover_frame_pointer, recover_rbx, recover_register,
    read_cfi_slot. preserves_auto.
Qed.
Lemma kept_caller_return_address cfi elf : kept (caller_return_address cfi elf).
Proof. unfold caller_return_address, evaluate_frame. preserves_auto. Qed.
#[local] Hint Resolve kept_caller_frame kept_caller_return_address : mdbg.

Lemma kept_module_return_address elf cfi : kept (module_caller_return_address elf cfi).
Proof. unfold module_caller_return_address. preserves_auto. Qed.
Lemma kept_current_frame : kept current_inspection_frame.
Proof. unfold current_inspection_frame. preserves_auto. Qed.
Lemma kept_try_caller elf cfi current modules : kept (try_caller elf cfi current modules).
Proof. unfold try_caller, caller_for_cursor. preserves_auto. Qed.
#[local] Hint Resolve kept_current_frame kept_try_caller : mdbg.
Lemma kept_inspection_loop n elf cfi max context current modules frames :
  kept (inspection_loop n elf cfi max context current modules frames).
Proof. revert current modules frames. induction n; intros; cbn [inspection_loop]; preserves_auto. Qed.
Lemma kept_unwind_cfi_loop n elf cfi max current modules frames :
  kept (unwind_cfi_loop n elf cfi max current modules frames).
Proof. revert current modules frames. induction n; intros; cbn [unwind_cfi_loop]; preserves_auto. Qed.
#[local] Hint Resolve kept_inspection_loop kept_unwind_cfi_loop : mdbg.
Lemma kept_build_frames elf cfi max : kept (build_inspection_frames elf cfi max).
Proof. unfold build_inspection_frames. preserves_auto. Qed.
Lemma kept_unwind_eh_frame elf cfi max : kept (unwind_eh_frame elf cfi max).
Proof. unfold unwind_eh_frame. preserves_auto. Qed.

Lemma kept_unwind_loop n max span fp frames : kept (FramePointer.unwind_loop n max span fp frames).
Proof.
  revert fp frames. induction n; intros; cbn [FramePointer.unwind_loop]; unfold FramePointer.catch_ptrace; preserves_auto.
Qed.
#[local] Hint Resolve kept_unwind_loop : mdbg.
Lemma kept_unwind_frame_pointers max span : kept (FramePointer.unwind_frame_pointers max span).
Proof. unfold FramePointer.unwind_frame_pointers. preserves_auto. Qed.

(** *** Values *)

Lemma kept_read_integer a n : kept (read_integer a n).
Proof. unfold read_integer. preserves_auto. Qed.
Lemma kept_read_value_bytes a t short : kept (read_value_bytes a t short).
Proof. unfold read_value_bytes. preserves_auto. Qed.
Lemma kept_validate frame : kept (validate_inspection_frame frame).
Proof. unfold validate_inspection_frame. preserves_auto. Qed.
#[local] Hint Resolve kept_read_integer kept_read_value_bytes kept_validate : mdbg.
Lemma kept_dereference_chain n expression cursor count value :
  kept (dereference_chain n expression cursor count value).
Proof. revert cursor count value. induction n; intros; cbn [dereference_chain]; preserves_auto. Qed.
#[local] Hint Resolve kept_dereference_chain : mdbg.

Lemma kept_live_value module die name t expression : kept (live_value module die name t expression).
Proof.
  unfold live_value, whole_register, computed_scalar, live_stack_value, evaluate_entry_rdi, evaluate_breg5_stack_value,
    evaluate_breg5_memory_address, evaluate_composite_stack_value, frame_base. preserves_auto.
Qed.
Lemma kept_caller_value module frame die name root expression : kept (caller_value module frame die name root expression).
Proof. unfold caller_value, caller_stack_value, caller_frame_base. preserves_auto. Qed.
#[local] Hint Resolve kept_live_value kept_caller_value : mdbg.

Lemma kept_live_units n query limit unit : (forall u, kept (query u)) -> kept (live_units n query limit unit).
Proof. intros Hq. revert unit. induction n; intros; cbn [live_units]; preserves_auto. Qed.
Lemma kept_inspect_current_value elf name : kept (inspect_current_value elf name).
Proof.
  unfold inspect_current_value, search_live_units.
  assert (Hu : forall sections module pc u, kept (inspect_unit sections module pc name u))
    by (intros; unfold inspect_unit; preserves_auto).
  preserves_auto. by apply kept_live_units.
Qed.
#[local] Hint Resolve kept_inspect_current_value : mdbg.
Lemma kept_inspect_local_value elf frame name : kept (LiveValues.inspect_local_value elf frame name).
Proof.
  unfold LiveValues.inspect_local_value, search_live_units.
  assert (Hu : forall sections module pc u, kept (inspect_caller_stack_unit sections module frame pc name u))
    by (intros; unfold inspect_caller_stack_unit; preserves_auto).
  preserves_auto. by apply kept_live_units.
Qed.
#[local] Hint Resolve kept_inspect_local_value : mdbg.
Lemma kept_dereference elf frame name : kept (LiveValues.dereference_local_pointer elf frame name).
Proof. unfold LiveValues.dereference_local_pointer, dereference_materialized_live_pointer. preserves_auto. Qed.
Lemma kept_dereference_read frame value : kept (dereference_read_pointer frame value).
Proof. unfold dereference_read_pointer, dereference_materialized_live_pointer. preserves_auto. Qed.
Lemma kept_discover elf frame : kept (discover_live_local_values elf frame).
Proof. unfold discover_live_local_values. preserves_auto. Qed.
Lemma kept_set_register name value : kept (set_register name value).
Proof. unfold set_register. preserves_auto. Qed.
End Reading.

#[export] Hint Resolve kept_kernel kept_get kept_stopped_tid kept_registers kept_read_memory kept_caller_frame
  kept_caller_return_address kept_module_return_address kept_current_frame kept_build_frames
  kept_unwind_eh_frame kept_unwind_frame_pointers kept_read_integer kept_read_value_bytes
  kept_validate kept_inspect_current_value kept_inspect_local_value kept_dereference
  kept_dereference_read kept_discover kept_set_register : mdbg.

(** ** Invariants of the debugger *)

(** Kept by the calls that leave the process stopped where it is. *)
Class QuietInvariant `{K : Kernel} (I : debugger -> Prop) : Prop := {
  quiet_add : forall address, preserves (holds I) (add_breakpoint address);
  quiet_remove : forall id, preserves (holds I) (remove_breakpoint id);
  quiet_discard : forall id, preserves (holds I) (discard_breakpoint id);
  quiet_write : forall address bytes, preserves (holds I) (write_memory address bytes);
  quiet_policy : forall policy, preserves (holds I) (set_fork_follow_policy policy)
}.

(** Kept by every call of the command line. *)
Class CallInvariant `{K : Kernel} (I : debugger -> Prop) : Prop := {
  call_quiet :: QuietInvariant I;
  call_continue : forall fuel policy, preserves (holds I) (continue_execution fuel policy);
  call_single_step : forall fuel policy, preserves (holds I) (single_step fuel policy);
  call_select_process : forall fuel pid, preserves (holds I) (select_process fuel pid);
  call_select_thread : forall tid, preserves (holds I) (select_thread tid);
  call_detach : forall policy, preserves (holds I) (detach policy)
}.

#[export] Hint Resolve quiet_add quiet_remove quiet_discard quiet_write quiet_policy call_continue
  call_single_step call_select_process call_select_thread call_detach : mdbg.

(** ** The clients of the debugger *)

Section Clients.
Context `{FA : FileAccess} `{H : Host} `{FI : FileIdentity} `{K : Kernel} `{PM : !ProcMaps K}.
Variable fuel : nat.
Context (I : debugger -> Prop) `{!QuietInvariant I}.

(** *** Deferred breakpoints *)

Definition lst_holds (s : Loader.lst) : Prop := I (st_debugger (Loader.ls_dst s)).
#[local] Abbreviation lkept := (preserves lst_holds).

Lemma lkept_debugger {A} (m : M dst A) : preserves (holds I) m -> lkept (Loader.on_debugger m).
Proof.
  intros Hm s Hs. specialize (Hm (Loader.ls_dst s) Hs). unfold Loader.on_debugger, zoom. by destruct (m _).
Qed.
Lemma lkept_object f : lkept (Loader.upd_object f).
Proof. by intros s. Qed.
#[local] Hint Resolve lkept_debugger lkept_object : mdbg.

Lemma kept_rendezvous o : preserves (holds I) (Loader.current_r_debug_address o).
Proof.
  unfold Loader.current_r_debug_address, Loader.runtime_address, Loader.load_bias, Loader.debugger_pid, Loader.read_u64.
  preserves_auto.
Qed.
Lemma kept_resolve_target o target : preserves (holds I) (Loader.resolve_target o target).
Proof. unfold Loader.resolve_target, Loader.debugger_pid. preserves_auto. Qed.
#[local] Hint Resolve kept_rendezvous kept_resolve_target : mdbg.

Lemma lkept_install i address : lkept (Loader.install_internal i address).
Proof. unfold Loader.install_internal. preserves_auto. Qed.
#[local] Hint Resolve lkept_install : mdbg.
Lemma lkept_try_install : lkept Loader.try_install_loader_breakpoint.
Proof.
  assert (Hb : forall o, preserves (holds I) (Loader.current_loader_break_address o))
    by (intros; unfold Loader.current_loader_break_address; preserves_auto).
  unfold Loader.try_install_loader_breakpoint, Loader.get_object. preserves_auto.
Qed.
#[local] Hint Resolve lkept_try_install : mdbg.
Lemma lkept_ensure : lkept Loader.ensure_monitoring.
Proof.
  assert (Hr : forall o a, preserves (holds I) (Loader.runtime_address o a))
    by (intros; unfold Loader.runtime_address, Loader.load_bias, Loader.debugger_pid; preserves_auto).
  unfold Loader.ensure_monitoring, Loader.install_bootstrap_breakpoint, Loader.get_object. preserves_auto.
Qed.
Lemma lkept_remove_internal i : lkept (Loader.remove_internal_breakpoint i).
Proof.
  assert (Hd : forall id, preserves (holds I) (state ← Loader.debugger_state;
    mwhen (bool_decide (state = Stopped)) (_ ← remove_breakpoint id; mskip)))
    by (intros; unfold Loader.debugger_state; preserves_auto).
  unfold Loader.remove_internal_breakpoint, Loader.get_object. preserves_auto.
Qed.
#[local] Hint Resolve lkept_ensure lkept_remove_internal : mdbg.
Lemma lkept_suspend : lkept Loader.suspend_monitoring.
Proof. unfold Loader.suspend_monitoring. preserves_auto. Qed.
#[local] Hint Resolve lkept_suspend : mdbg.

Lemma lkept_add_target target : lkept (Loader.add_target target).
Proof.
  assert (Hn : forall o id, preserves (holds I) (Loader.new_request o id target))
    by (intros; unfold Loader.new_request; preserves_auto).
  assert (Hs : preserves (holds I) Loader.debugger_state) by (unfold Loader.debugger_state; preserves_auto).
  unfold Loader.add_target, Loader.withdraw_request, Loader.erase_request, Loader.get_object. preserves_auto.
Qed.
#[local] Hint Resolve lkept_add_target : mdbg.
Lemma lkept_remove id : lkept (Loader.remove id).
Proof.
  unfold Loader.remove, Loader.erase_request, Loader.stop_monitoring_if_idle, Loader.get_object. preserves_auto.
Qed.
Lemma lkept_reconcile : lkept Loader.reconcile_if_consistent.
Proof.
  assert (Hl : forall o, preserves (holds I) (Loader.loader_state_is_consistent o))
    by (intros; unfold Loader.loader_state_is_consistent; preserves_auto).
  assert (Hr : forall id, lkept (Loader.reconcile_request id))
    by (intros; unfold Loader.reconcile_request, Loader.keep_or_discard, Loader.upd_request, Loader.get_object; preserves_auto).
  unfold Loader.reconcile_if_consistent, Loader.reconcile_requests, Loader.get_object. preserves_auto.
Qed.
#[local] Hint Resolve lkept_remove lkept_reconcile : mdbg.
Lemma lkept_handle_internal_stop stop : lkept (Loader.handle_internal_stop stop).
Proof. unfold Loader.handle_internal_stop, Loader.get_object. preserves_auto. Qed.
#[local] Hint Resolve lkept_handle_internal_stop : mdbg.
Lemma lkept_continue `{!CallInvariant I} policy : lkept (Loader.continue_execution fuel policy).
Proof.
  assert (Hl : forall n policy, lkept (Loader.continue_loop fuel n policy)).
  { induction n as [|n IH]; intros; cbn [Loader.continue_loop]; unfold Loader.get_object; preserves_auto. }
  unfold Loader.continue_execution. preserves_auto.
Qed.
#[local] Hint Resolve lkept_continue : mdbg.
(** *** The registry *)

Definition rst_holds (s : rst) : Prop := I (st_debugger (rs_dst s)).
#[local] Abbreviation rkept := (preserves rst_holds).

Lemma rkept_debugger {A} (m : M dst A) : preserves (holds I) m -> rkept (with_debugger m).
Proof. intros Hm s Hs. specialize (Hm (rs_dst s) Hs). unfold with_debugger, zoom. by destruct (m _). Qed.
Lemma rkept_registry f : rkept (upd_registry f).
Proof. by intros s. Qed.
Lemma rkept_controller {A} pid (m : M Loader.lst A) : lkept m -> rkept (with_controller pid m).
Proof.
  intros Hm s Hs. unfold with_controller. destruct (_ ≫= _) as [o|]; [|done].
  specialize (Hm (Loader.mkLst o (rs_dst s)) Hs). by destruct (m _).
Qed.
#[local] Hint Resolve rkept_debugger rkept_registry rkept_controller : mdbg.
Lemma rkept_pid : rkept get_pid.
Proof. unfold get_pid. preserves_auto. Qed.
Lemma rkept_domain pid f : rkept (upd_domain pid f).
Proof. apply rkept_registry. Qed.
#[local] Hint Resolve rkept_pid rkept_domain : mdbg.
Lemma rkept_enter pid entry : rkept (enter pid entry).
Proof. unfold enter, get_registry. preserves_auto. Qed.
#[local] Hint Resolve rkept_enter : mdbg.
Lemma rkept_add_address address expression : rkept (add_address address expression).
Proof. unfold add_address. preserves_auto. Qed.
#[local] Hint Resolve rkept_add_address : mdbg.
Lemma rkept_add_deferred expression request : lkept request -> rkept (add_deferred expression request).
Proof. intros Hr. unfold add_deferred, ensure_deferred, get_registry. preserves_auto. Qed.
Lemma rkept_add_symbol symbol : rkept (add_user_symbol symbol).
Proof.
  unfold add_user_symbol, get_registry, Loader.add_symbol. preserves_auto. apply rkept_add_deferred. preserves_auto.
Qed.
Lemma rkept_add_source file line expression : rkept (add_user_source file line expression).
Proof.
  unfold add_user_source, get_registry, Loader.add_source. preserves_auto. apply rkept_add_deferred. preserves_auto.
Qed.
Lemma rkept_remove id : rkept (remove_user id).
Proof. unfold remove_user, remove_backend, get_registry. preserves_auto. Qed.
Lemma rkept_image_replaced : rkept on_image_replaced.
Proof. unfold on_image_replaced, Loader.destroy_deferred, get_registry. preserves_auto. Qed.
Lemma rkept_continue `{!CallInvariant I} policy : rkept (continue_user fuel policy).
Proof. unfold continue_user, get_registry. preserves_auto. Qed.

(** *** Source motion *)

Lemma kept_module_source elf : preserves (holds I) (current_module_source elf).
Proof. unfold current_module_source. preserves_auto. Qed.
Lemma kept_call_return_address : preserves (holds I) supported_call_return_address.
Proof.
  assert (Hb : forall rip o, preserves (holds I) (instruction_byte rip o)) by (intros; unfold instruction_byte; preserves_auto).
  unfold supported_call_return_address, CallDecoder.decode_supported_near_call_length. preserves_auto.
Qed.
#[local] Hint Resolve kept_module_source kept_call_return_address : mdbg.

Context `{!CallInvariant I}.

Lemma kept_remove_temporary what id : preserves (holds I) (remove_temporary_breakpoint what id).
Proof. unfold remove_temporary_breakpoint. preserves_auto. Qed.
#[local] Hint Resolve kept_remove_temporary : mdbg.
Lemma kept_run_to what address : preserves (holds I) (run_to fuel what address).
Proof. unfold run_to, set_temporary_breakpoint, continue_with_temporary. preserves_auto. Qed.
Lemma kept_step_instruction elf start n : preserves (holds I) (step_instruction fuel elf start n).
Proof. unfold step_instruction. preserves_auto. Qed.
#[local] Hint Resolve kept_run_to kept_step_instruction : mdbg.
Lemma kept_motion_loop turn n elf limit :
  (forall k, preserves (holds I) (turn k)) -> preserves (holds I) (motion_loop turn n elf limit).
Proof. intros Ht. induction n; cbn [motion_loop]; unfold limit_result; preserves_auto. Qed.
Lemma kept_start elf : preserves (holds I) (start_position elf).
Proof. unfold start_position. preserves_auto. Qed.
#[local] Hint Resolve kept_start : mdbg.
Lemma kept_step_source elf limit : preserves (holds I) (step_source fuel elf limit).
Proof. unfold step_source, validate_source_motion. preserves_auto. apply kept_motion_loop. auto with mdbg. Qed.
Lemma kept_next_source elf limit : preserves (holds I) (next_source fuel elf limit).
Proof.
  assert (Hn : forall start n, preserves (holds I) (next_instruction fuel elf start n))
    by (intros; unfold next_instruction; preserves_auto).
  unfold next_source, validate_source_motion. preserves_auto. by apply kept_motion_loop.
Qed.
Lemma kept_finish_frame : preserves (holds I) (finish_frame fuel).
Proof.
  assert (Hf : preserves (holds I) frame_pointer_return_address)
    by (unfold frame_pointer_return_address, read_frame_record; preserves_auto).
  assert (Ha : preserves (holds I) automatic_return_address) by (unfold automatic_return_address; preserves_auto).
  unfold finish_frame, run_to_return_address. preserves_auto.
Qed.
End Clients.

#[export] Hint Resolve rkept_debugger rkept_add_address rkept_add_symbol rkept_add_source rkept_remove
  rkept_image_replaced rkept_continue rkept_registry kept_step_source kept_next_source kept_finish_frame : mdbg.

(** ** The command line *)

(** An invariant of the registry under every call of it. *)
Class RegistryInvariant `{FA : FileAccess} `{H : Host} `{FI : FileIdentity} `{K : Kernel} `{PM : !ProcMaps K}
    (G : UserBreakpointRegistry -> Prop) : Prop :=
  registry_kept : forall fuel op, preserves (fun s : rst => G (rs_registry s)) (run_registry_op fuel op).

Section Commands.
Context `{FA : FileAccess} `{H : Host} `{FI : FileIdentity} `{K : Kernel} `{PM : !ProcMaps K} `{T : TextFiles}.
Variable fuel : nat.
Context (I : debugger -> Prop) `{!QuietInvariant I} (G : UserBreakpointRegistry -> Prop) `{!RegistryInvariant G}.
Variable F : option InspectionFrameContext -> Prop.

(** [I] of the debugger, [G] of the registry, [F] of the selected frame. *)
Definition cli_holds (s : live_cli) : Prop :=
  I (cli_debugger s) /\ G (rs_registry (lc_rst s)) /\ F (lc_frame s).
#[local] Abbreviation ckept := (preserves cli_holds).
#[local] Abbreviation gkept := (preserves (fun s : rst => G (rs_registry s))).

Lemma ckept_registry {A} (m : M rst A) : preserves (rst_holds I) m -> gkept m -> ckept (on_registry m).
Proof.
  intros Hm Hg s (Hs & Hg0 & Hf). specialize (Hm (lc_rst s) Hs). specialize (Hg (lc_rst s) Hg0).
  unfold on_registry, zoom. destruct (m (lc_rst s)). by repeat split.
Qed.
Lemma gkept_debugger {A} (m : M dst A) : gkept (with_debugger m).
Proof. intros s Hs. unfold with_debugger, zoom. by destruct (m _). Qed.
Lemma ckept_debugger {A} (m : M dst A) : preserves (holds I) m -> ckept (on_debugger m).
Proof. intros Hm. apply ckept_registry; [by apply rkept_debugger|apply gkept_debugger]. Qed.
Lemma ckept_world {A} (m : M world A) : ckept (on_world m).
Proof. apply ckept_debugger. auto with mdbg. Qed.
Lemma ckept_out l : ckept (out l).
Proof. intros s Hs. unfold out, zoom. by destruct (write l (lc_out s)). Qed.
Lemma ckept_excerpt file line path : ckept (print_source_excerpt file line path).
Proof. intros s Hs. unfold print_source_excerpt, zoom. by destruct (CoreCli.print_source_excerpt _ _ _ _ _). Qed.
Lemma ckept_frame f : F f -> ckept (set_frame f).
Proof. intros Hf s (Hs & Hg & _). by repeat split. Qed.
(** The calls of the registry, by what they do with the debugger. *)
Lemma gkept_ignored {A} (m : M rst A) : gkept (_ ← m; mskip) -> gkept m.
Proof. intros Hm s Hs. specialize (Hm s Hs). unfold mbind, M_bind in Hm. by destruct (m s) as [[]]. Qed.
#[local] Hint Resolve ckept_debugger ckept_world ckept_out ckept_excerpt : mdbg.
Lemma ckept_get_registry : ckept (on_registry get_registry).
Proof. by intros s Hs. Qed.
#[local] Hint Resolve ckept_get_registry : mdbg.
Lemma ckept_get_debugger : ckept get_cli_debugger.
Proof. by intros s Hs. Qed.
Lemma ckept_get_elf : ckept get_elf.
Proof. by intros s Hs. Qed.
Lemma ckept_pid : ckept cli_pid.
Proof. by intros s Hs. Qed.
Lemma ckept_stopped : ckept cli_stopped.
Proof. by intros s Hs. Qed.
#[local] Hint Resolve ckept_get_debugger ckept_get_elf ckept_pid ckept_stopped : mdbg.
Lemma ckept_current_pc : ckept current_pc.
Proof. unfold current_pc. preserves_auto. Qed.
#[local] Hint Resolve ckept_current_pc : mdbg.

(** *** Printing *)

Lemma ckept_print_stop info elf pid : ckept (print_stop info elf pid).
Proof. unfold print_stop, print_breakpoint_stop. preserves_auto. Qed.
Lemma ckept_print_addresses addresses elf : ckept (print_addresses addresses elf).
Proof. unfold print_addresses, print_symbolized_frame. preserves_auto. Qed.
#[local] Hint Resolve ckept_print_stop ckept_print_addresses : mdbg.
Lemma ckept_print_backtrace elf : ckept (print_backtrace elf).
Proof. unfold print_backtrace, print_cfi_backtrace. preserves_auto. Qed.
Lemma ckept_print_source_position address source module : ckept (print_source_position address source module).
Proof. unfold print_source_position. preserves_auto. Qed.
#[local] Hint Resolve ckept_print_backtrace ckept_print_source_position : mdbg.
Lemma ckept_print_source_location address elf : ckept (print_source_location address elf).
Proof. unfold print_source_location, print_module_position. preserves_auto. Qed.
Lemma ckept_print_motion operation result : ckept (print_source_motion_result operation result).
Proof. unfold print_source_motion_result, print_result_position. preserves_auto. Qed.
Lemma ckept_print_integer sg raw size : ckept (print_integer sg raw size).
Proof. unfold print_integer. preserves_auto. Qed.
#[local] Hint Resolve ckept_print_source_location ckept_print_motion ckept_print_integer : mdbg.
Lemma ckept_print_value value : ckept (print_value_content value).
Proof. unfold print_value_content. preserves_auto. Qed.
Lemma ckept_print_member value : ckept (print_member_content value).
Proof. unfold print_member_content. preserves_auto. Qed.
Lemma ckept_rejected : ckept reject_motion_with_pending_breakpoints.
Proof. unfold reject_motion_with_pending_breakpoints. preserves_auto. Qed.
#[local] Hint Resolve ckept_print_value ckept_print_member ckept_rejected : mdbg.
(** *** Commands that leave the process stopped where it is *)

Lemma ckept_attempt prefix m : ckept m -> ckept (attempt prefix m).
Proof. intros Hm. unfold attempt. preserves_auto. Qed.
Lemma ckept_say text : ckept (say text).
Proof. apply ckept_out. Qed.
#[local] Hint Resolve ckept_attempt ckept_say : mdbg.
Lemma ckept_source_value name : ckept (inspect_source_value name).
Proof. unfold inspect_source_value. preserves_auto. Qed.
Lemma ckept_source_frame : ckept source_inspection_frame.
Proof. unfold source_inspection_frame. preserves_auto. Qed.
#[local] Hint Resolve ckept_source_value ckept_source_frame : mdbg.

Lemma ckept_registry_op {A} (m : M rst A) op :
  preserves (rst_holds I) m -> run_registry_op fuel op = (_ ← m; mskip) -> ckept (on_registry m).
Proof. intros Hm E. apply ckept_registry; [done|]. apply gkept_ignored. rewrite <- E. apply registry_kept. Qed.

Lemma ckept_add_location location : ckept (on_registry (add_location location)).
Proof.
  unfold add_location. destruct (try_parse_address location) as [a|]; [|destruct (try_parse_source_spec location) as [sp|]].
  - eapply (ckept_registry_op _ (RegistryAddAddress a location)); auto with mdbg.
  - eapply (ckept_registry_op _ (RegistryAddSource (sp_file sp) (sp_line sp) location)); auto with mdbg.
  - eapply (ckept_registry_op _ (RegistryAddSymbol location)); auto with mdbg.
Qed.
Lemma ckept_remove_user id : ckept (on_registry (remove_user id)).
Proof. eapply (ckept_registry_op _ (RegistryRemove id)); auto with mdbg. Qed.
#[local] Hint Resolve ckept_add_location ckept_remove_user : mdbg.

(** The commands that change neither the execution state nor the selected frame, and those
    that write registers or memory. *)
Definition looks : list string :=
  ["regs"; "bt"; "line"; "list"; "l"; "locals"; "print"; "deref"; "array-element"; "aggregate-member";
   "deref-aggregate-member"; "union-member"; "set"; "reg"; "x"; "break"; "b"; "delete"; "info"; "symbols"].

Lemma ckept_stay (m : M live_cli unit) : ckept m -> ckept ((_ ← m; mret false) : M live_cli bool).
Proof. intros Hm. preserves_auto. Qed.

Lemma ckept_looks command input : F None -> command ∈ looks -> ckept (run_command fuel command input).
Proof.
  intros Hf Hin. assert (Hi : ckept invalidate_inspection_frame) by (by apply ckept_frame).
  unfold looks in Hin. rewrite !elem_of_cons, elem_of_nil in Hin.
  repeat destruct Hin as [->|Hin]; try done.
  all: apply ckept_stay.
  - unfold regs_command. preserves_auto.
  - unfold bt_command. preserves_auto.
  - unfold line_command. preserves_auto.
  - unfold list_command, print_current_location. preserves_auto.
  - unfold list_command, print_current_location. preserves_auto.
  - unfold locals_command, attempt. preserves_auto.
  - unfold print_command, attempt. preserves_auto.
  - unfold deref_command, print_pointee, attempt. preserves_auto.
  - unfold array_element_command, two_word_command, print_hex_value, attempt. preserves_auto.
  - unfold aggregate_member_command, two_word_command, attempt. preserves_auto.
  - unfold deref_aggregate_member_command, two_word_command, print_pointee, attempt. preserves_auto.
  - unfold union_member_command, two_word_command, print_hex_value, attempt. preserves_auto.
  - unfold set_command, set_fork_command, set_register_command, set_memory_command, substitute_path_command, attempt.
    preserves_auto.
  - unfold reg_command. preserves_auto.
  - unfold x_command. preserves_auto.
  - unfold break_command, attempt. preserves_auto.
  - unfold break_command, attempt. preserves_auto.
  - unfold delete_command. preserves_auto.
  - unfold info_command, print_user_breakpoint, print_process, print_thread. preserves_auto.
  - unfold symbols_command. preserves_auto.
Qed.
(** *** Commands that move *)

Context `{!CallInvariant I}.

Lemma ckept_reopen : ckept reopen_image.
Proof.
  unfold reopen_image. preserves_auto. apply ckept_registry; [auto with mdbg|].
  apply (registry_kept O (RegistryReferExecutable _)).
Qed.
Lemma ckept_refresh info : ckept (refresh_image info).
Proof.
  pose proof ckept_reopen. unfold refresh_image. preserves_auto.
  apply ckept_registry; [auto with mdbg|apply (registry_kept O RegistryImageReplaced)].
Qed.
#[local] Hint Resolve ckept_reopen ckept_refresh : mdbg.
Lemma ckept_report info : F None -> ckept (report_stop info).
Proof.
  intros Hf. assert (Hi : ckept invalidate_inspection_frame) by (by apply ckept_frame).
  unfold report_stop, print_current_stop. preserves_auto.
Qed.
#[local] Hint Resolve ckept_report : mdbg.

Definition moves : list string :=
  ["quit"; "q"; "detach"; "continue"; "c"; "stepi"; "si"; "step"; "s"; "next"; "n"; "finish"; "fin"; "process"; "thread"].

Lemma ckept_detach : ckept detach_and_say.
Proof. unfold detach_and_say. preserves_auto. Qed.
Lemma ckept_continue_user : ckept (on_registry (continue_user fuel Suppress)).
Proof. eapply (ckept_registry_op _ (RegistryContinue Suppress)); auto with mdbg. Qed.
#[local] Hint Resolve ckept_detach ckept_continue_user : mdbg.

Lemma ckept_source_motion next : F None -> ckept (source_motion_command fuel next).
Proof.
  intros Hf. assert (Hi : ckept invalidate_inspection_frame) by (by apply ckept_frame).
  assert (Hm : forall elf, preserves (holds I) (if next then next_source fuel elf 4096 else step_source fuel elf 4096))
    by (intros; destruct next; auto with mdbg).
  unfold source_motion_command, attempt. preserves_auto.
Qed.
Lemma ckept_finish : F None -> ckept (finish_command fuel).
Proof.
  intros Hf. assert (Hi : ckept invalidate_inspection_frame) by (by apply ckept_frame).
  unfold finish_command, print_current_stop, print_current_location, attempt. preserves_auto.
Qed.
#[local] Hint Resolve ckept_source_motion ckept_finish : mdbg.

Lemma ckept_moves command input : F None -> command ∈ moves -> ckept (run_command fuel command input).
Proof.
  intros Hf Hin. assert (Hi : ckept invalidate_inspection_frame) by (by apply ckept_frame).
  unfold moves in Hin. rewrite !elem_of_cons, elem_of_nil in Hin.
  repeat destruct Hin as [->|Hin]; try done.
  - unfold run_command. simpl. preserves_auto.
  - unfold run_command. simpl. preserves_auto.
  - unfold run_command. simpl. preserves_auto.
  - apply ckept_stay. unfold continue_command. preserves_auto.
  - apply ckept_stay. unfold continue_command. preserves_auto.
  - apply ckept_stay. unfold stepi_command. preserves_auto.
  - apply ckept_stay. unfold stepi_command. preserves_auto.
  - apply ckept_stay. by apply ckept_source_motion.
  - apply ckept_stay. by apply ckept_source_motion.
  - apply ckept_stay. by apply ckept_source_motion.
  - apply ckept_stay. by apply ckept_source_motion.
  - apply ckept_stay. by apply ckept_finish.
  - apply ckept_stay. by apply ckept_finish.
  - apply ckept_stay. unfold process_command, attempt. preserves_auto.
  - apply ckept_stay. unfold thread_command, attempt. preserves_auto.
Qed.

(** *** Lines *)

Lemma run_command_other command input :
  command ∉ looks -> command ∉ moves -> command <> "frame" ->
  run_command fuel command input = (_ ← help_command; mret false).
Proof.
  unfold looks, moves. rewrite !not_elem_of_cons. intros Hl Hm Hf. destruct_and!.
  unfold run_command. by rewrite !(proj2 (String.eqb_neq _ _)) by done.
Qed.

Lemma ckept_frame_command input : (forall f, F f) -> ckept (frame_command input).
Proof.
  intros Hf. assert (Hs : forall f, ckept (set_frame f)) by (intros; by apply ckept_frame).
  unfold frame_command, attempt. preserves_auto.
Qed.

Lemma ckept_line line : (forall f, F f) -> ckept (run_line fuel line).
Proof.
  intros Hf. unfold run_line. destruct (next_token line) as [[command input]|]; [|auto with mdbg].
  destruct (decide (command ∈ looks)); [by apply ckept_looks|].
  destruct (decide (command ∈ moves)); [by apply ckept_moves|].
  destruct (decide (command = "frame")) as [->|]; [by apply ckept_stay, ckept_frame_command|].
  rewrite run_command_other by done. apply ckept_stay. apply ckept_out.
Qed.

Lemma ckept_loop lines : (forall f, F f) -> ckept (command_loop fuel lines).
Proof.
  intros Hf. pose proof (fun line => ckept_line line Hf). induction lines; cbn [command_loop]; preserves_auto.
Qed.
Lemma ckept_session lines : (forall f, F f) -> ckept (run_session fuel lines).
Proof.
  intros Hf. pose proof (ckept_loop lines Hf). pose proof (fun info => ckept_report info (Hf None)).
  unfold run_session. preserves_auto.
Qed.
End Commands.

#[export] Hint Resolve ckept_debugger ckept_world ckept_out ckept_excerpt ckept_get_registry ckept_get_debugger
  ckept_get_elf ckept_pid ckept_stopped ckept_current_pc ckept_print_stop ckept_print_source_location
  ckept_print_motion ckept_reopen ckept_refresh : mdbg.

(** ** Reachable objects *)

Section Reached.
Context `{FA : FileAccess} `{H : Host} `{FI : FileIdentity} `{K : Kernel} `{PM : !ProcMaps K} `{T : TextFiles}.

Definition reached (d : debugger) : Prop := exists n, reaches n d.
Definition registered (r : UserBreakpointRegistry) : Prop := exists n, registries n r.

Lemma reached_call {A} fuel op (m : M dst A) : run_debugger_op fuel op = ignore m -> preserves (holds reached) m.
Proof.
  intros E [d w n] [k Hk]. exists (S k). pose proof (reaches_op k d fuel op w n Hk) as Hr. rewrite E in Hr.
  unfold ignore, mbind, M_bind in Hr. by destruct (m _) as [[]].
Qed.
Lemma reached_unit fuel op (m : M dst unit) : run_debugger_op fuel op = m -> preserves (holds reached) m.
Proof. intros <- [d w n] [k Hk]. exists (S k). by apply (reaches_op k d fuel op w n). Qed.

#[export] Instance reached_invariant : CallInvariant reached.
Proof.
  split; [split|..]; intros.
  - by apply (reached_call O (DoAddBreakpoint address)).
  - by apply (reached_call O (DoRemoveBreakpoint id)).
  - by apply (reached_call O (DoDiscardBreakpoint id)).
  - by apply (reached_unit O (DoWriteMemory address bytes)).
  - by apply (reached_unit O (DoSetForkPolicy policy)).
  - by apply (reached_call fuel (DoContinue policy)).
  - by apply (reached_call fuel (DoSingleStep policy)).
  - by apply (reached_unit fuel (DoSelectProcess pid)).
  - by apply (reached_unit O (DoSelectThread tid)).
  - by apply (reached_unit O (DoDetach policy)).
Qed.

#[export] Instance registered_invariant : RegistryInvariant registered.
Proof. intros fuel op [r d] [k Hk]. exists (S k). by apply registries_op. Qed.

(** Whatever lines a session reads, and however it ends, the debugger and the registry
    are the outcome of calls of their public methods: what is proved of every reachable
    debugger and of every reachable registry, in particular the invariants of their tables
    and that deferred breakpoints are backed by requests, holds at each prompt. *)
Theorem session_stays_reachable fuel lines (s : live_cli) :
  reached (cli_debugger s) -> registered (rs_registry (lc_rst s)) ->
  let s' := snd (run_session fuel lines s) in
  reached (cli_debugger s') /\ registered (rs_registry (lc_rst s')).
Proof.
  intros Hd Hr. destruct (ckept_session fuel reached registered (fun _ => True) lines (fun _ => Logic.I) s) as (H1 & H2 & _);
    [by repeat split|by split].
Qed.
End Reached.

(** ** A breakpoint set and deleted at the prompt *)

Section Prompt.
Context `{FA : FileAccess} `{H : Host} `{FI : FileIdentity} `{K : Kernel} `{PM : !ProcMaps K} `{T : TextFiles}.
Context `{L : !KernelLaws K}.
Variable fuel : nat.

Lemma out_run l s : out l s = (Ok tt, mkLiveCli (lc_rst s) (lc_frame s) (lc_paths s) (written l (lc_out s))).
Proof. done. Qed.

Lemma run_registry {A B} (m : M rst A) (f : A -> M live_cli B) s a r :
  m (lc_rst s) = (Ok a, r) -> (on_registry m ≫= f) s = f a (mkLiveCli r (lc_frame s) (lc_paths s) (lc_out s)).
Proof. intros E. apply run_Ok. unfold on_registry, zoom. by rewrite E. Qed.

(** The breakpoint the user knows by this number. *)
Definition user_breakpoint (s : live_cli) (id : Z) : res (option UserBreakpoint) :=
  breakpoint (rs_registry (lc_rst s)) (cli_debugger s) id.

(** What is printed for a breakpoint in place. *)
Definition announcement (id address : Z) (location : string) : list piece :=
  [Str "Breakpoint "; Num id; Str " at 0x"; Hex; Num address; Dec; Str " ("; Str location; Str (")" +:+ nl)].

Lemma break_command_run input s id r address :
  missing (word 0 input) = false -> add_location (word 0 input) (lc_rst s) = (Ok id, r) ->
  breakpoint (rs_registry r) (st_debugger (rs_dst r)) id =
    Ok (Some (mkUserBreakpoint id (word 0 input) (Some address) Enabled)) ->
  break_command input s =
    (Ok tt, mkLiveCli r (lc_frame s) (lc_paths s) (written (announcement id address (word 0 input)) (lc_out s))).
Proof.
  intros Hm Ha Hb. unfold break_command. rewrite Hm. unfold attempt, mcatch. rewrite (run_registry _ _ _ _ _ Ha).
  erewrite run_registry by done. unfold get_cli_debugger. rewrite run_gets. unfold cli_debugger. cbn [lc_rst]. rewrite Hb.
  erewrite (run_Ok (lift _)) by reflexivity. cbn beta iota. cbn [ub_state ub_address]. erewrite run_Ok by apply out_run.
  erewrite run_Ok by apply out_run. rewrite out_run. cbn [lc_rst lc_frame lc_paths lc_out]. by rewrite !written_app.
Qed.

Lemma delete_command_run input s removed r :
  remove_user (extract_size 0 input) (lc_rst s) = (Ok removed, r) ->
  delete_command input s = (Ok tt, mkLiveCli r (lc_frame s) (lc_paths s)
    (if removed then lc_out s else written [Str ("no such breakpoint" +:+ nl)] (lc_out s))).
Proof. intros E. unfold delete_command. rewrite (run_registry _ _ _ _ _ E). by destruct removed. Qed.

(** A number the registry does not know. *)
Lemma remove_unknown id s :
  breakpoint (rs_registry s) (st_debugger (rs_dst s)) id = Ok None -> remove_user id s = (Ok false, s).
Proof.
  intros Hn. unfold remove_user. rewrite run_pid. unfold get_registry. rewrite run_gets. revert Hn.
  unfold breakpoint, active_domain_if_present. destruct (domains_ _ !! _) as [dom|]; [|done].
  destruct (ds_entries dom !! id) as [entry|]; [|done]. by destruct (snapshot id entry dom _).
Qed.

Lemma run_break line command input s s' :
  next_token line = Some (command, input) -> command ∈ ["break"; "b"] ->
  break_command input s = (Ok tt, s') -> run_line fuel line s = (Ok false, s').
Proof.
  intros Ht Hin E. unfold run_line. rewrite Ht. rewrite !elem_of_cons, elem_of_nil in Hin.
  destruct Hin as [->|[->|[]]]; unfold run_command; simpl; by rewrite (run_Ok _ _ _ _ _ E).
Qed.
Lemma run_delete line input s s' :
  next_token line = Some ("delete", input) -> delete_command input s = (Ok tt, s') -> run_line fuel line s = (Ok false, s').
Proof. intros Ht E. unfold run_line. rewrite Ht. unfold run_command. simpl. by rewrite (run_Ok _ _ _ _ _ E). Qed.

Lemma address_range text address : try_parse_address text = Some address -> in_u64 address.
Proof.
  unfold try_parse_address. pose proof (std_stoull_range text 0 ltac:(lia)) as Hr.
  destruct (std_stoull text 0) as [[v n]|e|w|]; try done. destruct (_ =? _)%nat; [|done]. intros [= <-]. exact Hr.
Qed.

(** No breakpoint has the next number. *)
Lemma next_id_free bound d : wf_debugger bound d -> breakpoint_ids_ d !! next_breakpoint_id_ d = None.
Proof.
  intros [_ Hd _ _]. apply eq_None_not_Some. intros [a Ha]. destruct (wd_ids _ _ Hd _ _ Ha) as (bp & Hbp & Hid).
  destruct (wd_bps _ _ Hd _ _ Hbp) as (_ & _ & Hlt). lia.
Qed.

(** C2: in a session with a well-formed debugger and registry that does not follow both sides of
    forks, a user types [break] and an address, of a stopped process, in mapped memory and
    without a breakpoint: the line is read and the loop goes on, the number that is printed with
    the address is the one the breakpoint is known by, with the text the user typed and enabled,
    the trap byte is in the memory of the process and the memory the user sees does not change.
    When the user types [delete] and that number next, nothing is printed, every byte of memory
    and the debugger's table of breakpoints are what they were before; the number is unknown, and
    typing the line once more says so and changes nothing. *)
Theorem break_then_delete bound b l (s : live_cli) tid address line command input :
  let d := rs_dst (lc_rst s) in
  let sp := k_space (st_world d) tid in
  let id := next_id_ (rs_registry (lc_rst s)) in
  wf_registry b l (rs_registry (lc_rst s)) -> wf_debugger bound (st_debugger d) -> bound < u64_max ->
  tracee d tid -> fork_follow_policy_ (st_debugger d) <> FollowBoth ->
  next_token line = Some (command, input) -> command ∈ ["break"; "b"] ->
  missing (word 0 input) = false -> try_parse_address (word 0 input) = Some address ->
  mapped_word (st_world d) tid address -> breakpoints_by_address_ (st_debugger d) !! address = None ->
  exists s', run_line fuel line s = (Ok false, s') /\
    lc_out s' = written (announcement id address (word 0 input)) (lc_out s) /\ lc_frame s' = lc_frame s /\
    user_breakpoint s' id = Ok (Some (mkUserBreakpoint id (word 0 input) (Some address) Enabled)) /\
    k_mem (st_world (rs_dst (lc_rst s'))) sp address = Some kInt3 /\
    (forall x, user_mem (rs_dst (lc_rst s')) sp x = user_mem d sp x) /\
    forall line' input', next_token line' = Some ("delete", input') -> extract_size 0 input' = id ->
      exists s'', run_line fuel line' s' = (Ok false, s'') /\ lc_out s'' = lc_out s' /\ lc_frame s'' = lc_frame s /\
        (forall sp x, k_mem (st_world (rs_dst (lc_rst s''))) sp x = k_mem (st_world d) sp x) /\
        breakpoints_by_address_ (cli_debugger s'') = breakpoints_by_address_ (st_debugger d) /\
        user_breakpoint s'' id = Ok None /\
        run_line fuel line' s'' = (Ok false, mkLiveCli (lc_rst s'') (lc_frame s'') (lc_paths s'')
          (written [Str ("no such breakpoint" +:+ nl)] (lc_out s''))).
Proof.
  intros d sp id Hr Hd Hb Ht Hpol Hl Hc Hm Ha Hmap Hfree. pose proof (address_range _ _ Ha) as Hrange.
  destruct (add_breakpoint_run d tid address Ht Hrange Hmap Hfree (next_id_free _ _ Hd) Hpol)
    as (d1 & w1 & v & Eadd & Hv & Hst & Hp1 & Hbps1 & Hids1).
  destruct (add_address_shown bound b l (lc_rst s) address (word 0 input) _ _ Hr Hd Hb Eadd)
    as (r1 & dom & entry & E1 & Hd1 & Hshown & Hat & Hbid).
  assert (Eloc : add_location (word 0 input) (lc_rst s) = (Ok id, r1)) by (unfold add_location; by rewrite Ha).
  rewrite <- Hd1 in Hshown. pose proof (break_command_run input s id r1 address Hm Eloc Hshown) as Ebreak.
  pose proof Hst as [Hsame Hmem]. eexists. split; [exact (run_break _ _ _ _ _ Hl Hc Ebreak)|]. cbn [lc_out lc_frame lc_rst].
  do 2 (split; [done|]). split; [exact Hshown|]. rewrite Hd1. split; [simpl; by rewrite Hmem, decide_True|]. split.
  { intros x. unfold user_mem. cbn [st_debugger st_world]. rewrite Hbps1, Hmem.
    destruct (decide (x = address)) as [->|Hx]; [by rewrite lookup_insert_eq, Hfree|].
    rewrite lookup_insert_ne by done. by rewrite decide_False by tauto. }
  intros line' input' Hl' Hid. pose proof Hat as (Hdom & Hent & Hk & Hback). rewrite Hbid, Hd1 in Hback. cbn [st_debugger] in Hback.
  destruct (remove_breakpoint_run (rs_dst r1) tid (en_backend_id entry) address (mkBreakpoint (next_breakpoint_id_ (st_debugger d)) address v true))
    as (d2 & w2 & Erem & [_ Hmem2] & _ & Hbps2 & _); rewrite ?Hd1; cbn [st_debugger st_world].
  { by apply (tracee_same d). }
  { done. }
  { by eapply mapped_stored. }
  { by rewrite Hbid. }
  { rewrite Hbps1. apply lookup_insert_eq. }
  { done. }
  rewrite Hd1 in Hmem2, Hbps2. cbn [st_debugger st_world] in Hmem2, Hbps2.
  destruct (remove_user_run id r1 dom entry _ Hdom Hent Hk Erem) as (r2 & E2 & Hd2).
  destruct (remove_address_forgets _ _ _ _ _ _ _ Hat E2) as (_ & Hnone & _).
  assert (Hdel : forall s1 removed r, remove_user id (lc_rst s1) = (Ok removed, r) -> run_line fuel line' s1 = (Ok false, mkLiveCli r
    (lc_frame s1) (lc_paths s1) (if removed then lc_out s1 else written [Str ("no such breakpoint" +:+ nl)] (lc_out s1)))).
  { intros s1 removed r E. eapply run_delete; [exact Hl'|]. apply delete_command_run. by rewrite Hid. }
  eexists. split; [by apply (Hdel _ true)|]. cbn [lc_out lc_frame lc_rst]. do 2 (split; [done|]).
  split; [|split; [|split; [exact Hnone|]]].
  - intros sp' x. rewrite Hd2. cbn [st_world]. rewrite Hmem2, Hmem, (same_space _ _ Hsame). fold sp.
    destruct (decide (sp' = sp /\ x = address)) as [[-> ->]|Hne]; [symmetry; exact Hv|done].
  - unfold cli_debugger. cbn [lc_rst]. rewrite Hd2. cbn [st_debugger]. rewrite Hbps2, Hbps1. by rewrite delete_insert_id.
  - exact (Hdel (mkLiveCli r2 _ _ _) false r2 (remove_unknown _ _ Hnone)).
Qed.
End Prompt.

(** ** The selected frame *)

(** What a stop is: the process with its threads, and the stop information. *)
Definition stop_view (d : debugger) : process * StopInfo := (process_ d, stop_info_ d).

(** A frame of the stop the debugger is at: of its process, its thread and its number. *)
Definition frame_of_stop (frame : InspectionFrameContext) (d : debugger) : Prop :=
  state_ (process_ d) = Stopped /\ if_process_pid frame = pid_ (process_ d) /\
  if_tid frame = current_tid_ (process_ d) /\ if_origin_stop_sequence frame = si_sequence (stop_info_ d).

Section Frames.
Context `{FA : FileAccess} `{H : Host} `{FI : FileIdentity} `{K : Kernel} `{PM : !ProcMaps K} `{T : TextFiles}.
Variable fuel : nat.

#[export] Instance view_invariant v : QuietInvariant (fun d => stop_view d = v).
Proof.
  assert (Hu : forall f, (forall d, stop_view (f d) = stop_view d) -> preserves (holds (fun d => stop_view d = v)) (upd_debugger f))
    by (intros f Hf s Hs; unfold holds; cbn; by rewrite Hf).
  assert (Hupd : forall f, (forall a, d_process (f a) = d_process a /\ d_stop_info (f a) = d_stop_info a) ->
    preserves (holds (fun d => stop_view d = v)) (upd f)).
  { intros f Hf. apply Hu. intros d. unfold stop_view, process_, stop_info_. simpl. by destruct (Hf (active d)) as [-> ->]. }
  assert (Hforget : forall id a, preserves (holds (fun d => stop_view d = v)) (forget_breakpoint id a))
    by (intros; unfold forget_breakpoint; preserves_auto; by apply Hupd).
  split; intros.
  - unfold add_breakpoint. preserves_auto.
  - unfold remove_breakpoint. preserves_auto.
  - unfold discard_breakpoint. preserves_auto.
  - assert (Hw : forall tid, preserves (holds (fun d => stop_view d = v)) (write_memory_bytes tid address 0 bytes))
      by (intros; apply kept_pure, pure_write_memory_bytes).
    unfold write_memory, update_saved_byte. preserves_auto.
  - unfold set_fork_follow_policy. preserves_auto.
Qed.

#[export] Instance any_registry : RegistryInvariant (fun _ => True).
Proof. by intros ?? s. Qed.
#[export] Instance any_debugger : CallInvariant (fun _ => True).
Proof. by split; [split|..]; intros; intros s. Qed.

#[local] Hint Resolve call_quiet any_registry any_debugger view_invariant : mdbg.

(** Either no frame is selected, or neither the stop nor the selected frame changed. *)
Definition settled (s s' : live_cli) : Prop :=
  lc_frame s' = None \/ (stop_view (cli_debugger s') = stop_view (cli_debugger s) /\ lc_frame s' = lc_frame s).

(** Commands that keep the stop, whatever frame is selected. *)
Definition quiet {A} (m : M live_cli A) : Prop := forall s, settled s (snd (m s)).
(** Methods after which no frame is selected. *)
Definition drops {A} (m : M live_cli A) : Prop := forall s, lc_frame (snd (m s)) = None.

#[local] Abbreviation stays v f := (cli_holds (fun d => stop_view d = v) (fun _ => True) (fun g => g = None \/ g = f)).
#[local] Abbreviation dropped := (cli_holds (fun _ => True) (fun _ => True) (fun g => g = None)).

Lemma quiet_stays {A} (m : M live_cli A) : (forall v f, preserves (stays v f) m) -> quiet m.
Proof.
  intros Hm s. destruct (Hm (stop_view (cli_debugger s)) (lc_frame s) s) as (H1 & _ & [H2|H2]);
    [by split; [|split; [|right]]|by left|by right].
Qed.

Lemma invalidate_drops {A} (m : M live_cli A) : preserves dropped m -> drops (_ ← invalidate_inspection_frame; m).
Proof. intros Hm s. by apply (Hm (mkLiveCli (lc_rst s) None (lc_paths s) (lc_out s))). Qed.

Lemma settled_trans s s1 s' : settled s s1 -> settled s1 s' -> settled s s'.
Proof.
  intros [H1|[H1 H1']] [H2|[H2 H2']]; [by left|left; congruence|by left|right; split; congruence].
Qed.

(** Commands that, when they come back to the prompt, kept the stop or dropped the frame. *)
Definition comes_back {A} (m : M live_cli A) : Prop := forall s a s', m s = (Ok a, s') -> settled s s'.

Lemma quiet_back {A} (m : M live_cli A) : quiet m -> comes_back m.
Proof. intros Hm s a s' E. specialize (Hm s). by rewrite E in Hm. Qed.
Lemma drops_back {A} (m : M live_cli A) : drops m -> comes_back m.
Proof. intros Hm s a s' E. specialize (Hm s). rewrite E in Hm. by left. Qed.
Lemma back_bind {A B} (m : M live_cli A) (f : A -> M live_cli B) :
  quiet m -> (forall a, comes_back (f a)) -> comes_back (m ≫= f).
Proof.
  intros Hm Hf s b s' E. unfold mbind, M_bind in E. specialize (Hm s). destruct (m s) as [[a| | |] s1]; try done.
  by apply (settled_trans s s1); [|apply (Hf a s1 b)].
Qed.
Lemma back_end {A B} (m : M live_cli A) (f : A -> M live_cli B) : (forall a, drops (f a)) -> comes_back (m ≫= f).
Proof.
  intros Hf s b s' E. unfold mbind, M_bind in E. destruct (m s) as [[a| | |] s1]; try done.
  specialize (Hf a s1). rewrite E in Hf. by left.
Qed.

Lemma report_drops info : drops (report_stop info).
Proof.
  unfold report_stop. apply invalidate_drops.
  unfold print_current_stop. preserves_auto.
Qed.

Lemma reject_quiet : quiet reject_motion_with_pending_breakpoints.
Proof. apply quiet_stays. intros. apply ckept_rejected. Qed.

(** A motion: refused, or the frame is dropped. *)
Lemma motion_back (m : M live_cli unit) :
  comes_back m ->
  comes_back (rejected ← reject_motion_with_pending_breakpoints; if rejected : bool then mskip else m).
Proof.
  intros Hm. apply back_bind; [apply reject_quiet|]. intros []; [|done]. apply quiet_back. intros s. by right.
Qed.

Lemma source_motion_back next : comes_back (source_motion_command fuel next).
Proof.
  unfold source_motion_command. apply motion_back, drops_back, invalidate_drops. unfold attempt.
  assert (Hm : forall elf, preserves (holds (fun _ => True))
    (if next then next_source fuel elf 4096 else step_source fuel elf 4096)) by (intros; destruct next; auto with mdbg).
  preserves_auto.
Qed.
Lemma finish_back : comes_back (finish_command fuel).
Proof.
  unfold finish_command. apply motion_back, drops_back, invalidate_drops.
  unfold attempt, print_current_stop, print_current_location. preserves_auto.
Qed.
Lemma stepi_back : comes_back (stepi_command fuel).
Proof. apply motion_back, back_end, report_drops. Qed.
Lemma continue_back : comes_back (continue_command fuel).
Proof. apply back_end, report_drops. Qed.

(** *** Selecting a process or a thread *)

(** A call that, unless it succeeds, keeps the stop. *)
Definition all_or_nothing (m : M dst unit) (s : dst) : Prop :=
  match m s with (Ok _, _) => True | (_, s') => stop_view (st_debugger s') = stop_view (st_debugger s) end.

Lemma select_process_atomic pid s :
  retained_processes_ (st_debugger s) !! pid_ (process_ (st_debugger s)) = None ->
  all_or_nothing (select_process fuel pid) s.
Proof.
  intros Hd. unfold all_or_nothing, select_process. rewrite run_get.
  destruct (Z.eqb_spec pid (pid_ (process_ (st_debugger s)))) as [|Hp]; [done|].
  destruct (retained_processes_ (st_debugger s) !! pid) as [selected|] eqn:E; [|done]. mrun.
  repeat (case_bool_decide; [done|]). unfold swap_active_process. mrun. rewrite run_get, E, swap_members_eq. mrun.
  rewrite run_upd_debugger, lookup_delete_ne by done. by rewrite Hd.
Qed.
Lemma select_thread_atomic tid s : all_or_nothing (select_thread tid) s.
Proof.
  unfold all_or_nothing, select_thread. rewrite run_get. mrun.
  match goal with |- context [if ?b then _ else _] => destruct b; [done|] end.
  unfold on_process, zoom, select_tid, mbind, M_bind, get_process, gets, mthrow_if. simpl.
  destruct (bool_decide _); [done|]. destruct (existsb _ _); [done|].
  destruct (task_states_ _ !! tid) as [state|]; [|done]. by destruct (bool_decide _).
Qed.

(** Selecting, then dropping the frame; what fails before changes nothing. *)
Lemma selection_settled prefix (parse : res Z) (select : Z -> M dst unit) (rest : Z -> M live_cli unit) s :
  (forall z, all_or_nothing (select z) (rs_dst (lc_rst s))) -> (forall z, preserves dropped (rest z)) ->
  settled s (snd (attempt prefix (z ← lift parse; _ ← on_debugger (select z); _ ← invalidate_inspection_frame; rest z) s)).
Proof.
  intros Hs Hr. unfold attempt, mcatch, mbind, M_bind, lift. destruct parse as [z|e|w|]; [|by right..].
  specialize (Hs z). unfold all_or_nothing, on_debugger, on_registry, with_debugger, zoom in *.
  destruct (select z (rs_dst (lc_rst s))) as [[[]|e|w|] d']; [|by right..]. cbn -[out].
  set (s1 := mkLiveCli _ None _ _). assert (H1 : lc_frame (snd (rest z s1)) = None) by (by apply (Hr z s1)).
  left. destruct (rest z s1) as [[]]; done.
Qed.

Lemma process_settled input s :
  retained_processes_ (cli_debugger s) !! pid_ (process_ (cli_debugger s)) = None ->
  settled s (snd (process_command fuel input s)).
Proof.
  intros Hd. unfold process_command. destruct (missing _); [by right|].
  apply (selection_settled _ _ (select_process fuel)); [intros; by apply select_process_atomic|preserves_auto].
Qed.
Lemma thread_settled input s : settled s (snd (thread_command input s)).
Proof.
  unfold thread_command. destruct (missing _); [by right|].
  apply (selection_settled _ _ select_thread); [intros; by apply select_thread_atomic|preserves_auto].
Qed.

Lemma looks_settled command input : command ∈ looks -> quiet (run_command fuel command input).
Proof. intros Hin. apply quiet_stays. intros v f. apply ckept_looks; [auto with mdbg..|by left|done]. Qed.

(** *** The frame command *)

(** The selected frame, if there is one, is of the stop. *)
Definition frame_current (s : live_cli) : Prop :=
  forall frame, lc_frame s = Some frame -> frame_of_stop frame (cli_debugger s).

Lemma settled_current s s' : frame_current s -> settled s s' -> frame_current s'.
Proof.
  intros Hs [Hn|[Hv Hf]] frame E; [congruence|]. rewrite Hf in E. specialize (Hs frame E).
  unfold frame_of_stop, stop_view in *. injection Hv as -> ->. done.
Qed.
Lemma quiet_current {A} (m : M live_cli A) : quiet m -> preserves frame_current m.
Proof. intros Hm s Hs. by apply (settled_current s). Qed.

Definition same_stop (frame frame' : InspectionFrameContext) : Prop :=
  if_process_pid frame' = if_process_pid frame /\ if_tid frame' = if_tid frame /\
  if_origin_stop_sequence frame' = if_origin_stop_sequence frame.

Lemma current_frame_of_stop s frame s' :
  current_inspection_frame s = (Ok frame, s') -> frame_of_stop frame (st_debugger s).
Proof.
  unfold current_inspection_frame. rewrite run_get. mrun. case_bool_decide as Hst; [done|].
  intros (regs & s1 & _ & E)%bind_M_Ok. apply bind_M_Ok in E as ([module|] & s2 & _ & E); [|done].
  by injection E as <- _.
Qed.

Lemma inspection_loop_same n elf cfi max context current modules frames s frames' s' :
  inspection_loop n elf cfi max context current modules frames s = (Ok frames', s') ->
  Forall (same_stop context) frames -> Forall (same_stop context) frames'.
Proof.
  revert current modules frames s. induction n as [|n IH]; intros current modules frames s; cbn [inspection_loop];
    (destruct (_ <? max); [|by intros [= <- _]]); [done|].
  intros ([[[caller|] ms]|] & s1 & _ & E)%bind_M_Ok; [|by injection E as <- _..].
  destruct (no_progress current caller); [by injection E as <- _|].
  apply bind_M_Ok in E as (d & s2 & _ & E). apply bind_M_Ok in E as ([module|] & s3 & _ & E); [|by injection E as <- _].
  intros Hf. apply (IH _ _ _ _ E). apply Forall_app. split; [done|]. by repeat constructor.
Qed.

Lemma build_frames_of_stop elf cfi max s frames s' :
  build_inspection_frames elf cfi max s = (Ok frames, s') -> Forall (fun frame => frame_of_stop frame (st_debugger s)) frames.
Proof.
  unfold build_inspection_frames. mrun. destruct (max =? 0); [done|].
  intros (context & s1 & Hc & E)%bind_M_Ok. pose proof (current_frame_of_stop _ _ _ Hc) as Hctx.
  destruct (max =? 1); [injection E as <- _; by apply Forall_singleton|].
  eapply Forall_impl; [eapply inspection_loop_same; [exact E|by repeat constructor]|].
  intros frame (H1 & H2 & H3). unfold frame_of_stop in *. by rewrite H1, H2, H3.
Qed.

Lemma frame_of_view frame d d' : stop_view d' = stop_view d -> frame_of_stop frame d -> frame_of_stop frame d'.
Proof. unfold frame_of_stop, stop_view. by intros [= -> ->]. Qed.

Lemma out_current l : preserves frame_current (out l).
Proof. apply quiet_current, quiet_stays. auto with mdbg. Qed.

(** The frames are built, and one of them is selected. *)
Lemma choose_frame_current elf cfi n (text : InspectionFrameContext -> list piece) :
  preserves frame_current
    (frames ← on_debugger (build_inspection_frames elf cfi 64);
     match frames !! n with
     | None => mthrow OutOfRange "inspection frame index is out of range"
     | Some frame => _ ← set_frame (Some frame); out (text frame)
     end).
Proof.
  intros s Hs. set (m := on_debugger (build_inspection_frames elf cfi 64)).
  assert (Hv : stop_view (cli_debugger (snd (m s))) = stop_view (cli_debugger s)).
  { apply (ckept_debugger (fun d => stop_view d = stop_view (cli_debugger s)) (fun _ => True) (fun _ => True));
      [auto with mdbg|by repeat split]. }
  assert (Hok : forall frames s1, m s = (Ok frames, s1) -> Forall (fun f => frame_of_stop f (cli_debugger s)) frames).
  { intros frames s1. unfold m, on_debugger, on_registry, with_debugger, zoom.
    destruct (build_inspection_frames _ _ _ _) eqn:E. intros [= -> _]. by apply build_frames_of_stop in E. }
  assert (Hq : quiet m) by (apply quiet_stays; unfold m; auto with mdbg). apply quiet_current in Hq. specialize (Hq s Hs).
  unfold mbind at 1, M_bind at 1. destruct (m s) as [[frames|e|w|] s1]; [|done..]. specialize (Hok _ _ eq_refl). simpl in *.
  destruct (frames !! n) as [frame|] eqn:E; [|done]. apply (out_current _ (mkLiveCli _ (Some frame) _ _)).
  intros f [= <-]. apply (frame_of_view _ (cli_debugger s)); [done|]. by apply (Forall_lookup_1 _ _ _ _ Hok E).
Qed.

Lemma frame_command_current input : preserves frame_current (frame_command input).
Proof.
  unfold frame_command, say, get_elf. destruct (_ || _); [apply out_current|].
  apply preserves_mcatch; [|intros; apply out_current].
  repeat (apply preserves_bind; [by auto with mdbg|intros ?]).
  apply (choose_frame_current _ _ _ (fun frame => [Str "selected inspection frame "; Num _; Str " 0x"; Hex; _; Dec; _])).
Qed.

(** *** Every line *)

Definition active_alone (d : debugger) : Prop := retained_processes_ d !! pid_ (process_ d) = None.

Lemma moves_settled command input s s' :
  command ∈ moves -> active_alone (cli_debugger s) -> run_command fuel command input s = (Ok false, s') -> settled s s'.
Proof.
  intros Hin Hd.
  assert (Hstay : forall m : M live_cli unit, settled s (snd (m s)) -> ((_ ← m; mret false) : M live_cli bool) s = (Ok false, s') -> settled s s').
  { intros m Hm (a & s1 & E & [= <-])%bind_M_Ok. by rewrite E in Hm. }
  assert (Hback : forall m : M live_cli unit, comes_back m -> ((_ ← m; mret false) : M live_cli bool) s = (Ok false, s') -> settled s s').
  { intros m Hm (a & s1 & E & [= <-])%bind_M_Ok. by apply (Hm s a). }
  unfold moves in Hin. rewrite !elem_of_cons, elem_of_nil in Hin.
  repeat destruct Hin as [->|Hin]; try done.
  - unfold run_command. simpl. intros (d & s1 & _ & (u & s2 & _ & [=])%bind_M_Ok)%bind_M_Ok.
  - unfold run_command. simpl. intros (d & s1 & _ & (u & s2 & _ & [=])%bind_M_Ok)%bind_M_Ok.
  - unfold run_command. simpl. intros (d & s1 & [= <- <-] & E)%bind_M_Ok. revert E. case_bool_decide.
    + apply Hstay. by right.
    + intros (u & s2 & _ & [=])%bind_M_Ok.
  - apply Hback, continue_back.
  - apply Hback, continue_back.
  - apply Hback, stepi_back.
  - apply Hback, stepi_back.
  - apply Hback, source_motion_back.
  - apply Hback, source_motion_back.
  - apply Hback, source_motion_back.
  - apply Hback, source_motion_back.
  - apply Hback, finish_back.
  - apply Hback, finish_back.
  - by apply Hstay, process_settled.
  - apply Hstay, thread_settled.
Qed.

Lemma line_current line s s' :
  frame_current s -> active_alone (cli_debugger s) -> run_line fuel line s = (Ok false, s') -> frame_current s'.
Proof.
  intros Hs Hd E. unfold run_line in E. destruct (next_token line) as [[command input]|]; [|by injection E as <-].
  assert (Hquiet : forall m : M live_cli bool, quiet m -> m s = (Ok false, s') -> frame_current s').
  { intros m Hm Em. apply (settled_current s); [done|]. specialize (Hm s). by rewrite Em in Hm. }
  destruct (decide (command ∈ looks)); [by apply (Hquiet (run_command fuel command input)); [apply looks_settled|]|].
  destruct (decide (command ∈ moves)); [by apply (settled_current s); [|apply (moves_settled command input)]|].
  destruct (decide (command = "frame")) as [->|].
  - apply bind_M_Ok in E as (u & s1 & E & [= <-]). pose proof (frame_command_current input s Hs) as Hc. by rewrite E in Hc.
  - rewrite run_command_other in E by done. apply bind_M_Ok in E as (u & s1 & E & [= <-]).
    pose proof (out_current _ s Hs : frame_current (snd (help_command s))) as Hc. by rewrite E in Hc.
Qed.

(** The sessions at a prompt: at first no frame is selected; then a line that is read and
    comes back.  The process the debugger is at is not one of those it keeps beside it. *)
Inductive at_prompt : live_cli -> Prop :=
  | prompt_first s : lc_frame s = None -> at_prompt s
  | prompt_next s line s' :
      at_prompt s -> active_alone (cli_debugger s) -> run_line fuel line s = (Ok false, s') -> at_prompt s'.

(** A line that changes what the stop is drops the frame. *)
Lemma line_moves line s s' :
  active_alone (cli_debugger s) -> run_line fuel line s = (Ok false, s') ->
  lc_frame s' = None \/ stop_view (cli_debugger s') = stop_view (cli_debugger s).
Proof.
  intros Hd E. assert (Hs : forall s1, settled s s1 -> lc_frame s1 = None \/ stop_view (cli_debugger s1) = stop_view (cli_debugger s))
    by (intros s1 [|[]]; auto).
  unfold run_line in E. destruct (next_token line) as [[command input]|]; [|injection E as <-; by right].
  destruct (decide (command ∈ looks)) as [Hl|].
  { pose proof (looks_settled command input Hl s) as Hq. rewrite E in Hq. by apply Hs. }
  destruct (decide (command ∈ moves)); [by apply Hs, (moves_settled command input)|].
  assert (Hk : forall m : M live_cli unit,
    preserves (cli_holds (fun d => stop_view d = stop_view (cli_debugger s)) (fun _ => True) (fun _ => True)) m ->
    (_ ← m; mret false) s = (Ok false, s') -> stop_view (cli_debugger s') = stop_view (cli_debugger s)).
  { intros m Hm (u & s1 & Em & [= <-])%bind_M_Ok. specialize (Hm s). rewrite Em in Hm. by apply Hm. }
  right. destruct (decide (command = "frame")) as [->|].
  - apply (Hk (frame_command input)); [by apply ckept_frame_command; auto with mdbg|exact E].
  - rewrite run_command_other in E by done. apply (Hk help_command); [apply ckept_out|exact E].
Qed.

(** The assignments of the [set] command: the value goes to the register, the bytes to the
    memory at the location. *)
Inductive assigns (input : string) (s : live_cli) : live_cli -> Prop :=
  | assigns_register value s' :
      word 0 input = "register" -> missing (word 1 input) || missing (word 2 input) = false ->
      parse_whole (word 2 input) 0 ("invalid register value: " +:+ word 2 input) = Ok value ->
      on_debugger (set_register (word 1 input) value) s = (Ok tt, s') -> assigns input s s'
  | assigns_memory address s1 s' :
      word 0 input = "memory" -> missing (word 1 input) = false -> parse_bytes (drop 2 (words input)) [] <> [] ->
      on_world (resolve_location (word 1 input) (cli_elf s) (pid_ (process_ (cli_debugger s)))) s = (Ok address, s1) ->
      on_debugger (write_memory address (parse_bytes (drop 2 (words input)) [])) s1 = (Ok tt, s') -> assigns input s s'.

Lemma attempt_drops prefix (write : M live_cli unit) text s s1 :
  write s = (Ok tt, s1) ->
  exists s', attempt prefix (_ ← write; _ ← invalidate_inspection_frame; out text) s = (Ok tt, s') /\
    lc_frame s' = None /\ lc_rst s' = lc_rst s1.
Proof.
  intros Ew. eexists. unfold attempt, mcatch. rewrite (run_Ok _ _ _ _ _ Ew).
  rewrite (run_Ok _ _ _ _ _ (eq_refl : invalidate_inspection_frame s1 = (Ok tt, mkLiveCli (lc_rst s1) None (lc_paths s1) (lc_out s1)))).
  rewrite out_run. by split.
Qed.

Lemma set_drops input s s1 :
  assigns input s s1 -> exists s', set_command input s = (Ok tt, s') /\ lc_frame s' = None /\ lc_rst s' = lc_rst s1.
Proof.
  intros [value s2 H0 Hm Hv Hs|address s2 s3 H0 Hm Hb Hl Hs]; unfold set_command; rewrite H0; simpl.
  - unfold set_register_command. rewrite Hm, Hv.
    exact (attempt_drops _ (on_debugger (set_register (word 1 input) value)) _ s s2 Hs).
  - unfold set_memory_command. cbv zeta. rewrite Hm, bool_decide_false by done. cbn [orb].
    destruct (attempt_drops "memory assignment failed: " (on_debugger (write_memory address (parse_bytes (drop 2 (words input)) [])))
      [Str "wrote "; Num (size_of (parse_bytes (drop 2 (words input)) [])); Str " byte";
       Str (if size_of (parse_bytes (drop 2 (words input)) []) =? 1 then EmptyString else "s");
       Str " at 0x"; Hex; Num address; Dec; Str nl] s2 s3 Hs) as (s' & E & Hs'). exists s'. split; [|done].
    rewrite <- E. unfold attempt, mcatch. unfold get_elf, cli_pid. rewrite !run_gets. by rewrite (run_Ok _ _ _ _ _ Hl).
Qed.

(** C27: at every prompt of a session the selected frame, if there is one, belongs to the stop
    the debugger is at: to its process, its thread and its stop number, and the process is
    stopped.  A line that changes the stop, because it lets the process run or selects another
    process or thread, drops the frame, and so does an assignment to a register or to memory
    that is made.  The process the debugger is at is taken not to be among those it keeps beside
    it, which have other process ids. *)
Theorem selected_frame_current s :
  at_prompt s ->
  (forall frame, lc_frame s = Some frame ->
     state_ (process_ (cli_debugger s)) = Stopped /\ if_process_pid frame = pid_ (process_ (cli_debugger s)) /\
     if_tid frame = current_tid_ (process_ (cli_debugger s)) /\
     if_origin_stop_sequence frame = si_sequence (stop_info_ (cli_debugger s))) /\
  (forall line s', active_alone (cli_debugger s) -> run_line fuel line s = (Ok false, s') ->
     stop_view (cli_debugger s') <> stop_view (cli_debugger s) -> lc_frame s' = None) /\
  (forall line input s1, next_token line = Some ("set", input) -> assigns input s s1 ->
     exists s', run_line fuel line s = (Ok false, s') /\ lc_frame s' = None /\ lc_rst s' = lc_rst s1).
Proof.
  intros Hs. split; [|split].
  - change (frame_current s). induction Hs as [s Hn|s line s' _ IH Hd E].
    + intros frame Hf. congruence.
    + by apply (line_current line s).
  - intros line s' Hd E Hv. by destruct (line_moves line s s' Hd E).
  - intros line input s1 Ht Ha. destruct (set_drops input s s1 Ha) as (s' & E & Hs'). exists s'. split; [|done].
    unfold run_line. rewrite Ht. unfold run_command. simpl. by rewrite (run_Ok _ _ _ _ _ E).
Qed.
End Frames.

(** ** A session that selects a frame, and one that sets a breakpoint *)

(** The program has no debug information of its own, but frame rules. *)
Definition SessionHost : Host := {|
  h_file path := if String.eqb path "/bin/other" then h_file (Host := EhFrameSignalProofs.DemoEhFile) "demo" else h_file (Host := LiveHost) path;
  h_canonical _ := None; h_regular _ := false; h_page_size := 4096
|}.

Definition demo_line (line : string) (s : live_cli (K := SimKernel)) : res bool * live_cli (K := SimKernel) :=
  run_line (FA := CoreCliProofs.NoFiles) (H := SessionHost) (FI := DemoIdentity) (PM := DemoMaps) (T := NoText) 10 line s.
Definition demo_selected : live_cli (K := SimKernel) := snd (demo_line "print total" (snd (demo_line "frame 0" demo_live))).

Lemma outcome_of {A B} (p : A * B) a : fst p = a -> p = (a, snd p).
Proof. by destruct p; intros <-. Qed.

Lemma selected_frame_current_witness :
  (if_runtime_pc <$> lc_frame demo_selected) = Some 0x1004 /\
  forall frame, lc_frame demo_selected = Some frame -> if_tid frame = current_tid_ (process_ (cli_debugger demo_selected)).
Proof.
  split; [vm_compute; reflexivity|]. intros frame Hf.
  refine (proj1 (proj2 (proj2 (proj1 (selected_frame_current (FA := CoreCliProofs.NoFiles) (H := SessionHost)
    (FI := DemoIdentity) (PM := DemoMaps) (T := NoText) 10 demo_selected _) frame Hf)))).
  apply (prompt_next _ (snd (demo_line "frame 0" demo_live)) "print total").
  - apply (prompt_next _ demo_live "frame 0"); [by apply prompt_first|reflexivity|].
    apply (outcome_of (demo_line "frame 0" demo_live)). vm_compute. reflexivity.
  - vm_compute. reflexivity.
  - apply (outcome_of (demo_line "print total" (snd (demo_line "frame 0" demo_live)))). vm_compute. reflexivity.
Defined.

Definition demo_session (lines : list string) : res unit * live_cli (K := SimKernel) :=
  run_session (FA := CoreCliProofs.NoFiles) (H := SessionHost) (FI := DemoIdentity) (PM := DemoMaps) (T := NoText) 10 lines demo_live.

Definition demo_lines : list string := ["frame 0"; "break 0x8000"; "delete 1"; "break 0x8001"; "x 0x1"].

(** The tracee of the session is stopped at 0x1004; there is memory at 0x8000. *)
Lemma break_then_delete_witness :
  exists s', demo_line "break 0x8000" demo_live = (Ok false, s') /\
    os_text (lc_out s') = "Breakpoint 1 at 0x8000 (0x8000)" +:+ nl /\
    k_mem (KernelLaws := SimKernelLaws) (st_world (rs_dst (lc_rst s'))) 0 0x8000 = Some kInt3 /\
    exists s'', demo_line "delete 1" s' = (Ok false, s'') /\ lc_out s'' = lc_out s' /\
      forall sp x, k_mem (KernelLaws := SimKernelLaws) (st_world (rs_dst (lc_rst s''))) sp x =
                   k_mem (KernelLaws := SimKernelLaws) (st_world (rs_dst (lc_rst demo_live))) sp x.
Proof.
  destruct (break_then_delete (FA := CoreCliProofs.NoFiles) (H := SessionHost) (FI := DemoIdentity) (PM := DemoMaps)
    (T := NoText) (L := SimKernelLaws) 10 1 1 1 demo_live 100 0x8000 "break 0x8000" "break" " 0x8000")
    as (s' & E & Ho & _ & _ & Hm & _ & Hdel).
  - split; simpl; [lia|]. intros pid dom. rewrite lookup_empty. discriminate.
  - apply wf_new_debugger, wf_single_stopped_task.
  - reflexivity.
  - exact demo_cfi_tracee.
  - discriminate.
  - reflexivity.
  - by left.
  - reflexivity.
  - vm_compute. reflexivity.
  - solve_mapped.
  - reflexivity.
  - exists s'. split; [exact E|]. split; [rewrite Ho; vm_compute; reflexivity|]. split; [exact Hm|].
    destruct (Hdel "delete 1" " 1") as (s'' & E' & Ho' & _ & Hm' & _); [reflexivity|reflexivity|].
    exists s''. exact (conj E' (conj Ho' Hm')).
Defined.

Lemma session_stays_reachable_witness :
  fst (demo_session demo_lines) = Throw (Exn (PtraceError 5) "PTRACE_PEEKDATA") /\
  map bp_id (breakpoints (cli_debugger (snd (demo_session demo_lines)))) = [2] /\
  reached (cli_debugger (snd (demo_session demo_lines))) /\
  registered (FA := CoreCliProofs.NoFiles) (H := SessionHost) (FI := DemoIdentity) (PM := DemoMaps)
    (rs_registry (lc_rst (snd (demo_session demo_lines)))).
Proof.
  split; [vm_compute; reflexivity|]. split; [vm_compute; reflexivity|].
  apply (session_stays_reachable (FA := CoreCliProofs.NoFiles) (H := SessionHost) (FI := DemoIdentity)
    (PM := DemoMaps) (T := NoText) 10 demo_lines demo_live).
  - exists O. apply reaches_new, wf_single_stopped_task.
  - exists O. apply registries_new.
Defined.
