(* ===== verification/LiveEnd.v ===== *)
(** * How a live session ends

    Leaving an attached process: its memory is what the user has seen all along, without a
    trap byte, and the kernel has released every thread of it.  [release_steps] is what a detach and
    the destructor of the debugger share; [remove_run] and [Controllers] follow the
    destructors of the registry's controllers, which may remove breakpoints first. *)

From S2P Require Import Prelude Machine SimKernel Ptrace Process DebuggerState Debugger DebuggerInvariants Breakpoints ByteReader ElfFormat EhFrame Elf ModuleMap Unwind UnwindProofs.
From S2P Require Import Registry LiveValues LiveValuesProofs CliText CoreCli LivePrint LiveCli LiveCliProofs LiveSession.
From S2P Require Loader CliTextProofs CoreCliProofs.

(** ** Detaching *)

Section Detach.
Context `{D : DetachLaws}.

(** Every task of [ts] is stopped and traced. *)
Definition all_held (ts : gmap Z ProcessState) (s : dst) : Prop := forall t, is_Some (ts !! t) -> held (st_world s) t.

Lemma write_byte_held pid a v ts : preserves (all_held ts) (kernel (Ptrace.write_byte pid a v)).
Proof.
  intros [d w n] Hh. unfold kernel, zoom, Ptrace.write_byte, Ptrace.peek_word, Ptrace.poke_word, sys, mbind, M_bind. simpl.
  pose proof (law_peek_world pid a w) as Hp. destruct (k_peekdata pid a w) as [[e|x] w1]; simpl in *; subst w1; [done|].
  set (y := Z.lor _ _). pose proof (fun t => law_poke_traced pid a y w t) as Hk.
  destruct (k_pokedata pid a y w) as [[e|[]] w1]; simpl in *; intros t Ht; simpl; destruct (Hh t Ht); split; by apply Hk.
Qed.

Lemma restore_keeps_held ts : preserves (all_held ts) restore_all_breakpoints.
Proof.
  assert (Hu : forall m ids, preserves (all_held ts) (upd (fun a => dset_breakpoints (m a) (ids a) a))) by (by intros m ids s).
  assert (Hp : preserves (all_held ts) (upd (dset_pending_step None))) by (by intros s).
  pose proof (fun pid a v => write_byte_held pid a v ts) as Hw.
  unfold restore_all_breakpoints, stopped_tid, mark_installed. preserves_auto.
Qed.

(** What the restoration of the breakpoints leaves alone. *)
Definition besides_tables (d : debugger) := (process_ d, retained_processes_ d, watchpoint_register_snapshot_ d).
Lemma restore_keeps_rest v : preserves (holds (fun d => besides_tables d = v)) restore_all_breakpoints.
Proof.
  assert (Hu : forall m ids, preserves (holds (fun d => besides_tables d = v)) (upd (fun a => dset_breakpoints (m a) (ids a) a)))
    by (by intros m ids s <-).
  assert (Hp : preserves (holds (fun d => besides_tables d = v)) (upd (dset_pending_step None))) by (by intros s <-).
  unfold restore_all_breakpoints, stopped_tid, mark_installed. preserves_auto.
Qed.

(** An attached process at rest, followed alone: every thread is stopped and traced, no
    watchpoint is set and every breakpoint is in mapped memory. *)
Record detachable (s : dst) (tid : Z) : Prop := {
  da_tracee : tracee s tid;
  da_process : wf_process (process_ (st_debugger s));
  da_attached : origin_ (process_ (st_debugger s)) = Attached;
  da_alone : retained_processes_ (st_debugger s) = ∅;
  da_stopped : forall t state, task_states_ (process_ (st_debugger s)) !! t = Some state -> state = Stopped;
  da_held : all_held (task_states_ (process_ (st_debugger s))) s;
  da_unwatched : watchpoint_register_snapshot_ (st_debugger s) = None;
  da_mapped : forall x b, breakpoints_by_address_ (st_debugger s) !! x = Some b ->
    in_u64 x /\ mapped_word (st_world s) tid x
}.

(** What is left of a process that was let go: none of its threads is traced, the memory is
    the one the user saw, no breakpoint is in place, no process is followed. *)
Definition released (s s' : dst) (tid : Z) : Prop :=
  (forall t, is_Some (task_states_ (process_ (st_debugger s)) !! t) -> ~ k_traced (st_world s') t) /\
  (forall y, k_mem (st_world s') (k_space (st_world s) tid) y = user_mem s (k_space (st_world s) tid) y) /\
  (forall x b, breakpoints_by_address_ (st_debugger s') !! x = Some b -> bp_installed b = false) /\
  retained_processes_ (st_debugger s') = ∅ /\ state_ (process_ (st_debugger s')) = Detached.

(** The three steps of a release. *)
Lemma release_steps s tid :
  detachable s tid ->
  exists s1 s', restore_all_breakpoints s = (Ok tt, s1) /\ restore_watchpoint_registers s1 = (Ok tt, s1) /\
    on_process (Process.detach 0) s1 = (Ok tt, s') /\ released s s' tid.
Proof.
  intros [Ht Hw Ha Hr Hs Hh Hn Hm]. destruct (restore_all_run s tid Ht Hm) as (s1 & E & Hsp & Hview & Htab & _).
  pose proof (restore_keeps_rest (besides_tables (st_debugger s)) s eq_refl) as Hk. rewrite E in Hk. injection Hk as Hp1 Hr1 Hn1.
  pose proof (restore_keeps_held _ s Hh) as Hh1. rewrite E in Hh1.
  destruct (detach_releases_all (process_ (st_debugger s)) (st_world s1)) as (q & w' & Ed & Hd & _ & _ & _ & Hfree & _ & Hmem);
    [done|done| | |].
  { intros He. pose proof (tr_task _ _ Ht) as Htask. unfold task_state in Htask. by rewrite He, lookup_empty in Htask. }
  { intros t state Hst. split; [by apply (Hs t)|]. by apply Hh1. }
  eexists s1, _. split; [done|]. split; [unfold restore_watchpoint_registers; by rewrite run_get, Hn1, Hn|].
  split; [unfold on_process, zoom; rewrite Hp1, Ed; reflexivity|].
  split; [exact Hfree|]. split; [|split; [|split; [|exact Hd]]].
  - intros y. etransitivity; [by apply Hmem|]. rewrite <- Hview. symmetry. by eapply user_mem_real.
  - intros x b Hb. change (breakpoints_by_address_ (st_debugger s1) !! x = Some b) in Hb. rewrite Htab, fmap_Some in Hb.
    by destruct Hb as (b0 & _ & ->).
  - simpl. by rewrite Hr1.
Qed.

Lemma detach_run s tid :
  detachable s tid -> exists s', detach Suppress s = (Ok tt, s') /\ released s s' tid.
Proof.
  intros Hd. pose proof Hd as [Ht _ Ha Hr _ _ _ _].
  destruct (release_steps s tid Hd) as (s1 & s' & E1 & E2 & E3 & Hrel & Hmem & Hout & H3 & H4).
  unfold detach. rewrite run_get. mrun. rewrite bool_decide_true by done. cbn [negb].
  rewrite bool_decide_false by (by rewrite Ha; intros []).
  rewrite bool_decide_false by (rewrite (tr_state _ _ Ht); by intros []). rewrite (run_stopped_tid s tid) by done.
  rewrite (run_Ok _ _ _ _ _ E1), (run_Ok _ _ _ _ _ E2), (run_Ok _ _ _ _ _ E3).
  eexists. split; [reflexivity|]. by repeat split.
Qed.

Lemma destructor_run s tid :
  detachable s tid -> exists s', destructor s = (Ok tt, s') /\ released s s' tid.
Proof.
  intros Hd. pose proof Hd as [Ht _ Ha Hr _ _ _ _].
  destruct (release_steps s tid Hd) as (s1 & s' & E1 & E2 & E3 & Hs'). exists s'. split; [|done].
  unfold destructor. rewrite run_get, bool_decide_true by done. cbn [negb].
  rewrite !bool_decide_false by (rewrite ?Ha, ?(tr_state _ _ Ht); by intros []). cbn [orb].
  unfold mtry, mcatch. rewrite (run_Ok _ _ _ _ _ E1), (run_Ok _ _ _ _ _ E2). by rewrite E3.
Qed.

(** ** Removing breakpoints first *)

Definition kept (s s' : dst) (tid : Z) : Prop :=
  detachable s' tid /\ process_ (st_debugger s') = process_ (st_debugger s) /\
  k_space (st_world s') tid = k_space (st_world s) tid /\
  forall y, user_mem s' (k_space (st_world s) tid) y = user_mem s (k_space (st_world s) tid) y.

Lemma kept_refl s tid : detachable s tid -> kept s s tid.
Proof. done. Qed.
Lemma kept_trans s s1 s' tid : kept s s1 tid -> kept s1 s' tid -> kept s s' tid.
Proof.
  intros (_ & Hp & H1 & H2) (H3 & Hp' & H4 & H5). split; [done|]. split; [congruence|]. split; [congruence|].
  intros y. rewrite <- H2, <- H1. apply H5.
Qed.
Lemma kept_released s s1 s' tid : kept s s1 tid -> released s1 s' tid -> released s s' tid.
Proof.
  intros (_ & Hp & H1 & H2) (Hf & H3 & H4). split; [by rewrite <- Hp|]. split; [|done]. intros y. rewrite <- H2, <- H1. apply H3.
Qed.

(** Forgetting a breakpoint whose byte is in place. *)
Lemma forget_run id address s tid :
  detachable s tid ->
  (forall b, breakpoints_by_address_ (st_debugger s) !! address = Some b -> bp_installed b = true ->
     k_mem (st_world s) (k_space (st_world s) tid) address = Some (bp_original_byte b)) ->
  exists s', forget_breakpoint id address s = (Ok tt, s') /\ kept s s' tid.
Proof.
  intros [Ht Hw Ha Hr Hs Hh Hn Hm] Hb. unfold forget_breakpoint. rewrite run_get.
  set (stale := match pending_breakpoint_step_ _ with Some _ => _ | None => _ end).
  exists (mkSt (set_active (dset_breakpoints (delete address (breakpoints_by_address_ (st_debugger s)))
            (delete id (breakpoint_ids_ (st_debugger s)))
            (if stale then dset_pending_step None (active (st_debugger s)) else active (st_debugger s)))
            (st_debugger s)) (st_world s) (st_sequence s)).
  set (d' := set_active _ _).
  assert (Hq : process_ d' = process_ (st_debugger s)) by (unfold d'; by destruct stale).
  assert (Hb' : breakpoints_by_address_ d' = delete address (breakpoints_by_address_ (st_debugger s))) by done.
  split; [by destruct stale|]. split; [|split; [exact Hq|split; [done|]]].
  - split; cbn [st_debugger]; rewrite ?Hq; try done.
    + apply (tracee_same s); [done|done|done].
    + unfold d'. by destruct stale.
    + rewrite Hb'. intros x b [_ Hx]%lookup_delete_Some. by apply (Hm x b).
  - intros y. unfold user_mem. cbn [st_debugger st_world]. rewrite Hb'.
    destruct (decide (y = address)) as [->|Hy]; [|by rewrite lookup_delete_ne].
    rewrite lookup_delete_eq. destruct (_ !! address) as [b|] eqn:E; [|done]. destruct (bp_installed b) eqn:Ei; [|done].
    by apply Hb.
Qed.

Lemma remove_run id s tid :
  detachable s tid -> exists a s', remove_breakpoint id s = (Ok a, s') /\ kept s s' tid.
Proof.
  intros Hd. pose proof Hd as [Ht Hw Ha Hr Hs Hh Hn Hm]. unfold remove_breakpoint. rewrite run_get.
  destruct (breakpoint_ids_ (st_debugger s) !! id) as [address|]; [|by eexists _, s].
  destruct (breakpoints_by_address_ (st_debugger s) !! address) as [b|] eqn:Hb.
  - rewrite (bool_decide_true _ (tr_state _ _ Ht)), andb_true_r. destruct (bp_installed b) eqn:Hi; simpl.
    + destruct (Hm address b Hb) as [Hx Hmap].
      destruct (write_byte_stores _ _ _ (bp_original_byte b) Hx (tr_kernel _ _ Ht) Hmap) as (w' & Hwr & Hst).
      pose proof Hst as [Hsame Hmem]. rewrite run_assoc, (run_stopped_tid s tid) by done. erewrite run_kernel_Ok by exact Hwr.
      set (s1 := mkSt (st_debugger s) w' (st_sequence s)). pose proof (same_space _ _ Hsame tid) as Hsp.
      assert (H1 : detachable s1 tid).
      { pose proof (write_byte_held tid address (bp_original_byte b) _ s Hh) as Hh1.
        unfold kernel, zoom in Hh1. rewrite Hwr in Hh1. split; try done; [by apply (tracee_same s)|]. intros x c Hc. destruct (Hm x c Hc). split; [done|].
        by eapply mapped_stored. }
      destruct (forget_run id address s1 tid H1) as (s' & Ef & Hk).
      { intros c Hc _. change (breakpoints_by_address_ (st_debugger s) !! address = Some c) in Hc. rewrite Hb in Hc.
        injection Hc as <-. cbn [st_world s1]. rewrite Hsp, Hmem. by rewrite decide_True. }
      exists true, s'. split; [by rewrite (run_Ok _ _ _ _ _ Ef)|]. apply (kept_trans s s1); [|done].
      split; [done|]. split; [done|]. split; [exact Hsp|]. intros y. unfold user_mem, s1. cbn [st_debugger st_world]. rewrite Hmem.
      destruct (decide (y = address)) as [->|Hy]; [by rewrite Hb, Hi|by rewrite decide_False by tauto].
    + rewrite run_mskip. destruct (forget_run id address s tid Hd) as (s' & Ef & Hk); [congruence|].
      exists true, s'. by rewrite (run_Ok _ _ _ _ _ Ef).
  - rewrite run_mskip. destruct (forget_run id address s tid Hd) as (s' & Ef & Hk); [congruence|].
    exists true, s'. by rewrite (run_Ok _ _ _ _ _ Ef).
Qed.
End Detach.

(** ** The destructors *)

Section Destructors.
Context `{FA : FileAccess} `{H : Host} `{FI : FileIdentity} `{K : Kernel} `{PM : !ProcMaps K} `{T : TextFiles}.
Variable fuel : nat.

(** What the destructors of the controllers do to a debugger in [Q] is in [R]. *)
Section Controllers.
Context (Q : dst -> Prop) (R : dst -> dst -> Prop).
Hypothesis R_refl : forall d, Q d -> R d d.
Hypothesis R_trans : forall d1 d2 d3, R d1 d2 -> R d2 d3 -> R d1 d3.
Hypothesis removed : forall i o d, Q d ->
  exists o' d', Loader.remove_internal_breakpoint i (Loader.mkLst o d) = (Ok tt, Loader.mkLst o' d') /\ Q d' /\ R d d'.

Lemma destroy_deferred_run o d :
  Q d -> exists o' d', Loader.destroy_deferred (Loader.mkLst o d) = (Ok tt, Loader.mkLst o' d') /\ Q d' /\ R d d'.
Proof.
  intros Hq. unfold Loader.destroy_deferred, Loader.suspend_monitoring.
  destruct (removed Loader.LoaderBreak o d Hq) as (o1 & d1 & E1 & Hq1 & HR1). rewrite (run_Ok _ _ _ _ _ E1).
  destruct (removed Loader.Bootstrap o1 d1 Hq1) as (o2 & d2 & E2 & Hq2 & HR2). exists o2, d2. eauto.
Qed.

(** Every domain that has a controller still has one. *)
Definition controlled (l : list (Z * DomainState)) (r : UserBreakpointRegistry) : Prop :=
  forall pid dom, (pid, dom) ∈ l -> is_Some (ds_deferred dom) -> is_Some (domains_ r !! pid ≫= ds_deferred).

Lemma destroy_controllers_run l r d :
  Q d -> controlled l r ->
  exists r' d', mfor l (fun '(pid, dom) => mwhen (bool_decide (is_Some (ds_deferred dom)))
    (with_controller pid Loader.destroy_deferred)) (mkRst r d) = (Ok tt, mkRst r' d') /\ Q d' /\ R d d'.
Proof.
  revert r d. induction l as [|[pid dom] l IH]; intros r d Hq Hc; [by eexists _, d; eauto|].
  assert (Hl : controlled l r) by (intros p dm Hp; apply Hc; by right). simpl. case_bool_decide as Hd; [|by apply IH].
  destruct (Hc pid dom) as [o Ho]; [by left|done|].
  destruct (destroy_deferred_run o d Hq) as (o' & d1 & E & Hq1 & HR1).
  erewrite run_Ok; [|unfold with_controller; simpl; rewrite Ho, E; reflexivity].
  edestruct (fun r => IH r d1 Hq1) as (r' & d' & E' & Hq' & HR'); [|exists r', d'; split; [exact E'|eauto]].
  intros p dm Hp Hdm. simpl. destruct (decide (p = pid)) as [->|Hne]; [|rewrite lookup_alter_ne by done; by apply (Hl p dm)].
  rewrite lookup_alter_eq. destruct (domains_ r !! pid); [by eexists|done].
Qed.

(** The registry is destroyed, then the debugger. *)
Lemma leave_scope_run s :
  Q (rs_dst (lc_rst s)) ->
  exists s1, on_registry destroy_registry s = (Ok tt, s1) /\ Q (rs_dst (lc_rst s1)) /\
    R (rs_dst (lc_rst s)) (rs_dst (lc_rst s1)) /\
    forall d', destroy_debugger fuel (rs_dst (lc_rst s1)) = (Ok tt, d') ->
      exists s', leave_scope fuel s = (Ok tt, s') /\ rs_dst (lc_rst s') = d'.
Proof.
  intros Hq. destruct s as [[r d] f p o]. simpl in *.
  destruct (destroy_controllers_run (map_in_order (domains_ r)) r d Hq) as (r' & d1 & E & Hq1 & HR1).
  { intros pid dom Hp%elem_of_map_in_order Hd. by rewrite Hp. }
  assert (Er : on_registry destroy_registry (mkLiveCli (mkRst r d) f p o) = (Ok tt, mkLiveCli (mkRst r' d1) f p o)).
  { unfold on_registry, zoom, destroy_registry, get_registry. simpl. rewrite run_gets. simpl. by rewrite E. }
  exists (mkLiveCli (mkRst r' d1) f p o). split; [exact Er|]. split; [done|]. split; [done|]. intros d' Ed. simpl in Ed.
  exists (mkLiveCli (mkRst r' d') f p o). split; [|done]. unfold leave_scope. rewrite (run_Ok _ _ _ _ _ Er).
  unfold LivePrint.on_debugger, on_registry, with_debugger, zoom. simpl. by rewrite Ed.
Qed.
End Controllers.

(** A debugger without a stopped process: the controllers have nothing to remove. *)
Lemma remove_internal_idle i o d :
  state_ (process_ (st_debugger d)) <> Stopped ->
  exists o' d', Loader.remove_internal_breakpoint i (Loader.mkLst o d) = (Ok tt, Loader.mkLst o' d') /\
    state_ (process_ (st_debugger d')) <> Stopped /\ d' = d.
Proof.
  intros Hs. unfold Loader.remove_internal_breakpoint, Loader.get_object. rewrite run_gets.
  destruct (Loader.internal_id i (Loader.ls_object _)) as [id|]; [|by eexists _, d].
  unfold mtry, mcatch, mbind, M_bind, Loader.on_debugger, zoom, Loader.debugger_state. simpl.
  rewrite bool_decide_false by done. by eexists _, d.
Qed.

(** A stopped process: they remove their own breakpoints. *)
Lemma remove_internal_run `{L : !KernelLaws K} `{D : !DetachLaws K} tid i o d :
  detachable d tid ->
  exists o' d', Loader.remove_internal_breakpoint i (Loader.mkLst o d) = (Ok tt, Loader.mkLst o' d') /\
    detachable d' tid /\ kept d d' tid.
Proof.
  intros Hd. unfold Loader.remove_internal_breakpoint, Loader.get_object. rewrite run_gets.
  destruct (Loader.internal_id i (Loader.ls_object _)) as [id|]; [|by eexists _, d].
  destruct (remove_run id d tid Hd) as (a & d' & E & Hk).
  unfold mtry, mcatch, Loader.on_debugger, zoom, Loader.debugger_state. unfold mbind at 1 2, M_bind at 1 2. simpl.
  rewrite bool_decide_true by apply (tr_state _ _ (da_tracee _ _ Hd)). simpl. rewrite (run_Ok _ _ _ _ _ E). simpl.
  eexists _, d'. split; [reflexivity|]. split; [apply Hk|done].
Qed.

(** The members of a debugger whose process is detached are destroyed without an effect. *)
Lemma destroy_processes_idle d :
  retained_processes_ (st_debugger d) = ∅ -> state_ (process_ (st_debugger d)) = Detached ->
  (d0 ← get_debugger;
   _ ← mfor (map_in_order (retained_processes_ d0)) (fun '(_, dom) => kernel (destroy_process fuel (d_process dom)));
   kernel (destroy_process fuel (process_ d0))) d = (Ok tt, d).
Proof.
  intros Hr Hst. rewrite run_get, Hr, map_in_order_empty. simpl. rewrite run_mskip.
  unfold kernel, zoom, destroy_process, cleanup, get_process. rewrite run_gets. simpl.
  rewrite (bool_decide_true (state_ _ = Detached)) by done. rewrite orb_true_r. by destruct d.
Qed.

Lemma destroy_debugger_idle d :
  retained_processes_ (st_debugger d) = ∅ -> state_ (process_ (st_debugger d)) = Detached ->
  destroy_debugger fuel d = (Ok tt, d).
Proof.
  intros Hr Hst. unfold destroy_debugger. erewrite run_Ok; [by apply destroy_processes_idle|].
  unfold destructor. rewrite run_get, bool_decide_true by done. simpl.
  rewrite (bool_decide_true (state_ _ <> Stopped)) by (by rewrite Hst). by rewrite orb_true_r.
Qed.

Lemma destroy_debugger_run `{L : !KernelLaws K} `{D : !DetachLaws K} d tid :
  detachable d tid -> exists d', destroy_debugger fuel d = (Ok tt, d') /\ released d d' tid.
Proof.
  intros Hd. destruct (destructor_run d tid Hd) as (d' & E & Hd'). exists d'. split; [|done].
  unfold destroy_debugger. rewrite (run_Ok _ _ _ _ _ E). apply destroy_processes_idle; apply Hd'.
Qed.

Lemma leave_scope_idle s :
  retained_processes_ (cli_debugger s) = ∅ -> state_ (process_ (cli_debugger s)) = Detached ->
  exists s', leave_scope fuel s = (Ok tt, s') /\ rs_dst (lc_rst s') = rs_dst (lc_rst s).
Proof.
  intros Hr Hst.
  edestruct (leave_scope_run (fun d => state_ (process_ (st_debugger d)) <> Stopped) (fun d d' => d' = d)) as (s1 & _ & _ & E1 & Hl);
    [done|intros ??? -> ->; done|exact remove_internal_idle|instantiate (1 := s); unfold cli_debugger in Hst; by rewrite Hst|].
  apply Hl. rewrite E1. by apply destroy_debugger_idle.
Qed.

Context `{L : !KernelLaws K} `{D : !DetachLaws K}.

(** At a stop of a process that can be let go, leaving the scope lets it go. *)
Lemma leave_scope_releases s tid :
  detachable (rs_dst (lc_rst s)) tid ->
  exists s', leave_scope fuel s = (Ok tt, s') /\ released (rs_dst (lc_rst s)) (rs_dst (lc_rst s')) tid.
Proof.
  intros Hd.
  edestruct (leave_scope_run (fun d => detachable d tid) (fun d d' => kept d d' tid)) as (s1 & _ & Hq & Hk & Hl);
    [done|intros ???; apply kept_trans|exact (remove_internal_run tid)|exact Hd|].
  destruct (destroy_debugger_run _ tid Hq) as (d' & E & Hd'). destruct (Hl d' E) as (s' & Es & <-).
  exists s'. split; [done|]. by apply (kept_released _ _ _ _ Hk).
Qed.

Lemma detach_and_say_run s tid :
  detachable (rs_dst (lc_rst s)) tid ->
  exists s', detach_and_say s = (Ok tt, s') /\ released (rs_dst (lc_rst s)) (rs_dst (lc_rst s')) tid.
Proof.
  intros Hd. destruct (detach_run _ tid Hd) as (st' & E & Hs').
  set (s1 := mkLiveCli (mkRst (rs_registry (lc_rst s)) st') (lc_frame s) (lc_paths s) (lc_out s)).
  pose proof (out_run [Str ("detached" +:+ nl)] s1) as Eo.
  match type of Eo with _ = (_, ?s') => exists s'; split; [|exact Hs'] end. unfold detach_and_say.
  erewrite run_Ok; [|unfold LivePrint.on_debugger, on_registry, with_debugger, zoom; rewrite E; reflexivity]. exact Eo.
Qed.

Lemma quit_run command input s tid :
  detachable (rs_dst (lc_rst s)) tid -> command ∈ ["quit"; "q"; "detach"] ->
  exists s', run_command fuel command input s = (Ok true, s') /\ released (rs_dst (lc_rst s)) (rs_dst (lc_rst s')) tid.
Proof.
  intros Hd Hin. destruct (detach_and_say_run s tid Hd) as (s' & E & Hs'). exists s'. split; [|done].
  pose proof (da_attached _ _ Hd) as Ha. unfold run_command.
  rewrite !elem_of_cons, elem_of_nil in Hin. destruct Hin as [->|[->|[->|[]]]]; simpl; unfold get_cli_debugger; rewrite run_gets.
  - rewrite bool_decide_true by done. by rewrite (run_Ok _ _ _ _ _ E).
  - rewrite bool_decide_true by done. by rewrite (run_Ok _ _ _ _ _ E).
  - rewrite bool_decide_false by (unfold cli_debugger; rewrite Ha; by intros []). by rewrite (run_Ok _ _ _ _ _ E).
Qed.

(** A loop ends normally or by an exception. *)
Definition ended (r : res unit) : Prop := r = Ok tt \/ exists e, r = Throw e.

Lemma finally_run {S} (m cleanup : M S unit) s r s1 s' :
  m s = (r, s1) -> ended r -> cleanup s1 = (Ok tt, s') -> finally m cleanup s = (r, s').
Proof.
  intros E Hr Ec. unfold finally, mon_throw, mcatch, mbind, M_bind. rewrite E. destruct Hr as [->|[e ->]]; [done|].
  by rewrite Ec.
Qed.

(** C6: leaving an attached process lets it go, when every thread of it is stopped and traced,
    no other process is followed, no watchpoint is set and every breakpoint is in mapped memory.
    Then, when the user types [quit] or [detach], when the input ends and when a command throws,
    the destructors of the controllers and of the debugger included, the program ends as the
    loop did, no thread of the process is traced any more, its memory is what the user has seen
    all along, with no trap byte left in it, no breakpoint is recorded as in place and no task
    is left to follow. *)
Theorem leaving_releases_the_process (s : live_cli) tid :
  detachable (rs_dst (lc_rst s)) tid ->
  (forall line command input rest, next_token line = Some (command, input) -> command ∈ ["quit"; "q"; "detach"] ->
     exists s', finally (command_loop fuel (line :: rest)) (leave_scope fuel) s = (Ok tt, s') /\
       released (rs_dst (lc_rst s)) (rs_dst (lc_rst s')) tid) /\
  (forall lines s0 r, command_loop fuel lines s0 = (r, s) -> ended r ->
     exists s', finally (command_loop fuel lines) (leave_scope fuel) s0 = (r, s') /\
       released (rs_dst (lc_rst s)) (rs_dst (lc_rst s')) tid).
Proof.
  intros Hd. split.
  - intros line command input rest Htoken Hin. pose proof (out_run [Str "(mdbg) "] s) as Eo. set (o := CliTextProofs.written _ _) in Eo.
    destruct (quit_run command input (mkLiveCli (lc_rst s) (lc_frame s) (lc_paths s) o) tid Hd Hin) as (s1 & E & Hs1).
    destruct (leave_scope_idle s1) as (s' & El & Hs'); [apply Hs1|apply Hs1|]. exists s'. rewrite Hs'. split; [|done].
    eapply finally_run; [|by left|exact El].
    cbn [command_loop]. unfold cli_stopped. rewrite run_gets, bool_decide_true by apply (da_tracee _ _ Hd). simpl.
    rewrite (run_Ok _ _ _ _ _ Eo). unfold run_line. rewrite Htoken. by rewrite (run_Ok _ _ _ _ _ E).
  - intros lines s0 r E Hr. destruct (leave_scope_releases s tid Hd) as (s' & El & Hs'). exists s'. split; [|done].
    by eapply finally_run.
Qed.
End Destructors.

(** ** A process attached to, with a breakpoint in place *)

Definition attached_tracee : process := single_stopped_task 100 (new_process 100 Attached).
Definition attached_dst : dst (K := SimKernel) :=
  snd (add_breakpoint (K := SimKernel) 0x1001
    (mkSt (K := SimKernel) (new_debugger attached_tracee demo_stop "/bin/tracee") demo_world 1)).
Definition attached_live : live_cli (K := SimKernel) :=
  mkLiveCli (mkRst (new_registry live_preferred) attached_dst) None [] empty_stream.

Lemma attached_table : breakpoints_by_address_ (st_debugger attached_dst) = {[0x1001 := demo_bp]}.
Proof. by vm_compute. Qed.

Lemma attached_detachable : detachable (L := SimKernelLaws) attached_dst 100.
Proof.
  split.
  - by split; vm_compute.
  - assert (process_ (st_debugger attached_dst) = attached_tracee) as -> by (vm_compute; reflexivity).
    apply wf_single_stopped_task.
  - by vm_compute.
  - by vm_compute.
  - assert (task_states_ (process_ (st_debugger attached_dst)) = {[100 := Stopped]}) as -> by (vm_compute; reflexivity).
    by intros t state [_ <-]%lookup_singleton_Some.
  - intros t _. split; [done|]. simpl. assert (sm_released (st_world attached_dst) = ∅) as -> by (vm_compute; reflexivity).
    apply not_elem_of_empty.
  - by vm_compute.
  - intros x b. rewrite attached_table. intros [<- <-]%lookup_singleton_Some.
    split; [unfold in_u64, u64_max; lia|]. solve_mapped.
Qed.

Definition attached_loop (lines : list string) : M (live_cli (K := SimKernel)) unit :=
  command_loop (FA := CoreCliProofs.NoFiles) (H := SessionHost) (FI := DemoIdentity) (PM := DemoMaps) (T := NoText) 10 lines.
Definition attached_leave : M (live_cli (K := SimKernel)) unit := leave_scope 10.

(** The byte at 0x1001. *)
Definition byte_there (s : live_cli (K := SimKernel)) : option byte :=
  k_mem (K := SimKernel) (KernelLaws := SimKernelLaws) (st_world (rs_dst (lc_rst s))) 0 0x1001.

(** The debugger traces the thread. *)
Definition traced_there (s : live_cli (K := SimKernel)) (t : Z) : Prop :=
  k_traced (DetachLaws := SimDetach) (st_world (rs_dst (lc_rst s))) t.

Lemma leaving_releases_the_process_witness :
  byte_there attached_live = Some kInt3 /\ traced_there attached_live 100 /\
  (exists s', finally (attached_loop ["detach"]) attached_leave attached_live = (Ok tt, s') /\
     byte_there s' = Some (byte_of_Z 0x48) /\ ~ traced_there s' 100) /\
  (exists s', finally (attached_loop []) attached_leave attached_live = (Ok tt, s') /\
     byte_there s' = Some (byte_of_Z 0x48) /\ ~ traced_there s' 100).
Proof.
  assert (H100 : is_Some (task_states_ (process_ (st_debugger attached_dst)) !! 100)) by (eexists; vm_compute; reflexivity).
  split; [vm_compute; reflexivity|]. split; [apply (da_held _ _ attached_detachable), H100|]. split.
  - destruct (leaving_releases_the_process (FA := CoreCliProofs.NoFiles) (H := SessionHost) (FI := DemoIdentity)
      (PM := DemoMaps) (T := NoText) (D := SimDetach) 10 attached_live 100 attached_detachable) as [Hquit _].
    destruct (Hquit "detach" "detach" "" []) as (s' & E & Hf & Hm & _); [reflexivity|by repeat constructor|].
    exists s'. split; [exact E|]. split; [exact (Hm 0x1001)|exact (Hf 100 H100)].
  - destruct (leaving_releases_the_process (FA := CoreCliProofs.NoFiles) (H := SessionHost) (FI := DemoIdentity)
      (PM := DemoMaps) (T := NoText) (D := SimDetach) 10 (snd (attached_loop [] attached_live)) 100 attached_detachable) as [_ Hend].
    destruct (Hend [] attached_live (Ok tt)) as (s' & E & Hf & Hm & _); [reflexivity|by left|].
    exists s'. split; [exact E|]. split; [exact (Hm 0x1001)|exact (Hf 100 H100)].
Defined.
